(* ===== verification/_CoqProject ===== *)
-Q . S2P
Prelude.v
Errors.v
Types.v
Justifiable.v
Stf.v
StfWindow.v
StfProofs.v
StfQuorum.v
ToyHash.v
StfTheorems.v
CachedTree.v
CachedTreeProofs.v
CachedTreeOps.v
CachedTreeFinalize.v
CachedTreeRemove.v
CachedTreeTheorems.v
Storage.v
BlockStorage.v
BlockStorageSpec.v
ToyStore.v
StorageTheorems.v
BlockTree.v
BlockTreeProofs.v
BlockTreeTheorems.v
LruCache.v
LruProofs.v
ForkChoice.v
ForkChoiceProofs.v
ForkChoiceGhost.v
ForkChoiceVotes.v
ForkChoiceBlocks.v
ToyForkChoice.v
ForkChoiceTheorems.v
Networking.v
NetworkingProofs.v
NetworkingSteps.v
ForkChoiceChain.v
NetworkingTheorems.v
Peers.v
PeersProofs.v
PeersTheorems.v
Startup.v
StartupProofs.v
StartupTheorems.v
Rlp.v
RlpProofs.v
Enr.v
EnrTheorems.v
Snappy.v
SnappyTheorems.v
Protocols.v
Yaml.v
Registry.v
NetworkingModule.v
Scheduler.v
SchedulerTheorems.v
Subscription.v
SubscriptionTheorems.v
StateManager.v
StateManagerTheorems.v
Watchdog.v
Production.v
Parsers.v
Configurator.v
ConfiguratorTheorems.v
FdLimit.v
Xmss.v
Json.v
JsonTheorems.v
Genesis.v
GenesisTheorems.v
HttpServer.v
GenerateGenesis.v
GenerateGenesisTheorems.v
RocksDb.v
RocksDbTheorems.v
Cursor.v
Blake2.v
Metrics.v
Loaders.v
