(* ===== verification/Prelude.v ===== *)
(** * Verification of qlean-mini

    qlean-mini is a C++ node of the lean Ethereum consensus: it keeps a tree of blocks, follows
    the votes of the validators, produces blocks and votes, and exchanges them with peers.  This
    library models the node's own logic as executable functions and proves what makes it correct.

    ** The program and its parts

    The timeline (app/impl/timeline_impl.cpp) announces every interval of the clock through the
    subscription engine (se/).  The production module (modules/production) answers by moving the
    fork choice store (blockchain/fork_choice.cpp) to the current time, which makes the node's
    blocks and votes.  The networking module (modules/networking) receives blocks and votes,
    keeps those whose parent is missing, and hands them to the fork choice store.  The store runs
    the state transition (blockchain/state_transition_function.cpp) and writes to the block tree
    (blockchain/impl/block_tree_impl.cpp), which keeps its unfinalized part in memory
    (cached_tree.cpp) and everything in the block storage (block_storage_impl.cpp) over a
    key-value store (storage/).  At the start the initializers read the tree back.  The state
    manager (app/impl/state_manager_impl.cpp) runs the life cycle of all of these.  Before that,
    the configurator (app/configurator.cpp) reads the command line and the configuration file, and
    the genesis files or the state of another node give the anchor (blockchain/impl/
    anchor_state_impl.cpp).  An HTTP interface (app/impl/http_server.cpp) answers queries.
    Signatures are made and checked by a provider over a foreign library (crypto/xmss), with the
    keys that a manifest of the node loads.  The loaders (loaders/impl) connect the modules to the
    events, and the application runs it all beside a watchdog (app/impl/application_impl.cpp).

    ** Files (paths under src/src)

    - Prelude.v: machine integers, the state and error monad [SM], assertions, lists, tactics and
      hint databases.  Errors.v: the error enums and what a call may end with.
    - Types.v: types/ — records with the fields of the C++ structs, intervals, bit lists, and
      [SszHash], the interface to the SSZ hash.  ToyHash.v: an instance for the examples.
    - Justifiable.v: blockchain/is_justifiable_slot.hpp with binary64 sqrt and fmod, and the 3SF
      rule.
    - Stf.v, StfWindow.v, StfProofs.v, StfQuorum.v, StfTheorems.v: the state transition function,
      every operation; the well-formed states, where justification comes from, finality.
    - CachedTree.v, CachedTreeProofs.v, CachedTreeOps.v, CachedTreeFinalize.v, CachedTreeRemove.v,
      CachedTreeTheorems.v: blockchain/impl/cached_tree.{hpp,cpp}.  A shared node is an entry of a
      map keyed by the block hash; weak parents and children are fields of the entry.
    - Storage.v, BlockStorage.v, BlockStorageSpec.v, ToyStore.v, StorageTheorems.v: storage/ and
      the block storage; BlockStorageSpec.v has the abstract store (headers, bodies, signatures,
      states, slots and leaves as maps) that the operations implement, and the class
      [BlockStorageLaws] that clients use.
    - BlockTree.v, BlockTreeProofs.v, BlockTreeTheorems.v: every method of BlockTreeImpl, proved
      against [BlockStorageLaws].
    - LruCache.v, LruProofs.v: utils/lru_cache.hpp.
    - ForkChoice.v, ForkChoiceProofs.v, ForkChoiceGhost.v, ForkChoiceVotes.v, ForkChoiceBlocks.v,
      ToyForkChoice.v, ForkChoiceTheorems.v: every method of ForkChoiceStore.
    - Networking.v, NetworkingProofs.v, NetworkingSteps.v, NetworkingTheorems.v: the handlers of
      blocks, votes and statuses with their caches, against the interface [Chain];
      ForkChoiceChain.v shows that the fork choice store is one.
    - Peers.v, PeersProofs.v, PeersTheorems.v: the connection states of the bootnodes.
    - Protocols.v: the status and block request protocols and gossip as programs over streams,
      with serde/serialization.hpp and modules/networking/ssz_snappy.hpp under them.
    - NetworkingModule.v: the rest of networking.cpp: its loading, subnets, names and counts of
      peers, and the identifiers and topics of gossip messages.
    - Loaders.v: the loaders, se/subscription.hpp, the hash that chooses an engine and the events
      of the timeline and the block tree: who is subscribed to what, over Subscription.v.
    - Startup.v, StartupProofs.v, StartupTheorems.v: the block storage and block tree
      initializers and the anchor block.
    - Rlp.v, RlpProofs.v, Enr.v, EnrTheorems.v: serde/enr.{hpp,cpp}, RLP and node records.
    - Snappy.v, SnappyTheorems.v: serde/snappy.hpp, framed messages and streams.
    - Yaml.v: parsed YAML documents.  Registry.v: blockchain/impl/validator_registry_impl.cpp over
      such a document.
    - Scheduler.v, SchedulerTheorems.v, Subscription.v, SubscriptionTheorems.v: se/impl, from the
      queue of one worker thread to the subscription manager.
    - StateManager.v, StateManagerTheorems.v: app/impl/state_manager_impl.cpp.
    - Watchdog.v: app/impl/watchdog.hpp and the two threads of ApplicationImpl::run.
    - FdLimit.v: utils/fd_limit.cpp.  Metrics.v: timers, the Prometheus registry and handler.
    - Xmss.v: crypto/xmss and app/impl/validator_keys_manifest_impl.cpp.  The objects of the
      foreign library are in a heap, so that leaks and uses after free are visible.
    - Blake2.v: crypto/blake2 at both widths, and, in [Rfc7693], the function of the RFC written
      from its text: constants from the square roots of primes, words as sums, vectors as functions.
    - Production.v: the timeline and the production module, over ForkChoice.v.
    - Parsers.v: utils/parsers.hpp.
    - Configurator.v, ConfiguratorTheorems.v: app/configurator.cpp and the steps of
      executable/lean_node.cpp that call it, in the order of the code.
    - Json.v, JsonTheorems.v: serde/json.hpp; the overloads are cases on descriptions of types.
    - Genesis.v, GenesisTheorems.v: the readers of config.yaml and nodes.yaml, the chain
      specification, the client that downloads a state, and the choice of the anchor state.
    - HttpServer.v: the request handlers of app/impl/http_server.cpp, over ForkChoice.v and Json.v.
    - GenerateGenesis.v, GenerateGenesisTheorems.v: commands/generate_genesis.hpp; its files are
      read with the readers of Genesis.v and Registry.v.
    - RocksDb.v, RocksDbTheorems.v: storage/rocksdb, the store of the node.  A space object refers
      to an element of the vector of handles, and is its position here; the database may be gone.
    - Cursor.v: the cursors of both stores, behind the class [MapCursor], and
      the slot iterator.

    ** How code becomes definitions

    A method of a class is a function on a record of its fields.  One that can fail is in [SM]: it
    gives a result, an error of the code's enums, or an exception ([Throw], with
    [UndefinedBehaviour] for what C++ leaves undefined), and the state it leaves, also when it
    fails.  Unsigned integers are [N] with the wrap-around written out.  The order in which a hash
    table is walked is a parameter ([UnorderedMap], [UnorderedMultimap], [UnorderedSet]) and the theorems hold for
    every order.  Code that several threads run is a function per critical section, and a state is
    reachable by any interleaving of them, at times of a clock that does not go back.

    ** What the theorems show

    - Consensus: on every chain from genesis the states are well formed, justification has votes
      of two thirds of the validators (counted whatever the source of a vote is, so that finality
      needs no supermajority link, [finality_mixes_sources]), finality does not go back, and every
      block gives a state, a declared error, or one assertion that is named; the bit window is a
      set of slots and the floating-point test is the rule.
    - Tree and storage: the invariants of the tree, finalization keeps exactly the new subtree in
      memory and on disk, the storage implements its specification, a restart restores the
      tree that the state of the latest leaf describes; the database is a map for each space that
      survives closing; cursors visit every key once, in order.
    - Fork choice: the head is the block of the LMD GHOST rule, or stays when it was pruned; votes only move forward within a
      stage, validation decides, targets are justifiable, aggregation loses no vote, the clock
      reaches the current interval.
    - Synchronization: the caches stay consistent and a block is imported with all that waited
      for it; the peer table stays consistent and attempts fill the connections.  A handshake
      gives each side the other's status, a requested block is served, gossip delivers every
      block once and in order, whatever the other handlers do in between; every connected peer is
      counted once, except on the connection of a connectable aggregator, which throws.
    - Signatures: the provider gives the answers of the interface that the fork choice is
      verified against and leaves no object of the library behind; what a
      generated key signs is verified, also when the key was read back; an attestation is
      accepted only with a signature that verifies.
    - Events: schedulers keep order, lose no wake-up and stop; notifications reach every live
      subscriber in order; iterators of subscribers stay valid; stages of the life cycle run in
      order, also when a callback throws out of [run], and a request to shut down ends [run]; the
      timeline announces every interval and
      production follows it; in a running node every event reaches exactly the handlers that are
      listed for it.  The watchdog aborts only when a thread is late, the application returns
      when the state manager does, a measurement of a timer ends once, and the limit of open files
      is the largest that the system accepts.
    - Formats: node records, RLP and framed messages are read back, decoding ends without
      undefined behaviour or says where there is some; the registry and the quantities are read
      as documented; JSON values are read back, and a decoded value has its type; BLAKE2 is the
      function of RFC 7693 however a message is cut, and the compile-time hash is MurmurHash2.
    - Start and queries: which of command line, file and default gives each setting; where the
      anchor state and the bootnodes come from; no HTTP request changes the tree, the votes, the
      clock or the head, and the aggregator flag is a register; which of the files that
      generate-genesis writes the node can read.

    Where the code does not do what it means to, a theorem states what it does: for instance
    [updateHead_follows_ghost] (a pruned head), [bestWith_misses_equal_slots],
    [assignHashToSlot_overwrites], [mark_fork_never_ends], [unsubscribe_iterators_valid],
    [shutdown_race], [events_routed] (finalization reaches nobody), [remove_keeps_only],
    [registerMetric_grows], [metrics_errors_ignored], [skipped_record_shifts_validators],
    [generated_genesis_unreadable], [spaceFromString_shifted], [last_slot_is_bytewise].

    ** Bounds and fuel

    Loops that follow parents through the storage take [loop_fuel]; the theorems ask for more than
    the number of blocks on the way, and say so where they matter ([attestation_target_justifiable],
    [updateHead_follows_ghost]).  Walks in the tree take the size of the tree, which
    [lmd_ghost_correct] and the tree theorems show to be enough; the import loop takes the size of
    the block cache plus one; the repair of the leaves makes at most 64 probes; the walk over the
    slot index takes the number of records ([walk_back_visits_all]); RLP and snappy
    loops take the length of the input, of which each round consumes at least a byte.

    ** Parameters

    [SszHash] (hash_tree_root), [Codec] with [CodecLaws] (SSZ encodings), [SpacedStorage] with
    [SpacedStorageLaws] (the store), [RocksLibrary] with [RocksLaws] and [FaultFree],
    [RocksIterator] with [RocksIteratorLaws] (the database library, with and without faults of
    the device), [GenesisTools] (sample peers, text and files of generate-genesis), [XmssProvider] and
    [NodeKeys] (signatures and the validators of the node), [SlotCursor] (the database cursor),
    [EnrLibraries] with [EnrLaws] (base64, keccak, secp256k1), [SnappyLibrary] with
    [SnappyLaws] (snappy and CRC32C), [YamlNumber] (numbers of yaml-cpp), [ConfigLibraries],
    [Filesystem] and [ShadowBuild] (boost's endpoints and keys, the file system, the build
    option), [GenesisLibraries] (URLs, addresses, keys in hexadecimal), [Hex] and
    [HttpLibraries] (hexadecimal, rapidjson), [Uniform] (random choice), [BuildMode] (whether
    assertions are compiled in), [SlWarn] (whether a log message is evaluated), [Ssz] with
    [SszLaws], [Varint] with [VarintLaws] and [Sha256Library] (the codecs and the hash of the
    protocols), [QuicAddress] (addresses of libp2p), [OsLimits] (getrlimit and setrlimit),
    [HashSig] with [HashSigLaws] and [FakeBytes] (the foreign signature library and the random
    bytes of the fake provider), [Prometheus] (families of metrics).  The names that
    the compiler gives to the functions whose hash chooses an engine are a parameter of Loaders.v,
    which asks that no two of them collide.  Each has an
    instance in the examples that the witnesses use.

    ** Not modelled

    The libp2p host, sockets, TLS and the timers of boost, which are I/O around the handlers
    modelled; the injector; logging; the foreign code behind [HashSig]; the hash wrappers, one
    call each into a library, and the two keccak headers, which nothing includes; modules/module_loader.cpp,
    which the node includes and does not call; utils/channel.hpp, which no other file uses.
    Memory is modelled for the objects of the signature library only: elsewhere an allocation does
    not fail, and pointers are the objects they name. *)

From Stdlib Require Export ZArith Lia.
From stdpp Require Export base tactics numbers gmap sorting option list.

#[global] Open Scope N_scope.

(** ** Machine integers

    Every [uint64_t], [size_t] and hash of the program is an [N].  Arithmetic
    that the program performs on [uint64_t] is written with the wrap-around
    operations below; a plain [+] only appears where the source works on
    container positions that cannot overflow. *)
Definition two64 : N := 2 ^ 64.
Definition u64 (x : N) : N := x mod two64.
Definition u64_add (a b : N) : N := u64 (a + b).
Definition u64_sub (a b : N) : N := u64 (a + two64 - u64 b).
Definition u64_mul (a b : N) : N := u64 (a * b).

(** ** Outcomes

    [outcome E A] is Boost.Outcome's [outcome::result<A>] extended with the way a
    C++ function can leave without returning: [Throw] carries the exception,
    failed assertion, process abort or divergence. *)
Inductive exn :=
| AssertFailed          (* BOOST_ASSERT, in a build that keeps assertions *)
| BadOptionalAccess     (* std::optional::value on an empty optional *)
| BadCast               (* a cast of a reference to another class *)
| OutOfRange            (* at() outside a container *)
| BadWeakPtr            (* explicit throw std::bad_weak_ptr *)
| BadVariantAccess      (* std::get of another alternative *)
| UndefinedBehaviour    (* read outside a container, null dereference *)
| DivisionByZero        (* integer % 0: undefined *)
| LogicError            (* explicit throw std::logic_error *)
| RuntimeError          (* explicit throw std::runtime_error *)
| SystemError           (* qtils::raise, value() of a failed result: std::system_error *)
| BadResultAccess       (* error() of a successful result *)
| ErrorEnumThrown       (* explicit throw of an error enum *)
| Fatal                 (* SL_FATAL: log and abort *)
| OutOfFuel.            (* the loop did not finish within the model's fuel *)

Inductive outcome (E A : Type) :=
| Ok (a : A)
| Err (e : E)
| Throw (x : exn).
Arguments Ok {E A} a.
Arguments Err {E A} e.
Arguments Throw {E A} x.

#[global] Instance outcome_ret E : MRet (outcome E) := λ A a, Ok a.
#[global] Instance outcome_bind E : MBind (outcome E) := λ A B f m,
  match m with
  | Ok a => f a
  | Err e => Err e
  | Throw x => Throw x
  end.
#[global] Instance outcome_fmap E : FMap (outcome E) := λ A B f m,
  match m with
  | Ok a => Ok (f a)
  | Err e => Err e
  | Throw x => Throw x
  end.

(** Every exception [m] leaves with satisfies [P]. *)
Definition throws_only {E A} (P : exn → Prop) (m : outcome E A) : Prop :=
  match m with Throw x => P x | _ => True end.

(** Whether the build keeps [BOOST_ASSERT] (the CMake presets are Debug builds,
    which do) or drops it (NDEBUG). *)
Class BuildMode := asserts_enabled : bool.
Definition DebugBuild : BuildMode := true.
Definition ReleaseBuild : BuildMode := false.

Definition boost_assert {E} `{BuildMode} (b : bool) : outcome E () :=
  if asserts_enabled && negb b then Throw AssertFailed else Ok ().

Definition of_option {E A} (x : exn) (o : option A) : outcome E A :=
  match o with Some a => Ok a | None => Throw x end.

(** Loops over a container that leave at the first error. *)
Fixpoint oc_iter {E A} (f : A → outcome E ()) (l : list A) : outcome E () :=
  match l with
  | [] => Ok ()
  | x :: l => _ ← f x; oc_iter f l
  end.
Fixpoint oc_foldl {E A B} (f : B → A → outcome E B) (b : B) (l : list A) : outcome E B :=
  match l with
  | [] => Ok b
  | x :: l => b' ← f b x; oc_foldl f b' l
  end.
(** A search loop: stops at the first element for which [f] holds. *)
Fixpoint oc_any {E A} (f : A → outcome E bool) (l : list A) : outcome E bool :=
  match l with
  | [] => Ok false
  | x :: l => b ← f x; if (b : bool) then Ok true else oc_any f l
  end.
(** A loop that returns false at the first element for which [f] does not hold. *)
Fixpoint oc_all {E A} (f : A → outcome E bool) (l : list A) : outcome E bool :=
  match l with
  | [] => Ok true
  | x :: l => b ← f x; if (b : bool) then oc_all f l else Ok false
  end.

(** ** State with errors

    A method that mutates an object and returns an [outcome] keeps the mutations
    made before the error; [SM S E A] threads the state through errors. *)
Definition SM (S E A : Type) : Type := S → outcome E A * S.

#[global] Instance sm_ret S E : MRet (SM S E) := λ A a s, (Ok a, s).
#[global] Instance sm_bind S E : MBind (SM S E) := λ A B f m s,
  match m s with
  | (Ok a, s') => f a s'
  | (Err e, s') => (Err e, s')
  | (Throw x, s') => (Throw x, s')
  end.

Definition sm_get {S E} : SM S E S := λ s, (Ok s, s).
Definition sm_put {S E} (s : S) : SM S E () := λ _, (Ok (), s).
Definition sm_modify {S E} (f : S → S) : SM S E () := λ s, (Ok (), f s).
Definition sm_lift {S E A} (m : outcome E A) : SM S E A := λ s, (m, s).
Definition sm_err {S E A} (e : E) : SM S E A := λ s, (Err e, s).
Definition sm_throw {S E A} (x : exn) : SM S E A := λ s, (Throw x, s).

(** [sm_try m] runs [m] and returns its result as a value, as the code does when it
    stores an [outcome::result] and tests [has_error()].  Exceptions still escape. *)
Definition sm_try {S E A} (m : SM S E A) : SM S E (A + E) := λ s,
  match m s with
  | (Ok a, s') => (Ok (inl a), s')
  | (Err e, s') => (Ok (inr e), s')
  | (Throw x, s') => (Throw x, s')
  end.

(** Range-based [for] over a snapshot of a container, leaving at the first error. *)
Fixpoint sm_iter {S E A} (f : A → SM S E ()) (l : list A) : SM S E () :=
  match l with
  | [] => mret ()
  | x :: l => f x ≫= λ _, sm_iter f l
  end.

(** ** Ranges of [N] (std::views::iota and counting loops) *)
Definition seqN (start len : N) : list N :=
  (λ i, start + N.of_nat i) <$> seq 0 (N.to_nat len).

Definition lengthN {A} (l : list A) : N := N.of_nat (length l).

(** ** Lemmas on outcomes *)
Section outcome_lemmas.
Context {E A B : Type}.
Implicit Types (m : outcome E A) (f : A → outcome E B).

Lemma outcome_bind_ok m f b :
  m ≫= f = Ok b ↔ ∃ a, m = Ok a ∧ f a = Ok b.
Proof. destruct m; naive_solver. Qed.

Lemma outcome_bind_err m f e :
  m ≫= f = Err e ↔ m = Err e ∨ ∃ a, m = Ok a ∧ f a = Err e.
Proof. destruct m; naive_solver. Qed.

Lemma throws_only_bind P m f :
  throws_only P m → (∀ a, m = Ok a → throws_only P (f a)) → throws_only P (m ≫= f).
Proof. destruct m; naive_solver. Qed.

Lemma of_option_ok x (o : option A) a : of_option (E:=E) x o = Ok a ↔ o = Some a.
Proof. destruct o; naive_solver. Qed.

Lemma boost_assert_ok `{BuildMode} b (u : ()) :
  boost_assert (E:=E) b = Ok u → asserts_enabled = true → b = true.
Proof. unfold boost_assert. destruct asserts_enabled, b; naive_solver. Qed.

Lemma boost_assert_true `{BuildMode} : boost_assert (E:=E) true = Ok ().
Proof. unfold boost_assert. by rewrite andb_false_r. Qed.
End outcome_lemmas.

(** ** Lemmas on state with errors *)
Section sm_lemmas.
Context {S E A B : Type}.
Implicit Types (m : SM S E A) (f : A → SM S E B).

Lemma sm_bind_ok m f s x s' : m s = (Ok x, s') → (m ≫= f) s = f x s'.
Proof. intros Hm. unfold mbind, sm_bind. by rewrite Hm. Qed.
Lemma sm_bind_err m f s e s' : m s = (Err e, s') → (m ≫= f) s = (Err e, s').
Proof. intros Hm. unfold mbind, sm_bind. by rewrite Hm. Qed.
Lemma sm_bind_throw m f s x s' : m s = (Throw x, s') → (m ≫= f) s = (Throw x, s').
Proof. intros Hm. unfold mbind, sm_bind. by rewrite Hm. Qed.
Lemma sm_bind_ok_inv m f s y s' :
  (m ≫= f) s = (Ok y, s') → ∃ x s1, m s = (Ok x, s1) ∧ f x s1 = (Ok y, s').
Proof. unfold mbind, sm_bind. destruct (m s) as [[] ?]; naive_solver. Qed.
End sm_lemmas.

Lemma boost_assert_release {E} b : @boost_assert E ReleaseBuild b = Ok ().
Proof. done. Qed.

Section loop_lemmas.
Context {E A B : Type}.

(** Invariant rule for [oc_foldl]. *)
Lemma oc_foldl_inv (P : B → Prop) (f : B → A → outcome E B) l b b' :
  P b → (∀ b x b', x ∈ l → P b → f b x = Ok b' → P b') →
  oc_foldl f b l = Ok b' → P b'.
Proof.
  revert b. induction l as [|x l IH]; intros b Hb Hf; simpl.
  - by intros [= <-].
  - intros (b1 & H1 & H2)%outcome_bind_ok. eapply IH; [|naive_solver set_solver|done].
    eapply Hf; [|done|done]. by left.
Qed.

Lemma oc_foldl_throws_only Q (P : B → Prop) (f : B → A → outcome E B) l b :
  P b →
  (∀ b x, x ∈ l → P b → throws_only Q (f b x)) →
  (∀ b x b', x ∈ l → P b → f b x = Ok b' → P b') →
  throws_only Q (oc_foldl f b l).
Proof.
  revert b. induction l as [|x l IH]; intros b Hb Ht Hf; [done|]. simpl.
  apply throws_only_bind.
  - apply Ht; [by left|done].
  - intros b1 H1. apply IH.
    + eapply Hf; [|done|done]. by left.
    + intros. apply Ht; [by right|done].
    + intros ????. apply Hf. by right.
Qed.

(** Where a loop throws. *)
Lemma oc_foldl_throw (f : B → A → outcome E B) l b x :
  oc_foldl f b l = Throw x →
  ∃ pre a post b', l = pre ++ a :: post ∧ oc_foldl f b pre = Ok b' ∧ f b' a = Throw x.
Proof.
  revert b. induction l as [|y l IH]; intros b; [done|]. simpl. destruct (f b y) as [b1|e|x'] eqn:Hy; simpl.
  - intros (pre & a & post & b' & -> & Hpre & Ha)%IH. exists (y :: pre), a, post, b'. split; [done|]. split; [|done].
    simpl. by rewrite Hy.
  - done.
  - intros [= ->]. by exists [], y, l, b.
Qed.

Lemma oc_any_false (f : A → outcome E bool) l :
  oc_any f l = Ok false → ∀ x, x ∈ l → f x = Ok false.
Proof.
  induction l as [|y l IH]; simpl; [set_solver|].
  intros (b & Hb & Hl)%outcome_bind_ok x Hx. destruct b; [done|].
  apply elem_of_cons in Hx as [->|Hx]; eauto.
Qed.

Lemma oc_any_throws_only Q (f : A → outcome E bool) l :
  (∀ x, x ∈ l → throws_only Q (f x)) → throws_only Q (oc_any f l).
Proof.
  induction l as [|y l IH]; intros Hf; [done|]. simpl. apply throws_only_bind.
  - apply Hf. by left.
  - intros [] _; [done|]. apply IH. intros. apply Hf. by right.
Qed.

Lemma oc_iter_ok (f : A → outcome E ()) l :
  (∀ x, x ∈ l → f x = Ok ()) → oc_iter f l = Ok ().
Proof.
  induction l as [|x l IH]; intros Hf; [done|]. simpl.
  rewrite Hf by (by left). apply IH. intros. apply Hf. by right.
Qed.

Lemma oc_iter_ok_inv (f : A → outcome E ()) l u :
  oc_iter f l = Ok u → ∀ x, x ∈ l → f x = Ok ().
Proof.
  induction l as [|y l IH]; simpl; [set_solver|].
  intros (v & Hv & Hl)%outcome_bind_ok x [->|Hx]%elem_of_cons; destruct v; eauto.
Qed.

Lemma oc_any_spec (f : A → outcome E bool) (g : A → bool) l :
  (∀ x, x ∈ l → f x = Ok (g x)) → oc_any f l = Ok (existsb g l).
Proof.
  induction l as [|x l IH]; intros Hf; [done|]. simpl.
  rewrite Hf by (by left). simpl. destruct (g x); [done|].
  apply IH. intros. apply Hf. by right.
Qed.
End loop_lemmas.

(** [outcome_inv H] turns [H : m ≫= f = Ok b] into the successful steps it is made
    of, destructing every branch in between. *)
Ltac outcome_step H :=
  lazymatch type of H with
  | mbind ?f ?m = Ok _ =>
      let a := fresh "a" in let Ha := fresh "Ha" in
      apply outcome_bind_ok in H; destruct H as (a & Ha & H)
  | of_option _ _ = Ok _ => apply of_option_ok in H
  | (if ?b then _ else _) = Ok _ =>
      let Hb := fresh "Hb" in destruct b eqn:Hb
  | (match ?o with _ => _ end) = Ok _ =>
      let Ho := fresh "Ho" in destruct o eqn:Ho
  | Ok _ = Ok _ => injection H as H
  | Err _ = Ok _ => discriminate H
  | Throw _ = Ok _ => discriminate H
  end.
Ltac outcome_inv H := repeat (outcome_step H; try discriminate; simpl in * ); subst.

(** ** Lemmas on machine integers *)
Section u64_lemmas.
Lemma two64_pos : two64 ≠ 0.
Proof. done. Qed.

Lemma two64_val : two64 = 18446744073709551616.
Proof. reflexivity. Qed.

Lemma u64_lt x : u64 x < two64.
Proof. unfold u64. apply N.mod_lt, two64_pos. Qed.

Lemma u64_small x : x < two64 → u64 x = x.
Proof. unfold u64. apply N.mod_small. Qed.

Lemma u64_add_small a b : a + b < two64 → u64_add a b = a + b.
Proof. apply u64_small. Qed.

Lemma u64_sub_small a b : b ≤ a → a < two64 → u64_sub a b = a - b.
Proof.
  intros Hle Ha. unfold u64_sub. rewrite (u64_small b) by lia. unfold u64.
  replace (a + two64 - b) with ((a - b) + 1 * two64) by lia.
  rewrite N.Div0.mod_add. apply N.mod_small. lia.
Qed.

Lemma u64_sub_wrap a b : a < b → b < two64 → u64_sub a b = a + two64 - b.
Proof.
  intros Hlt Hb. unfold u64_sub. rewrite (u64_small b) by lia.
  apply u64_small. lia.
Qed.

Lemma u64_mul_small a b : a * b < two64 → u64_mul a b = a * b.
Proof. apply u64_small. Qed.
End u64_lemmas.

Create HintDb qlean.
#[export] Hint Resolve u64_lt boost_assert_true boost_assert_release : qlean.

(** ** Lemmas on ranges *)
Section range_lemmas.
Lemma elem_of_seqN i s n : i ∈ seqN s n ↔ s ≤ i < s + n.
Proof.
  unfold seqN. rewrite list_elem_of_fmap. setoid_rewrite elem_of_seq. split.
  - intros (k & -> & Hk). lia.
  - intros Hi. exists (N.to_nat (i - s)). lia.
Qed.

Lemma length_seqN s n : lengthN (seqN s n) = n.
Proof. unfold lengthN, seqN. rewrite length_fmap, length_seq. lia. Qed.

Lemma lookup_seqN s n (i : nat) :
  N.of_nat i < n → seqN s n !! i = Some (s + N.of_nat i).
Proof.
  intros Hi. unfold seqN. rewrite list_lookup_fmap, lookup_seq_lt by lia. done.
Qed.

Lemma seqN_0 s : seqN s 0 = [].
Proof. done. Qed.

Lemma seqN_S s n : seqN s (N.succ n) = s :: seqN (N.succ s) n.
Proof.
  unfold seqN. rewrite N2Nat.inj_succ. simpl. f_equal; [lia|].
  rewrite <- fmap_S_seq, <- list_fmap_compose. apply list_fmap_ext. intros. simpl. lia.
Qed.

Lemma seqN_snoc s n : seqN s (N.succ n) = seqN s n ++ [s + n].
Proof.
  unfold seqN. rewrite N2Nat.inj_succ, seq_S, fmap_app. simpl.
  by rewrite N2Nat.id.
Qed.

Lemma NoDup_seqN s n : NoDup (seqN s n).
Proof. apply NoDup_fmap_2, NoDup_seq. intros ???. lia. Qed.

Lemma filter_ext_elem {A} (P Q : A → Prop) `{∀ x, Decision (P x), ∀ x, Decision (Q x)} (l : list A) :
  (∀ x, x ∈ l → P x ↔ Q x) → filter P l = filter Q l.
Proof.
  induction l as [|x l IH]; intros Heq; [done|]. rewrite !filter_cons.
  rewrite IH by (intros; apply Heq; by right).
  destruct (decide (P x)) as [HP|HP], (decide (Q x)) as [HQ|HQ]; try done;
    exfalso; apply Heq in HP || (apply HP; apply Heq in HQ); try done; by left.
Qed.

Lemma lengthN_lookup_is_Some {A} (l : list A) (i : N) :
  i < lengthN l → is_Some (l !! N.to_nat i).
Proof. unfold lengthN. intros. apply lookup_lt_is_Some_2. lia. Qed.
End range_lemmas.

#[global] Arguments N.add : simpl never.
#[global] Arguments N.sub : simpl never.
#[global] Arguments N.mul : simpl never.
#[global] Arguments N.div : simpl never.
#[global] Arguments N.modulo : simpl never.
#[global] Arguments N.pow : simpl never.
#[global] Arguments N.shiftl : simpl never.
#[global] Arguments N.ltb : simpl never.
#[global] Arguments N.leb : simpl never.
#[global] Arguments N.eqb : simpl never.
#[global] Arguments u64 : simpl never.
#[global] Arguments seqN : simpl never.
#[global] Arguments lengthN : simpl never.
