(* ===== verification/Errors.v ===== *)
(** * Error enumerations

    The error enums of the modelled components and [error], the
    [std::error_code] they all convert to: two codes are equal only when their
    category (the enum) and their value agree. *)

From S2P Require Import Prelude.

(** STF::Error *)
Inductive StfError :=
| INVALID_SLOT
| STATE_ROOT_DOESNT_MATCH
| STF_INVALID_PROPOSER
| PARENT_ROOT_DOESNT_MATCH
| INVALID_VOTE_SOURCE_SLOT
| INVALID_VOTE_TARGET_SLOT
| INVALID_VOTER.

(** ForkChoiceStore::Error *)
Inductive ForkChoiceError :=
| CANT_VALIDATE_ATTESTATION_SOURCE_NOT_FOUND
| CANT_VALIDATE_ATTESTATION_TARGET_NOT_FOUND
| CANT_VALIDATE_ATTESTATION_HEAD_NOT_FOUND
| INVALID_ATTESTATION
| FC_INVALID_PROPOSER
| STATE_NOT_FOUND
| SIGNATURE_COUNT_MISMATCH
| TOO_MANY_ATTESTATIONS
| NO_KEYPAIR.

(** BlockTreeError *)
Inductive BlockTreeError :=
| NO_PARENT
| BT_BLOCK_EXISTS
| TARGET_IS_PAST_MAX
| BLOCK_ON_DEAD_END
| EXISTING_BLOCK_NOT_FOUND
| NON_JUSTIFIED_BLOCK_NOT_FOUND
| NON_FINALIZED_BLOCK_NOT_FOUND
| BT_BODY_NOT_FOUND
| BT_HEADER_NOT_FOUND
| SOME_BLOCK_IN_CHAIN_NOT_FOUND
| BLOCK_IS_NOT_LEAF
| BLOCK_NOT_EXISTS
| BLOCK_TREE_CORRUPTED
| WRONG_WORKFLOW.

(** BlockStorageError *)
Inductive BlockStorageError :=
| BS_BLOCK_EXISTS
| NO_BLOCKS_FOUND
| BS_HEADER_NOT_FOUND
| ATTESTATION_NOT_FOUND
| SIGNATURE_NOT_FOUND
| BS_BODY_NOT_FOUND
| INCONSISTENT_DATA
| GENESIS_BLOCK_ALREADY_EXISTS
| GENESIS_BLOCK_NOT_FOUND
| FINALIZED_BLOCK_NOT_FOUND
| BLOCK_TREE_LEAVES_NOT_FOUND
| JUSTIFICATION_EMPTY.

(** StorageError *)
Inductive StorageError :=
| STORAGE_OK
| NOT_SUPPORTED
| CORRUPTION
| INVALID_ARGUMENT
| IO_ERROR
| NOT_FOUND
| DB_PATH_NOT_CREATED
| STORAGE_GONE
| UNKNOWN.

(** SszError *)
Inductive SszError :=
| DecodeError.

(** rlp::Error *)
Inductive RlpError :=
| INVALID_RLP
| INT_OVERFLOW
| INVALID_KEY_VALUE
| KEY_NOT_FOUND.

(** enr::Error *)
Inductive EnrError :=
| EXPECTED_SECP256K1_KEYPAIR
| INVALID_PREFIX
| INVALID_ID
| SIGNATURE_VERIFICATION_FAILED.

(** SnappyError *)
Inductive SnappyError :=
| UNCOMPRESS_TOO_LONG
| UNCOMPRESS_INVALID
| UNCOMPRESS_TRUNCATED
| UNCOMPRESS_UNKNOWN_IDENTIFIER
| UNCOMPRESS_UNKNOWN_TYPE
| UNCOMPRESS_CRC_MISMATCH.

(** Errors of the libraries below (libp2p streams and keys, files, byte arrays and the codes of
    the signature library). *)
Inductive LibraryError :=
| STREAM_READ_ERROR
| STREAM_WRITE_ERROR
| INVALID_KEY
| READ_FILE_ERROR
| SPAN_SIZE_ERROR
| PQ_SIGNING_ERROR (code : N).

Inductive error :=
| E_STF (e : StfError)
| E_ForkChoice (e : ForkChoiceError)
| E_BlockTree (e : BlockTreeError)
| E_BlockStorage (e : BlockStorageError)
| E_Storage (e : StorageError)
| E_Ssz (e : SszError)
| E_Rlp (e : RlpError)
| E_Enr (e : EnrError)
| E_Snappy (e : SnappyError)
| E_Library (e : LibraryError).

#[global] Instance StfError_eq_dec : EqDecision StfError.
Proof. solve_decision. Defined.
#[global] Instance ForkChoiceError_eq_dec : EqDecision ForkChoiceError.
Proof. solve_decision. Defined.
#[global] Instance BlockTreeError_eq_dec : EqDecision BlockTreeError.
Proof. solve_decision. Defined.
#[global] Instance BlockStorageError_eq_dec : EqDecision BlockStorageError.
Proof. solve_decision. Defined.
#[global] Instance StorageError_eq_dec : EqDecision StorageError.
Proof. solve_decision. Defined.
#[global] Instance SszError_eq_dec : EqDecision SszError.
Proof. solve_decision. Defined.
#[global] Instance RlpError_eq_dec : EqDecision RlpError.
Proof. solve_decision. Defined.
#[global] Instance EnrError_eq_dec : EqDecision EnrError.
Proof. solve_decision. Defined.
#[global] Instance SnappyError_eq_dec : EqDecision SnappyError.
Proof. solve_decision. Defined.
#[global] Instance LibraryError_eq_dec : EqDecision LibraryError.
Proof. solve_decision. Defined.
#[global] Instance error_eq_dec : EqDecision error.
Proof. solve_decision. Defined.

(** [outcome::result<A>] of this program. *)
Abbreviation result := (outcome error).
