(* ===== verification/Types.v ===== *)
(** * Consensus data types (src/src/types)

    The containers of the protocol as records with the fields of the C++ structs,
    the arithmetic of [Interval], the bit set [AggregationBits] and the hashing
    interface.  [ByteArr<n>] values are the [N] their bytes spell in big-endian
    order, so that C++'s lexicographic comparison of equally long arrays is [<].
    Integers are [N]; the containers are [list]s: the capacity checks of
    [ssz::list] belong to the sszpp library and are not modelled. *)

From S2P Require Import Prelude Errors.

(** ** Scalars and constants *)
Abbreviation BlockHash := N (only parsing).
Abbreviation Slot := N (only parsing).
Abbreviation ValidatorIndex := N (only parsing).
Abbreviation SubnetIndex := N (only parsing).
Abbreviation XmssPublicKey := N (only parsing).
Abbreviation Signature := N (only parsing).
Abbreviation LeanAggregatedSignature := (list N) (only parsing).

Definition kZeroHash : BlockHash := 0.
Definition INTERVALS_PER_SLOT : N := 5.
Definition INTERVAL_DURATION_MS : N := 800.
Definition SLOT_DURATION_MS : N := INTERVALS_PER_SLOT * INTERVAL_DURATION_MS.
Definition JUSTIFICATION_LOOKBACK_SLOTS : N := 3.
Definition HISTORICAL_ROOTS_LIMIT : N := N.shiftl 1 18.
Definition VALIDATOR_REGISTRY_LIMIT : N := N.shiftl 1 12.
Definition MAX_ATTESTATIONS_DATA : N := 16.
Definition MAX_REQUEST_BLOCKS : N := N.shiftl 1 10.

(** ** Containers *)
Record Checkpoint := mkCheckpoint { cp_root : BlockHash; cp_slot : Slot }.

Record BlockIndex := mkBlockIndex { bi_slot : Slot; bi_hash : BlockHash }.

(** BlockIndex::operator Checkpoint *)
Definition BlockIndex_to_Checkpoint (b : BlockIndex) : Checkpoint :=
  mkCheckpoint (bi_hash b) (bi_slot b).

Record AttestationData := mkAttestationData {
  ad_slot : Slot;
  ad_head : Checkpoint;
  ad_target : Checkpoint;
  ad_source : Checkpoint;
}.

Record Attestation := mkAttestation {
  at_validator_id : ValidatorIndex;
  at_data : AttestationData;
}.

Record SignedAttestation := mkSignedAttestation {
  sa_validator_id : ValidatorIndex;
  sa_data : AttestationData;
  sa_signature : Signature;
}.

(** SignedAttestation::from *)
Definition SignedAttestation_from (a : Attestation) (s : Signature) : SignedAttestation :=
  mkSignedAttestation (at_validator_id a) (at_data a) s.

(** The [bits] of an [AggregationBits]. *)
Record AggregationBits := mkAggregationBits { ab_bits : list bool }.

Record AggregatedAttestation := mkAggregatedAttestation {
  aa_aggregation_bits : AggregationBits;
  aa_data : AttestationData;
}.

Record AggregatedSignatureProof := mkAggregatedSignatureProof {
  asp_participants : AggregationBits;
  asp_proof_data : LeanAggregatedSignature;
}.

Record SignedAggregatedAttestation := mkSignedAggregatedAttestation {
  saa_data : AttestationData;
  saa_proof : AggregatedSignatureProof;
}.

Record BlockBody := mkBlockBody { bb_attestations : list AggregatedAttestation }.

Record BlockHeader := mkBlockHeader {
  bh_slot : Slot;
  bh_proposer_index : N;
  bh_parent_root : BlockHash;
  bh_state_root : N;
  bh_body_root : N;
}.

Record Block := mkBlock {
  b_slot : Slot;
  b_proposer_index : N;
  b_parent_root : BlockHash;
  b_state_root : N;
  b_body : BlockBody;
}.

Record BlockSignatures := mkBlockSignatures {
  bsig_attestation_signatures : list AggregatedSignatureProof;
  bsig_proposer_signature : Signature;
}.

Record SignedBlock := mkSignedBlock {
  sb_block : Block;
  sb_signature : BlockSignatures;
}.

(** [ssz_maybe] is an SSZ list of at most one element: an [option]. *)
Record BlockData := mkBlockData {
  bd_hash : BlockHash;
  bd_header : option BlockHeader;
  bd_body : option BlockBody;
  bd_signature : option BlockSignatures;
}.

Record Validator := mkValidator {
  v_attestation_pubkey : XmssPublicKey;
  v_proposal_pubkey : XmssPublicKey;
  v_index : ValidatorIndex;
}.

Record Config := mkConfig { genesis_time : N }.

Record State := mkState {
  st_config : Config;
  st_slot : Slot;
  st_latest_block_header : BlockHeader;
  st_latest_justified : Checkpoint;
  st_latest_finalized : Checkpoint;
  st_historical_block_hashes : list BlockHash;
  st_justified_slots : list bool;
  st_validators : list Validator;
  st_justifications_roots : list BlockHash;
  st_justifications_validators : list bool;
}.

(** State::validatorCount *)
Definition validatorCount (s : State) : N := lengthN (st_validators s).

#[global] Instance Checkpoint_eq_dec : EqDecision Checkpoint.
Proof. solve_decision. Defined.
#[global] Instance BlockIndex_eq_dec : EqDecision BlockIndex.
Proof. solve_decision. Defined.
#[global] Instance AttestationData_eq_dec : EqDecision AttestationData.
Proof. solve_decision. Defined.
#[global] Instance AggregationBits_eq_dec : EqDecision AggregationBits.
Proof. solve_decision. Defined.
#[global] Instance AggregatedAttestation_eq_dec : EqDecision AggregatedAttestation.
Proof. solve_decision. Defined.
#[global] Instance AggregatedSignatureProof_eq_dec : EqDecision AggregatedSignatureProof.
Proof. solve_decision. Defined.
#[global] Instance BlockBody_eq_dec : EqDecision BlockBody.
Proof. solve_decision. Defined.
#[global] Instance BlockHeader_eq_dec : EqDecision BlockHeader.
Proof. solve_decision. Defined.
#[global] Instance Block_eq_dec : EqDecision Block.
Proof. solve_decision. Defined.
#[global] Instance BlockSignatures_eq_dec : EqDecision BlockSignatures.
Proof. solve_decision. Defined.
#[global] Instance SignedBlock_eq_dec : EqDecision SignedBlock.
Proof. solve_decision. Defined.
#[global] Instance Validator_eq_dec : EqDecision Validator.
Proof. solve_decision. Defined.
#[global] Instance Config_eq_dec : EqDecision Config.
Proof. solve_decision. Defined.
#[global] Instance State_eq_dec : EqDecision State.
Proof. solve_decision. Defined.

(** ** Merkle roots

    [sszHash] is [ssz::hash_tree_root] of the sszpp library: a parameter. *)
Class SszHash := {
  sszHash_header : BlockHeader → N;
  sszHash_body : BlockBody → N;
  sszHash_block : Block → N;
  sszHash_state : State → N;
  sszHash_data : AttestationData → N;
}.

(** Block::getHeader *)
Definition getHeader `{SszHash} (b : Block) : BlockHeader :=
  mkBlockHeader (b_slot b) (b_proposer_index b) (b_parent_root b) (b_state_root b)
    (sszHash_body (b_body b)).

(** Block::hash, Block::setHash: the root of the block's header. *)
Definition block_hash `{SszHash} (b : Block) : BlockHash := sszHash_header (getHeader b).

(** Block::index and BlockHeader::index *)
Definition block_index `{SszHash} (b : Block) : BlockIndex :=
  mkBlockIndex (b_slot b) (block_hash b).
Definition header_index `{SszHash} (h : BlockHeader) : BlockIndex :=
  mkBlockIndex (bh_slot h) (sszHash_header h).

(** Checkpoint::from *)
Definition Checkpoint_from `{SszHash} (h : BlockHeader) : Checkpoint :=
  mkCheckpoint (sszHash_header h) (bh_slot h).

(** ** Interval: time counted in fifths of a slot *)
Module Interval.
Record Interval := mkInterval { interval : N }.

(** Config::genesisTimeMs *)
Definition genesisTimeMs (c : Config) : N := 1000 * genesis_time c.

Definition fromSlot (s : Slot) (phase : N) : Interval :=
  mkInterval (u64_add (u64_mul s INTERVALS_PER_SLOT) phase).

Definition fromTime (time : N) (c : Config) : option Interval :=
  if time <? genesisTimeMs c then None
  else Some (mkInterval (u64 ((time - genesisTimeMs c) / INTERVAL_DURATION_MS))).

Definition slot (i : Interval) : Slot := interval i / INTERVALS_PER_SLOT.
Definition phase (i : Interval) : N := interval i mod INTERVALS_PER_SLOT.

Definition time (i : Interval) (c : Config) : N :=
  genesisTimeMs c + interval i * INTERVAL_DURATION_MS.
End Interval.

(** ** AggregationBits: a set of validator indices *)
Module Bits.
(** AggregationBits::iter: the indices of the set bits, in ascending order. *)
Definition iter (b : AggregationBits) : list ValidatorIndex :=
  filter (λ i, ab_bits b !! N.to_nat i = Some true) (seqN 0 (lengthN (ab_bits b))).

(** AggregationBits::contains *)
Definition contains (b : AggregationBits) (i : ValidatorIndex) : bool :=
  match ab_bits b !! N.to_nat i with Some x => x | None => false end.

(** AggregationBits::add *)
Definition add (b : AggregationBits) (i : ValidatorIndex) : AggregationBits :=
  let bits := ab_bits b in
  let bits := if lengthN bits <=? i
              then bits ++ replicate (N.to_nat (i + 1 - lengthN bits)) false
              else bits in
  mkAggregationBits (<[N.to_nat i := true]> bits).
End Bits.

(** ** Small helpers of src/src/blockchain and src/src/utils *)

(** isProposer: [%] by zero is undefined. *)
Definition isProposer (validator_index : ValidatorIndex) (s : Slot)
    (num_validators : N) : result bool :=
  if num_validators =? 0 then Throw DivisionByZero
  else Ok (s mod num_validators =? validator_index).

(** validatorSubnet *)
Definition validatorSubnet (validator_index : ValidatorIndex) (subnet_count : N)
    : result SubnetIndex :=
  if subnet_count =? 0 then Throw DivisionByZero
  else Ok (validator_index mod subnet_count).

(** ceilDiv *)
Definition ceilDiv (l r : N) : result N :=
  if r =? 0 then Throw DivisionByZero else Ok (u64_sub (u64_add l r) 1 / r).

(** ** Properties *)
Module IntervalFacts.
Import Interval.

Lemma slot_phase_decompose i :
  interval i = slot i * INTERVALS_PER_SLOT + phase i ∧ phase i < INTERVALS_PER_SLOT.
Proof.
  unfold slot, phase, INTERVALS_PER_SLOT. split; [|apply N.mod_lt; done].
  rewrite N.mul_comm. apply N.div_mod'.
Qed.

Lemma fromSlot_slot_phase s p :
  p < INTERVALS_PER_SLOT → s * INTERVALS_PER_SLOT + p < two64 →
  slot (fromSlot s p) = s ∧ phase (fromSlot s p) = p.
Proof.
  unfold fromSlot, slot, phase, INTERVALS_PER_SLOT. intros Hp Hs.
  rewrite u64_mul_small, u64_add_small by (unfold u64_mul; try rewrite u64_small; lia).
  simpl. split.
  - symmetry. apply N.div_unique with p; lia.
  - symmetry. apply N.mod_unique with s; lia.
Qed.

Lemma fromTime_bounds t c i :
  fromTime t c = Some i → t < genesisTimeMs c + two64 * INTERVAL_DURATION_MS →
  time i c ≤ t < time i c + INTERVAL_DURATION_MS.
Proof.
  unfold fromTime, time. case_match eqn:Hlt; [done|]. intros [= <-] Hbound. cbn [interval].
  apply N.ltb_ge in Hlt. unfold INTERVAL_DURATION_MS in *.
  assert (Hq : (t - genesisTimeMs c) / 800 < two64).
  { apply N.Div0.div_lt_upper_bound; lia. }
  rewrite u64_small by done.
  pose proof (N.div_mod' (t - genesisTimeMs c) 800) as Hdm.
  pose proof (N.mod_lt (t - genesisTimeMs c) 800 ltac:(done)) as Hm. 
  generalize dependent ((t - genesisTimeMs c) mod 800).
  generalize dependent ((t - genesisTimeMs c) / 800). lia.
Qed.

Lemma fromTime_time i c :
  interval i < two64 → fromTime (time i c) c = Some i.
Proof.
  unfold fromTime, time. intros Hi. case_match eqn:Hlt; [apply N.ltb_lt in Hlt; lia|].
  do 2 f_equal. destruct i as [n]. simpl in *. f_equal.
  replace (_ + _ - _) with (n * INTERVAL_DURATION_MS) by lia.
  rewrite N.div_mul by done. by apply u64_small.
Qed.
End IntervalFacts.

Module BitsFacts.
Import Bits.

Lemma elem_of_iter b i : i ∈ iter b ↔ contains b i = true.
Proof.
  unfold iter, contains. rewrite list_elem_of_filter, elem_of_seqN. split.
  - by intros [-> _].
  - intros H. destruct (_ !! _) as [x|] eqn:Hx; [subst|done].
    split; [done|]. apply lookup_lt_Some in Hx. unfold lengthN. lia.
Qed.

Lemma iter_lt b i : i ∈ iter b → i < lengthN (ab_bits b).
Proof. unfold iter. rewrite list_elem_of_filter, elem_of_seqN. lia. Qed.

Lemma NoDup_iter b : NoDup (iter b).
Proof. apply NoDup_filter, NoDup_seqN. Qed.

Lemma contains_add b i j : contains (add b i) j = (i =? j) || contains b j.
Proof.
  unfold contains, add. simpl.
  set (bits := if _ <=? _ then _ else _).
  assert (Hlen : (N.to_nat i < length bits)%nat).
  { unfold bits. case_match eqn:Hle.
    - rewrite length_app, length_replicate. unfold lengthN in *. lia.
    - apply N.leb_gt in Hle. unfold lengthN in *. lia. }
  assert (Hsame : match bits !! N.to_nat j with Some x => x | None => false end
                  = match ab_bits b !! N.to_nat j with Some x => x | None => false end).
  { unfold bits. destruct (lengthN (ab_bits b) <=? i) eqn:Hle; [|done].
    destruct (decide (N.to_nat j < length (ab_bits b))%nat).
    - by rewrite lookup_app_l by done.
    - rewrite lookup_app_r by lia. rewrite (lookup_ge_None_2 (ab_bits b)) by lia.
      destruct (_ !! _) eqn:Hr; [|done]. by apply lookup_replicate in Hr as [-> _]. }
  destruct (N.eqb_spec i j) as [->|Hne].
  - by rewrite list_lookup_insert_eq.
  - rewrite list_lookup_insert_ne by lia. done.
Qed.
End BitsFacts.

Lemma ceilDiv_spec l r :
  0 < r → l + r < two64 →
  ∃ q, ceilDiv l r = Ok q ∧ l ≤ q * r ∧ (q = 0 ∨ (q - 1) * r < l).
Proof.
  intros Hr Hb. unfold ceilDiv. case_match eqn:Hz; [apply N.eqb_eq in Hz; lia|].
  eexists. split; [done|].
  rewrite u64_add_small, u64_sub_small by (try rewrite u64_add_small; lia).
  pose proof (N.div_mod' (l + r - 1) r). pose proof (N.mod_lt (l + r - 1) r ltac:(lia)).
  generalize dependent ((l + r - 1) mod r). generalize ((l + r - 1) / r).
  intros q m Hdm Hm. split; [nia|].
  destruct (decide (q = 0)) as [->|Hq]; [by left|right].
  assert (∃ k, q = k + 1) as [k ->] by (exists (q - 1); lia).
  rewrite N.add_sub. nia.
Qed.
