(* ===== verification/Justifiable.v ===== *)
(** * Justifiable slots (src/src/blockchain/is_justifiable_slot.hpp)

    [isJustifiableSlot] decides with double-precision floating point whether the
    distance to the finalized slot is at most five, a square or a pronic number.
    The model evaluates the same binary64 expressions with the executable IEEE-754
    semantics of [SpecFloat]; the theorems relate the result to the integer
    specification for every distance below [2^51] and show where the
    floating-point test stops being exact. *)

From Stdlib Require Import SpecFloat.
From S2P Require Import Prelude Errors Types.

Local Open Scope Z_scope.

(** ** Binary64 *)
Definition b64_prec : Z := 53.
Definition b64_emax : Z := 1024.

Definition b64_of_Z (z : Z) : spec_float := binary_normalize b64_prec b64_emax z 0 false.
Definition b64_sqrt : spec_float → spec_float := SFsqrt b64_prec b64_emax.
Definition b64_add : spec_float → spec_float → spec_float := SFadd b64_prec b64_emax.
Definition b64_quarter : spec_float := binary_normalize b64_prec b64_emax 1 (-2) false.
Definition b64_half : spec_float := binary_normalize b64_prec b64_emax 1 (-1) false.
Definition b64_zero : spec_float := S754_zero false.

(** [fmod(x, 1)]: the fractional part, with the sign of [x]; exact. *)
Definition b64_fmod1 (x : spec_float) : spec_float :=
  match x with
  | S754_zero s => S754_zero s
  | S754_infinity _ | S754_nan => S754_nan
  | S754_finite s m e =>
      if 0 <=? e then S754_zero s
      else let r := Z.pos m mod 2 ^ (- e) in
           binary_normalize b64_prec b64_emax (if s then - r else r) e s
  end.

Definition isSquareTest (delta : N) : bool :=
  SFeqb (b64_fmod1 (b64_sqrt (b64_of_Z (Z.of_N delta)))) b64_zero.
Definition isPronicTest (delta : N) : bool :=
  SFeqb (b64_fmod1 (b64_sqrt (b64_add (b64_of_Z (Z.of_N delta)) b64_quarter))) b64_half.

(** isJustifiableSlot: the distance is computed in [uint64_t] and wraps when the
    candidate lies before the finalized slot (where the assertion, if kept, fires). *)
Definition isJustifiableSlot `{BuildMode} (finalized_slot candidate : Slot) : result bool :=
  _ ← boost_assert (finalized_slot <=? candidate)%N;
  let delta := u64_sub candidate finalized_slot in
  Ok ((delta <=? 5)%N || isSquareTest delta || isPronicTest delta).

(** ** The integer specification *)
Definition justifiable_delta (d : N) : Prop :=
  (d ≤ 5)%N ∨ (∃ x, x * x = d)%N ∨ (∃ x, x * x + x = d)%N.

Definition justifiable_deltab (d : N) : bool :=
  ((d <=? 5) || (N.sqrt d * N.sqrt d =? d) || (N.sqrt d * N.sqrt d + N.sqrt d =? d))%N.

Lemma justifiable_deltab_spec d : justifiable_deltab d = true ↔ justifiable_delta d.
Proof.
  unfold justifiable_deltab, justifiable_delta.
  rewrite !orb_true_iff, N.leb_le, !N.eqb_eq. split.
  - intros [[?|?]|?]; eauto.
  - intros [?|[[x Hx]|[x Hx]]]; [by left; left|left; right|right].
    + subst. by rewrite N.sqrt_square.
    + assert (Hs : N.sqrt d = x) by (apply N.sqrt_unique; lia). by rewrite Hs.
Qed.

#[global] Instance justifiable_delta_dec d : Decision (justifiable_delta d).
Proof.
  refine (cast_if (decide (justifiable_deltab d = true)));
    abstract (by rewrite <- justifiable_deltab_spec).
Defined.

Lemma div2_bounds e : 2 * Z.div2 e ≤ e ≤ 2 * Z.div2 e + 1.
Proof. pose proof (Z.div2_odd e). destruct (Z.odd e); simpl in *; lia. Qed.

(** ** Digits and exact rounding *)
Section binary64.
Notation p2 e := (2 ^ e) (only parsing).

Lemma digits2_pos_bounds p :
  p2 (Z.pos (digits2_pos p) - 1) ≤ Z.pos p < p2 (Z.pos (digits2_pos p)).
Proof.
  induction p as [p IH|p IH|]; cbn [digits2_pos]; [| |by compute];
    rewrite Pos2Z.inj_succ;
    (replace (Z.succ _ - 1) with (Z.succ (Z.pos (digits2_pos p) - 1)) by lia);
    rewrite !Z.pow_succ_r by lia; lia.
Qed.

Lemma Zdigits2_unique m d : 0 < d → p2 (d - 1) ≤ m < p2 d → Zdigits2 m = d.
Proof.
  intros Hd [Hl Hu]. assert (Hm : 0 < m).
  { pose proof (Z.pow_pos_nonneg 2 (d - 1)). lia. }
  destruct m as [|p|p]; [lia| |lia]. cbn [Zdigits2].
  destruct (digits2_pos_bounds p) as [Hl' Hu'].
  set (d' := Z.pos (digits2_pos p)) in *.
  assert (d - 1 < d') by (apply (Z.pow_lt_mono_r_iff 2); lia).
  assert (d' - 1 < d) by (apply (Z.pow_lt_mono_r_iff 2); lia).
  lia.
Qed.

Lemma pos_iter_xO p n : Z.pos (Pos.iter xO p n) = Z.pos p * p2 (Z.pos n).
Proof.
  rewrite (Pos.iter_swap_gen _ _ Z.pos xO (Z.mul 2)) by done.
  revert p. induction n as [|n IH] using Pos.peano_ind; intros p.
  - change (Pos.iter (Z.mul 2) (Z.pos p) 1) with (2 * Z.pos p). lia.
  - rewrite Pos.iter_succ, IH, Pos2Z.inj_succ, Z.pow_succ_r by lia. lia.
Qed.

Lemma fexp_normal e : -1074 ≤ e → fexp b64_prec b64_emax (53 + e) - e = 0.
Proof. unfold fexp, emin, b64_prec, b64_emax. lia. Qed.

Lemma round_aux_normal s m e l :
  p2 52 ≤ m < p2 53 → -1074 ≤ e ≤ 970 →
  binary_round_aux b64_prec b64_emax s m e l =
    (let m' := round_nearest_even m l in
     if m' =? p2 53 then S754_finite s 4503599627370496 (e + 1)
     else S754_finite s (Z.to_pos m') e).
Proof.
  intros Hm He. unfold binary_round_aux, shr_fexp.
  rewrite (Zdigits2_unique m 53), fexp_normal by lia. cbn [shr].
  replace (shr_m (shr_record_of_loc m l)) with m by (by destruct l as [|[]]).
  replace (loc_of_shr_record (shr_record_of_loc m l)) with l by (by destruct l as [|[]]).
  assert (Hm' : p2 52 ≤ round_nearest_even m l ≤ p2 53).
  { unfold round_nearest_even. destruct l as [|[]]; try destruct (Z.even m); lia. }
  cbv zeta. set (m' := round_nearest_even m l) in *. clearbody m'.
  destruct (Z.eqb_spec m' (p2 53)) as [->|Hne].
  - change (Zdigits2 (p2 53)) with 54.
    replace (fexp b64_prec b64_emax (54 + e) - e) with 1
      by (unfold fexp, emin, b64_prec, b64_emax; lia).
    change (shr (shr_record_of_loc (p2 53) loc_Exact) e 1)
      with (Build_shr_record (Z.pos 4503599627370496) false false, e + 1).
    cbn [shr_m]. rewrite (proj2 (Z.leb_le _ _)); [done|].
    unfold b64_emax, b64_prec. lia.
  - rewrite (Zdigits2_unique m' 53), fexp_normal by lia. cbn [shr shr_record_of_loc shr_m].
    destruct m' as [|p|p]; [lia| |lia]. cbn [Z.to_pos].
    rewrite (proj2 (Z.leb_le _ _)); [done|]. unfold b64_emax, b64_prec. lia.
Qed.

(** Rounded square root of [D * 4^E] as an integer. *)
Definition sqrt_round (D : Z) : Z :=
  let (q, r) := Z.sqrtrem D in if r <=? q then q else q + 1.

Lemma sqrt_round_bounds D (qr := sqrt_round D) :
  0 ≤ D → 0 ≤ qr ∧ qr * qr - qr < D + (if qr =? 0 then 1 else 0) ∧ D ≤ qr * qr + qr.
Proof.
  intros HD. subst qr. unfold sqrt_round.
  pose proof (Z.sqrtrem_spec D HD) as Hs.
  destruct (Z.sqrtrem D) as [q r]. destruct Hs as [-> Hr].
  assert (0 ≤ q) by nia.
  destruct (Z.leb_spec r q); (split; [lia|]); (case_match eqn:Hq; [apply Z.eqb_eq in Hq|]); nia.
Qed.

Lemma sqrt_normal m e :
  p2 52 ≤ Z.pos m < p2 53 → -1000 ≤ e ≤ 900 →
  let E := 26 - Z.div2 e in
  let qr := sqrt_round (Z.pos m * p2 (e + 2 * E)) in
  p2 52 ≤ qr ≤ p2 53 ∧
  b64_sqrt (S754_finite false m e) =
    (if qr =? p2 53 then S754_finite false 4503599627370496 (1 - E)
     else S754_finite false (Z.to_pos qr) (- E)).
Proof.
  intros Hm He E qr. unfold b64_sqrt, SFsqrt, SFsqrt_core_binary.
  rewrite (Zdigits2_unique (Z.pos m) 53) by lia.
  pose proof (div2_bounds e) as Hd2.
  assert (He' : Z.min (fexp b64_prec b64_emax (Z.div2 (53 + e + 1))) (Z.div2 e) = - E).
  { replace (Z.div2 (53 + e + 1)) with (Z.div2 e + 27).
    - unfold fexp, emin, b64_prec, b64_emax, E. lia.
    - rewrite !Z.div2_div. replace (53 + e + 1) with (e + 27 * 2) by lia.
      rewrite Z.div_add by lia. done. }
  rewrite He'. replace (e - 2 * - E) with (e + 2 * E) by lia.
  assert (Hs : 52 ≤ e + 2 * E ≤ 53) by (unfold E; lia).
  replace (match e + 2 * E with 0 => _ | Z.pos _ => _ | Z.neg _ => _ end)
    with (Z.pos m * p2 (e + 2 * E)).
  2:{ destruct (e + 2 * E) eqn:Hse; [lia| |lia]. by rewrite Z.shiftl_mul_pow2 by lia. }
  assert (HD : p2 104 ≤ Z.pos m * p2 (e + 2 * E) < p2 106).
  { assert (Hs' : e + 2 * E = 52 ∨ e + 2 * E = 53) by lia.
    destruct Hs' as [-> | ->]; lia. }
  unfold qr, sqrt_round. clear qr.
  pose proof (Z.sqrtrem_spec (Z.pos m * p2 (e + 2 * E)) ltac:(lia)) as Hsq.
  destruct (Z.sqrtrem _) as [q r]. destruct Hsq as [HDq Hr]. rewrite HDq in HD.
  assert (Hq : p2 52 ≤ q < p2 53) by nia.
  split; [destruct (Z.leb_spec r q); lia|].
  rewrite round_aux_normal by (unfold E; lia). cbv zeta.
  replace (round_nearest_even q _) with (if r <=? q then q else q + 1).
  2:{ destruct (Z.eqb_spec r 0) as [->|]; [|by destruct (r <=? q)].
      rewrite (proj2 (Z.leb_le 0 q)) by lia. done. }
  case_match; [|done]. f_equal. lia.
Qed.

(** A mantissa of at most 53 digits is represented exactly. *)
Lemma normalize_exact m e sz :
  0 < m < p2 53 → -1000 ≤ e ≤ 900 →
  ∃ k a, 0 ≤ k ≤ 52 ∧ Z.pos a = m * p2 k ∧ p2 52 ≤ Z.pos a < p2 53 ∧
    binary_normalize b64_prec b64_emax m e sz = S754_finite false a (e - k).
Proof.
  intros Hm He. destruct m as [|p|p]; [lia| |lia].
  destruct (digits2_pos_bounds p) as [Hl Hu].
  cbn [binary_normalize]. unfold binary_round.
  set (d := Z.pos (digits2_pos p)) in *.
  assert (Hd : 1 ≤ d ≤ 53).
  { split; [lia|]. assert (d - 1 < 53) by (apply (Z.pow_lt_mono_r_iff 2); lia). lia. }
  assert (Hf : fexp b64_prec b64_emax (d + e) = e - (53 - d))
    by (unfold fexp, emin, b64_prec, b64_emax; lia).
  rewrite Hf. unfold shl_align.
  replace (e - (53 - d) - e) with (- (53 - d)) by lia.
  assert (Hp : p2 52 ≤ Z.pos p * p2 (53 - d) < p2 53).
  { replace 52 with ((d - 1) + (53 - d)) by lia. rewrite Z.pow_add_r by lia.
    replace (p2 53) with (p2 d * p2 (53 - d)) by (rewrite <- Z.pow_add_r by lia; f_equal; lia).
    pose proof (Z.pow_pos_nonneg 2 (53 - d)). split; nia. }
  exists (53 - d). destruct (53 - d) as [|k|k] eqn:Hk; [| |lia].
  - exists p. rewrite Z.pow_0_r, Z.mul_1_r in *. change (- 0) with 0. cbv iota.
    replace (e - 0) with e by lia.
          rewrite round_aux_normal by lia. cbv zeta. cbn [round_nearest_even].
    rewrite (proj2 (Z.eqb_neq _ _)) by lia. repeat split; lia || done.
  - exists (Pos.iter xO p k). rewrite pos_iter_xO. change (- Z.pos k) with (Z.neg k). cbv iota.
    rewrite pos_iter_xO. rewrite round_aux_normal by lia. cbv zeta. cbn [round_nearest_even].
    rewrite (proj2 (Z.eqb_neq _ _)) by lia. repeat split; try lia.
    f_equal. apply Pos2Z.inj. rewrite Z2Pos.id by lia. by rewrite pos_iter_xO.
Qed.

Lemma iter_shr_exact a n :
  0 ≤ a → SpecFloat.iter_pos shr_1 n (Build_shr_record (a * p2 (Z.pos n)) false false)
  = Build_shr_record a false false.
Proof.
  revert a. assert (Hd : ∀ a, 0 ≤ a →
    shr_1 (Build_shr_record (2 * a) false false) = Build_shr_record a false false).
  { intros [|p|p] Ha; [done|done|lia]. }
  induction n as [n IH|n IH|]; intros a Ha; cbn [SpecFloat.iter_pos].
  - rewrite Pos2Z.inj_xI.
    replace (a * p2 (2 * Z.pos n + 1)) with (2 * (a * p2 (Z.pos n) * p2 (Z.pos n))).
    2:{ rewrite Z.pow_add_r, Z.pow_1_r by lia.
        replace (2 * Z.pos n) with (Z.pos n + Z.pos n) by lia.
        rewrite Z.pow_add_r by lia. ring. }
    rewrite Hd by (pose proof (Z.pow_nonneg 2 (Z.pos n)); nia).
    rewrite IH by (pose proof (Z.pow_nonneg 2 (Z.pos n)); nia). by apply IH.
  - replace (a * p2 (Z.pos n~0)) with (a * p2 (Z.pos n) * p2 (Z.pos n)).
    2:{ replace (Z.pos n~0) with (Z.pos n + Z.pos n) by lia.
        rewrite Z.pow_add_r by lia. ring. }
    rewrite IH by (pose proof (Z.pow_nonneg 2 (Z.pos n)); nia). by apply IH.
  - rewrite Z.pow_1_r. rewrite Z.mul_comm. by apply Hd.
Qed.

(** Trailing zeros are shifted out without rounding. *)
Lemma normalize_shift m a n e sz :
  m = Z.pos a * p2 n → p2 52 ≤ Z.pos a < p2 53 → 0 ≤ n → -1000 ≤ e → e + n ≤ 900 →
  binary_normalize b64_prec b64_emax m e sz = S754_finite false a (e + n).
Proof.
  intros Hm Ha Hn Hlo Hhi.
  pose proof (Z.pow_pos_nonneg 2 n ltac:(lia) Hn) as Hpn.
  destruct m as [|p|p]; [lia| |lia].
  assert (Hdig : Zdigits2 (Z.pos p) = 53 + n).
  { apply Zdigits2_unique; [lia|]. rewrite Hm.
    replace (53 + n - 1) with (52 + n) by lia. rewrite !Z.pow_add_r by lia. nia. }
  cbn [binary_normalize]. unfold binary_round.
  change (Z.pos (digits2_pos p)) with (Zdigits2 (Z.pos p)). rewrite Hdig.
  assert (Hf : fexp b64_prec b64_emax (53 + n + e) = e + n)
    by (unfold fexp, emin, b64_prec, b64_emax; lia).
  rewrite Hf. unfold shl_align. replace (e + n - e) with n by lia.
  replace (match n with Z.neg d => _ | _ => _ end) with (p, e) by (destruct n; [done|done|lia]).
  unfold binary_round_aux, shr_fexp. rewrite Hdig, Hf. replace (e + n - e) with n by lia.
  assert (Hshr : shr (shr_record_of_loc (Z.pos p) loc_Exact) e n
                 = (Build_shr_record (Z.pos a) false false, e + n)).
  { destruct n as [|n|n]; [|cbn [shr shr_record_of_loc]|lia].
    - cbn. rewrite Z.pow_0_r, Z.mul_1_r in Hm. by rewrite Hm, Z.add_0_r.
    - rewrite Hm, iter_shr_exact by lia. done. }
  rewrite Hshr. cbn [shr_m loc_of_shr_record round_nearest_even].
  rewrite (Zdigits2_unique (Z.pos a) 53), fexp_normal by lia.
  cbn [shr shr_record_of_loc shr_m]. rewrite (proj2 (Z.leb_le _ _)); [done|].
  unfold b64_emax, b64_prec. lia.
Qed.
End binary64.

(** ** The two floating-point tests *)
Section tests.
Lemma SFeqb_finite m1 e1 m2 e2 :
  SFeqb (S754_finite false m1 e1) (S754_finite false m2 e2)
  = (e1 =? e2) && (m1 =? m2)%positive.
Proof.
  unfold SFeqb, SFcompare. change (Pos.compare_cont Eq m1 m2) with (Pos.compare m1 m2).
  destruct (Z.compare_spec e1 e2) as [->|Hlt|Hgt].
  - rewrite Z.eqb_refl. destruct (Pos.compare_spec m1 m2) as [->|Hlt|Hgt]; symmetry;
      [by rewrite Pos.eqb_refl|apply Pos.eqb_neq; lia|apply Pos.eqb_neq; lia].
  - by rewrite (proj2 (Z.eqb_neq e1 e2)) by lia.
  - by rewrite (proj2 (Z.eqb_neq e1 e2)) by lia.
Qed.

Lemma b64_half_eq : b64_half = S754_finite false 4503599627370496 (-53).
Proof. by vm_compute. Qed.

Lemma SFeqb_finite_half e a :
  -500 ≤ e < 0 → 0 < a < 2 ^ 53 →
  let m := binary_normalize b64_prec b64_emax a e false in
  SFeqb m b64_zero = false ∧ SFeqb m b64_half = (a =? 2 ^ (- e - 1)).
Proof.
  intros He Ha m. subst m.
  destruct (normalize_exact a e false Ha ltac:(lia)) as (k & b & Hk & Hb & Hbb & ->).
  split; [done|]. rewrite b64_half_eq, SFeqb_finite.
  assert (Hbb' : Z.pos 4503599627370496 = 2 ^ 52) by (by vm_compute).
  generalize dependent 4503599627370496%positive. intros c Hc.
  apply eq_bool_prop_intro. rewrite !Is_true_true, andb_true_iff, !Z.eqb_eq, Pos.eqb_eq.
  split.
  - intros [Hek ->]. rewrite Hb in Hc.
    assert (Hpow : 2 ^ (- e - 1) * 2 ^ k = 2 ^ 52) by (rewrite <- Z.pow_add_r by lia; f_equal; lia).
    pose proof (Z.pow_pos_nonneg 2 k). nia.
  - intros ->. rewrite <- Z.pow_add_r in Hb by lia. rewrite Hb in Hbb.
    assert (52 ≤ - e - 1 + k) by (apply (Z.pow_le_mono_r_iff 2); lia).
    assert (- e - 1 + k < 53) by (apply (Z.pow_lt_mono_r_iff 2); lia).
    split; [lia|]. apply Pos2Z.inj. rewrite Hb, Hc. f_equal. lia.
Qed.

Lemma fmod1_tests m e :
  -500 ≤ e < 0 → Z.pos m < 2 ^ 53 →
  SFeqb (b64_fmod1 (S754_finite false m e)) b64_zero = (Z.pos m mod 2 ^ (- e) =? 0) ∧
  SFeqb (b64_fmod1 (S754_finite false m e)) b64_half
    = (Z.pos m mod 2 ^ (- e) =? 2 ^ (- e - 1)).
Proof.
  intros He Hm. cbn [b64_fmod1]. rewrite (proj2 (Z.leb_gt 0 e)) by lia. cbv zeta.
  pose proof (Z.pow_pos_nonneg 2 (- e) ltac:(lia) ltac:(lia)).
  pose proof (Z.mod_pos_bound (Z.pos m) (2 ^ (- e)) ltac:(lia)) as Hr.
  assert (Hrm : Z.pos m mod 2 ^ (- e) ≤ Z.pos m) by (apply Z.mod_le; lia).
  set (r := Z.pos m mod 2 ^ (- e)) in *. clearbody r.
  destruct (Z.eqb_spec r 0) as [->|Hne].
  - split; [done|]. symmetry. apply Z.eqb_neq.
    pose proof (Z.pow_pos_nonneg 2 (- e - 1) ltac:(lia) ltac:(lia)). lia.
  - apply (SFeqb_finite_half e r); lia.
Qed.

Lemma sqrt_tests m e :
  2 ^ 52 ≤ Z.pos m < 2 ^ 53 → -200 ≤ e ≤ 40 →
  let E := 26 - Z.div2 e in
  let qr := sqrt_round (Z.pos m * 2 ^ (e + 2 * E)) in
  2 ^ 52 ≤ qr ≤ 2 ^ 53 ∧
  SFeqb (b64_fmod1 (b64_sqrt (S754_finite false m e))) b64_zero = (qr mod 2 ^ E =? 0) ∧
  SFeqb (b64_fmod1 (b64_sqrt (S754_finite false m e))) b64_half = (qr mod 2 ^ E =? 2 ^ (E - 1)).
Proof.
  intros Hm He E qr.
  destruct (sqrt_normal m e Hm ltac:(lia)) as [Hqr ->].
  fold E in Hqr |- *. fold qr in Hqr |- *. split; [done|].
  assert (HE : 6 ≤ E ≤ 126).
  { unfold E. pose proof (div2_bounds e). lia. }
  clearbody E qr. destruct (Z.eqb_spec qr (2 ^ 53)) as [->|Hne].
  - destruct (fmod1_tests 4503599627370496 (1 - E) ltac:(lia) ltac:(lia)) as [-> ->].
    assert (Z.pos 4503599627370496 = 2 ^ 52) as -> by (by vm_compute).
    replace (- (1 - E)) with (E - 1) by lia.
    assert (Hmod : 2 ^ 53 mod 2 ^ E = 2 * (2 ^ 52 mod 2 ^ (E - 1))).
    { rewrite <- Z.mul_mod_distr_l by (try apply Z.pow_nonzero; lia).
      rewrite <- (Z.pow_succ_r 2 52) by lia. f_equal.
      rewrite <- (Z.pow_succ_r 2 (E - 1)) by lia. f_equal. lia. }
    assert (Hpow : 2 ^ (E - 1) = 2 * 2 ^ (E - 1 - 1)).
    { rewrite <- Z.pow_succ_r by lia. f_equal. lia. }
    rewrite Hmod, Hpow. split; apply eq_bool_prop_intro; rewrite !Is_true_true, !Z.eqb_eq; lia.
  - destruct (fmod1_tests (Z.to_pos qr) (- E) ltac:(lia) ltac:(lia)) as [-> ->].
    rewrite Z2Pos.id by lia. by rewrite Z.opp_involutive.
Qed.

Lemma near_square d F j :
  0 < d → 0 ≤ F → 0 ≤ j → sqrt_round (d * 2 ^ (2 * F)) = j * 2 ^ F →
  Z.abs (d - j * j) * 2 ^ F ≤ j.
Proof.
  intros Hd HF Hj Hq.
  pose proof (Z.pow_pos_nonneg 2 F ltac:(lia) HF) as HP.
  replace (2 * F) with (F + F) in Hq by lia. rewrite Z.pow_add_r in Hq by lia.
  pose proof (sqrt_round_bounds (d * (2 ^ F * 2 ^ F)) ltac:(nia)) as (_ & Hlo & Hhi).
  rewrite Hq in Hlo, Hhi. set (P := 2 ^ F) in *. clearbody P.
  assert (0 < j) by nia.
  rewrite (proj2 (Z.eqb_neq (j * P) 0)) in Hlo by nia.
  assert (P * (j * j * P - j) < P * (d * P)) by nia.
  assert (P * (d * P) ≤ P * (j * j * P + j)) by nia.
  assert (j * j * P - j < d * P) by nia. assert (d * P ≤ j * j * P + j) by nia. nia.
Qed.

Lemma sqrt_round_square j F :
  0 ≤ j → 0 ≤ F → sqrt_round (j * j * 2 ^ (2 * F)) = j * 2 ^ F.
Proof.
  intros Hj HF. replace (2 * F) with (F + F) by lia. rewrite Z.pow_add_r by lia.
  pose proof (Z.pow_pos_nonneg 2 F ltac:(lia) HF) as HP. set (P := 2 ^ F) in *. clearbody P.
  replace (j * j * (P * P)) with ((j * P) * (j * P)) by ring.
  unfold sqrt_round.
  pose proof (Z.sqrtrem_sqrt (j * P * (j * P))) as Hs.
  pose proof (Z.sqrtrem_spec (j * P * (j * P)) ltac:(nia)) as Hs'.
  destruct (Z.sqrtrem _) as [q r]. cbn in Hs. rewrite Z.sqrt_square in Hs by nia. subst q.
  destruct Hs' as [Heq Hr]. rewrite (proj2 (Z.leb_le r _)); [done|]. lia.
Qed.
End tests.

Lemma isSquareTest_exact d :
  (0 < d)%N → (d < 2 ^ 52)%N → isSquareTest d = true ↔ ∃ x, (x * x = d)%N.
Proof.
  intros Hpos Hlt. unfold isSquareTest. set (D := Z.of_N d).
  assert (HD : 0 < D < 2 ^ 52) by (unfold D; lia).
  destruct (normalize_exact D 0 false ltac:(lia) ltac:(lia)) as (k & m & Hk & Hm & Hmb & Heq).
  unfold b64_of_Z. rewrite Heq. rewrite Z.sub_0_l.
  destruct (sqrt_tests m (- k) Hmb ltac:(lia)) as (Hqr & -> & _).
  assert (Hk1 : 1 ≤ k).
  { destruct (decide (k = 0)) as [->|]; [|lia]. rewrite Z.pow_0_r in Hm. lia. }
  set (E := 26 - Z.div2 (- k)) in *.
  assert (HE : 27 ≤ E ∧ 0 ≤ - k + 2 * E).
  { unfold E. pose proof (div2_bounds (- k)). lia. }
  assert (HDE : Z.pos m * 2 ^ (- k + 2 * E) = D * 2 ^ (2 * E)).
  { rewrite Hm, <- Z.mul_assoc, <- Z.pow_add_r by lia. do 2 f_equal. lia. }
  rewrite HDE in *. clearbody E. rewrite Z.eqb_eq.
  pose proof (Z.pow_pos_nonneg 2 E ltac:(lia) ltac:(lia)) as HP. split.
  - intros Hmod. apply Z.mod_divide in Hmod as [j Hj]; [|lia].
    pose proof (near_square D E j ltac:(lia) ltac:(lia) ltac:(nia) Hj) as Hnear.
    assert (HEb : 2 ^ 27 ≤ 2 ^ E) by (apply Z.pow_le_mono_r; lia).
    assert (Hjb : j ≤ 2 ^ 26) by nia.
    assert (HDj : D = j * j) by nia.
    exists (Z.to_N j). unfold D in HDj. nia.
  - intros [x Hx]. assert (HDx : D = Z.of_N x * Z.of_N x) by (unfold D; lia).
    rewrite HDx, sqrt_round_square by lia. by apply Z.mod_mul; lia.
Qed.

(** [delta + 0.25] is exact below [2^51]. *)
Lemma b64_add_quarter d :
  0 < d < 2 ^ 51 →
  ∃ m k, 2 ^ 52 ≤ Z.pos m < 2 ^ 53 ∧ 0 ≤ k ≤ 52 ∧ Z.pos m = (4 * d + 1) * 2 ^ k ∧
    b64_add (b64_of_Z d) b64_quarter = S754_finite false m (- k - 2).
Proof.
  intros Hd.
  destruct (normalize_exact d 0 false ltac:(lia) ltac:(lia)) as (k1 & a & Hk1 & Ha & Hab & Heq).
  unfold b64_of_Z. rewrite Heq.
  assert (b64_quarter = S754_finite false 4503599627370496 (-54)) as -> by (by vm_compute).
  unfold b64_add, SFadd.
  replace (Z.min (0 - k1) (-54)) with (-54) by lia.
  assert (Hal : Z.pos (fst (shl_align a (0 - k1) (-54))) = d * 2 ^ 54).
  { unfold shl_align. destruct (-54 - (0 - k1)) as [|p|p] eqn:Hp; [lia|lia|].
    cbn [fst]. rewrite pos_iter_xO, Ha, <- Z.mul_assoc, <- Z.pow_add_r by lia.
    do 2 f_equal. lia. }
  assert (Hal' : Z.pos (fst (shl_align 4503599627370496 (-54) (-54))) = 2 ^ 52) by (by vm_compute).
  cbn [cond_Zopp]. rewrite Hal, Hal'.
  replace (d * 2 ^ 54 + 2 ^ 52) with ((4 * d + 1) * 2 ^ 52) by lia.
  destruct (normalize_exact (4 * d + 1) 0 false ltac:(lia) ltac:(lia))
    as (k & b & Hk & Hb & Hbb & _).
  exists b, k. split; [done|]. split; [done|]. split; [done|].
  rewrite (normalize_shift _ b (52 - k)); [f_equal; lia| |lia|lia|lia|lia].
  rewrite Hb, <- Z.mul_assoc, <- Z.pow_add_r by lia. do 2 f_equal. lia.
Qed.

Lemma isPronicTest_exact d :
  (0 < d)%N → (d < 2 ^ 51)%N → isPronicTest d = true ↔ ∃ x, (x * x + x = d)%N.
Proof.
  intros Hpos Hlt. unfold isPronicTest. set (D := Z.of_N d).
  assert (HD : 0 < D < 2 ^ 51) by (unfold D; lia).
  destruct (b64_add_quarter D HD) as (m & k & Hmb & Hk & Hm & ->).
  destruct (sqrt_tests m (- k - 2) Hmb ltac:(lia)) as (Hqr & _ & ->).
  set (F := 25 - Z.div2 (- k - 2)).
  replace (26 - Z.div2 (- k - 2)) with (F + 1) in * by (unfold F; lia).
  assert (HF : 26 ≤ F ∧ 0 ≤ - k + 2 * F).
  { unfold F. pose proof (div2_bounds (- k - 2)). lia. }
  replace (F + 1 - 1) with F by lia.
  assert (HDF : Z.pos m * 2 ^ (- k - 2 + 2 * (F + 1)) = (4 * D + 1) * 2 ^ (2 * F)).
  { rewrite Hm, <- Z.mul_assoc, <- Z.pow_add_r by lia. do 2 f_equal. lia. }
  rewrite HDF in *. clearbody F. rewrite Z.eqb_eq.
  pose proof (Z.pow_pos_nonneg 2 F ltac:(lia) ltac:(lia)) as HP.
  assert (HFb : 2 ^ 26 ≤ 2 ^ F) by (apply Z.pow_le_mono_r; lia).
  rewrite Z.pow_add_r, Z.pow_1_r by lia. split.
  - intros Hmod.
    assert (∃ t, sqrt_round ((4 * D + 1) * 2 ^ (2 * F)) = (2 * t + 1) * 2 ^ F) as [t Ht].
    { exists (sqrt_round ((4 * D + 1) * 2 ^ (2 * F)) / (2 ^ F * 2)).
      rewrite (Z.div_mod (sqrt_round ((4 * D + 1) * 2 ^ (2 * F))) (2 ^ F * 2)) at 1 by lia.
      rewrite Hmod. ring. }
    rewrite Ht in Hqr. assert (0 ≤ t) by nia.
    pose proof (near_square (4 * D + 1) F (2 * t + 1) ltac:(lia) ltac:(lia) ltac:(lia) Ht) as Hnear.
    assert (Htb : 2 * t + 1 ≤ 2 ^ 27) by nia.
    assert (Habs : Z.abs (4 * D + 1 - (2 * t + 1) * (2 * t + 1)) ≤ 2) by nia.
    assert (HDt : D = t * t + t) by nia.
    exists (Z.to_N t). unfold D in HDt. nia.
  - intros [x Hx].
    assert (HDx : 4 * D + 1 = (2 * Z.of_N x + 1) * (2 * Z.of_N x + 1)) by (unfold D; nia).
    rewrite HDx, sqrt_round_square by lia.
    replace ((2 * Z.of_N x + 1) * 2 ^ F) with (2 ^ F + Z.of_N x * (2 ^ F * 2)) by ring.
    rewrite Z.mod_add by lia. apply Z.mod_small. lia.
Qed.

(** For every distance below [2^51] the code decides the integer specification. *)
Lemma isJustifiableSlot_spec `{BuildMode} fin cand :
  (fin ≤ cand)%N → (cand < two64)%N → (cand - fin < 2 ^ 51)%N →
  isJustifiableSlot fin cand = Ok (justifiable_deltab (cand - fin)).
Proof.
  intros Hle Hb Hd. unfold isJustifiableSlot.
  rewrite (proj2 (N.leb_le fin cand) Hle), boost_assert_true. cbn [mbind outcome_bind].
  rewrite u64_sub_small by done. set (d := (cand - fin)%N) in *. f_equal.
  apply eq_bool_prop_intro. rewrite !Is_true_true, justifiable_deltab_spec.
  unfold justifiable_delta. rewrite !orb_true_iff, N.leb_le.
  destruct (decide (d ≤ 5)%N); [tauto|].
  rewrite isSquareTest_exact, isPronicTest_exact by lia. tauto.
Qed.

(** The bound is needed: at distance [2^52 + 1], which is neither a square nor a
    pronic number, the square root rounds to [2^26] and the slot is accepted. *)
Lemma isSquareTest_inexact :
  isSquareTest (2 ^ 52 + 1) = true ∧ justifiable_deltab (2 ^ 52 + 1) = false.
Proof. split; by vm_compute. Qed.
