(* ===== verification/Stf.v ===== *)
(** * State transition function: definitions
      (src/src/blockchain/state_transition_function.{hpp,cpp})

    [State] is passed by value: [stateTransition] copies the parent state, and a
    caller that gets an error drops the copy, so every step is a function
    [State → result State].  Logging and metrics are left out. *)

From S2P Require Import Prelude Errors Types Justifiable.

(** ** Field updates of [State] *)
Definition set_slot (x : Slot) (s : State) : State :=
  mkState (st_config s) x (st_latest_block_header s) (st_latest_justified s)
    (st_latest_finalized s) (st_historical_block_hashes s) (st_justified_slots s)
    (st_validators s) (st_justifications_roots s) (st_justifications_validators s).
Definition set_latest_block_header (x : BlockHeader) (s : State) : State :=
  mkState (st_config s) (st_slot s) x (st_latest_justified s)
    (st_latest_finalized s) (st_historical_block_hashes s) (st_justified_slots s)
    (st_validators s) (st_justifications_roots s) (st_justifications_validators s).
Definition set_checkpoints (j f : Checkpoint) (s : State) : State :=
  mkState (st_config s) (st_slot s) (st_latest_block_header s) j f
    (st_historical_block_hashes s) (st_justified_slots s)
    (st_validators s) (st_justifications_roots s) (st_justifications_validators s).
Definition set_historical_block_hashes (x : list BlockHash) (s : State) : State :=
  mkState (st_config s) (st_slot s) (st_latest_block_header s) (st_latest_justified s)
    (st_latest_finalized s) x (st_justified_slots s)
    (st_validators s) (st_justifications_roots s) (st_justifications_validators s).
Definition set_justified_slots (x : list bool) (s : State) : State :=
  mkState (st_config s) (st_slot s) (st_latest_block_header s) (st_latest_justified s)
    (st_latest_finalized s) (st_historical_block_hashes s) x
    (st_validators s) (st_justifications_roots s) (st_justifications_validators s).
Definition set_justifications (roots : list BlockHash) (vals : list bool) (s : State) : State :=
  mkState (st_config s) (st_slot s) (st_latest_block_header s) (st_latest_justified s)
    (st_latest_finalized s) (st_historical_block_hashes s) (st_justified_slots s)
    (st_validators s) roots vals.

Definition with_state_root (r : N) (h : BlockHeader) : BlockHeader :=
  mkBlockHeader (bh_slot h) (bh_proposer_index h) (bh_parent_root h) r (bh_body_root h).

(** ** The window of justified slots

    A bit list indexed by slot, starting right after the finalized slot. *)
Definition justifiedIndexAfter (finalized_slot slot : Slot) : option Slot :=
  if slot <=? finalized_slot then None
  else Some (u64_sub (u64_sub slot finalized_slot) 1).

Definition extendToSlot (bits : list bool) (finalized_slot target_slot : Slot) : list bool :=
  match justifiedIndexAfter finalized_slot target_slot with
  | None => bits
  | Some index =>
      let size := u64_add index 1 in
      if size <=? lengthN bits then bits
      else bits ++ replicate (N.to_nat (size - lengthN bits)) false
  end.

Definition isSlotJustified (bits : list bool) (finalized_slot target_slot : Slot)
    : option bool :=
  match justifiedIndexAfter finalized_slot target_slot with
  | None => Some true
  | Some index =>
      if lengthN bits <=? index then None else bits !! N.to_nat index
  end.

Definition withJustified (bits : list bool) (finalized_slot target_slot : Slot)
    : result (list bool) :=
  match justifiedIndexAfter finalized_slot target_slot with
  | None => Ok bits
  | Some index =>
      if index <? lengthN bits then Ok (<[N.to_nat index := true]> bits)
      else Throw OutOfRange
  end.

Definition shiftWindow (bits : list bool) (delta : Slot) : list bool :=
  drop (N.to_nat (N.min (lengthN bits) delta)) bits.

(** ** Justification votes

    [std::map<BlockHash, std::vector<bool>>], iterated in key order. *)
Abbreviation Justifications := (gmap BlockHash (list bool)).

Definition key_le {V} (x y : BlockHash * V) : Prop := x.1 ≤ y.1.
#[global] Instance key_le_dec {V} (x y : BlockHash * V) : Decision (key_le x y).
Proof. unfold key_le. apply _. Defined.
#[global] Instance key_le_total {V} : Total (@key_le V).
Proof. intros x y. unfold key_le. lia. Qed.
#[global] Instance key_le_trans {V} : Transitive (@key_le V).
Proof. intros x y z. unfold key_le. lia. Qed.

Definition map_ordered {V} (m : gmap BlockHash V) : list (BlockHash * V) :=
  merge_sort key_le (map_to_list m).

Section stf.
Context `{BuildMode} `{SszHash}.

(** setJustifications *)
Definition setJustifications (state : State) (justifications : Justifications)
    : result State :=
  let items := map_ordered justifications in
  _ ← oc_iter (λ '(root, bits), boost_assert (lengthN bits =? validatorCount state)) items;
  Ok (set_justifications items.*1 (concat items.*2) state).

(** The reconstruction of [Justifications] at the start of processAttestations:
    one segment of [n] votes per root; reading past the end of the flat list is
    undefined. *)
Fixpoint cutJustifications (n : nat) (roots : list BlockHash) (flat : list bool)
    (acc : Justifications) : result Justifications :=
  match roots with
  | [] => Ok acc
  | root :: roots =>
      if (length flat <? n)%nat then Throw UndefinedBehaviour
      else cutJustifications n roots (drop n flat) (<[root := take n flat]> acc)
  end.

Definition getJustifications (state : State) : result Justifications :=
  let roots := st_justifications_roots state in
  let flat := st_justifications_validators state in
  if lengthN roots =? 0 then Ok ∅
  else
    _ ← boost_assert (lengthN flat =? lengthN roots * validatorCount state);
    cutJustifications (N.to_nat (validatorCount state)) roots flat ∅.

(** STF::generateGenesisState *)
Definition generateGenesisState (config : Config) (validators : list Validator) : State :=
  mkState config 0
    (mkBlockHeader 0 0 kZeroHash kZeroHash (sszHash_body (mkBlockBody [])))
    (mkCheckpoint kZeroHash 0) (mkCheckpoint kZeroHash 0)
    [] [] validators [] [].

(** STF::genesisBlock *)
Definition genesisBlock (state : State) : Block :=
  mkBlock (st_slot state) 0 kZeroHash (sszHash_state state) (mkBlockBody []).

(** One turn of the loop of processSlots. *)
Definition processSlot (state : State) : State :=
  let header := st_latest_block_header state in
  let state := if bh_state_root header =? kZeroHash
               then set_latest_block_header (with_state_root (sszHash_state state) header) state
               else state in
  set_slot (u64_add (st_slot state) 1) state.

(** STF::processSlots: the loop runs until [state.slot] reaches [slot]. *)
Definition processSlots (state : State) (slot : Slot) : result State :=
  if slot <=? st_slot state then Err (E_STF INVALID_SLOT)
  else Ok (Nat.iter (N.to_nat (slot - st_slot state)) processSlot state).

(** STF::validateProposerIndex *)
Definition validateProposerIndex (state : State) (block : Block) : result bool :=
  if validatorCount state =? 0 then Throw DivisionByZero
  else Ok (b_proposer_index block =? b_slot block mod validatorCount state).

(** STF::processBlockHeader *)
Definition processBlockHeader (state : State) (block : Block) : result State :=
  let parent_header := st_latest_block_header state in
  let parent_root := sszHash_header parent_header in
  if negb (b_slot block =? st_slot state) then Err (E_STF INVALID_SLOT)
  else if b_slot block <=? bh_slot parent_header then Err (E_STF INVALID_SLOT)
  else
    valid_proposer ← validateProposerIndex state block;
    if negb valid_proposer then Err (E_STF STF_INVALID_PROPOSER)
    else if negb (b_parent_root block =? parent_root)
    then Err (E_STF PARENT_ROOT_DOESNT_MATCH)
    else
      let state :=
        if bh_slot parent_header =? 0
        then set_checkpoints
               (mkCheckpoint parent_root (cp_slot (st_latest_justified state)))
               (mkCheckpoint parent_root (cp_slot (st_latest_finalized state))) state
        else state in
      let num_empty_slots := u64_sub (u64_sub (b_slot block) (bh_slot parent_header)) 1 in
      let state := set_historical_block_hashes
        (st_historical_block_hashes state ++ parent_root
           :: replicate (N.to_nat num_empty_slots) kZeroHash) state in
      let last_materialized_slot := u64_sub (b_slot block) 1 in
      let state := set_justified_slots
        (extendToSlot (st_justified_slots state)
           (cp_slot (st_latest_finalized state)) last_materialized_slot) state in
      Ok (set_latest_block_header (with_state_root kZeroHash (getHeader block)) state).

(** The map from roots to their latest slot after the finalized one. *)
Definition rootToSlot (finalized_slot : Slot) (hashes : list BlockHash) : gmap BlockHash Slot :=
  let start := u64_add finalized_slot 1 in
  foldl (λ m slot, match hashes !! N.to_nat slot with
                   | Some root => <[root := slot]> m
                   | None => m
                   end)
    ∅ (seqN start (lengthN hashes - start)).

(** What the loop of processAttestations carries from one attestation to the next. *)
Record Tally := mkTally {
  ta_justifications : Justifications;
  ta_latest_justified : Checkpoint;
  ta_latest_finalized : Checkpoint;
  ta_justified_slots : list bool;
}.

(** Setting the participants' votes for one target. *)
Definition addVotes (bits : list bool) (participants : list ValidatorIndex)
    : result (list bool) :=
  oc_foldl (λ bits validator_id,
    if lengthN bits <=? validator_id then Err (E_STF INVALID_VOTER)
    else Ok (<[N.to_nat validator_id := true]> bits)) bits participants.

Definition countVotes (bits : list bool) : N := lengthN (filter (λ b, b = true) bits).

(** The finalization part: runs after [target] was justified. *)
Definition finalizeSource (root_to_slot : gmap BlockHash Slot) (source target : Checkpoint)
    (t : Tally) : result Tally :=
  let first := u64_add (cp_slot source) 1 in
  any ← oc_any (isJustifiableSlot (cp_slot (ta_latest_finalized t)))
          (seqN first (cp_slot target - first));
  if (any : bool) then Ok t
  else
    let old_finalized_slot := cp_slot (ta_latest_finalized t) in
    let delta := u64_sub (cp_slot source) old_finalized_slot in
    if 0 <? delta then
      _ ← oc_iter (λ '(root, _), _ ← of_option OutOfRange (root_to_slot !! root); Ok ())
            (map_ordered (ta_justifications t));
      Ok (mkTally
            (filter (λ '(root, _), cp_slot source < default 0 (root_to_slot !! root))
               (ta_justifications t))
            (ta_latest_justified t) source
            (shiftWindow (ta_justified_slots t) delta))
    else Ok (mkTally (ta_justifications t) (ta_latest_justified t) source
               (ta_justified_slots t)).

(** The body of the loop of processAttestations; [continue] returns the tally. *)
Definition processAttestation (n : N) (hashes : list BlockHash)
    (root_to_slot : gmap BlockHash Slot) (t : Tally) (attestation : AggregatedAttestation)
    : result Tally :=
  let source := ad_source (aa_data attestation) in
  let target := ad_target (aa_data attestation) in
  let finalized_slot := cp_slot (ta_latest_finalized t) in
  if lengthN hashes <=? cp_slot source then Err (E_STF INVALID_VOTE_SOURCE_SLOT)
  else if lengthN hashes <=? cp_slot target then Err (E_STF INVALID_VOTE_TARGET_SLOT)
  else
    source_justified ← of_option BadOptionalAccess
      (isSlotJustified (ta_justified_slots t) finalized_slot (cp_slot source));
    if negb source_justified then Ok t
    else
      target_justified ← of_option BadOptionalAccess
        (isSlotJustified (ta_justified_slots t) finalized_slot (cp_slot target));
      if (target_justified : bool) then Ok t
      else if (cp_root source =? kZeroHash) || (cp_root target =? kZeroHash) then Ok t
      else
        source_root ← of_option OutOfRange (hashes !! N.to_nat (cp_slot source));
        if negb (cp_root source =? source_root) then Ok t
        else
          target_root ← of_option OutOfRange (hashes !! N.to_nat (cp_slot target));
          if negb (cp_root target =? target_root) then Ok t
          else if cp_slot target <=? cp_slot source then Ok t
          else
            justifiable ← isJustifiableSlot finalized_slot (cp_slot target);
            if negb justifiable then Ok t
            else
              let votes := default (replicate (N.to_nat n) false)
                             (ta_justifications t !! cp_root target) in
              bits ← addVotes votes (Bits.iter (aa_aggregation_bits attestation));
              let justifications := <[cp_root target := bits]> (ta_justifications t) in
              if u64_mul 2 n <=? u64_mul 3 (countVotes bits) then
                justified_slots ← withJustified (ta_justified_slots t) finalized_slot
                                    (cp_slot target);
                finalizeSource root_to_slot source target
                  (mkTally (delete (cp_root target) justifications) target
                     (ta_latest_finalized t) justified_slots)
              else
                Ok (mkTally justifications (ta_latest_justified t)
                      (ta_latest_finalized t) (ta_justified_slots t)).

(** STF::processAttestations *)
Definition processAttestations (state : State) (attestations : list AggregatedAttestation)
    : result State :=
  justifications ← getJustifications state;
  let root_to_slot := rootToSlot (cp_slot (st_latest_finalized state))
                        (st_historical_block_hashes state) in
  t ← oc_foldl (processAttestation (validatorCount state)
                  (st_historical_block_hashes state) root_to_slot)
        (mkTally justifications (st_latest_justified state) (st_latest_finalized state)
           (st_justified_slots state)) attestations;
  state ← setJustifications (set_justified_slots (ta_justified_slots t) state)
            (ta_justifications t);
  Ok (set_checkpoints (ta_latest_justified t) (ta_latest_finalized t) state).

(** STF::processOperations *)
Definition processOperations (state : State) (body : BlockBody) : result State :=
  processAttestations state (bb_attestations body).

(** STF::processBlock *)
Definition processBlock (state : State) (block : Block) : result State :=
  state ← processBlockHeader state block;
  processOperations state (b_body block).

(** STF::stateTransition *)
Definition stateTransition (block : Block) (parent_state : State) (check_state_root : bool)
    : result State :=
  state ← processSlots parent_state (b_slot block);
  state ← processBlock state block;
  if check_state_root && negb (b_state_root block =? sszHash_state state)
  then Err (E_STF STATE_ROOT_DOESNT_MATCH)
  else Ok state.
End stf.
