(* ===== verification/StfWindow.v ===== *)
(** * The window of justified slots and the vote tables: lemmas

    The bit list [justified_slots] stores the justified slots relative to the
    finalized slot.  This file reads it as a function on absolute slots and shows
    what each helper of state_transition_function.cpp does to that function, and
    that the flattened vote table determines the map it was flattened from. *)

From S2P Require Import Prelude Errors Types Justifiable Stf.

(** ** Absolute reading of the window *)
Section window.
Implicit Types (bits : list bool) (fin s t : Slot).

Lemma justifiedIndexAfter_gt fin s :
  fin < s → s < two64 → justifiedIndexAfter fin s = Some (s - fin - 1).
Proof.
  intros Hlt Hb. unfold justifiedIndexAfter.
  rewrite (proj2 (N.leb_gt s fin)) by lia.
  rewrite !u64_sub_small by (try rewrite u64_sub_small; lia). done.
Qed.

Lemma justifiedIndexAfter_le fin s : s ≤ fin → justifiedIndexAfter fin s = None.
Proof. intros Hle. unfold justifiedIndexAfter. by rewrite (proj2 (N.leb_le s fin)). Qed.

Lemma isSlotJustified_le bits fin s : s ≤ fin → isSlotJustified bits fin s = Some true.
Proof. intros. unfold isSlotJustified. by rewrite justifiedIndexAfter_le. Qed.

Lemma isSlotJustified_gt bits fin s :
  fin < s → s < two64 → isSlotJustified bits fin s = bits !! N.to_nat (s - fin - 1).
Proof.
  intros Hlt Hb. unfold isSlotJustified. rewrite justifiedIndexAfter_gt by done.
  case_match eqn:Hle; [|done]. apply N.leb_le in Hle. unfold lengthN in Hle.
  symmetry. apply lookup_ge_None. lia.
Qed.

Lemma isSlotJustified_covered bits fin s :
  s < two64 → s ≤ fin + lengthN bits → is_Some (isSlotJustified bits fin s).
Proof.
  intros Hb Hcov. destruct (decide (s ≤ fin)).
  - rewrite isSlotJustified_le by done. eauto.
  - rewrite isSlotJustified_gt by lia. apply lengthN_lookup_is_Some. lia.
Qed.

Lemma withJustified_ok bits fin t :
  t < two64 → t ≤ fin + lengthN bits → ∃ bits', withJustified bits fin t = Ok bits'.
Proof.
  intros Hb Hcov. unfold withJustified. destruct (decide (t ≤ fin)).
  - rewrite justifiedIndexAfter_le by done. eauto.
  - rewrite justifiedIndexAfter_gt by lia. rewrite (proj2 (N.ltb_lt _ _)) by lia. eauto.
Qed.

Lemma withJustified_length bits fin t bits' :
  withJustified bits fin t = Ok bits' → lengthN bits' = lengthN bits.
Proof.
  unfold withJustified, lengthN. intros Hw. outcome_inv Hw; [|done].
  by rewrite length_insert.
Qed.

(** Justifying a slot adds exactly that slot. *)
Lemma withJustified_justified bits fin t bits' s :
  withJustified bits fin t = Ok bits' → t < two64 → s < two64 →
  isSlotJustified bits' fin s
  = if decide (s = t) then Some true else isSlotJustified bits fin s.
Proof.
  unfold withJustified. intros Hw Ht Hs. destruct (decide (t ≤ fin)) as [Hle|Hgt].
  { rewrite justifiedIndexAfter_le in Hw by done. injection Hw as <-.
    case_decide; [|done]. subst. by apply isSlotJustified_le. }
  rewrite justifiedIndexAfter_gt in Hw by lia.
  destruct (_ <? _) eqn:Hlen; [|done]. injection Hw as <-. apply N.ltb_lt in Hlen.
  unfold lengthN in Hlen. destruct (decide (s ≤ fin)).
  { rewrite !isSlotJustified_le by done. by case_decide. }
  rewrite !isSlotJustified_gt by lia. case_decide as Heq.
  - subst. rewrite list_lookup_insert_eq; [done|lia].
  - rewrite list_lookup_insert_ne by lia. done.
Qed.

Lemma extendToSlot_length bits fin t :
  t < two64 - 1 → lengthN (extendToSlot bits fin t) = N.max (lengthN bits) (t - fin).
Proof.
  intros Ht. unfold extendToSlot. destruct (decide (t ≤ fin)).
  { rewrite justifiedIndexAfter_le by done. lia. }
  rewrite justifiedIndexAfter_gt by lia. rewrite u64_add_small by lia.
  case_match eqn:Hle; [apply N.leb_le in Hle; lia|]. apply N.leb_gt in Hle.
  unfold lengthN in *. rewrite length_app, length_replicate. lia.
Qed.

(** Extending the window never changes the status of a covered slot. *)
Lemma extendToSlot_justified bits fin t s b :
  s < two64 → isSlotJustified bits fin s = Some b →
  isSlotJustified (extendToSlot bits fin t) fin s = Some b.
Proof.
  intros Hs Hb. destruct (decide (s ≤ fin)).
  { rewrite isSlotJustified_le in * by done. done. }
  rewrite isSlotJustified_gt in * by lia. unfold extendToSlot.
  repeat case_match; try done. by apply lookup_app_l_Some.
Qed.

(** Slots added by the extension are not justified. *)
Lemma extendToSlot_fresh bits fin t s :
  s < two64 → isSlotJustified bits fin s = None →
  isSlotJustified (extendToSlot bits fin t) fin s ≠ Some true.
Proof.
  intros Hs Hb. destruct (decide (s ≤ fin)).
  { rewrite isSlotJustified_le in Hb by done. done. }
  rewrite isSlotJustified_gt in * by lia. unfold extendToSlot.
  repeat case_match; try by rewrite Hb. apply lookup_ge_None in Hb.
  rewrite lookup_app_r by done. intros Hr. by apply lookup_replicate in Hr as [? _].
Qed.

Lemma shiftWindow_length bits d : lengthN (shiftWindow bits d) = lengthN bits - d.
Proof. unfold shiftWindow, lengthN. rewrite length_drop. lia. Qed.

(** Rebasing the window on a later finalized slot keeps every slot after it. *)
Lemma shiftWindow_justified bits fin fin' s :
  fin ≤ fin' → s < two64 →
  isSlotJustified (shiftWindow bits (fin' - fin)) fin' s
  = if decide (s ≤ fin') then Some true else isSlotJustified bits fin s.
Proof.
  intros Hle Hs. case_decide; [by apply isSlotJustified_le|].
  rewrite !isSlotJustified_gt by lia. unfold shiftWindow, lengthN.
  rewrite lookup_drop.
  destruct (decide (N.of_nat (length bits) ≤ fin' - fin)).
  - rewrite !lookup_ge_None_2 by lia. done.
  - f_equal. lia.
Qed.
End window.

(** ** Ordered iteration of a map *)
Section map_ordered.
Context {V : Type}.
Implicit Types m : gmap BlockHash V.

Lemma map_ordered_Permutation m : map_ordered m ≡ₚ map_to_list m.
Proof. apply merge_sort_Permutation. Qed.

Lemma elem_of_map_ordered m k v : (k, v) ∈ map_ordered m ↔ m !! k = Some v.
Proof. rewrite map_ordered_Permutation. apply elem_of_map_to_list. Qed.

Lemma NoDup_map_ordered_fst m : NoDup (map_ordered m).*1.
Proof. rewrite map_ordered_Permutation. apply NoDup_fst_map_to_list. Qed.

Lemma map_ordered_sorted m : StronglySorted N.le (map_ordered m).*1.
Proof.
  assert (Hs : StronglySorted key_le (map_ordered m)) by (apply StronglySorted_merge_sort; apply _).
  induction Hs as [|x l _ IH Hx]; [constructor|]. simpl. constructor; [done|].
  apply Forall_fmap. eapply Forall_impl; [done|]. done.
Qed.

Lemma list_to_map_ordered m : list_to_map (map_ordered m) = m.
Proof.
  rewrite <- (list_to_map_to_list m) at 2.
  apply list_to_map_proper; [apply NoDup_map_ordered_fst|apply map_ordered_Permutation].
Qed.
End map_ordered.

(** ** Flattening and cutting the vote table *)
Section justifications.
Lemma cutJustifications_ok n roots flat acc :
  length flat = (length roots * n)%nat →
  ∃ j, cutJustifications n roots flat acc = Ok j ∧
    (∀ r, r ∈ dom j ↔ r ∈ dom acc ∨ r ∈ roots) ∧
    (map_Forall (λ _ bits, length bits = n) acc → map_Forall (λ _ bits, length bits = n) j).
Proof.
  revert flat acc. induction roots as [|r roots IH]; intros flat acc Hlen; simpl in *.
  { exists acc. set_solver. }
  case_match eqn:Hlt; [apply Nat.ltb_lt in Hlt; lia|].
  destruct (IH (drop n flat) (<[r := take n flat]> acc)) as (j & Hj & Hdom & Hn).
  { rewrite length_drop. lia. }
  exists j. split; [done|]. split.
  - intros r'. rewrite Hdom, dom_insert_L. set_solver.
  - intros Hacc. apply Hn. apply map_Forall_insert_2; [|done].
    rewrite length_take. lia.
Qed.

Lemma cutJustifications_concat n (items : list (BlockHash * list bool)) acc :
  Forall (λ x, length x.2 = n) items →
  cutJustifications n items.*1 (concat items.*2) acc
  = Ok (foldl (λ m x, <[x.1 := x.2]> m) acc items).
Proof.
  revert acc. induction items as [|[r bits] items IH]; intros acc Hall; [done|].
  apply Forall_cons in Hall as [Hb Hall]. simpl in *.
  rewrite length_app. case_match eqn:Hlt; [apply Nat.ltb_lt in Hlt; lia|].
  rewrite take_app_length', drop_app_length' by done. by apply IH.
Qed.

Lemma foldl_insert_list_to_map (items : list (BlockHash * list bool)) (acc : Justifications) :
  NoDup items.*1 →
  foldl (λ m x, <[x.1 := x.2]> m) acc items = list_to_map items ∪ acc.
Proof.
  revert acc. induction items as [|[r bits] items IH]; intros acc Hnd; simpl.
  { by rewrite map_empty_union. }
  apply NoDup_cons in Hnd as [Hni Hnd]. rewrite IH by done.
  apply map_eq. intros k. rewrite !lookup_union.
  destruct (decide (r = k)) as [->|Hne].
  - assert (Hnone : (list_to_map items : Justifications) !! k = None)
      by (by apply not_elem_of_list_to_map).
    rewrite !lookup_insert_eq, Hnone. by destruct (acc !! k).
  - by rewrite !lookup_insert_ne by done.
Qed.
End justifications.
