(* ===== verification/StfProofs.v ===== *)
(** * State transition function: invariant and theorems *)

From S2P Require Import Prelude Errors Types Justifiable Stf StfWindow.

(** ** Voting *)
Section votes.
Lemma addVotes_length bits l bits' :
  addVotes bits l = Ok bits' → length bits' = length bits.
Proof.
  intros Hv. symmetry.
  apply (oc_foldl_inv (λ b, length bits = length b) _ _ _ _ eq_refl) in Hv; [done|].
  intros b x b' _ Hb Hs. outcome_inv Hs. by rewrite length_insert.
Qed.

Lemma addVotes_throws_only P bits l : throws_only P (addVotes bits l).
Proof.
  apply (oc_foldl_throws_only _ (λ _, True)); [done| |done].
  intros b x _ _. by case_match.
Qed.

(** A vote is counted iff it was there before or its validator participates. *)
Lemma addVotes_lookup bits l bits' i :
  addVotes bits l = Ok bits' →
  bits' !! N.to_nat i = Some true ↔ bits !! N.to_nat i = Some true ∨ i ∈ l.
Proof.
  revert bits. induction l as [|j l IH]; intros bits; simpl.
  { intros [= <-]. set_solver. }
  intros (b1 & H1 & H2)%outcome_bind_ok. rewrite (IH _ H2).
  outcome_inv H1. apply N.leb_gt in Hb. unfold lengthN in Hb. rewrite elem_of_cons.
  destruct (decide (i = j)) as [->|Hne].
  - rewrite list_lookup_insert_eq by lia. naive_solver.
  - rewrite list_lookup_insert_ne by lia. naive_solver.
Qed.

Lemma countVotes_le bits : countVotes bits ≤ lengthN bits.
Proof. unfold countVotes, lengthN. pose proof (length_filter (λ b, b = true) bits). lia. Qed.
End votes.

(** ** The map from roots to slots *)
Section rootToSlot.
Lemma rootToSlot_seq (hashes : list BlockHash) r n start (m0 : gmap BlockHash Slot) :
  let m := foldl (λ m slot, match hashes !! N.to_nat slot with
                   | Some root => <[root := slot]> m | None => m end) m0 (seqN start n) in
  (∃ s, start ≤ s < start + n ∧ hashes !! N.to_nat s = Some r ∧ m !! r = Some s ∧
     ∀ s', start ≤ s' < start + n → hashes !! N.to_nat s' = Some r → s' ≤ s)
  ∨ ((∀ s, start ≤ s < start + n → hashes !! N.to_nat s ≠ Some r) ∧ m !! r = m0 !! r).
Proof.
  revert start. induction n as [|n IH] using N.peano_ind; intros start.
  { right. split; [lia|done]. }
  cbv zeta. rewrite seqN_snoc, foldl_app. simpl. specialize (IH start). cbv zeta in IH.
  set (m1 := foldl _ m0 (seqN start n)) in *.
  destruct (hashes !! N.to_nat (start + n)) as [r'|] eqn:Hr'.
  - destruct (decide (r' = r)) as [->|Hne].
    + left. exists (start + n). rewrite lookup_insert_eq.
      split; [lia|]. split; [done|]. split; [done|]. lia.
    + rewrite lookup_insert_ne by done. destruct IH as [(s & Hs & Hl & Hm & Hmax)|[Hno Hm]].
      * left. exists s. split; [lia|]. split; [done|]. split; [done|].
        intros s' Hs' Hl'. destruct (decide (s' = start + n)) as [->|]; [congruence|].
        apply Hmax; [lia|done].
      * right. split; [|done]. intros s Hs Hl.
        destruct (decide (s = start + n)) as [->|]; [congruence|]. eapply Hno; [|done]. lia.
  - destruct IH as [(s & Hs & Hl & Hm & Hmax)|[Hno Hm]].
    + left. exists s. split; [lia|]. split; [done|]. split; [done|].
      intros s' Hs' Hl'. destruct (decide (s' = start + n)) as [->|]; [congruence|].
      apply Hmax; [lia|done].
    + right. split; [|done]. intros s Hs Hl.
      destruct (decide (s = start + n)) as [->|]; [congruence|]. eapply Hno; [|done]. lia.
Qed.

(** Every root of an unfinalized slot is mapped to its latest such slot. *)
Lemma rootToSlot_lookup fin (hashes : list BlockHash) r s :
  fin + 1 < two64 → fin < s → hashes !! N.to_nat s = Some r →
  ∃ s', rootToSlot fin hashes !! r = Some s' ∧ fin < s' ∧ s ≤ s' ∧
    hashes !! N.to_nat s' = Some r.
Proof.
  intros Hf Hs Hl. unfold rootToSlot. rewrite u64_add_small by done.
  assert (Hlen : s < lengthN hashes).
  { apply lookup_lt_Some in Hl. unfold lengthN. lia. }
  destruct (rootToSlot_seq hashes r (lengthN hashes - (fin + 1)) (fin + 1) ∅)
    as [(s' & Hs' & Hl' & Hm & Hmax)|[Hno _]].
  - exists s'. split; [done|]. split; [lia|]. split; [|done]. apply Hmax; [lia|done].
  - exfalso. eapply (Hno s); [lia|done].
Qed.
End rootToSlot.

(** ** The invariant of states *)
Record chain_wf (s : State) : Prop := {
  wf_slot : bh_slot (st_latest_block_header s) ≤ st_slot s < two64;
  wf_hist : lengthN (st_historical_block_hashes s) = bh_slot (st_latest_block_header s);
  wf_window : lengthN (st_justified_slots s)
              = bh_slot (st_latest_block_header s) - 1 - cp_slot (st_latest_finalized s);
  wf_fin_just : cp_slot (st_latest_finalized s) ≤ cp_slot (st_latest_justified s);
  wf_just : cp_slot (st_latest_justified s) ≤ bh_slot (st_latest_block_header s) - 1;
  wf_just_bit : isSlotJustified (st_justified_slots s) (cp_slot (st_latest_finalized s))
                  (cp_slot (st_latest_justified s)) = Some true;
  wf_fin_on_chain : 0 < bh_slot (st_latest_block_header s) →
    st_historical_block_hashes s !! N.to_nat (cp_slot (st_latest_finalized s))
    = Some (cp_root (st_latest_finalized s));
  wf_just_on_chain : 0 < bh_slot (st_latest_block_header s) →
    st_historical_block_hashes s !! N.to_nat (cp_slot (st_latest_justified s))
    = Some (cp_root (st_latest_justified s));
  wf_flat : lengthN (st_justifications_validators s)
            = lengthN (st_justifications_roots s) * validatorCount s;
  wf_roots_nodup : NoDup (st_justifications_roots s);
  wf_roots : ∀ r, r ∈ st_justifications_roots s →
    ∃ slot, cp_slot (st_latest_finalized s) < slot ∧
      st_historical_block_hashes s !! N.to_nat slot = Some r;
  wf_validators : 0 < validatorCount s ≤ VALIDATOR_REGISTRY_LIMIT;
}.

(** The invariant of the attestation loop, for a history [hashes] of [h] slots,
    [n] validators and the finalized slot [fin0] the loop started with. *)
Record tally_wf (n h fin0 : N) (hashes : list BlockHash) (t : Tally) : Prop := {
  ta_window : lengthN (ta_justified_slots t) = h - 1 - cp_slot (ta_latest_finalized t);
  ta_fin0 : fin0 ≤ cp_slot (ta_latest_finalized t);
  ta_fin_just : cp_slot (ta_latest_finalized t) ≤ cp_slot (ta_latest_justified t);
  ta_just : cp_slot (ta_latest_justified t) ≤ h - 1;
  ta_just_bit : isSlotJustified (ta_justified_slots t) (cp_slot (ta_latest_finalized t))
                  (cp_slot (ta_latest_justified t)) = Some true;
  ta_fin_on_chain : hashes !! N.to_nat (cp_slot (ta_latest_finalized t))
                    = Some (cp_root (ta_latest_finalized t));
  ta_just_on_chain : hashes !! N.to_nat (cp_slot (ta_latest_justified t))
                     = Some (cp_root (ta_latest_justified t));
  ta_votes : ∀ r bits, ta_justifications t !! r = Some bits →
    lengthN bits = n ∧
    ∃ slot, cp_slot (ta_latest_finalized t) < slot ∧ hashes !! N.to_nat slot = Some r;
}.

(** The only exception left: the assertion of [isJustifiableSlot] for a slot [c] between the source and
    the target of an attestation, if it is compiled in. *)
Definition slot_assertion `{BuildMode} (finalized source target : Slot) (x : exn) : Prop :=
  x = AssertFailed ∧ asserts_enabled = true ∧
  ∃ c, source < c ∧ c < target ∧ c < finalized ∧ isJustifiableSlot finalized c = Throw AssertFailed.

Lemma isJustifiableSlot_throws `{BuildMode} fin s :
  throws_only (λ x, x = AssertFailed ∧ asserts_enabled = true ∧ s < fin) (isJustifiableSlot fin s).
Proof.
  unfold isJustifiableSlot, boost_assert.
  destruct asserts_enabled, (N.leb_spec fin s); simpl; auto.
Qed.

Lemma isJustifiableSlot_same `{BuildMode} fin : isJustifiableSlot fin fin = Ok true.
Proof.
  unfold isJustifiableSlot. rewrite N.leb_refl, boost_assert_true. simpl.
  unfold u64_sub. assert (u64 (fin + two64 - u64 fin) = 0) as ->; [|done].
  unfold u64. pose proof (N.div_mod' fin two64) as Hd.
  pose proof (N.mod_lt fin two64 two64_pos) as Hm.
  replace (fin + two64 - fin mod two64) with ((fin / two64 + 1) * two64).
  - apply N.Div0.mod_mul.
  - revert Hd Hm. generalize (fin / two64) (fin mod two64). intros. nia.
Qed.

(** ** One attestation *)
Section attestation.
Context `{BuildMode}.
Context (n h fin0 : N) (hashes : list BlockHash).
Context (Hh : h < two64) (Hlen : lengthN hashes = h) (Hfin0 : fin0 < h).
Let rts := rootToSlot fin0 hashes.
Local Notation wf := (tally_wf n h fin0 hashes).

Lemma hashes_lookup_lt (s : N) r : hashes !! N.to_nat s = Some r → s < h.
Proof. intros Hl%lookup_lt_Some. rewrite <- Hlen. unfold lengthN. lia. Qed.

Lemma votes_have_slots t r bits :
  wf t → ta_justifications t !! r = Some bits →
  ∃ s, rts !! r = Some s ∧ cp_slot (ta_latest_finalized t) < s ∧
    hashes !! N.to_nat s = Some r.
Proof.
  intros Hwf Hr. destruct (ta_votes _ _ _ _ _ Hwf _ _ Hr) as (_ & s & Hs & Hl).
  pose proof (ta_fin0 _ _ _ _ _ Hwf).
  destruct (rootToSlot_lookup fin0 hashes r s) as (s' & ? & ? & ? & ?); [lia|lia|done|].
  exists s'. split; [done|]. split; [lia|done].
Qed.

(** A source before the finalized slot never finalizes: the finalized slot itself
    lies between source and target and is justifiable. *)
Lemma any_false_source source target t :
  cp_slot (ta_latest_finalized t) < cp_slot target → cp_slot target < h →
  oc_any (isJustifiableSlot (cp_slot (ta_latest_finalized t)))
    (seqN (u64_add (cp_slot source) 1) (cp_slot target - u64_add (cp_slot source) 1)) = Ok false →
  cp_slot source < h → cp_slot (ta_latest_finalized t) ≤ cp_slot source.
Proof.
  intros Hft Hth Hany Hsh. destruct (decide (cp_slot (ta_latest_finalized t) ≤ cp_slot source));
    [done|exfalso].
  rewrite u64_add_small in Hany by lia.
  pose proof (oc_any_false _ _ Hany (cp_slot (ta_latest_finalized t))) as Hf.
  rewrite isJustifiableSlot_same in Hf. discriminate Hf. apply elem_of_seqN. lia.
Qed.

Lemma finalizeSource_wf source target t t' :
  wf t → ta_latest_justified t = target →
  cp_slot (ta_latest_finalized t) < cp_slot target →
  cp_slot source < cp_slot target →
  hashes !! N.to_nat (cp_slot source) = Some (cp_root source) →
  finalizeSource rts source target t = Ok t' →
  wf t' ∧ cp_slot (ta_latest_finalized t) ≤ cp_slot (ta_latest_finalized t').
Proof.
  intros Hwf Hjt Hft Hst Hsrc Hfin. unfold finalizeSource in Hfin.
  pose proof (ta_just _ _ _ _ _ Hwf) as Hj. rewrite Hjt in Hj.
  apply outcome_bind_ok in Hfin as (any & Hany & Hfin).
  destruct any; [by injection Hfin as <-|].
  assert (Hfs : cp_slot (ta_latest_finalized t) ≤ cp_slot source)
    by (eapply any_false_source; [done|lia|done|lia]).
  rewrite u64_sub_small in Hfin by lia.
  pose proof (ta_fin0 _ _ _ _ _ Hwf). pose proof (ta_window _ _ _ _ _ Hwf) as Hw.
  pose proof (ta_just_bit _ _ _ _ _ Hwf) as Hbit. rewrite Hjt in Hbit.
  pose proof (ta_just_on_chain _ _ _ _ _ Hwf) as Hjc. rewrite Hjt in Hjc.
  destruct (N.ltb_spec 0 (cp_slot source - cp_slot (ta_latest_finalized t))) as [Hd|Hd].
  - apply outcome_bind_ok in Hfin as (u & _ & [= <-]). split; [|done].
    constructor; simpl; rewrite ?Hjt; try done || lia.
    + rewrite shiftWindow_length. lia.
    + rewrite shiftWindow_justified by lia. case_decide; [done|]. done.
    + intros r bits [Hr Hgt]%map_lookup_filter_Some. simpl in Hgt.
      destruct (votes_have_slots t r bits Hwf Hr) as (s & Hs & _ & Hl).
      split; [by eapply ta_votes|]. exists s. by rewrite Hs in Hgt.
  - injection Hfin as <-. split; [|done]. simpl.
    assert (cp_slot source = cp_slot (ta_latest_finalized t)) as Heq by lia.
    constructor; simpl; rewrite ?Heq, ?Hjt; try done || lia; try (by destruct Hwf).
    by rewrite <- Heq.
Qed.

Lemma finalizeSource_throws source target t :
  wf t → cp_slot source < cp_slot target → cp_slot target < h →
  throws_only (slot_assertion (cp_slot (ta_latest_finalized t)) (cp_slot source) (cp_slot target))
    (finalizeSource rts source target t).
Proof.
  intros Hwf Hst Hth. unfold finalizeSource. rewrite u64_add_small by lia. apply throws_only_bind.
  { apply oc_any_throws_only. intros c Hc%elem_of_seqN. pose proof (isJustifiableSlot_throws (cp_slot (ta_latest_finalized t)) c) as Ht.
    destruct (isJustifiableSlot _ c) as [| |x] eqn:Hj; [done..|]. destruct Ht as (-> & Ha & Hlt).
    split; [done|]. split; [done|]. exists c. split_and!; [lia|lia|done|done]. }
  intros any _. destruct any; [done|]. case_match; [|done].
  rewrite oc_iter_ok; [done|]. intros [r bits] Hr%elem_of_map_ordered.
  destruct (votes_have_slots t r bits Hwf Hr) as (s & -> & _). done.
Qed.

(** What the checks of the loop body establish before votes are counted. *)
Record accepted (t : Tally) (a : AggregatedAttestation) (bits : list bool) : Prop := {
  acc_target_lt : cp_slot (ad_target (aa_data a)) < h;
  acc_source_justified : isSlotJustified (ta_justified_slots t)
    (cp_slot (ta_latest_finalized t)) (cp_slot (ad_source (aa_data a))) = Some true;
  acc_target_unjustified : isSlotJustified (ta_justified_slots t)
    (cp_slot (ta_latest_finalized t)) (cp_slot (ad_target (aa_data a))) = Some false;
  acc_source_root : hashes !! N.to_nat (cp_slot (ad_source (aa_data a)))
                    = Some (cp_root (ad_source (aa_data a)));
  acc_target_root : hashes !! N.to_nat (cp_slot (ad_target (aa_data a)))
                    = Some (cp_root (ad_target (aa_data a)));
  acc_order : cp_slot (ad_source (aa_data a)) < cp_slot (ad_target (aa_data a));
  acc_justifiable : isJustifiableSlot (cp_slot (ta_latest_finalized t))
                      (cp_slot (ad_target (aa_data a))) = Ok true;
  acc_votes : addVotes (default (replicate (N.to_nat n) false)
                          (ta_justifications t !! cp_root (ad_target (aa_data a))))
                (Bits.iter (aa_aggregation_bits a)) = Ok bits;
}.

(** The tally with the votes added, and with the target justified. *)
Definition voted (t : Tally) (target : Checkpoint) (bits : list bool) : Tally :=
  mkTally (<[cp_root target := bits]> (ta_justifications t)) (ta_latest_justified t)
    (ta_latest_finalized t) (ta_justified_slots t).
Definition justified (t : Tally) (target : Checkpoint) (bits js : list bool) : Tally :=
  mkTally (delete (cp_root target) (<[cp_root target := bits]> (ta_justifications t)))
    target (ta_latest_finalized t) js.
Definition supermajority (bits : list bool) : Prop :=
  u64_mul 2 n ≤ u64_mul 3 (countVotes bits).

Lemma processAttestation_cases t a t' :
  processAttestation n hashes rts t a = Ok t' →
  t' = t ∨ ∃ bits, accepted t a bits ∧
    ((¬ supermajority bits ∧ t' = voted t (ad_target (aa_data a)) bits) ∨
     (supermajority bits ∧ ∃ js,
        withJustified (ta_justified_slots t) (cp_slot (ta_latest_finalized t))
          (cp_slot (ad_target (aa_data a))) = Ok js ∧
        finalizeSource rts (ad_source (aa_data a)) (ad_target (aa_data a))
          (justified t (ad_target (aa_data a)) bits js) = Ok t')).
Proof.
  intros Hp. unfold processAttestation in Hp.
  set (source := ad_source (aa_data a)) in *. set (target := ad_target (aa_data a)) in *.
  rewrite Hlen in Hp. destruct (N.leb_spec h (cp_slot source)) as [|Hsh]; [done|].
  destruct (N.leb_spec h (cp_slot target)) as [|Hth]; [done|].
  apply outcome_bind_ok in Hp as (sj & Hsj%of_option_ok & Hp).
  destruct sj; simpl in Hp; [|by left; injection Hp as <-].
  apply outcome_bind_ok in Hp as (tj & Htj%of_option_ok & Hp).
  destruct tj; [by left; injection Hp as <-|].
  destruct (_ || _); [by left; injection Hp as <-|].
  apply outcome_bind_ok in Hp as (sr & Hsr%of_option_ok & Hp).
  destruct (N.eqb_spec (cp_root source) sr) as [<-|]; simpl in Hp; [|by left; injection Hp as <-].
  apply outcome_bind_ok in Hp as (tr & Htr%of_option_ok & Hp).
  destruct (N.eqb_spec (cp_root target) tr) as [<-|]; simpl in Hp; [|by left; injection Hp as <-].
  destruct (N.leb_spec (cp_slot target) (cp_slot source)) as [|Hst];
    [by left; injection Hp as <-|].
  apply outcome_bind_ok in Hp as (jb & Hjb & Hp).
  destruct jb; simpl in Hp; [|by left; injection Hp as <-].
  apply outcome_bind_ok in Hp as (bits & Hbits & Hp).
  right. exists bits. split; [by constructor|].
  unfold supermajority. destruct (N.leb_spec (u64_mul 2 n) (u64_mul 3 (countVotes bits))) as [Hsm|Hsm].
  - right. split; [done|]. by apply outcome_bind_ok in Hp as (js & Hjs & Hp); eauto.
  - left. injection Hp as <-. split; [lia|done].
Qed.

Lemma accepted_fin_target t a bits :
  accepted t a bits → cp_slot (ta_latest_finalized t) < cp_slot (ad_target (aa_data a)).
Proof.
  intros Hacc. pose proof (acc_target_unjustified _ _ _ Hacc) as Hu.
  destruct (decide (cp_slot (ad_target (aa_data a)) ≤ cp_slot (ta_latest_finalized t))); [|lia].
  by rewrite isSlotJustified_le in Hu.
Qed.

Lemma accepted_votes_length t a bits :
  wf t → accepted t a bits → lengthN bits = n.
Proof.
  intros Hwf Hacc. unfold lengthN. rewrite (addVotes_length _ _ _ (acc_votes _ _ _ Hacc)).
  destruct (ta_justifications t !! _) as [b|] eqn:Hb; simpl.
  - destruct (ta_votes _ _ _ _ _ Hwf _ _ Hb) as [Hn _]. unfold lengthN in Hn. lia.
  - rewrite length_replicate. lia.
Qed.

Lemma voted_wf t a bits :
  wf t → accepted t a bits → wf (voted t (ad_target (aa_data a)) bits).
Proof.
  intros Hwf Hacc. pose proof (accepted_votes_length _ _ _ Hwf Hacc).
  pose proof (accepted_fin_target _ _ _ Hacc). destruct Hacc, Hwf.
  constructor; simpl; try done. intros r b. rewrite lookup_insert. case_decide; [|by auto].
  intros [= <-]. subst. eauto.
Qed.

Lemma justified_wf t a bits js :
  wf t → accepted t a bits →
  withJustified (ta_justified_slots t) (cp_slot (ta_latest_finalized t))
    (cp_slot (ad_target (aa_data a))) = Ok js →
  wf (justified t (ad_target (aa_data a)) bits js).
Proof.
  intros Hwf Hacc Hjs. pose proof (accepted_fin_target _ _ _ Hacc) as Hft.
  pose proof (voted_wf _ _ _ Hwf Hacc) as Hv. pose proof (acc_target_lt _ _ _ Hacc).
  constructor; simpl; try lia; try (by destruct Hwf).
  - rewrite (withJustified_length _ _ _ _ Hjs). by destruct Hwf.
  - rewrite (withJustified_justified _ _ _ _ _ Hjs) by lia. by rewrite decide_True.
  - by destruct Hacc.
  - intros r b [_ Hr]%lookup_delete_Some. by apply (ta_votes _ _ _ _ _ Hv).
Qed.

Lemma processAttestation_wf t a t' :
  wf t → processAttestation n hashes rts t a = Ok t' →
  wf t' ∧ cp_slot (ta_latest_finalized t) ≤ cp_slot (ta_latest_finalized t').
Proof.
  intros Hwf [->|(bits & Hacc & [[_ ->]|(_ & js & Hjs & Hp)])]%processAttestation_cases.
  - done.
  - split; [by apply voted_wf|done].
  - eapply finalizeSource_wf in Hp; [exact Hp|by apply justified_wf|done| |by destruct Hacc..].
    exact (accepted_fin_target _ _ _ Hacc).
Qed.

Lemma processAttestation_throws t a :
  wf t → throws_only (slot_assertion (cp_slot (ta_latest_finalized t)) (cp_slot (ad_source (aa_data a)))
                        (cp_slot (ad_target (aa_data a)))) (processAttestation n hashes rts t a).
Proof.
  intros Hwf. unfold processAttestation.
  set (source := ad_source (aa_data a)). set (target := ad_target (aa_data a)).
  pose proof (ta_window _ _ _ _ _ Hwf) as Hw. rewrite Hlen.
  pose proof (ta_fin_just _ _ _ _ _ Hwf). pose proof (ta_just _ _ _ _ _ Hwf).
  destruct (N.leb_spec h (cp_slot source)) as [|Hsh]; [done|].
  destruct (N.leb_spec h (cp_slot target)) as [|Hth]; [done|].
  destruct (isSlotJustified_covered (ta_justified_slots t)
    (cp_slot (ta_latest_finalized t)) (cp_slot source)) as [sj Hsj]; [lia|lia|].
  rewrite Hsj. simpl. destruct sj; [|done].
  destruct (isSlotJustified_covered (ta_justified_slots t)
    (cp_slot (ta_latest_finalized t)) (cp_slot target)) as [tj Htj]; [lia|lia|].
  rewrite Htj. simpl. destruct tj; [done|].
  assert (Hft : cp_slot (ta_latest_finalized t) < cp_slot target).
  { destruct (N.ltb_spec (cp_slot (ta_latest_finalized t)) (cp_slot target)); [done|].
    by rewrite isSlotJustified_le in Htj. }
  case_match; [done|].
  destruct (lengthN_lookup_is_Some hashes (cp_slot source)) as [sr Hsr]; [lia|].
  rewrite Hsr. simpl. destruct (N.eqb_spec (cp_root source) sr) as [<-|]; [|done]. simpl.
  destruct (lengthN_lookup_is_Some hashes (cp_slot target)) as [tr Htr]; [lia|].
  rewrite Htr. simpl. destruct (N.eqb_spec (cp_root target) tr) as [<-|]; [|done]. simpl.
  destruct (N.leb_spec (cp_slot target) (cp_slot source)); [done|].
  apply throws_only_bind.
  { pose proof (isJustifiableSlot_throws (cp_slot (ta_latest_finalized t)) (cp_slot target)) as Ht.
    destruct (isJustifiableSlot _ _); [done..|]. destruct Ht as (_ & _ & ?). lia. }
  intros [] Hjb; [|done]. simpl.
  apply throws_only_bind; [apply addVotes_throws_only|]. intros bits Hbits. case_match; [|done].
  destruct (withJustified_ok (ta_justified_slots t) (cp_slot (ta_latest_finalized t))
    (cp_slot target)) as [js Hjs]; [lia|lia|]. rewrite Hjs. simpl.
  apply (finalizeSource_throws source target (justified t target bits js)); [|done|done].
  apply justified_wf; [done| |done]. by constructor.
Qed.
End attestation.

(** ** Slots and headers *)
Section transition.
Context `{BuildMode} `{SszHash}.

Lemma iter_processSlot state k :
  st_slot state + N.of_nat k < two64 →
  let s' := Nat.iter k processSlot state in
  st_slot s' = st_slot state + N.of_nat k ∧
  bh_slot (st_latest_block_header s') = bh_slot (st_latest_block_header state) ∧
  st_latest_justified s' = st_latest_justified state ∧
  st_latest_finalized s' = st_latest_finalized state ∧
  st_historical_block_hashes s' = st_historical_block_hashes state ∧
  st_justified_slots s' = st_justified_slots state ∧
  st_validators s' = st_validators state ∧
  st_justifications_roots s' = st_justifications_roots state ∧
  st_justifications_validators s' = st_justifications_validators state.
Proof.
  intros Hk. cbv zeta. induction k as [|k IH]; [repeat split; simpl; lia|].
  destruct IH as (Hs & Hh & Hj & Hf & Hhist & Hw & Hv & Hr & Hjv); [lia|].
  change (Nat.iter (S k) processSlot state) with (processSlot (Nat.iter k processSlot state)).
  set (s := Nat.iter k processSlot state) in *. unfold processSlot.
  destruct (_ =? _); simpl; rewrite ?Hs, ?u64_add_small by lia; repeat split; try done; lia.
Qed.

Lemma processSlots_wf state slot s' :
  chain_wf state → slot < two64 → processSlots state slot = Ok s' →
  chain_wf s' ∧ st_slot s' = slot ∧ st_latest_finalized s' = st_latest_finalized state.
Proof.
  intros Hwf Hb Hp. unfold processSlots in Hp.
  destruct (N.leb_spec slot (st_slot state)) as [|Hlt]; [done|]. injection Hp as <-.
  destruct (iter_processSlot state (N.to_nat (slot - st_slot state)))
    as (Hs & Hh & Hj & Hf & Hhist & Hw & Hv & Hr & Hjv); [lia|].
  set (s := Nat.iter _ _ _) in *. split; [|split; [lia|done]].
  destruct Hwf. constructor; unfold validatorCount in *;
    rewrite ?Hs, ?Hh, ?Hj, ?Hf, ?Hhist, ?Hw, ?Hv, ?Hr, ?Hjv; try done. lia.
Qed.

(** Exactly one of the header checks decides the outcome. *)
Lemma processBlockHeader_ok state block s' :
  processBlockHeader state block = Ok s' →
  let parent := st_latest_block_header state in
  b_slot block = st_slot state ∧ bh_slot parent < b_slot block ∧
  b_proposer_index block = b_slot block mod validatorCount state ∧
  b_parent_root block = sszHash_header parent.
Proof.
  unfold processBlockHeader, validateProposerIndex. intros Hp. cbv zeta.
  destruct (N.eqb_spec (b_slot block) (st_slot state)) as [Hs|]; [|done]. simpl in Hp.
  destruct (N.leb_spec (b_slot block) (bh_slot (st_latest_block_header state))) as [|Hlt]; [done|].
  destruct (validatorCount state =? 0); [done|]. simpl in Hp.
  destruct (N.eqb_spec (b_proposer_index block) (b_slot block mod validatorCount state)) as [Hpi|];
    [|done]. simpl in Hp.
  destruct (N.eqb_spec (b_parent_root block) (sszHash_header (st_latest_block_header state))) as [Hpr|];
    [|done]. done.
Qed.

Lemma processBlockHeader_wf state block s' :
  chain_wf state → processBlockHeader state block = Ok s' →
  chain_wf s' ∧ bh_slot (st_latest_block_header s') = b_slot block ∧
  cp_slot (st_latest_finalized s') = cp_slot (st_latest_finalized state).
Proof.
  intros Hwf Hp. destruct (processBlockHeader_ok _ _ _ Hp) as (Hs & Hlt & Hpi & Hpr).
  unfold processBlockHeader, validateProposerIndex in Hp.
  rewrite (proj2 (N.eqb_eq _ _) Hs), (proj2 (N.leb_gt _ _) Hlt), (proj2 (N.eqb_eq _ _) Hpi) in Hp.
  rewrite (proj2 (N.eqb_eq _ _) Hpr) in Hp.
  destruct (validatorCount state =? 0); [done|]. simpl in Hp.
  set (h := bh_slot (st_latest_block_header state)) in *.
  set (root := sszHash_header (st_latest_block_header state)) in *.
  destruct Hwf as [Hslot Hhist Hwin Hfj Hj Hbit Hfc Hjc Hflat Hnd Hroots Hval].
  fold h in Hslot, Hhist, Hwin, Hj, Hfc, Hjc.
  rewrite !u64_sub_small in Hp by (try rewrite u64_sub_small; lia).
  assert (Happ : ∀ s r, st_historical_block_hashes state !! N.to_nat s = Some r →
    (st_historical_block_hashes state ++ root
       :: replicate (N.to_nat (b_slot block - h - 1)) kZeroHash) !! N.to_nat s = Some r)
    by (intros; by apply lookup_app_l_Some).
  assert (Hlen : lengthN (st_historical_block_hashes state ++ root
       :: replicate (N.to_nat (b_slot block - h - 1)) kZeroHash) = b_slot block).
  { unfold lengthN in *. rewrite length_app. cbn [length]. rewrite length_replicate. lia. }
  assert (Hext : ∀ bits fin, fin ≤ b_slot block - 1 → lengthN bits ≤ b_slot block - 1 - fin →
    lengthN (extendToSlot bits fin (b_slot block - 1)) = b_slot block - 1 - fin).
  { intros. rewrite extendToSlot_length by lia. lia. }
  destruct (N.eqb_spec h 0) as [Hh0|Hh0]; injection Hp as <-; simpl;
    (split; [|done]); constructor; simpl; try done; try lia.
  - apply Hext; lia.
  - apply extendToSlot_justified; [lia|done].
  - intros _. assert (length (st_historical_block_hashes state) = 0%nat) as ->%nil_length_inv
      by (unfold lengthN in Hhist; lia).
    replace (cp_slot (st_latest_finalized state)) with 0 by lia. done.
  - intros _. assert (length (st_historical_block_hashes state) = 0%nat) as ->%nil_length_inv
      by (unfold lengthN in Hhist; lia).
    replace (cp_slot (st_latest_justified state)) with 0 by lia. done.
  - intros r Hr. destruct (Hroots r Hr) as (s & ? & ?). eauto.
  - apply Hext; lia.
  - apply extendToSlot_justified; [lia|done].
  - intros _. apply Happ, Hfc. lia.
  - intros _. apply Happ, Hjc. lia.
  - intros r Hr. destruct (Hroots r Hr) as (s & ? & ?). eauto.
Qed.

Lemma processBlockHeader_throws state block :
  chain_wf state → throws_only (λ _, False) (processBlockHeader state block).
Proof.
  intros Hwf. unfold processBlockHeader, validateProposerIndex. case_match; [done|].
  case_match; [done|]. pose proof (wf_validators _ Hwf).
  destruct (N.eqb_spec (validatorCount state) 0); [lia|]. simpl. by repeat case_match.
Qed.

(** ** Votes of a whole block *)
Lemma getJustifications_ok state :
  chain_wf state → ∃ j, getJustifications state = Ok j ∧
    ∀ r bits, j !! r = Some bits →
      lengthN bits = validatorCount state ∧ r ∈ st_justifications_roots state.
Proof.
  intros Hwf. unfold getJustifications. destruct (N.eqb_spec (lengthN (st_justifications_roots state)) 0).
  { exists ∅. split; [done|]. intros r bits Hr. by rewrite lookup_empty in Hr. }
  rewrite (proj2 (N.eqb_eq _ _) (wf_flat _ Hwf)), boost_assert_true. simpl.
  destruct (cutJustifications_ok (N.to_nat (validatorCount state))
    (st_justifications_roots state) (st_justifications_validators state) ∅)
    as (j & Hj & Hdom & Hn).
  { pose proof (wf_flat _ Hwf) as Hf. unfold lengthN in Hf. lia. }
  exists j. split; [done|]. intros r bits Hr. split.
  - unfold lengthN. rewrite (Hn (map_Forall_empty _) _ _ Hr). lia.
  - assert (Hrj : r ∈ dom j) by (apply elem_of_dom; eauto).
    apply Hdom in Hrj as [Hr0|]; [|done]. by rewrite dom_empty_L in Hr0.
Qed.

Definition initial_tally (state : State) (j : Justifications) : Tally :=
  mkTally j (st_latest_justified state) (st_latest_finalized state) (st_justified_slots state).

Lemma initial_tally_wf state j :
  chain_wf state → 0 < bh_slot (st_latest_block_header state) →
  getJustifications state = Ok j →
  tally_wf (validatorCount state) (bh_slot (st_latest_block_header state))
    (cp_slot (st_latest_finalized state)) (st_historical_block_hashes state)
    (initial_tally state j).
Proof.
  intros Hwf Hh Hj. destruct (getJustifications_ok state Hwf) as (j' & Hj' & Hb).
  rewrite Hj' in Hj. injection Hj as ->. destruct Hwf.
  constructor; simpl; try done; try (by auto).
  intros r bits [Hl Hr]%Hb. split; [done|]. by apply wf_roots0.
Qed.

Lemma setJustifications_ok state j :
  (∀ r bits, j !! r = Some bits → lengthN bits = validatorCount state) →
  setJustifications state j
  = Ok (set_justifications (map_ordered j).*1 (concat (map_ordered j).*2) state).
Proof.
  intros Hj. unfold setJustifications. rewrite oc_iter_ok; [done|].
  intros [r bits] Hr%elem_of_map_ordered. rewrite (Hj _ _ Hr), N.eqb_refl.
  apply boost_assert_true.
Qed.

Lemma concat_length_same {A} (l : list (list A)) (k : N) :
  Forall (λ x, lengthN x = k) l → lengthN (concat l) = lengthN l * k.
Proof.
  induction 1 as [|x l Hx _ IH]; [done|]. simpl. unfold lengthN in *.
  rewrite length_app. cbn [length]. lia.
Qed.

Lemma final_tally_wf state t :
  chain_wf state → 0 < bh_slot (st_latest_block_header state) →
  tally_wf (validatorCount state) (bh_slot (st_latest_block_header state))
    (cp_slot (st_latest_finalized state)) (st_historical_block_hashes state) t →
  chain_wf (set_checkpoints (ta_latest_justified t) (ta_latest_finalized t)
    (set_justifications (map_ordered (ta_justifications t)).*1
       (concat (map_ordered (ta_justifications t)).*2)
       (set_justified_slots (ta_justified_slots t) state))).
Proof.
  intros Hwf Hh Ht. destruct Hwf, Ht. constructor; simpl; try done.
  - rewrite (concat_length_same _ (validatorCount state)).
    + unfold lengthN. rewrite !length_fmap. done.
    + apply Forall_fmap, Forall_forall. intros [r bits] Hr%elem_of_map_ordered.
      by apply ta_votes0 in Hr as [? _].
  - apply NoDup_map_ordered_fst.
  - intros r Hr. apply list_elem_of_fmap in Hr as ([r' bits] & -> & Hr%elem_of_map_ordered).
    by apply ta_votes0 in Hr as [_ ?].
Qed.

Lemma processAttestations_inv state atts s' :
  chain_wf state → 0 < bh_slot (st_latest_block_header state) →
  processAttestations state atts = Ok s' →
  ∃ j t, getJustifications state = Ok j ∧
    oc_foldl (processAttestation (validatorCount state) (st_historical_block_hashes state)
      (rootToSlot (cp_slot (st_latest_finalized state)) (st_historical_block_hashes state)))
      (initial_tally state j) atts = Ok t ∧
    tally_wf (validatorCount state) (bh_slot (st_latest_block_header state))
      (cp_slot (st_latest_finalized state)) (st_historical_block_hashes state) t ∧
    s' = set_checkpoints (ta_latest_justified t) (ta_latest_finalized t)
      (set_justifications (map_ordered (ta_justifications t)).*1
         (concat (map_ordered (ta_justifications t)).*2)
         (set_justified_slots (ta_justified_slots t) state)).
Proof.
  intros Hwf Hh Hp. unfold processAttestations in Hp.
  apply outcome_bind_ok in Hp as (j & Hj & Hp). cbv zeta in Hp.
  apply outcome_bind_ok in Hp as (t & Ht & Hp).
  pose proof (initial_tally_wf _ _ Hwf Hh Hj) as Hwf0.
  assert (Hwft : tally_wf (validatorCount state) (bh_slot (st_latest_block_header state))
      (cp_slot (st_latest_finalized state)) (st_historical_block_hashes state) t).
  { eapply oc_foldl_inv in Ht; [exact Ht|exact Hwf0|]. intros t1 a t2 _ Ht1 Ht2.
    destruct Hwf. eapply processAttestation_wf; [..|done|done]; lia || done. }
  rewrite setJustifications_ok in Hp by (intros r bits Hr; by apply (ta_votes _ _ _ _ _ Hwft) in Hr as [? _]).
  injection Hp as <-. eauto 10.
Qed.

Lemma processAttestations_wf state atts s' :
  chain_wf state → 0 < bh_slot (st_latest_block_header state) →
  processAttestations state atts = Ok s' →
  chain_wf s' ∧ cp_slot (st_latest_finalized state) ≤ cp_slot (st_latest_finalized s') ∧
  bh_slot (st_latest_block_header s') = bh_slot (st_latest_block_header state).
Proof.
  intros Hwf Hh (j & t & _ & _ & Ht & ->)%processAttestations_inv; [|done|done].
  split; [by apply final_tally_wf|]. split; [|done]. simpl. by eapply ta_fin0.
Qed.

(** The attestation of a block at which the assertion fails: [t] is the tally before it. *)
Definition attestation_asserts (state : State) (atts : list AggregatedAttestation) (x : exn) : Prop :=
  ∃ j pre a post t,
    let step := processAttestation (validatorCount state) (st_historical_block_hashes state)
                  (rootToSlot (cp_slot (st_latest_finalized state)) (st_historical_block_hashes state)) in
    getJustifications state = Ok j ∧ atts = pre ++ a :: post ∧
    oc_foldl step (initial_tally state j) pre = Ok t ∧ step t a = Throw x ∧
    slot_assertion (cp_slot (ta_latest_finalized t)) (cp_slot (ad_source (aa_data a))) (cp_slot (ad_target (aa_data a))) x.

Lemma processAttestations_throws state atts :
  chain_wf state → 0 < bh_slot (st_latest_block_header state) →
  throws_only (attestation_asserts state atts) (processAttestations state atts).
Proof.
  intros Hwf Hh. unfold processAttestations.
  destruct (getJustifications_ok state Hwf) as (j & Hj & _). rewrite Hj. cbn [mbind outcome_bind].
  pose proof (initial_tally_wf _ _ Hwf Hh Hj) as Hwf0.
  set (P := tally_wf (validatorCount state) (bh_slot (st_latest_block_header state))
      (cp_slot (st_latest_finalized state)) (st_historical_block_hashes state)) in *.
  assert (Hstep : ∀ t a t', P t → processAttestation (validatorCount state)
    (st_historical_block_hashes state)
    (rootToSlot (cp_slot (st_latest_finalized state)) (st_historical_block_hashes state)) t a = Ok t' → P t').
  { intros t a t' Ht Hp. destruct Hwf. eapply processAttestation_wf; [..|done|done]; lia || done. }
  apply throws_only_bind.
  - destruct (oc_foldl _ _ atts) as [| |x] eqn:Hl; [done..|].
    apply oc_foldl_throw in Hl as (pre & a & post & t & -> & Hpre & Ha). exists j, pre, a, post, t.
    do 4 (split; [done|]). assert (Ht : P t) by (eapply oc_foldl_inv in Hpre; [exact Hpre|exact Hwf0|by eauto]).
    assert (Hthrow : throws_only (slot_assertion (cp_slot (ta_latest_finalized t)) (cp_slot (ad_source (aa_data a)))
      (cp_slot (ad_target (aa_data a)))) (processAttestation (validatorCount state) (st_historical_block_hashes state)
        (rootToSlot (cp_slot (st_latest_finalized state)) (st_historical_block_hashes state)) t a)).
    { destruct Hwf. eapply processAttestation_throws; [..|done]; lia || done. }
    by rewrite Ha in Hthrow.
  - intros t Ht. assert (Hwft : P t) by (eapply oc_foldl_inv in Ht; [exact Ht|exact Hwf0|by eauto]).
    rewrite setJustifications_ok; [done|]. intros r bits Hr.
    by apply (ta_votes _ _ _ _ _ Hwft) in Hr as [? _].
Qed.

(** ** The whole transition *)
Lemma stateTransition_steps block parent check s' :
  chain_wf parent → b_slot block < two64 → stateTransition block parent check = Ok s' →
  ∃ s1 s2, processSlots parent (b_slot block) = Ok s1 ∧ chain_wf s1 ∧
    processBlockHeader s1 block = Ok s2 ∧ chain_wf s2 ∧
    processAttestations s2 (bb_attestations (b_body block)) = Ok s' ∧
    st_latest_finalized s1 = st_latest_finalized parent ∧
    cp_slot (st_latest_finalized s2) = cp_slot (st_latest_finalized parent) ∧
    bh_slot (st_latest_block_header s2) = b_slot block ∧ 0 < b_slot block ∧
    (check = true → b_state_root block = sszHash_state s').
Proof.
  intros Hwf Hb Ht. unfold stateTransition, processBlock, processOperations in Ht.
  apply outcome_bind_ok in Ht as (s1 & Hs1 & Ht).
  destruct (processSlots_wf _ _ _ Hwf Hb Hs1) as (Hwf1 & Hsl & Hf1).
  apply outcome_bind_ok in Ht as (s3 & (s2 & Hs2 & Hs3)%outcome_bind_ok & Ht).
  destruct (processBlockHeader_wf _ _ _ Hwf1 Hs2) as (Hwf2 & Hh2 & Hf2).
  destruct (processBlockHeader_ok _ _ _ Hs2) as (_ & Hpos & _).
  exists s1, s2. destruct check; simpl in Ht.
  - destruct (N.eqb_spec (b_state_root block) (sszHash_state s3)); simpl in Ht; [|done].
    injection Ht as <-. rewrite Hf2, Hf1. split_and!; done || lia.
  - injection Ht as <-. rewrite Hf2, Hf1. split_and!; done || lia.
Qed.

Lemma stateTransition_wf block parent check s' :
  chain_wf parent → b_slot block < two64 → stateTransition block parent check = Ok s' →
  chain_wf s' ∧ cp_slot (st_latest_finalized parent) ≤ cp_slot (st_latest_finalized s') ∧
  bh_slot (st_latest_block_header s') = b_slot block.
Proof.
  intros Hwf Hb (s1 & s2 & _ & _ & _ & Hwf2 & Hp & _ & Hf2 & Hh2 & Hpos & _)%stateTransition_steps;
    [|done|done].
  apply processAttestations_wf in Hp as (Hwf' & Hf & Hh); [|done|lia].
  split; [done|]. split; [lia|congruence].
Qed.

(** The assertion of [isJustifiableSlot] fails in the transition: slots and header are processed, and
    an attestation of the block asks for a slot before the finalized one. *)
Definition transition_asserts (block : Block) (parent : State) (x : exn) : Prop :=
  ∃ s1 s2, processSlots parent (b_slot block) = Ok s1 ∧ processBlockHeader s1 block = Ok s2 ∧
    attestation_asserts s2 (bb_attestations (b_body block)) x.

Lemma stateTransition_throws block parent check :
  chain_wf parent → b_slot block < two64 →
  throws_only (transition_asserts block parent) (stateTransition block parent check).
Proof.
  intros Hwf Hb. unfold stateTransition, processBlock, processOperations.
  apply throws_only_bind; [by unfold processSlots; case_match|]. intros s1 Hs1.
  destruct (processSlots_wf _ _ _ Hwf Hb Hs1) as (Hwf1 & _ & _).
  apply throws_only_bind; [|intros ? _; by case_match].
  apply throws_only_bind.
  { pose proof (processBlockHeader_throws s1 block Hwf1) as Hn. by destruct (processBlockHeader s1 block). }
  intros s2 Hs2.
  destruct (processBlockHeader_wf _ _ _ Hwf1 Hs2) as (Hwf2 & Hh2 & _).
  destruct (processBlockHeader_ok _ _ _ Hs2) as (_ & Hpos & _).
  pose proof (processAttestations_throws s2 (bb_attestations (b_body block)) Hwf2 ltac:(lia)) as Hn.
  destruct (processAttestations s2 _); [done..|]. by exists s1, s2.
Qed.

Lemma genesis_wf config validators :
  0 < lengthN validators ≤ VALIDATOR_REGISTRY_LIMIT →
  chain_wf (generateGenesisState config validators).
Proof.
  intros Hv. constructor; simpl; try done; try lia.
  - apply NoDup_nil_2.
  - by intros r Hr%not_elem_of_nil.
Qed.

(** States the node can reach from a genesis state by applying blocks. *)
Inductive reachable : State → Prop :=
| reachable_genesis config validators :
    0 < lengthN validators ≤ VALIDATOR_REGISTRY_LIMIT →
    reachable (generateGenesisState config validators)
| reachable_block parent block check s :
    reachable parent → b_slot block < two64 →
    stateTransition block parent check = Ok s → reachable s.

Lemma reachable_wf s : reachable s → chain_wf s.
Proof.
  induction 1 as [|parent block check s _ IH Hb Hs]; [by apply genesis_wf|].
  by eapply stateTransition_wf in Hs as (? & _).
Qed.
End transition.
