(* ===== verification/StfQuorum.v ===== *)
(** * State transition function: where justification comes from

    Attestations are carried by blocks.  [vote_in atts r i] says that validator
    [i] participates in an attestation of [atts] whose target is [r], and
    [quorum n atts r] that at least two thirds of [n] validators do.  The lemmas
    show that every justified or finalized checkpoint of a chain rests on a quorum
    of the attestations included in the blocks of that chain. *)

From S2P Require Import Prelude Errors Types Justifiable Stf StfWindow StfProofs.

Definition vote_in (atts : list AggregatedAttestation) (r : BlockHash) (i : ValidatorIndex) : Prop :=
  ∃ a, a ∈ atts ∧ cp_root (ad_target (aa_data a)) = r ∧ i ∈ Bits.iter (aa_aggregation_bits a).

Definition quorum (n : N) (atts : list AggregatedAttestation) (r : BlockHash) : Prop :=
  ∃ V : list ValidatorIndex, NoDup V ∧ 2 * n ≤ 3 * lengthN V ∧
    ∀ i, i ∈ V → i < n ∧ vote_in atts r i.

(** [f] is finalized by a link to a later justified checkpoint [t] such that no slot
    strictly between the two was justifiable. *)
Definition finalizing_link `{BuildMode} (n : N) (atts : list AggregatedAttestation)
    (hashes : list BlockHash) (f t : Checkpoint) : Prop :=
  cp_slot f < cp_slot t ∧ hashes !! N.to_nat (cp_slot t) = Some (cp_root t) ∧
  quorum n atts (cp_root t) ∧
  (∃ a, a ∈ atts ∧ ad_source (aa_data a) = f ∧ ad_target (aa_data a) = t) ∧
  ∃ base, base ≤ cp_slot f ∧
    ∀ s, cp_slot f < s < cp_slot t → isJustifiableSlot base s = Ok false.

Lemma vote_in_mono atts atts' r i : atts ⊆ atts' → vote_in atts r i → vote_in atts' r i.
Proof. intros Hsub (a & Ha & Hr & Hi). exists a. auto. Qed.

Lemma quorum_mono n atts atts' r : atts ⊆ atts' → quorum n atts r → quorum n atts' r.
Proof.
  intros Hsub (V & Hnd & Hn & HV). exists V. split; [done|]. split; [done|].
  intros i Hi. destruct (HV i Hi) as [? Hv]. eauto using vote_in_mono.
Qed.

Lemma finalizing_link_mono `{BuildMode} n atts atts' hashes hashes' f t :
  atts ⊆ atts' → hashes `prefix_of` hashes' →
  finalizing_link n atts hashes f t → finalizing_link n atts' hashes' f t.
Proof.
  intros Hsub Hpre (Hlt & Hh & Hq & (a & Ha & ?) & Hb). split; [done|].
  split; [by eapply prefix_lookup_Some|]. split; [by eapply quorum_mono|].
  split; [exists a; auto|done].
Qed.

(** The set bits of a vote list, as validator indices. *)
Lemma countVotes_indices bits :
  ∃ V, NoDup V ∧ lengthN V = countVotes bits ∧
    ∀ i, i ∈ V ↔ bits !! N.to_nat i = Some true.
Proof.
  exists (Bits.iter (mkAggregationBits bits)). split; [apply BitsFacts.NoDup_iter|]. split.
  - unfold Bits.iter, countVotes. cbn [ab_bits].
    induction bits as [|b bits IH] using rev_ind; [done|].
    assert (lengthN (bits ++ [b]) = N.succ (lengthN bits)) as ->
      by (unfold lengthN; rewrite length_app; simpl; lia).
    rewrite seqN_snoc, !filter_app, N.add_0_l. unfold lengthN in *. rewrite !length_app, !Nat2N.inj_add.
    f_equal.
    + rewrite <- IH. do 2 f_equal. apply filter_ext_elem. intros k Hk%elem_of_seqN.
      by rewrite lookup_app_l by lia.
    + rewrite !filter_cons, !filter_nil, lookup_app_r, Nat2N.id, Nat.sub_diag by lia. simpl.
      destruct b; simpl; repeat case_decide; naive_solver.
  - intros i. rewrite BitsFacts.elem_of_iter. unfold Bits.contains. simpl.
    destruct (bits !! N.to_nat i) as [[]|]; naive_solver.
Qed.

(** ** The invariant of the attestation loop *)
Record backed `{BuildMode} (n : N) (atts : list AggregatedAttestation)
    (hashes : list BlockHash) (t : Tally) : Prop := {
  bk_votes : ∀ r bits i, ta_justifications t !! r = Some bits →
    bits !! N.to_nat i = Some true → vote_in atts r i;
  bk_justified : ∀ s, cp_slot (ta_latest_finalized t) < s < two64 →
    isSlotJustified (ta_justified_slots t) (cp_slot (ta_latest_finalized t)) s = Some true →
    ∃ r, hashes !! N.to_nat s = Some r ∧ quorum n atts r;
  bk_finalized : cp_slot (ta_latest_finalized t) = 0 ∨
    (quorum n atts (cp_root (ta_latest_finalized t)) ∧
     ∃ tgt, finalizing_link n atts hashes (ta_latest_finalized t) tgt);
}.

Section step.
Context `{BuildMode}.
Context (n h fin0 : N) (hashes : list BlockHash) (atts : list AggregatedAttestation).
Context (Hh : h < two64) (Hlen : lengthN hashes = h) (Hfin0 : fin0 < h).
Context (Hn : n ≤ VALIDATOR_REGISTRY_LIMIT).
Let rts := rootToSlot fin0 hashes.
Local Notation wf := (tally_wf n h fin0 hashes).
Local Notation backed := (backed n atts hashes).

Lemma accepted_votes_in t a bits i :
  backed t → a ∈ atts → accepted n h hashes t a bits →
  bits !! N.to_nat i = Some true → vote_in atts (cp_root (ad_target (aa_data a))) i.
Proof.
  intros Hb Ha Hacc Hi. destruct Hacc.
  apply (addVotes_lookup _ _ _ _ acc_votes) in Hi as [Hi|Hi].
  - destruct (ta_justifications t !! _) as [b|] eqn:Hj; simpl in Hi.
    + by eapply bk_votes.
    + by apply lookup_replicate in Hi as [? _].
  - by exists a.
Qed.

Lemma supermajority_quorum t a bits :
  wf t → backed t → a ∈ atts → accepted n h hashes t a bits → supermajority n bits →
  quorum n atts (cp_root (ad_target (aa_data a))).
Proof.
  intros Hwf Hb Ha Hacc Hs. pose proof (accepted_votes_length n h fin0 hashes Hh Hlen Hfin0 t a bits Hwf Hacc) as Hl.
  destruct (countVotes_indices bits) as (V & Hnd & HV & Hin). exists V. split; [done|].
  pose proof (countVotes_le bits). unfold supermajority in Hs.
  assert (VALIDATOR_REGISTRY_LIMIT = 4096) as Hlim by reflexivity.
  rewrite !u64_mul_small in Hs by (rewrite two64_val; lia).
  split; [lia|]. intros i Hi%Hin. split; [|by eapply accepted_votes_in].
  apply lookup_lt_Some in Hi. unfold lengthN in Hl. lia.
Qed.

Lemma voted_backed t a bits :
  backed t → a ∈ atts → accepted n h hashes t a bits →
  backed (voted t (ad_target (aa_data a)) bits).
Proof.
  intros Hb Ha Hacc. constructor; simpl; [|by destruct Hb..].
  intros r b i. rewrite lookup_insert. case_decide as Heq; [|by apply (bk_votes _ _ _ _ Hb)].
  intros [= <-] Hi. rewrite <- Heq. by eapply accepted_votes_in.
Qed.

Lemma justified_backed t a bits js :
  wf t → backed t → a ∈ atts → accepted n h hashes t a bits → supermajority n bits →
  withJustified (ta_justified_slots t) (cp_slot (ta_latest_finalized t))
    (cp_slot (ad_target (aa_data a))) = Ok js →
  backed (justified t (ad_target (aa_data a)) bits js).
Proof.
  intros Hwf Hb Ha Hacc Hs Hjs.
  pose proof (voted_backed _ _ _ Hb Ha Hacc) as Hv.
  pose proof (acc_target_lt _ _ _ _ _ _ Hacc).
  constructor; simpl; [|intros s Hs1|by destruct Hb].
  - intros r b i [_ Hr]%lookup_delete_Some. by apply (bk_votes _ _ _ _ Hv).
  - rewrite (withJustified_justified _ _ _ _ _ Hjs) by lia. case_decide as Heq.
    + intros _. subst s. exists (cp_root (ad_target (aa_data a))).
      split; [by destruct Hacc|by eapply supermajority_quorum].
    + by apply (bk_justified _ _ _ _ Hb).
Qed.

(** A justified source is backed by a quorum unless it is genesis. *)
Lemma source_backed t a bits :
  wf t → backed t → accepted n h hashes t a bits →
  cp_slot (ta_latest_finalized t) ≤ cp_slot (ad_source (aa_data a)) →
  cp_slot (ad_source (aa_data a)) = 0 ∨ quorum n atts (cp_root (ad_source (aa_data a))).
Proof.
  intros Hwf Hb Hacc Hle. destruct Hacc.
  destruct (decide (cp_slot (ad_source (aa_data a)) = cp_slot (ta_latest_finalized t))) as [Heq|].
  - destruct (bk_finalized _ _ _ _ Hb) as [Hz|[Hq _]]; [left; congruence|right].
    pose proof (ta_fin_on_chain _ _ _ _ _ Hwf) as Hc. rewrite <- Heq in Hc.
    congruence.
  - right. destruct (bk_justified _ _ _ _ Hb (cp_slot (ad_source (aa_data a))))
      as (r & Hr & Hq); [lia|done|]. congruence.
Qed.

Lemma finalizeSource_cases source target t t' :
  cp_slot (ta_latest_finalized t) < cp_slot target → cp_slot source < cp_slot target →
  cp_slot target < h →
  finalizeSource rts source target t = Ok t' →
  t' = t ∨
  (cp_slot (ta_latest_finalized t) ≤ cp_slot source ∧ ta_latest_finalized t' = source ∧
   (∀ s, cp_slot source < s < cp_slot target →
      isJustifiableSlot (cp_slot (ta_latest_finalized t)) s = Ok false) ∧
   ta_justifications t' ⊆ ta_justifications t ∧
   ta_justified_slots t' = shiftWindow (ta_justified_slots t)
     (cp_slot source - cp_slot (ta_latest_finalized t))).
Proof.
  intros Hft Hst Hth Hfin. unfold finalizeSource in Hfin.
  apply outcome_bind_ok in Hfin as (any & Hany & Hfin).
  destruct any; [by left; injection Hfin as <-|right].
  assert (Hfs : cp_slot (ta_latest_finalized t) ≤ cp_slot source)
    by (eapply (any_false_source h fin0 hashes); [done..|lia]).
  split; [done|]. rewrite u64_sub_small in Hfin by lia.
  rewrite u64_add_small in Hany by lia.
  assert (Hno : ∀ s, cp_slot source < s < cp_slot target →
      isJustifiableSlot (cp_slot (ta_latest_finalized t)) s = Ok false)
    by (intros s Hs; apply (oc_any_false _ _ Hany); apply elem_of_seqN; lia).
  destruct (N.ltb_spec 0 (cp_slot source - cp_slot (ta_latest_finalized t))) as [Hd|Hd].
  - apply outcome_bind_ok in Hfin as (u & _ & [= <-]). simpl.
    split_and!; [done..|apply map_filter_subseteq|done].
  - injection Hfin as <-. simpl. split_and!; [done..|].
    replace (cp_slot source - cp_slot (ta_latest_finalized t)) with 0 by lia.
    unfold shiftWindow. by rewrite N.min_0_r.
Qed.

Lemma processAttestation_backed t a t' :
  wf t → backed t → a ∈ atts → processAttestation n hashes rts t a = Ok t' → backed t'.
Proof.
  intros Hwf Hb Ha
    [->|(bits & Hacc & [[_ ->]|(Hs & js & Hjs & Hp)])]%(processAttestation_cases n h fin0 hashes Hh Hlen Hfin0);
    [done|by apply voted_backed|].
  pose proof (justified_backed _ _ _ _ Hwf Hb Ha Hacc Hs Hjs) as Hj.
  pose proof (accepted_fin_target n h fin0 hashes Hh Hlen Hfin0 t a bits Hacc) as Hft.
  pose proof (supermajority_quorum _ _ _ Hwf Hb Ha Hacc Hs) as Hq.
  destruct (finalizeSource_cases _ _ (justified t (ad_target (aa_data a)) bits js) _ Hft (acc_order _ _ _ _ _ _ Hacc)
    (acc_target_lt _ _ _ _ _ _ Hacc) Hp) as [->|(Hle & Hf & Hno & Hsub & Hw)]; [done|].
  simpl in *. constructor.
  - intros r b i Hr. apply (bk_votes _ _ _ _ Hj). by eapply lookup_weaken.
  - rewrite Hf, Hw. intros s Hs1. rewrite shiftWindow_justified by lia.
    rewrite decide_False by lia. apply (bk_justified _ _ _ _ Hj). simpl. lia.
  - rewrite Hf. destruct (source_backed _ _ _ Hwf Hb Hacc Hle) as [?|Hqs]; [by left|right].
    split; [done|]. exists (ad_target (aa_data a)). destruct Hacc.
    split_and!; [done|done|done|by exists a|]. by exists (cp_slot (ta_latest_finalized t)).
Qed.
End step.

(** ** Chains of blocks *)
Section chain.
Context `{BuildMode} `{SszHash}.

(** The states a node reaches from genesis, with the blocks applied so far. *)
Inductive chain (config : Config) (validators : list Validator) : list Block → State → Prop :=
| chain_genesis :
    0 < lengthN validators ≤ VALIDATOR_REGISTRY_LIMIT →
    chain config validators [] (generateGenesisState config validators)
| chain_block bs parent block check s :
    chain config validators bs parent → b_slot block < two64 →
    stateTransition block parent check = Ok s → chain config validators (bs ++ [block]) s.

Definition attestations_of (bs : list Block) : list AggregatedAttestation :=
  concat ((λ b, bb_attestations (b_body b)) <$> bs).

Definition state_backed (atts : list AggregatedAttestation) (s : State) : Prop :=
  ∀ j, getJustifications s = Ok j →
    backed (validatorCount s) atts (st_historical_block_hashes s) (initial_tally s j).

Lemma getJustifications_set state j :
  (∀ r bits, j !! r = Some bits → lengthN bits = validatorCount state) →
  getJustifications (set_justifications (map_ordered j).*1 (concat (map_ordered j).*2) state)
  = Ok j.
Proof.
  intros Hj. unfold getJustifications. simpl. destruct (N.eqb_spec (lengthN (map_ordered j).*1) 0) as [Hz|Hz].
  { unfold lengthN in Hz. rewrite length_fmap in Hz. f_equal. symmetry.
    rewrite <- (list_to_map_ordered j).
    assert (map_ordered j = []) as -> by (apply nil_length_inv; lia). done. }
  assert (Hall : Forall (λ x, lengthN x.2 = validatorCount state) (map_ordered j)).
  { apply Forall_forall. intros [r bits] Hr%elem_of_map_ordered. by eapply Hj. }
  change (validatorCount (set_justifications _ _ state)) with (validatorCount state).
  assert (lengthN (concat (map_ordered j).*2)
          = lengthN (map_ordered j).*1 * validatorCount state) as ->.
  { rewrite (concat_length_same _ (validatorCount state)) by (by apply Forall_fmap).
    unfold lengthN. by rewrite !length_fmap. }
  rewrite N.eqb_refl, boost_assert_true.
  simpl. rewrite cutJustifications_concat.
  - rewrite foldl_insert_list_to_map by apply NoDup_map_ordered_fst.
    by rewrite list_to_map_ordered, map_union_empty.
  - eapply Forall_impl; [done|]. intros [r bits] Hb. unfold validatorCount, lengthN in *. simpl in *. lia.
Qed.

Lemma state_backed_weaken atts s s' :
  st_justifications_roots s' = st_justifications_roots s →
  st_justifications_validators s' = st_justifications_validators s →
  st_validators s' = st_validators s →
  st_historical_block_hashes s `prefix_of` st_historical_block_hashes s' →
  cp_slot (st_latest_finalized s') = cp_slot (st_latest_finalized s) →
  (st_latest_finalized s' = st_latest_finalized s ∨ cp_slot (st_latest_finalized s) = 0) →
  (∀ t, isSlotJustified (st_justified_slots s') (cp_slot (st_latest_finalized s)) t = Some true → t < two64 →
        isSlotJustified (st_justified_slots s) (cp_slot (st_latest_finalized s)) t = Some true) →
  state_backed atts s → state_backed atts s'.
Proof.
  intros Hr Hv Hval Hpre Hfs Hf Hw Hb j Hj.
  assert (Hj0 : getJustifications s = Ok j).
  { unfold getJustifications, validatorCount in *. by rewrite Hr, Hv, Hval in Hj. }
  destruct (Hb j Hj0) as [Hvotes Hjust Hfin]. simpl in *.
  assert (Hn : validatorCount s' = validatorCount s) by (unfold validatorCount; by rewrite Hval).
  constructor; simpl; rewrite ?Hn, ?Hfs.
  - done.
  - intros t Ht Htj%Hw; [|lia]. destruct (Hjust t Ht Htj) as (r & Hl & Hq).
    exists r. split; [by eapply prefix_lookup_Some|done].
  - destruct Hf as [->|Hz]; [|by left]. destruct Hfin as [?|[Hq [tgt Hl]]]; [by left|right].
    split; [done|]. exists tgt. by eapply finalizing_link_mono.
Qed.

Lemma state_backed_mono atts atts' s : atts ⊆ atts' → state_backed atts s → state_backed atts' s.
Proof.
  intros Hsub Hb j Hj. destruct (Hb j Hj) as [Hv Hju Hf]. constructor.
  - intros. eapply vote_in_mono; [done|]. by eapply Hv.
  - intros t Ht Htj. destruct (Hju t Ht Htj) as (r & ? & ?). eauto using quorum_mono.
  - destruct Hf as [?|[Hq [tgt Hl]]]; [by left|right].
    split; [by eapply quorum_mono|]. exists tgt. by eapply finalizing_link_mono.
Qed.

Lemma processBlockHeader_fields state block s' :
  processBlockHeader state block = Ok s' → chain_wf state →
  st_justifications_roots s' = st_justifications_roots state ∧
  st_justifications_validators s' = st_justifications_validators state ∧
  st_validators s' = st_validators state ∧
  st_historical_block_hashes s' = st_historical_block_hashes state ++
    sszHash_header (st_latest_block_header state)
    :: replicate (N.to_nat (b_slot block - bh_slot (st_latest_block_header state) - 1)) kZeroHash ∧
  cp_slot (st_latest_finalized s') = cp_slot (st_latest_finalized state) ∧
  (st_latest_finalized s' = st_latest_finalized state ∨ cp_slot (st_latest_finalized state) = 0) ∧
  st_justified_slots s' = extendToSlot (st_justified_slots state)
    (cp_slot (st_latest_finalized state)) (b_slot block - 1).
Proof.
  intros Hp Hwf. destruct (processBlockHeader_ok _ _ _ Hp) as (Hs & Hlt & Hpi & Hpr).
  pose proof (wf_slot _ Hwf). pose proof (wf_fin_just _ Hwf). pose proof (wf_just _ Hwf).
  unfold processBlockHeader in Hp.
  rewrite !u64_sub_small in Hp by (try rewrite u64_sub_small; lia). outcome_inv Hp.
  destruct (N.eqb_spec (bh_slot (st_latest_block_header state)) 0); simpl;
    split_and!; try done; [right; lia|by left].
Qed.

Lemma processAttestations_backed atts state s' new :
  chain_wf state → 0 < bh_slot (st_latest_block_header state) →
  new ⊆ atts → state_backed atts state →
  processAttestations state new = Ok s' → state_backed atts s'.
Proof.
  intros Hwf Hh Hsub Hb (j & t & Hj & Ht & Htwf & ->)%processAttestations_inv; [|done..].
  pose proof (initial_tally_wf _ _ Hwf Hh Hj) as Hwf0.
  assert (Hbt : backed (validatorCount state) atts (st_historical_block_hashes state) t).
  { eapply (oc_foldl_inv (λ t, tally_wf (validatorCount state) (bh_slot (st_latest_block_header state))
      (cp_slot (st_latest_finalized state)) (st_historical_block_hashes state) t ∧
      backed (validatorCount state) atts (st_historical_block_hashes state) t)) in Ht as [_ ?];
      [done|by auto|].
    intros t1 a t2 Ha [Ht1 Hb1] Ht2. destruct Hwf. split.
    - eapply processAttestation_wf; [..|done|done]; lia || done.
    - eapply processAttestation_backed; [..|done|done| |done]; [lia|done|lia|lia|by apply Hsub]. }
  intros j' Hj'. assert (j' = ta_justifications t) as ->.
  { unfold getJustifications in Hj'.
    pose proof (getJustifications_set (set_justified_slots (ta_justified_slots t) state) (ta_justifications t)) as Hset.
    unfold getJustifications in Hset. simpl in Hj', Hset. unfold validatorCount in *. simpl in *.
    rewrite Hset in Hj'; [by injection Hj' as <-|]. intros r bits Hr. by eapply ta_votes in Hr as [? _]. }
  destruct Hbt. by constructor.
Qed.

Lemma chain_reachable config validators bs s : chain config validators bs s → reachable s.
Proof. induction 1; econstructor; eauto. Qed.

Lemma chain_backed config validators bs s :
  chain config validators bs s → state_backed (attestations_of bs) s.
Proof.
  induction 1 as [Hv|bs parent block check s Hc IH Hb Hs].
  { intros j [= <-]. constructor; simpl.
    - intros r bits i Hr. by rewrite lookup_empty in Hr.
    - intros t Ht. rewrite isSlotJustified_gt by lia. done.
    - by left. }
  pose proof (reachable_wf _ (chain_reachable _ _ _ _ Hc)) as Hwf.
  destruct (stateTransition_steps _ _ _ _ Hwf Hb Hs)
    as (s1 & s2 & H1 & Hwf1 & H2 & Hwf2 & H3 & Hf1 & _ & Hh2 & Hpos & _).
  assert (Hatts : attestations_of (bs ++ [block])
                  = attestations_of bs ++ bb_attestations (b_body block)).
  { unfold attestations_of. rewrite fmap_app, concat_app. simpl. by rewrite app_nil_r. }
  rewrite Hatts. eapply processAttestations_backed; [exact Hwf2|lia| | |done]; [set_solver|].
  apply (state_backed_mono (attestations_of bs)); [set_solver|].
  destruct (processBlockHeader_fields _ _ _ H2 Hwf1) as (Hr & Hjv & Hval & Hhist & Hfs & Hf & Hw).
  eapply (state_backed_weaken _ s1); try done.
  - rewrite Hhist. by apply prefix_app_r.
  - intros t Ht Htb. rewrite Hw in Ht.
    destruct (isSlotJustified (st_justified_slots s1) _ t) as [b|] eqn:Hbit.
    + by rewrite (extendToSlot_justified _ _ _ _ _ Htb Hbit) in Ht.
    + by apply extendToSlot_fresh in Ht.
  - unfold processSlots in H1. destruct (N.leb_spec (b_slot block) (st_slot parent)); [done|].
    injection H1 as <-. pose proof (wf_slot _ Hwf).
    destruct (iter_processSlot parent (N.to_nat (b_slot block - st_slot parent)))
      as (_ & _ & _ & Hf' & Hhist' & Hw' & Hv' & Hr' & Hjv'); [lia|].
    eapply (state_backed_weaken _ parent); try done.
    + by rewrite Hhist'.
    + by rewrite Hf'.
    + by left.
    + intros t. by rewrite Hw'.
Qed.
End chain.
