(* ===== verification/ToyHash.v ===== *)
(** * A concrete instance of the hashing interface

    A computable [SszHash], used to evaluate the definitions on example chains.
    No theorem depends on it; only examples and witnesses do. *)

From S2P Require Import Prelude Errors Types Justifiable Stf StfProofs StfQuorum.

Definition toy_mix (l : list N) : N :=
  foldl (λ acc x, N.land (acc * 1000003 + x + 1) (2 ^ 64 - 1)) 7 l.

Definition toy_bits (b : list bool) : N :=
  toy_mix ((λ x : bool, if x then 1 else 0) <$> b).
Definition toy_cp (c : Checkpoint) : N := toy_mix [cp_root c; cp_slot c].
Definition toy_data (d : AttestationData) : N :=
  toy_mix [ad_slot d; toy_cp (ad_head d); toy_cp (ad_target d); toy_cp (ad_source d)].
Definition toy_header (h : BlockHeader) : N :=
  toy_mix [bh_slot h; bh_proposer_index h; bh_parent_root h; bh_state_root h; bh_body_root h].
Definition toy_body (b : BlockBody) : N :=
  toy_mix ((λ a, toy_mix [toy_bits (ab_bits (aa_aggregation_bits a)); toy_data (aa_data a)])
             <$> bb_attestations b).

#[global] Instance ToyHash : SszHash := {|
  sszHash_header := toy_header;
  sszHash_body := toy_body;
  sszHash_block b := toy_mix [b_slot b; b_proposer_index b; b_parent_root b; b_state_root b;
                              toy_body (b_body b)];
  sszHash_state s :=
    toy_mix [st_slot s; toy_header (st_latest_block_header s); toy_cp (st_latest_justified s);
             toy_cp (st_latest_finalized s); toy_mix (st_historical_block_hashes s);
             toy_bits (st_justified_slots s); toy_mix (st_justifications_roots s);
             toy_bits (st_justifications_validators s)];
  sszHash_data := toy_data;
|}.

(** ** An example chain with a single validator *)
Module Ex.
Definition config : Config := mkConfig 1000.
Definition validators : list Validator := [mkValidator 11 12 0].
Definition s0 : State := generateGenesisState config validators.

Definition ok {A} (d : A) (r : result A) : A := match r with Ok a => a | _ => d end.

(** The block for [slot] on top of [parent] carrying [atts], with its state root. *)
Definition child `{BuildMode} (parent : State) (slot : Slot) (atts : list AggregatedAttestation)
    : Block :=
  let pre := ok parent (processSlots parent slot) in
  let draft root := mkBlock slot (slot mod validatorCount parent)
    (sszHash_header (st_latest_block_header pre)) root (mkBlockBody atts) in
  draft (sszHash_state (ok parent (stateTransition (draft 0) parent false))).

Definition vote (s : State) (bits : list bool) (source target : Slot) : AggregatedAttestation :=
  let cp slot := mkCheckpoint (default 0 (st_historical_block_hashes s !! N.to_nat slot)) slot in
  mkAggregatedAttestation (mkAggregationBits bits)
    (mkAttestationData (st_slot s) (cp target) (cp target) (cp source)).

#[local] Existing Instance DebugBuild.

(** The state a vote for the parent of the next block can refer to. *)
Definition after (s : State) (b : Block) : State := ok s (stateTransition b s true).
Definition seen (s : State) (slot : Slot) : State := after s (child s slot []).

Definition b1 : Block := Eval vm_compute in child s0 1 [].
Definition s1 : State := Eval vm_compute in after s0 b1.
Definition b2 : Block := Eval vm_compute in child s1 2 [vote (seen s1 2) [true] 0 1].
Definition s2 : State := Eval vm_compute in after s1 b2.
Definition b3 : Block := Eval vm_compute in child s2 3 [vote (seen s2 3) [true] 1 2].
Definition s3 : State := Eval vm_compute in after s2 b3.
Definition b4 : Block := Eval vm_compute in child s3 4 [vote (seen s3 4) [true] 2 3].
Definition s4 : State := Eval vm_compute in after s3 b4.

Lemma chain1 : chain config validators [b1] s1.
Proof.
  apply (chain_block config validators [] s0 b1 true); [|by vm_compute..].
  apply chain_genesis. by vm_compute.
Qed.
Lemma chain2 : chain config validators [b1; b2] s2.
Proof. apply (chain_block config validators [b1] s1 b2 true); [apply chain1|by vm_compute..]. Qed.
Lemma chain3 : chain config validators [b1; b2; b3] s3.
Proof. apply (chain_block config validators [b1; b2] s2 b3 true); [apply chain2|by vm_compute..]. Qed.
Lemma chain4 : chain config validators [b1; b2; b3; b4] s4.
Proof. apply (chain_block config validators [b1; b2; b3] s3 b4 true); [apply chain3|by vm_compute..]. Qed.

Lemma s4_finalized :
  cp_slot (st_latest_justified s4) = 3 ∧ cp_slot (st_latest_finalized s4) = 2.
Proof. by vm_compute. Qed.

Lemma s4_wf : chain_wf s4.
Proof. eapply reachable_wf, chain_reachable, chain4. Qed.
End Ex.
