(* ===== verification/StfTheorems.v ===== *)
(** * State transition function: the theorems

    Safety, invariant, monotonicity, totality, round trip and refinement theorems
    of src/src/blockchain/state_transition_function.cpp and
    src/src/blockchain/is_justifiable_slot.hpp, each followed by its witness. *)

From S2P Require Import Prelude Errors Types Justifiable Stf StfWindow StfProofs StfQuorum ToyHash.

Section theorems.
Context `{BuildMode} `{SszHash}.

(** C1: accountable justification.  On every chain of blocks built from genesis,
    the latest justified checkpoint is genesis or was voted for, as a target, by at least
    two thirds of the validators in attestations included in that chain; the latest
    finalized checkpoint is genesis or is itself backed by such a quorum and is the source
    of at least one included attestation whose target, later and on the same chain, is
    backed by a quorum too, with no justifiable slot strictly between the two.  A quorum
    counts the votes for a target whatever their sources are (see
    [finality_mixes_sources]). *)
Theorem justified_has_quorum config validators bs s :
  chain config validators bs s →
  (cp_slot (st_latest_justified s) = 0 ∨
   quorum (validatorCount s) (attestations_of bs) (cp_root (st_latest_justified s))) ∧
  (cp_slot (st_latest_finalized s) = 0 ∨
   (quorum (validatorCount s) (attestations_of bs) (cp_root (st_latest_finalized s)) ∧
    ∃ t, finalizing_link (validatorCount s) (attestations_of bs)
           (st_historical_block_hashes s) (st_latest_finalized s) t)).
Proof.
  intros Hc. pose proof (reachable_wf _ (chain_reachable _ _ _ _ Hc)) as Hwf.
  destruct (getJustifications_ok s Hwf) as (j & Hj & _).
  destruct (chain_backed _ _ _ _ Hc j Hj) as [_ Hju Hf]. simpl in *. split; [|done].
  destruct Hwf. destruct (decide (bh_slot (st_latest_block_header s) = 0)); [left; lia|].
  destruct (decide (cp_slot (st_latest_justified s) = cp_slot (st_latest_finalized s))) as [Heq|].
  - destruct Hf as [?|[Hq _]]; [left; lia|right].
    assert (cp_root (st_latest_justified s) = cp_root (st_latest_finalized s)) as ->; [|done].
    specialize (wf_fin_on_chain ltac:(lia)). specialize (wf_just_on_chain ltac:(lia)).
    rewrite Heq in wf_just_on_chain. congruence.
  - right. destruct (Hju (cp_slot (st_latest_justified s))) as (r & Hr & Hq); [lia|done|].
    specialize (wf_just_on_chain ltac:(lia)). congruence.
Qed.

(** C3: every state on a chain built from genesis is well formed: the history has one
    entry per slot before the head, the justified window covers exactly the slots
    after finalization, both checkpoints are on the chain, and the flattened vote
    table has one full row per distinct unfinalized root. *)
Theorem chain_states_wf config validators bs s :
  chain config validators bs s → chain_wf s.
Proof. intros Hc. eapply reachable_wf, chain_reachable, Hc. Qed.

(** C4: a successful transition never moves the finalized slot backwards, only
    extends the block history, and keeps the finalized checkpoint of the parent (and
    that of the child) on the child's history.  The first transition, from genesis itself,
    is excluded: the root of its checkpoints is not known yet. *)
Theorem stateTransition_finality_monotone block parent check s' :
  chain_wf parent → b_slot block < two64 → 0 < bh_slot (st_latest_block_header parent) →
  stateTransition block parent check = Ok s' →
  cp_slot (st_latest_finalized parent) ≤ cp_slot (st_latest_finalized s') ∧
  st_historical_block_hashes parent `prefix_of` st_historical_block_hashes s' ∧
  st_historical_block_hashes s' !! N.to_nat (cp_slot (st_latest_finalized parent))
    = Some (cp_root (st_latest_finalized parent)) ∧
  st_historical_block_hashes s' !! N.to_nat (cp_slot (st_latest_finalized s'))
    = Some (cp_root (st_latest_finalized s')).
Proof.
  intros Hwf Hb Hpos Ht. destruct (stateTransition_wf _ _ _ _ Hwf Hb Ht) as (Hwf' & Hmono & Hh').
  destruct (stateTransition_steps _ _ _ _ Hwf Hb Ht)
    as (s1 & s2 & H1 & Hwf1 & H2 & Hwf2 & H3 & Hf1 & _ & Hh2 & Hbp & _).
  assert (Hpre : st_historical_block_hashes parent `prefix_of` st_historical_block_hashes s').
  { destruct (processBlockHeader_fields _ _ _ H2 Hwf1) as (_ & _ & _ & Hhist & _).
    apply processAttestations_inv in H3 as (j & t & _ & _ & _ & ->); [|done|lia]. simpl.
    rewrite Hhist. apply prefix_app_r. unfold processSlots in H1.
    destruct (N.leb_spec (b_slot block) (st_slot parent)); [done|]. injection H1 as <-.
    destruct (iter_processSlot parent (N.to_nat (b_slot block - st_slot parent)))
      as (_ & _ & _ & _ & -> & _); [pose proof (wf_slot _ Hwf); lia|done]. }
  split_and!; [done|done| |].
  - eapply prefix_lookup_Some; [|done]. by apply wf_fin_on_chain.
  - apply wf_fin_on_chain; [done|lia].
Qed.

(** C20: the transition never fails in an undefined way.  On a well-formed state, an arbitrary block
    leads to a new state or to one of the declared errors; the only other way out is, in a build that
    keeps assertions, the assertion of isJustifiableSlot, for a slot after the source of one of the
    block's attestations that is before the slot finalized by then. *)
Theorem stateTransition_total block parent check :
  chain_wf parent → b_slot block < two64 →
  (∃ s', stateTransition block parent check = Ok s') ∨
  (∃ e, stateTransition block parent check = Err e) ∨
  (stateTransition block parent check = Throw AssertFailed ∧ transition_asserts block parent AssertFailed).
Proof.
  intros Hwf Hb. pose proof (stateTransition_throws block parent check Hwf Hb) as Ht.
  destruct (stateTransition block parent check) as [s'|e|x]; [by eauto..|].
  assert (x = AssertFailed) as -> by (by destruct Ht as (s1 & s2 & _ & _ & j & pre & a & post & t & _ & _ & _ & _ & -> & _)).
  auto.
Qed.

(** Flattening the vote table into the state and cutting it into rows again gives
    the same table, for every table whose rows have one entry per validator. *)
Theorem justifications_roundtrip state (j : Justifications) :
  (∀ r bits, j !! r = Some bits → lengthN bits = validatorCount state) →
  ∃ s', setJustifications state j = Ok s' ∧ getJustifications s' = Ok j ∧
    StronglySorted N.le (st_justifications_roots s').
Proof.
  intros Hj. eexists. split; [by apply setJustifications_ok|].
  split; [by apply getJustifications_set|]. apply map_ordered_sorted.
Qed.

(** ProcessSlots in closed form.  Advancing to a later slot stores the state root in
    the latest header if it was empty, and otherwise only sets the slot, however
    many slots are skipped (the root of the state is assumed not to be the zero
    hash, which marks an empty root). *)
Theorem processSlots_closed_form state slot :
  sszHash_state state ≠ kZeroHash → slot < two64 →
  processSlots state slot =
    if slot <=? st_slot state then Err (E_STF INVALID_SLOT)
    else
      let header := st_latest_block_header state in
      Ok (set_slot slot
            (if bh_state_root header =? kZeroHash
             then set_latest_block_header (with_state_root (sszHash_state state) header) state
             else state)).
Proof.
  intros Hnz Hb. unfold processSlots. destruct (N.leb_spec slot (st_slot state)) as [|Hlt]; [done|].
  cbv zeta. f_equal. assert (Hk : ∀ k, N.succ (N.of_nat k) + st_slot state < two64 →
    Nat.iter (S k) processSlot state = set_slot (st_slot state + N.succ (N.of_nat k))
      (if bh_state_root (st_latest_block_header state) =? kZeroHash
       then set_latest_block_header (with_state_root (sszHash_state state)
              (st_latest_block_header state)) state
       else state)).
  { induction k as [|k IH]; intros Hk.
    - simpl. unfold processSlot. destruct (_ =? _); simpl; by rewrite u64_add_small by lia.
    - change (Nat.iter (S (S k)) processSlot state) with (processSlot (Nat.iter (S k) processSlot state)).
      rewrite IH by lia. unfold processSlot.
      destruct (bh_state_root (st_latest_block_header state) =? kZeroHash) eqn:Hz; simpl.
      + rewrite (proj2 (N.eqb_neq _ _) Hnz). simpl. rewrite u64_add_small by lia.
        unfold set_slot. simpl. f_equal. lia.
      + rewrite Hz. simpl. rewrite u64_add_small by lia. unfold set_slot. simpl. f_equal. lia. }
  destruct (N.to_nat (slot - st_slot state)) as [|k] eqn:Hn; [lia|].
  rewrite Hk by lia. f_equal. lia.
Qed.

(** ProcessBlockHeader accepts a block exactly when its slot is the state's slot and
    later than the parent's, its proposer is the slot's round-robin validator and
    its parent root is the root of the latest header; the checks report the first
    failing condition in that order. *)
Theorem processBlockHeader_decides state block :
  validatorCount state ≠ 0 →
  let parent := st_latest_block_header state in
  ((∃ s', processBlockHeader state block = Ok s') ↔
     b_slot block = st_slot state ∧ bh_slot parent < b_slot block ∧
     b_proposer_index block = b_slot block mod validatorCount state ∧
     b_parent_root block = sszHash_header parent) ∧
  (processBlockHeader state block = Err (E_STF INVALID_SLOT) ↔
     b_slot block ≠ st_slot state ∨ b_slot block ≤ bh_slot parent) ∧
  (processBlockHeader state block = Err (E_STF STF_INVALID_PROPOSER) ↔
     b_slot block = st_slot state ∧ bh_slot parent < b_slot block ∧
     b_proposer_index block ≠ b_slot block mod validatorCount state) ∧
  (processBlockHeader state block = Err (E_STF PARENT_ROOT_DOESNT_MATCH) ↔
     b_slot block = st_slot state ∧ bh_slot parent < b_slot block ∧
     b_proposer_index block = b_slot block mod validatorCount state ∧
     b_parent_root block ≠ sszHash_header parent).
Proof.
  intros Hn. cbv zeta. unfold processBlockHeader, validateProposerIndex.
  rewrite (proj2 (N.eqb_neq _ _) Hn).
  destruct (N.eqb_spec (b_slot block) (st_slot state)); simpl; [|naive_solver].
  destruct (N.leb_spec (b_slot block) (bh_slot (st_latest_block_header state))); simpl;
    [naive_solver lia|].
  destruct (N.eqb_spec (b_proposer_index block) (b_slot block mod validatorCount state)); simpl;
    [|naive_solver lia].
  destruct (N.eqb_spec (b_parent_root block) (sszHash_header (st_latest_block_header state))); simpl;
    naive_solver lia.
Qed.

(** C30: isJustifiableSlot, computed with double-precision square roots, decides exactly
    the 3SF rule (distance at most five, a square, or a pronic number) for all
    distances below [2^51]. *)
Theorem isJustifiableSlot_correct fin cand :
  fin ≤ cand → cand < two64 → cand - fin < 2 ^ 51 →
  ∃ b, isJustifiableSlot fin cand = Ok b ∧ (b = true ↔ justifiable_delta (cand - fin)).
Proof.
  intros Hle Hb Hd. exists (justifiable_deltab (cand - fin)).
  split; [by apply isJustifiableSlot_spec|apply justifiable_deltab_spec].
Qed.
End theorems.

(** ** The justified window as a set of slots *)

(** [slot] is justified: it is finalized, or its bit in the window is set. *)
Definition slot_justified (bits : list bool) (fin slot : Slot) : Prop :=
  isSlotJustified bits fin slot = Some true.

(** The bit window refines a set of absolute slot numbers.  Reading a covered slot
    decides membership, withJustified adds exactly its target, extendToSlot adds
    nothing, and shifting the window to a later finalized slot adds exactly the
    newly finalized slots. *)
Theorem window_refines_slot_set bits fin fin' t s :
  s < two64 → t < two64 - 1 → t ≤ fin + lengthN bits → fin ≤ fin' →
  (∃ bits', withJustified bits fin t = Ok bits' ∧
     (slot_justified bits' fin s ↔ s = t ∨ slot_justified bits fin s)) ∧
  (slot_justified (extendToSlot bits fin t) fin s ↔ slot_justified bits fin s) ∧
  (slot_justified (shiftWindow bits (fin' - fin)) fin' s ↔
     s ≤ fin' ∨ slot_justified bits fin s).
Proof.
  intros Hs Ht Hcov Hle. unfold slot_justified. split_and!.
  - destruct (withJustified_ok bits fin t) as [bits' Hw]; [lia|done|]. exists bits'.
    split; [done|]. rewrite (withJustified_justified _ _ _ _ _ Hw) by lia. case_decide; naive_solver.
  - split.
    + intros He. destruct (isSlotJustified bits fin s) as [b|] eqn:Hb.
      * by rewrite (extendToSlot_justified _ _ _ _ _ Hs Hb) in He.
      * by apply extendToSlot_fresh in He.
    + by apply extendToSlot_justified.
  - rewrite shiftWindow_justified by lia. case_decide; naive_solver.
Qed.

(** ** Witnesses *)
Section witnesses.
#[local] Existing Instance DebugBuild.

Lemma justified_has_quorum_witness :
  cp_slot (st_latest_finalized Ex.s4) = 2 ∧ cp_slot (st_latest_justified Ex.s4) = 3 ∧
  quorum (validatorCount Ex.s4) (attestations_of [Ex.b1; Ex.b2; Ex.b3; Ex.b4]) (cp_root (st_latest_justified Ex.s4)) ∧
  quorum (validatorCount Ex.s4) (attestations_of [Ex.b1; Ex.b2; Ex.b3; Ex.b4]) (cp_root (st_latest_finalized Ex.s4)) ∧
  ∃ t, finalizing_link (validatorCount Ex.s4) (attestations_of [Ex.b1; Ex.b2; Ex.b3; Ex.b4])
         (st_historical_block_hashes Ex.s4) (st_latest_finalized Ex.s4) t.
Proof.
  split; [by vm_compute|]. split; [by vm_compute|].
  destruct (justified_has_quorum _ _ _ _ Ex.chain4) as [[Hz|Hj] [Hz'|[Hf Hl]]];
    [discriminate Hz|discriminate Hz|discriminate Hz'|exact (conj Hj (conj Hf Hl))].
Defined.

Lemma chain_states_wf_witness : chain_wf Ex.s4 ∧ cp_slot (st_latest_finalized Ex.s4) = 2.
Proof. split; [exact (chain_states_wf _ _ _ _ Ex.chain4)|by vm_compute]. Defined.

Lemma stateTransition_finality_monotone_witness :
  cp_slot (st_latest_finalized Ex.s3) ≤ cp_slot (st_latest_finalized Ex.s4).
Proof.
  apply (stateTransition_finality_monotone Ex.b4 Ex.s3 true); [|by vm_compute..].
  eapply reachable_wf, chain_reachable, Ex.chain3.
Defined.

(** A block whose attestation has an old source, and the chain's own next block. *)
Definition old_source_block : Block := Ex.child (H := ReleaseBuild) Ex.s4 5 [Ex.vote (Ex.seen Ex.s4 5) [true] 0 4].
Lemma stateTransition_total_witness :
  (∃ s', stateTransition Ex.b4 Ex.s3 true = Ok s') ∧
  stateTransition Ex.b4 Ex.s4 true = Err (E_STF INVALID_SLOT) ∧
  transition_asserts old_source_block Ex.s4 AssertFailed.
Proof.
  split; [|split].
  - destruct (stateTransition_total Ex.b4 Ex.s3 true) as [Ho|[[e He]|[Ht _]]];
      [eapply reachable_wf, chain_reachable, Ex.chain3|by vm_compute|exact Ho|exfalso; revert He; by vm_compute|exfalso; revert Ht; by vm_compute].
  - by vm_compute.
  - destruct (stateTransition_total old_source_block Ex.s4 false) as [[s' Ho]|[[e He]|[_ Ht]]];
      [exact Ex.s4_wf|by vm_compute|exfalso; revert Ho; by vm_compute|exfalso; revert He; by vm_compute|exact Ht].
Defined.

Lemma justifications_roundtrip_witness :
  ∃ s', setJustifications Ex.s4 {[ 5 := [true]; 3 := [false] ]} = Ok s' ∧
    getJustifications s' = Ok {[ 5 := [true]; 3 := [false] ]} ∧
    StronglySorted N.le (st_justifications_roots s').
Proof.
  apply justifications_roundtrip. intros r bits Hr.
  apply lookup_insert_Some in Hr as [[_ <-]|[_ Hr]]; [by vm_compute|].
  apply lookup_singleton_Some in Hr as [_ <-]. by vm_compute.
Defined.

Lemma processSlots_closed_form_witness :
  processSlots Ex.s4 9 = Ok (set_slot 9 (set_latest_block_header
    (with_state_root (sszHash_state Ex.s4) (st_latest_block_header Ex.s4)) Ex.s4)).
Proof. rewrite (processSlots_closed_form Ex.s4 9); [by vm_compute|by vm_compute..]. Defined.

Lemma processBlockHeader_decides_witness :
  processBlockHeader Ex.s4 Ex.b4 = Err (E_STF INVALID_SLOT).
Proof.
  apply (proj1 (proj2 (processBlockHeader_decides Ex.s4 Ex.b4 ltac:(by vm_compute)))).
  right. by vm_compute.
Defined.

Lemma isJustifiableSlot_correct_witness :
  (∃ b, isJustifiableSlot 10 22 = Ok b ∧ (b = true ↔ justifiable_delta (22 - 10))) ∧
  isJustifiableSlot 10 22 = Ok true ∧ isJustifiableSlot 10 17 = Ok false.
Proof.
  split; [apply (isJustifiableSlot_correct 10 22); by vm_compute|]. split; by vm_compute.
Defined.

Lemma window_refines_slot_set_witness :
  ∃ bits', withJustified [false; false; true] 4 6 = Ok bits' ∧
    (slot_justified bits' 4 6 ↔ 6 = 6 ∨ slot_justified [false; false; true] 4 6).
Proof.
  apply (window_refines_slot_set [false; false; true] 4 5 6 6); by vm_compute.
Defined.
End witnesses.

(** A well-formed chain and one further block abort a build that keeps assertions.
    The block's attestation has a source before the finalized slot, which counts as
    justified; once its target reaches two thirds, the search for justifiable slots
    between source and target calls isJustifiableSlot with a candidate before the
    finalized slot.  The same block is accepted, without finalizing anything, when
    assertions are compiled out. *)
Theorem old_source_aborts_debug_build :
  ∃ config validators bs s block,
    @chain DebugBuild _ config validators bs s ∧ chain_wf s ∧
    @stateTransition DebugBuild _ block s false = Throw AssertFailed ∧
    ∃ s', @stateTransition ReleaseBuild _ block s false = Ok s' ∧
      st_latest_finalized s' = st_latest_finalized s ∧
      cp_slot (st_latest_justified s') = 4.
Proof.
  exists Ex.config, Ex.validators, [Ex.b1; Ex.b2; Ex.b3; Ex.b4], Ex.s4.
  exists (@Ex.child ReleaseBuild Ex.s4 5 [Ex.vote (Ex.seen Ex.s4 5) [true] 0 4]).
  split; [exact Ex.chain4|]. split; [exact Ex.s4_wf|]. split; [by vm_compute|].
  eexists. split; [vm_compute; reflexivity|]. by vm_compute.
Qed.

(** A supermajority link: two thirds of the validators attest the pair. *)
Definition supermajority_link (n : N) (atts : list AggregatedAttestation) (f t : Checkpoint) : Prop :=
  ∃ V : list ValidatorIndex, NoDup V ∧ 2 * n ≤ 3 * lengthN V ∧
    ∀ i, i ∈ V → ∃ a, a ∈ atts ∧ ad_source (aa_data a) = f ∧ ad_target (aa_data a) = t ∧
                      i ∈ Bits.iter (aa_aggregation_bits a).

(** Three validators; at the end validator 0 votes for slot 3 from slot 1 and validator 1 from slot 2. *)
Module Mixed.
#[local] Existing Instance DebugBuild.
Definition validators : list Validator := replicate 3 (mkValidator 11 12 0).
Definition s0 : State := generateGenesisState Ex.config validators.
Definition all : list bool := [true; true; true].
Definition b1 : Block := Ex.child s0 1 [].
Definition s1 : State := Ex.after s0 b1.
Definition b2 : Block := Ex.child s1 2 [Ex.vote (Ex.seen s1 2) all 0 1].
Definition s2 : State := Ex.after s1 b2.
Definition b3 : Block := Ex.child s2 3 [Ex.vote (Ex.seen s2 3) all 1 2].
Definition s3 : State := Ex.after s2 b3.
Definition b4 : Block := Ex.child s3 4 [Ex.vote (Ex.seen s3 4) [true] 1 3; Ex.vote (Ex.seen s3 4) [false; true] 2 3].
Definition s4 : State := Ex.after s3 b4.

Lemma mixed_chain : chain Ex.config validators [b1; b2; b3; b4] s4.
Proof.
  apply (chain_block _ _ [b1; b2; b3] s3 b4 true); [|by vm_compute|by vm_compute].
  apply (chain_block _ _ [b1; b2] s2 b3 true); [|by vm_compute|by vm_compute].
  apply (chain_block _ _ [b1] s1 b2 true); [|by vm_compute|by vm_compute].
  apply (chain_block _ _ [] s0 b1 true); [|by vm_compute|by vm_compute]. apply chain_genesis. by vm_compute.
Qed.
End Mixed.

(** Finalization does not need a supermajority link: votes for a target are counted whatever their
    source is, and the source of the vote that completes the quorum is finalized.  On a chain of three
    validators the checkpoint of slot 2 is finalized though a single validator attested a link from it. *)
Theorem finality_mixes_sources :
  ∃ config validators bs s,
    @chain DebugBuild _ config validators bs s ∧ cp_slot (st_latest_finalized s) = 2 ∧
    ∀ t, ¬ supermajority_link (validatorCount s) (attestations_of bs) (st_latest_finalized s) t.
Proof.
  exists Ex.config, Mixed.validators, [Mixed.b1; Mixed.b2; Mixed.b3; Mixed.b4], Mixed.s4.
  split; [exact Mixed.mixed_chain|]. split; [by vm_compute|]. intros t (V & Hnd & Hn & HV).
  assert (Hsub : V ⊆ [1]).
  { intros i (a & Ha & Hs & _ & Hi)%HV. revert Hi.
    assert (Hall : Forall (λ a, ad_source (aa_data a) = st_latest_finalized Mixed.s4 → Bits.iter (aa_aggregation_bits a) = [1])
      (attestations_of [Mixed.b1; Mixed.b2; Mixed.b3; Mixed.b4])) by (by apply (bool_decide_unpack _); vm_compute).
    rewrite Forall_forall in Hall. by rewrite (Hall a Ha Hs). }
  apply NoDup_submseteq, submseteq_length in Hsub; [|done]. change (validatorCount Mixed.s4) with 3 in Hn.
  unfold lengthN in Hn. cbn in Hsub. lia.
Qed.

(** The bound of the previous theorem is needed: [2^52 + 1] is neither a square nor
    pronic, but its rounded square root is an integer and the slot is accepted. *)
Theorem isJustifiableSlot_inexact_far :
  @isJustifiableSlot DebugBuild 0 (2 ^ 52 + 1) = Ok true ∧
  ¬ justifiable_delta (2 ^ 52 + 1).
Proof.
  destruct isSquareTest_inexact as [Hs Hp]. split; [by vm_compute|].
  rewrite <- justifiable_deltab_spec, Hp. done.
Qed.
