(* ===== verification/CachedTree.v ===== *)
(** * CachedTree: the non-finalized part of the block tree
      (src/src/blockchain/impl/cached_tree.{hpp,cpp})

    Nodes live in [nodes_]; a pointer to a node is the node's constant [index],
    whose hash identifies it.  A [weak_ptr] to a parent is a pointer that locks as
    long as the parent is in the tree.  [TreeNode::contains_approved_para_block] is
    never read and is left out. *)

From S2P Require Import Prelude Errors Types.

(** The iteration order of [std::unordered_map] is unspecified: some permutation of
    the entries. *)
Class UnorderedMap := {
  iteration {V} : gmap BlockHash V → list (BlockHash * V);
  iteration_perm {V} (m : gmap BlockHash V) : iteration m ≡ₚ map_to_list m;
}.

(** One admissible order, used to evaluate examples. *)
Definition CanonicalOrder : UnorderedMap :=
  {| iteration V := map_to_list; iteration_perm V m := Permutation_refl _ |}.

(** [emplace] keeps an entry that is already there. *)
Definition emplace {V} (k : BlockHash) (v : V) (m : gmap BlockHash V) : gmap BlockHash V :=
  match m !! k with Some _ => m | None => <[k := v]> m end.

Record Reorg := mkReorg {
  rg_common : BlockIndex;
  rg_revert : list BlockIndex;
  rg_apply : list BlockIndex;
}.

(** Reorg::empty *)
Definition Reorg_empty (r : Reorg) : bool :=
  match rg_revert r, rg_apply r with [], [] => true | _, _ => false end.

Record ReorgAndPrune := mkReorgAndPrune {
  rp_reorg : option Reorg;
  rp_prune : list BlockIndex;
}.

Record TreeNode := mkTreeNode {
  tn_index : BlockIndex;
  tn_parent : option BlockIndex;
  tn_depth : N;
  tn_reverted : bool;
  tn_children : list BlockIndex;
}.

(** TreeNode::TreeNode(info) and TreeNode::TreeNode(info, parent) *)
Definition TreeNode_root (info : BlockIndex) : TreeNode := mkTreeNode info None 0 false [].
Definition TreeNode_child (info : BlockIndex) (parent : TreeNode) : TreeNode :=
  mkTreeNode info (Some (tn_index parent)) ((tn_depth parent + 1) mod 2 ^ 32)
    (tn_reverted parent) [].

(** TreeNode::weight *)
Definition weight (p : BlockIndex) : Slot := bi_slot p.

Abbreviation Nodes := (gmap BlockHash TreeNode).

Record CachedTree := mkCachedTree {
  ct_root : BlockIndex;
  ct_justified : BlockIndex;
  ct_best : BlockIndex;
  ct_nodes : Nodes;
  ct_leaves : gmap BlockHash Slot;
}.

Definition set_best (b : BlockIndex) (t : CachedTree) : CachedTree :=
  mkCachedTree (ct_root t) (ct_justified t) b (ct_nodes t) (ct_leaves t).
Definition set_nodes (n : Nodes) (t : CachedTree) : CachedTree :=
  mkCachedTree (ct_root t) (ct_justified t) (ct_best t) n (ct_leaves t).

Definition set_children (c : list BlockIndex) (n : TreeNode) : TreeNode :=
  mkTreeNode (tn_index n) (tn_parent n) (tn_depth n) (tn_reverted n) c.
Definition set_parent (p : option BlockIndex) (n : TreeNode) : TreeNode :=
  mkTreeNode (tn_index n) p (tn_depth n) (tn_reverted n) (tn_children n).

(** TreeNode::parent: [weak_parent.lock()]. *)
Definition parent_of (nodes : Nodes) (p : BlockIndex) : option BlockIndex :=
  n ← nodes !! bi_hash p; q ← tn_parent n; _ ← nodes !! bi_hash q; Some q.

(** Dereferencing a pointer. *)
Definition deref (nodes : Nodes) (p : BlockIndex) : result TreeNode :=
  of_option UndefinedBehaviour (nodes !! bi_hash p).

Definition tree_fuel (nodes : Nodes) : nat := S (size nodes).

(** ** Walking up the tree *)

(** The loop of [reorg]; [revert] grows at its end, [apply] is reversed afterwards. *)
Fixpoint reorg_loop (fuel : nat) (nodes : Nodes) (from to : BlockIndex)
    (revert apply : list BlockIndex) : result Reorg :=
  match fuel with
  | O => Throw OutOfFuel
  | S fuel =>
      if bi_hash from =? bi_hash to then Ok (mkReorg to revert (reverse apply))
      else if bi_slot to <? bi_slot from then
        from' ← of_option BadWeakPtr (parent_of nodes from);
        reorg_loop fuel nodes from' to (revert ++ [from]) apply
      else
        (* the second null check of the source tests [from]; a null [to] is used *)
        to' ← of_option UndefinedBehaviour (parent_of nodes to);
        reorg_loop fuel nodes from to' revert (apply ++ [to])
  end.

Definition reorg (nodes : Nodes) (from to : BlockIndex) : result Reorg :=
  reorg_loop (2 * tree_fuel nodes) nodes from to [] [].

(** [descend]: the nodes visited by the callback, and whether [to] was reached. *)
Fixpoint descend_loop (fuel : nat) (nodes : Nodes) (from to : BlockIndex)
    (visited : list BlockIndex) : result (bool * list BlockIndex) :=
  match fuel with
  | O => Throw OutOfFuel
  | S fuel =>
      if bi_hash from =? bi_hash to then Ok (true, visited)
      else if bi_slot from <=? bi_slot to then Ok (false, visited)
      else
        from' ← of_option BadWeakPtr (parent_of nodes from);
        descend_loop fuel nodes from' to (visited ++ [from])
  end.

Definition descend (nodes : Nodes) (from to : BlockIndex) : result (bool * list BlockIndex) :=
  descend_loop (tree_fuel nodes) nodes from to [].

Definition canDescend (nodes : Nodes) (from to : BlockIndex) : result bool :=
  r ← descend nodes from to; Ok r.1.

(** ** std::set<TreeNode, Cmp>: ordered by descending slot, one element per slot *)
Fixpoint candidates_emplace (p : BlockIndex) (c : list BlockIndex) : list BlockIndex :=
  match c with
  | [] => [p]
  | q :: c' =>
      if bi_slot q <? bi_slot p then p :: c
      else if bi_slot p <? bi_slot q then q :: candidates_emplace p c'
      else c
  end.

Section tree.
Context `{BuildMode} `{UnorderedMap}.

(** CachedTree::find *)
Definition find (t : CachedTree) (hash : BlockHash) : option BlockIndex :=
  tn_index <$> ct_nodes t !! hash.

(** The candidate set built from the leaves. *)
Definition leaf_candidates (t : CachedTree) : result (list BlockIndex) :=
  oc_foldl (λ c '(hash, _),
    node ← of_option BadOptionalAccess (find t hash);
    Ok (candidates_emplace node c)) [] (iteration (ct_leaves t)).

(** CachedTree::chooseBest (unused by the other operations) *)
Definition chooseBest (t : CachedTree) (node : BlockIndex) : result (bool * CachedTree) :=
  n ← deref (ct_nodes t) node;
  if tn_reverted n then Ok (false, t)
  else
    b ← deref (ct_nodes t) (ct_best t);
    _ ← boost_assert (negb (tn_reverted b));
    if weight (ct_best t) <? weight node then Ok (true, set_best node t) else Ok (false, t).

(** The loop of forceRefreshBest. *)
Fixpoint refresh_loop (fuel : nat) (nodes : Nodes) (candidates : list BlockIndex)
    (best : BlockIndex) : result BlockIndex :=
  match candidates with
  | [] => Ok best
  | node :: candidates =>
      match fuel with
      | O => Throw OutOfFuel
      | S fuel =>
          n ← deref nodes node;
          if tn_reverted n then
            refresh_loop fuel nodes
              (match parent_of nodes node with
               | Some parent => candidates_emplace parent candidates
               | None => candidates
               end) best
          else
            refresh_loop fuel nodes candidates
              (if weight best <? weight node then node else best)
      end
  end.

(** CachedTree::forceRefreshBest *)
Definition forceRefreshBest (t : CachedTree) : result CachedTree :=
  candidates ← leaf_candidates t;
  best ← refresh_loop (tree_fuel (ct_nodes t)) (ct_nodes t) candidates (ct_root t);
  Ok (set_best best t).

(** CachedTree::CachedTree *)
Definition CachedTree_new (root : BlockIndex) : CachedTree :=
  mkCachedTree root root root {[ bi_hash root := TreeNode_root root ]}
    {[ bi_hash root := bi_slot root ]}.

(** CachedTree::finalized, justified, best *)
Definition ct_finalized (t : CachedTree) : BlockIndex := ct_root t.

(** CachedTree::leafCount, leafInfo, leafHashes, isLeaf *)
Definition leafCount (t : CachedTree) : N := N.of_nat (size (ct_leaves t)).
Definition leafInfo (t : CachedTree) : list BlockIndex :=
  (λ '(h, s), mkBlockIndex s h) <$> iteration (ct_leaves t).
Definition leafHashes (t : CachedTree) : list BlockHash := (iteration (ct_leaves t)).*1.
Definition isLeaf (t : CachedTree) (hash : BlockHash) : bool :=
  bool_decide (hash ∈ dom (ct_leaves t)).

(** The loop of bestWith. *)
Fixpoint bestWith_loop (fuel : nat) (nodes : Nodes) (required : BlockIndex)
    (candidates : list BlockIndex) (best : BlockIndex) : result BlockIndex :=
  match candidates with
  | [] => Ok best
  | node :: candidates =>
      match fuel with
      | O => Throw OutOfFuel
      | S fuel =>
          if bi_slot node <=? bi_slot required
          then bestWith_loop fuel nodes required candidates best
          else
            n ← deref nodes node;
            if tn_reverted n then
              bestWith_loop fuel nodes required
                (match parent_of nodes node with
                 | Some parent => candidates_emplace parent candidates
                 | None => candidates
                 end) best
            else if weight best <? weight node then
              ok ← canDescend nodes node required;
              bestWith_loop fuel nodes required candidates
                (if (ok : bool) then node else best)
            else bestWith_loop fuel nodes required candidates best
      end
  end.

(** CachedTree::bestWith *)
Definition bestWith (t : CachedTree) (required : BlockIndex) : result BlockIndex :=
  candidates ← leaf_candidates t;
  bestWith_loop (tree_fuel (ct_nodes t)) (ct_nodes t) required candidates required.

(** CachedTree::add, for a node constructed with TreeNode(info, parent). *)
Definition add (t : CachedTree) (new_node : TreeNode) : result (option Reorg * CachedTree) :=
  let index := tn_index new_node in
  match ct_nodes t !! bi_hash index with
  | Some _ => Ok (None, t)
  | None =>
      _ ← boost_assert (bool_decide (tn_children new_node = []));
      parent ← of_option BadWeakPtr (tn_parent new_node);
      parent_node ← of_option BadWeakPtr (ct_nodes t !! bi_hash parent);
      _ ← boost_assert (bool_decide (index ∉ tn_children parent_node));
      let new_node := mkTreeNode index (tn_parent new_node)
                        ((tn_depth parent_node + 1) mod 2 ^ 32) (tn_reverted new_node)
                        (tn_children new_node) in
      let nodes := <[bi_hash index := new_node]>
                     (<[bi_hash parent :=
                          set_children (tn_children parent_node ++ [index]) parent_node]>
                        (ct_nodes t)) in
      let leaves := emplace (bi_hash index) (bi_slot index) (delete (bi_hash parent) (ct_leaves t)) in
      let t' := mkCachedTree (ct_root t) (ct_justified t) (ct_best t) nodes leaves in
      if negb (tn_reverted new_node) && (weight (ct_best t) <? weight index) then
        r ← reorg nodes (ct_best t) index;
        Ok (Some r, set_best index t')
      else Ok (None, t')
  end.

(** First loop of finalize: drops the ancestors of the new root from [nodes_] and
    queues their other children. *)
Fixpoint finalize_ancestors (fuel : nat) (nodes : Nodes) (finalized_child : BlockIndex)
    (queue : list BlockIndex) : result (Nodes * list BlockIndex) :=
  match parent_of nodes finalized_child with
  | None => Ok (nodes, queue)
  | Some parent =>
      match fuel with
      | O => Throw OutOfFuel
      | S fuel =>
          n ← deref nodes parent;
          r ← finalize_ancestors fuel nodes parent
                (queue ++ filter (λ c, bi_hash c ≠ bi_hash finalized_child) (tn_children n));
          Ok (delete (bi_hash parent) r.1, r.2)
      end
  end.

(** Second loop of finalize: removes the queued subtrees breadth first. *)
Fixpoint finalize_prune (fuel : nat) (nodes : Nodes) (leaves : gmap BlockHash Slot)
    (queue prune : list BlockIndex) : result (Nodes * gmap BlockHash Slot * list BlockIndex) :=
  match queue with
  | [] => Ok (nodes, leaves, prune)
  | parent :: queue =>
      match fuel with
      | O => Throw OutOfFuel
      | S fuel =>
          n ← deref nodes parent;
          finalize_prune fuel (delete (bi_hash parent) nodes)
            (match tn_children n with [] => delete (bi_hash parent) leaves | _ => leaves end)
            (queue ++ tn_children n) (prune ++ [parent])
      end
  end.

(** CachedTree::finalize *)
Definition finalize (t : CachedTree) (new_finalized : BlockIndex)
    : result (ReorgAndPrune * CachedTree) :=
  _ ← boost_assert (bi_slot (ct_root t) <=? bi_slot new_finalized);
  if bi_hash new_finalized =? bi_hash (ct_root t) then Ok (mkReorgAndPrune None [], t)
  else
    _ ← boost_assert (bool_decide (is_Some (parent_of (ct_nodes t) new_finalized)));
    best_descends ← canDescend (ct_nodes t) (ct_best t) new_finalized;
    reorg1 ← (if negb best_descends
              then r ← reorg (ct_nodes t) (ct_best t) new_finalized; Ok (Some r)
              else Ok None);
    anc ← finalize_ancestors (tree_fuel (ct_nodes t)) (ct_nodes t) new_finalized [];
    pruned ← finalize_prune (tree_fuel (ct_nodes t)) anc.1 (ct_leaves t) anc.2 [];
    let '(nodes, leaves, prune) := pruned in
    let nodes := alter (set_parent None) (bi_hash new_finalized) nodes in
    let t' := mkCachedTree new_finalized (ct_justified t) (ct_best t) nodes leaves in
    match reorg1 with
    | None => Ok (mkReorgAndPrune None (reverse prune), t')
    | Some r =>
        t'' ← forceRefreshBest t';
        d ← descend nodes (ct_best t'') new_finalized;
        _ ← boost_assert d.1;
        Ok (mkReorgAndPrune
              (Some (mkReorg (rg_common r) (rg_revert r) (rg_apply r ++ reverse d.2)))
              (reverse prune), t'')
    end.

(** CachedTree::setJustified *)
Definition setJustified (t : CachedTree) (new_justified : BlockIndex) : CachedTree :=
  mkCachedTree (ct_root t) new_justified (ct_best t) (ct_nodes t) (ct_leaves t).

(** Erasing the first occurrence of a pointer. *)
Fixpoint erase_child (h : BlockHash) (c : list BlockIndex) : list BlockIndex :=
  match c with
  | [] => []
  | x :: c => if bi_hash x =? h then c else x :: erase_child h c
  end.

(** CachedTree::removeLeaf.  A missing node, leaf or child is an end iterator: the
    assertion fires, or its use is undefined. *)
Definition removeLeaf (t : CachedTree) (hash : BlockHash)
    : result (ReorgAndPrune * CachedTree) :=
  _ ← boost_assert (bool_decide (hash ∈ dom (ct_nodes t)));
  n ← of_option UndefinedBehaviour (ct_nodes t !! hash);
  _ ← boost_assert (isLeaf t hash);
  _ ← boost_assert (bool_decide (tn_children n = []));
  parent ← of_option BadWeakPtr (parent_of (ct_nodes t) (tn_index n));
  parent_node ← deref (ct_nodes t) parent;
  _ ← boost_assert (bool_decide (hash ∈ bi_hash <$> tn_children parent_node));
  _ ← (if bool_decide (hash ∈ bi_hash <$> tn_children parent_node)
       then Ok () else Throw UndefinedBehaviour);
  let children := erase_child hash (tn_children parent_node) in
  let nodes := <[bi_hash parent := set_children children parent_node]> (ct_nodes t) in
  _ ← (if isLeaf t hash then Ok () else Throw UndefinedBehaviour);
  let leaves := delete hash
    (match children with
     | [] => emplace (bi_hash parent) (bi_slot parent) (ct_leaves t)
     | _ => ct_leaves t
     end) in
  let t' := mkCachedTree (ct_root t) (ct_justified t) (ct_best t) nodes leaves in
  if hash =? bi_hash (ct_best t) then
    t'' ← forceRefreshBest t';
    r ← reorg nodes (tn_index n) (ct_best t'');
    Ok (mkReorgAndPrune (Some r) [tn_index n], set_nodes (delete hash nodes) t'')
  else
    Ok (mkReorgAndPrune None [tn_index n], set_nodes (delete hash nodes) t').

(** The breadth-first loop of removeUnfinalized. *)
Fixpoint unfinalized_loop (fuel : nat) (nodes : Nodes) (queue prune : list BlockIndex)
    : result (list BlockIndex) :=
  match queue with
  | [] => Ok prune
  | parent :: queue =>
      match fuel with
      | O => Throw OutOfFuel
      | S fuel =>
          n ← deref nodes parent;
          unfinalized_loop fuel (<[bi_hash parent := set_children [] n]> nodes)
            (queue ++ tn_children n) (prune ++ tn_children n)
      end
  end.

(** CachedTree::removeUnfinalized *)
Definition removeUnfinalized (t : CachedTree) : result (ReorgAndPrune * CachedTree) :=
  reorg1 ← (if negb (bi_hash (ct_best t) =? bi_hash (ct_root t))
            then r ← reorg (ct_nodes t) (ct_best t) (ct_root t); Ok (Some r)
            else Ok None);
  prune ← unfinalized_loop (tree_fuel (ct_nodes t)) (ct_nodes t) [ct_root t] [];
  Ok (mkReorgAndPrune reorg1 (reverse prune), CachedTree_new (ct_root t)).
End tree.
