(* ===== verification/CachedTreeProofs.v ===== *)
(** * CachedTree: invariant and lemmas *)

From S2P Require Import Prelude Errors Types CachedTree.

(** [p] points to a node of the tree. *)
Definition valid (nodes : Nodes) (p : BlockIndex) : Prop :=
  ∃ n, nodes !! bi_hash p = Some n ∧ tn_index n = p.

(** ** The shape invariant: a tree of valid pointers with increasing slots *)
Record nodes_wf (root : BlockIndex) (nodes : Nodes) : Prop := {
  nw_key : ∀ h n, nodes !! h = Some n → bi_hash (tn_index n) = h;
  nw_root : ∃ n, nodes !! bi_hash root = Some n ∧ tn_index n = root ∧ tn_parent n = None;
  nw_parent : ∀ h n, nodes !! h = Some n → h ≠ bi_hash root →
    ∃ p pn, tn_parent n = Some p ∧ nodes !! bi_hash p = Some pn ∧ tn_index pn = p ∧
      bi_slot p < bi_slot (tn_index n) ∧ tn_index n ∈ tn_children pn;
  nw_children : ∀ h n c, nodes !! h = Some n → c ∈ tn_children n →
    ∃ cn, nodes !! bi_hash c = Some cn ∧ tn_index cn = c ∧ tn_parent cn = Some (tn_index n);
  nw_nodup : ∀ h n, nodes !! h = Some n → NoDup (tn_children n);
  nw_reverted : ∀ h n, nodes !! h = Some n → tn_reverted n = false;
}.

(** The leaves are the nodes without children, with their slots. *)
Definition leaves_wf (nodes : Nodes) (leaves : gmap BlockHash Slot) : Prop :=
  ∀ h s, leaves !! h = Some s ↔
    ∃ n, nodes !! h = Some n ∧ tn_children n = [] ∧ bi_slot (tn_index n) = s.

Definition best_wf (nodes : Nodes) (best : BlockIndex) : Prop :=
  valid nodes best ∧ ∀ p, valid nodes p → bi_slot p ≤ bi_slot best.

Record tree_wf (t : CachedTree) : Prop := {
  tw_nodes : nodes_wf (ct_root t) (ct_nodes t);
  tw_leaves : leaves_wf (ct_nodes t) (ct_leaves t);
  tw_best : best_wf (ct_nodes t) (ct_best t);
}.

(** [anc nodes a p]: [a] is [p] or one of its ancestors. *)
Inductive anc (nodes : Nodes) (a : BlockIndex) : BlockIndex → Prop :=
| anc_refl : valid nodes a → anc nodes a a
| anc_up p q : parent_of nodes q = Some p → anc nodes a p → anc nodes a q.

(** [up nodes q a l]: [l] lists the nodes from [q] up to, but without, [a]. *)
Inductive up (nodes : Nodes) (a : BlockIndex) : BlockIndex → list BlockIndex → Prop :=
| up_nil : up nodes a a []
| up_cons p q l : parent_of nodes q = Some p → up nodes a p l → up nodes a q (q :: l).

(** How many nodes lie at lower slots: a bound on the way up. *)
Definition height (nodes : Nodes) (p : BlockIndex) : nat :=
  size (filter (λ '(_, n), bi_slot (tn_index n) < bi_slot p) nodes).

Section nodes.
Context (root : BlockIndex) (nodes : Nodes) (Hwf : nodes_wf root nodes).

Lemma valid_node h n : nodes !! h = Some n → valid nodes (tn_index n).
Proof. intros Hn. exists n. by rewrite (nw_key _ _ Hwf _ _ Hn). Qed.

Lemma valid_inj p q : valid nodes p → valid nodes q → bi_hash p = bi_hash q → p = q.
Proof. intros (n & Hn & <-) (m & Hm & <-) Heq. congruence. Qed.

Lemma valid_root : valid nodes root.
Proof. destruct (nw_root _ _ Hwf) as (n & Hn & Hi & _). by exists n. Qed.

Lemma parent_of_root : parent_of nodes root = None.
Proof.
  destruct (nw_root _ _ Hwf) as (n & Hn & Hi & Hp). unfold parent_of. rewrite Hn. simpl.
  by rewrite Hp.
Qed.

Lemma parent_of_child q p cn :
  nodes !! bi_hash q = Some cn → tn_index cn = q → parent_of nodes q = Some p →
  valid nodes p ∧ bi_slot p < bi_slot q ∧ tn_parent cn = Some p ∧
  ∃ pn, nodes !! bi_hash p = Some pn ∧ tn_index pn = p ∧ q ∈ tn_children pn.
Proof.
  intros Hq Hi Hp. destruct (decide (bi_hash q = bi_hash root)) as [Heq|Hne].
  { assert (q = root) as -> by (apply valid_inj; [by exists cn|apply valid_root|done]).
    by rewrite parent_of_root in Hp. }
  destruct (nw_parent _ _ Hwf _ _ Hq Hne) as (p' & pn & Hpar & Hpn & Hpi & Hlt & Hin).
  unfold parent_of in Hp. rewrite Hq in Hp. simpl in Hp. rewrite Hpar in Hp. simpl in Hp.
  rewrite Hpn in Hp. injection Hp as <-. rewrite Hi in *.
  split; [by exists pn|]. split; [done|]. split; [done|]. by exists pn.
Qed.

Lemma parent_of_valid q p :
  valid nodes q → parent_of nodes q = Some p → valid nodes p ∧ bi_slot p < bi_slot q.
Proof.
  intros (cn & Hq & Hi) Hp. destruct (parent_of_child q p cn Hq Hi Hp) as (? & ? & _). done.
Qed.

Lemma parent_of_is_Some q : valid nodes q → q ≠ root → ∃ p, parent_of nodes q = Some p.
Proof.
  intros (n & Hn & Hi) Hne. destruct (nw_parent _ _ Hwf _ _ Hn) as (p & pn & Hp & Hpn & _).
  { intros Heq. apply Hne. apply valid_inj; [by exists n|apply valid_root|done]. }
  exists p. unfold parent_of. rewrite Hn. simpl. rewrite Hp. simpl. by rewrite Hpn.
Qed.

Lemma parent_of_source q p : parent_of nodes q = Some p → is_Some (nodes !! bi_hash q).
Proof. unfold parent_of. destruct (nodes !! bi_hash q); [by eauto|done]. Qed.

Lemma child_parent h n c :
  nodes !! h = Some n → c ∈ tn_children n →
  valid nodes c ∧ parent_of nodes c = Some (tn_index n).
Proof.
  intros Hn Hc. destruct (nw_children _ _ Hwf _ _ _ Hn Hc) as (cn & Hcn & Hi & Hp).
  split; [by exists cn|]. unfold parent_of. rewrite Hcn. simpl. rewrite Hp. simpl.
  by rewrite (nw_key _ _ Hwf _ _ Hn), Hn.
Qed.

Lemma anc_valid a q : valid nodes q → anc nodes a q → valid nodes a.
Proof.
  intros Hq Ha. induction Ha as [|p q Hp _ IH]; [done|]. apply IH.
  by eapply parent_of_valid in Hp as [? _].
Qed.

Lemma anc_slot a q : valid nodes q → anc nodes a q → bi_slot a ≤ bi_slot q ∧ (bi_slot a = bi_slot q → a = q).
Proof.
  intros Hq Ha. induction Ha as [|p q Hp _ IH]; [done|].
  destruct (parent_of_valid _ _ Hq Hp) as [Hpv Hlt]. specialize (IH Hpv). lia.
Qed.

Lemma anc_trans a b q : anc nodes a b → anc nodes b q → anc nodes a q.
Proof. intros Hab Hbq. induction Hbq; [done|]. by econstructor. Qed.

(** Induction along the parents. *)
Lemma parent_ind (P : BlockIndex → Prop) :
  (∀ q, valid nodes q → (∀ p, parent_of nodes q = Some p → P p) → P q) →
  ∀ q, valid nodes q → P q.
Proof.
  intros Hstep q. remember (N.to_nat (bi_slot q)) as k eqn:Hk. revert q Hk.
  induction (lt_wf k) as [k _ IH]. intros q -> Hq. apply Hstep; [done|]. intros p Hp.
  destruct (parent_of_valid _ _ Hq Hp) as [Hpv Hlt]. eapply IH; [|done|done]. lia.
Qed.

Lemma anc_root q : valid nodes q → anc nodes root q.
Proof.
  revert q. apply parent_ind. intros q Hq IH.
  destruct (decide (q = root)) as [->|Hne]; [by constructor|].
  destruct (parent_of_is_Some q Hq Hne) as [p Hp]. econstructor; [done|by apply IH].
Qed.

Lemma anc_linear a b q : anc nodes a q → anc nodes b q → anc nodes a b ∨ anc nodes b a.
Proof.
  intros Ha Hb. induction Ha as [|p q Hp Ha IH]; [by right|].
  inversion Hb as [|p' q' Hp' Hb']; subst.
  - left. by econstructor.
  - apply IH. congruence.
Qed.

Lemma up_anc a q l : valid nodes q → up nodes a q l → anc nodes a q.
Proof.
  intros Hq Hu. induction Hu as [|p q l Hp _ IH]; [by constructor|].
  econstructor; [done|]. apply IH. by eapply parent_of_valid in Hp as [? _].
Qed.

Lemma up_app a b q l1 l2 : up nodes b q l1 → up nodes a b l2 → up nodes a q (l1 ++ l2).
Proof. induction 1; [done|]. intros. simpl. econstructor; eauto. Qed.

Lemma up_snoc a b q l : up nodes b q l → parent_of nodes b = Some a → up nodes a q (l ++ [b]).
Proof. intros Hu Hp. eapply up_app; [done|]. by repeat econstructor. Qed.

Lemma height_parent q p :
  valid nodes q → parent_of nodes q = Some p → (height nodes p < height nodes q)%nat.
Proof.
  intros Hq Hp. destruct (parent_of_valid _ _ Hq Hp) as [(n & Hn & Hi) Hlt].
  unfold height. apply map_subset_size. split.
  - apply map_subseteq_spec. intros h m. rewrite !map_lookup_filter_Some. intros [? ?]. lia || (split; [done|lia]).
  - intros Hsub. eapply (lookup_weaken _ _ (bi_hash p) n) in Hsub.
    + apply map_lookup_filter_Some in Hsub as [_ Hs]. rewrite Hi in Hs. lia.
    + apply map_lookup_filter_Some. rewrite Hi. done.
Qed.

Lemma height_fuel q : (height nodes q < tree_fuel nodes)%nat.
Proof.
  unfold height, tree_fuel. apply Nat.lt_succ_r. apply map_subseteq_size, map_filter_subseteq.
Qed.

(** ** Walking up *)
Lemma descend_loop_spec fuel from to visited start :
  (height nodes from < fuel)%nat → valid nodes from → valid nodes to →
  up nodes from start visited →
  ∃ b visited', descend_loop fuel nodes from to visited = Ok (b, visited') ∧
    (b = true ↔ anc nodes to from) ∧ (b = true → up nodes to start visited').
Proof.
  revert from visited. induction fuel as [|fuel IH]; intros from visited Hf Hfr Hto Hup; [lia|].
  simpl. destruct (N.eqb_spec (bi_hash from) (bi_hash to)) as [Heq|Hne].
  { apply valid_inj in Heq as ->; [|done..]. exists true, visited.
    split; [done|]. split; [|done]. split; [by constructor|done]. }
  destruct (N.leb_spec (bi_slot from) (bi_slot to)) as [Hle|Hlt].
  { exists false, visited. split; [done|]. split; [|done]. split; [done|].
    intros Ha. destruct (anc_slot _ _ Hfr Ha) as [Hs Heq]. exfalso. apply Hne. by rewrite Heq by lia. }
  destruct (parent_of_is_Some from Hfr) as [p Hp].
  { intros ->. destruct (anc_slot _ _ Hto (anc_root _ Hto)). lia. }
  rewrite Hp. simpl. destruct (parent_of_valid _ _ Hfr Hp) as [Hpv Hps].
  pose proof (height_parent _ _ Hfr Hp).
  destruct (IH p (visited ++ [from])) as (b & v' & Hd & Hb & Hu); [lia|done|done|by eapply up_snoc|].
  exists b, v'. split; [done|]. split; [|done]. rewrite Hb. split.
  - intros Ha. by econstructor.
  - intros Ha. inversion Ha; subst; [done|]. congruence.
Qed.

Lemma descend_spec from to :
  valid nodes from → valid nodes to →
  ∃ b visited, descend nodes from to = Ok (b, visited) ∧
    (b = true ↔ anc nodes to from) ∧ (b = true → up nodes to from visited).
Proof.
  intros Hf Ht. apply descend_loop_spec; [|done|done|constructor]. apply height_fuel.
Qed.

Lemma canDescend_spec from to :
  valid nodes from → valid nodes to →
  ∃ b, canDescend nodes from to = Ok b ∧ (b = true ↔ anc nodes to from).
Proof.
  intros Hf Ht. destruct (descend_spec from to Hf Ht) as (b & v & Hd & Hb & _).
  exists b. unfold canDescend. by rewrite Hd.
Qed.

Lemma reorg_loop_spec fuel from to revert apply from0 to0 :
  (height nodes from + height nodes to < fuel)%nat →
  valid nodes from → valid nodes to →
  up nodes from from0 revert → up nodes to to0 apply →
  (∀ a, anc nodes a from0 → anc nodes a to0 → anc nodes a from ∧ anc nodes a to) →
  ∃ r, reorg_loop fuel nodes from to revert apply = Ok r ∧
    valid nodes (rg_common r) ∧
    up nodes (rg_common r) from0 (rg_revert r) ∧
    up nodes (rg_common r) to0 (reverse (rg_apply r)) ∧
    (∀ a, anc nodes a from0 → anc nodes a to0 → anc nodes a (rg_common r)).
Proof.
  revert from to revert apply.
  induction fuel as [|fuel IH]; intros from to revert apply Hf Hfv Htv Hfu Htu Hlca; [lia|].
  simpl. destruct (N.eqb_spec (bi_hash from) (bi_hash to)) as [Heq|Hne].
  { apply valid_inj in Heq as ->; [|done..]. eexists. split; [done|]. simpl.
    rewrite reverse_involutive. split; [done|]. split; [done|]. split; [done|].
    intros a Ha1 Ha2. by apply Hlca. }
  destruct (N.ltb_spec (bi_slot to) (bi_slot from)) as [Hlt|Hge].
  - destruct (parent_of_is_Some from Hfv) as [p Hp].
    { intros ->. destruct (anc_slot _ _ Htv (anc_root _ Htv)). lia. }
    rewrite Hp. simpl. destruct (parent_of_valid _ _ Hfv Hp) as [Hpv Hps].
    pose proof (height_parent _ _ Hfv Hp).
    apply IH; [lia|done|done|by eapply up_snoc|done|].
    intros a Ha1 Ha2. destruct (Hlca a Ha1 Ha2) as [Ha3 Ha4]. split; [|done].
    inversion Ha3; subst; [|congruence]. destruct (anc_slot _ _ Htv Ha4). lia.
  - destruct (parent_of_is_Some to Htv) as [p Hp].
    { intros ->. destruct (anc_slot _ _ Hfv (anc_root _ Hfv)) as [Hs Hroot].
      apply Hne. rewrite <- Hroot by lia. done. }
    rewrite Hp. simpl. destruct (parent_of_valid _ _ Htv Hp) as [Hpv Hps].
    pose proof (height_parent _ _ Htv Hp).
    apply IH; [lia|done|done|done|by eapply up_snoc|].
    intros a Ha1 Ha2. destruct (Hlca a Ha1 Ha2) as [Ha3 Ha4]. split; [done|].
    inversion Ha4; subst; [|congruence]. destruct (anc_slot _ _ Hfv Ha3) as [? Heq'].
    exfalso. apply Hne. by rewrite Heq' by lia.
Qed.

(** [reorg] computes the way from one node to another through their lowest common
    ancestor. *)
Definition reorg_path (from to : BlockIndex) (r : Reorg) : Prop :=
  valid nodes (rg_common r) ∧
  up nodes (rg_common r) from (rg_revert r) ∧
  up nodes (rg_common r) to (reverse (rg_apply r)) ∧
  (∀ a, anc nodes a from → anc nodes a to → anc nodes a (rg_common r)).

Lemma reorg_spec from to :
  valid nodes from → valid nodes to →
  ∃ r, reorg nodes from to = Ok r ∧ reorg_path from to r.
Proof.
  intros Hf Ht. unfold reorg.
  destruct (reorg_loop_spec (2 * tree_fuel nodes) from to [] [] from to)
    as (r & Hr & Hv & Hu1 & Hu2 & Hl); [|done|done|constructor|constructor|done|].
  - pose proof (height_fuel from). pose proof (height_fuel to). lia.
  - exists r. by split.
Qed.
End nodes.

(** ** Choosing the best leaf *)
Section best.
Context `{BuildMode} `{UnorderedMap}.

Lemma elem_of_candidates_emplace p q c :
  q ∈ candidates_emplace p c → q = p ∨ q ∈ c.
Proof.
  induction c as [|x c IH]; simpl; [set_solver|]. repeat case_match; set_solver.
Qed.

Lemma candidates_emplace_slots p c q :
  q ∈ p :: c → ∃ q', q' ∈ candidates_emplace p c ∧ bi_slot q' = bi_slot q.
Proof.
  induction c as [|x c IH]; simpl; [intros; exists q; done|].
  destruct (N.ltb_spec (bi_slot x) (bi_slot p)); [intros; by exists q|].
  destruct (N.ltb_spec (bi_slot p) (bi_slot x)).
  - rewrite !elem_of_cons. intros [->|[->|Hq]].
    + destruct IH as (q' & ? & ?); [by left|]. exists q'. by split; [right|].
    + exists x. by split; [left|].
    + destruct IH as (q' & ? & ?); [by right|]. exists q'. by split; [right|].
  - rewrite !elem_of_cons. intros [->|Hq].
    + exists x. split; [by left|lia].
    + exists q. set_solver.
Qed.

Lemma candidates_emplace_length p c : (length (candidates_emplace p c) ≤ S (length c))%nat.
Proof. induction c as [|x c IH]; simpl; [lia|]. repeat case_match; simpl; lia. Qed.

(** What the choice of the best leaf needs to know about the leaves. *)
Definition leaves_ok (t : CachedTree) : Prop :=
  ∀ h s, ct_leaves t !! h = Some s →
    ∃ n, ct_nodes t !! h = Some n ∧ bi_hash (tn_index n) = h ∧ bi_slot (tn_index n) = s ∧
      tn_reverted n = false.

Definition is_leaf_ptr (t : CachedTree) (p : BlockIndex) : Prop :=
  ct_leaves t !! bi_hash p = Some (bi_slot p).

Lemma leaf_candidates_fold t (l : list (BlockHash * Slot)) c0 :
  leaves_ok t → (∀ h s, (h, s) ∈ l → ct_leaves t !! h = Some s) →
  (∀ p, p ∈ c0 → is_leaf_ptr t p ∧ valid (ct_nodes t) p) →
  ∃ c, oc_foldl (λ c '(hash, _), node ← of_option BadOptionalAccess (find t hash);
         Ok (candidates_emplace node c)) c0 l = (Ok c : result _) ∧
    (∀ p, p ∈ c → is_leaf_ptr t p ∧ valid (ct_nodes t) p) ∧
    (∀ p, p ∈ c0 → ∃ q, q ∈ c ∧ bi_slot q = bi_slot p) ∧
    (∀ h s, (h, s) ∈ l → ∃ q, q ∈ c ∧ bi_slot q = s) ∧
    (length c ≤ length c0 + length l)%nat.
Proof.
  intros Hok. revert c0. induction l as [|[h s] l IH]; intros c0 Hl Hc0; simpl.
  { exists c0. split; [done|]. split; [done|]. split; [by eauto|]. split; [|lia].
    intros h s Hh. by apply not_elem_of_nil in Hh. }
  destruct (Hok h s) as (n & Hn & Hnh & Hns & _); [apply Hl; by left|].
  unfold find. rewrite Hn. simpl.
  destruct (IH (candidates_emplace (tn_index n) c0)) as (c & Hc & Hin & Hold & Hnew & Hlen).
  { intros. apply Hl. by right. }
  { intros p [->|Hp]%elem_of_candidates_emplace; [|by apply Hc0].
    unfold is_leaf_ptr. rewrite Hnh, Hns. split; [apply Hl; by left|].
    exists n. by rewrite Hnh. }
  exists c. split; [done|]. split; [done|].
  assert (Hemp : ∀ p, p ∈ tn_index n :: c0 → ∃ q, q ∈ c ∧ bi_slot q = bi_slot p).
  { intros p (q & Hq & Hqs)%candidates_emplace_slots. destruct (Hold q Hq) as (q' & ? & ?).
    exists q'. split; [done|congruence]. }
  split; [intros p Hp; apply Hemp; by right|]. split.
  - intros h' s' [[= -> ->]|Hin']%elem_of_cons; [|by eapply Hnew].
    destruct (Hemp (tn_index n)) as (q & ? & ?); [by left|]. exists q. split; [done|congruence].
  - pose proof (candidates_emplace_length (tn_index n) c0). lia.
Qed.

Lemma leaf_candidates_spec t :
  leaves_ok t →
  ∃ c, leaf_candidates t = Ok c ∧
    (∀ p, p ∈ c → is_leaf_ptr t p ∧ valid (ct_nodes t) p) ∧
    (∀ h s, ct_leaves t !! h = Some s → ∃ q, q ∈ c ∧ bi_slot q = s) ∧
    (length c ≤ size (ct_nodes t))%nat.
Proof.
  intros Hok. destruct (leaf_candidates_fold t (iteration (ct_leaves t)) [] Hok)
    as (c & Hc & Hin & _ & Hnew & Hlen).
  { intros h s. by rewrite iteration_perm, elem_of_map_to_list. }
  { intros p Hp. by apply not_elem_of_nil in Hp. }
  exists c. split; [done|]. split; [done|]. split.
  - intros h s Hs. apply (Hnew h). by rewrite iteration_perm, elem_of_map_to_list.
  - rewrite iteration_perm in Hlen. rewrite length_map_to_list in Hlen. simpl in Hlen. etrans; [done|].
    rewrite <- !size_dom. apply subseteq_size. intros h Hh%elem_of_dom.
    destruct Hh as [s Hs]. destruct (Hok h s Hs) as (n & Hn & _). by eapply elem_of_dom_2.
Qed.

Lemma refresh_loop_spec fuel nodes c best :
  (length c ≤ fuel)%nat → (∀ h n, nodes !! h = Some n → tn_reverted n = false) →
  (∀ p, p ∈ c → valid nodes p) →
  ∃ best', refresh_loop fuel nodes c best = Ok best' ∧
    (best' = best ∨ best' ∈ c) ∧ bi_slot best ≤ bi_slot best' ∧
    (∀ p, p ∈ c → bi_slot p ≤ bi_slot best').
Proof.
  intros Hlen Hrev. revert fuel best Hlen. induction c as [|p c IH]; intros fuel best Hlen Hc; simpl.
  { destruct fuel; exists best; (split; [done|]); (split; [by left|]); (split; [done|]);
      intros p Hp; by apply not_elem_of_nil in Hp. }
  destruct fuel as [|fuel]; [simpl in Hlen; lia|]. simpl.
  destruct (Hc p) as (n & Hn & Hi); [by left|]. unfold deref. rewrite Hn. simpl.
  rewrite (Hrev _ _ Hn). set (b1 := if weight best <? weight p then p else best).
  assert (Hb1 : (b1 = best ∨ b1 = p) ∧ bi_slot best ≤ bi_slot b1 ∧ bi_slot p ≤ bi_slot b1).
  { unfold b1, weight. destruct (N.ltb_spec (bi_slot best) (bi_slot p)).
    - split; [by right|]. lia.
    - split; [by left|]. lia. }
  destruct (IH fuel b1) as (b & Hb & Hin & Hle & Hmax); [simpl in Hlen; lia|intros; apply Hc; by right|].
  exists b. split; [done|]. split; [|split].
  - destruct Hin as [->|?]; [|by right; right]. destruct Hb1 as [[->| ->] _]; [by left|right; by left].
  - lia.
  - intros q [->|Hq]%elem_of_cons; [lia|by apply Hmax].
Qed.

(** The refreshed best is the root or a leaf, and no leaf has a later slot. *)
Lemma forceRefreshBest_spec t :
  leaves_ok t → (∀ h n, ct_nodes t !! h = Some n → tn_reverted n = false) →
  ∃ b, forceRefreshBest t = Ok (set_best b t) ∧
    (b = ct_root t ∨ is_leaf_ptr t b ∧ valid (ct_nodes t) b) ∧
    bi_slot (ct_root t) ≤ bi_slot b ∧
    (∀ h s, ct_leaves t !! h = Some s → s ≤ bi_slot b).
Proof.
  intros Hok Hrev. destruct (leaf_candidates_spec t Hok) as (c & Hc & Hin & Hall & Hlen).
  unfold forceRefreshBest. rewrite Hc. cbn [mbind outcome_bind].
  destruct (refresh_loop_spec (tree_fuel (ct_nodes t)) (ct_nodes t) c (ct_root t))
    as (b & Hb & Hbin & Hle & Hmax); [unfold tree_fuel; lia|done|intros; by apply Hin|].
  rewrite Hb. exists b. split; [done|]. split; [|split].
  - destruct Hbin as [?|?]; [by left|right; by apply Hin].
  - done.
  - intros h s Hs. destruct (Hall h s Hs) as (q & Hq & <-). by apply Hmax.
Qed.

(** How many nodes lie at later slots: a bound on the way down. *)
Definition above (nodes : Nodes) (p : BlockIndex) : nat :=
  size (filter (λ '(_, n), bi_slot p < bi_slot (tn_index n)) nodes).

Lemma above_child root nodes q n c :
  nodes_wf root nodes → nodes !! bi_hash q = Some n → tn_index n = q → c ∈ tn_children n →
  (above nodes c < above nodes q)%nat.
Proof.
  intros Hw Hn Hi Hc. destruct (child_parent _ _ Hw _ _ _ Hn Hc) as [Hv Hp].
  destruct (parent_of_valid _ _ Hw _ _ Hv Hp) as [_ Hlt]. rewrite Hi in Hlt.
  destruct Hv as (cn & Hcn & Hci). unfold above. apply map_subset_size. split.
  - apply map_subseteq_spec. intros h m. rewrite !map_lookup_filter_Some.
    intros [? ?]. split; [done|lia].
  - intros Hsub. eapply (lookup_weaken _ _ (bi_hash c) cn) in Hsub.
    + apply map_lookup_filter_Some in Hsub as [_ Hs]. rewrite Hci in Hs. lia.
    + apply map_lookup_filter_Some. rewrite Hci. done.
Qed.

Lemma above_fuel nodes q : (above nodes q < tree_fuel nodes)%nat.
Proof. unfold above, tree_fuel. apply Nat.lt_succ_r. apply map_subseteq_size, map_filter_subseteq. Qed.

(** Every node has a leaf among its descendants. *)
Lemma leaf_descendant root nodes p :
  nodes_wf root nodes → valid nodes p →
  ∃ q n, nodes !! bi_hash q = Some n ∧ tn_index n = q ∧ tn_children n = [] ∧ anc nodes p q.
Proof.
  intros Hwf. remember (above nodes p) as k eqn:Hk. revert p Hk.
  induction (lt_wf k) as [k _ IH]. intros p -> (n & Hn & Hi).
  destruct (tn_children n) as [|c cs] eqn:Hch.
  { exists p, n. split_and!; try done. constructor. by exists n. }
  assert (Hc : c ∈ tn_children n) by (rewrite Hch; by left).
  destruct (child_parent _ _ Hwf _ _ _ Hn Hc) as [Hcv Hcp]. rewrite Hi in Hcp.
  edestruct IH as (q & m & ? & ? & ? & Hq); [by eapply above_child|done|done|].
  exists q, m. split_and!; try done. apply (anc_trans nodes p c q); [|exact Hq].
  eapply anc_up; [done|]. constructor. by exists n.
Qed.

(** Every node has a leaf at or above its slot. *)
Lemma leaf_above root nodes p :
  nodes_wf root nodes → valid nodes p →
  ∃ h n, nodes !! h = Some n ∧ tn_children n = [] ∧ bi_slot p ≤ bi_slot (tn_index n).
Proof.
  intros Hwf Hp. destruct (leaf_descendant _ _ _ Hwf Hp) as (q & n & Hn & Hi & Hc & Ha).
  exists (bi_hash q), n. split_and!; try done. rewrite Hi.
  eapply (anc_slot root nodes Hwf) in Ha as [? _]; [done|by exists n].
Qed.

Lemma leaves_wf_ok t :
  nodes_wf (ct_root t) (ct_nodes t) → leaves_wf (ct_nodes t) (ct_leaves t) → leaves_ok t.
Proof.
  intros Hn Hl h s (n & Hh & _ & Hs)%Hl. exists n. split; [done|].
  split; [by eapply nw_key|]. split; [done|by eapply nw_reverted].
Qed.

(** After a refresh of a well-formed tree the best is a node with the latest slot. *)
Lemma forceRefreshBest_wf t :
  nodes_wf (ct_root t) (ct_nodes t) → leaves_wf (ct_nodes t) (ct_leaves t) →
  ∃ b, forceRefreshBest t = Ok (set_best b t) ∧ best_wf (ct_nodes t) b.
Proof.
  intros Hn Hl. destruct (forceRefreshBest_spec t) as (b & Hb & Hin & Hr & Hmax).
  { by apply leaves_wf_ok. }
  { by eapply nw_reverted. }
  exists b. split; [done|]. split.
  - destruct Hin as [->|[_ ?]]; [by eapply valid_root|done].
  - intros p Hp. destruct (leaf_above _ _ _ Hn Hp) as (h & n & Hh & Hch & Hle).
    etrans; [done|]. eapply (Hmax h). apply Hl. eauto.
Qed.
End best.
