(* ===== verification/CachedTreeOps.v ===== *)
(** * CachedTree: the operations preserve the invariant

    Adding a block, finalizing, removing a leaf and dropping the unfinalized part;
    each lemma gives the result, the set of blocks that remain and the meaning of the
    returned [Reorg] and prune list. *)

From S2P Require Import Prelude Errors Types CachedTree CachedTreeProofs.

Lemma valid_lookup nodes p : valid nodes p → is_Some (nodes !! bi_hash p).
Proof. intros (n & ? & _). eauto. Qed.

Section operations.
Context `{BuildMode} `{UnorderedMap}.

Lemma CachedTree_new_wf root : tree_wf (CachedTree_new root).
Proof.
  constructor; simpl.
  - constructor; try (intros h n; rewrite lookup_singleton_Some; intros [<- <-]); try done.
    + exists (TreeNode_root root). by rewrite lookup_singleton_eq.
    + intros h n c. rewrite lookup_singleton_Some. intros [<- <-] Hc. by apply not_elem_of_nil in Hc.
    + apply NoDup_nil_2.
  - intros h s. rewrite lookup_singleton_Some. setoid_rewrite lookup_singleton_Some. naive_solver.
  - split; [exists (TreeNode_root root); by rewrite lookup_singleton_eq|].
    intros p (n & Hn & <-). apply lookup_singleton_Some in Hn as [_ <-]. done.
Qed.

(** ** add *)
Section add.
Context (t : CachedTree) (Hwf : tree_wf t).
Context (idx parent : BlockIndex) (pn : TreeNode).
Context (Hnew : ct_nodes t !! bi_hash idx = None).
Context (Hpn : ct_nodes t !! bi_hash parent = Some pn) (Hpi : tn_index pn = parent).
Context (Hslot : bi_slot parent < bi_slot idx).

Definition added_node : TreeNode :=
  mkTreeNode idx (Some parent) ((tn_depth pn + 1) mod 2 ^ 32) false [].
Definition added_nodes : Nodes :=
  <[bi_hash idx := added_node]>
    (<[bi_hash parent := set_children (tn_children pn ++ [idx]) pn]> (ct_nodes t)).

Lemma added_ne : bi_hash idx ≠ bi_hash parent.
Proof. intros Heq. rewrite Heq in Hnew. congruence. Qed.

Lemma added_lookup h n :
  added_nodes !! h = Some n ↔
    (h = bi_hash idx ∧ n = added_node) ∨
    (h = bi_hash parent ∧ n = set_children (tn_children pn ++ [idx]) pn) ∨
    (h ≠ bi_hash idx ∧ h ≠ bi_hash parent ∧ ct_nodes t !! h = Some n).
Proof.
  pose proof added_ne. unfold added_nodes. rewrite !lookup_insert_Some. naive_solver.
Qed.

Lemma added_valid p : valid added_nodes p ↔ p = idx ∨ valid (ct_nodes t) p.
Proof.
  pose proof (tw_nodes _ Hwf) as Hn. split.
  - intros (n & [[Hh ->]|[[Hh ->]|(_ & _ & Hl)]]%added_lookup & Hi).
    + by left.
    + right. simpl in Hi. subst p. exists pn. by rewrite Hpi.
    + right. by exists n.
  - intros [->|(n & Hl & Hi)].
    + exists added_node. split; [apply added_lookup; by left|done].
    + destruct (decide (bi_hash p = bi_hash parent)) as [Heq|].
      * exists (set_children (tn_children pn ++ [idx]) pn). split.
        { apply added_lookup. by right; left. }
        simpl. rewrite Heq in Hl. congruence.
      * exists n. split; [|done]. apply added_lookup. right; right. split; [|done]. congruence.
Qed.

Lemma added_nodes_wf : nodes_wf (ct_root t) added_nodes.
Proof.
  pose proof (tw_nodes _ Hwf) as Hn. pose proof added_ne as Hne.
  assert (Hrne : bi_hash (ct_root t) ≠ bi_hash idx).
  { destruct (nw_root _ _ Hn) as (r & Hr & _). congruence. }
  assert (Hfresh : ∀ h m, ct_nodes t !! h = Some m → idx ∉ tn_children m).
  { intros h m Hm Hc. destruct (nw_children _ _ Hn _ _ _ Hm Hc) as (cn & Hcn & _). congruence. }
  (* nodes other than the new one keep their entry up to children *)
  assert (Hold : ∀ h m, ct_nodes t !! h = Some m → ∃ m', added_nodes !! h = Some m' ∧
    tn_index m' = tn_index m ∧ tn_parent m' = tn_parent m ∧ ∀ c, c ∈ tn_children m → c ∈ tn_children m').
  { intros h m Hm. destruct (decide (h = bi_hash parent)) as [->|].
    - exists (set_children (tn_children pn ++ [idx]) pn). split; [apply added_lookup; by right; left|].
      assert (m = pn) as -> by congruence. simpl. split_and!; [done..|]. set_solver.
    - exists m. split; [apply added_lookup; right; right; split; [congruence|done]|done]. }
  constructor.
  - intros h n [[-> ->]|[[-> ->]|(_ & _ & Hl)]]%added_lookup; simpl; [done|by rewrite Hpi|by eapply nw_key].
  - destruct (nw_root _ _ Hn) as (r & Hr & Hri & Hrp).
    destruct (Hold _ _ Hr) as (m' & Hm' & Hi & Hp & _). exists m'. split; [done|]. split; congruence.
  - intros h n [[-> ->]|Hl]%added_lookup Hnr.
    + exists parent, (set_children (tn_children pn ++ [idx]) pn). simpl.
      split; [done|]. split; [apply added_lookup; by right; left|]. split; [done|]. split; [done|]. set_solver.
    + assert (∃ m, ct_nodes t !! h = Some m ∧ tn_index m = tn_index n ∧ tn_parent m = tn_parent n)
        as (m & Hm & Hmi & Hmp).
      { destruct Hl as [[-> ->]|(_ & _ & Hl)]; [by exists pn|by exists n]. }
      destruct (nw_parent _ _ Hn _ _ Hm Hnr) as (q & qn & Hq & Hqn & Hqi & Hlt & Hin).
      destruct (Hold _ _ Hqn) as (m' & Hm' & Hi' & _ & Hc').
      exists q, m'. rewrite <- Hmi, <- Hmp. split_and!; [done|done|congruence|done|by apply Hc'].
  - intros h n c [[-> ->]|[[-> ->]|(_ & _ & Hl)]]%added_lookup; simpl.
    + intros Hc. by apply not_elem_of_nil in Hc.
    + intros [Hc|Hc%list_elem_of_singleton]%elem_of_app.
      * destruct (nw_children _ _ Hn _ _ _ Hpn Hc) as (cn & Hcn & Hci & Hcp).
        destruct (Hold _ _ Hcn) as (m' & Hm' & Hi' & Hp' & _). exists m'. split; [done|]. split; congruence.
      * subst c. exists added_node. split; [apply added_lookup; by left|]. simpl. by rewrite Hpi.
    + intros Hc. destruct (nw_children _ _ Hn _ _ _ Hl Hc) as (cn & Hcn & Hci & Hcp).
      destruct (Hold _ _ Hcn) as (m' & Hm' & Hi' & Hp' & _). exists m'. split; [done|]. split; congruence.
  - intros h n [[-> ->]|[[-> ->]|(_ & _ & Hl)]]%added_lookup; simpl; [constructor| |by eapply nw_nodup].
    apply NoDup_app. split; [by eapply nw_nodup|]. split; [|apply NoDup_singleton].
    intros c Hc Hc2%list_elem_of_singleton. subst c. by eapply Hfresh.
  - intros h n [[-> ->]|[[-> ->]|(_ & _ & Hl)]]%added_lookup; simpl; [done|by eapply nw_reverted..].
Qed.

Lemma added_leaves_wf :
  leaves_wf added_nodes (emplace (bi_hash idx) (bi_slot idx) (delete (bi_hash parent) (ct_leaves t))).
Proof.
  pose proof (tw_leaves _ Hwf) as Hl. pose proof added_ne as Hne.
  assert (Hno : delete (bi_hash parent) (ct_leaves t) !! bi_hash idx = None).
  { rewrite lookup_delete_ne by done. destruct (ct_leaves t !! bi_hash idx) as [s|] eqn:Hs; [|done].
    apply Hl in Hs as (n & Hn & _). congruence. }
  unfold emplace. rewrite Hno. intros h s. setoid_rewrite added_lookup.
  rewrite lookup_insert_Some, lookup_delete_Some, (Hl h s). split.
  - intros [[<- <-]|(? & ? & n & Hn & Hc & Hs)]; [by eexists; eauto|].
    exists n. split; [|done]. right; right. split; [congruence|done].
  - intros (n & [[-> ->]|[[-> ->]|(Hh1 & Hh2 & Hn)]] & Hc & Hs); simpl in *.
    + by left.
    + by destruct (tn_children pn).
    + right. split; [done|]. split; [done|]. by exists n.
Qed.

Lemma add_spec :
  ∃ ro t', add t (TreeNode_child idx pn) = Ok (ro, t') ∧ tree_wf t' ∧
    ct_root t' = ct_root t ∧ ct_justified t' = ct_justified t ∧ ct_nodes t' = added_nodes ∧
    (ro = None → ct_best t' = ct_best t) ∧
    (∀ r, ro = Some r → ct_best t' = idx ∧ reorg_path (ct_nodes t') (ct_best t) idx r).
Proof.
  pose proof (tw_nodes _ Hwf) as Hn. pose proof added_nodes_wf as Hwf'.
  destruct (tw_best _ Hwf) as [Hbv Hbm].
  assert (Hfresh : idx ∉ tn_children pn).
  { intros Hc. destruct (nw_children _ _ Hn _ _ _ Hpn Hc) as (cn & Hcn & _). congruence. }
  unfold add, TreeNode_child. rewrite Hpi. cbn [tn_index tn_children tn_parent tn_reverted].
  rewrite Hnew, bool_decide_true, boost_assert_true by done. cbn [mbind outcome_bind of_option].
  rewrite Hpn. cbn [mbind outcome_bind of_option].
  rewrite bool_decide_true, boost_assert_true by done. cbn [mbind outcome_bind].
  rewrite (nw_reverted _ _ Hn _ _ Hpn). cbn [negb andb].
  change (<[bi_hash idx := _]> (<[bi_hash parent := _]> (ct_nodes t))) with added_nodes.
  assert (Hb' : valid added_nodes (ct_best t)) by (apply added_valid; by right).
  assert (Hi' : valid added_nodes idx) by (apply added_valid; by left).
  unfold weight. destruct (N.ltb_spec (bi_slot (ct_best t)) (bi_slot idx)) as [Hlt|Hge].
  - destruct (reorg_spec _ _ Hwf' (ct_best t) idx Hb' Hi') as (r & Hr & Hpath).
    rewrite Hr. cbn [mbind outcome_bind]. eexists (Some r), _. split; [done|]. split.
    + constructor; simpl; [done|apply added_leaves_wf|]. split; [done|].
      intros p [->|Hp]%added_valid; [done|]. specialize (Hbm p Hp). lia.
    + split; [done|]. split; [done|]. split; [done|]. split; [done|]. by intros ? [= <-].
  - eexists None, _. split; [done|]. split.
    + constructor; simpl; [done|apply added_leaves_wf|]. split; [done|].
      intros p [->|Hp]%added_valid; [done|]. by apply Hbm.
    + done.
Qed.
End add.

Lemma add_existing t n n0 :
  ct_nodes t !! bi_hash (tn_index n) = Some n0 → add t n = Ok (None, t).
Proof. intros Hn. unfold add. by rewrite Hn. Qed.
End operations.
