(* ===== verification/CachedTreeFinalize.v ===== *)
(** * CachedTree: finalization

    The two loops of [finalize] leave exactly the subtree of the new root, and
    enumerate the abandoned subtrees with children before their parents. *)

From S2P Require Import Prelude Errors Types CachedTree CachedTreeProofs CachedTreeOps.

(** [a] is a proper ancestor of [p]. *)
Definition panc (nodes : Nodes) (a p : BlockIndex) : Prop := anc nodes a p ∧ a ≠ p.

(** In [l], every node comes after its parent if the parent is listed. *)
Definition parents_first (nodes : Nodes) (l : list BlockIndex) : Prop :=
  ∀ i j c p, l !! i = Some c → l !! j = Some p → parent_of nodes c = Some p → (j < i)%nat.

(** In [l], every node comes before its parent if the parent is listed. *)
Definition children_first (nodes : Nodes) (l : list BlockIndex) : Prop :=
  ∀ i j c p, l !! i = Some c → l !! j = Some p → parent_of nodes c = Some p → (i < j)%nat.

Lemma parents_first_reverse nodes l : parents_first nodes l → children_first nodes (reverse l).
Proof.
  intros Hl i j c p Hi Hj Hp.
  pose proof (lookup_lt_Some _ _ _ Hi) as Hil. pose proof (lookup_lt_Some _ _ _ Hj) as Hjl.
  rewrite length_reverse in *.
  rewrite reverse_lookup in Hi by done. rewrite reverse_lookup in Hj by done.
  specialize (Hl _ _ _ _ Hi Hj Hp). lia.
Qed.

Section loops.
Context (root : BlockIndex) (nodes : Nodes) (Hwf : nodes_wf root nodes).
Context (nf : BlockIndex) (Hnf : valid nodes nf).

Lemma anc_parent_inv c x p :
  anc nodes c x → parent_of nodes x = Some p → c = x ∨ anc nodes c p.
Proof. intros Ha Hp. inversion Ha; [by left|right]. congruence. Qed.

Lemma panc_parent x p c :
  valid nodes x → parent_of nodes x = Some p → panc nodes c x ↔ c = p ∨ panc nodes c p.
Proof.
  intros Hx Hp. destruct (parent_of_valid _ _ Hwf _ _ Hx Hp) as [Hpv Hlt]. split.
  - intros [Ha Hne]. destruct (anc_parent_inv _ _ _ Ha Hp) as [|Ha']; [done|].
    destruct (decide (c = p)); [by left|by right].
  - intros [->|[Ha Hne]].
    + split; [econstructor; [done|by constructor]|]. intros ->. lia.
    + split; [by econstructor|]. intros ->. destruct (anc_slot _ _ Hwf _ _ Hpv Ha). lia.
Qed.

Lemma anc_dec a q : valid nodes a → valid nodes q → anc nodes a q ∨ ¬ anc nodes a q.
Proof.
  intros Ha Hq. destruct (canDescend_spec _ _ Hwf q a Hq Ha) as ([] & _ & Hb); [left|right]; naive_solver.
Qed.

Lemma panc_dec a q : valid nodes a → valid nodes q → ¬ ¬ panc nodes a q → panc nodes a q.
Proof.
  intros Ha Hq Hnn. destruct (anc_dec a q Ha Hq) as [Hanc|Hanc].
  - split; [done|]. intros ->. apply Hnn. by intros [_ ?].
  - exfalso. apply Hnn. by intros [? _].
Qed.

(** A proper ancestor has a child on the way. *)
Lemma panc_child a q :
  valid nodes q → panc nodes a q → ∃ c, valid nodes c ∧ parent_of nodes c = Some a ∧ anc nodes c q.
Proof.
  intros Hq [Ha Hne]. induction Ha as [|p q Hp Ha IH]; [done|].
  destruct (parent_of_valid _ _ Hwf _ _ Hq Hp) as [Hpv _].
  destruct (decide (a = p)) as [->|Hap].
  - exists q. split; [done|]. split; [done|by constructor].
  - destruct (IH Hpv Hap) as (c & ? & ? & ?). exists c. split_and!; [done..|]. by econstructor.
Qed.

Lemma panc_irrefl_parent x p : valid nodes x → parent_of nodes x = Some p → panc nodes p x.
Proof. intros Hx Hp. apply (panc_parent x p p Hx Hp). by left. Qed.

Lemma finalize_ancestors_spec fuel x queue :
  valid nodes x → (height nodes x ≤ fuel)%nat →
  ∃ m Q, finalize_ancestors fuel nodes x queue = Ok (m, queue ++ Q) ∧
    (∀ h n, m !! h = Some n ↔ nodes !! h = Some n ∧ ¬ panc nodes (tn_index n) x) ∧
    NoDup Q ∧
    (∀ c, c ∈ Q ↔ valid nodes c ∧ ¬ anc nodes c x ∧ ∃ p, parent_of nodes c = Some p ∧ panc nodes p x).
Proof.
  intros Hx. revert x Hx fuel queue. apply (parent_ind root nodes Hwf
    (λ x, ∀ fuel queue, (height nodes x ≤ fuel)%nat → _)).
  intros x Hx IH fuel queue Hf.
  destruct (parent_of nodes x) as [p|] eqn:Hp; last first.
  { assert (x = root) as -> by (destruct (decide (x = root)); [done|];
      destruct (parent_of_is_Some _ _ Hwf x Hx) as [? ?]; [done|congruence]).
    assert (Hno : ∀ c, ¬ panc nodes c root).
    { intros c [Ha Hne]. inversion Ha; subst; [done|congruence]. }
    exists nodes, []. rewrite app_nil_r. split; [destruct fuel; simpl; by rewrite Hp|].
    split; [intros h n; naive_solver|]. split; [constructor|].
    intros c. split; [by intros ?%not_elem_of_nil|]. intros (_ & _ & q & _ & Hq). by apply Hno in Hq. }
  destruct (parent_of_valid _ _ Hwf _ _ Hx Hp) as [Hpv Hlt].
  pose proof (height_parent _ _ Hwf _ _ Hx Hp) as Hh.
  destruct fuel as [|fuel]; [lia|]. simpl. rewrite Hp.
  destruct Hpv as (pn & Hpn & Hpi) eqn:Hpv'. clear Hpv'. unfold deref. rewrite Hpn. simpl.
  set (S := filter (λ c, bi_hash c ≠ bi_hash x) (tn_children pn)).
  destruct (IH p eq_refl fuel (queue ++ S)) as (m & Q & Hr & Hm & HQn & HQ); [lia|].
  rewrite Hr. simpl. exists (delete (bi_hash p) m), (S ++ Q). rewrite app_assoc.
  assert (HS : ∀ c, c ∈ S ↔ valid nodes c ∧ parent_of nodes c = Some p ∧ c ≠ x).
  { intros c. unfold S. rewrite list_elem_of_filter. split.
    - intros [Hne Hc]. destruct (child_parent _ _ Hwf _ _ _ Hpn Hc) as [Hcv Hcp].
      rewrite Hpi in Hcp. split; [done|]. split; [done|]. congruence.
    - intros ((cn & Hcn & Hci) & Hcp & Hne).
      destruct (parent_of_child _ _ Hwf c p cn Hcn Hci Hcp) as (_ & _ & _ & pn' & Hpn' & _ & Hin).
      split; [|congruence]. intros Heq. apply Hne. by eapply valid_inj; [exists cn| |]. }
  assert (Hpx : ∀ c, panc nodes c x ↔ c = p ∨ panc nodes c p) by (intros; by apply panc_parent).
  split; [done|]. split; [|split].
  - intros h n. rewrite lookup_delete_Some, Hm, Hpx. split.
    + intros (Hne & Hn & Hnp). split; [done|]. intros [Heq|?]; [|done].
      apply Hne. rewrite <- Heq. by eapply nw_key.
    + intros (Hn & Hno). split; [|split; [done|tauto]]. intros <-. apply Hno. left. congruence.
  - apply NoDup_app. split; [by apply NoDup_filter; eapply nw_nodup|]. split; [|done].
    intros c Hc%HS (Hcv & _ & q & Hq & Hqp)%HQ. destruct Hc as (_ & Hcp & _).
    assert (q = p) as -> by congruence. by destruct Hqp.
  - intros c. rewrite elem_of_app, HS, HQ. split.
    + intros [(Hcv & Hcp & Hne)|(Hcv & Hna & q & Hq & Hqp)].
      * split; [done|]. split; [|exists p; split; [done|]; apply Hpx; by left].
        intros Ha. destruct (anc_parent_inv _ _ _ Ha Hp) as [|Ha']; [done|].
        destruct (parent_of_valid _ _ Hwf _ _ Hcv Hcp).
        destruct (anc_slot _ _ Hwf c p) as [? ?]; [by exists pn|done|]. lia.
      * split; [done|]. split; [|exists q; split; [done|]; apply Hpx; by right].
        intros Ha. destruct (anc_parent_inv _ _ _ Ha Hp) as [->|Ha']; [|done].
        assert (q = p) as -> by congruence. by destruct Hqp.
    + intros (Hcv & Hna & q & Hq & [->|Hqp]%Hpx).
      * left. split; [done|]. split; [done|]. intros ->. apply Hna. by constructor.
      * right. split; [done|]. split; [|by exists q]. intros Ha. apply Hna. by econstructor.
Qed.

(** ** The breadth-first removal *)
Context (leaves : gmap BlockHash Slot) (Hleaves : leaves_wf nodes leaves).

Record prune_inv (m : Nodes) (l : gmap BlockHash Slot) (Q : list BlockIndex) : Prop := {
  pi_sub : m ⊆ nodes;
  pi_closed : ∀ c p, valid nodes c → parent_of nodes c = Some p →
    is_Some (m !! bi_hash p) → is_Some (m !! bi_hash c);
  pi_nodup : NoDup Q;
  pi_queue : ∀ q, q ∈ Q → valid nodes q ∧ is_Some (m !! bi_hash q) ∧ ¬ anc nodes nf q ∧
    ∀ p, parent_of nodes q = Some p → m !! bi_hash p = None;
  pi_frontier : ∀ c, valid nodes c → is_Some (m !! bi_hash c) →
    c = nf ∨ c ∈ Q ∨ ∃ p, parent_of nodes c = Some p ∧ is_Some (m !! bi_hash p);
  pi_keep : ∀ c, valid nodes c → anc nodes nf c → is_Some (m !! bi_hash c);
  pi_root : ∀ p, parent_of nodes nf = Some p → m !! bi_hash p = None;
  pi_leaves : ∀ h s, l !! h = Some s ↔ leaves !! h = Some s ∧ is_Some (m !! h);
}.

Lemma prune_inv_step m l q Q n :
  prune_inv m l (q :: Q) → m !! bi_hash q = Some n →
  prune_inv (delete (bi_hash q) m)
    (match tn_children n with [] => delete (bi_hash q) l | _ => l end) (Q ++ tn_children n).
Proof.
  intros [Hsub Hcl Hnd Hq Hfr Hk Hr Hl] Hn.
  assert (Hn0 : nodes !! bi_hash q = Some n) by (by eapply lookup_weaken).
  destruct (Hq q) as (Hqv & _ & Hqnf & Hqp); [by left|].
  assert (Hni : tn_index n = q).
  { destruct Hqv as (n' & Hn' & <-). congruence. }
  assert (Hch : ∀ c, c ∈ tn_children n → valid nodes c ∧ parent_of nodes c = Some q).
  { intros c Hc. rewrite <- Hni. by eapply child_parent. }
  assert (Hcne : ∀ c, c ∈ tn_children n → bi_hash c ≠ bi_hash q).
  { intros c Hc Heq. destruct (Hch c Hc) as [Hcv Hcp].
    apply (valid_inj nodes) in Heq as ->; [|done..].
    destruct (parent_of_valid _ _ Hwf _ _ Hqv Hcp). lia. }
  assert (Hcm : ∀ c, c ∈ tn_children n → is_Some (m !! bi_hash c) → c ∉ q :: Q).
  { intros c Hc Hs Hin. destruct (Hq c Hin) as (_ & _ & _ & Hp). destruct (Hch c Hc) as [_ Hcp].
    rewrite (Hp q Hcp) in Hn. done. }
  constructor.
  - etrans; [apply delete_subseteq|done].
  - intros c p Hcv Hcp [pn Hpn]. apply lookup_delete_Some in Hpn as [Hpne Hpm].
    assert (bi_hash c ≠ bi_hash q).
    { intros Heq. apply (valid_inj nodes) in Heq as ->; [|done..]. by rewrite (Hqp p Hcp) in Hpm. }
    rewrite lookup_delete_ne by done. eapply Hcl; [done|done|by rewrite Hpm].
  - apply NoDup_cons in Hnd as [Hqn Hnd]. apply NoDup_app. split; [done|].
    split; [|by eapply nw_nodup]. intros c Hc Hcc.
    eapply Hcm; [done| |by right]. by apply Hq; right.
  - intros c [Hc|Hc]%elem_of_app.
    + destruct (Hq c) as (Hcv & Hcs & Hcnf & Hcp); [by right|]. split; [done|].
      assert (bi_hash c ≠ bi_hash q).
      { intros Heq. apply (valid_inj nodes) in Heq as ->; [|done..]. by apply NoDup_cons in Hnd as [? _]. }
      split; [by rewrite lookup_delete_ne by done|]. split; [done|].
      intros p Hp. apply lookup_delete_None. right. by apply Hcp.
    + destruct (Hch c Hc) as [Hcv Hcp]. split; [done|]. split; [|split].
      * rewrite lookup_delete_ne by (intros Heq; by eapply Hcne).
        by eapply Hcl; [done|done|rewrite Hn].
      * intros Ha. destruct (anc_parent_inv _ _ _ Ha Hcp) as [<-|Ha']; [|done].
        rewrite (Hr q Hcp) in Hn. done.
      * intros p Hp. assert (p = q) as -> by congruence. by rewrite lookup_delete_eq.
  - intros c Hcv [cn [Hcne' Hcm']%lookup_delete_Some].
    destruct (Hfr c Hcv) as [->|[[->|Hc]%elem_of_cons|(p & Hp & Hpm)]]; [by rewrite Hcm'|by left|done| |].
    + right; left. apply elem_of_app. by left.
    + destruct (decide (bi_hash p = bi_hash q)) as [Heq|Hne].
      * right; left. apply elem_of_app. right.
        destruct (parent_of_valid _ _ Hwf _ _ Hcv Hp) as [Hpv _].
        apply (valid_inj nodes) in Heq as ->; [|done..].
        destruct Hcv as (cn' & Hcn' & Hci).
        destruct (parent_of_child _ _ Hwf c q cn' Hcn' Hci Hp) as (_ & _ & _ & pn & Hpn & _ & Hin).
        congruence.
      * right; right. exists p. by rewrite lookup_delete_ne by done.
  - intros c Hcv Ha. rewrite lookup_delete_ne; [by apply Hk|]. intros Heq.
    apply (valid_inj nodes) in Heq as ->; done.
  - intros p Hp. apply lookup_delete_None. right. by apply Hr.
  - intros h s. destruct (decide (h = bi_hash q)) as [->|Hne].
    + rewrite lookup_delete_eq. destruct (tn_children n) eqn:Hc.
      * rewrite lookup_delete_eq. split; [done|]. by intros [_ [? ?]].
      * split; [|by intros [_ [? ?]]]. intros [Hs _]%Hl.
        apply Hleaves in Hs as (n' & Hn' & Hc' & _). congruence.
    + rewrite lookup_delete_ne by done. rewrite <- Hl. destruct (tn_children n); [|done].
      by rewrite lookup_delete_ne by done.
Qed.

Lemma finalize_prune_spec fuel m l Q P :
  prune_inv m l Q → (size m ≤ fuel)%nat →
  ∃ m' l' P', finalize_prune fuel m l Q P = Ok (m', l', P ++ P') ∧
    prune_inv m' l' [] ∧ parents_first nodes P' ∧ NoDup P' ∧
    (∀ c, c ∈ P' ↔ valid nodes c ∧ is_Some (m !! bi_hash c) ∧ m' !! bi_hash c = None) ∧ m' ⊆ m.
Proof.
  revert m l Q P. induction fuel as [|fuel IH]; intros m l Q P Hinv Hf.
  - destruct Q as [|q Q].
    + exists m, l, []. rewrite app_nil_r. split; [done|]. split; [done|]. split; [by intros i j c p Hi; rewrite lookup_nil in Hi|].
      split; [constructor|]. split; [|done]. intros c. rewrite elem_of_nil. split; [done|].
      intros (_ & [? ?] & ?). congruence.
    + destruct (pi_queue _ _ _ Hinv q) as (_ & [n Hn] & _); [by left|].
      assert (size m = 0%nat) as ->%map_size_empty_inv by lia. done.
  - destruct Q as [|q Q].
    + exists m, l, []. rewrite app_nil_r. split; [done|]. split; [done|]. split; [by intros i j c p Hi; rewrite lookup_nil in Hi|].
      split; [constructor|]. split; [|done]. intros c. rewrite elem_of_nil. split; [done|].
      intros (_ & [? ?] & ?). congruence.
    + destruct (pi_queue _ _ _ Hinv q) as (Hqv & [n Hn] & _ & Hqp); [by left|].
      simpl. unfold deref. rewrite Hn. simpl.
      destruct (IH _ _ _ (P ++ [q]) (prune_inv_step _ _ _ _ _ Hinv Hn))
        as (m' & l' & P' & Hr & Hinv' & Hpf & Hnd & HP & Hsub).
      { rewrite map_size_delete, Hn. lia. }
      rewrite Hr. exists m', l', (q :: P'). rewrite <- app_assoc. split; [done|]. split; [done|].
      assert (HP' : ∀ c, c ∈ P' → valid nodes c ∧ bi_hash c ≠ bi_hash q ∧ is_Some (m !! bi_hash c)).
      { intros c (Hcv & [cn [? ?]%lookup_delete_Some] & _)%HP. split; [done|]. by eauto. }
      split; [|split; [|split]].
      * intros [|i] [|j] c p Hi Hj Hp; simpl in *; [| |lia|].
        { injection Hi as ->. injection Hj as ->. destruct (parent_of_valid _ _ Hwf _ _ Hqv Hp). lia. }
        { injection Hi as ->. apply list_elem_of_lookup_2 in Hj as (_ & _ & [? Hm])%HP'.
          rewrite (Hqp p Hp) in Hm. done. }
        { specialize (Hpf _ _ _ _ Hi Hj Hp). lia. }
      * constructor; [|done]. intros (_ & Hne & _)%HP'. done.
      * intros c. rewrite elem_of_cons, HP. split.
        { intros [->|(Hcv & [cn [? ?]%lookup_delete_Some] & ?)].
          - split; [done|]. split; [by rewrite Hn|]. eapply lookup_weaken_None; [|done].
            by rewrite lookup_delete_eq.
          - split; [done|]. split; [by eauto|done]. }
        { intros (Hcv & Hcm & Hcn). destruct (decide (bi_hash c = bi_hash q)) as [Heq|Hne].
          - left. by eapply valid_inj.
          - right. split; [done|]. by rewrite lookup_delete_ne by done. }
      * etrans; [done|apply delete_subseteq].
Qed.

(** When the queue is empty, only the subtree of the new root is left. *)
Lemma prune_inv_done m l c :
  prune_inv m l [] → valid nodes c → is_Some (m !! bi_hash c) ↔ anc nodes nf c.
Proof.
  intros Hinv Hc. split; [|by eapply pi_keep]. revert c Hc.
  apply (parent_ind root nodes Hwf (λ c, is_Some (m !! bi_hash c) → anc nodes nf c)).
  intros c Hc IH Hm. destruct (pi_frontier _ _ _ Hinv c Hc Hm) as [->|[?%not_elem_of_nil|(p & Hp & Hpm)]];
    [by constructor|done|]. econstructor; [done|by apply IH].
Qed.

Lemma finalize_ancestors_inv m Q :
  (∀ h n, m !! h = Some n ↔ nodes !! h = Some n ∧ ¬ panc nodes (tn_index n) nf) → NoDup Q →
  (∀ c, c ∈ Q ↔ valid nodes c ∧ ¬ anc nodes c nf ∧ ∃ p, parent_of nodes c = Some p ∧ panc nodes p nf) →
  prune_inv m leaves Q.
Proof.
  intros Hm Hnd HQ.
  assert (Hin : ∀ c, valid nodes c → is_Some (m !! bi_hash c) ↔ ¬ panc nodes c nf).
  { intros c (n & Hn & Hi). split.
    - intros [n' [Hn' Hp]%Hm]. congruence.
    - intros Hp. exists n. apply Hm. by rewrite Hi. }
  assert (Hout : ∀ p, panc nodes p nf → m !! bi_hash p = None).
  { intros p Hp. destruct (m !! bi_hash p) as [n|] eqn:Hn; [|done].
    assert (Hpv : valid nodes p) by (eapply anc_valid; [done|exact Hnf|apply Hp]).
    exfalso. apply (Hin p Hpv); [by rewrite Hn|done]. }
  constructor.
  - apply map_subseteq_spec. intros h n. rewrite Hm. tauto.
  - intros c p Hcv Hcp Hpm. apply Hin; [done|]. intros [Ha Hne].
    destruct (parent_of_valid _ _ Hwf _ _ Hcv Hcp) as [Hpv Hlt].
    apply (Hin p Hpv) in Hpm. apply Hpm. split.
    + eapply anc_trans; [|done]. econstructor; [done|by constructor].
    + intros ->. destruct (anc_slot _ _ Hwf c nf Hnf Ha). lia.
  - done.
  - intros q (Hqv & Hqa & p & Hp & Hpp)%HQ. split; [done|]. split; [|split].
    + apply Hin; [done|]. by intros [? _].
    + intros Ha. destruct (anc_parent_inv _ _ _ Ha Hp) as [->|Ha']; [by apply Hqa; constructor|].
      destruct Hpp as [Hpa Hpne]. destruct (anc_slot _ _ Hwf p nf Hnf Hpa).
      destruct (parent_of_valid _ _ Hwf _ _ Hqv Hp) as [Hpv _].
      destruct (anc_slot _ _ Hwf nf p Hpv Ha') as [Hs Heq]. apply Hpne. symmetry. apply Heq. lia.
    + intros p' Hp'. assert (p' = p) as -> by congruence. by apply Hout.
  - intros c Hcv Hcm. apply (Hin c Hcv) in Hcm.
    destruct (decide (c = nf)) as [->|Hne]; [by left|right].
    destruct (decide (c = root)) as [->|Hnr].
    { exfalso. apply Hcm. split; [by eapply anc_root|done]. }
    destruct (parent_of_is_Some _ _ Hwf c Hcv Hnr) as [p Hp].
    destruct (parent_of_valid _ _ Hwf _ _ Hcv Hp) as [Hpv _].
    destruct (m !! bi_hash p) as [pn|] eqn:Hpm; [right; exists p; by rewrite Hpm|left].
    apply HQ. split; [done|]. split; [intros Ha; by apply Hcm|].
    exists p. split; [done|]. apply panc_dec; [done|done|]. intros Hn.
    apply (Hin p Hpv) in Hn as [? Hn]. congruence.
  - intros c Hcv Ha. apply Hin; [done|]. intros [Ha' Hne].
    destruct (anc_slot _ _ Hwf c nf Hnf Ha') as [? Heq]. destruct (anc_slot _ _ Hwf nf c Hcv Ha).
    apply Hne, Heq. lia.
  - intros p Hp. apply Hout. by apply panc_irrefl_parent.
  - intros h s. split; [|tauto]. intros Hs. split; [done|].
    apply Hleaves in Hs as (n & Hn & Hc & _).
    pose proof (valid_node _ _ Hwf _ _ Hn) as Hv. rewrite <- (nw_key _ _ Hwf _ _ Hn).
    apply Hin; [done|]. intros Hpa. apply panc_child in Hpa as (c & (cn & Hcn & Hci) & Hcp & _); [|done].
    destruct (parent_of_child _ _ Hwf _ _ _ Hcn Hci Hcp) as (_ & _ & _ & pn & Hpn & _ & Hin').
    rewrite (nw_key _ _ Hwf _ _ Hn), Hn in Hpn. injection Hpn as <-. rewrite Hc in Hin'.
    by apply not_elem_of_nil in Hin'.
Qed.
End loops.

(** ** The subtree of the new root *)
Section restrict.
Context (root : BlockIndex) (nodes : Nodes) (Hwf : nodes_wf root nodes).
Context (nf : BlockIndex) (Hnf : valid nodes nf).
Context (m : Nodes) (Hsub : m ⊆ nodes).
Context (Hm : ∀ c, valid nodes c → is_Some (m !! bi_hash c) ↔ anc nodes nf c).
Let nodes' := alter (set_parent None) (bi_hash nf) m.

Lemma restrict_lookup h n :
  nodes' !! h = Some n ↔
    ∃ n0, nodes !! h = Some n0 ∧ anc nodes nf (tn_index n0) ∧
      n = if decide (h = bi_hash nf) then set_parent None n0 else n0.
Proof.
  unfold nodes'. rewrite lookup_alter.
  assert (Hin : ∀ n0, m !! h = Some n0 ↔ nodes !! h = Some n0 ∧ anc nodes nf (tn_index n0)).
  { intros n0. split.
    - intros Hn. assert (Hn0 : nodes !! h = Some n0) by (by eapply lookup_weaken).
      split; [done|]. apply Hm; [by eapply valid_node|]. by rewrite (nw_key _ _ Hwf _ _ Hn0), Hn.
    - intros [Hn0 Ha]. pose proof (valid_node _ _ Hwf _ _ Hn0) as Hv. apply Hm in Ha as [n1 Hn1]; [|done].
      rewrite (nw_key _ _ Hwf _ _ Hn0) in Hn1.
      assert (nodes !! h = Some n1) by (by eapply lookup_weaken). congruence. }
  destruct (decide (bi_hash nf = h)) as [Hd|Hd], (decide (h = bi_hash nf)); try congruence.
  - rewrite Hd. rewrite fmap_Some. split.
    + intros (x & [Hx Ha]%Hin & ->). eauto.
    + intros (x & Hx & Ha & ->). exists x. split; [by apply Hin|done].
  - rewrite Hin. naive_solver.
Qed.

Lemma restrict_valid p : valid nodes' p ↔ valid nodes p ∧ anc nodes nf p.
Proof.
  split.
  - intros (n & (n0 & Hn0 & Ha & ->)%restrict_lookup & Hi).
    assert (Hi0 : tn_index n0 = p) by (by case_decide). subst p. split; [by exists n0|done].
  - intros [(n & Hn & Hi) Ha]. exists (if decide (bi_hash p = bi_hash nf) then set_parent None n else n).
    split; [|by case_decide]. apply restrict_lookup. exists n. by rewrite Hi.
Qed.

Lemma restrict_wf : nodes_wf nf nodes'.
Proof.
  assert (Hcore : ∀ h n, nodes' !! h = Some n → ∃ n0, nodes !! h = Some n0 ∧ anc nodes nf (tn_index n0) ∧
    tn_index n = tn_index n0 ∧ tn_children n = tn_children n0 ∧ tn_reverted n = tn_reverted n0 ∧
    (h ≠ bi_hash nf → n = n0)).
  { intros h n (n0 & Hn0 & Ha & ->)%restrict_lookup. exists n0. case_decide; done. }
  constructor.
  - intros h n (n0 & Hn0 & _ & -> & _)%Hcore. by eapply nw_key.
  - destruct Hnf as (n & Hn & Hi). exists (set_parent None n). split; [|done].
    apply restrict_lookup. exists n. rewrite decide_True, Hi by done. split; [done|].
    split; [by constructor|done].
  - intros h n Hn Hne. apply Hcore in Hn as (n0 & Hn0 & Ha & _ & _ & _ & Heq). rewrite (Heq Hne).
    assert (Hi : tn_index n0 ≠ nf).
    { intros Hi. apply Hne. rewrite <- Hi. symmetry. by eapply nw_key. }
    pose proof (valid_node _ _ Hwf _ _ Hn0) as Hv.
    destruct (decide (tn_index n0 = root)) as [Hr|Hr].
    { rewrite Hr in Ha. inversion Ha; [congruence|]. rewrite (parent_of_root _ _ Hwf) in *. done. }
    destruct (parent_of_is_Some _ _ Hwf _ Hv Hr) as [p Hp].
    destruct (parent_of_child _ _ Hwf (tn_index n0) p n0) as (Hpv & Hlt & Hpar & pn & Hpn & Hpi & Hin);
      [by rewrite (nw_key _ _ Hwf _ _ Hn0)|done|done|].
    exists p, (if decide (bi_hash p = bi_hash nf) then set_parent None pn else pn).
    split; [done|]. split; [|split; [by case_decide|split; [done|by case_decide]]].
    apply restrict_lookup. exists pn. split; [done|]. split; [|done]. rewrite Hpi.
    destruct (anc_parent_inv _ _ _ _ Ha Hp) as [|]; [congruence|done].
  - intros h n c (n0 & Hn0 & Ha & Hi & -> & _ & _)%Hcore Hc.
    destruct (nw_children _ _ Hwf _ _ _ Hn0 Hc) as (cn & Hcn & Hci & Hcp).
    destruct (child_parent _ _ Hwf _ _ _ Hn0 Hc) as [Hcv Hcpo].
    assert (Hne : bi_hash c ≠ bi_hash nf).
    { intros Heq. apply (valid_inj nodes) in Heq as ->; [|done..].
      destruct (parent_of_valid _ _ Hwf _ _ Hcv Hcpo) as [Hpv Hlt].
      destruct (anc_slot _ _ Hwf _ _ Hpv Ha). lia. }
    exists cn. split; [|split; [done|congruence]]. apply restrict_lookup. exists cn.
    split; [done|]. split; [|by rewrite decide_False]. rewrite Hci. by econstructor.
  - intros h n (n0 & Hn0 & _ & _ & -> & _)%Hcore. by eapply nw_nodup.
  - intros h n (n0 & Hn0 & _ & _ & _ & -> & _)%Hcore. by eapply nw_reverted.
Qed.

Lemma restrict_parent q p :
  valid nodes' q → parent_of nodes' q = Some p → parent_of nodes q = Some p.
Proof.
  intros Hq Hp. pose proof restrict_wf as Hwf'.
  destruct (proj1 (restrict_valid q) Hq) as [Hqv _].
  destruct Hq as (n & Hn & Hi).
  destruct (parent_of_child _ _ Hwf' q p n Hn Hi Hp) as (Hpv & _ & Hpar & _).
  destruct (proj1 (restrict_valid p) Hpv) as [(pn & Hpn & Hpi) _].
  apply restrict_lookup in Hn as (n0 & Hn0 & _ & ->).
  case_decide; [done|]. unfold parent_of. rewrite Hn0. simpl. rewrite Hpar. simpl. by rewrite Hpn.
Qed.

Lemma restrict_up a q l : valid nodes' q → up nodes' a q l → up nodes a q l.
Proof.
  intros Hq Hu. induction Hu as [|p q l Hp _ IH]; [constructor|].
  econstructor; [by apply restrict_parent|]. apply IH.
  by eapply parent_of_valid in Hp as [? _]; [|apply restrict_wf|].
Qed.

Lemma restrict_leaves l leaves :
  leaves_wf nodes leaves → (∀ h s, l !! h = Some s ↔ leaves !! h = Some s ∧ is_Some (m !! h)) →
  leaves_wf nodes' l.
Proof.
  intros Hl Hlm h s. rewrite Hlm, (Hl h s). setoid_rewrite restrict_lookup. split.
  - intros [(n & Hn & Hc & Hs) Hin]. eexists. split; [exists n; split; [done|]; split; [|done]|].
    + apply Hm; [by eapply valid_node|]. by rewrite (nw_key _ _ Hwf _ _ Hn).
    + by case_decide.
  - intros (n & (n0 & Hn0 & Ha & ->) & Hc & Hs). split.
    + exists n0. split; [done|]. by case_decide.
    + rewrite <- (nw_key _ _ Hwf _ _ Hn0). apply Hm; [by eapply valid_node|done].
Qed.
End restrict.

(** ** finalize *)
Section finalize.
Context `{BuildMode} `{UnorderedMap}.

(** The tree [t'] and the changes after finalizing [nf] in [t]. *)
Record finalized_to (t : CachedTree) (nf : BlockIndex) (changes : ReorgAndPrune)
    (t' : CachedTree) : Prop := {
  fz_wf : tree_wf t';
  fz_root : ct_root t' = nf;
  fz_justified : ct_justified t' = ct_justified t;
  fz_nodes : ∀ p, valid (ct_nodes t') p ↔ valid (ct_nodes t) p ∧ anc (ct_nodes t) nf p;
  fz_parents : ∀ q p, valid (ct_nodes t') q → parent_of (ct_nodes t') q = Some p →
    parent_of (ct_nodes t) q = Some p;
  fz_prune : ∀ c, c ∈ rp_prune changes ↔
    valid (ct_nodes t) c ∧ ¬ anc (ct_nodes t) nf c ∧ ¬ anc (ct_nodes t) c nf;
  fz_prune_nodup : NoDup (rp_prune changes);
  fz_order : children_first (ct_nodes t) (rp_prune changes);
  fz_reorg : match rp_reorg changes with
             | None => ct_best t' = ct_best t
             | Some r => reorg_path (ct_nodes t) (ct_best t) (ct_best t') r
             end;
}.

Lemma finalize_root t :
  tree_wf t → finalized_to t (ct_root t) (mkReorgAndPrune None []) t.
Proof.
  intros Hwf. pose proof (tw_nodes _ Hwf) as Hn. constructor; simpl; try done.
  - intros p. split; [|tauto]. intros Hp. split; [done|by eapply anc_root].
  - intros c. rewrite elem_of_nil. split; [done|]. intros (Hv & Hna & _).
    apply Hna. by eapply anc_root.
  - constructor.
Qed.

(** Composing the way to the new root with the way from it to the new best. *)
Lemma reorg_path_extend root nodes nf best best' r visited :
  nodes_wf root nodes → valid nodes best → valid nodes nf → valid nodes best' →
  ¬ anc nodes nf best → reorg_path nodes best nf r → up nodes nf best' visited →
  reorg_path nodes best best' (mkReorg (rg_common r) (rg_revert r) (rg_apply r ++ reverse visited)).
Proof.
  intros Hwf Hb Hnf Hb' Hna (Hc & Hu1 & Hu2 & Hlca) Hv. split; [done|]. simpl. split; [done|]. split.
  - rewrite reverse_app, reverse_involutive. by eapply up_app.
  - intros a Ha Ha'. destruct (anc_linear nodes a nf best') as [Han|Han];
      [done|by eapply up_anc|by apply Hlca|].
    exfalso. apply Hna. by eapply anc_trans.
Qed.

Lemma finalize_spec t nf :
  tree_wf t → valid (ct_nodes t) nf →
  ∃ changes t', finalize t nf = Ok (changes, t') ∧ finalized_to t nf changes t'.
Proof.
  intros Hwf Hnf. pose proof (tw_nodes _ Hwf) as Hn. pose proof (tw_leaves _ Hwf) as Hl.
  destruct (tw_best _ Hwf) as [Hb Hbm].
  pose proof (anc_root _ _ Hn _ Hnf) as Har. destruct (anc_slot _ _ Hn _ _ Hnf Har) as [Hsl _].
  unfold finalize. rewrite (proj2 (N.leb_le _ _) Hsl), boost_assert_true. cbn [mbind outcome_bind].
  destruct (N.eqb_spec (bi_hash nf) (bi_hash (ct_root t))) as [Heq|Hne].
  { apply (valid_inj (ct_nodes t)) in Heq as ->; [|done|by eapply valid_root].
    eexists _, _. split; [done|by apply finalize_root]. }
  destruct (parent_of_is_Some _ _ Hn nf Hnf) as [p Hp]; [congruence|].
  rewrite Hp, bool_decide_true, boost_assert_true by eauto. cbn [mbind outcome_bind].
  destruct (canDescend_spec _ _ Hn (ct_best t) nf Hb Hnf) as (bd & Hbd & Hanc). rewrite Hbd.
  cbn [mbind outcome_bind].
  destruct (finalize_ancestors_spec _ _ Hn (tree_fuel (ct_nodes t)) nf []) as (m & Q & Hfa & Hm & HQn & HQ);
    [done|pose proof (height_fuel (ct_nodes t) nf); lia|].
  pose proof (finalize_ancestors_inv _ _ Hn nf Hnf _ Hl m Q Hm HQn HQ) as Hinv.
  destruct (finalize_prune_spec _ _ Hn nf _ Hl (tree_fuel (ct_nodes t)) m (ct_leaves t) Q [] Hinv)
    as (m' & l' & P & Hfp & Hinv' & Hpf & HPn & HP & Hsub).
  { unfold tree_fuel. etrans; [apply map_subseteq_size, (pi_sub _ _ _ _ _ _ Hinv)|lia]. }
  assert (Hm' : ∀ c, valid (ct_nodes t) c → is_Some (m' !! bi_hash c) ↔ anc (ct_nodes t) nf c)
    by (intros c Hc; exact (prune_inv_done _ _ Hn _ _ _ _ _ Hinv' Hc)).
  pose proof (pi_sub _ _ _ _ _ _ Hinv') as Hsub'.
  set (nodes' := alter (set_parent None) (bi_hash nf) m') in *.
  pose proof (restrict_wf _ _ Hn nf Hnf m' Hsub' Hm') as Hwf'. fold nodes' in Hwf'.
  assert (Hl' : leaves_wf nodes' l').
  { exact (restrict_leaves _ _ Hn _ _ Hsub' Hm' _ _ Hl (pi_leaves _ _ _ _ _ _ Hinv')). }
  assert (Hval : ∀ q, valid nodes' q ↔ valid (ct_nodes t) q ∧ anc (ct_nodes t) nf q)
    by exact (restrict_valid _ _ Hn _ _ Hsub' Hm').
  assert (Hprune : ∀ c, c ∈ reverse P ↔
    valid (ct_nodes t) c ∧ ¬ anc (ct_nodes t) nf c ∧ ¬ anc (ct_nodes t) c nf).
  { intros c. rewrite elem_of_reverse, HP. split.
    - intros (Hc & [n Hcn] & Hnone). split; [done|].
      assert (Hna : ¬ anc (ct_nodes t) nf c) by (intros [? ?]%Hm'; [congruence|done]).
      split; [done|]. intros Ha. apply Hm in Hcn as [Hcn Hnp]. apply Hnp.
      destruct Hc as (n' & Hn' & <-). assert (n' = n) as -> by congruence.
      split; [done|]. intros Heq. apply Hna. rewrite Heq. by constructor.
    - intros (Hc & Hna & Hna'). split; [done|]. split.
      + destruct Hc as (n & Hcn & Hci). exists n. apply Hm. split; [done|]. rewrite Hci. by intros [? _].
      + destruct (m' !! bi_hash c) eqn:Hmc; [|done]. exfalso. apply Hna, Hm'; [done|]. by rewrite Hmc. }
  assert (Hrest : ∀ b ro, best_wf nodes' b →
    match ro with None => b = ct_best t | Some r => reorg_path (ct_nodes t) (ct_best t) b r end →
    finalized_to t nf (mkReorgAndPrune ro (reverse P)) (mkCachedTree nf (ct_justified t) b nodes' l')).
  { intros b ro Hbw Hro. constructor; simpl; try done.
    - intros q p'. exact (restrict_parent _ _ Hn nf Hnf m' Hsub' Hm' q p').
    - by rewrite reverse_Permutation.
    - by apply parents_first_reverse. }
  destruct bd; cbn [negb].
  - cbn [mbind outcome_bind]. rewrite Hfa. cbn [mbind outcome_bind fst snd app]. rewrite Hfp.
    cbn [mbind outcome_bind]. eexists _, _. split; [done|]. apply Hrest; [|done].
    split; [apply Hval; split; [done|by apply Hanc]|]. intros q [Hq _]%Hval. by apply Hbm.
  - destruct (reorg_spec _ _ Hn (ct_best t) nf Hb Hnf) as (r & Hr & Hpath). rewrite Hr.
    cbn [mbind outcome_bind]. rewrite Hfa. cbn [mbind outcome_bind fst snd app]. rewrite Hfp.
    cbn [mbind outcome_bind]. fold nodes'.
    destruct (forceRefreshBest_wf (mkCachedTree nf (ct_justified t) (ct_best t) nodes' l') Hwf' Hl')
      as (b & Hfr & Hbw). rewrite Hfr. cbn [mbind outcome_bind set_best ct_best].
    assert (Hnf' : valid nodes' nf) by (by eapply valid_root).
    assert (Hna : ¬ anc (ct_nodes t) nf (ct_best t)) by (intros ?%Hanc; done).
    destruct (descend_spec _ _ Hwf' b nf) as (bb & visited & Hd & Hbb & Hup); [apply Hbw|done|].
    rewrite Hd. cbn [mbind outcome_bind fst].
    assert (Hbv : valid nodes' b) by apply Hbw.
    assert (bb = true) as -> by (apply Hbb; by eapply anc_root).
    rewrite boost_assert_true. cbn [mbind outcome_bind snd]. eexists _, _. split; [done|].
    apply (Hrest b (Some _) Hbw).
    apply (reorg_path_extend (ct_root t) _ nf); try done.
    + by apply Hval.
    + eapply restrict_up; [exact Hn|exact Hnf|exact Hsub'|exact Hm'|exact Hbv|by apply Hup].
Qed.
End finalize.
