(* ===== verification/CachedTreeRemove.v ===== *)
(** * CachedTree: removing leaves and the unfinalized part *)

From S2P Require Import Prelude Errors Types CachedTree CachedTreeProofs CachedTreeOps CachedTreeFinalize.

(** [reorg] only looks at parents. *)
Lemma reorg_loop_ext n1 n2 fuel from to revert apply :
  (∀ q, parent_of n1 q = parent_of n2 q) →
  reorg_loop fuel n1 from to revert apply = reorg_loop fuel n2 from to revert apply.
Proof.
  intros Heq. revert from to revert apply. induction fuel as [|fuel IH]; intros; [done|]. simpl.
  rewrite !Heq. repeat case_match; try done; simpl; rewrite ?IH; try done.
  - destruct (parent_of n2 from); simpl; [apply IH|done].
  - destruct (parent_of n2 to); simpl; [apply IH|done].
Qed.

Lemma elem_of_erase_child h (l : list BlockIndex) c :
  NoDup (bi_hash <$> l) → c ∈ erase_child h l ↔ c ∈ l ∧ bi_hash c ≠ h.
Proof.
  induction l as [|x l IH]; simpl; intros Hnd.
  - rewrite elem_of_nil. tauto.
  - apply NoDup_cons in Hnd as [Hx Hnd]. destruct (N.eqb_spec (bi_hash x) h) as [<-|Hne].
    + rewrite elem_of_cons. split; [|naive_solver]. intros Hc. split; [by right|].
      intros Heq. apply Hx. rewrite <- Heq. by apply list_elem_of_fmap_2.
    + rewrite !elem_of_cons, IH by done. naive_solver.
Qed.

Lemma erase_child_sublist h (l : list BlockIndex) : erase_child h l `sublist_of` l.
Proof. induction l as [|x l IH]; simpl; [done|]. case_match; by constructor. Qed.

Section remove.
Context `{BuildMode} `{UnorderedMap}.

Section leaf.
Context (t : CachedTree) (Hwf : tree_wf t).
Context (leaf parent : BlockIndex) (n pn : TreeNode).
Context (Hn : ct_nodes t !! bi_hash leaf = Some n) (Hi : tn_index n = leaf).
Context (Hc : tn_children n = []).
Context (Hp : parent_of (ct_nodes t) leaf = Some parent).
Context (Hpn : ct_nodes t !! bi_hash parent = Some pn) (Hpi : tn_index pn = parent).

Let children := erase_child (bi_hash leaf) (tn_children pn).
Definition trimmed_nodes : Nodes :=
  <[bi_hash parent := set_children children pn]> (ct_nodes t).
Definition removed_nodes : Nodes := delete (bi_hash leaf) trimmed_nodes.

Lemma leaf_valid : valid (ct_nodes t) leaf.
Proof. by exists n. Qed.

Lemma leaf_ne_parent : bi_hash leaf ≠ bi_hash parent.
Proof.
  intros Heq. destruct (parent_of_valid _ _ (tw_nodes _ Hwf) _ _ leaf_valid Hp) as [Hpv Hlt].
  apply (valid_inj (ct_nodes t)) in Heq; [|apply leaf_valid|done]. rewrite Heq in Hlt. lia.
Qed.

Lemma leaf_ne_root : bi_hash leaf ≠ bi_hash (ct_root t).
Proof.
  intros Heq. pose proof (tw_nodes _ Hwf) as Hw.
  apply (valid_inj (ct_nodes t)) in Heq; [|apply leaf_valid|by eapply valid_root].
  rewrite Heq, (parent_of_root _ _ Hw) in Hp. done.
Qed.

Lemma trimmed_parent_of q : parent_of trimmed_nodes q = parent_of (ct_nodes t) q.
Proof.
  assert (Hlk : ∀ h, (tn_parent <$> trimmed_nodes !! h) = (tn_parent <$> ct_nodes t !! h)).
  { intros h. unfold trimmed_nodes. rewrite lookup_insert. case_decide as Heq; [|done].
    by rewrite <- Heq, Hpn. }
  unfold parent_of. pose proof (Hlk (bi_hash q)) as Hq.
  destruct (trimmed_nodes !! bi_hash q) as [n1|], (ct_nodes t !! bi_hash q) as [n2|]; try done.
  simpl in *. injection Hq as ->. destruct (tn_parent n2) as [p|]; [|done]. simpl.
  pose proof (Hlk (bi_hash p)) as Hq.
  by destruct (trimmed_nodes !! bi_hash p), (ct_nodes t !! bi_hash p).
Qed.

Lemma trimmed_reorg from to : reorg trimmed_nodes from to = reorg (ct_nodes t) from to.
Proof.
  unfold reorg, tree_fuel, trimmed_nodes. rewrite map_size_insert, Hpn.
  apply reorg_loop_ext, trimmed_parent_of.
Qed.

Lemma children_NoDup : NoDup (bi_hash <$> tn_children pn).
Proof.
  pose proof (tw_nodes _ Hwf) as Hw. apply NoDup_fmap_2_strong; [|by eapply nw_nodup].
  intros x y Hx Hy Heq. destruct (child_parent _ _ Hw _ _ _ Hpn Hx), (child_parent _ _ Hw _ _ _ Hpn Hy).
  by eapply valid_inj.
Qed.

Lemma elem_of_children c : c ∈ children ↔ c ∈ tn_children pn ∧ bi_hash c ≠ bi_hash leaf.
Proof. apply elem_of_erase_child, children_NoDup. Qed.

Lemma leaf_in_children : leaf ∈ tn_children pn.
Proof.
  destruct (parent_of_child _ _ (tw_nodes _ Hwf) leaf parent n Hn Hi Hp)
    as (_ & _ & _ & pn' & Hpn' & _ & Hin). congruence.
Qed.

Lemma removed_lookup h m :
  removed_nodes !! h = Some m ↔ h ≠ bi_hash leaf ∧
    ∃ m0, ct_nodes t !! h = Some m0 ∧
      m = if decide (h = bi_hash parent) then set_children children m0 else m0.
Proof.
  unfold removed_nodes, trimmed_nodes. rewrite lookup_delete_Some, lookup_insert_Some. split.
  - intros [Hne [[<- <-]|[Hne' Hm]]]; (split; [done|]).
    + exists pn. by rewrite decide_True.
    + exists m. by rewrite decide_False.
  - intros (Hne & m0 & Hm0 & ->). split; [done|]. case_decide as Hd.
    + left. subst h. split; [done|]. congruence.
    + right. done.
Qed.

Lemma removed_valid p :
  valid removed_nodes p ↔ valid (ct_nodes t) p ∧ bi_hash p ≠ bi_hash leaf.
Proof.
  split.
  - intros (m & (Hne & m0 & Hm0 & ->)%removed_lookup & Hmi). split; [|done].
    exists m0. split; [done|]. by case_decide.
  - intros [(m & Hm & Hmi) Hne]. eexists. split; [apply removed_lookup; eauto|].
    by case_decide.
Qed.

(** No other node has the leaf as its parent. *)
Lemma not_leaf_child m h : ct_nodes t !! h = Some m → tn_parent m ≠ Some leaf ∨ h = bi_hash (ct_root t).
Proof.
  intros Hm. pose proof (tw_nodes _ Hwf) as Hw.
  destruct (decide (h = bi_hash (ct_root t))) as [|Hnr]; [by right|left]. intros Hpl.
  destruct (nw_parent _ _ Hw _ _ Hm Hnr) as (p & q & Hp' & Hq & Hqi & _ & Hin).
  assert (p = leaf) as -> by congruence. assert (q = n) as -> by congruence.
  rewrite Hc in Hin. by apply not_elem_of_nil in Hin.
Qed.

Lemma removed_wf : nodes_wf (ct_root t) removed_nodes.
Proof.
  pose proof (tw_nodes _ Hwf) as Hw. pose proof leaf_ne_parent as Hlp.
  assert (Hidx : ∀ h m, tn_index (if decide (h = bi_hash parent) then set_children children m else m)
                 = tn_index m) by (intros; by case_decide).
  assert (Hpar : ∀ h m, tn_parent (if decide (h = bi_hash parent) then set_children children m else m)
                 = tn_parent m) by (intros; by case_decide).
  constructor.
  - intros h m (_ & m0 & Hm0 & ->)%removed_lookup. case_decide; simpl; by eapply nw_key.
  - destruct (nw_root _ _ Hw) as (r & Hr & Hri & Hrp).
    eexists. split; [apply removed_lookup; split; [intros Heq; by apply leaf_ne_root|eauto]|].
    by case_decide.
  - intros h m (Hne & m0 & Hm0 & ->)%removed_lookup Hnr.
    destruct (nw_parent _ _ Hw _ _ Hm0 Hnr) as (p & q & Hp' & Hq & Hqi & Hlt & Hin).
    assert (Hpl : bi_hash p ≠ bi_hash leaf).
    { intros Heq. destruct (not_leaf_child _ _ Hm0) as [Hno|]; [|done]. apply Hno.
      rewrite Hp'. f_equal. eapply valid_inj; [by exists q|apply leaf_valid|done]. }
    exists p, (if decide (bi_hash p = bi_hash parent) then set_children children q else q).
    rewrite Hpar, !Hidx. split; [done|]. split; [apply removed_lookup; eauto|].
    split; [done|]. split; [done|]. case_decide as Hd; [|done].
    simpl. rewrite Hd in Hq. assert (q = pn) as -> by congruence. apply elem_of_children.
    split; [done|]. by rewrite (nw_key _ _ Hw _ _ Hm0).
  - intros h m c (Hne & m0 & Hm0 & ->)%removed_lookup Hcm.
    assert (Hc0 : c ∈ tn_children m0 ∧ bi_hash c ≠ bi_hash leaf).
    { case_decide as Hd.
      - subst h. assert (m0 = pn) as -> by congruence. by apply elem_of_children.
      - split; [done|]. intros Heq. destruct (child_parent _ _ Hw _ _ _ Hm0 Hcm) as [Hcv Hcp].
        apply (valid_inj (ct_nodes t)) in Heq as ->; [|done|apply leaf_valid].
        apply Hd. rewrite <- (nw_key _ _ Hw _ _ Hm0). congruence. }
    destruct Hc0 as [Hc0 Hcl]. destruct (nw_children _ _ Hw _ _ _ Hm0 Hc0) as (cn & Hcn & Hci & Hcp).
    exists (if decide (bi_hash c = bi_hash parent) then set_children children cn else cn).
    split; [apply removed_lookup; eauto|]. by rewrite Hpar, !Hidx.
  - intros h m (Hne & m0 & Hm0 & ->)%removed_lookup. case_decide; [|by eapply nw_nodup].
    simpl. subst h. assert (m0 = pn) as -> by congruence.
    eapply sublist_NoDup; [by eapply nw_nodup|apply erase_child_sublist].
  - intros h m (Hne & m0 & Hm0 & ->)%removed_lookup. case_decide; simpl; by eapply nw_reverted.
Qed.

Definition removed_leaves : gmap BlockHash Slot :=
  delete (bi_hash leaf)
    (match children with
     | [] => emplace (bi_hash parent) (bi_slot parent) (ct_leaves t)
     | _ => ct_leaves t
     end).

Lemma removed_leaves_wf : leaves_wf removed_nodes removed_leaves.
Proof.
  pose proof (tw_leaves _ Hwf) as Hl. pose proof leaf_in_children as Hin.
  pose proof leaf_ne_parent as Hlp.
  assert (Hpl : ct_leaves t !! bi_hash parent = None).
  { destruct (ct_leaves t !! bi_hash parent) as [s|] eqn:Hs; [|done].
    apply Hl in Hs as (m & Hm & Hmc & _). assert (m = pn) as -> by congruence.
    rewrite Hmc in Hin. by apply not_elem_of_nil in Hin. }
  intros h s. unfold removed_leaves. rewrite lookup_delete_Some.
  setoid_rewrite removed_lookup.
  assert (Hsame : h ≠ bi_hash parent →
    match children with
     | [] => emplace (bi_hash parent) (bi_slot parent) (ct_leaves t)
     | _ => ct_leaves t
     end !! h = ct_leaves t !! h).
  { intros Hne. unfold emplace. rewrite Hpl. case_match; [|done]. by rewrite lookup_insert_ne by done. }
  destruct (decide (h = bi_hash parent)) as [->|Hd].
  - destruct children as [|c0 cs] eqn:Hch.
    + unfold emplace. rewrite Hpl, lookup_insert_eq. split.
      * intros [Hne [= <-]]. exists (set_children [] pn).
        split; [split; [done|by exists pn]|]. simpl. by rewrite Hpi.
      * intros (m & (Hne & m0 & Hm0 & ->) & _ & Hs). simpl in Hs.
        assert (m0 = pn) as -> by congruence. split; [done|]. by rewrite <- Hs, Hpi.
    + rewrite Hpl. split; [naive_solver|].
      by intros (m & (Hne & m0 & Hm0 & ->) & Hmc & _).
  - rewrite Hsame by done. rewrite (Hl h s). split.
    + intros (Hne & m & Hm & Hmc & Hs). exists m.
      split; [|done]. split; [done|by exists m].
    + intros (m & (Hne & m0 & Hm0 & ->) & Hmc & Hs). split; [done|]. by exists m0.
Qed.

Lemma removeLeaf_spec :
  ∃ changes t', removeLeaf t (bi_hash leaf) = Ok (changes, t') ∧ tree_wf t' ∧
    ct_root t' = ct_root t ∧ ct_justified t' = ct_justified t ∧
    ct_nodes t' = removed_nodes ∧ rp_prune changes = [leaf] ∧
    match rp_reorg changes with
    | None => ct_best t' = ct_best t
    | Some r => ct_best t = leaf ∧ reorg_path (ct_nodes t) leaf (ct_best t') r
    end.
Proof.
  pose proof (tw_nodes _ Hwf) as Hw. pose proof (tw_leaves _ Hwf) as Hl.
  destruct (tw_best _ Hwf) as [Hbv Hbm].
  assert (Hleaf : isLeaf t (bi_hash leaf) = true).
  { apply bool_decide_eq_true, elem_of_dom. exists (bi_slot leaf). apply Hl. exists n. by rewrite Hi. }
  assert (Hinc : bool_decide (bi_hash leaf ∈ bi_hash <$> tn_children pn) = true).
  { apply bool_decide_eq_true, list_elem_of_fmap_2, leaf_in_children. }
  unfold removeLeaf. rewrite bool_decide_true, boost_assert_true by (by eapply elem_of_dom_2).
  cbn [mbind outcome_bind]. rewrite Hn. cbn [of_option mbind outcome_bind].
  rewrite Hleaf, Hc, bool_decide_true, !boost_assert_true by done. cbn [mbind outcome_bind].
  rewrite Hi, Hp. cbn [of_option mbind outcome_bind]. unfold deref. rewrite Hpn.
  cbn [of_option mbind outcome_bind]. rewrite Hinc, boost_assert_true. cbn [mbind outcome_bind].
  fold children. fold trimmed_nodes. fold removed_leaves. fold removed_nodes.
  set (t1 := mkCachedTree (ct_root t) (ct_justified t) (ct_best t) trimmed_nodes removed_leaves).
  pose proof removed_wf as Hrw. pose proof removed_leaves_wf as Hrl.
  destruct (N.eqb_spec (bi_hash leaf) (bi_hash (ct_best t))) as [Heq|Hne].
  - apply (valid_inj (ct_nodes t)) in Heq; [|apply leaf_valid|done].
    destruct (forceRefreshBest_spec t1) as (b & Hfr & Hin & Hrb & Hmax).
    { intros h s (m & Hm & Hmc & Hs)%Hrl. exists m. simpl.
      assert (Hm' : trimmed_nodes !! h = Some m) by (unfold removed_nodes in Hm; by apply lookup_delete_Some in Hm as [_ ?]).
      split; [done|]. split; [exact (nw_key _ _ Hrw _ _ Hm)|]. split; [done|exact (nw_reverted _ _ Hrw _ _ Hm)]. }
    { intros h m Hm. simpl in Hm. unfold trimmed_nodes in Hm.
      apply lookup_insert_Some in Hm as [[_ <-]|[_ Hm]]; simpl;
        [exact (nw_reverted _ _ Hw _ _ Hpn)|exact (nw_reverted _ _ Hw _ _ Hm)]. }
    rewrite Hfr. cbn [mbind outcome_bind set_best ct_best].
    assert (Hbw : best_wf removed_nodes b).
    { split.
      - destruct Hin as [->|[Hlf _]]; [by eapply valid_root|]. unfold is_leaf_ptr in Hlf. simpl in Hlf.
        pose proof Hlf as (m & Hm & _ & Hms)%Hrl. exists m. split; [done|].
        pose proof (nw_key _ _ Hrw _ _ Hm). destruct (tn_index m), b. simpl in *. congruence.
      - intros p Hpv. destruct (leaf_above _ _ _ Hrw Hpv) as (h & m & Hm & Hmc & Hle).
        etrans; [exact Hle|]. apply (Hmax h). apply Hrl. eauto. }
    assert (Hbv' : valid (ct_nodes t) b) by (apply removed_valid, Hbw).
    destruct (reorg_spec _ _ Hw leaf b leaf_valid Hbv') as (r & Hr & Hpath).
    rewrite trimmed_reorg, Hr. cbn [mbind outcome_bind].
    eexists _, _. split; [done|]. split; [constructor; simpl; done|].
    split_and!; done.
  - eexists _, _. split; [done|]. split.
    { constructor; simpl; [done|done|]. split.
      - apply removed_valid. split; [done|congruence].
      - intros p [Hpv _]%removed_valid. by apply Hbm. }
    split_and!; done.
Qed.
End leaf.

(** ** removeUnfinalized *)
Section unfinalized.
Context (root : BlockIndex) (nodes : Nodes) (Hw : nodes_wf root nodes).

(** [m] holds the nodes whose children have not been visited yet. *)
Record bfs_inv (m : Nodes) (Q : list BlockIndex) : Prop := {
  bi_sub : m ⊆ nodes;
  bi_closed : ∀ c p, valid nodes c → parent_of nodes c = Some p →
    is_Some (m !! bi_hash p) → is_Some (m !! bi_hash c);
  bi_nodup : NoDup Q;
  bi_queue : ∀ q, q ∈ Q → valid nodes q ∧ is_Some (m !! bi_hash q) ∧
    ∀ p, parent_of nodes q = Some p → m !! bi_hash p = None;
  bi_frontier : ∀ c, valid nodes c → is_Some (m !! bi_hash c) →
    c ∈ Q ∨ ∃ p, parent_of nodes c = Some p ∧ is_Some (m !! bi_hash p);
}.

Lemma bfs_step m q Q n :
  bfs_inv m (q :: Q) → m !! bi_hash q = Some n →
  tn_index n = q ∧ bfs_inv (delete (bi_hash q) m) (Q ++ tn_children n) ∧
  (∀ c, c ∈ tn_children n → valid nodes c ∧ parent_of nodes c = Some q ∧
     is_Some (m !! bi_hash c) ∧ bi_hash c ≠ bi_hash q ∧ c ∉ q :: Q).
Proof.
  intros [Hsub Hcl Hnd Hq Hfr] Hn.
  assert (Hn0 : nodes !! bi_hash q = Some n) by (by eapply lookup_weaken).
  destruct (Hq q) as (Hqv & _ & Hqp); [by left|].
  assert (Hni : tn_index n = q).
  { destruct Hqv as (n' & Hn' & <-). congruence. }
  assert (Hch : ∀ c, c ∈ tn_children n → valid nodes c ∧ parent_of nodes c = Some q ∧
     is_Some (m !! bi_hash c) ∧ bi_hash c ≠ bi_hash q ∧ c ∉ q :: Q).
  { intros c Hc. destruct (child_parent _ _ Hw _ _ _ Hn0 Hc) as [Hcv Hcp]. rewrite Hni in Hcp.
    split; [done|]. split; [done|]. split; [by eapply Hcl; [done|done|rewrite Hn]|]. split.
    - intros Heq. apply (valid_inj nodes) in Heq as ->; [|done..].
      destruct (parent_of_valid _ _ Hw _ _ Hqv Hcp). lia.
    - intros Hin. destruct (Hq c Hin) as (_ & _ & Hp). by rewrite (Hp q Hcp) in Hn. }
  split; [done|]. split; [|done]. apply NoDup_cons in Hnd as [Hqn Hnd]. constructor.
  - etrans; [apply delete_subseteq|done].
  - intros c p Hcv Hcp [pn [Hpne Hpm]%lookup_delete_Some].
    rewrite lookup_delete_ne; [by eapply Hcl; [done|done|rewrite Hpm]|].
    intros Heq. apply (valid_inj nodes) in Heq as ->; [|done..]. by rewrite (Hqp p Hcp) in Hpm.
  - apply NoDup_app. split; [done|]. split; [|by eapply nw_nodup].
    intros c Hc (_ & _ & _ & _ & Hno)%Hch. apply Hno. by right.
  - intros c [Hc|Hc]%elem_of_app.
    + destruct (Hq c) as (Hcv & Hcs & Hcp); [by right|]. split; [done|]. split.
      * rewrite lookup_delete_ne; [done|]. intros Heq.
        apply (valid_inj nodes) in Heq as ->; done.
      * intros p Hp. apply lookup_delete_None. right. by apply Hcp.
    + destruct (Hch c Hc) as (Hcv & Hcp & Hcs & Hne & _). split; [done|]. split.
      * by rewrite lookup_delete_ne.
      * intros p Hp. assert (p = q) as -> by congruence. by rewrite lookup_delete_eq.
  - intros c Hcv [cn [Hcne Hcm]%lookup_delete_Some].
    destruct (Hfr c Hcv) as [[->|Hc]%elem_of_cons|(p & Hp & Hpm)]; [by rewrite Hcm|done| |].
    + left. apply elem_of_app. by left.
    + destruct (decide (bi_hash p = bi_hash q)) as [Heq|Hne].
      * left. apply elem_of_app. right.
        destruct (parent_of_valid _ _ Hw _ _ Hcv Hp) as [Hpv _].
        apply (valid_inj nodes) in Heq as ->; [|done..]. destruct Hcv as (cn' & Hcn' & Hci).
        destruct (parent_of_child _ _ Hw c q cn' Hcn' Hci Hp) as (_ & _ & _ & pn & Hpn & _ & Hin).
        congruence.
      * right. exists p. by rewrite lookup_delete_ne by done.
Qed.

Lemma unfinalized_loop_spec fuel cur m Q P :
  bfs_inv m Q → (size m ≤ fuel)%nat → (∀ h n, m !! h = Some n → cur !! h = Some n) →
  ∃ P', unfinalized_loop fuel cur Q P = Ok (P ++ P') ∧
    parents_first nodes P' ∧ NoDup P' ∧
    (∀ c, c ∈ P' ↔ valid nodes c ∧ is_Some (m !! bi_hash c) ∧ c ∉ Q).
Proof.
  revert cur m Q P. induction fuel as [|fuel IH]; intros cur m Q P Hinv Hf Hcur;
    (destruct Q as [|q Q];
      [exists []; rewrite app_nil_r; split; [done|];
       split; [by intros i j c p Hi; rewrite lookup_nil in Hi|]; split; [constructor|];
       intros c; rewrite elem_of_nil; split; [done|]; intros (Hcv & Hcm & _); exfalso|]).
  1, 3: revert c Hcv Hcm; apply (parent_ind root nodes Hw (λ c, is_Some (m !! bi_hash c) → False));
    intros c Hcv IHc Hcm; destruct (bi_frontier _ _ Hinv c Hcv Hcm) as [?%not_elem_of_nil|(p & Hp & Hpm)];
    [done|by eapply IHc].
  - destruct (bi_queue _ _ Hinv q) as (_ & [n Hn] & _); [by left|].
    assert (size m = 0%nat) as ->%map_size_empty_inv by lia. done.
  - destruct (bi_queue _ _ Hinv q) as (Hqv & [n Hn] & Hqp); [by left|].
    destruct (bfs_step _ _ _ _ Hinv Hn) as (Hni & Hinv' & Hch).
    simpl. unfold deref. rewrite (Hcur _ _ Hn). cbn [of_option mbind outcome_bind].
    destruct (IH (<[bi_hash q := set_children [] n]> cur) _ _ (P ++ tn_children n) Hinv')
      as (P' & Hr & Hpf & Hnd & HP).
    { rewrite map_size_delete, Hn. lia. }
    { intros h n' [Hne Hm]%lookup_delete_Some. rewrite lookup_insert_ne by done. by apply Hcur. }
    rewrite Hr. exists (tn_children n ++ P'). rewrite app_assoc. split; [done|].
    assert (HP' : ∀ c, c ∈ P' → valid nodes c ∧ bi_hash c ≠ bi_hash q ∧ is_Some (m !! bi_hash c) ∧ c ∉ Q ++ tn_children n).
    { intros c (Hcv & [cn [? ?]%lookup_delete_Some] & ?)%HP. split; [done|]. by eauto. }
    split; [|split].
    + intros i j c p Hi Hj Hp. apply lookup_app_Some in Hi as [Hi|[Hil Hi]].
      * apply list_elem_of_lookup_2, Hch in Hi as (_ & Hcp & _). assert (p = q) as -> by congruence.
        apply list_elem_of_lookup_2, elem_of_app in Hj as [(_ & _ & _ & Hqq & _)%Hch|(_ & Hqq & _)%HP'];
          by destruct Hqq.
      * apply lookup_app_Some in Hj as [Hj%lookup_lt_Some|[Hjl Hj]]; [lia|].
        specialize (Hpf _ _ _ _ Hi Hj Hp). lia.
    + apply NoDup_app. split; [|split; [|done]].
      * assert (Hn0 : nodes !! bi_hash q = Some n) by (by eapply lookup_weaken; [|apply Hinv]).
        by eapply nw_nodup.
      * intros c Hc (_ & _ & _ & Hno)%HP'. apply Hno, elem_of_app. by right.
    + intros c. rewrite elem_of_app, HP. split.
      * intros [(Hcv & _ & Hcm & _ & Hno)%Hch|(Hcv & [cn [Hne Hcm]%lookup_delete_Some] & Hno)]; [done|].
        split; [done|]. split; [by eauto|]. intros [->|Hc]%elem_of_cons; [done|].
        apply Hno, elem_of_app. by left.
      * intros (Hcv & Hcm & Hno). destruct (decide (c ∈ tn_children n)); [by left|right].
        split; [done|]. rewrite lookup_delete_ne.
        { split; [done|]. rewrite elem_of_app. intros [?|?]; [|done]. apply Hno. by right. }
        intros Heq. apply Hno, elem_of_cons. left. by eapply valid_inj.
Qed.
End unfinalized.

Lemma removeUnfinalized_spec t :
  tree_wf t →
  ∃ changes, removeUnfinalized t = Ok (changes, CachedTree_new (ct_root t)) ∧
    (∀ c, c ∈ rp_prune changes ↔ valid (ct_nodes t) c ∧ c ≠ ct_root t) ∧
    NoDup (rp_prune changes) ∧ children_first (ct_nodes t) (rp_prune changes) ∧
    match rp_reorg changes with
    | None => ct_best t = ct_root t
    | Some r => reorg_path (ct_nodes t) (ct_best t) (ct_root t) r
    end.
Proof.
  intros Hwf. pose proof (tw_nodes _ Hwf) as Hw. destruct (tw_best _ Hwf) as [Hb _].
  pose proof (valid_root _ _ Hw) as Hrv. pose proof (parent_of_root _ _ Hw) as Hrp.
  assert (Hinv : bfs_inv (ct_nodes t) (ct_nodes t) [ct_root t]).
  { constructor; [done| |apply NoDup_singleton| |].
    - intros c p Hc _ _. by apply valid_lookup.
    - intros q ->%list_elem_of_singleton. split; [done|]. split; [by apply valid_lookup|]. congruence.
    - intros c Hc _. destruct (decide (c = ct_root t)) as [->|Hne]; [left; by left|right].
      destruct (parent_of_is_Some _ _ Hw c Hc Hne) as [p Hp]. exists p. split; [done|].
      by apply valid_lookup; eapply parent_of_valid in Hp as [? _]. }
  destruct (unfinalized_loop_spec _ _ Hw (tree_fuel (ct_nodes t)) (ct_nodes t) (ct_nodes t) _ [] Hinv)
    as (P & HP & Hpf & Hnd & Hin); [unfold tree_fuel; lia|done|].
  assert (Hprune : (∀ c, c ∈ reverse P ↔ valid (ct_nodes t) c ∧ c ≠ ct_root t) ∧
    NoDup (reverse P) ∧ children_first (ct_nodes t) (reverse P)).
  { split; [|split; [by rewrite reverse_Permutation|by apply parents_first_reverse]].
    intros c. rewrite elem_of_reverse, Hin, list_elem_of_singleton. split; [naive_solver|].
    intros [Hc Hne]. split; [done|]. split; [by apply valid_lookup|done]. }
  unfold removeUnfinalized. destruct (N.eqb_spec (bi_hash (ct_best t)) (bi_hash (ct_root t))) as [Heq|Hne].
  - cbn [negb mbind outcome_bind]. rewrite HP. cbn [mbind outcome_bind app].
    eexists. split; [done|]. simpl. destruct Hprune as (? & ? & ?). split_and!; [done..|].
    by apply (valid_inj (ct_nodes t)).
  - destruct (reorg_spec _ _ Hw (ct_best t) (ct_root t) Hb Hrv) as (r & Hr & Hpath).
    cbn [negb]. rewrite Hr. cbn [mbind outcome_bind]. rewrite HP. cbn [mbind outcome_bind app].
    eexists. split; [done|]. simpl. destruct Hprune as (? & ? & ?). split_and!; done.
Qed.
End remove.
