(* ===== verification/CachedTreeTheorems.v ===== *)
(** * CachedTree: the theorems *)

From S2P Require Import Prelude Errors Types CachedTree CachedTreeProofs CachedTreeOps CachedTreeFinalize CachedTreeRemove.

(** ** bestWith *)
Section bestWith.
Context `{BuildMode} `{UnorderedMap}.

Lemma bestWith_loop_spec root nodes fuel required c best :
  nodes_wf root nodes → valid nodes required → (length c ≤ fuel)%nat →
  (∀ p, p ∈ c → valid nodes p) → anc nodes required best → valid nodes best →
  ∃ b, bestWith_loop fuel nodes required c best = Ok b ∧ anc nodes required b ∧ valid nodes b ∧
    bi_slot best ≤ bi_slot b ∧
    (∀ p, p ∈ c → anc nodes required p → bi_slot p ≤ bi_slot b).
Proof.
  intros Hw Hr. revert fuel best. induction c as [|p c IH]; intros fuel best Hlen Hc Ha Hb.
  { destruct fuel; exists best; (split; [done|]); (split; [done|]); (split; [done|]);
      (split; [done|]); intros p Hp; by apply not_elem_of_nil in Hp. }
  destruct fuel as [|fuel]; [simpl in Hlen; lia|]. simpl.
  assert (Hpv : valid nodes p) by (apply Hc; by left).
  assert (Hstep : ∀ best', anc nodes required best' → valid nodes best' → bi_slot best ≤ bi_slot best' →
    (anc nodes required p → bi_slot p ≤ bi_slot best') →
    ∃ b, bestWith_loop fuel nodes required c best' = Ok b ∧ anc nodes required b ∧ valid nodes b ∧
    bi_slot best ≤ bi_slot b ∧
    (∀ q, q ∈ p :: c → anc nodes required q → bi_slot q ≤ bi_slot b)).
  { intros best' Ha' Hb' Hle Hp. destruct (IH fuel best') as (b & ? & ? & ? & ? & Hmax);
      [simpl in Hlen; lia|intros; apply Hc; by right|done|done|].
    exists b. split_and!; [done|done|done|lia|]. intros q [->|Hq]%elem_of_cons Hqa; [|by apply Hmax].
    specialize (Hp Hqa). lia. }
  destruct (N.leb_spec (bi_slot p) (bi_slot required)) as [Hle|Hgt].
  { apply Hstep; [done..|]. intros Hpa. destruct (anc_slot _ _ Hw _ _ Hb Ha). lia. }
  destruct Hpv as (n & Hn & Hi) eqn:Hpv'. clear Hpv'. unfold deref. rewrite Hn. simpl.
  rewrite (nw_reverted _ _ Hw _ _ Hn). unfold weight.
  destruct (N.ltb_spec (bi_slot best) (bi_slot p)) as [Hlt|Hge]; [|by apply Hstep].
  destruct (canDescend_spec _ _ Hw p required) as (ok & Hok & Hanc); [by exists n|done|].
  rewrite Hok. simpl. destruct ok.
  - apply Hstep; [by apply Hanc|by exists n|lia|done].
  - apply Hstep; [done..|]. intros Hpa%Hanc. done.
Qed.

Lemma bestWith_distinct_slots t required :
  tree_wf t → valid (ct_nodes t) required →
  (∀ h1 h2 s, ct_leaves t !! h1 = Some s → ct_leaves t !! h2 = Some s → h1 = h2) →
  ∃ b, bestWith t required = Ok b ∧ valid (ct_nodes t) b ∧ anc (ct_nodes t) required b ∧
    ∀ p, valid (ct_nodes t) p → is_leaf_ptr t p → anc (ct_nodes t) required p →
      bi_slot p ≤ bi_slot b.
Proof.
  intros Hwf Hr Hinj. pose proof (tw_nodes _ Hwf) as Hw.
  destruct (leaf_candidates_spec t) as (c & Hc & Hin & Hall & Hlen);
    [apply leaves_wf_ok; [done|apply Hwf]|].
  unfold bestWith. rewrite Hc. cbn [mbind outcome_bind].
  destruct (bestWith_loop_spec _ _ (tree_fuel (ct_nodes t)) required c required Hw Hr)
    as (b & Hb & Ha & Hv & _ & Hmax);
    [unfold tree_fuel; lia|intros; by apply Hin|by constructor|done|].
  exists b. split; [done|]. split; [done|]. split; [done|]. intros p Hp Hpl Hpa.
  destruct (Hall _ _ Hpl) as (q & Hq & Hqs). destruct (Hin q Hq) as [Hql _].
  apply Hmax; [|done]. unfold is_leaf_ptr in *. rewrite Hqs in Hql.
  assert (bi_hash q = bi_hash p) as Heq by (by eapply Hinj).
  destruct p, q. simpl in *. by subst.
Qed.
End bestWith.

(** ** The states a tree can go through *)
Section steps.
Context `{BuildMode} `{UnorderedMap}.

Inductive tree_step : CachedTree → CachedTree → Prop :=
| step_add t idx parent pn ro t' :
    ct_nodes t !! bi_hash parent = Some pn → tn_index pn = parent →
    bi_slot parent < bi_slot idx →
    add t (TreeNode_child idx pn) = Ok (ro, t') → tree_step t t'
| step_finalize t nf changes t' :
    find t (bi_hash nf) = Some nf → finalize t nf = Ok (changes, t') → tree_step t t'
| step_setJustified t h j :
    find t h = Some j → tree_step t (setJustified t j)
| step_removeLeaf t h changes t' :
    isLeaf t h = true → h ≠ bi_hash (ct_root t) →
    removeLeaf t h = Ok (changes, t') → tree_step t t'
| step_removeUnfinalized t changes t' :
    removeUnfinalized t = Ok (changes, t') → tree_step t t'
| step_refresh t t' : forceRefreshBest t = Ok t' → tree_step t t'.

Inductive tree_reachable : CachedTree → Prop :=
| reachable_new root : tree_reachable (CachedTree_new root)
| reachable_step t t' : tree_reachable t → tree_step t t' → tree_reachable t'.

Lemma find_valid t h p : tree_wf t → find t h = Some p → valid (ct_nodes t) p ∧ bi_hash p = h.
Proof.
  intros Hwf. unfold find. rewrite fmap_Some. intros (n & Hn & ->). split.
  - eapply valid_node; [apply Hwf|done].
  - eapply nw_key; [apply Hwf|done].
Qed.

Lemma leaf_has_parent t h :
  tree_wf t → isLeaf t h = true → h ≠ bi_hash (ct_root t) →
  ∃ leaf parent n pn, bi_hash leaf = h ∧ ct_nodes t !! bi_hash leaf = Some n ∧ tn_index n = leaf ∧
    tn_children n = [] ∧ parent_of (ct_nodes t) leaf = Some parent ∧
    ct_nodes t !! bi_hash parent = Some pn ∧ tn_index pn = parent.
Proof.
  intros Hwf Hl%bool_decide_eq_true Hne. pose proof (tw_nodes _ Hwf) as Hw.
  apply elem_of_dom in Hl as [s (n & Hn & Hc & _)%(tw_leaves _ Hwf)].
  pose proof (nw_key _ _ Hw _ _ Hn) as Hk.
  destruct (parent_of_is_Some _ _ Hw (tn_index n)) as [p Hp].
  { by eapply valid_node. }
  { intros Heq. apply Hne. by rewrite <- Hk, Heq. }
  destruct (parent_of_valid _ _ Hw (tn_index n) p) as [(pn & Hpn & Hpi) _]; [by eapply valid_node|done|].
  exists (tn_index n), p, n, pn. split_and!; try done. by rewrite Hk.
Qed.

Lemma tree_step_wf t t' : tree_wf t → tree_step t t' → tree_wf t'.
Proof.
  intros Hwf Hs. destruct Hs as [t idx parent pn ro t' Hpn Hpi Hlt Ha|t nf ch t' Hf Hfin|t h j Hf
    |t h ch t' Hl Hne Hr|t ch t' Hr|t t' Hr].
  - destruct (ct_nodes t !! bi_hash idx) as [n0|] eqn:Hn.
    + rewrite (add_existing t (TreeNode_child idx pn) n0) in Ha by done. by injection Ha as <- <-.
    + destruct (add_spec t Hwf idx parent pn Hn Hpn Hpi Hlt) as (ro' & t1 & Ha' & Hwf' & _).
      rewrite Ha' in Ha. by injection Ha as <- <-.
  - apply find_valid in Hf as [Hv _]; [|done].
    destruct (finalize_spec t nf Hwf Hv) as (ch' & t1 & Hf' & [Hwf' _]).
    rewrite Hf' in Hfin. by injection Hfin as <- <-.
  - by destruct Hwf.
  - destruct (leaf_has_parent t h Hwf Hl Hne) as (leaf & parent & n & pn & <- & Hn & Hi & Hc & Hp & Hpn & Hpi).
    destruct (removeLeaf_spec t Hwf leaf parent n pn Hn Hi Hc Hp Hpn Hpi) as (ch' & t1 & Hr' & Hwf' & _).
    rewrite Hr' in Hr. by injection Hr as <- <-.
  - destruct (removeUnfinalized_spec t Hwf) as (ch' & Hr' & _). rewrite Hr' in Hr. injection Hr as <- <-.
    apply CachedTree_new_wf.
  - destruct (forceRefreshBest_wf t) as (b & Hr' & Hb); [apply Hwf..|]. rewrite Hr' in Hr.
    injection Hr as <-. destruct Hwf. by constructor.
Qed.

Lemma tree_reachable_wf t : tree_reachable t → tree_wf t.
Proof.
  induction 1 as [root|t t' _ IH Hs]; [apply CachedTree_new_wf|by eapply tree_step_wf].
Qed.

(** C16: every tree built from a root by adding blocks at later slots than their parents,
    finalizing, justifying, removing leaves, dropping the unfinalized part and
    refreshing the best block is well formed: parents and children agree, the leaf
    table lists exactly the childless blocks, and the best block is a node with the
    latest slot of all. *)
Theorem cached_tree_invariant t : tree_reachable t → tree_wf t.
Proof. apply tree_reachable_wf. Qed.

(** Finalizing a block always succeeds and leaves exactly its subtree.  The prune list
    holds, once each and children before parents, the blocks that are neither
    ancestors nor descendants; the reorg, if any, is the way from the old best block
    to the new one through their lowest common ancestor. *)
Theorem finalize_keeps_subtree t nf :
  tree_wf t → find t (bi_hash nf) = Some nf →
  ∃ changes t', finalize t nf = Ok (changes, t') ∧ finalized_to t nf changes t'.
Proof. intros Hwf Hf. apply find_valid in Hf as [Hv _]; [|done]. by apply finalize_spec. Qed.

(** C7: for two blocks of a well-formed tree reorg returns, without an exception, their
    lowest common ancestor, the blocks to revert from the first one down to it and the
    blocks to apply from it up to the second one. *)
Theorem reorg_is_lca_path t from to :
  tree_wf t → find t (bi_hash from) = Some from → find t (bi_hash to) = Some to →
  ∃ r, reorg (ct_nodes t) from to = Ok r ∧ reorg_path (ct_nodes t) from to r.
Proof.
  intros Hwf [Hf _]%find_valid [Ht _]%find_valid; [|done..]. eapply reorg_spec; [apply Hwf|done..].
Qed.

(** Adding a block under a known parent at a later slot always succeeds, keeps every
    other block, and changes the best block exactly when the new one has a later
    slot, reporting the reorganisation. *)
Theorem add_grows_tree t idx parent pn :
  tree_wf t → ct_nodes t !! bi_hash idx = None →
  ct_nodes t !! bi_hash parent = Some pn → tn_index pn = parent → bi_slot parent < bi_slot idx →
  ∃ ro t', add t (TreeNode_child idx pn) = Ok (ro, t') ∧ tree_wf t' ∧
    (∀ p, valid (ct_nodes t') p ↔ p = idx ∨ valid (ct_nodes t) p) ∧
    match ro with
    | None => ct_best t' = ct_best t ∧ bi_slot idx ≤ bi_slot (ct_best t)
    | Some r => ct_best t' = idx ∧ reorg_path (ct_nodes t') (ct_best t) idx r
    end.
Proof.
  intros Hwf Hn Hpn Hpi Hlt.
  destruct (add_spec t Hwf idx parent pn Hn Hpn Hpi Hlt)
    as (ro & t' & Ha & Hwf' & _ & _ & Hnodes & Hnone & Hsome).
  assert (Hv : ∀ p, valid (ct_nodes t') p ↔ p = idx ∨ valid (ct_nodes t) p).
  { intros p. rewrite Hnodes. by eapply added_valid. }
  exists ro, t'. split; [done|]. split; [done|]. split; [done|].
  destruct ro as [r|]; [by apply Hsome|]. split; [by apply Hnone|].
  rewrite <- (Hnone eq_refl). apply Hwf'. apply Hv. by left.
Qed.

(** Removing a leaf other than the root always succeeds and removes exactly that
    block; if it was the best block, the returned reorg leads to the new best. *)
Theorem removeLeaf_removes_only_leaf t h :
  tree_wf t → isLeaf t h = true → h ≠ bi_hash (ct_root t) →
  ∃ changes t', removeLeaf t h = Ok (changes, t') ∧ tree_wf t' ∧
    (∀ p, valid (ct_nodes t') p ↔ valid (ct_nodes t) p ∧ bi_hash p ≠ h) ∧
    bi_hash <$> rp_prune changes = [h] ∧
    match rp_reorg changes with
    | None => ct_best t' = ct_best t
    | Some r => bi_hash (ct_best t) = h ∧ reorg_path (ct_nodes t) (ct_best t) (ct_best t') r
    end.
Proof.
  intros Hwf Hl Hne.
  destruct (leaf_has_parent t h Hwf Hl Hne) as (leaf & parent & n & pn & <- & Hn & Hi & Hc & Hp & Hpn & Hpi).
  destruct (removeLeaf_spec t Hwf leaf parent n pn Hn Hi Hc Hp Hpn Hpi)
    as (ch & t' & Hr & Hwf' & _ & _ & Hnodes & Hprune & Hreorg).
  exists ch, t'. split; [done|]. split; [done|]. split; [|split].
  - intros p. rewrite Hnodes. by eapply removed_valid.
  - by rewrite Hprune.
  - destruct (rp_reorg ch); [|done]. destruct Hreorg as [-> ?]. done.
Qed.

(** When no two leaves share a slot, bestWith returns a block that descends from the
    required one and has the latest slot among the leaves that do. *)
Theorem bestWith_is_best t required :
  tree_wf t → find t (bi_hash required) = Some required →
  (∀ h1 h2 s, ct_leaves t !! h1 = Some s → ct_leaves t !! h2 = Some s → h1 = h2) →
  ∃ b, bestWith t required = Ok b ∧ anc (ct_nodes t) required b ∧
    ∀ p, find t (bi_hash p) = Some p → isLeaf t (bi_hash p) = true →
      anc (ct_nodes t) required p → bi_slot p ≤ bi_slot b.
Proof.
  intros Hwf [Hr _]%find_valid Hinj; [|done].
  destruct (bestWith_distinct_slots t required Hwf Hr Hinj) as (b & Hb & _ & Ha & Hmax).
  exists b. split; [done|]. split; [done|]. intros p [Hp _]%find_valid Hl Hpa; [|done].
  apply Hmax; [done| |done]. apply bool_decide_eq_true, elem_of_dom in Hl as [s Hs].
  unfold is_leaf_ptr. pose proof Hs as (n & Hn & _ & Hns)%(tw_leaves _ Hwf).
  destruct Hp as (n' & Hn' & Hi). congruence.
Qed.
End steps.

(** ** Examples *)
Module TreeEx.
#[local] Existing Instance DebugBuild.
#[local] Existing Instance CanonicalOrder.

Definition root := mkBlockIndex 0 100.
Definition a := mkBlockIndex 1 101.
Definition b := mkBlockIndex 2 102.
Definition c := mkBlockIndex 5 103.
Definition d := mkBlockIndex 5 104.

Definition grow (t : CachedTree) (idx parent : BlockIndex) : CachedTree :=
  match ct_nodes t !! bi_hash parent with
  | Some pn => match add t (TreeNode_child idx pn) with Ok (_, t') => t' | _ => t end
  | None => t
  end.

Definition t1 : CachedTree := grow (CachedTree_new root) a root.
Definition t2 : CachedTree := grow t1 b root.
Definition t3 : CachedTree := grow t2 c a.
(** Two branches whose tips share slot 5. *)
Definition t4 : CachedTree := grow t3 d b.

Lemma grow_reachable t idx parent pn r :
  tree_reachable t → ct_nodes t !! bi_hash parent = Some pn → tn_index pn = parent →
  bi_slot parent < bi_slot idx → add t (TreeNode_child idx pn) = Ok r →
  tree_reachable (grow t idx parent).
Proof.
  intros Ht Hpn Hpi Hlt Ha. eapply reachable_step; [done|]. destruct r as [ro t'].
  eapply step_add; [done|done|done|]. unfold grow. rewrite Hpn. by rewrite Ha.
Qed.

Lemma t4_reachable : tree_reachable t4.
Proof.
  do 4 (eapply grow_reachable; [|vm_compute; reflexivity..]). apply reachable_new.
Qed.
Lemma t3_reachable : tree_reachable t3.
Proof.
  do 3 (eapply grow_reachable; [|vm_compute; reflexivity..]). apply reachable_new.
Qed.
Lemma t4_wf : tree_wf t4.
Proof. apply tree_reachable_wf, t4_reachable. Qed.
Lemma t3_wf : tree_wf t3.
Proof. apply tree_reachable_wf, t3_reachable. Qed.

Lemma cached_tree_invariant_witness : tree_wf t4.
Proof. exact (cached_tree_invariant t4 t4_reachable). Defined.

Lemma finalize_keeps_subtree_witness :
  ∃ changes t', finalize t4 a = Ok (changes, t') ∧ finalized_to t4 a changes t'.
Proof. apply (finalize_keeps_subtree t4 a); [exact t4_wf|by vm_compute]. Defined.

Lemma reorg_is_lca_path_witness :
  (∃ r, reorg (ct_nodes t4) c d = Ok r ∧ reorg_path (ct_nodes t4) c d r) ∧
  reorg (ct_nodes t4) c d = Ok (mkReorg root [c; a] [b; d]).
Proof.
  split; [apply (reorg_is_lca_path t4 c d); [exact t4_wf|by vm_compute..]|by vm_compute].
Defined.

Lemma add_grows_tree_witness :
  ∃ ro t', add t3 (TreeNode_child d (mkTreeNode b (Some root) 1 false [])) = Ok (ro, t') ∧ tree_wf t' ∧
    (∀ p, valid (ct_nodes t') p ↔ p = d ∨ valid (ct_nodes t3) p) ∧
    match ro with
    | None => ct_best t' = ct_best t3 ∧ bi_slot d ≤ bi_slot (ct_best t3)
    | Some r => ct_best t' = d ∧ reorg_path (ct_nodes t') (ct_best t3) d r
    end.
Proof. apply (add_grows_tree t3 d b); [exact t3_wf|by vm_compute..]. Defined.

Lemma removeLeaf_removes_only_leaf_witness :
  ∃ changes t', removeLeaf t4 (bi_hash c) = Ok (changes, t') ∧ tree_wf t' ∧
    (∀ p, valid (ct_nodes t') p ↔ valid (ct_nodes t4) p ∧ bi_hash p ≠ bi_hash c) ∧
    bi_hash <$> rp_prune changes = [bi_hash c] ∧
    match rp_reorg changes with
    | None => ct_best t' = ct_best t4
    | Some r => bi_hash (ct_best t4) = bi_hash c ∧ reorg_path (ct_nodes t4) (ct_best t4) (ct_best t') r
    end.
Proof. apply (removeLeaf_removes_only_leaf t4 (bi_hash c)); [exact t4_wf|by vm_compute..]. Defined.

Lemma bestWith_is_best_witness :
  (∃ x, bestWith t3 a = Ok x ∧ anc (ct_nodes t3) a x ∧
    ∀ p, find t3 (bi_hash p) = Some p → isLeaf t3 (bi_hash p) = true →
      anc (ct_nodes t3) a p → bi_slot p ≤ bi_slot x) ∧
  bestWith t3 a = Ok c.
Proof.
  split; [|by vm_compute]. apply (bestWith_is_best t3 a); [exact t3_wf|by vm_compute|].
  intros h1 h2 s H1 H2.
  assert (Hl : ct_leaves t3 = {[ 102 := 2; 103 := 5 ]}) by (by vm_compute).
  rewrite Hl, lookup_insert_Some, lookup_singleton_Some in H1, H2. lia.
Defined.
End TreeEx.

(** Without that condition bestWith can miss the answer.  In a well-formed tree with
    two branches whose tips [c] and [d] share a slot, whatever the iteration order of
    the leaf table, bestWith applied to one of the branch roots returns that branch
    root itself instead of the tip above it, because the candidate set keeps one leaf
    per slot. *)
Theorem bestWith_misses_equal_slots `{BuildMode} `{UnorderedMap} :
  tree_wf TreeEx.t4 ∧
  anc (ct_nodes TreeEx.t4) TreeEx.a TreeEx.c ∧ anc (ct_nodes TreeEx.t4) TreeEx.b TreeEx.d ∧
  (bestWith TreeEx.t4 TreeEx.a = Ok TreeEx.a ∨ bestWith TreeEx.t4 TreeEx.b = Ok TreeEx.b).
Proof.
  split; [apply TreeEx.t4_wf|]. split; [|split].
  - eapply anc_up; [by vm_compute|]. apply anc_refl. eexists. split; by vm_compute.
  - eapply anc_up; [by vm_compute|]. apply anc_refl. eexists. split; by vm_compute.
  - pose proof (iteration_perm (ct_leaves TreeEx.t4)) as Hp.
    assert (Hl : map_to_list (ct_leaves TreeEx.t4) ≡ₚ [(103, 5); (104, 5)]).
    { assert (ct_leaves TreeEx.t4 = {[ 103 := 5; 104 := 5 ]}) as -> by (by vm_compute).
      rewrite map_to_list_insert by done. by rewrite map_to_list_singleton. }
    rewrite Hl in Hp. symmetry in Hp.
    assert (Hcases : iteration (ct_leaves TreeEx.t4) = [(103, 5); (104, 5)] ∨
                     iteration (ct_leaves TreeEx.t4) = [(104, 5); (103, 5)]).
    { apply Permutation_length_2_inv in Hp as [->| ->]; auto. }
    unfold bestWith, leaf_candidates. destruct Hcases as [-> | ->].
    + right. by vm_compute.
    + left. by vm_compute.
Qed.
