(* ===== verification/Storage.v ===== *)
(** * Key-value storage (src/src/storage)

    [SpacedStorage] is the interface the block storage is written against
    (src/src/storage/spaced_storage.hpp); its laws say what a store without I/O
    faults does.  [InMemoryStorage] and [InMemorySpacedStorage]
    (src/src/storage/in_memory) are an implementation, and satisfy the laws.
    Keys and values are byte strings of a type [B]; the in-memory store keys its
    [std::map] by the hexadecimal form of the key, which determines the key. *)

From S2P Require Import Prelude Errors Types.

(** storage::Space *)
Inductive Space :=
| Default | SlotToHashes | Header | AttestationSpace | SignatureSpace | Body | StateSpace.

#[global] Instance Space_eq_dec : EqDecision Space.
Proof. solve_decision. Defined.
#[global] Instance Space_countable : Countable Space.
Proof.
  refine (inj_countable'
    (λ s, match s with
          | Default => 0 | SlotToHashes => 1 | Header => 2 | AttestationSpace => 3
          | SignatureSpace => 4 | Body => 5 | StateSpace => 6 end)
    (λ n, match n with
          | 0 => Default | 1 => SlotToHashes | 2 => Header | 3 => AttestationSpace
          | 4 => SignatureSpace | 5 => Body | _ => StateSpace end) _).
  by intros [].
Defined.

(** ** The interface *)
Class SpacedStorage (B W : Type) := {
  ss_tryGet : Space → B → SM W error (option B);
  ss_contains : Space → B → SM W error bool;
  ss_put : Space → B → B → SM W error ();
  ss_remove : Space → B → SM W error ();
}.

(** A store without I/O faults: [ss_view w sp k] is the value stored under [k]. *)
Class SpacedStorageLaws (B W : Type) `{EqDecision B} `{SpacedStorage B W} := {
  ss_view : W → Space → B → option B;
  ss_wf : W → Prop;
  ss_tryGet_law w sp k : ss_wf w →
    ∃ w', ss_tryGet sp k w = (Ok (ss_view w sp k), w') ∧ ss_wf w' ∧
      ∀ sp' k', ss_view w' sp' k' = ss_view w sp' k';
  ss_contains_law w sp k : ss_wf w →
    ∃ w', ss_contains sp k w = (Ok (bool_decide (is_Some (ss_view w sp k))), w') ∧
      ss_wf w' ∧ ∀ sp' k', ss_view w' sp' k' = ss_view w sp' k';
  ss_put_law w sp k v : ss_wf w →
    ∃ w', ss_put sp k v w = (Ok (), w') ∧ ss_wf w' ∧
      ∀ sp' k', ss_view w' sp' k' =
        if decide (sp' = sp ∧ k' = k) then Some v else ss_view w sp' k';
  ss_remove_law w sp k : ss_wf w →
    ∃ w', ss_remove sp k w = (Ok (), w') ∧ ss_wf w' ∧
      ∀ sp' k', ss_view w' sp' k' =
        if decide (sp' = sp ∧ k' = k) then None else ss_view w sp' k';
}.

(** ** InMemoryStorage *)
Section in_memory.
Context {B : Type} `{Countable B} `{BuildMode}.
(** The number of bytes of a value. *)
Context (byte_size : B → N).

Record InMemoryStorage := mkInMemoryStorage {
  im_storage : gmap B B;
  im_size : N;
}.

Definition InMemoryStorage_new : InMemoryStorage := mkInMemoryStorage ∅ 0.

Definition im_get (s : InMemoryStorage) (key : B) : result B :=
  match im_storage s !! key with
  | Some v => Ok v
  | None => Err (E_Storage NOT_FOUND)
  end.

Definition im_tryGet (s : InMemoryStorage) (key : B) : result (option B) :=
  Ok (im_storage s !! key).

Definition im_put (s : InMemoryStorage) (key value : B) : result InMemoryStorage :=
  size ← (match im_storage s !! key with
          | Some old =>
              _ ← boost_assert (byte_size old <=? im_size s);
              Ok (u64_sub (im_size s) (byte_size old))
          | None => Ok (im_size s)
          end);
  Ok (mkInMemoryStorage (<[key := value]> (im_storage s)) (u64_add size (byte_size value))).

Definition im_contains (s : InMemoryStorage) (key : B) : result bool :=
  Ok (bool_decide (is_Some (im_storage s !! key))).

Definition im_remove (s : InMemoryStorage) (key : B) : result InMemoryStorage :=
  match im_storage s !! key with
  | Some old =>
      Ok (mkInMemoryStorage (delete key (im_storage s)) (u64_sub (im_size s) (byte_size old)))
  | None => Ok s
  end.

Definition im_byteSizeHint (s : InMemoryStorage) : option N := Some (im_size s).

(** InMemoryBatch: pending entries, applied to the store by commit. *)
Definition InMemoryBatch : Type := gmap B B.
Definition batch_put (b : InMemoryBatch) (key value : B) : InMemoryBatch := <[key := value]> b.
Definition batch_remove (b : InMemoryBatch) (key : B) : InMemoryBatch := delete key b.
Definition batch_commit (b : InMemoryBatch) (s : InMemoryStorage) : result InMemoryStorage :=
  oc_foldl (λ s '(k, v), im_put s k v) s (map_to_list b).
Definition batch_clear (b : InMemoryBatch) : InMemoryBatch := ∅.

(** ** InMemorySpacedStorage *)
Abbreviation InMemorySpacedStorage := (gmap Space InMemoryStorage).

(** getSpace creates a missing space. *)
Definition getSpace (w : InMemorySpacedStorage) (sp : Space)
    : InMemoryStorage * InMemorySpacedStorage :=
  match w !! sp with
  | Some s => (s, w)
  | None => (InMemoryStorage_new, <[sp := InMemoryStorage_new]> w)
  end.

#[global] Instance InMemory_SpacedStorage : SpacedStorage B InMemorySpacedStorage := {|
  ss_tryGet sp k w := let '(s, w) := getSpace w sp in (im_tryGet s k, w);
  ss_contains sp k w := let '(s, w) := getSpace w sp in (im_contains s k, w);
  ss_put sp k v w := let '(s, w) := getSpace w sp in
    match im_put s k v with
    | Ok s' => (Ok (), <[sp := s']> w)
    | Err e => (Err e, w)
    | Throw x => (Throw x, w)
    end;
  ss_remove sp k w := let '(s, w) := getSpace w sp in
    match im_remove s k with
    | Ok s' => (Ok (), <[sp := s']> w)
    | Err e => (Err e, w)
    | Throw x => (Throw x, w)
    end;
|}.

(** ** The byte counter *)
Definition total_size (m : gmap B B) : N := map_fold (λ _ v acc, byte_size v + acc) 0 m.

(** The counter is the total number of bytes, modulo the width of [size_t]. *)
Definition im_wf (s : InMemoryStorage) : Prop :=
  im_size s = u64 (total_size (im_storage s)).

(** The store fits in memory. *)
Definition im_fits (s : InMemoryStorage) : Prop := total_size (im_storage s) < two64.

Lemma total_size_insert m k v :
  total_size (<[k := v]> m) = byte_size v + total_size (delete k m).
Proof.
  rewrite <- insert_delete_eq. unfold total_size. rewrite map_fold_insert_L; [done| |].
  - intros. lia.
  - apply lookup_delete_eq.
Qed.

Lemma total_size_delete m k v :
  m !! k = Some v → total_size m = byte_size v + total_size (delete k m).
Proof. intros Hv. rewrite <- (insert_id m k v) at 1 by done. apply total_size_insert. Qed.

Lemma u64_add_mod a b : u64_add (u64 a) b = u64 (a + b).
Proof. unfold u64_add, u64. by rewrite N.Div0.add_mod_idemp_l. Qed.

Lemma u64_sub_mod a b : u64_sub (u64 (b + a)) b = u64 a.
Proof.
  unfold u64_sub, u64. pose proof (N.mod_lt b two64 two64_pos) as Hb.
  pose proof (N.mod_lt (b + a) two64 two64_pos) as Hab.
  pose proof (N.div_mod' (b + a) two64) as E1. pose proof (N.div_mod' b two64) as E2.
  pose proof (N.div_mod' a two64) as E3. pose proof (N.mod_lt a two64 two64_pos) as Ha.
  set (q1 := (b + a) / two64) in *. set (r1 := (b + a) mod two64) in *.
  set (q2 := b / two64) in *. set (r2 := b mod two64) in *.
  set (q3 := a / two64) in *. set (r3 := a mod two64) in *.
  assert (Hcase : r1 + two64 - r2 = r3 + two64 ∨ r1 + two64 - r2 = r3).
  { rewrite two64_val in *. nia. }
  destruct Hcase as [-> | ->].
  - rewrite <- (N.mul_1_l two64) at 1. rewrite N.Div0.mod_add. by apply N.mod_small.
  - by apply N.mod_small.
Qed.

Lemma im_put_spec s k v :
  im_wf s → im_fits s →
  ∃ s', im_put s k v = Ok s' ∧ im_wf s' ∧ im_storage s' = <[k := v]> (im_storage s).
Proof.
  intros Hwf Hfit. unfold im_put.
  destruct (im_storage s !! k) as [old|] eqn:Hk.
  - pose proof (total_size_delete _ _ _ Hk) as Ht. unfold im_fits in Hfit.
    assert (Hle : byte_size old ≤ im_size s) by (rewrite Hwf, u64_small by lia; lia).
    rewrite (proj2 (N.leb_le _ _) Hle), boost_assert_true. simpl. eexists. split; [done|].
    split; [|done]. unfold im_wf. simpl. rewrite total_size_insert, Hwf, Ht, u64_sub_mod, u64_add_mod.
    f_equal. lia.
  - simpl. eexists. split; [done|]. split; [|done]. unfold im_wf. simpl.
    rewrite total_size_insert, delete_id by done. rewrite Hwf, u64_add_mod. f_equal. lia.
Qed.

Lemma im_remove_spec s k :
  im_wf s →
  ∃ s', im_remove s k = Ok s' ∧ im_wf s' ∧ im_storage s' = delete k (im_storage s).
Proof.
  intros Hwf. unfold im_remove. destruct (im_storage s !! k) as [old|] eqn:Hk.
  - eexists. split; [done|]. split; [|done]. unfold im_wf. simpl.
    rewrite Hwf, (total_size_delete _ _ _ Hk). apply u64_sub_mod.
  - exists s. split; [done|]. split; [done|]. by rewrite delete_id.
Qed.

Lemma getSpace_view w sp sp' :
  default InMemoryStorage_new ((getSpace w sp).2 !! sp') = default InMemoryStorage_new (w !! sp').
Proof.
  unfold getSpace. destruct (w !! sp) eqn:Hs; [done|]. simpl. rewrite lookup_insert.
  case_decide; [subst; by rewrite Hs|done].
Qed.
Lemma getSpace_fst w sp : (getSpace w sp).1 = default InMemoryStorage_new (w !! sp).
Proof. unfold getSpace. by destruct (w !! sp). Qed.
End in_memory.

Arguments InMemoryStorage B {_ _}.

(** Without assertions the in-memory store is a fault-free [SpacedStorage]; with them
    it is as long as the stored bytes can be counted ([im_put_spec]). *)
Section laws.
Context {B : Type} `{Countable B} (byte_size : B → N).
#[local] Existing Instance ReleaseBuild.
#[local] Instance InMemory : SpacedStorage B (gmap Space (InMemoryStorage B)) :=
  InMemory_SpacedStorage byte_size.

Definition im_view (w : gmap Space (InMemoryStorage B)) (sp : Space) (k : B) : option B :=
  im_storage (default InMemoryStorage_new (w !! sp)) !! k.

#[global] Program Instance InMemory_laws :
    @SpacedStorageLaws B (gmap Space (InMemoryStorage B)) _ InMemory := {|
  ss_view := im_view;
  ss_wf _ := True;
|}.
Next Obligation.
  intros w sp k _. simpl. destruct (getSpace w sp) as [s w'] eqn:Hg.
  exists w'. pose proof (getSpace_fst w sp) as H1. rewrite Hg in H1. simpl in H1.
  split; [unfold im_tryGet, im_view; by rewrite H1|]. split; [done|]. intros sp' k'.
  unfold im_view. pose proof (getSpace_view w sp sp') as H2. rewrite Hg in H2. simpl in H2. by rewrite H2.
Qed.
Next Obligation.
  intros w sp k _. simpl. destruct (getSpace w sp) as [s w'] eqn:Hg.
  exists w'. pose proof (getSpace_fst w sp) as H1. rewrite Hg in H1. simpl in H1.
  split; [unfold im_contains, im_view; by rewrite H1|]. split; [done|]. intros sp' k'.
  unfold im_view. pose proof (getSpace_view w sp sp') as H2. rewrite Hg in H2. simpl in H2. by rewrite H2.
Qed.
Next Obligation.
  intros w sp k v _. simpl. destruct (getSpace w sp) as [s w'] eqn:Hg.
  pose proof (getSpace_fst w sp) as H1. rewrite Hg in H1. simpl in H1.
  assert (∃ s', im_put byte_size s k v = Ok s' ∧ im_storage s' = <[k := v]> (im_storage s)) as (s' & Hp & Hs').
  { unfold im_put. destruct (im_storage s !! k); simpl; eauto. }
  rewrite Hp. eexists. split; [done|]. split; [done|]. intros sp' k'. unfold im_view.
  pose proof (getSpace_view w sp sp') as H2. rewrite Hg in H2. simpl in H2.
  rewrite lookup_insert. destruct (decide (sp = sp')) as [<-|Hne].
  - simpl. rewrite Hs', lookup_insert, H1. repeat case_decide; naive_solver.
  - rewrite H2. rewrite decide_False by naive_solver. done.
Qed.
Next Obligation.
  intros w sp k _. simpl. destruct (getSpace w sp) as [s w'] eqn:Hg.
  pose proof (getSpace_fst w sp) as H1. rewrite Hg in H1. simpl in H1.
  assert (∃ s', im_remove byte_size s k = Ok s' ∧ im_storage s' = delete k (im_storage s)) as (s' & Hp & Hs').
  { unfold im_remove. destruct (im_storage s !! k) eqn:Hk; [by eauto|]. exists s. by rewrite delete_id. }
  rewrite Hp. eexists. split; [done|]. split; [done|]. intros sp' k'. unfold im_view.
  pose proof (getSpace_view w sp sp') as H2. rewrite Hg in H2. simpl in H2.
  rewrite lookup_insert. destruct (decide (sp = sp')) as [<-|Hne].
  - simpl. rewrite Hs', lookup_delete, H1. repeat case_decide; naive_solver.
  - rewrite H2. rewrite decide_False by naive_solver. done.
Qed.
End laws.
