(* ===== verification/BlockStorage.v ===== *)
(** * Block storage (src/src/blockchain/impl/block_storage_impl.cpp, storage_util.cpp)

    [BlockStorageImpl] keeps headers, bodies, signatures, states, the slot index and
    the leaves of the block tree as encoded records in the spaces of a
    [SpacedStorage].  SSZ encoding is the sszpp library's: a parameter, with the
    documented behaviour the storage relies on as laws. *)

From S2P Require Import Prelude Errors Types Stf Storage.

(** ** Encoding *)
Class Codec (B : Type) := {
  raw_hash : BlockHash → B;                       (* the 32 bytes of a hash *)
  leaves_key : B;                                 (* kBlockTreeLeavesLookupKey *)
  enc_slot : Slot → B;                            (* slotToHashLookupKey *)
  enc_hashes : list BlockHash → B;
  dec_hashes : B → result (list BlockHash);
  enc_header : BlockHeader → B;
  dec_header : B → result BlockHeader;
  enc_body : BlockBody → B;
  dec_body : B → result BlockBody;
  enc_signatures : BlockSignatures → B;
  dec_signatures : B → result BlockSignatures;
  enc_state : State → B;
  dec_state : B → result State;
}.

(** Encodings can be read back, keys are distinct, and an SSZ list of one
    fixed-size element is that element's bytes. *)
Class CodecLaws (B : Type) `{Codec B} := {
  raw_hash_inj h1 h2 : raw_hash h1 = raw_hash h2 → h1 = h2;
  enc_slot_inj s1 s2 : s1 < two64 → s2 < two64 → enc_slot s1 = enc_slot s2 → s1 = s2;
  enc_hashes_single h : enc_hashes [h] = raw_hash h;
  dec_enc_hashes l : dec_hashes (enc_hashes l) = Ok l;
  dec_enc_header x : dec_header (enc_header x) = Ok x;
  dec_enc_body x : dec_body (enc_body x) = Ok x;
  dec_enc_signatures x : dec_signatures (enc_signatures x) = Ok x;
  dec_enc_state x : dec_state (enc_state x) = Ok x;
}.

(** ** The interface of BlockStorage (src/src/blockchain/block_storage.hpp) *)
Class BlockStorage (S : Type) := {
  bs_getBlockTreeLeaves : SM S error (list BlockHash);
  bs_setBlockTreeLeaves : list BlockHash → SM S error ();
  bs_assignHashToSlot : BlockIndex → SM S error ();
  bs_deassignHashToSlot : BlockIndex → SM S error ();
  bs_getBlockHash : Slot → SM S error (list BlockHash);
  bs_hasBlockHeader : BlockHash → SM S error bool;
  bs_putBlockHeader : BlockHeader → SM S error BlockHash;
  bs_getBlockHeader : BlockHash → SM S error BlockHeader;
  bs_tryGetBlockHeader : BlockHash → SM S error (option BlockHeader);
  bs_putBlockBody : BlockHash → BlockBody → SM S error ();
  bs_getBlockBody : BlockHash → SM S error (option BlockBody);
  bs_removeBlockBody : BlockHash → SM S error ();
  bs_putState : BlockHash → State → SM S error ();
  bs_getState : BlockHash → SM S error (option State);
  bs_removeState : BlockHash → SM S error ();
  bs_putBlock : BlockData → SM S error BlockHash;
  bs_getSignedBlock : BlockHash → SM S error SignedBlock;
  bs_removeBlock : BlockHash → SM S error ();
}.

(** std::ranges::sort on hashes *)
Definition sort_hashes (l : list BlockHash) : list BlockHash := merge_sort N.le l.

(** BlockParts: HEADER, SIGNATURES, BODY as the bits of the source. *)
Definition PART_HEADER : N := 1.
Definition PART_SIGNATURES : N := 4.
Definition PART_BODY : N := 8.
Definition PART_ALL : N := 13.
Definition has_part (parts p : N) : bool := negb (N.land parts p =? 0).

Section impl.
Context {B W : Type} `{EqDecision B} `{Codec B} `{SpacedStorage B W} `{BuildMode} `{SszHash}.

Record BlockStorageImpl := mkBlockStorageImpl {
  bsi_storage : W;
  block_tree_leaves : option (list BlockHash);
}.
Local Notation M := (SM BlockStorageImpl error).

Definition on_storage {A} (m : SM W error A) : M A := λ s,
  let '(r, w) := m (bsi_storage s) in (r, mkBlockStorageImpl w (block_tree_leaves s)).

(** storage_util.cpp *)
Definition hasInSpace (sp : Space) (h : BlockHash) : M bool :=
  on_storage (ss_contains sp (raw_hash h)).
Definition putToSpace (sp : Space) (h : BlockHash) (v : B) : M () :=
  on_storage (ss_put sp (raw_hash h) v).
Definition getFromSpace (sp : Space) (h : BlockHash) : M (option B) :=
  on_storage (ss_tryGet sp (raw_hash h)).
Definition removeFromSpace (sp : Space) (h : BlockHash) : M () :=
  on_storage (ss_remove sp (raw_hash h)).

Definition getBlockTreeLeaves : M (list BlockHash) :=
  s ← sm_get;
  match block_tree_leaves s with
  | Some leaves => mret leaves
  | None =>
      leaves_opt ← on_storage (ss_tryGet Default leaves_key);
      match leaves_opt with
      | None => sm_err (E_BlockStorage BLOCK_TREE_LEAVES_NOT_FOUND)
      | Some encoded_leaves =>
          leaves ← sm_lift (dec_hashes encoded_leaves);
          sm_modify (λ s, mkBlockStorageImpl (bsi_storage s) (Some leaves)) ≫= λ _,
          mret leaves
      end
  end.

Definition setBlockTreeLeaves (leaves : list BlockHash) : M () :=
  let leaves := sort_hashes leaves in
  s ← sm_get;
  if decide (block_tree_leaves s = Some leaves) then mret ()
  else
    on_storage (ss_put Default leaves_key (enc_hashes leaves)) ≫= λ _,
    sm_modify (λ s, mkBlockStorageImpl (bsi_storage s) (Some leaves)).

Definition getBlockHash (slot : Slot) : M (list BlockHash) :=
  data_opt ← on_storage (ss_tryGet SlotToHashes (enc_slot slot));
  match data_opt with
  | Some data => sm_lift (dec_hashes data)
  | None => mret []
  end.

(** The new hash alone is stored, not the extended list. *)
Definition assignHashToSlot (block_index : BlockIndex) : M () :=
  hashes ← getBlockHash (bi_slot block_index);
  if decide (bi_hash block_index ∈ hashes) then mret ()
  else on_storage (ss_put SlotToHashes (enc_slot (bi_slot block_index))
                     (raw_hash (bi_hash block_index))).

Definition deassignHashToSlot (block_index : BlockIndex) : M () :=
  hashes ← getBlockHash (bi_slot block_index);
  if decide (bi_hash block_index ∈ hashes) then
    let hashes := filter (λ h, h ≠ bi_hash block_index) hashes in
    match hashes with
    | [] => on_storage (ss_remove SlotToHashes (enc_slot (bi_slot block_index)))
    | _ => on_storage (ss_put SlotToHashes (enc_slot (bi_slot block_index)) (enc_hashes hashes))
    end
  else mret ().

Definition hasBlockHeader (h : BlockHash) : M bool := hasInSpace Header h.

Definition putBlockHeader (header : BlockHeader) : M BlockHash :=
  let block_hash := sszHash_header header in
  putToSpace Header block_hash (enc_header header) ≫= λ _, mret block_hash.

Definition fetchBlockHeader (h : BlockHash) : M (option BlockHeader) :=
  encoded_header_opt ← getFromSpace Header h;
  match encoded_header_opt with
  | Some encoded_header =>
      header ← sm_lift (dec_header encoded_header);
      sm_lift (boost_assert (sszHash_header header =? h)) ≫= λ _,
      mret (Some header)
  | None => mret None
  end.

Definition getBlockHeader (h : BlockHash) : M BlockHeader :=
  header_opt ← fetchBlockHeader h;
  match header_opt with
  | Some header => mret header
  | None => sm_err (E_BlockStorage BS_HEADER_NOT_FOUND)
  end.

Definition tryGetBlockHeader (h : BlockHash) : M (option BlockHeader) := fetchBlockHeader h.

Definition putBlockBody (h : BlockHash) (body : BlockBody) : M () :=
  putToSpace Body h (enc_body body).

Definition getBlockBody (h : BlockHash) : M (option BlockBody) :=
  o ← getFromSpace Body h;
  match o with
  | Some b => x ← sm_lift (dec_body b); mret (Some x)
  | None => mret None
  end.

Definition removeBlockBody (h : BlockHash) : M () := removeFromSpace Body h.

Definition putState (h : BlockHash) (state : State) : M () :=
  putToSpace StateSpace h (enc_state state).

Definition getState (h : BlockHash) : M (option State) :=
  o ← getFromSpace StateSpace h;
  match o with
  | Some b => x ← sm_lift (dec_state b); mret (Some x)
  | None => mret None
  end.

Definition removeState (h : BlockHash) : M () := removeFromSpace StateSpace h.

(** Only a slot entry that is exactly this hash is removed. *)
Definition removeBlock (h : BlockHash) : M () :=
  header_opt ← fetchBlockHeader h;
  match header_opt with
  | None => mret ()
  | Some header =>
      let block_index := header_index header in
      let key := enc_slot (bi_slot block_index) in
      hash_opt ← on_storage (ss_tryGet SlotToHashes key);
      (if decide (hash_opt = Some (raw_hash h))
       then on_storage (ss_remove SlotToHashes key) else mret ()) ≫= λ _,
      removeBlockBody (bi_hash block_index) ≫= λ _,
      removeFromSpace StateSpace (bi_hash block_index) ≫= λ _,
      removeFromSpace SignatureSpace (bi_hash block_index) ≫= λ _,
      removeFromSpace AttestationSpace (bi_hash block_index) ≫= λ _,
      removeFromSpace Header (bi_hash block_index)
  end.

Definition putBlock (block : BlockData) : M BlockHash :=
  match bd_header block with
  | None => sm_throw UndefinedBehaviour
  | Some header =>
      adding_res ← sm_try (
        block_hash ← putBlockHeader header;
        (match bd_signature block with
         | Some signature => putToSpace SignatureSpace block_hash (enc_signatures signature)
         | None => mret ()
         end) ≫= λ _,
        (match bd_body block with
         | Some body => putToSpace Body block_hash (enc_body body)
         | None => mret ()
         end) ≫= λ _,
        mret block_hash);
      match adding_res with
      | inl block_hash => mret block_hash
      | inr e => sm_try (removeBlock (sszHash_header header)) ≫= λ _, sm_err e
      end
  end.

Definition getBlock (h : BlockHash) (parts : N) : M BlockData :=
  header ← (if has_part parts PART_HEADER
            then header ← getBlockHeader h; mret (Some header) else mret None);
  signature ← (if has_part parts PART_SIGNATURES then
                 o ← getFromSpace SignatureSpace h;
                 match o with
                 | Some b => x ← sm_lift (dec_signatures b); mret (Some x)
                 | None => sm_err (E_BlockStorage SIGNATURE_NOT_FOUND)
                 end
               else mret None);
  body ← (if has_part parts PART_BODY then
            o ← getFromSpace Body h;
            match o with
            | Some b => x ← sm_lift (dec_body b); mret (Some x)
            | None => sm_err (E_BlockStorage BS_BODY_NOT_FOUND)
            end
          else mret None);
  mret (mkBlockData h header body signature).

Definition getSignedBlock (h : BlockHash) : M SignedBlock :=
  data ← getBlock h PART_ALL;
  match bd_header data, bd_signature data, bd_body data with
  | Some header, Some signature, Some body =>
      mret (mkSignedBlock
              (mkBlock (bh_slot header) (bh_proposer_index header) (bh_parent_root header)
                 (bh_state_root header) body) signature)
  | _, _, _ => sm_throw UndefinedBehaviour
  end.

#[global] Instance BlockStorageImpl_BlockStorage : BlockStorage BlockStorageImpl := {|
  bs_getBlockTreeLeaves := getBlockTreeLeaves;
  bs_setBlockTreeLeaves := setBlockTreeLeaves;
  bs_assignHashToSlot := assignHashToSlot;
  bs_deassignHashToSlot := deassignHashToSlot;
  bs_getBlockHash := getBlockHash;
  bs_hasBlockHeader := hasBlockHeader;
  bs_putBlockHeader := putBlockHeader;
  bs_getBlockHeader := getBlockHeader;
  bs_tryGetBlockHeader := tryGetBlockHeader;
  bs_putBlockBody := putBlockBody;
  bs_getBlockBody := getBlockBody;
  bs_removeBlockBody := removeBlockBody;
  bs_putState := putState;
  bs_getState := getState;
  bs_removeState := removeState;
  bs_putBlock := putBlock;
  bs_getSignedBlock := getSignedBlock;
  bs_removeBlock := removeBlock;
|}.
End impl.

Arguments BlockStorageImpl W : clear implicits.
