(* ===== verification/BlockStorageSpec.v ===== *)
(** * Block storage: abstract specification and refinement

    [Abs] is what a block storage holds; [BlockStorageLaws] says how each operation
    acts on it when the underlying store has no I/O faults.  The implementation over
    any lawful store and codec satisfies these laws, by forward simulation with the
    relation [represents]. *)

From S2P Require Import Prelude Errors Types Stf Storage BlockStorage.

Record Abs := mkAbs {
  a_header : BlockHash → option BlockHeader;
  a_body : BlockHash → option BlockBody;
  a_signatures : BlockHash → option BlockSignatures;
  a_state : BlockHash → option State;
  a_slots : Slot → list BlockHash;
  a_leaves : option (list BlockHash);
}.

Definition upd {V} (k : N) (v : V) (f : N → V) : N → V :=
  λ k', if decide (k' = k) then v else f k'.

Definition abs_put_header `{SszHash} (hd : BlockHeader) (a : Abs) : Abs :=
  mkAbs (upd (sszHash_header hd) (Some hd) (a_header a)) (a_body a) (a_signatures a) (a_state a)
    (a_slots a) (a_leaves a).
Definition abs_set_body (h : BlockHash) (b : option BlockBody) (a : Abs) : Abs :=
  mkAbs (a_header a) (upd h b (a_body a)) (a_signatures a) (a_state a) (a_slots a) (a_leaves a).
Definition abs_set_signatures (h : BlockHash) (x : option BlockSignatures) (a : Abs) : Abs :=
  mkAbs (a_header a) (a_body a) (upd h x (a_signatures a)) (a_state a) (a_slots a) (a_leaves a).
Definition abs_set_state (h : BlockHash) (x : option State) (a : Abs) : Abs :=
  mkAbs (a_header a) (a_body a) (a_signatures a) (upd h x (a_state a)) (a_slots a) (a_leaves a).
Definition abs_set_slot (s : Slot) (l : list BlockHash) (a : Abs) : Abs :=
  mkAbs (a_header a) (a_body a) (a_signatures a) (a_state a) (upd s l (a_slots a)) (a_leaves a).
Definition abs_set_leaves (l : list BlockHash) (a : Abs) : Abs :=
  mkAbs (a_header a) (a_body a) (a_signatures a) (a_state a) (a_slots a) (Some l).
Definition abs_del_header (h : BlockHash) (a : Abs) : Abs :=
  mkAbs (upd h None (a_header a)) (a_body a) (a_signatures a) (a_state a) (a_slots a) (a_leaves a).

Definition abs_put_block `{SszHash} (hd : BlockHeader) (d : BlockData) (a : Abs) : Abs :=
  let h := sszHash_header hd in
  let a := abs_put_header hd a in
  let a := match bd_signature d with Some x => abs_set_signatures h (Some x) a | None => a end in
  match bd_body d with Some x => abs_set_body h (Some x) a | None => a end.

(** assignHashToSlot: a hash that is not listed replaces the listed ones. *)
Definition abs_assign (i : BlockIndex) (a : Abs) : Abs :=
  if decide (bi_hash i ∈ a_slots a (bi_slot i)) then a
  else abs_set_slot (bi_slot i) [bi_hash i] a.

Definition abs_deassign (i : BlockIndex) (a : Abs) : Abs :=
  if decide (bi_hash i ∈ a_slots a (bi_slot i))
  then abs_set_slot (bi_slot i) (filter (λ h, h ≠ bi_hash i) (a_slots a (bi_slot i))) a
  else a.

Definition abs_remove_block (h : BlockHash) (a : Abs) : Abs :=
  match a_header a h with
  | None => a
  | Some hd =>
      let a1 := if decide (a_slots a (bh_slot hd) = [h]) then abs_set_slot (bh_slot hd) [] a else a in
      abs_del_header h (abs_set_signatures h None (abs_set_state h None (abs_set_body h None a1)))
  end.

Definition abs_signed_block (a : Abs) (h : BlockHash) : outcome error SignedBlock :=
  match a_header a h, a_signatures a h, a_body a h with
  | Some hd, Some sg, Some b =>
      Ok (mkSignedBlock (mkBlock (bh_slot hd) (bh_proposer_index hd) (bh_parent_root hd)
                           (bh_state_root hd) b) sg)
  | None, _, _ => Err (E_BlockStorage BS_HEADER_NOT_FOUND)
  | _, None, _ => Err (E_BlockStorage SIGNATURE_NOT_FOUND)
  | _, _, None => Err (E_BlockStorage BS_BODY_NOT_FOUND)
  end.

(** [runs inv m s r a]: [m] returns [r] and leads to a state that represents [a]. *)
Definition runs {S A} (inv : S → Abs → Prop) (m : SM S error A) (s : S) (r : outcome error A)
    (a : Abs) : Prop :=
  ∃ s', m s = (r, s') ∧ inv s' a.

Class BlockStorageLaws (S : Type) `{SszHash} `{BlockStorage S} := {
  represents : S → Abs → Prop;
  represents_hash s a h hd : represents s a → a_header a h = Some hd →
    sszHash_header hd = h ∧ bh_slot hd < two64;
  law_getBlockTreeLeaves s a : represents s a →
    runs represents bs_getBlockTreeLeaves s
      (match a_leaves a with
       | Some l => Ok l
       | None => Err (E_BlockStorage BLOCK_TREE_LEAVES_NOT_FOUND) end) a;
  law_setBlockTreeLeaves s a l : represents s a →
    runs represents (bs_setBlockTreeLeaves l) s (Ok ()) (abs_set_leaves (sort_hashes l) a);
  law_assignHashToSlot s a i : represents s a → bi_slot i < two64 →
    runs represents (bs_assignHashToSlot i) s (Ok ()) (abs_assign i a);
  law_deassignHashToSlot s a i : represents s a → bi_slot i < two64 →
    runs represents (bs_deassignHashToSlot i) s (Ok ()) (abs_deassign i a);
  law_getBlockHash s a sl : represents s a → sl < two64 →
    runs represents (bs_getBlockHash sl) s (Ok (a_slots a sl)) a;
  law_hasBlockHeader s a h : represents s a →
    runs represents (bs_hasBlockHeader h) s (Ok (bool_decide (is_Some (a_header a h)))) a;
  law_putBlockHeader s a hd : represents s a → bh_slot hd < two64 →
    runs represents (bs_putBlockHeader hd) s (Ok (sszHash_header hd)) (abs_put_header hd a);
  law_getBlockHeader s a h : represents s a →
    runs represents (bs_getBlockHeader h) s
      (match a_header a h with
       | Some hd => Ok hd
       | None => Err (E_BlockStorage BS_HEADER_NOT_FOUND) end) a;
  law_tryGetBlockHeader s a h : represents s a →
    runs represents (bs_tryGetBlockHeader h) s (Ok (a_header a h)) a;
  law_putBlockBody s a h b : represents s a →
    runs represents (bs_putBlockBody h b) s (Ok ()) (abs_set_body h (Some b) a);
  law_getBlockBody s a h : represents s a →
    runs represents (bs_getBlockBody h) s (Ok (a_body a h)) a;
  law_removeBlockBody s a h : represents s a →
    runs represents (bs_removeBlockBody h) s (Ok ()) (abs_set_body h None a);
  law_putState s a h x : represents s a →
    runs represents (bs_putState h x) s (Ok ()) (abs_set_state h (Some x) a);
  law_getState s a h : represents s a →
    runs represents (bs_getState h) s (Ok (a_state a h)) a;
  law_removeState s a h : represents s a →
    runs represents (bs_removeState h) s (Ok ()) (abs_set_state h None a);
  law_putBlock s a d hd : represents s a → bd_header d = Some hd → bh_slot hd < two64 →
    runs represents (bs_putBlock d) s (Ok (sszHash_header hd)) (abs_put_block hd d a);
  law_getSignedBlock s a h : represents s a →
    runs represents (bs_getSignedBlock h) s (abs_signed_block a h) a;
  law_removeBlock s a h : represents s a →
    runs represents (bs_removeBlock h) s (Ok ()) (abs_remove_block h a);
}.

(** ** Running state computations *)
Section runs.
Context {S : Type} (inv : S → Abs → Prop).

Lemma runs_ret {A} (x : A) s a : inv s a → runs inv (mret x) s (Ok x) a.
Proof. intros Hs. by exists s. Qed.

Lemma runs_err {A} (e : error) s a : inv s a → runs inv (sm_err e : SM S error A) s (Err e) a.
Proof. intros Hs. by exists s. Qed.

Lemma runs_lift {A} (r : outcome error A) s a : inv s a → runs inv (sm_lift r) s r a.
Proof. intros Hs. by exists s. Qed.

Lemma runs_bind {A C} (m : SM S error A) (f : A → SM S error C) s x a r a' :
  runs inv m s (Ok x) a → (∀ s', inv s' a → runs inv (f x) s' r a') →
  runs inv (m ≫= f) s r a'.
Proof.
  intros (s' & Hm & Hs') Hf. destruct (Hf s' Hs') as (s'' & Hf' & Hs'').
  exists s''. split; [|done]. unfold mbind, sm_bind. by rewrite Hm.
Qed.

Lemma runs_bind_err {A C} (m : SM S error A) (f : A → SM S error C) s e a :
  runs inv m s (Err e) a → runs inv (m ≫= f) s (Err e) a.
Proof.
  intros (s' & Hm & Hs'). exists s'. split; [|done]. unfold mbind, sm_bind. by rewrite Hm.
Qed.

Lemma runs_try {A} (m : SM S error A) s x a :
  runs inv m s (Ok x) a → runs inv (sm_try m) s (Ok (inl x)) a.
Proof. intros (s' & Hm & Hs'). exists s'. unfold sm_try. by rewrite Hm. Qed.
End runs.

(** ** The implementation *)
Section refinement.
Context {B W : Type} `{EqDecision B} `{!Codec B} `{!CodecLaws B}.
Context `{!SpacedStorage B W} `{!SpacedStorageLaws B W} `{BuildMode} `{SszHash}.

Lemma enc_hashes_inj l1 l2 : enc_hashes l1 = enc_hashes l2 → l1 = l2.
Proof. intros Heq. pose proof (dec_enc_hashes l1) as H1. rewrite Heq, dec_enc_hashes in H1. by injection H1. Qed.

Definition slot_entry (l : list BlockHash) : option B :=
  match l with [] => None | _ => Some (enc_hashes l) end.

Record impl_represents (s : BlockStorageImpl W) (a : Abs) : Prop := {
  ir_wf : ss_wf (bsi_storage s);
  ir_header : ∀ h, ss_view (bsi_storage s) Header (raw_hash h) = enc_header <$> a_header a h;
  ir_hash : ∀ h hd, a_header a h = Some hd → sszHash_header hd = h ∧ bh_slot hd < two64;
  ir_body : ∀ h, ss_view (bsi_storage s) Body (raw_hash h) = enc_body <$> a_body a h;
  ir_sigs : ∀ h, ss_view (bsi_storage s) SignatureSpace (raw_hash h)
                 = enc_signatures <$> a_signatures a h;
  ir_state : ∀ h, ss_view (bsi_storage s) StateSpace (raw_hash h) = enc_state <$> a_state a h;
  ir_slots : ∀ sl, sl < two64 →
    ss_view (bsi_storage s) SlotToHashes (enc_slot sl) = slot_entry (a_slots a sl);
  ir_leaves : ss_view (bsi_storage s) Default leaves_key = enc_hashes <$> a_leaves a;
  ir_cache : ∀ l, block_tree_leaves s = Some l → a_leaves a = Some l;
}.
Local Abbreviation iruns := (runs impl_represents).

(** Reading a space. *)
Lemma run_tryGet s a sp k :
  impl_represents s a → iruns (on_storage (ss_tryGet sp k)) s (Ok (ss_view (bsi_storage s) sp k)) a.
Proof.
  intros [Hwf ????????]. unfold on_storage.
  destruct (ss_tryGet_law _ sp k Hwf) as (w' & Hg & Hwf' & Hv).
  eexists. rewrite Hg. split; [done|]. constructor; simpl; intros; rewrite ?Hv; eauto.
Qed.

(** The effect of a write on the view of the store. *)
Lemma run_write s sp k (m : SM W error ()) v :
  ss_wf (bsi_storage s) →
  (∃ w', m (bsi_storage s) = (Ok (), w') ∧ ss_wf w' ∧
     ∀ sp' k', ss_view w' sp' k' = if decide (sp' = sp ∧ k' = k) then v else ss_view (bsi_storage s) sp' k') →
  ∃ s', on_storage m s = (Ok (), s') ∧ ss_wf (bsi_storage s') ∧
    block_tree_leaves s' = block_tree_leaves s ∧
    ∀ sp' k', ss_view (bsi_storage s') sp' k'
              = if decide (sp' = sp ∧ k' = k) then v else ss_view (bsi_storage s) sp' k'.
Proof.
  intros Hwf (w' & Hm & Hwf' & Hv). unfold on_storage. rewrite Hm. eexists. split; [done|]. done.
Qed.

Lemma run_put s a sp k v a' :
  impl_represents s a →
  (∀ s', ss_wf (bsi_storage s') → block_tree_leaves s' = block_tree_leaves s →
     (∀ sp' k', ss_view (bsi_storage s') sp' k'
        = if decide (sp' = sp ∧ k' = k) then Some v else ss_view (bsi_storage s) sp' k') →
     impl_represents s' a') →
  iruns (on_storage (ss_put sp k v)) s (Ok ()) a'.
Proof.
  intros Hs Ha. destruct (run_write s sp k (ss_put sp k v) (Some v)) as (s' & Hr & Hwf & Hc & Hv).
  - apply Hs.
  - apply ss_put_law, Hs.
  - exists s'. split; [done|]. by apply Ha.
Qed.

Lemma run_remove s a sp k a' :
  impl_represents s a →
  (∀ s', ss_wf (bsi_storage s') → block_tree_leaves s' = block_tree_leaves s →
     (∀ sp' k', ss_view (bsi_storage s') sp' k'
        = if decide (sp' = sp ∧ k' = k) then None else ss_view (bsi_storage s) sp' k') →
     impl_represents s' a') →
  iruns (on_storage (ss_remove sp k)) s (Ok ()) a'.
Proof.
  intros Hs Ha. destruct (run_write s sp k (ss_remove sp k) None) as (s' & Hr & Hwf & Hc & Hv).
  - apply Hs.
  - apply ss_remove_law, Hs.
  - exists s'. split; [done|]. by apply Ha.
Qed.

(** Solves the fields of [impl_represents] after one write, whose effect on the view is [Hv]. *)
Ltac after_write Hs Hc Hv :=
  constructor; simpl; intros; rewrite ?Hc in *; rewrite ?Hv; unfold upd in *;
  repeat case_decide;
  repeat match goal with Heq : _ = _ ∧ _ = _ |- _ => destruct Heq as [? ?] end;
  try discriminate;
  repeat match goal with Heq : raw_hash _ = raw_hash _ |- _ => apply raw_hash_inj in Heq end;
  simplify_eq; try done; try (by apply Hs); try (by eapply Hs);
  try (by eapply (ir_cache _ _ Hs)); try naive_solver.

Lemma run_putBlockHeader s a hd :
  impl_represents s a → bh_slot hd < two64 →
  iruns (putBlockHeader hd) s (Ok (sszHash_header hd)) (abs_put_header hd a).
Proof.
  intros Hs Hsl. eapply runs_bind; [|intros; by apply runs_ret]. apply (run_put _ _ _ _ _ _ Hs).
  intros s' Hwf Hc Hv. after_write Hs Hc Hv.
Qed.

Lemma run_set_body s a h b :
  impl_represents s a → iruns (putToSpace Body h (enc_body b)) s (Ok ()) (abs_set_body h (Some b) a).
Proof. intros Hs. apply (run_put _ _ _ _ _ _ Hs). intros s' Hwf Hc Hv. after_write Hs Hc Hv. Qed.
Lemma run_set_sigs s a h b :
  impl_represents s a →
  iruns (putToSpace SignatureSpace h (enc_signatures b)) s (Ok ()) (abs_set_signatures h (Some b) a).
Proof. intros Hs. apply (run_put _ _ _ _ _ _ Hs). intros s' Hwf Hc Hv. after_write Hs Hc Hv. Qed.
Lemma run_set_state s a h b :
  impl_represents s a → iruns (putToSpace StateSpace h (enc_state b)) s (Ok ()) (abs_set_state h (Some b) a).
Proof. intros Hs. apply (run_put _ _ _ _ _ _ Hs). intros s' Hwf Hc Hv. after_write Hs Hc Hv. Qed.
Lemma run_del_body s a h :
  impl_represents s a → iruns (removeFromSpace Body h) s (Ok ()) (abs_set_body h None a).
Proof. intros Hs. apply (run_remove _ _ _ _ _ Hs). intros s' Hwf Hc Hv. after_write Hs Hc Hv. Qed.
Lemma run_del_sigs s a h :
  impl_represents s a → iruns (removeFromSpace SignatureSpace h) s (Ok ()) (abs_set_signatures h None a).
Proof. intros Hs. apply (run_remove _ _ _ _ _ Hs). intros s' Hwf Hc Hv. after_write Hs Hc Hv. Qed.
Lemma run_del_state s a h :
  impl_represents s a → iruns (removeFromSpace StateSpace h) s (Ok ()) (abs_set_state h None a).
Proof. intros Hs. apply (run_remove _ _ _ _ _ Hs). intros s' Hwf Hc Hv. after_write Hs Hc Hv. Qed.
Lemma run_del_header s a h :
  impl_represents s a → iruns (removeFromSpace Header h) s (Ok ()) (abs_del_header h a).
Proof. intros Hs. apply (run_remove _ _ _ _ _ Hs). intros s' Hwf Hc Hv. after_write Hs Hc Hv. Qed.
Lemma run_del_attestation s a h :
  impl_represents s a → iruns (removeFromSpace AttestationSpace h) s (Ok ()) a.
Proof. intros Hs. apply (run_remove _ _ _ _ _ Hs). intros s' Hwf Hc Hv. after_write Hs Hc Hv. Qed.

(** Reading a record back. *)
Lemma run_decode {A} s a sp h (enc : A → B) (dec : B → result A) (o : option A) :
  impl_represents s a → ss_view (bsi_storage s) sp (raw_hash h) = enc <$> o →
  (∀ x, dec (enc x) = Ok x) →
  iruns (o ← getFromSpace sp h;
         match o with Some b => x ← sm_lift (dec b); mret (Some x) | None => mret None end) s (Ok o) a.
Proof.
  intros Hs Hv Hd. eapply runs_bind; [by apply run_tryGet|]. intros s' Hs'. rewrite Hv.
  destruct o as [x|]; simpl; [|by apply runs_ret].
  eapply runs_bind; [rewrite Hd; by apply runs_lift|]. intros s1 Hs1. by apply runs_ret.
Qed.

Lemma run_fetch s a h :
  impl_represents s a → iruns (fetchBlockHeader h) s (Ok (a_header a h)) a.
Proof.
  intros Hs. eapply runs_bind; [by apply run_tryGet|]. intros s' Hs'. rewrite (ir_header _ _ Hs).
  destruct (a_header a h) as [hd|] eqn:Hh; [|by apply runs_ret]. simpl.
  eapply runs_bind; [rewrite dec_enc_header; by apply runs_lift|]. intros s1 Hs1.
  destruct (ir_hash _ _ Hs _ _ Hh) as [-> _]. rewrite N.eqb_refl, boost_assert_true.
  eapply runs_bind; [by apply runs_lift|]. intros s2 Hs2. by apply runs_ret.
Qed.

Lemma run_getBlockHeader s a h :
  impl_represents s a →
  iruns (getBlockHeader h) s
    (match a_header a h with
     | Some hd => Ok hd
     | None => Err (E_BlockStorage BS_HEADER_NOT_FOUND) end) a.
Proof.
  intros Hs. eapply runs_bind; [by apply run_fetch|]. intros s' Hs'.
  destruct (a_header a h); [by apply runs_ret|by apply runs_err].
Qed.

(** ** The slot index *)
Lemma run_getBlockHash s a sl :
  impl_represents s a → sl < two64 → iruns (getBlockHash sl) s (Ok (a_slots a sl)) a.
Proof.
  intros Hs Hsl. eapply runs_bind; [by apply run_tryGet|]. intros s' Hs'. rewrite (ir_slots _ _ Hs) by done.
  unfold slot_entry. destruct (a_slots a sl) eqn:Hl; [by apply runs_ret|].
  rewrite dec_enc_hashes. by apply runs_lift.
Qed.

Lemma set_slot_represents s s' a sl l :
  impl_represents s a → sl < two64 → ss_wf (bsi_storage s') →
  block_tree_leaves s' = block_tree_leaves s →
  (∀ sp k, ss_view (bsi_storage s') sp k
     = if decide (sp = SlotToHashes ∧ k = enc_slot sl) then slot_entry l
       else ss_view (bsi_storage s) sp k) →
  impl_represents s' (abs_set_slot sl l a).
Proof.
  intros Hs Hsl Hwf Hc Hv.
  constructor; simpl; intros; rewrite ?Hc in *; rewrite ?Hv; unfold upd in *;
    try (rewrite decide_False by naive_solver; by apply Hs); try done.
  - by eapply Hs.
  - destruct (decide (sl0 = sl)) as [->|Hne]; [by rewrite decide_True|].
    rewrite decide_False; [by apply Hs|]. intros [_ Heq%enc_slot_inj]; done.
  - by eapply (ir_cache _ _ Hs).
Qed.

Lemma run_assign s a i :
  impl_represents s a → bi_slot i < two64 → iruns (assignHashToSlot i) s (Ok ()) (abs_assign i a).
Proof.
  intros Hs Hsl. eapply runs_bind; [by apply run_getBlockHash|]. intros s' Hs'. unfold abs_assign.
  case_decide; [by apply runs_ret|]. apply (run_put _ _ _ _ _ _ Hs'). intros s1 Hwf Hc Hv.
  eapply set_slot_represents; [done|done|done|done|]. simpl. by rewrite enc_hashes_single.
Qed.

Lemma run_set_slot s a sl l :
  impl_represents s a → sl < two64 →
  iruns (match l with
         | [] => on_storage (ss_remove SlotToHashes (enc_slot sl))
         | _ => on_storage (ss_put SlotToHashes (enc_slot sl) (enc_hashes l))
         end) s (Ok ()) (abs_set_slot sl l a).
Proof.
  intros Hs Hsl. destruct l.
  - apply (run_remove _ _ _ _ _ Hs). intros s1 Hwf Hc Hv. by eapply set_slot_represents.
  - apply (run_put _ _ _ _ _ _ Hs). intros s1 Hwf Hc Hv. by eapply set_slot_represents.
Qed.

Lemma run_deassign s a i :
  impl_represents s a → bi_slot i < two64 → iruns (deassignHashToSlot i) s (Ok ()) (abs_deassign i a).
Proof.
  intros Hs Hsl. eapply runs_bind; [by apply run_getBlockHash|]. intros s' Hs'. unfold abs_deassign.
  case_decide; [by apply run_set_slot|by apply runs_ret].
Qed.

(** ** Leaves *)
Lemma run_getLeaves s a :
  impl_represents s a →
  iruns getBlockTreeLeaves s
    (match a_leaves a with
     | Some l => Ok l
     | None => Err (E_BlockStorage BLOCK_TREE_LEAVES_NOT_FOUND) end) a.
Proof.
  intros Hs. unfold getBlockTreeLeaves. eapply (runs_bind _ _ _ _ s); [by exists s|]. intros s' Hs'.
  destruct (block_tree_leaves s) as [l|] eqn:Hc.
  { rewrite (ir_cache _ _ Hs _ Hc). by apply runs_ret. }
  eapply runs_bind; [by apply run_tryGet|]. intros s1 Hs1. rewrite (ir_leaves _ _ Hs').
  destruct (a_leaves a) as [l|] eqn:Hl; simpl; [|by apply runs_err].
  eapply runs_bind; [rewrite dec_enc_hashes; by apply runs_lift|]. intros s2 Hs2.
  eapply (runs_bind _ _ _ _ ()); [|intros; by apply runs_ret].
  eexists. split; [done|]. destruct Hs2. constructor; try done. simpl. by intros ? [= <-].
Qed.

Lemma run_setLeaves s a l :
  impl_represents s a →
  iruns (setBlockTreeLeaves l) s (Ok ()) (abs_set_leaves (sort_hashes l) a).
Proof.
  intros Hs. unfold setBlockTreeLeaves. eapply (runs_bind _ _ _ _ s); [by exists s|]. intros s' Hs'.
  case_decide as Hc.
  { apply runs_ret. apply (ir_cache _ _ Hs) in Hc. destruct Hs'.
    constructor; try done; simpl; [by rewrite ir_leaves0, Hc|].
    intros l' Hl'. rewrite <- Hc. by apply ir_cache0. }
  set (a' := abs_set_leaves (sort_hashes l) a).
  (* between the write and the update of the cache, the cache may be stale *)
  destruct (run_write s' Default leaves_key (ss_put Default leaves_key (enc_hashes (sort_hashes l)))
    (Some (enc_hashes (sort_hashes l)))) as (s1 & Hr & Hwf & Hc1 & Hv).
  { apply Hs'. }
  { apply ss_put_law, Hs'. }
  exists (mkBlockStorageImpl (bsi_storage s1) (Some (sort_hashes l))).
  split; [unfold mbind, sm_bind; by rewrite Hr|].
  constructor; simpl; intros; rewrite ?Hv; try (rewrite decide_False by naive_solver; by apply Hs'); try done.
  - by eapply Hs'.
  - by rewrite decide_True.
Qed.

(** ** Whole blocks *)
Lemma run_putBlock s a d hd :
  impl_represents s a → bd_header d = Some hd → bh_slot hd < two64 →
  iruns (putBlock d) s (Ok (sszHash_header hd)) (abs_put_block hd d a).
Proof.
  intros Hs Hd Hsl. unfold putBlock. rewrite Hd.
  eapply (runs_bind _ _ _ _ (inl (sszHash_header hd))); [|intros; by apply runs_ret]. apply runs_try.
  eapply runs_bind; [by apply run_putBlockHeader|]. intros s1 Hs1. unfold abs_put_block.
  eapply (runs_bind _ _ _ _ () (match bd_signature d with
    | Some x => abs_set_signatures (sszHash_header hd) (Some x) (abs_put_header hd a)
    | None => abs_put_header hd a end)).
  { destruct (bd_signature d); [by apply run_set_sigs|by apply runs_ret]. }
  intros s2 Hs2. eapply (runs_bind _ _ _ _ ()); [|intros; by apply runs_ret].
  destruct (bd_body d); [by apply run_set_body|by apply runs_ret].
Qed.

Lemma run_getSignedBlock s a h :
  impl_represents s a → iruns (getSignedBlock h) s (abs_signed_block a h) a.
Proof.
  intros Hs. unfold getSignedBlock, getBlock, abs_signed_block. cbn -[mbind].
  change (has_part PART_ALL PART_HEADER) with true. change (has_part PART_ALL PART_SIGNATURES) with true.
  change (has_part PART_ALL PART_BODY) with true. cbv iota.
  pose proof (run_getBlockHeader s a h Hs) as Hh.
  destruct (a_header a h) as [hd|] eqn:Ehd; last first.
  { apply runs_bind_err, runs_bind_err, runs_bind_err. done. }
  assert (Hsig : ∀ s', impl_represents s' a → iruns (o ← getFromSpace SignatureSpace h;
      match o with
      | Some b => x ← sm_lift (dec_signatures b); mret (Some x)
      | None => sm_err (E_BlockStorage SIGNATURE_NOT_FOUND)
      end) s' (match a_signatures a h with Some x => Ok (Some x) | None => Err (E_BlockStorage SIGNATURE_NOT_FOUND) end) a).
  { intros s' Hs'. eapply runs_bind; [by apply run_tryGet|]. intros s1 Hs1. rewrite (ir_sigs _ _ Hs').
    destruct (a_signatures a h); simpl; [|by apply runs_err].
    eapply runs_bind; [rewrite dec_enc_signatures; by apply runs_lift|]. intros. by apply runs_ret. }
  assert (Hbody : ∀ s', impl_represents s' a → iruns (o ← getFromSpace Body h;
      match o with
      | Some b => x ← sm_lift (dec_body b); mret (Some x)
      | None => sm_err (E_BlockStorage BS_BODY_NOT_FOUND)
      end) s' (match a_body a h with Some x => Ok (Some x) | None => Err (E_BlockStorage BS_BODY_NOT_FOUND) end) a).
  { intros s' Hs'. eapply runs_bind; [by apply run_tryGet|]. intros s1 Hs1. rewrite (ir_body _ _ Hs').
    destruct (a_body a h); simpl; [|by apply runs_err].
    eapply runs_bind; [rewrite dec_enc_body; by apply runs_lift|]. intros. by apply runs_ret. }
  destruct (a_signatures a h) as [sg|].
  - destruct (a_body a h) as [b|].
    + eapply (runs_bind _ _ _ _ (mkBlockData h (Some hd) (Some b) (Some sg))); [|intros; by apply runs_ret].
      eapply runs_bind; [eapply runs_bind; [done|intros; by apply runs_ret]|]. intros s1 Hs1.
      eapply runs_bind; [by apply Hsig|]. intros s2 Hs2.
      eapply runs_bind; [by apply Hbody|]. intros s3 Hs3. by apply runs_ret.
    + apply runs_bind_err.
      eapply runs_bind; [eapply runs_bind; [done|intros; by apply runs_ret]|]. intros s1 Hs1.
      eapply runs_bind; [by apply Hsig|]. intros s2 Hs2. apply runs_bind_err. by apply Hbody.
  - apply runs_bind_err.
    eapply runs_bind; [eapply runs_bind; [done|intros; by apply runs_ret]|]. intros s1 Hs1.
    apply runs_bind_err. by apply Hsig.
Qed.

Lemma run_removeBlock s a h :
  impl_represents s a → iruns (removeBlock h) s (Ok ()) (abs_remove_block h a).
Proof.
  intros Hs. eapply runs_bind; [by apply run_fetch|]. intros s1 Hs1. unfold abs_remove_block.
  destruct (a_header a h) as [hd|] eqn:Hh; [|by apply runs_ret].
  destruct (ir_hash _ _ Hs _ _ Hh) as [Hhash Hsl]. unfold header_index. cbn [bi_slot bi_hash]. rewrite Hhash.
  eapply runs_bind; [by apply run_tryGet|]. intros s2 Hs2. rewrite (ir_slots _ _ Hs1) by done.
  set (a1 := if decide (a_slots a (bh_slot hd) = [h]) then _ else _).
  eapply (runs_bind _ _ _ _ () a1).
  { assert (Hiff : slot_entry (a_slots a (bh_slot hd)) = Some (raw_hash h) ↔ a_slots a (bh_slot hd) = [h]).
    { rewrite <- enc_hashes_single. unfold slot_entry.
      destruct (a_slots a (bh_slot hd)); split; try done; [|congruence].
      intros [= ?%enc_hashes_inj]. done. }
    unfold a1. destruct (decide (slot_entry _ = _)) as [He|He], (decide (a_slots _ _ = _)) as [He'|He'];
      try tauto; [by apply (run_set_slot s2 a (bh_slot hd) [])|by apply runs_ret]. }
  intros s3 Hs3. eapply runs_bind; [by apply run_del_body|]. intros s4 Hs4.
  eapply runs_bind; [by apply run_del_state|]. intros s5 Hs5.
  eapply runs_bind; [by apply run_del_sigs|]. intros s6 Hs6.
  eapply runs_bind; [by apply run_del_attestation|]. intros s7 Hs7. by apply run_del_header.
Qed.

Lemma run_hasBlockHeader s a h :
  impl_represents s a → iruns (hasBlockHeader h) s (Ok (bool_decide (is_Some (a_header a h)))) a.
Proof.
  intros Hs. destruct (ss_contains_law (bsi_storage s) Header (raw_hash h)) as (w' & Hc & Hwf & Hv); [apply Hs|].
  unfold hasBlockHeader, hasInSpace, on_storage. eexists. rewrite Hc. split.
  { do 2 f_equal. rewrite (ir_header _ _ Hs). by destruct (a_header a h). }
  destruct Hs. constructor; simpl; intros; rewrite ?Hv; eauto.
Qed.

(** The implementation satisfies the laws of the interface. *)
#[global] Instance BlockStorageImpl_laws :
  @BlockStorageLaws (BlockStorageImpl W) _ (BlockStorageImpl_BlockStorage (B := B)).
Proof.
  refine {| represents := impl_represents |}; simpl.
  - intros s a h hd Hs. by apply Hs.
  - by apply run_getLeaves.
  - by apply run_setLeaves.
  - by apply run_assign.
  - by apply run_deassign.
  - by apply run_getBlockHash.
  - by apply run_hasBlockHeader.
  - by apply run_putBlockHeader.
  - by apply run_getBlockHeader.
  - by apply run_fetch.
  - by apply run_set_body.
  - intros s a h Hs. apply (run_decode s a Body h enc_body dec_body); [done|by apply Hs|apply dec_enc_body].
  - by apply run_del_body.
  - by apply run_set_state.
  - intros s a h Hs. apply (run_decode s a StateSpace h enc_state dec_state); [done|by apply Hs|apply dec_enc_state].
  - by apply run_del_state.
  - by apply run_putBlock.
  - by apply run_getSignedBlock.
  - by apply run_removeBlock.
Defined.
End refinement.
