(* ===== verification/ToyStore.v ===== *)
(** * A concrete codec and store

    A computable [Codec] with its laws, over the in-memory store: the parameters of the
    storage theorems instantiated, for examples and witnesses. *)

From S2P Require Import Prelude Errors Types Storage BlockStorage BlockStorageSpec.

#[global] Instance Checkpoint_countable : Countable Checkpoint.
Proof.
  refine (inj_countable' (λ c, (cp_root c, cp_slot c)) (λ '(r, s), mkCheckpoint r s) _). by intros [].
Defined.
#[global] Instance AttestationData_countable : Countable AttestationData.
Proof.
  refine (inj_countable' (λ d, (ad_slot d, ad_head d, ad_target d, ad_source d))
    (λ '(a, b, c, d), mkAttestationData a b c d) _). by intros [].
Defined.
#[global] Instance AggregationBits_countable : Countable AggregationBits.
Proof. refine (inj_countable' ab_bits mkAggregationBits _). by intros []. Defined.
#[global] Instance AggregatedAttestation_countable : Countable AggregatedAttestation.
Proof.
  refine (inj_countable' (λ a, (aa_aggregation_bits a, aa_data a))
    (λ '(b, d), mkAggregatedAttestation b d) _). by intros [].
Defined.
#[global] Instance AggregatedSignatureProof_countable : Countable AggregatedSignatureProof.
Proof.
  refine (inj_countable' (λ a, (asp_participants a, asp_proof_data a))
    (λ '(b, d), mkAggregatedSignatureProof b d) _). by intros [].
Defined.
#[global] Instance BlockBody_countable : Countable BlockBody.
Proof. refine (inj_countable' bb_attestations mkBlockBody _). by intros []. Defined.
#[global] Instance BlockHeader_countable : Countable BlockHeader.
Proof.
  refine (inj_countable'
    (λ h, (bh_slot h, bh_proposer_index h, bh_parent_root h, bh_state_root h, bh_body_root h))
    (λ '(a, b, c, d, e), mkBlockHeader a b c d e) _). by intros [].
Defined.
#[global] Instance BlockSignatures_countable : Countable BlockSignatures.
Proof.
  refine (inj_countable' (λ a, (bsig_attestation_signatures a, bsig_proposer_signature a))
    (λ '(b, d), mkBlockSignatures b d) _). by intros [].
Defined.
#[global] Instance Validator_countable : Countable Validator.
Proof.
  refine (inj_countable' (λ v, (v_attestation_pubkey v, v_proposal_pubkey v, v_index v))
    (λ '(a, b, c), mkValidator a b c) _). by intros [].
Defined.
#[global] Instance Config_countable : Countable Config.
Proof. refine (inj_countable' genesis_time mkConfig _). by intros []. Defined.
#[global] Instance State_countable : Countable State.
Proof.
  refine (inj_countable'
    (λ s, (st_config s, st_slot s, st_latest_block_header s, st_latest_justified s,
           st_latest_finalized s, st_historical_block_hashes s, st_justified_slots s,
           st_validators s, st_justifications_roots s, st_justifications_validators s))
    (λ '(a, b, c, d, e, f, g, h, i, j), mkState a b c d e f g h i j) _). by intros [].
Defined.

Definition toy_decode {A} `{Countable A} (b : positive) : result A :=
  match decode b with Some x => Ok x | None => Err (E_Ssz DecodeError) end.

#[global] Instance ToyCodec : Codec positive := {|
  raw_hash h := encode [h];
  leaves_key := 1%positive;
  enc_slot s := encode s;
  enc_hashes l := encode l;
  dec_hashes := toy_decode;
  enc_header := encode; dec_header := toy_decode;
  enc_body := encode; dec_body := toy_decode;
  enc_signatures := encode; dec_signatures := toy_decode;
  enc_state := encode; dec_state := toy_decode;
|}.

Lemma toy_decode_encode {A} `{Countable A} (x : A) : toy_decode (encode x) = Ok x.
Proof. unfold toy_decode. by rewrite decode_encode. Qed.

#[global] Instance ToyCodec_laws : CodecLaws positive.
Proof.
  split; simpl; try (intros; apply toy_decode_encode); try done.
  - intros h1 h2 Heq. apply (inj encode) in Heq. by injection Heq.
  - intros s1 s2 _ _ Heq. by apply (inj encode) in Heq.
Qed.

(** The in-memory block storage of the examples: without assertions, sizes unit. *)
Definition ToyW : Type := gmap Space (InMemoryStorage positive).
#[global] Instance ToySpaced : SpacedStorage positive ToyW := Storage.InMemory (λ _, 1).
#[global] Instance ToySpaced_laws : SpacedStorageLaws positive ToyW := InMemory_laws (λ _, 1).

Definition ToyS : Type := BlockStorageImpl ToyW.
#[global] Instance ToyStorage `{SszHash} : BlockStorage ToyS :=
  @BlockStorageImpl_BlockStorage positive ToyW _ _ _ ReleaseBuild _.
#[global] Instance ToyStorage_laws `{SszHash} : BlockStorageLaws ToyS :=
  @BlockStorageImpl_laws positive ToyW _ _ _ _ _ ReleaseBuild _.
Definition toy_empty : ToyS := mkBlockStorageImpl ∅ None.

Definition abs_empty : Abs := mkAbs (λ _, None) (λ _, None) (λ _, None) (λ _, None) (λ _, []) None.

Lemma toy_empty_represents `{SszHash} : impl_represents (B := positive) toy_empty abs_empty.
Proof. constructor; try done. Qed.
