(* ===== verification/StorageTheorems.v ===== *)
(** * Storage: the theorems *)

From S2P Require Import Prelude Errors Types Stf Storage BlockStorage BlockStorageSpec ToyHash ToyStore.

(** ** The in-memory store *)
Section in_memory.
Context {B : Type} `{Countable B} `{BuildMode} (byte_size : B → N).

Inductive im_op := ImPut (key value : B) | ImRemove (key : B).
Definition im_step (s : InMemoryStorage B) (o : im_op) : result (InMemoryStorage B) :=
  match o with
  | ImPut k v => im_put byte_size s k v
  | ImRemove k => im_remove byte_size s k
  end.
(** The contents the same operations give in a plain map. *)
Definition map_step (m : gmap B B) (o : im_op) : gmap B B :=
  match o with ImPut k v => <[k := v]> m | ImRemove k => delete k m end.

Lemma im_put_ok s k v s' :
  im_wf byte_size s → im_put byte_size s k v = Ok s' →
  im_wf byte_size s' ∧ im_storage s' = <[k := v]> (im_storage s).
Proof.
  unfold im_wf, im_put. intros Hwf Hp. destruct (im_storage s !! k) as [old|] eqn:Hk.
  - apply outcome_bind_ok in Hp as (size & (u & _ & [= <-])%outcome_bind_ok & [= <-]). simpl.
    split; [|done]. rewrite total_size_insert, Hwf, (total_size_delete byte_size _ _ _ Hk), u64_sub_mod, u64_add_mod.
    f_equal. lia.
  - simpl in Hp. injection Hp as <-. simpl. split; [|done].
    rewrite total_size_insert, delete_id by done. rewrite Hwf, u64_add_mod. f_equal. lia.
Qed.

(** After any sequence of puts and removes the in-memory store holds exactly what a
    plain map would, and its byte counter is the total size of the stored values
    modulo the width of size_t, also when values are overwritten. *)
Theorem in_memory_counts_bytes ops s :
  oc_foldl im_step InMemoryStorage_new ops = Ok s →
  im_storage s = foldl map_step ∅ ops ∧
  im_byteSizeHint s = Some (u64 (total_size byte_size (foldl map_step ∅ ops))).
Proof.
  assert (Hgen : ∀ s0, im_wf byte_size s0 → oc_foldl im_step s0 ops = Ok s →
    im_storage s = foldl map_step (im_storage s0) ops ∧ im_wf byte_size s).
  { induction ops as [|o ops IH]; intros s0 Hwf Hr; simpl in *; [by injection Hr as <-|].
    apply outcome_bind_ok in Hr as (s1 & H1 & Hr).
    assert (im_storage s1 = map_step (im_storage s0) o ∧ im_wf byte_size s1) as [Hs Hwf1].
    { destruct o as [k v|k]; simpl in *.
      - by apply im_put_ok in H1 as [? ?].
      - destruct (im_remove_spec byte_size s0 k Hwf) as (s2 & H2 & Hwf2 & Hs2).
        rewrite H2 in H1. by injection H1 as <-. }
    rewrite <- Hs. by apply IH. }
  intros Hr. destruct (Hgen InMemoryStorage_new eq_refl Hr) as [Hs Hwf].
  split; [done|]. unfold im_byteSizeHint. by rewrite Hwf, Hs.
Qed.
End in_memory.

Lemma in_memory_counts_bytes_witness :
  oc_foldl (@im_step positive _ _ DebugBuild (λ b, N.pos b)) InMemoryStorage_new
    [ImPut 1%positive 7%positive; ImPut 1%positive 9%positive; ImPut 2%positive 4%positive; ImRemove 3%positive]
    = Ok (mkInMemoryStorage {[ 1%positive := 9%positive; 2%positive := 4%positive ]} 13) ∧
  im_byteSizeHint (mkInMemoryStorage (B := positive) {[ 1%positive := 9%positive; 2%positive := 4%positive ]} 13)
    = Some (u64 (total_size (λ b, N.pos b) {[ 1%positive := 9%positive; 2%positive := 4%positive ]})).
Proof.
  split; [by vm_compute|].
  exact (proj2 (@in_memory_counts_bytes positive _ _ DebugBuild (λ b, N.pos b)
    [ImPut 1%positive 7%positive; ImPut 1%positive 9%positive; ImPut 2%positive 4%positive; ImRemove 3%positive]
    (mkInMemoryStorage {[ 1%positive := 9%positive; 2%positive := 4%positive ]} 13) ltac:(by vm_compute))).
Defined.

(** ** The block storage *)
Section block_storage.
Context {B W : Type} `{EqDecision B} `{!Codec B} `{!CodecLaws B}.
Context `{!SpacedStorage B W} `{!SpacedStorageLaws B W} `{BuildMode} `{SszHash}.

(** C13: over a fault-free key-value store, the block storage implements its abstract
    specification: each operation that writes returns successfully and changes exactly
    the records the specification changes, and each read returns what the
    specification holds, with the documented errors for missing records. *)
Theorem block_storage_refines s a :
  impl_represents s a →
  (∀ d hd, bd_header d = Some hd → bh_slot hd < two64 →
     runs impl_represents (putBlock d) s (Ok (sszHash_header hd)) (abs_put_block hd d a)) ∧
  (∀ h, runs impl_represents (removeBlock h) s (Ok ()) (abs_remove_block h a)) ∧
  (∀ i, bi_slot i < two64 →
     runs impl_represents (assignHashToSlot i) s (Ok ()) (abs_assign i a) ∧
     runs impl_represents (deassignHashToSlot i) s (Ok ()) (abs_deassign i a)) ∧
  (∀ l, runs impl_represents (setBlockTreeLeaves l) s (Ok ()) (abs_set_leaves (sort_hashes l) a)) ∧
  (∀ h x, runs impl_represents (putState h x) s (Ok ()) (abs_set_state h (Some x) a)) ∧
  (∀ h, runs impl_represents (getBlockHeader h) s
     (match a_header a h with
      | Some hd => Ok hd | None => Err (E_BlockStorage BS_HEADER_NOT_FOUND) end) a) ∧
  (∀ h, runs impl_represents (getState h) s (Ok (a_state a h)) a) ∧
  (∀ h, runs impl_represents (getSignedBlock h) s (abs_signed_block a h) a) ∧
  (∀ sl, sl < two64 → runs impl_represents (getBlockHash sl) s (Ok (a_slots a sl)) a) ∧
  runs impl_represents getBlockTreeLeaves s
    (match a_leaves a with
     | Some l => Ok l | None => Err (E_BlockStorage BLOCK_TREE_LEAVES_NOT_FOUND) end) a.
Proof.
  intros Hs. split_and!.
  - intros. by apply run_putBlock.
  - intros. by apply run_removeBlock.
  - intros. split; [by apply run_assign|by apply run_deassign].
  - intros. by apply run_setLeaves.
  - intros. by apply run_set_state.
  - intros. by apply run_getBlockHeader.
  - intros h. apply (run_decode s a StateSpace h enc_state dec_state); [done|apply Hs|apply dec_enc_state].
  - intros. by apply run_getSignedBlock.
  - intros. by apply run_getBlockHash.
  - by apply run_getLeaves.
Qed.

(** A signed block stored with putBlock is read back unchanged by getSignedBlock. *)
Theorem putBlock_getSignedBlock s a sb :
  impl_represents s a → b_slot (sb_block sb) < two64 →
  let block := sb_block sb in
  let data := mkBlockData (block_hash block) (Some (getHeader block)) (Some (b_body block))
                (Some (sb_signature sb)) in
  ∃ s' s'', putBlock data s = (Ok (block_hash block), s') ∧
    getSignedBlock (block_hash block) s' = (Ok sb, s'').
Proof.
  intros Hs Hsl block data.
  destruct (run_putBlock s a data (getHeader block) Hs eq_refl Hsl) as (s' & Hp & Hs').
  destruct (run_getSignedBlock s' _ (block_hash block) Hs') as (s'' & Hg & _).
  exists s', s''. split; [done|]. rewrite Hg. f_equal. unfold abs_signed_block, abs_put_block. simpl.
  unfold upd. rewrite !decide_True by done. subst block. by destruct sb as [[] sig].
Qed.

(** RemoveBlock erases the header, body, signatures and state of a stored block, and
    its entry of the slot index when that entry lists only this block; every other
    block's records are kept. *)
Theorem removeBlock_erases s a h hd :
  impl_represents s a → a_header a h = Some hd →
  ∃ s' a', removeBlock h s = (Ok (), s') ∧ impl_represents s' a' ∧
    a_header a' h = None ∧ a_body a' h = None ∧ a_signatures a' h = None ∧ a_state a' h = None ∧
    (a_slots a (bh_slot hd) = [h] → a_slots a' (bh_slot hd) = []) ∧
    ∀ h', h' ≠ h → a_header a' h' = a_header a h' ∧ a_body a' h' = a_body a h' ∧
      a_signatures a' h' = a_signatures a h' ∧ a_state a' h' = a_state a h'.
Proof.
  intros Hs Hh. destruct (run_removeBlock s a h Hs) as (s' & Hr & Hs').
  exists s', (abs_remove_block h a). split; [done|]. split; [done|].
  unfold abs_remove_block. rewrite Hh. simpl. unfold upd.
  destruct (decide (a_slots a (bh_slot hd) = [h])) as [Hsl|Hsl]; simpl;
    (split_and!; [by rewrite decide_True by done..| |]).
  - intros _. unfold upd. by rewrite decide_True.
  - intros h' Hne. by rewrite !decide_False.
  - done.
  - intros h' Hne. by rewrite !decide_False.
Qed.

(** The slot index forgets.  Two different blocks assigned to the same slot leave only
    the second one listed, because assignHashToSlot stores the new hash instead of the
    extended list. *)
Theorem assignHashToSlot_overwrites s a slot h1 h2 :
  impl_represents s a → slot < two64 → a_slots a slot = [] → h1 ≠ h2 →
  ∃ s1 s2 s3, assignHashToSlot (mkBlockIndex slot h1) s = (Ok (), s1) ∧
    assignHashToSlot (mkBlockIndex slot h2) s1 = (Ok (), s2) ∧
    getBlockHash slot s2 = (Ok [h2], s3).
Proof.
  intros Hs Hsl Hempty Hne.
  destruct (run_assign s a (mkBlockIndex slot h1) Hs Hsl) as (s1 & H1 & Hs1).
  destruct (run_assign s1 _ (mkBlockIndex slot h2) Hs1 Hsl) as (s2 & H2 & Hs2).
  destruct (run_getBlockHash s2 _ slot Hs2 Hsl) as (s3 & H3 & _).
  exists s1, s2, s3. split; [done|]. split; [done|]. rewrite H3. do 2 f_equal.
  assert (Ha1 : a_slots (abs_assign (mkBlockIndex slot h1) a) slot = [h1]).
  { unfold abs_assign. simpl. rewrite Hempty.
    rewrite decide_False by (by intros ?%not_elem_of_nil). simpl. unfold upd. by rewrite decide_True. }
  unfold abs_assign at 1. simpl. rewrite Ha1.
  rewrite decide_False by (intros ?%list_elem_of_singleton; congruence). simpl. unfold upd. by rewrite decide_True.
Qed.
End block_storage.

Section witnesses.
#[local] Existing Instance ReleaseBuild.

Definition ex_signed : SignedBlock := mkSignedBlock Ex.b4 (mkBlockSignatures [] 77).

Lemma block_storage_refines_witness :
  impl_represents (B := positive) toy_empty abs_empty ∧
  runs impl_represents (getBlockHeader 5) toy_empty (Err (E_BlockStorage BS_HEADER_NOT_FOUND)) abs_empty.
Proof.
  split; [apply toy_empty_represents|].
  exact (proj1 (proj2 (proj2 (proj2 (proj2 (proj2
    (block_storage_refines toy_empty abs_empty toy_empty_represents)))))) 5).
Defined.

Lemma putBlock_getSignedBlock_witness :
  ∃ s' s'', putBlock (mkBlockData (block_hash Ex.b4) (Some (getHeader Ex.b4)) (Some (b_body Ex.b4))
                        (Some (mkBlockSignatures [] 77))) toy_empty = (Ok (block_hash Ex.b4), s') ∧
    getSignedBlock (block_hash Ex.b4) s' = (Ok ex_signed, s'').
Proof.
  apply (putBlock_getSignedBlock toy_empty abs_empty ex_signed);
    [apply toy_empty_represents|by vm_compute].
Defined.

Definition ex_header : BlockHeader := mkBlockHeader 3 0 1 2 4.
Lemma stored_header :
  ∃ s, impl_represents (B := positive) (s : ToyS) (abs_put_header ex_header abs_empty).
Proof.
  destruct (run_putBlockHeader toy_empty abs_empty ex_header toy_empty_represents) as (s & _ & Hs);
    [by vm_compute|by exists s].
Qed.

Lemma removeBlock_erases_witness :
  ∃ (s s' : ToyS) a', removeBlock (sszHash_header ex_header) s = (Ok (), s') ∧
    impl_represents (B := positive) s' a' ∧ a_header a' (sszHash_header ex_header) = None.
Proof.
  destruct stored_header as [s Hs]. exists s.
  destruct (removeBlock_erases s (abs_put_header ex_header abs_empty) (sszHash_header ex_header) ex_header Hs)
    as (s' & a' & Hr & Hs' & Hh & _); [by vm_compute|]. by exists s', a'.
Defined.

Lemma assignHashToSlot_overwrites_witness :
  ∃ s1 s2 s3, assignHashToSlot (mkBlockIndex 4 100) toy_empty = (Ok (), s1) ∧
    assignHashToSlot (mkBlockIndex 4 101) s1 = (Ok (), s2) ∧
    getBlockHash 4 s2 = (Ok [101], s3).
Proof.
  apply (assignHashToSlot_overwrites toy_empty abs_empty 4 100 101);
    [apply toy_empty_represents|by vm_compute|by vm_compute|done].
Defined.
End witnesses.
