(* ===== verification/BlockTree.v ===== *)
(** * BlockTree (src/src/blockchain/impl/block_tree_impl.cpp)

    The block tree keeps the unfinalized blocks in a [CachedTree] and everything in a
    [BlockStorage].  Methods run under a lock, so each is one step on
    [BlockTreeData]; mutations made before an error stay.  Notifications sent to the
    subscription engine are recorded in [bt_events]. *)

From S2P Require Import Prelude Errors Types Stf CachedTree BlockStorage.

Inductive Event :=
| BlockAdded (header : BlockHeader) (best : bool)
| BlockHeaderAdded (header : BlockHeader)
| BlockFinalized (index : BlockIndex) (retired : list BlockIndex).

Section block_tree.
Context {S : Type} `{BlockStorage S} `{BuildMode} `{SszHash} `{UnorderedMap}.

Record BlockTreeData := mkBlockTreeData {
  bt_storage : S;
  bt_tree : CachedTree;
  bt_genesis_block_hash : option BlockHash;
  bt_events : list Event;
}.
Local Abbreviation M := (SM BlockTreeData error).

Definition storage {A} (m : SM S error A) : M A := λ p,
  let '(r, s) := m (bt_storage p) in
  (r, mkBlockTreeData s (bt_tree p) (bt_genesis_block_hash p) (bt_events p)).
Definition get_tree : M CachedTree := λ p, (Ok (bt_tree p), p).
Definition put_tree (t : CachedTree) : M () := λ p,
  (Ok (), mkBlockTreeData (bt_storage p) t (bt_genesis_block_hash p) (bt_events p)).
Definition notify (e : Event) : M () := λ p,
  (Ok (), mkBlockTreeData (bt_storage p) (bt_tree p) (bt_genesis_block_hash p) (bt_events p ++ [e])).

(** An operation of the tree that returns a value and the new tree. *)
Definition on_tree {A} (f : CachedTree → result (A * CachedTree)) : M A :=
  t ← get_tree;
  r ← sm_lift (f t);
  put_tree r.2 ≫= λ _, mret r.1.

(** getGenesisBlockHash: the hash is cached after the first call. *)
Definition getGenesisBlockHash : M BlockHash :=
  p ← sm_get;
  match bt_genesis_block_hash p with
  | Some h => mret h
  | None =>
      res ← sm_try (storage (bs_getBlockHash 0));
      let good := match res with inl [_] => true | _ => false end in
      sm_lift (boost_assert good) ≫= λ _,
      match res with
      | inl (h :: _) =>
          sm_modify (λ p, mkBlockTreeData (bt_storage p) (bt_tree p) (Some h) (bt_events p)) ≫= λ _,
          mret h
      | inl [] => sm_throw UndefinedBehaviour
      | inr _ => sm_throw BadOptionalAccess
      end
  end.

(** reorgAndPrune *)
Definition reorgAndPrune (changes : ReorgAndPrune) : M () :=
  t ← get_tree;
  storage (bs_setBlockTreeLeaves (leafHashes t)) ≫= λ _,
  (match rp_reorg changes with
   | Some r =>
       sm_iter (λ block, storage (bs_deassignHashToSlot block)) (rg_revert r) ≫= λ _,
       sm_iter (λ block, storage (bs_assignHashToSlot block)) (rg_apply r)
   | None => mret ()
   end) ≫= λ _,
  sm_iter (λ block, storage (bs_removeBlock (bi_hash block))) (rp_prune changes).

(** Creating a node under a known parent and adding it. *)
Definition add_node (index parent : BlockIndex) : M () :=
  t ← get_tree;
  pn ← sm_lift (deref (ct_nodes t) parent);
  r ← on_tree (λ t, add t (TreeNode_child index pn));
  reorgAndPrune (mkReorgAndPrune r []).

(** bestBlock, lastFinalized, getLatestJustified, getLeaves *)
Definition bestBlock : M BlockIndex := t ← get_tree; mret (ct_best t).
Definition lastFinalized : M BlockIndex := t ← get_tree; mret (ct_finalized t).
Definition getLastJustified : M BlockIndex := t ← get_tree; mret (ct_justified t).
Definition getLatestJustified : M Checkpoint :=
  j ← getLastJustified; mret (mkCheckpoint (bi_hash j) (bi_slot j)).
Definition getLeaves : M (list BlockHash) := t ← get_tree; mret (leafHashes t).

Definition addBlockHeader (header : BlockHeader) : M () :=
  t ← get_tree;
  match find t (bh_parent_root header) with
  | None => sm_err (E_BlockTree NO_PARENT)
  | Some parent =>
      storage (bs_putBlockHeader header) ≫= λ _,
      add_node (header_index header) parent ≫= λ _,
      notify (BlockHeaderAdded header)
  end.

Definition addBlock (signed_block : SignedBlock) : M () :=
  let block := sb_block signed_block in
  t ← get_tree;
  match find t (b_parent_root block) with
  | None => sm_err (E_BlockTree NO_PARENT)
  | Some parent =>
      let header := getHeader block in
      let block_data := mkBlockData (sszHash_header header) (Some header)
                          (Some (b_body block)) (Some (sb_signature signed_block)) in
      block_hash ← storage (bs_putBlock block_data);
      sm_lift (boost_assert (block_hash =? sszHash_header header)) ≫= λ _,
      add_node (header_index header) parent ≫= λ _,
      best ← bestBlock;
      notify (BlockAdded header (bool_decide (header_index header = best)))
  end.

Definition getBlockHeader (h : BlockHash) : M BlockHeader := storage (bs_getBlockHeader h).

(** getSlotByHash *)
Definition getSlotByHash (h : BlockHash) : M Slot :=
  t ← get_tree;
  match find t h with
  | Some node => mret (bi_slot node)
  | None => header ← getBlockHeader h; mret (bh_slot header)
  end.

Definition removeLeaf (h : BlockHash) : M () :=
  finalized ← lastFinalized;
  if h =? bi_hash finalized then
    header ← getBlockHeader h;
    slot ← getSlotByHash (bh_parent_root header);
    let parent := mkBlockIndex slot (bh_parent_root header) in
    put_tree (CachedTree_new parent) ≫= λ _,
    reorgAndPrune (mkReorgAndPrune (Some (mkReorg parent [finalized] [])) [finalized])
  else
    t ← get_tree;
    if negb (isLeaf t h) then sm_err (E_BlockTree BLOCK_IS_NOT_LEAF)
    else
      changes ← on_tree (λ t, CachedTree.removeLeaf t h);
      reorgAndPrune changes.

(** The search for a stored ancestor whose parent is in the tree; the result is the
    stack [to_add], topmost first. *)
Fixpoint restore_branch (fuel : nat) (finalized : Slot) (h : BlockHash)
    (to_add : list (BlockHash * BlockHeader)) : M (list (BlockHash * BlockHeader)) :=
  match fuel with
  | O => sm_throw OutOfFuel
  | Datatypes.S fuel =>
      header ← storage (bs_getBlockHeader h);
      if bh_slot header <=? finalized then sm_err (E_BlockTree BLOCK_ON_DEAD_END)
      else
        t ← get_tree;
        match find t (bh_parent_root header) with
        | Some _ => mret ((h, header) :: to_add)
        | None => restore_branch fuel finalized (bh_parent_root header) ((h, header) :: to_add)
        end
  end.

(** addExistingBlockNoLock; [depth] bounds the nesting of recursive calls, [fuel] the
    length of a branch restored from storage. *)
Fixpoint addExistingBlockNoLock (depth fuel : nat) (block_hash : BlockHash)
    (block_header : BlockHeader) : M () :=
  match depth with
  | O => sm_throw OutOfFuel
  | Datatypes.S depth =>
      t ← get_tree;
      match find t block_hash with
      | Some _ => sm_err (E_BlockTree BT_BLOCK_EXISTS)
      | None =>
          (match find t (bh_parent_root block_header) with
           | Some _ => mret ()
           | None =>
               finalized ← lastFinalized;
               to_add ← restore_branch fuel (bi_slot finalized) (bh_parent_root block_header) [];
               sm_iter (λ '(h, header), addExistingBlockNoLock depth fuel h header) to_add
           end) ≫= λ _,
          t ← get_tree;
          sm_lift (boost_assert (bool_decide (is_Some (find t (bh_parent_root block_header))))) ≫= λ _,
          parent ← sm_lift (of_option BadOptionalAccess (find t (bh_parent_root block_header)));
          add_node (header_index block_header) parent
      end
  end.

Definition addExistingBlock (fuel : nat) (block_hash : BlockHash) (block_header : BlockHeader) : M () :=
  addExistingBlockNoLock 2 fuel block_hash block_header.

Definition addBlockBody (h : BlockHash) (body : BlockBody) : M () := storage (bs_putBlockBody h body).

(** The ancestors of a node, nearest first. *)
Fixpoint ancestors_of (fuel : nat) (nodes : Nodes) (node : BlockIndex) : result (list BlockIndex) :=
  match parent_of nodes node with
  | None => Ok []
  | Some parent =>
      match fuel with
      | O => Throw OutOfFuel
      | Datatypes.S fuel => l ← ancestors_of fuel nodes parent; Ok (parent :: l)
      end
  end.

Definition finalize (block_hash : BlockHash) : M () :=
  last_finalized ← lastFinalized;
  if block_hash =? bi_hash last_finalized then mret ()
  else
    t ← get_tree;
    match find t block_hash with
    | Some node =>
        header ← storage (bs_getBlockHeader block_hash);
        retired_blocks ← sm_lift (ancestors_of (tree_fuel (ct_nodes t)) (ct_nodes t) node);
        changes ← on_tree (λ t, CachedTree.finalize t node);
        reorgAndPrune changes ≫= λ _,
        notify (BlockFinalized (header_index header) retired_blocks)
    | None =>
        header ← storage (bs_getBlockHeader block_hash);
        if bi_slot last_finalized <=? bh_slot header
        then sm_err (E_BlockTree NON_FINALIZED_BLOCK_NOT_FOUND)
        else
          hashes ← storage (bs_getBlockHash (bh_slot header));
          if negb (bool_decide (block_hash ∈ hashes)) then sm_err (E_BlockTree BLOCK_ON_DEAD_END)
          else mret ()
    end.

Definition setJustified (block_hash : BlockHash) : M () :=
  last_justified ← getLastJustified;
  if block_hash =? bi_hash last_justified then mret ()
  else
    t ← get_tree;
    match find t block_hash with
    | Some node =>
        header ← storage (bs_getBlockHeader block_hash);
        ancestors ← sm_lift (ancestors_of (tree_fuel (ct_nodes t)) (ct_nodes t) node);
        if bool_decide (last_justified ∈ ancestors)
        then put_tree (CachedTree.setJustified t node)
        else mret ()
    | None =>
        header ← storage (bs_getBlockHeader block_hash);
        if bi_slot last_justified <=? bh_slot header
        then sm_err (E_BlockTree NON_JUSTIFIED_BLOCK_NOT_FOUND)
        else
          hashes ← storage (bs_getBlockHash (bh_slot header));
          if negb (bool_decide (block_hash ∈ hashes)) then sm_err (E_BlockTree BLOCK_ON_DEAD_END)
          else mret ()
    end.

(** BlockTreeImpl::BlockTreeImpl, given what the initializer found in storage; an error
    while restoring is raised as an exception. *)
Definition raise_error {A} (m : M A) : M A := λ p,
  match m p with
  | (Err _, p') => (Throw SystemError, p')
  | r => r
  end.
Definition BlockTreeImpl_new (fuel : nat) (s : S) (finalized justified : BlockIndex)
    (non_finalized : list (BlockIndex * BlockHeader)) : result () * BlockTreeData :=
  raise_error (
    sm_iter (λ '(block, header), addExistingBlock fuel (bi_hash block) header) non_finalized ≫= λ _,
    setJustified (bi_hash justified))
  (mkBlockTreeData s (CachedTree_new finalized) None []).

Definition has (h : BlockHash) : M bool :=
  t ← get_tree;
  match find t h with
  | Some _ => mret true
  | None =>
      r ← sm_try (storage (bs_hasBlockHeader h));
      match r with inl b => mret b | inr _ => sm_throw BadOptionalAccess end
  end.

(** tryGetBlockHeader: the error is compared with an error of BlockTreeError. *)
Definition tryGetBlockHeader (h : BlockHash) : M (option BlockHeader) :=
  r ← sm_try (storage (bs_getBlockHeader h));
  match r with
  | inl header => mret (Some header)
  | inr e => if bool_decide (e = E_BlockTree BT_HEADER_NOT_FOUND) then mret None else sm_err e
  end.

Definition tryGetSignedBlock (h : BlockHash) : M (option SignedBlock) :=
  r ← sm_try (storage (bs_getSignedBlock h));
  match r with
  | inl b => mret (Some b)
  | inr e => if bool_decide (e = E_BlockTree BT_HEADER_NOT_FOUND) then mret None else sm_err e
  end.

Definition getBlockBody (h : BlockHash) : M BlockBody :=
  body ← storage (bs_getBlockBody h);
  match body with
  | Some b => mret b
  | None => sm_err (E_BlockTree BT_BODY_NOT_FOUND)
  end.

(** First loop of getDescendingChainToBlockNoLock: inside the tree.  Returns the chain
    and the hash to continue with in storage. *)
Fixpoint descending_in_tree (fuel : nat) (nodes : Nodes) (maximum : N) (node : BlockIndex)
    (h : BlockHash) (chain : list BlockHash) : result (list BlockHash * BlockHash) :=
  if maximum <=? lengthN chain then Ok (chain, h)
  else
    match parent_of nodes node with
    | None => Ok (chain, bi_hash node)
    | Some parent =>
        match fuel with
        | O => Throw OutOfFuel
        | Datatypes.S fuel =>
            descending_in_tree fuel nodes maximum parent h (chain ++ [bi_hash node])
        end
    end.

(** Second loop: in storage, at most [maximum] turns. *)
Fixpoint descending_in_storage (fuel : nat) (maximum : N) (h : BlockHash)
    (chain : list BlockHash) : M (list BlockHash) :=
  if maximum <=? lengthN chain then mret chain
  else
    match fuel with
    | O => sm_throw OutOfFuel
    | Datatypes.S fuel =>
        header_res ← sm_try (storage (bs_getBlockHeader h));
        match header_res with
        | inr e => match chain with [] => sm_err e | _ => mret chain end
        | inl header =>
            if bh_slot header =? 0 then mret (chain ++ [h])
            else descending_in_storage fuel maximum (bh_parent_root header) (chain ++ [h])
        end
    end.

Definition getDescendingChainToBlock (to_block : BlockHash) (maximum : N) : M (list BlockHash) :=
  t ← get_tree;
  r ← (match find t to_block with
       | Some node => sm_lift (descending_in_tree (tree_fuel (ct_nodes t)) (ct_nodes t) maximum
                                 node to_block [])
       | None => mret ([], to_block)
       end);
  descending_in_storage (N.to_nat maximum) maximum r.2 r.1.

Definition getBestChainFromBlock (block : BlockHash) (maximum : N) : M (list BlockHash) :=
  block_header_res ← sm_try (storage (bs_getBlockHeader block));
  match block_header_res with
  | inr _ => sm_err (E_BlockTree BT_HEADER_NOT_FOUND)
  | inl header =>
      let start_block_number := bh_slot header in
      if maximum =? 1 then mret [block]
      else
        best ← bestBlock;
        let current_depth := bi_slot best in
        if current_depth <=? start_block_number then mret [block]
        else
          let count := N.min (u64_add (u64_sub current_depth start_block_number) 1) maximum in
          let finish_block_number := u64_sub (u64_add start_block_number count) 1 in
          finish_res ← sm_try (storage (bs_getBlockHash finish_block_number));
          match finish_res with
          | inr _ => sm_err (E_BlockTree BT_HEADER_NOT_FOUND)
          | inl [] => sm_throw UndefinedBehaviour        (* value()[0] of an empty vector *)
          | inl (finish_block_hash :: _) =>
              chain ← getDescendingChainToBlock finish_block_hash count;
              match last chain with
              | None => sm_throw UndefinedBehaviour      (* back() of an empty vector *)
              | Some b => if negb (b =? block) then mret [block] else mret (reverse chain)
              end
          end
  end.

Definition isFinalized (block : BlockIndex) : M bool :=
  finalized ← lastFinalized;
  if bi_slot finalized <? bi_slot block then mret false
  else
    res ← sm_try (storage (bs_getBlockHash (bi_slot block)));
    match res with
    | inl (h :: _) => mret (h =? bi_hash block)
    | _ => mret false
    end.

Definition getBestContaining (target_hash : BlockHash) : M BlockIndex :=
  finalized ← lastFinalized;
  if bi_hash finalized =? target_hash then bestBlock
  else
    t ← get_tree;
    match find t target_hash with
    | Some node => sm_lift (bestWith t node)
    | None =>
        target_header ← storage (bs_getBlockHeader target_hash);
        hashes ← storage (bs_getBlockHash (bh_slot target_header));
        if negb (bool_decide (target_hash ∈ hashes)) then sm_err (E_BlockTree BLOCK_ON_DEAD_END)
        else bestBlock
    end.

Definition getChildren (block : BlockHash) : M (list BlockHash) :=
  t ← get_tree;
  match ct_nodes t !! block with
  | Some node => mret (bi_hash <$> tn_children node)
  | None =>
      header ← storage (bs_getBlockHeader block);
      storage (bs_getBlockHash (u64_add (bh_slot header) 1))
  end.
End block_tree.

Arguments BlockTreeData S : clear implicits.
