(* ===== verification/BlockTreeProofs.v ===== *)
(** * BlockTree: invariant and lemmas

    Proved against the laws of [BlockStorage] ([BlockStorageLaws]), so for every
    storage that satisfies them. *)

From S2P Require Import Prelude Errors Types Stf CachedTree CachedTreeProofs CachedTreeOps CachedTreeFinalize CachedTreeRemove CachedTreeTheorems Storage BlockStorage BlockStorageSpec BlockTree.

(** ** The effect of reorgAndPrune on the storage *)
Definition abs_reorg (r : Reorg) (a : Abs) : Abs :=
  foldl (λ a i, abs_assign i a) (foldl (λ a i, abs_deassign i a) a (rg_revert r)) (rg_apply r).
Definition abs_prune (l : list BlockIndex) (a : Abs) : Abs :=
  foldl (λ a i, abs_remove_block (bi_hash i) a) a l.
Definition abs_reorg_and_prune (leaves : list BlockHash) (c : ReorgAndPrune) (a : Abs) : Abs :=
  abs_prune (rp_prune c)
    (match rp_reorg c with
     | Some r => abs_reorg r (abs_set_leaves (sort_hashes leaves) a)
     | None => abs_set_leaves (sort_hashes leaves) a
     end).

(** Everything but the slot index is the same. *)
Definition same_blocks (a a' : Abs) : Prop :=
  a_header a' = a_header a ∧ a_body a' = a_body a ∧ a_signatures a' = a_signatures a ∧
  a_state a' = a_state a ∧ a_leaves a' = a_leaves a.

Lemma same_blocks_trans a1 a2 a3 : same_blocks a1 a2 → same_blocks a2 a3 → same_blocks a1 a3.
Proof. unfold same_blocks. naive_solver congruence. Qed.

Lemma abs_reorg_same r a : same_blocks a (abs_reorg r a).
Proof.
  unfold abs_reorg. eapply (same_blocks_trans _ (foldl (λ a i, abs_deassign i a) a (rg_revert r))).
  - generalize a. induction (rg_revert r) as [|i l IH]; intros a0; [done|]. simpl.
    eapply same_blocks_trans; [|apply IH]. unfold abs_deassign. by case_decide.
  - generalize (foldl (λ a i, abs_deassign i a) a (rg_revert r)).
    induction (rg_apply r) as [|i l IH]; intros a0; [done|]. simpl.
    eapply same_blocks_trans; [|apply IH]. unfold abs_assign. by case_decide.
Qed.

Lemma remove_block_header h h' a :
  a_header (abs_remove_block h' a) h = if decide (h = h' ∧ is_Some (a_header a h')) then None else a_header a h.
Proof.
  unfold abs_remove_block. destruct (a_header a h') eqn:Hh; simpl.
  - unfold upd. repeat case_decide; naive_solver.
  - rewrite decide_False; [done|]. by intros [_ [? ?]].
Qed.
Lemma remove_block_body h h' a :
  a_body (abs_remove_block h' a) h = if decide (h = h' ∧ is_Some (a_header a h')) then None else a_body a h.
Proof.
  unfold abs_remove_block. destruct (a_header a h') eqn:Hh; simpl.
  - unfold upd. repeat case_decide; naive_solver.
  - rewrite decide_False; [done|]. by intros [_ [? ?]].
Qed.
Lemma remove_block_state h h' a :
  a_state (abs_remove_block h' a) h = if decide (h = h' ∧ is_Some (a_header a h')) then None else a_state a h.
Proof.
  unfold abs_remove_block. destruct (a_header a h') eqn:Hh; simpl.
  - unfold upd. repeat case_decide; naive_solver.
  - rewrite decide_False; [done|]. by intros [_ [? ?]].
Qed.
Lemma remove_block_signatures h h' a :
  a_signatures (abs_remove_block h' a) h
  = if decide (h = h' ∧ is_Some (a_header a h')) then None else a_signatures a h.
Proof.
  unfold abs_remove_block. destruct (a_header a h') eqn:Hh; simpl.
  - unfold upd. repeat case_decide; naive_solver.
  - rewrite decide_False; [done|]. by intros [_ [? ?]].
Qed.

(** What pruning leaves of one kind of record [g] that removeBlock deletes. *)
Lemma abs_prune_lookup {V} (g : Abs → BlockHash → option V) l a h :
  (∀ h' a, g (abs_remove_block h' a) h = if decide (h = h' ∧ is_Some (a_header a h')) then None else g a h) →
  (∀ h', h' ∈ bi_hash <$> l → is_Some (a_header a h')) →
  NoDup (bi_hash <$> l) →
  g (abs_prune l a) h = if decide (h ∈ bi_hash <$> l) then None else g a h.
Proof.
  intros Hg. revert a. induction l as [|i l IH]; intros a Hh Hnd; [done|].
  rewrite fmap_cons in *. apply NoDup_cons in Hnd as [Hi Hnd]. unfold abs_prune in *. cbn [foldl].
  rewrite IH.
  - rewrite Hg. assert (Hi' : is_Some (a_header a (bi_hash i))) by (apply Hh; by left).
    destruct (decide (h ∈ bi_hash <$> l)), (decide (h = bi_hash i ∧ is_Some (a_header a (bi_hash i)))),
      (decide (h ∈ bi_hash i :: (bi_hash <$> l))) as [Hc|Hc]; try done;
      rewrite elem_of_cons in Hc; exfalso; tauto.
  - intros h' Hh'. assert (h' ≠ bi_hash i) by (intros ->; done).
    assert (Hs : is_Some (a_header a h')) by (apply Hh; by right).
    rewrite remove_block_header. by rewrite decide_False by naive_solver.
  - done.
Qed.

Section proofs.
Context {S : Type} `{!SszHash} `{!BlockStorage S} `{!BlockStorageLaws S} `{!BuildMode} `{!UnorderedMap}.

(** [p] has tree [t], genesis cache [g] and events [ev], and its storage represents [a]. *)
Record at_state (t : CachedTree) (g : option BlockHash) (ev : list Event)
    (p : BlockTreeData S) (a : Abs) : Prop := {
  as_storage : represents (bt_storage p) a;
  as_tree : bt_tree p = t;
  as_genesis : bt_genesis_block_hash p = g;
  as_events : bt_events p = ev;
}.

(** [m] returns [r] from [p] and ends in a state described by [t g ev a]. *)
Definition bt_runs {A} (m : SM (BlockTreeData S) error A) (p : BlockTreeData S)
    (r : outcome error A) t g ev a : Prop :=
  ∃ p', m p = (r, p') ∧ at_state t g ev p' a.

Lemma bt_ret {A} (x : A) p t g ev a : at_state t g ev p a → bt_runs (mret x) p (Ok x) t g ev a.
Proof. intros Hp. by exists p. Qed.
Lemma bt_err {A} e p t g ev a :
  at_state t g ev p a → bt_runs (sm_err e : SM _ _ A) p (Err e) t g ev a.
Proof. intros Hp. by exists p. Qed.
Lemma bt_lift {A} (r : outcome error A) p t g ev a :
  at_state t g ev p a → bt_runs (sm_lift r) p r t g ev a.
Proof. intros Hp. by exists p. Qed.
Lemma bt_bind {A C} (m : SM _ error A) (f : A → SM _ error C) p x t g ev a r t' g' ev' a' :
  bt_runs m p (Ok x) t g ev a →
  (∀ p', at_state t g ev p' a → bt_runs (f x) p' r t' g' ev' a') →
  bt_runs (m ≫= f) p r t' g' ev' a'.
Proof.
  intros (p' & Hm & Hp') Hf. destruct (Hf p' Hp') as (p'' & Hf' & Hp'').
  exists p''. split; [|done]. unfold mbind, sm_bind. by rewrite Hm.
Qed.
Lemma bt_bind_err {A C} (m : SM _ error A) (f : A → SM _ error C) p e t g ev a :
  bt_runs m p (Err e) t g ev a → bt_runs (m ≫= f) p (Err e) t g ev a.
Proof. intros (p' & Hm & Hp'). exists p'. split; [|done]. unfold mbind, sm_bind. by rewrite Hm. Qed.
Lemma bt_get_tree p t g ev a : at_state t g ev p a → bt_runs get_tree p (Ok t) t g ev a.
Proof. intros Hp. exists p. unfold get_tree. by rewrite (as_tree _ _ _ _ _ Hp). Qed.
Lemma bt_put_tree p t t' g ev a : at_state t g ev p a → bt_runs (put_tree t') p (Ok ()) t' g ev a.
Proof. intros [????]. by eexists. Qed.
Lemma bt_notify p e t g ev a : at_state t g ev p a → bt_runs (notify e) p (Ok ()) t g (ev ++ [e]) a.
Proof. intros [???<-]. by eexists. Qed.
Lemma bt_storage_op {A} (m : SM S error A) p r t g ev a a' :
  at_state t g ev p a → runs represents m (bt_storage p) r a' →
  bt_runs (storage m) p r t g ev a'.
Proof.
  intros [????] (s' & Hm & Hs'). unfold bt_runs, storage. rewrite Hm. eexists. split; [done|]. done.
Qed.
Lemma bt_try {A} (m : SM _ error A) p r t g ev a :
  bt_runs m p r t g ev a →
  match r with
  | Ok x => bt_runs (sm_try m) p (Ok (inl x)) t g ev a
  | Err e => bt_runs (sm_try m) p (Ok (inr e)) t g ev a
  | Throw _ => True
  end.
Proof.
  intros (p' & Hm & Hp'). destruct r; [| |done]; exists p'; unfold sm_try; by rewrite Hm.
Qed.
Lemma bt_on_tree {A} (f : CachedTree → result (A * CachedTree)) p t g ev a x t' :
  at_state t g ev p a → f t = Ok (x, t') → bt_runs (on_tree f) p (Ok x) t' g ev a.
Proof.
  intros Hp Hf. eapply bt_bind; [by apply bt_get_tree|]. intros p1 Hp1. rewrite Hf.
  eapply bt_bind; [by apply bt_lift|]. intros p2 Hp2. simpl.
  eapply bt_bind; [by eapply bt_put_tree|]. intros p3 Hp3. by apply bt_ret.
Qed.
Lemma bt_iter {A} (f : A → SM _ error ()) (step : A → Abs → Abs) l p t g ev a (Q : A → Prop) :
  at_state t g ev p a → (∀ x, x ∈ l → Q x) →
  (∀ x p a, Q x → at_state t g ev p a → bt_runs (f x) p (Ok ()) t g ev (step x a)) →
  bt_runs (sm_iter f l) p (Ok ()) t g ev (foldl (λ a x, step x a) a l).
Proof.
  revert p a. induction l as [|x l IH]; intros p a Hp HQ Hf; [by apply bt_ret|]. simpl.
  eapply bt_bind; [apply Hf; [apply HQ; by left|done]|]. intros p' Hp'.
  apply IH; [done|intros; apply HQ; by right|done].
Qed.

Definition slots_fit (l : list BlockIndex) : Prop := ∀ i, i ∈ l → bi_slot i < two64.

Lemma bt_reorgAndPrune c p t g ev a :
  at_state t g ev p a →
  (∀ r, rp_reorg c = Some r → slots_fit (rg_revert r) ∧ slots_fit (rg_apply r)) →
  bt_runs (reorgAndPrune c) p (Ok ()) t g ev (abs_reorg_and_prune (leafHashes t) c a).
Proof.
  intros Hp Hfit. unfold reorgAndPrune.
  eapply bt_bind; [by apply bt_get_tree|]. intros p1 Hp1.
  eapply bt_bind; [eapply bt_storage_op; [done|]; apply law_setBlockTreeLeaves, Hp1|]. intros p2 Hp2.
  eapply (bt_bind _ _ _ ()) with (a := match rp_reorg c with
    | Some r => abs_reorg r (abs_set_leaves (sort_hashes (leafHashes t)) a)
    | None => abs_set_leaves (sort_hashes (leafHashes t)) a end).
  - destruct (rp_reorg c) as [r|]; [|by apply bt_ret]. destruct (Hfit r eq_refl) as [Hr Ha].
    eapply bt_bind; [eapply (bt_iter _ abs_deassign _ _ _ _ _ _ (λ i, bi_slot i < two64)); [done|done|]|].
    { intros i p' a' Hi Hp'. eapply bt_storage_op; [done|]. by apply law_deassignHashToSlot; [apply Hp'|]. }
    intros p3 Hp3. eapply (bt_iter _ abs_assign _ _ _ _ _ _ (λ i, bi_slot i < two64)); [done|done|].
    intros i p' a' Hi Hp'. eapply bt_storage_op; [done|]. by apply law_assignHashToSlot; [apply Hp'|].
  - intros p3 Hp3. eapply (bt_iter _ (λ i, abs_remove_block (bi_hash i)) _ _ _ _ _ _ (λ _, True)); [done|done|].
    intros i p' a' _ Hp'. eapply bt_storage_op; [done|]. apply law_removeBlock, Hp'.
Qed.

(** ** The invariant between tree and storage *)
Record bt_wf (t : CachedTree) (a : Abs) : Prop := {
  bw_tree : tree_wf t;
  bw_headers : ∀ q, valid (ct_nodes t) q →
    ∃ hd, a_header a (bi_hash q) = Some hd ∧ bh_slot hd = bi_slot q ∧
      ∀ par, parent_of (ct_nodes t) q = Some par → bh_parent_root hd = bi_hash par;
}.

Lemma bt_wf_slots p t g ev a q :
  at_state t g ev p a → bt_wf t a → valid (ct_nodes t) q → bi_slot q < two64.
Proof.
  intros Hp Hwf Hq. destruct (bw_headers _ _ Hwf q Hq) as (hd & Hh & <- & _).
  by eapply represents_hash in Hh as [_ ?]; [|apply Hp].
Qed.

Lemma up_valid root nodes b q l i :
  nodes_wf root nodes → valid nodes q → up nodes b q l → i ∈ l → valid nodes i.
Proof.
  intros Hw Hq Hu. revert Hq. induction Hu as [|par q l Hp _ IH]; intros Hq Hi.
  - by apply not_elem_of_nil in Hi.
  - apply elem_of_cons in Hi as [->|Hi]; [done|]. apply IH; [|done].
    by eapply parent_of_valid in Hp as [? _].
Qed.

Lemma reorg_path_fits root nodes from to r :
  nodes_wf root nodes → valid nodes from → valid nodes to → reorg_path nodes from to r →
  (∀ q, valid nodes q → bi_slot q < two64) → slots_fit (rg_revert r) ∧ slots_fit (rg_apply r).
Proof.
  intros Hw Hf Ht (_ & Hu1 & Hu2 & _) Hs. split; intros i Hi; apply Hs.
  - by eapply up_valid in Hu1.
  - eapply up_valid in Hu2; [exact Hu2|done|done|]. by rewrite elem_of_reverse.
Qed.

Lemma parent_of_node root nodes q n :
  nodes_wf root nodes → nodes !! bi_hash q = Some n → parent_of nodes q = tn_parent n.
Proof.
  intros Hw Hn. unfold parent_of. rewrite Hn. simpl.
  destruct (decide (bi_hash q = bi_hash root)) as [Hr|Hr].
  - destruct (nw_root _ _ Hw) as (r & Hr1 & _ & Hr2). rewrite <- Hr in Hr1.
    assert (n = r) as -> by congruence. by rewrite Hr2.
  - destruct (nw_parent _ _ Hw _ _ Hn Hr) as (p & pn & Hp & Hpn & _). rewrite Hp. simpl. by rewrite Hpn.
Qed.

Lemma added_parent_of t idx parent pn q :
  tree_wf t → ct_nodes t !! bi_hash idx = None → ct_nodes t !! bi_hash parent = Some pn →
  tn_index pn = parent → bi_slot parent < bi_slot idx →
  (parent_of (added_nodes t idx parent pn) idx = Some parent) ∧
  (valid (ct_nodes t) q → parent_of (added_nodes t idx parent pn) q = parent_of (ct_nodes t) q).
Proof.
  intros Hwf Hn Hpn Hpi Hlt. pose proof (tw_nodes _ Hwf) as Hw.
  pose proof (added_nodes_wf t Hwf idx parent pn Hn Hpn Hpi Hlt) as Hw'. split.
  - rewrite (parent_of_node _ _ idx (added_node idx parent pn) Hw'); [done|].
    unfold added_nodes. by rewrite lookup_insert_eq.
  - intros (n & Hq & Hi). rewrite (parent_of_node _ _ _ _ Hw Hq).
    assert (Hqne : bi_hash q ≠ bi_hash idx) by congruence.
    destruct (decide (bi_hash q = bi_hash parent)) as [Heq|Hne].
    + rewrite (parent_of_node _ _ q (set_children (tn_children pn ++ [idx]) pn) Hw').
      * simpl. rewrite Heq in Hq. congruence.
      * apply added_lookup; try done. by right; left.
    + rewrite (parent_of_node _ _ q n Hw'); [done|]. apply added_lookup; try done. by right; right.
Qed.

(** ** Adding a block *)
Lemma bt_add_node idx parent pn t a :
  bt_wf t a → (∀ q, valid (ct_nodes t) q → bi_slot q < two64) →
  ct_nodes t !! bi_hash idx = None → ct_nodes t !! bi_hash parent = Some pn → tn_index pn = parent →
  bi_slot parent < bi_slot idx → bi_slot idx < two64 →
  ∃ t' a', (∀ p g ev, at_state t g ev p a → bt_runs (add_node idx parent) p (Ok ()) t' g ev a') ∧
    tree_wf t' ∧
    ct_root t' = ct_root t ∧ ct_justified t' = ct_justified t ∧
    ct_nodes t' = added_nodes t idx parent pn ∧
    a_header a' = a_header a ∧ a_body a' = a_body a ∧ a_signatures a' = a_signatures a ∧
    a_state a' = a_state a ∧ a_leaves a' = Some (sort_hashes (leafHashes t')).
Proof.
  intros Hwf Hsl Hn Hpn Hpi Hlt Hfit. pose proof (bw_tree _ _ Hwf) as Htw.
  destruct (add_spec t Htw idx parent pn Hn Hpn Hpi Hlt)
    as (ro & t' & Ha & Hwf' & Hr & Hj & Hnodes & _ & Hsome).
  set (a' := abs_reorg_and_prune (leafHashes t') (mkReorgAndPrune ro []) a).
  assert (Hsame : same_blocks (abs_set_leaves (sort_hashes (leafHashes t')) a) a').
  { unfold a', abs_reorg_and_prune, abs_prune. simpl. destruct ro; [apply abs_reorg_same|done]. }
  destruct Hsame as (? & ? & ? & ? & ?).
  exists t', a'. split_and!; try done.
  intros p g ev Hp. unfold add_node. eapply bt_bind; [by apply bt_get_tree|]. intros p1 Hp1.
    unfold deref. rewrite Hpn. eapply bt_bind; [by apply bt_lift|]. intros p2 Hp2.
    eapply bt_bind; [by eapply bt_on_tree|]. intros p3 Hp3. apply bt_reorgAndPrune; [done|].
    simpl. intros r ->. destruct (Hsome r eq_refl) as [Hb Hpath]. rewrite <- Hb in Hpath.
    eapply reorg_path_fits; [apply (tw_nodes _ Hwf')| |apply (tw_best _ Hwf')|exact Hpath|].
  - rewrite Hnodes. apply added_valid; try done. right. apply (tw_best _ Htw).
  - intros q Hq. rewrite Hnodes in Hq. apply added_valid in Hq as [->|Hq]; try done.
      by apply Hsl.
Qed.

Definition signed_block_data (sb : SignedBlock) : BlockData :=
  mkBlockData (block_hash (sb_block sb)) (Some (getHeader (sb_block sb)))
    (Some (b_body (sb_block sb))) (Some (sb_signature sb)).

Lemma addBlock_spec sb pn p t g ev a :
  at_state t g ev p a → bt_wf t a →
  let block := sb_block sb in
  ct_nodes t !! block_hash block = None → ct_nodes t !! b_parent_root block = Some pn →
  bi_slot (tn_index pn) < b_slot block → b_slot block < two64 →
  ∃ t' a', bt_runs (addBlock sb) p (Ok ()) t' g
      (ev ++ [BlockAdded (getHeader block) (bool_decide (block_index block = ct_best t'))]) a' ∧
    bt_wf t' a' ∧ ct_root t' = ct_root t ∧ ct_justified t' = ct_justified t ∧
    (∀ q, valid (ct_nodes t') q ↔ q = block_index block ∨ valid (ct_nodes t) q) ∧
    parent_of (ct_nodes t') (block_index block) = Some (tn_index pn) ∧
    a_header a' = upd (block_hash block) (Some (getHeader block)) (a_header a) ∧
    a_body a' = upd (block_hash block) (Some (b_body block)) (a_body a) ∧
    a_signatures a' = upd (block_hash block) (Some (sb_signature sb)) (a_signatures a) ∧
    a_state a' = a_state a ∧ a_leaves a' = Some (sort_hashes (leafHashes t')).
Proof.
  intros Hp Hwf block Hnew Hpn Hlt Hfit. pose proof (bw_tree _ _ Hwf) as Htw.
  pose proof (tw_nodes _ Htw) as Hw. pose proof (nw_key _ _ Hw _ _ Hpn) as Hkey.
  set (a1 := abs_put_block (getHeader block) (signed_block_data sb) a).
  assert (Hpn' : ct_nodes t !! bi_hash (tn_index pn) = Some pn) by (by rewrite Hkey).
  (* the invariant of the old tree holds over the extended storage *)
  assert (Hwf1 : bt_wf t a1).
  { constructor; [done|]. intros q Hq. destruct (bw_headers _ _ Hwf q Hq) as (hd & Hh & Hs & Hpar).
    exists hd. split; [|done]. unfold a1, abs_put_block. simpl. unfold upd.
    rewrite decide_False; [done|]. intros Heq. apply valid_lookup in Hq as [n Hn].
    rewrite Heq in Hn. unfold block_hash in Hnew. congruence. }
  destruct (bt_add_node (block_index block) (tn_index pn) pn t a1 Hwf1)
    as (t' & a' & Hrun & Htw' & Hr & Hj & Hnodes & Hah & Hab & Has & Hast & Hal); try done.
  { intros q Hq. by eapply bt_wf_slots. }
  exists t', a'.
  assert (Hval : ∀ q, valid (ct_nodes t') q ↔ q = block_index block ∨ valid (ct_nodes t) q).
  { intros q. rewrite Hnodes. by apply added_valid. }
  destruct (added_parent_of t (block_index block) (tn_index pn) pn (block_index block) Htw) as [Hpi _]; try done.
  split_and!; try done.
  - unfold addBlock. eapply bt_bind; [by apply bt_get_tree|]. intros p' Hp'.
    unfold find. fold block. rewrite Hpn. simpl. fold (signed_block_data sb).
    eapply bt_bind; [eapply bt_storage_op; [done|]; apply (law_putBlock _ a _ (getHeader block));
      [apply Hp'|done|done]|].
    intros p3 Hp3. rewrite N.eqb_refl, boost_assert_true. eapply bt_bind; [by apply bt_lift|].
    intros p4 Hp4. eapply bt_bind; [by apply Hrun|]. intros p5 Hp5.
    eapply (bt_bind _ _ _ (ct_best t')).
    { eapply bt_bind; [by apply bt_get_tree|]. intros p6 Hp6. by apply bt_ret. }
    intros p6 Hp6. by apply bt_notify.
  - constructor; [done|]. intros q [->|Hq]%Hval.
    + exists (getHeader block). rewrite Hah. unfold a1, abs_put_block. simpl. unfold upd.
      rewrite decide_True by done. split; [done|]. split; [done|].
      intros par. rewrite Hnodes, Hpi. intros [= <-]. by rewrite Hkey.
    + destruct (bw_headers _ _ Hwf1 q Hq) as (hd & Hh & Hs & Hpar). exists hd. rewrite Hah.
      split; [done|]. split; [done|]. intros par. rewrite Hnodes.
      destruct (added_parent_of t (block_index block) (tn_index pn) pn q Htw) as [_ Hpq]; try done.
      rewrite (Hpq Hq). apply Hpar.
  - by rewrite Hnodes.
Qed.

(** ** Finalizing a block *)
Lemma ancestors_of_spec root nodes fuel q :
  nodes_wf root nodes → valid nodes q → (height nodes q ≤ fuel)%nat →
  ∃ l, ancestors_of fuel nodes q = Ok l ∧ ∀ x, x ∈ l ↔ panc nodes x q.
Proof.
  intros Hw Hq. revert q Hq fuel.
  apply (parent_ind root nodes Hw (λ q, ∀ fuel, (height nodes q ≤ fuel)%nat → _)).
  intros q Hq IH fuel Hf. destruct (parent_of nodes q) as [par|] eqn:Hp.
  - pose proof (height_parent _ _ Hw _ _ Hq Hp). destruct fuel as [|fuel]; [lia|]. simpl. rewrite Hp.
    destruct (IH par eq_refl fuel) as (l & Hl & Hin); [lia|]. rewrite Hl. simpl.
    exists (par :: l). split; [done|]. intros x. rewrite elem_of_cons, Hin.
    by rewrite (panc_parent _ _ Hw q par x Hq Hp).
  - exists []. split; [destruct fuel; simpl; by rewrite Hp|]. intros x.
    rewrite elem_of_nil. split; [done|]. intros [Ha Hne]. inversion Ha; [done|congruence].
Qed.

Lemma prune_hashes_NoDup t l :
  (∀ c, c ∈ l → valid (ct_nodes t) c) → NoDup l → NoDup (bi_hash <$> l).
Proof.
  intros Hv Hnd. apply NoDup_fmap_2_strong; [|done]. intros x y Hx Hy Heq.
  eapply (valid_inj (ct_nodes t)); [by apply Hv..|done].
Qed.

Lemma finalize_bt_spec h node p t g ev a :
  at_state t g ev p a → bt_wf t a → find t h = Some node → node ≠ ct_root t →
  ∃ changes t' a' retired, bt_runs (finalize h) p (Ok ()) t' g (ev ++ [BlockFinalized node retired]) a' ∧
    bt_wf t' a' ∧ finalized_to t node changes t' ∧
    (∀ x, x ∈ retired ↔ panc (ct_nodes t) x node) ∧
    a_leaves a' = Some (sort_hashes (leafHashes t')) ∧
    (∀ x, x ∈ bi_hash <$> rp_prune changes →
       a_header a' x = None ∧ a_body a' x = None ∧ a_signatures a' x = None ∧ a_state a' x = None) ∧
    (∀ x, x ∉ bi_hash <$> rp_prune changes →
       a_header a' x = a_header a x ∧ a_body a' x = a_body a x ∧
       a_signatures a' x = a_signatures a x ∧ a_state a' x = a_state a x).
Proof.
  intros Hp Hwf Hf Hne. pose proof (bw_tree _ _ Hwf) as Htw. pose proof (tw_nodes _ Htw) as Hw.
  destruct (find_valid t h node Htw Hf) as [Hv Hh].
  destruct (finalize_spec t node Htw Hv) as (changes & t' & Hfin & Hfz).
  destruct (ancestors_of_spec _ _ (tree_fuel (ct_nodes t)) node Hw Hv) as (retired & Hret & Hin);
    [pose proof (height_fuel (ct_nodes t) node); lia|].
  destruct (bw_headers _ _ Hwf node Hv) as (hd & Hhd & Hslot & _). rewrite Hh in Hhd.
  destruct (represents_hash _ _ _ _ (as_storage _ _ _ _ _ Hp) Hhd) as [Hhash _].
  assert (Hidx : header_index hd = node).
  { unfold header_index. destruct node. simpl in *. congruence. }
  set (a' := abs_reorg_and_prune (leafHashes t') changes a).
  set (a1 := match rp_reorg changes with
    | Some r => abs_reorg r (abs_set_leaves (sort_hashes (leafHashes t')) a)
    | None => abs_set_leaves (sort_hashes (leafHashes t')) a end).
  assert (Hsame : same_blocks (abs_set_leaves (sort_hashes (leafHashes t')) a) a1).
  { unfold a1. destruct (rp_reorg changes); [apply abs_reorg_same|done]. }
  assert (Ha' : a' = abs_prune (rp_prune changes) a1) by done.
  destruct Hsame as (Hs1 & Hs2 & Hs3 & Hs4 & Hs5).
  assert (Hpv : ∀ c, c ∈ rp_prune changes → valid (ct_nodes t) c).
  { intros c Hc. by apply (fz_prune _ _ _ _ Hfz) in Hc as [? _]. }
  assert (Hnd : NoDup (bi_hash <$> rp_prune changes)).
  { eapply prune_hashes_NoDup; [done|apply Hfz]. }
  assert (Hpres : ∀ x, x ∈ bi_hash <$> rp_prune changes → is_Some (a_header a1 x)).
  { intros x (c & -> & Hc)%list_elem_of_fmap. rewrite Hs1.
    destruct (bw_headers _ _ Hwf c (Hpv c Hc)) as (hd' & Hhd' & _). simpl. by rewrite Hhd'. }
  assert (Hlk : ∀ x,
    (a_header a' x = if decide (x ∈ bi_hash <$> rp_prune changes) then None else a_header a x) ∧
    (a_body a' x = if decide (x ∈ bi_hash <$> rp_prune changes) then None else a_body a x) ∧
    (a_signatures a' x = if decide (x ∈ bi_hash <$> rp_prune changes) then None else a_signatures a x) ∧
    (a_state a' x = if decide (x ∈ bi_hash <$> rp_prune changes) then None else a_state a x)).
  { intros x. rewrite Ha'.
    rewrite (abs_prune_lookup a_header _ a1 x (λ h' a, remove_block_header x h' a) Hpres Hnd), Hs1.
    rewrite (abs_prune_lookup a_body _ a1 x (λ h' a, remove_block_body x h' a) Hpres Hnd), Hs2.
    rewrite (abs_prune_lookup a_signatures _ a1 x (λ h' a, remove_block_signatures x h' a) Hpres Hnd), Hs3.
    rewrite (abs_prune_lookup a_state _ a1 x (λ h' a, remove_block_state x h' a) Hpres Hnd), Hs4. done. }
  exists changes, t', a', retired. split_and!; [| |done|done| | |].
  - unfold finalize. eapply (bt_bind _ _ _ (ct_root t)).
    { eapply bt_bind; [by apply bt_get_tree|]. intros p1 Hp1. by apply bt_ret. }
    intros p1 Hp1. destruct (N.eqb_spec h (bi_hash (ct_root t))) as [Heq|_].
    { exfalso. apply Hne. eapply (valid_inj (ct_nodes t)); [done|by eapply valid_root|congruence]. }
    eapply bt_bind; [by apply bt_get_tree|]. intros p2 Hp2. rewrite Hf.
    eapply (bt_bind _ _ _ hd).
    { eapply bt_storage_op; [done|]. pose proof (law_getBlockHeader _ _ h (as_storage _ _ _ _ _ Hp2)) as Hg.
      by rewrite Hhd in Hg. }
    intros p3 Hp3. rewrite Hret. eapply bt_bind; [by apply bt_lift|]. intros p4 Hp4.
    eapply bt_bind; [by eapply bt_on_tree|]. intros p5 Hp5.
    eapply bt_bind; [apply bt_reorgAndPrune; [done|]|].
    { intros r Hr. pose proof (fz_reorg _ _ _ _ Hfz) as Hpath. rewrite Hr in Hpath.
      eapply reorg_path_fits; [exact Hw|apply (tw_best _ Htw)| |exact Hpath|].
      - apply (fz_nodes _ _ _ _ Hfz). apply (tw_best _ (fz_wf _ _ _ _ Hfz)).
      - intros q Hq. exact (bt_wf_slots _ _ _ _ _ _ Hp Hwf Hq). }
    intros p6 Hp6. rewrite Hidx. by apply bt_notify.
  - constructor; [apply Hfz|]. intros q Hq.
    pose proof Hq as [Hqv Hqa]%(fz_nodes _ _ _ _ Hfz).
    destruct (bw_headers _ _ Hwf q Hqv) as (hd' & Hhd' & Hsl & Hpar). exists hd'.
    destruct (Hlk (bi_hash q)) as (-> & _). split; [|split; [done|]].
    + rewrite decide_False; [exact Hhd'|]. intros (c & Heq & Hc)%list_elem_of_fmap.
      apply (fz_prune _ _ _ _ Hfz) in Hc as (Hcv & Hna & _). apply Hna.
      by rewrite (valid_inj _ _ _ Hcv Hqv (eq_sym Heq)).
    + intros par Hpq. apply Hpar. by eapply fz_parents.
  - rewrite Ha'. simpl in Hs5. clear -Hs5. revert Hs5. generalize a1 (Some (sort_hashes (leafHashes t'))).
    induction (rp_prune changes) as [|i l IH]; intros b L Hb; [done|]. unfold abs_prune in *. simpl.
    apply IH. rewrite <- Hb. unfold abs_remove_block. destruct (a_header b (bi_hash i)); [|done]. simpl. case_decide; done.
  - intros x Hx. destruct (Hlk x) as (-> & -> & -> & ->). by rewrite !decide_True.
  - intros x Hx. destruct (Hlk x) as (-> & -> & -> & ->). by rewrite !decide_False.
Qed.

(** ** Justifying a block *)
Lemma setJustified_bt_spec h node p t g ev a :
  at_state t g ev p a → bt_wf t a → find t h = Some node → h ≠ bi_hash (ct_justified t) →
  ∃ b : bool, (b = true ↔ panc (ct_nodes t) (ct_justified t) node) ∧
    bt_runs (setJustified h) p (Ok ())
      (if b then CachedTree.setJustified t node else t) g ev a.
Proof.
  intros Hp Hwf Hf Hne. pose proof (bw_tree _ _ Hwf) as Htw. pose proof (tw_nodes _ Htw) as Hw.
  destruct (find_valid t h node Htw Hf) as [Hv Hh].
  destruct (ancestors_of_spec _ _ (tree_fuel (ct_nodes t)) node Hw Hv) as (l & Hl & Hin);
    [pose proof (height_fuel (ct_nodes t) node); lia|].
  destruct (bw_headers _ _ Hwf node Hv) as (hd & Hhd & _). rewrite Hh in Hhd.
  exists (bool_decide (ct_justified t ∈ l)). split; [by rewrite bool_decide_eq_true, Hin|].
  unfold setJustified. eapply (bt_bind _ _ _ (ct_justified t)).
  { eapply bt_bind; [by apply bt_get_tree|]. intros p1 Hp1. by apply bt_ret. }
  intros p1 Hp1. rewrite (proj2 (N.eqb_neq _ _) Hne).
  eapply bt_bind; [by apply bt_get_tree|]. intros p2 Hp2. rewrite Hf.
  eapply (bt_bind _ _ _ hd).
  { eapply bt_storage_op; [done|]. pose proof (law_getBlockHeader _ _ h (as_storage _ _ _ _ _ Hp2)) as Hg.
    by rewrite Hhd in Hg. }
  intros p3 Hp3. rewrite Hl. eapply bt_bind; [by apply bt_lift|]. intros p4 Hp4.
  case_bool_decide; [by eapply bt_put_tree|by apply bt_ret].
Qed.

(** ** Reading *)
Lemma tryGetSignedBlock_spec h p t g ev a :
  at_state t g ev p a →
  bt_runs (tryGetSignedBlock h) p
    (match abs_signed_block a h with Ok b => Ok (Some b) | Err e => Err e | Throw x => Throw x end) t g ev a.
Proof.
  intros Hp. pose proof (law_getSignedBlock _ _ h (as_storage _ _ _ _ _ Hp)) as Hg.
  pose proof (bt_storage_op _ _ _ _ _ _ _ _ Hp Hg) as Hs. apply bt_try in Hs.
  unfold tryGetSignedBlock.
  assert (He : ∀ e, abs_signed_block a h = Err e → e ≠ E_BlockTree BT_HEADER_NOT_FOUND).
  { unfold abs_signed_block. intros e. repeat case_match; intros [= <-]; done. }
  destruct (abs_signed_block a h) as [b|e|x] eqn:Hb.
  - eapply bt_bind; [exact Hs|]. intros p1 Hp1. by apply bt_ret.
  - eapply bt_bind; [exact Hs|]. intros p1 Hp1. cbv beta iota. rewrite bool_decide_false by (by apply He). by apply bt_err.
  - exfalso. unfold abs_signed_block in Hb. by repeat case_match.
Qed.

Lemma tryGetBlockHeader_spec h p t g ev a :
  at_state t g ev p a →
  bt_runs (tryGetBlockHeader h) p
    (match a_header a h with
     | Some hd => Ok (Some hd)
     | None => Err (E_BlockStorage BS_HEADER_NOT_FOUND) end) t g ev a.
Proof.
  intros Hp. pose proof (law_getBlockHeader _ _ h (as_storage _ _ _ _ _ Hp)) as Hg.
  pose proof (bt_storage_op _ _ _ _ _ _ _ _ Hp Hg) as Hs. apply bt_try in Hs.
  unfold tryGetBlockHeader. destruct (a_header a h).
  - eapply bt_bind; [exact Hs|]. intros p1 Hp1. by apply bt_ret.
  - eapply bt_bind; [exact Hs|]. intros p1 Hp1. cbv beta iota. rewrite bool_decide_false by done. by apply bt_err.
Qed.
End proofs.
