(* ===== verification/BlockTreeTheorems.v ===== *)
(** * BlockTree: the theorems *)

From S2P Require Import Prelude Errors Types Stf CachedTree CachedTreeProofs CachedTreeOps CachedTreeFinalize CachedTreeTheorems Storage BlockStorage BlockStorageSpec BlockTree BlockTreeProofs ToyHash ToyStore.

Section theorems.
Context {S : Type} `{!SszHash} `{!BlockStorage S} `{!BlockStorageLaws S} `{!BuildMode} `{!UnorderedMap}.

(** C18: adding a signed block whose parent is in the tree at an earlier slot succeeds:
    the block becomes a child of its parent, no other block is lost, the invariant
    between tree and storage holds again, the finalized and justified blocks stay,
    the new leaves are persisted, subscribers are told whether it is the new best
    block, and tryGetSignedBlock then returns exactly that block. *)
Theorem addBlock_extends_tree sb pn p t g ev a :
  at_state t g ev p a → bt_wf t a →
  ct_nodes t !! block_hash (sb_block sb) = None →
  ct_nodes t !! b_parent_root (sb_block sb) = Some pn →
  bi_slot (tn_index pn) < b_slot (sb_block sb) → b_slot (sb_block sb) < two64 →
  ∃ p' p'' t' a', addBlock sb p = (Ok (), p') ∧
    at_state t' g (ev ++ [BlockAdded (getHeader (sb_block sb))
                            (bool_decide (block_index (sb_block sb) = ct_best t'))]) p' a' ∧
    bt_wf t' a' ∧ ct_root t' = ct_root t ∧ ct_justified t' = ct_justified t ∧
    (∀ q, valid (ct_nodes t') q ↔ q = block_index (sb_block sb) ∨ valid (ct_nodes t) q) ∧
    parent_of (ct_nodes t') (block_index (sb_block sb)) = Some (tn_index pn) ∧
    a_leaves a' = Some (sort_hashes (leafHashes t')) ∧
    tryGetSignedBlock (block_hash (sb_block sb)) p' = (Ok (Some sb), p'').
Proof.
  intros Hp Hwf Hnew Hpn Hlt Hfit.
  destruct (addBlock_spec sb pn p t g ev a Hp Hwf Hnew Hpn Hlt Hfit)
    as (t' & a' & (p' & Hrun & Hp') & Hwf' & Hr & Hj & Hval & Hpar & Hh & Hb & Hs & _ & Hl).
  destruct (tryGetSignedBlock_spec (block_hash (sb_block sb)) p' _ _ _ _ Hp') as (p'' & Hget & _).
  exists p', p'', t', a'. split_and!; try done. rewrite Hget. f_equal. unfold abs_signed_block.
  rewrite Hh, Hb, Hs. unfold upd. rewrite !decide_True by done. by destruct sb as [[] sig].
Qed.

(** C17: finalizing a block of the tree succeeds: the tree keeps exactly its subtree, the
    pruned blocks (neither ancestors nor descendants) lose their header, body,
    signatures and state, every other block keeps them, the leaves are persisted and
    the invariant between tree and storage holds again; subscribers are told the
    finalized block and its ancestors. *)
Theorem finalize_prunes_forks h node p t g ev a :
  at_state t g ev p a → bt_wf t a → find t h = Some node → node ≠ ct_root t →
  ∃ p' changes t' a' retired, finalize h p = (Ok (), p') ∧
    at_state t' g (ev ++ [BlockFinalized node retired]) p' a' ∧
    bt_wf t' a' ∧ finalized_to t node changes t' ∧
    (∀ x, x ∈ retired ↔ panc (ct_nodes t) x node) ∧
    a_leaves a' = Some (sort_hashes (leafHashes t')) ∧
    (∀ x, x ∈ bi_hash <$> rp_prune changes →
       a_header a' x = None ∧ a_body a' x = None ∧ a_signatures a' x = None ∧ a_state a' x = None) ∧
    (∀ x, x ∉ bi_hash <$> rp_prune changes →
       a_header a' x = a_header a x ∧ a_body a' x = a_body a x ∧
       a_signatures a' x = a_signatures a x ∧ a_state a' x = a_state a x).
Proof.
  intros Hp Hwf Hf Hne.
  destruct (finalize_bt_spec h node p t g ev a Hp Hwf Hf Hne)
    as (changes & t' & a' & retired & (p' & Hrun & Hp') & Hrest).
  exists p', changes, t', a', retired. split; [done|]. by split.
Qed.

(** SetJustified moves the justified block only to a descendant of the current one;
    for any other block of the tree it reports success and changes nothing, so the
    justified block never moves to another branch. *)
Theorem setJustified_only_forward h node p t g ev a :
  at_state t g ev p a → bt_wf t a → find t h = Some node → h ≠ bi_hash (ct_justified t) →
  (panc (ct_nodes t) (ct_justified t) node ∧
   ∃ p', setJustified h p = (Ok (), p') ∧ at_state (CachedTree.setJustified t node) g ev p' a) ∨
  (¬ panc (ct_nodes t) (ct_justified t) node ∧
   ∃ p', setJustified h p = (Ok (), p') ∧ at_state t g ev p' a).
Proof.
  intros Hp Hwf Hf Hne. destruct (setJustified_bt_spec h node p t g ev a Hp Hwf Hf Hne) as ([] & Hb & Hr).
  - left. split; [by apply Hb|done].
  - right. split; [|done]. intros ?%Hb. done.
Qed.

(** Looking up a block that is not stored gives an error instead of the documented
    empty result: tryGetBlockHeader and tryGetSignedBlock compare the error with
    BlockTreeError::HEADER_NOT_FOUND, but the storage reports
    BlockStorageError::HEADER_NOT_FOUND. *)
Theorem tryGet_missing_is_error h p t g ev a :
  at_state t g ev p a → a_header a h = None →
  (∃ p', tryGetBlockHeader h p = (Err (E_BlockStorage BS_HEADER_NOT_FOUND), p')) ∧
  (∃ p', tryGetSignedBlock h p = (Err (E_BlockStorage BS_HEADER_NOT_FOUND), p')).
Proof.
  intros Hp Hh. split.
  - destruct (tryGetBlockHeader_spec h p t g ev a Hp) as (p' & Hr & _). rewrite Hh in Hr. eauto.
  - destruct (tryGetSignedBlock_spec h p t g ev a Hp) as (p' & Hr & _).
    unfold abs_signed_block in Hr. rewrite Hh in Hr. eauto.
Qed.
End theorems.

(** ** An example block tree over the in-memory storage *)
Module BtEx.
#[local] Existing Instance ReleaseBuild.
#[local] Existing Instance CanonicalOrder.

Definition genesis : BlockHeader := mkBlockHeader 0 0 0 9 9.
Definition p0 : BlockTreeData ToyS :=
  mkBlockTreeData (putBlockHeader genesis toy_empty).2 (CachedTree_new (header_index genesis)) None [].
Definition a0 : Abs := abs_put_header genesis abs_empty.

Lemma p0_at : at_state (CachedTree_new (header_index genesis)) None [] p0 a0.
Proof.
  destruct (run_putBlockHeader (B := positive) toy_empty abs_empty genesis toy_empty_represents)
    as (s & Hr & Hs); [by vm_compute|].
  constructor; try done. unfold p0. cbn [bt_storage]. rewrite Hr. exact Hs.
Qed.

Lemma p0_wf : bt_wf (CachedTree_new (header_index genesis)) a0.
Proof.
  constructor; [apply CachedTree_new_wf|]. intros q (n & Hn & <-).
  cbn [CachedTree_new ct_nodes] in *. apply lookup_singleton_Some in Hn as [_ <-].
  exists genesis. unfold a0, abs_put_header, upd. cbn [a_header].
  rewrite decide_True by done. split; [done|]. split; [done|]. intros par.
  unfold parent_of. cbn [TreeNode_root tn_index]. by rewrite lookup_singleton_eq.
Qed.

(** A child of genesis at slot 2: slot 1 stays empty. *)
Definition block : SignedBlock :=
  mkSignedBlock (mkBlock 2 0 (sszHash_header genesis) 5 (mkBlockBody [])) (mkBlockSignatures [] 1).

Lemma addBlock_extends_tree_witness :
  ∃ p' p'' : BlockTreeData ToyS, addBlock block p0 = (Ok (), p') ∧
    tryGetSignedBlock (block_hash (sb_block block)) p' = (Ok (Some block), p'').
Proof.
  destruct (addBlock_extends_tree block (TreeNode_root (header_index genesis)) p0 _ _ _ a0 p0_at p0_wf)
    as (p' & p'' & t' & a' & Hr & _ & _ & _ & _ & _ & _ & _ & Hg); [by vm_compute..|].
  exists p', p''. exact (conj Hr Hg).
Defined.

Definition p1 : BlockTreeData ToyS := (addBlock block p0).2.

Lemma p1_run : addBlock block p0 = (Ok (), p1).
Proof.
  destruct (addBlock_spec block (TreeNode_root (header_index genesis)) p0 _ _ _ a0 p0_at p0_wf)
    as (t' & a' & (p' & Hr & _) & _); [by vm_compute..|]. unfold p1. by rewrite Hr.
Qed.

Lemma p1_at : ∃ t a, at_state t None (bt_events p1) p1 a ∧ bt_wf t a ∧
  ct_root t = header_index genesis ∧ ct_justified t = header_index genesis ∧
  find t (block_hash (sb_block block)) = Some (block_index (sb_block block)) ∧
  panc (ct_nodes t) (header_index genesis) (block_index (sb_block block)).
Proof.
  destruct (addBlock_spec block (TreeNode_root (header_index genesis)) p0 _ _ _ a0 p0_at p0_wf)
    as (t' & a' & (p' & Hr & Hp') & Hwf' & Hroot & Hj & Hval & Hpar & _); [by vm_compute..|].
  exists t', a'. unfold p1. rewrite Hr. cbn [snd]. split; [|split; [done|]].
  { destruct Hp' as [???He]. by constructor; try done; rewrite He. }
  split; [done|]. split; [done|].
  assert (Hv : valid (ct_nodes t') (block_index (sb_block block))) by (apply Hval; by left).
  split.
  - destruct Hv as (n & Hn & Hi). unfold find. unfold block_index at 1 in Hn. cbn [bi_hash] in Hn.
    rewrite Hn. cbn. by rewrite Hi.
  - pose proof (tw_nodes _ (bw_tree _ _ Hwf')) as Hw.
    apply (panc_irrefl_parent _ _ Hw); [done|exact Hpar].
Qed.

Lemma finalize_prunes_forks_witness :
  ∃ (p' : BlockTreeData ToyS) t', finalize (block_hash (sb_block block)) p1 = (Ok (), p') ∧
    bt_tree p' = t' ∧ ct_root t' = block_index (sb_block block).
Proof.
  destruct p1_at as (t & a & Hp & Hwf & Hroot & _ & Hf & _).
  destruct (finalize_prunes_forks _ _ p1 t None (bt_events p1) a Hp Hwf Hf)
    as (p' & ch & t' & a' & ret & Hr & Hp' & _ & Hfz & _).
  { rewrite Hroot. by vm_compute. }
  exists p', t'. split; [exact Hr|]. split; [apply Hp'|apply Hfz].
Defined.

Lemma setJustified_only_forward_witness :
  ∃ p' : BlockTreeData ToyS, setJustified (block_hash (sb_block block)) p1 = (Ok (), p').
Proof.
  destruct p1_at as (t & a & Hp & Hwf & Hroot & Hj & Hf & Hpa).
  destruct (setJustified_only_forward _ _ p1 t None (bt_events p1) a Hp Hwf Hf)
    as [(_ & p' & Hr & _)|(_ & p' & Hr & _)]; [rewrite Hj; by vm_compute|exact (ex_intro _ p' Hr)..].
Defined.

Lemma tryGet_missing_is_error_witness :
  (∃ p', tryGetBlockHeader 42 p0 = (Err (E_BlockStorage BS_HEADER_NOT_FOUND), p')) ∧
  (∃ p', tryGetSignedBlock 42 p0 = (Err (E_BlockStorage BS_HEADER_NOT_FOUND), p')).
Proof. exact (tryGet_missing_is_error 42 p0 _ _ _ a0 p0_at eq_refl). Defined.
End BtEx.

(** GetBestChainFromBlock reads past the end of an empty vector when the slot at which
    the requested stretch of the best chain ends has no block: on the tree genesis at
    slot 0, block at slot 2, asking for two blocks from genesis takes the first hash of
    slot 1, which is empty. *)
Theorem getBestChainFromBlock_empty_slot :
  ∃ p : BlockTreeData ToyS,
    (∃ p0 b, @addBlock ToyS _ ReleaseBuild _ CanonicalOrder b p0 = (Ok (), p)) ∧
    bi_slot (ct_best (bt_tree p)) = 2 ∧
    (getBestChainFromBlock (sszHash_header BtEx.genesis) 2 p).1 = Throw UndefinedBehaviour.
Proof.
  exists BtEx.p1. split; [|split; by vm_compute]. exists BtEx.p0, BtEx.block.
  exact BtEx.p1_run.
Qed.
