(* ===== verification/LruCache.v ===== *)
(** * SmallLruCache (src/src/utils/lru_cache.hpp)

    The cache is a vector of entries with the tick of their latest use.  Values are
    shared immutable objects, so a [shared_ptr] is the value it points to.  The lock
    makes each operation one step. *)

From S2P Require Import Prelude Errors.

Record CacheEntry (K V : Type) := mkCacheEntry {
  ce_key : K;
  ce_value : V;
  ce_tick : N;
}.
Arguments mkCacheEntry {K V} _ _ _.
Arguments ce_key {K V} _.
Arguments ce_value {K V} _.
Arguments ce_tick {K V} _.

Record LruCache (K V : Type) := mkLruCache {
  lru_max_size : N;
  lru_ticks : N;
  lru_cache : list (CacheEntry K V);
}.
Arguments mkLruCache {K V} _ _ _.
Arguments lru_max_size {K V} _.
Arguments lru_ticks {K V} _.
Arguments lru_cache {K V} _.

(** CacheEntry::operator<, as a preorder for sorting. *)
Definition tick_le {K V} (x y : CacheEntry K V) : Prop := ce_tick x ≤ ce_tick y.
#[global] Instance tick_le_dec {K V} (x y : CacheEntry K V) : Decision (tick_le x y).
Proof. unfold tick_le. apply _. Defined.
#[global] Instance tick_le_total {K V} : Total (@tick_le K V).
Proof. intros x y. unfold tick_le. lia. Qed.
#[global] Instance tick_le_trans {K V} : Transitive (@tick_le K V).
Proof. intros x y z. unfold tick_le. lia. Qed.

Definition set_tick {K V} (t : N) (e : CacheEntry K V) : CacheEntry K V :=
  mkCacheEntry (ce_key e) (ce_value e) t.

Section lru.
Context {K V : Type} `{EqDecision K} `{EqDecision V} `{BuildMode}.

(** SmallLruCache::SmallLruCache *)
Definition lru_new (max_size : N) : result (LruCache K V) :=
  _ ← boost_assert (0 <? max_size);
  Ok (mkLruCache max_size 0 []).

(** handleTicksOverflow: entries get consecutive ticks in the order of their use. *)
Definition handleTicksOverflow (c : LruCache K V) : LruCache K V :=
  let sorted := merge_sort tick_le (lru_cache c) in
  mkLruCache (lru_max_size c) (u64_add (lru_ticks c) (lengthN sorted))
    (imap (λ i e, set_tick (u64_add (lru_ticks c) (N.of_nat i)) e) sorted).

(** [if (++ticks_ == 0) handleTicksOverflow()] *)
Definition next_tick (c : LruCache K V) : LruCache K V :=
  let c := mkLruCache (lru_max_size c) (u64_add (lru_ticks c) 1) (lru_cache c) in
  if lru_ticks c =? 0 then handleTicksOverflow c else c.

(** The loop of get: the first entry with the key is marked as used. *)
Fixpoint touch (k : K) (t : N) (l : list (CacheEntry K V)) : option V * list (CacheEntry K V) :=
  match l with
  | [] => (None, [])
  | e :: l =>
      if decide (ce_key e = k) then (Some (ce_value e), set_tick t e :: l)
      else let '(r, l') := touch k t l in (r, e :: l')
  end.

Definition lru_get (k : K) (c : LruCache K V) : option V * LruCache K V :=
  let c := next_tick c in
  let '(r, l) := touch k (lru_ticks c) (lru_cache c) in
  (r, mkLruCache (lru_max_size c) (lru_ticks c) l).

(** std::min_element: position of the first entry with the least tick. *)
Fixpoint min_element (l : list (CacheEntry K V)) : nat :=
  match l with
  | [] => O
  | e :: l' =>
      match l' !! min_element l' with
      | Some m => if ce_tick m <? ce_tick e then S (min_element l') else O
      | None => O
      end
  end.

(** evict_if_full: the position of the erased entry, if any, and the rest. *)
Definition evict_if_full (c : LruCache K V) : option nat * list (CacheEntry K V) :=
  if lru_max_size c <=? lengthN (lru_cache c)
  then let i := min_element (lru_cache c) in (Some i, delete i (lru_cache c))
  else (None, lru_cache c).

(** std::ranges::find_if on the values *)
Definition find_value (v : V) (l : list (CacheEntry K V)) : option nat :=
  fst <$> list_find (λ e, ce_value e = v) l.

(** put: an equal value already cached is shared.  The iterator to it is used after
    evict_if_full; erasing an entry at or before its position invalidates it. *)
Definition lru_put (k : K) (v : V) (c : LruCache K V) : result (V * LruCache K V) :=
  let c := next_tick c in
  let '(erased, l) := evict_if_full c in
  let c' := mkLruCache (lru_max_size c) (lru_ticks c)
              (l ++ [mkCacheEntry k v (lru_ticks c)]) in
  match find_value v (lru_cache c), erased with
  | Some it, Some min => if (min <=? it)%nat then Throw UndefinedBehaviour else Ok (v, c')
  | _, _ => Ok (v, c')
  end.

(** erase *)
Definition lru_erase (k : K) (c : LruCache K V) : LruCache K V :=
  mkLruCache (lru_max_size c) (lru_ticks c)
    (match list_find (λ e, ce_key e = k) (lru_cache c) with
     | Some (i, _) => delete i (lru_cache c)
     | None => lru_cache c
     end).

(** erase_if, with retain_if on the vector *)
Definition lru_erase_if (predicate : K → V → bool) (c : LruCache K V) : LruCache K V :=
  mkLruCache (lru_max_size c) (lru_ticks c)
    (filter (λ e, predicate (ce_key e) (ce_value e) = false) (lru_cache c)).
End lru.
