(* ===== verification/LruProofs.v ===== *)
(** * SmallLruCache: invariant and refinement of a recency list *)

From S2P Require Import Prelude Errors LruCache.

Definition entry_pair {K V} (e : CacheEntry K V) : K * V := (ce_key e, ce_value e).
Definition pairs {K V} (c : LruCache K V) : list (K * V) := entry_pair <$> lru_cache c.

(** Every entry with key [k] holds [v], and there is one. *)
Definition cached {K V} (c : LruCache K V) (k : K) (v : V) : Prop :=
  (k, v) ∈ pairs c ∧ ∀ v', (k, v') ∈ pairs c → v' = v.

(** Ticks are distinct and in the past; the capacity is respected. *)
Record lru_wf {K V} (c : LruCache K V) : Prop := {
  lw_size : lengthN (lru_cache c) ≤ lru_max_size c;
  lw_max : 0 < lru_max_size c;
  lw_small : lru_max_size c < two64 - 1;
  lw_ticks : lru_ticks c < two64;
  lw_past : ∀ e, e ∈ lru_cache c → ce_tick e ≤ lru_ticks c;
  lw_distinct : NoDup (ce_tick <$> lru_cache c);
}.

Definition more_recent {K V} (x y : CacheEntry K V) : Prop := ce_tick y < ce_tick x.

(** [l] lists the cached pairs, the most recently used first. *)
Definition recency {K V} (c : LruCache K V) (l : list (K * V)) : Prop :=
  ∃ es, es ≡ₚ lru_cache c ∧ StronglySorted more_recent es ∧ l = entry_pair <$> es.

Section lru_proofs.
Context {K V : Type} `{EqDecision K} `{EqDecision V}.
Implicit Types c : LruCache K V.

Lemma pair_set_tick t (e : CacheEntry K V) : entry_pair (set_tick t e) = entry_pair e.
Proof. done. Qed.

(** Renumbering keeps the pairs and the order. *)
Lemma imap_pairs (f : nat → N) (l : list (CacheEntry K V)) :
  entry_pair <$> imap (λ i e, set_tick (f i) e) l = entry_pair <$> l.
Proof. revert f. induction l as [|e l IH]; intros f; simpl; [done|]. f_equal. apply (IH (f ∘ S)). Qed.

Lemma imap_ticks (f : nat → N) (l : list (CacheEntry K V)) :
  ce_tick <$> imap (λ i e, set_tick (f i) e) l = f <$> seq 0 (length l).
Proof.
  revert f. induction l as [|e l IH]; intros f; simpl; [done|]. f_equal.
  rewrite <- fmap_S_seq, <- list_fmap_compose. apply (IH (f ∘ S)).
Qed.

Lemma next_tick_pairs c : pairs (next_tick c) ≡ₚ pairs c.
Proof.
  unfold next_tick, handleTicksOverflow, pairs. case_match; cbn [lru_cache lru_ticks]; [|done].
  rewrite (imap_pairs (λ i, u64_add _ (N.of_nat i))). by rewrite merge_sort_Permutation.
Qed.

Lemma touch_spec (k : K) t (l : list (CacheEntry K V)) :
  let '(r, l') := touch k t l in
  entry_pair <$> l' = entry_pair <$> l ∧
  match r with
  | Some v => ∃ l1 e l2, l = l1 ++ e :: l2 ∧ l' = l1 ++ set_tick t e :: l2 ∧ ce_key e = k ∧ ce_value e = v
  | None => l' = l ∧ k ∉ ce_key <$> l
  end.
Proof.
  induction l as [|e l IH]; simpl; [split; [done|split; [done|set_solver]]|].
  destruct (decide (ce_key e = k)) as [He|He].
  - split; [done|]. by exists [], e, l.
  - destruct (touch k t l) as [r l']. simpl. destruct IH as [Hp Hr]. split; [by f_equal|].
    destruct r as [v|].
    + destruct Hr as (l1 & e' & l2 & -> & -> & Hk & Hv). by exists (e :: l1), e', l2.
    + destruct Hr as [-> Hk]. split; [done|]. set_solver.
Qed.

Lemma lru_get_pairs k c : pairs (lru_get k c).2 ≡ₚ pairs c.
Proof.
  unfold lru_get. pose proof (touch_spec k (lru_ticks (next_tick c)) (lru_cache (next_tick c))) as Ht.
  destruct (touch _ _ _) as [r l]. destruct Ht as [Hp _]. rewrite <- (next_tick_pairs c).
  unfold pairs. simpl. by rewrite Hp.
Qed.

Lemma pairs_length c c' : pairs c' ≡ₚ pairs c → length (lru_cache c') = length (lru_cache c).
Proof. intros Hp%Permutation_length. unfold pairs in Hp. by rewrite !length_fmap in Hp. Qed.

Lemma next_tick_size c :
  lru_max_size (next_tick c) = lru_max_size c ∧ lengthN (lru_cache (next_tick c)) = lengthN (lru_cache c).
Proof.
  split; [unfold next_tick, handleTicksOverflow; by case_match|].
  unfold lengthN. by rewrite (pairs_length _ _ (next_tick_pairs c)).
Qed.

Lemma lru_get_result k c :
  match (lru_get k c).1 with
  | Some v => (k, v) ∈ pairs c
  | None => ∀ v, (k, v) ∉ pairs c
  end.
Proof.
  pose proof (next_tick_pairs c) as Hn. unfold lru_get.
  pose proof (touch_spec k (lru_ticks (next_tick c)) (lru_cache (next_tick c))) as Ht.
  destruct (touch _ _ _) as [r l]. destruct Ht as [_ Hr]. simpl. destruct r as [v|].
  - destruct Hr as (l1 & e & l2 & Hl & _ & <- & <-). rewrite <- Hn. unfold pairs. rewrite Hl.
    apply list_elem_of_fmap. exists e. set_solver.
  - destruct Hr as [_ Hk]. intros v. rewrite <- Hn. unfold pairs. rewrite list_elem_of_fmap.
    intros (e & He & Hin). apply Hk, list_elem_of_fmap. exists e. split; [by injection He|done].
Qed.

Lemma lru_get_max k c : lru_max_size (lru_get k c).2 = lru_max_size c.
Proof.
  unfold lru_get, next_tick, handleTicksOverflow. destruct (touch _ _ _) as [r l]. simpl. by case_match.
Qed.

(** A hit returns the cached value and keeps it cached. *)
Lemma lru_get_cached c k v :
  cached c k v → (lru_get k c).1 = Some v ∧ cached (lru_get k c).2 k v.
Proof.
  intros [Hin Hu]. pose proof (lru_get_result k c) as Hr. split.
  - destruct ((lru_get k c).1) as [v'|]; [by rewrite (Hu v' Hr)|]. by apply Hr in Hin.
  - split; setoid_rewrite lru_get_pairs; done.
Qed.

(** put into a cache that is not full. *)
Lemma lru_put_room k v c :
  lengthN (lru_cache c) < lru_max_size c →
  ∃ c', lru_put k v c = Ok (v, c') ∧ pairs c' ≡ₚ pairs c ++ [(k, v)] ∧ lru_max_size c' = lru_max_size c.
Proof.
  intros Hlt. pose proof (next_tick_pairs c) as Hn. unfold lru_put, evict_if_full.
  destruct (next_tick_size c) as [Hmax Hlen].
  rewrite Hmax, Hlen, (proj2 (N.leb_gt _ _) Hlt).
  eexists. split; [by case_match|]. split; [|done].
  rewrite <- Hn. unfold pairs. simpl. by rewrite fmap_app.
Qed.

(** ** Refinement of the recency list *)
Lemma more_recent_past (t : N) (e : CacheEntry K V) es :
  StronglySorted more_recent es → (∀ x, x ∈ es → ce_tick x < t) → ce_tick e = t →
  StronglySorted more_recent (e :: es).
Proof. intros Hs Hlt He. constructor; [done|]. apply Forall_forall. intros x Hx. unfold more_recent. rewrite He. by apply Hlt. Qed.

Lemma sorted_remove (es1 es2 : list (CacheEntry K V)) e :
  StronglySorted more_recent (es1 ++ e :: es2) → StronglySorted more_recent (es1 ++ es2).
Proof.
  intros Hs. eapply StronglySorted_app_2; [|by eapply StronglySorted_app_1_l|].
  - intros x y Hx Hy. eapply StronglySorted_app_1_elem_of in Hs; [exact Hs|done|by right].
  - apply StronglySorted_app_1_r in Hs. by inversion Hs.
Qed.

Lemma distinct_inj (l : list (CacheEntry K V)) x y :
  NoDup (ce_tick <$> l) → x ∈ l → y ∈ l → ce_tick x = ce_tick y → x = y.
Proof.
  intros Hnd [i Hi]%list_elem_of_lookup [j Hj]%list_elem_of_lookup Heq.
  assert (i = j) as ->; [|congruence].
  eapply (NoDup_lookup _ _ _ (ce_tick x) Hnd); rewrite list_lookup_fmap; [by rewrite Hi|].
  rewrite Hj. simpl. by rewrite Heq.
Qed.

Lemma sorted_asc_reverse es : StronglySorted more_recent es → StronglySorted (@tick_le K V) (reverse es).
Proof.
  induction 1 as [|e es Hs IH Hall]; [constructor|]. rewrite reverse_cons.
  apply StronglySorted_app_2; [|done|repeat constructor]. intros x y Hx Hy.
  apply list_elem_of_singleton in Hy as ->. rewrite elem_of_reverse in Hx.
  rewrite Forall_forall in Hall. specialize (Hall x Hx). unfold tick_le, more_recent in *. lia.
Qed.

Lemma imap_sorted (n : nat) (l : list (CacheEntry K V)) :
  StronglySorted more_recent (reverse (imap (λ i e, set_tick (N.of_nat (n + i)) e) l)).
Proof.
  revert n. induction l as [|e l IH]; intros n; simpl; [constructor|]. rewrite reverse_cons.
  assert (He : imap ((λ i e, set_tick (N.of_nat (n + i)) e) ∘ S) l = imap (λ i e, set_tick (N.of_nat (S n + i)) e) l).
  { apply imap_ext. intros i x _. simpl. do 2 f_equal. lia. }
  rewrite He. apply StronglySorted_app_2; [|apply IH|repeat constructor].
  intros x y Hx Hy. apply list_elem_of_singleton in Hy as ->. rewrite elem_of_reverse in Hx.
  apply elem_of_lookup_imap in Hx as (i & z & -> & _). unfold more_recent. simpl. lia.
Qed.

(** All entries of [c'] lie strictly in the past, in the order [l]. *)
Record ticked (c : LruCache K V) (l : list (K * V)) (c' : LruCache K V) : Prop := {
  tk_recency : recency c' l;
  tk_max : lru_max_size c' = lru_max_size c;
  tk_ticks : lru_ticks c' < two64;
  tk_past : ∀ e, e ∈ lru_cache c' → ce_tick e < lru_ticks c';
  tk_distinct : NoDup (ce_tick <$> lru_cache c');
}.

Lemma merge_sort_length c : length (merge_sort tick_le (lru_cache c)) = length (lru_cache c).
Proof. by rewrite merge_sort_Permutation. Qed.

(** Sorting by tick gives the recency order backwards. *)
Lemma merge_sort_recency c es :
  lru_wf c → es ≡ₚ lru_cache c → StronglySorted more_recent es →
  merge_sort tick_le (lru_cache c) = reverse es.
Proof.
  intros Hwf Hperm Hs. apply (StronglySorted_unique_strong tick_le).
  - intros x y Hx Hy Hxy Hyx. unfold tick_le in *. rewrite merge_sort_Permutation in Hx.
    rewrite elem_of_reverse, Hperm in Hy. eapply distinct_inj; [apply Hwf|done..|lia].
  - apply StronglySorted_merge_sort; apply _.
  - by apply sorted_asc_reverse.
  - by rewrite merge_sort_Permutation, reverse_Permutation, Hperm.
Qed.

Lemma overflow_ticked c l :
  lru_wf c → recency c l → ticked c l (handleTicksOverflow (mkLruCache (lru_max_size c) 0 (lru_cache c))).
Proof.
  intros Hwf (es & Hperm & Hsorted & ->). pose proof (lw_size _ Hwf) as Hsz. pose proof (lw_small _ Hwf) as Hsm.
  pose proof (merge_sort_recency c es Hwf Hperm Hsorted) as Hms. pose proof (merge_sort_length c) as Hml.
  unfold handleTicksOverflow. cbn [lru_cache lru_ticks lru_max_size]. set (new := imap _ _).
  assert (Hnew : new = imap (λ i e, set_tick (N.of_nat (0 + i)) e) (reverse es)).
  { unfold new. rewrite Hms. apply imap_ext. intros i x Hx. simpl. f_equal.
    apply lookup_lt_Some in Hx. rewrite <- Hms, Hml in Hx.
    unfold u64_add. rewrite N.add_0_l. apply u64_small. unfold lengthN in *. lia. }
  assert (Hlen : length (reverse es) = length (lru_cache c)) by (by rewrite <- Hms).
  constructor; cbn [lru_cache lru_ticks lru_max_size].
  - exists (reverse new). split; [apply reverse_Permutation|]. split.
    + rewrite Hnew. apply imap_sorted.
    + rewrite fmap_reverse, Hnew, (imap_pairs (λ i, N.of_nat (0 + i))). by rewrite <- fmap_reverse, reverse_involutive.
  - done.
  - apply u64_lt.
  - rewrite Hnew. intros e (i & x & -> & Hi)%elem_of_lookup_imap. simpl.
    apply lookup_lt_Some in Hi. unfold lengthN in *. rewrite Hml. unfold u64_add. rewrite u64_small by lia. lia.
  - rewrite Hnew, (imap_ticks (λ i, N.of_nat (0 + i))). apply NoDup_fmap_2; [|apply NoDup_seq].
    intros i j. lia.
Qed.

Lemma next_tick_ticked c l : lru_wf c → recency c l → ticked c l (next_tick c).
Proof.
  intros Hwf Hrec. unfold next_tick. cbn [lru_ticks].
  destruct (N.eqb_spec (u64_add (lru_ticks c) 1) 0) as [He|He]; [rewrite He; by apply overflow_ticked|].
  pose proof (lw_ticks _ Hwf). constructor; cbn [lru_cache lru_ticks lru_max_size].
  - exact Hrec.
  - done.
  - apply u64_lt.
  - intros e Hin. pose proof (lw_past _ Hwf e Hin).
    destruct (decide (lru_ticks c + 1 < two64)) as [Hlt|Hge]; [rewrite u64_add_small by done; lia|].
    exfalso. apply He. unfold u64_add, u64. replace (lru_ticks c + 1) with two64 by lia.
    by apply N.Div0.mod_same.
  - apply Hwf.
Qed.

Lemma keys_of_pairs (l : list (CacheEntry K V)) : ce_key <$> l = fst <$> (entry_pair <$> l).
Proof. by rewrite <- list_fmap_compose. Qed.

(** A hit moves a pair with the key to the front; a miss changes nothing. *)
Lemma lru_get_refines c k l :
  lru_wf c → recency c l →
  let '(r, c') := lru_get k c in
  lru_wf c' ∧ lru_max_size c' = lru_max_size c ∧
  match r with
  | Some v => ∃ l1 l2, l = l1 ++ (k, v) :: l2 ∧ recency c' ((k, v) :: l1 ++ l2)
  | None => (k ∉ l.*1) ∧ recency c' l
  end.
Proof.
  intros Hwf Hrec. destruct (next_tick_ticked c l Hwf Hrec) as [(es & Hperm & Hsorted & ->) Hmax Hticks Hpast Hdist].
  pose proof (pairs_length _ _ (next_tick_pairs c)) as Hlen.
  pose proof (lw_size _ Hwf) as Hsz. pose proof (lw_max _ Hwf) as Hm. pose proof (lw_small _ Hwf) as Hsm. clear Hwf Hrec.
  unfold lru_get. generalize dependent (next_tick c). intros c1 Hperm Hmax Hticks Hpast Hdist Hlen.
  pose proof (touch_spec k (lru_ticks c1) (lru_cache c1)) as Ht. destruct (touch k _ _) as [r cl].
  destruct Ht as [Hp Hr]. assert (Hcl : length cl = length (lru_cache c)).
  { rewrite <- Hlen. apply (f_equal length) in Hp. by rewrite !length_fmap in Hp. }
  destruct r as [v|].
  - destruct Hr as (l1 & e & l2 & Hl & -> & Hke & Hve).
    assert (He : e ∈ es) by (rewrite Hperm, Hl; set_solver).
    apply list_elem_of_split in He as (es1 & es2 & ->).
    assert (Hrest : es1 ++ es2 ≡ₚ l1 ++ l2).
    { apply (Permutation_cons_inv (a := e)). rewrite !Permutation_middle. by rewrite Hperm, Hl. }
    assert (Hother : ∀ x, x ∈ l1 ++ l2 → ce_tick x < lru_ticks c1).
    { intros x Hx. apply Hpast. rewrite Hl. set_solver. }
    split; [|split; [done|]].
    + constructor; cbn [lru_cache lru_ticks lru_max_size]; rewrite ?Hmax; try done.
      * unfold lengthN in *. by rewrite Hcl.
      * intros x Hx. assert (x = set_tick (lru_ticks c1) e ∨ x ∈ l1 ++ l2) as [->|Hx'] by set_solver; [done|].
        specialize (Hother x Hx'). lia.
      * rewrite fmap_app, fmap_cons, <- Permutation_middle, <- fmap_app. simpl. apply NoDup_cons. split.
        -- intros (x & Hx & Hin)%list_elem_of_fmap. specialize (Hother x Hin). lia.
        -- rewrite Hl, fmap_app, fmap_cons, <- Permutation_middle, <- fmap_app in Hdist. by apply NoDup_cons in Hdist as [_ ?].
    + assert (Hpair : entry_pair e = (k, v)) by (unfold entry_pair; by rewrite Hke, Hve).
      exists (entry_pair <$> es1), (entry_pair <$> es2). split; [by rewrite fmap_app, fmap_cons, Hpair|].
      exists (set_tick (lru_ticks c1) e :: es1 ++ es2). split; [|split].
      * cbn [lru_cache]. rewrite <- Permutation_middle. by rewrite Hrest.
      * eapply more_recent_past; [by eapply sorted_remove| |done]. intros x Hx. apply Hother. by rewrite <- Hrest.
      * by rewrite fmap_cons, fmap_app, pair_set_tick, Hpair.
  - destruct Hr as [-> Hk]. split; [|split; [done|split]].
    + constructor; cbn [lru_cache lru_ticks lru_max_size]; rewrite ?Hmax; try done.
      * unfold lengthN in *. by rewrite Hcl.
      * intros x Hx. specialize (Hpast x Hx). lia.
    + rewrite <- keys_of_pairs. by rewrite Hperm.
    + by exists es.
Qed.

Lemma min_element_spec (l : list (CacheEntry K V)) :
  l ≠ [] → ∃ m, l !! min_element l = Some m ∧ ∀ e, e ∈ l → ce_tick m ≤ ce_tick e.
Proof.
  induction l as [|e l IH]; [done|]. intros _. simpl. destruct l as [|e' l].
  - exists e. split; [done|]. intros x ->%list_elem_of_singleton. lia.
  - destruct IH as (m & Hm & Hmin); [done|]. rewrite Hm.
    destruct (N.ltb_spec (ce_tick m) (ce_tick e)) as [Hlt|Hge].
    + exists m. split; [done|]. intros x [->|Hx]%elem_of_cons; [lia|by apply Hmin].
    + exists e. split; [done|]. intros x [->|Hx]%elem_of_cons; [lia|]. specialize (Hmin x Hx). lia.
Qed.

(** The least recently used entry is the last of the recency order. *)
Lemma evict_last (l es : list (CacheEntry K V)) :
  l ≠ [] → es ≡ₚ l → StronglySorted more_recent es →
  ∃ es0 m, es = es0 ++ [m] ∧ delete (min_element l) l ≡ₚ es0.
Proof.
  intros Hne Hperm Hs. destruct (min_element_spec l Hne) as (m & Hm & Hmin).
  destruct (exists_last (l := es)) as (es0 & m' & ->).
  { intros ->. by apply Permutation_nil in Hperm. }
  assert (m' = m) as ->.
  { assert (m ∈ es0 ++ [m']) as Hin by (rewrite Hperm; by eapply list_elem_of_lookup_2).
    apply elem_of_app in Hin as [Hin|Hin]; [|by apply list_elem_of_singleton in Hin].
    eapply StronglySorted_app_1_elem_of in Hs; [|exact Hin|by left]. unfold more_recent in Hs.
    assert (m' ∈ l) as Hin' by (rewrite <- Hperm; set_solver). specialize (Hmin m' Hin'). lia. }
  exists es0, m. split; [done|]. apply (Permutation_cons_inv (a := m)).
  rewrite <- (delete_Permutation l (min_element l) m Hm), <- Hperm. by rewrite Permutation_app_comm.
Qed.

Lemma find_value_None (v : V) c : (∀ k', (k', v) ∉ pairs c) → find_value v (lru_cache c) = None.
Proof.
  intros Hv. unfold find_value. apply fmap_None, list_find_None, Forall_forall. intros e He Heq.
  apply (Hv (ce_key e)). unfold pairs. apply list_elem_of_fmap. exists e. unfold entry_pair. by rewrite Heq.
Qed.

(** The iterator that put uses after the eviction is lost only in a full cache with an equal value. *)
Lemma put_iterator c v :
  (let '(erased, _) := evict_if_full c in
   match find_value v (lru_cache c), erased with
   | Some it, Some min => (min <=? it)%nat = true
   | _, _ => False
   end) → lru_max_size c ≤ lengthN (lru_cache c) ∧ ∃ k', (k', v) ∈ pairs c.
Proof.
  unfold evict_if_full. destruct (N.leb_spec (lru_max_size c) (lengthN (lru_cache c))) as [Hfull|]; [|by case_match].
  unfold find_value. destruct (list_find _ _) as [[it e]|] eqn:Hf; [|done]. intros _. split; [done|].
  apply list_find_Some in Hf as (He & Hv & _). exists (ce_key e). apply list_elem_of_fmap. exists e.
  split; [unfold entry_pair; by rewrite Hv|]. by eapply list_elem_of_lookup_2.
Qed.

(** Without any condition on the cache: put returns the value or loses its iterator. *)
Lemma lru_put_result k v c :
  (∃ c', lru_put k v c = Ok (v, c')) ∨
  (lru_put k v c = Throw UndefinedBehaviour ∧ lru_max_size c ≤ lengthN (lru_cache c) ∧ ∃ k', (k', v) ∈ pairs c).
Proof.
  pose proof (next_tick_pairs c) as Hn. pose proof (put_iterator (next_tick c) v) as Hit. unfold lru_put.
  destruct (next_tick_size c) as [Hmax Hlen].
  destruct (evict_if_full (next_tick c)) as [erased l].
  destruct (find_value v (lru_cache (next_tick c))) as [it|], erased as [min|]; try (left; by eexists).
  destruct (Nat.leb_spec min it) as [Hle|]; [|left; by eexists]. right. rewrite <- Hmax, <- Hlen.
  setoid_rewrite <- Hn. split; [done|]. by apply Hit.
Qed.

(** put adds the pair in front, also when its key is cached, and the least recently used pair leaves a
    full cache; it is undefined only in a full cache that holds an equal value. *)
Lemma lru_put_refines c k v l :
  lru_wf c → recency c l →
  (∃ c', lru_put k v c = Ok (v, c') ∧ lru_wf c' ∧ lru_max_size c' = lru_max_size c ∧
     recency c' (take (N.to_nat (lru_max_size c)) ((k, v) :: l))) ∨
  (lru_put k v c = Throw UndefinedBehaviour ∧ lengthN l = lru_max_size c ∧ v ∈ l.*2).
Proof.
  intros Hwf Hrec. destruct (next_tick_ticked c l Hwf Hrec) as [(es & Hperm & Hsorted & ->) Hmax Hticks Hpast Hdist].
  pose proof (pairs_length _ _ (next_tick_pairs c)) as Hlen.
  pose proof (lw_size _ Hwf) as Hsz. pose proof (lw_max _ Hwf) as Hm. pose proof (lw_small _ Hwf) as Hsm. clear Hwf Hrec.
  unfold lru_put. generalize dependent (next_tick c). intros c1 Hperm Hmax Hticks Hpast Hdist Hlen.
  (* the entries that stay *)
  assert (∃ es', (evict_if_full c1).2 ≡ₚ es' ∧ StronglySorted more_recent es' ∧ es' `sublist_of` es ∧
    lengthN es' < lru_max_size c ∧
    (k, v) :: (entry_pair <$> es') = take (N.to_nat (lru_max_size c)) ((k, v) :: (entry_pair <$> es)))
    as (es' & Hrest & Hs' & Hsub & Hroom & Htake).
  { pose proof (Permutation_length Hperm) as Hpl. unfold evict_if_full, lengthN in *. rewrite Hmax, Hlen.
    destruct (N.leb_spec (lru_max_size c) (N.of_nat (length (lru_cache c)))) as [Hfull|Hnot]; cbn [snd].
    - destruct (evict_last (lru_cache c1) es) as (es0 & m & -> & Hdel); [|done..|].
      { intros He. rewrite He in Hlen. simpl in Hlen. lia. }
      rewrite length_app in Hpl. simpl in Hpl.
      exists es0. split; [done|]. split; [by eapply StronglySorted_app_1_l|].
      split; [by apply sublist_inserts_r|]. split; [lia|].
      destruct (N.to_nat (lru_max_size c)) as [|n] eqn:Hn; [lia|]. simpl. f_equal.
      rewrite fmap_app, take_app_le by (rewrite length_fmap; lia). rewrite take_ge; [done|]. rewrite length_fmap. lia.
    - exists es. split; [by symmetry|]. split; [done|]. split; [done|]. split; [lia|].
      rewrite take_ge; [done|]. simpl. rewrite length_fmap. lia. }
  pose proof (put_iterator c1 v) as Hit. destruct (evict_if_full c1) as [erased rest]. cbn [snd] in Hrest.
  assert (Hin : ∀ x, x ∈ rest → x ∈ lru_cache c1).
  { intros x Hx. rewrite <- Hperm. rewrite Hrest in Hx. by eapply elem_of_sublist. }
  assert (Hrun : ∀ o : result (V * LruCache K V), (o = Ok (v, mkLruCache (lru_max_size c1) (lru_ticks c1) (rest ++ [mkCacheEntry k v (lru_ticks c1)])) ∨
                       (o = Throw UndefinedBehaviour ∧ lru_max_size c1 ≤ lengthN (lru_cache c1) ∧ ∃ k', (k', v) ∈ pairs c1)) →
    (∃ c', o = Ok (v, c') ∧ lru_wf c' ∧ lru_max_size c' = lru_max_size c ∧
       recency c' (take (N.to_nat (lru_max_size c)) ((k, v) :: (entry_pair <$> es)))) ∨
    (o = Throw UndefinedBehaviour ∧ lengthN (entry_pair <$> es) = lru_max_size c ∧ v ∈ (entry_pair <$> es).*2)); cycle 1.
  { apply Hrun. destruct (find_value v (lru_cache c1)) as [it|], erased as [m|]; try by left.
    destruct (m <=? it)%nat; [right|by left]. split; [done|]. by apply Hit. }
  intros o [->|(-> & Hfull & k' & Hk')]; [left|right].
  2:{ split; [done|]. pose proof (Permutation_length Hperm) as Hpl. unfold lengthN in *. rewrite length_fmap, Hpl.
      split; [rewrite Hmax in Hfull; lia|]. unfold pairs in Hk'. rewrite <- Hperm in Hk'. apply list_elem_of_fmap. by exists (k', v). }
  eexists. split; [done|]. cbn [lru_max_size]. split; [|split; [done|]].
  - constructor; cbn [lru_cache lru_ticks lru_max_size]; rewrite ?Hmax; try done.
    + unfold lengthN in *. rewrite length_app, Hrest. simpl. lia.
    + intros x [Hx|Hx]%elem_of_app; [specialize (Hpast x (Hin x Hx)); lia|].
      by apply list_elem_of_singleton in Hx as ->.
    + rewrite fmap_app, Permutation_app_comm. simpl. apply NoDup_cons. split.
      * intros (x & Hx & Hx')%list_elem_of_fmap. specialize (Hpast x (Hin x Hx')). lia.
      * rewrite Hrest. rewrite <- Hperm in Hdist. eapply sublist_NoDup; [exact Hdist|]. by apply fmap_sublist.
  - exists (mkCacheEntry k v (lru_ticks c1) :: es'). split; [|split].
    + cbn [lru_cache]. by rewrite Permutation_app_comm, Hrest.
    + eapply more_recent_past; [done| |done]. intros x Hx. apply Hpast, Hin. by rewrite Hrest.
    + by rewrite <- Htake.
Qed.

(** erase removes one pair with the key, erase_if those that the predicate selects. *)
Lemma sorted_filter (P : CacheEntry K V → Prop) `{∀ e, Decision (P e)} es :
  StronglySorted more_recent es → StronglySorted more_recent (filter P es).
Proof.
  induction 1 as [|e es Hs IH Hall]; [constructor|]. rewrite filter_cons. case_decide; [|done].
  constructor; [done|]. apply Forall_forall. intros x [_ Hx]%list_elem_of_filter. by apply (proj1 (Forall_forall _ _) Hall).
Qed.

Lemma wf_sublist c l' :
  lru_wf c → l' `sublist_of` lru_cache c → lru_wf (mkLruCache (lru_max_size c) (lru_ticks c) l').
Proof.
  intros [] Hsub. constructor; cbn [lru_cache lru_ticks lru_max_size]; try done.
  - apply sublist_length in Hsub. unfold lengthN in *. lia.
  - intros e He. by apply lw_past0, (elem_of_sublist _ _ _ He).
  - eapply sublist_NoDup; [exact lw_distinct0|]. by apply fmap_sublist.
Qed.

Lemma lru_erase_refines c k l :
  lru_wf c → recency c l →
  lru_wf (lru_erase k c) ∧
  (((k ∉ l.*1) ∧ recency (lru_erase k c) l) ∨
   ∃ v l1 l2, l = l1 ++ (k, v) :: l2 ∧ recency (lru_erase k c) (l1 ++ l2)).
Proof.
  intros Hwf (es & Hperm & Hs & ->). unfold lru_erase.
  destruct (list_find (λ e, ce_key e = k) (lru_cache c)) as [[i e]|] eqn:Hf.
  - apply list_find_Some in Hf as (He & Hk & _). split; [by apply wf_sublist; [|apply sublist_delete]|]. right.
    assert (Hin : e ∈ es) by (rewrite Hperm; by eapply list_elem_of_lookup_2).
    apply list_elem_of_split in Hin as (es1 & es2 & ->). exists (ce_value e), (entry_pair <$> es1), (entry_pair <$> es2).
    split; [rewrite fmap_app, fmap_cons; unfold entry_pair at 2; by rewrite Hk|].
    exists (es1 ++ es2). split; [|split; [by eapply sorted_remove|by rewrite fmap_app]].
    cbn [lru_cache]. apply (Permutation_cons_inv (a := e)). rewrite Permutation_middle, Hperm. by apply delete_Permutation.
  - apply list_find_None in Hf. split; [by destruct c|]. left. split; [|by exists es].
    rewrite <- keys_of_pairs, Hperm. intros (e & -> & He)%list_elem_of_fmap. rewrite Forall_forall in Hf. by apply (Hf e).
Qed.

Lemma lru_erase_if_refines c predicate l :
  lru_wf c → recency c l →
  lru_wf (lru_erase_if predicate c) ∧ recency (lru_erase_if predicate c) (filter (λ p, predicate p.1 p.2 = false) l).
Proof.
  intros Hwf (es & Hperm & Hs & ->). split; [apply wf_sublist; [done|apply sublist_filter]|].
  exists (filter (λ e, predicate (ce_key e) (ce_value e) = false) es). split; [|split].
  - cbn [lru_erase_if lru_cache]. by rewrite Hperm.
  - by apply sorted_filter.
  - clear. induction es as [|e es IH]; [done|]. rewrite fmap_cons, !filter_cons. cbn [entry_pair fst snd].
    case_decide; by rewrite ?fmap_cons, IH.
Qed.
End lru_proofs.
