(* ===== verification/ForkChoice.v ===== *)
(** * ForkChoiceStore (src/src/blockchain/fork_choice.{hpp,cpp})

    The store runs LMD GHOST over the block tree.  All its methods run under the
    mutex of ForkChoiceStoreMutex, so each is one step on [ForkChoiceStore]; changes
    made before an error stay.  Logging and metrics are left out.  Signatures are the
    XMSS library behind XmssProvider: a parameter.  The walks over stored headers are
    bounded by [loop_fuel]. *)

From S2P Require Import Prelude Errors Types Justifiable Stf CachedTree BlockStorage BlockTree LruCache.

(** XmssProvider; epochs are uint32_t, private keys are pointers.  A call can throw. *)
Class XmssProvider := {
  xmss_sign : N → N → N → result Signature;
  xmss_verify : XmssPublicKey → N → N → Signature → result bool;
  xmss_aggregateSignatures : list (list XmssPublicKey) → list LeanAggregatedSignature →
    list XmssPublicKey → list Signature → N → N → result LeanAggregatedSignature;
  xmss_verifyAggregatedSignatures : list XmssPublicKey → N → N → LeanAggregatedSignature → result bool;
}.
Definition u32 (x : N) : N := x mod 2 ^ 32.

(** ValidatorRegistry::currentValidatorIndices in its iteration order and
    ValidatorKeysManifest::getKeypair (the private key). *)
Class NodeKeys := {
  currentValidatorIndices : list ValidatorIndex;
  getKeypair : XmssPublicKey → option N;
}.

Class LoopFuel := loop_fuel : nat.

Record AttestationsByData := mkAttestationsByData {
  abd_data : AttestationData;
  abd_signatures : gmap ValidatorIndex Signature;
  abd_proofs : list AggregatedSignatureProof;
}.

Abbreviation AttestationDataByValidator := (gmap ValidatorIndex AttestationData).

Record ForkChoiceStore (S : Type) := mkForkChoiceStore {
  fc_block_tree : BlockTreeData S;
  fc_time : Interval.Interval;
  fc_config : Config;
  fc_head : Checkpoint;
  fc_safe_target : Checkpoint;
  fc_states : LruCache BlockHash State;
  fc_latest_known_attestations : AttestationDataByValidator;
  fc_latest_new_attestations : AttestationDataByValidator;
  fc_attestations_by_data : gmap N AttestationsByData;
  fc_validator_id : ValidatorIndex;
  fc_is_aggregator : bool;
  fc_subnet_count : N;
  fc_dont_propose : bool;
  fc_anchor_block_slots : gmap BlockHash Slot;
}.
Arguments mkForkChoiceStore {S} _ _ _ _ _ _ _ _ _ _ _ _ _ _.
Arguments fc_block_tree {S} _.
Arguments fc_time {S} _.
Arguments fc_config {S} _.
Arguments fc_head {S} _.
Arguments fc_safe_target {S} _.
Arguments fc_states {S} _.
Arguments fc_latest_known_attestations {S} _.
Arguments fc_latest_new_attestations {S} _.
Arguments fc_attestations_by_data {S} _.
Arguments fc_validator_id {S} _.
Arguments fc_is_aggregator {S} _.
Arguments fc_subnet_count {S} _.
Arguments fc_dont_propose {S} _.
Arguments fc_anchor_block_slots {S} _.

Section setters.
Context {S : Type}.
Implicit Types s : ForkChoiceStore S.

Definition set_block_tree (x : BlockTreeData S) s : ForkChoiceStore S :=
  mkForkChoiceStore x (fc_time s) (fc_config s) (fc_head s) (fc_safe_target s) (fc_states s)
    (fc_latest_known_attestations s) (fc_latest_new_attestations s) (fc_attestations_by_data s)
    (fc_validator_id s) (fc_is_aggregator s) (fc_subnet_count s) (fc_dont_propose s)
    (fc_anchor_block_slots s).
Definition set_time (x : Interval.Interval) s : ForkChoiceStore S :=
  mkForkChoiceStore (fc_block_tree s) x (fc_config s) (fc_head s) (fc_safe_target s) (fc_states s)
    (fc_latest_known_attestations s) (fc_latest_new_attestations s) (fc_attestations_by_data s)
    (fc_validator_id s) (fc_is_aggregator s) (fc_subnet_count s) (fc_dont_propose s)
    (fc_anchor_block_slots s).
Definition set_head (x : Checkpoint) s : ForkChoiceStore S :=
  mkForkChoiceStore (fc_block_tree s) (fc_time s) (fc_config s) x (fc_safe_target s) (fc_states s)
    (fc_latest_known_attestations s) (fc_latest_new_attestations s) (fc_attestations_by_data s)
    (fc_validator_id s) (fc_is_aggregator s) (fc_subnet_count s) (fc_dont_propose s)
    (fc_anchor_block_slots s).
Definition set_safe_target (x : Checkpoint) s : ForkChoiceStore S :=
  mkForkChoiceStore (fc_block_tree s) (fc_time s) (fc_config s) (fc_head s) x (fc_states s)
    (fc_latest_known_attestations s) (fc_latest_new_attestations s) (fc_attestations_by_data s)
    (fc_validator_id s) (fc_is_aggregator s) (fc_subnet_count s) (fc_dont_propose s)
    (fc_anchor_block_slots s).
Definition set_states (x : LruCache BlockHash State) s : ForkChoiceStore S :=
  mkForkChoiceStore (fc_block_tree s) (fc_time s) (fc_config s) (fc_head s) (fc_safe_target s) x
    (fc_latest_known_attestations s) (fc_latest_new_attestations s) (fc_attestations_by_data s)
    (fc_validator_id s) (fc_is_aggregator s) (fc_subnet_count s) (fc_dont_propose s)
    (fc_anchor_block_slots s).
Definition set_attestations (known new : AttestationDataByValidator) s : ForkChoiceStore S :=
  mkForkChoiceStore (fc_block_tree s) (fc_time s) (fc_config s) (fc_head s) (fc_safe_target s)
    (fc_states s) known new (fc_attestations_by_data s)
    (fc_validator_id s) (fc_is_aggregator s) (fc_subnet_count s) (fc_dont_propose s)
    (fc_anchor_block_slots s).
Definition set_by_data (x : gmap N AttestationsByData) s : ForkChoiceStore S :=
  mkForkChoiceStore (fc_block_tree s) (fc_time s) (fc_config s) (fc_head s) (fc_safe_target s)
    (fc_states s) (fc_latest_known_attestations s) (fc_latest_new_attestations s) x
    (fc_validator_id s) (fc_is_aggregator s) (fc_subnet_count s) (fc_dont_propose s)
    (fc_anchor_block_slots s).
Definition set_anchor_block_slots (x : gmap BlockHash Slot) s : ForkChoiceStore S :=
  mkForkChoiceStore (fc_block_tree s) (fc_time s) (fc_config s) (fc_head s) (fc_safe_target s)
    (fc_states s) (fc_latest_known_attestations s) (fc_latest_new_attestations s)
    (fc_attestations_by_data s)
    (fc_validator_id s) (fc_is_aggregator s) (fc_subnet_count s) (fc_dont_propose s) x.

(** ForkChoiceStore::dontPropose *)
Definition dontPropose s : ForkChoiceStore S :=
  mkForkChoiceStore (fc_block_tree s) (fc_time s) (fc_config s) (fc_head s) (fc_safe_target s)
    (fc_states s) (fc_latest_known_attestations s) (fc_latest_new_attestations s)
    (fc_attestations_by_data s)
    (fc_validator_id s) (fc_is_aggregator s) (fc_subnet_count s) true (fc_anchor_block_slots s).
End setters.

(** OnTickAction *)
Inductive OnTickAction :=
| ActAttestation (a : SignedAttestation)
| ActAggregated (a : SignedAggregatedAttestation)
| ActBlock (b : SignedBlock).

(** ForkChoiceNodeApiJson and ForkChoiceApiJson *)
Record ForkChoiceNodeApiJson := mkForkChoiceNodeApiJson {
  fn_root : BlockHash;
  fn_slot : Slot;
  fn_parent_root : BlockHash;
  fn_proposer_index : ValidatorIndex;
  fn_weight : N;
}.
Record ForkChoiceApiJson := mkForkChoiceApiJson {
  fj_nodes : list ForkChoiceNodeApiJson;
  fj_head : BlockHash;
  fj_justified : Checkpoint;
  fj_finalized : Checkpoint;
  fj_safe_target : BlockHash;
  fj_validator_count : N;
}.

(** std::map iteration: ascending keys *)
Definition signatures_in_order (m : gmap ValidatorIndex Signature) : list (ValidatorIndex * Signature) :=
  map_ordered m.

(** SourceThenTarget: the tuple of all fields, compared lexicographically. *)
Definition data_tuple (v : AttestationData) : list N :=
  [cp_slot (ad_source v); cp_root (ad_source v); cp_slot (ad_target v); cp_root (ad_target v);
   cp_slot (ad_head v); cp_root (ad_head v); ad_slot v].
Fixpoint lex_lt (x y : list N) : bool :=
  match x, y with
  | [], [] => false
  | [], _ => true
  | _, [] => false
  | a :: x, b :: y => if a <? b then true else if b <? a then false else lex_lt x y
  end.
(** std::set::emplace with SourceThenTarget *)
Fixpoint sorted_emplace (d : AttestationData) (l : list AttestationData) : list AttestationData :=
  match l with
  | [] => [d]
  | e :: l' =>
      if lex_lt (data_tuple d) (data_tuple e) then d :: l
      else if lex_lt (data_tuple e) (data_tuple d) then e :: sorted_emplace d l'
      else l
  end.

Section fork_choice.
Context {S : Type} `{BlockStorage S} `{BuildMode} `{SszHash} `{UnorderedMap}.
Context `{XmssProvider} `{NodeKeys} `{LoopFuel}.
Local Abbreviation M := (SM (ForkChoiceStore S) error).
Local Abbreviation fc_err e := (sm_err (E_ForkChoice e)).

Definition block_tree {A} (m : SM (BlockTreeData S) error A) : M A := λ s,
  let '(r, p) := m (fc_block_tree s) in (r, set_block_tree p s).
Definition block_storage {A} (m : SM S error A) : M A := block_tree (storage m).

(** attestationPayload *)
Definition attestationPayload (data : AttestationData) : N := sszHash_data data.

(** getCurrentSlot, getHead, hasBlock, getConfig, getLatestFinalized, getLatestJustified *)
Definition getCurrentSlot (s : ForkChoiceStore S) : Slot := Interval.slot (fc_time s).
Definition getHead (s : ForkChoiceStore S) : Checkpoint := fc_head s.
Definition getConfig (s : ForkChoiceStore S) : Config := fc_config s.
Definition hasBlock (h : BlockHash) : M bool := block_tree (has h).
Definition getLatestFinalized : M Checkpoint :=
  b ← block_tree lastFinalized; mret (BlockIndex_to_Checkpoint b).
Definition getLatestJustified : M Checkpoint := block_tree BlockTree.getLatestJustified.

(** getState, with LruCache::get_else *)
Definition getState (h : BlockHash) : M State :=
  s ← sm_get;
  let '(cached, c) := lru_get h (fc_states s) in
  sm_put (set_states c s) ≫= λ _,
  match cached with
  | Some state => mret state
  | None =>
      state_opt ← block_storage (bs_getState h);
      match state_opt with
      | None => fc_err STATE_NOT_FOUND
      | Some state =>
          s ← sm_get;
          r ← sm_lift (lru_put h state (fc_states s));
          sm_put (set_states r.2 s) ≫= λ _, mret r.1
      end
  end.

(** getBlockSlot *)
Definition getBlockSlot (h : BlockHash) : M Slot :=
  s ← sm_get;
  match fc_anchor_block_slots s !! h with
  | Some slot => mret slot
  | None => block_tree (getSlotByHash h)
  end.

(** ** LMD GHOST *)

(** One vote: every block from the voted head down to the start slot gains one. *)
Fixpoint add_weights (fuel : nat) (start_slot : Slot) (current : BlockHash)
    (weights : gmap BlockHash N) : M (gmap BlockHash N) :=
  match fuel with
  | O => sm_throw OutOfFuel
  | Datatypes.S fuel =>
      current_header_res ← sm_try (block_tree (tryGetBlockHeader current));
      match current_header_res with
      | inr _ | inl None => mret weights
      | inl (Some current_header) =>
          if bh_slot current_header <=? start_slot then mret weights
          else add_weights fuel start_slot (bh_parent_root current_header)
                 (<[current := u64_add (default 0 (weights !! current)) 1]> weights)
      end
  end.

Fixpoint collect_weights (start_slot : Slot) (votes : list AttestationData)
    (weights : gmap BlockHash N) : M (gmap BlockHash N) :=
  match votes with
  | [] => mret weights
  | v :: votes =>
      weights ← add_weights loop_fuel start_slot (cp_root (ad_head v)) weights;
      collect_weights start_slot votes weights
  end.

Definition get_weight (weights : gmap BlockHash N) (h : BlockHash) : N := default 0 (weights !! h).

(** The comparison of std::max_element. *)
Definition lighter (weights : gmap BlockHash N) (lhs rhs : BlockHash) : bool :=
  if get_weight weights lhs =? get_weight weights rhs then lhs <? rhs
  else get_weight weights lhs <? get_weight weights rhs.

(** std::max_element: the first greatest element. *)
Definition max_child (weights : gmap BlockHash N) (first : BlockHash) (rest : list BlockHash) : BlockHash :=
  foldl (λ best h, if lighter weights best h then h else best) first rest.

Fixpoint ghost_walk (fuel : nat) (min_score : N) (weights : gmap BlockHash N) (head : BlockHash)
    : M BlockHash :=
  match fuel with
  | O => sm_throw OutOfFuel
  | Datatypes.S fuel =>
      children_res ← sm_try (block_tree (getChildren head));
      match children_res with
      | inr _ => mret head
      | inl children =>
          let children :=
            if 0 <? min_score
            then filter (λ h, min_score ≤ get_weight weights h) children
            else children in
          match children with
          | [] => mret head
          | first :: rest => ghost_walk fuel min_score weights (max_child weights first rest)
          end
      end
  end.

Definition computeLmdGhostHead (start_root : BlockHash) (attestations : AttestationDataByValidator)
    (min_score : N) : M BlockHash :=
  known ← (if start_root =? kZeroHash then mret false else block_tree (has start_root));
  anchor ← (if (known : bool) then mret start_root
            else b ← block_tree lastFinalized; mret (bi_hash b));
  start_slot ← getBlockSlot anchor;
  weights ← collect_weights start_slot (snd <$> iteration attestations) ∅;
  ghost_walk loop_fuel min_score weights anchor.

(** ** Head and safe target *)

Definition updateSafeTarget : M () :=
  s ← sm_get;
  head_state ← getState (cp_root (fc_head s));
  min_target_score ← sm_lift (ceilDiv (u64_mul (validatorCount head_state) 2) 3);
  justified ← getLatestJustified;
  lmd_ghost_head ← computeLmdGhostHead (cp_root justified) (fc_latest_new_attestations s)
                     min_target_score;
  slot ← getBlockSlot lmd_ghost_head;
  sm_modify (set_safe_target (mkCheckpoint lmd_ghost_head slot)).

(** lift_one of updateHead *)
Definition lift_one (cp : Checkpoint) : M Checkpoint :=
  header ← block_tree (BlockTree.getBlockHeader (cp_root cp));
  parent_slot ← block_tree (getSlotByHash (bh_parent_root header));
  mret (mkCheckpoint (bh_parent_root header) parent_slot).

(** The reorg detection loop: the common ancestor of the old and the new head. *)
Fixpoint common_ancestor (fuel : nat) (a b : Checkpoint) : M Checkpoint :=
  match fuel with
  | O => sm_throw OutOfFuel
  | Datatypes.S fuel =>
      if cp_root a =? cp_root b then mret a
      else if cp_slot b <? cp_slot a then a' ← lift_one a; common_ancestor fuel a' b
      else if cp_slot a <? cp_slot b then b' ← lift_one b; common_ancestor fuel a b'
      else a' ← lift_one a; b' ← lift_one b; common_ancestor fuel a' b'
  end.

Definition updateHead : M () :=
  s ← sm_get;
  justified ← getLatestJustified;
  root ← computeLmdGhostHead (cp_root justified) (fc_latest_known_attestations s) 0;
  slot ← getBlockSlot root;
  let lmd_ghost_head := mkCheckpoint root slot in
  (if negb (cp_root (fc_head s) =? root)
   then common_ancestor loop_fuel (fc_head s) lmd_ghost_head ≫= λ _, mret ()   (* metrics only *)
   else mret ()) ≫= λ _,
  sm_modify (set_head lmd_ghost_head).

Definition acceptNewAttestations : M () :=
  sm_modify (λ s, set_attestations
    (foldl (λ known '(validator, attestation), <[validator := attestation]> known)
       (fc_latest_known_attestations s) (iteration (fc_latest_new_attestations s))) ∅ s) ≫= λ _,
  updateHead.

(** ** Attestation target *)

(** get_slot_and_parent; a missing header is fatal. *)
Definition get_slot_and_parent (head : Checkpoint) (head_parent_hash : option BlockHash)
    (h : BlockHash) : M (Slot * BlockHash) :=
  match head_parent_hash with
  | Some parent =>
      if h =? cp_root head then mret (cp_slot head, parent)
      else
        header_res ← sm_try (block_tree (BlockTree.getBlockHeader h));
        match header_res with
        | inr _ => sm_throw Fatal
        | inl header => mret (bh_slot header, bh_parent_root header)
        end
  | None =>
      header_res ← sm_try (block_tree (BlockTree.getBlockHeader h));
      match header_res with
      | inr _ => sm_throw Fatal
      | inl header => mret (bh_slot header, bh_parent_root header)
      end
  end.

(** The first loop: at most JUSTIFICATION_LOOKBACK_SLOTS steps back. *)
Fixpoint walk_to_safe (steps : nat) (get : BlockHash → M (Slot * BlockHash)) (lookback_limit : Slot)
    (target : BlockHash) : M BlockHash :=
  match steps with
  | O => mret target
  | Datatypes.S steps =>
      r ← get target;
      if lookback_limit <? r.1 then walk_to_safe steps get lookback_limit r.2 else mret target
  end.

(** The second loop: back to a justifiable slot. *)
Fixpoint walk_to_justifiable (fuel : nat) (get : BlockHash → M (Slot * BlockHash))
    (latest_finalized_slot : Slot) (target : BlockHash) : M BlockHash :=
  match fuel with
  | O => sm_throw OutOfFuel
  | Datatypes.S fuel =>
      r ← get target;
      justifiable ← sm_lift (isJustifiableSlot latest_finalized_slot r.1);
      if (justifiable : bool) then mret target
      else walk_to_justifiable fuel get latest_finalized_slot r.2
  end.

Definition getAttestationTarget (justified head : Checkpoint) (head_parent_hash : option BlockHash)
    : M Checkpoint :=
  s ← sm_get;
  let get := get_slot_and_parent head head_parent_hash in
  let lookback_limit := N.max (cp_slot (fc_safe_target s)) (cp_slot justified) in
  target ← walk_to_safe (N.to_nat JUSTIFICATION_LOOKBACK_SLOTS) get lookback_limit (cp_root head);
  finalized ← block_tree lastFinalized;
  target ← walk_to_justifiable loop_fuel get (bi_slot finalized) target;
  r ← get target;
  mret (mkCheckpoint target r.1).

Definition produceAttestation (slot : Slot) (validator_index : ValidatorIndex)
    (justified head : Checkpoint) (head_parent_hash : option BlockHash) : M Attestation :=
  target_checkpoint ← getAttestationTarget justified head head_parent_hash;
  mret (mkAttestation validator_index (mkAttestationData slot head target_checkpoint justified)).

(** ** Attestations *)

(** has_block of validateAttestation *)
Definition has_block (h : BlockHash) : M bool :=
  s ← sm_get;
  if bool_decide (is_Some (fc_anchor_block_slots s !! h)) then mret true else block_tree (has h).

(** [not res.has_value() or res.value() != slot] *)
Definition slot_differs (cp : Checkpoint) : M bool :=
  res ← sm_try (getBlockSlot (cp_root cp));
  mret (match res with inl slot => negb (slot =? cp_slot cp) | inr _ => true end).

Definition validateAttestation (attestation : Attestation) : M () :=
  let data := at_data attestation in
  source_known ← has_block (cp_root (ad_source data));
  if negb source_known then fc_err CANT_VALIDATE_ATTESTATION_SOURCE_NOT_FOUND
  else
    target_known ← has_block (cp_root (ad_target data));
    if negb target_known then fc_err CANT_VALIDATE_ATTESTATION_TARGET_NOT_FOUND
    else
      head_known ← has_block (cp_root (ad_head data));
      if negb head_known then fc_err CANT_VALIDATE_ATTESTATION_HEAD_NOT_FOUND
      else if cp_slot (ad_target data) <? cp_slot (ad_source data) then fc_err INVALID_ATTESTATION
      else if cp_slot (ad_head data) <? cp_slot (ad_target data) then fc_err INVALID_ATTESTATION
      else
        source_differs ← slot_differs (ad_source data);
        if (source_differs : bool) then fc_err INVALID_ATTESTATION
        else
          target_differs ← slot_differs (ad_target data);
          if (target_differs : bool) then fc_err INVALID_ATTESTATION
          else
            s ← sm_get;
            if u64_add (getCurrentSlot s) 1 <? ad_slot data then fc_err INVALID_ATTESTATION
            else mret ().

(** attestationsByData: the entry for the data, created when missing. *)
Definition attestationsByData (data : AttestationData) (m : gmap N AttestationsByData)
    : AttestationsByData :=
  default (mkAttestationsByData data ∅ []) (m !! sszHash_data data).

Definition addSignatureToAggregate (data : AttestationData) (validator_index : ValidatorIndex)
    (signature : Signature) : M () :=
  finalized ← getLatestFinalized;
  if cp_slot (ad_target data) <? cp_slot finalized then mret ()
  else
    sm_modify (λ s,
      let attestations := attestationsByData data (fc_attestations_by_data s) in
      let attestations :=
        if existsb (λ proof, Bits.contains (asp_participants proof) validator_index)
             (abd_proofs attestations)
        then attestations
        else mkAttestationsByData (abd_data attestations)
               (<[validator_index := signature]> (abd_signatures attestations))
               (abd_proofs attestations) in
      set_by_data (<[sszHash_data data := attestations]> (fc_attestations_by_data s)) s).

(** The body of addProofToAggregate on the entry of the data. *)
Definition add_proof (new_proof : AggregatedSignatureProof) (attestations : AttestationsByData)
    : AttestationsByData :=
  let participants := Bits.iter (asp_participants new_proof) in
  let proofs := filter (λ proof,
    existsb (λ i, negb (Bits.contains (asp_participants new_proof) i))
      (Bits.iter (asp_participants proof))
    || forallb (λ i, Bits.contains (asp_participants proof) i) participants = true)
    (abd_proofs attestations) in
  let existing_bits := foldl Bits.add (mkAggregationBits [])
                         (proofs ≫= λ proof, Bits.iter (asp_participants proof)) in
  if forallb (Bits.contains existing_bits) participants
  then mkAttestationsByData (abd_data attestations) (abd_signatures attestations) proofs
  else mkAttestationsByData (abd_data attestations)
         (foldl (λ m i, delete i m) (abd_signatures attestations) participants)
         (proofs ++ [new_proof]).

Definition addProofToAggregate (saa : SignedAggregatedAttestation) : M () :=
  let data := saa_data saa in
  finalized ← getLatestFinalized;
  if cp_slot (ad_target data) <? cp_slot finalized then mret ()
  else
    sm_modify (λ s,
      let attestations := attestationsByData data (fc_attestations_by_data s) in
      set_by_data (<[sszHash_data data := add_proof (saa_proof saa) attestations]>
                     (fc_attestations_by_data s)) s).

Definition onAttestation (attestation : Attestation) (is_from_block : bool) : M () :=
  validateAttestation attestation ≫= λ _,
  let validator_id := at_validator_id attestation in
  let data := at_data attestation in
  let later (o : option AttestationData) :=
    match o with None => true | Some d => ad_slot d <? ad_slot data end in
  s ← sm_get;
  let known := fc_latest_known_attestations s in
  let new := fc_latest_new_attestations s in
  if is_from_block then
    sm_put (set_attestations
      (if later (known !! validator_id) then <[validator_id := data]> known else known)
      (match new !! validator_id with
       | Some d => if ad_slot d <=? ad_slot data then delete validator_id new else new
       | None => new
       end) s)
  else if getCurrentSlot s <? ad_slot data then fc_err INVALID_ATTESTATION
  else
    sm_put (set_attestations known
      (if later (new !! validator_id) then <[validator_id := data]> new else new) s).

Definition onAggregatedAttestation (saa : SignedAggregatedAttestation) (is_from_block : bool) : M () :=
  sm_iter (λ validator_id,
    addProofToAggregate saa ≫= λ _,
    onAttestation (mkAttestation validator_id (saa_data saa)) is_from_block)
    (Bits.iter (asp_participants (saa_proof saa))).

(** validateAggregatedSignature: the public keys of the participants, in order. *)
Fixpoint participant_keys (validators : list Validator) (ids : list ValidatorIndex)
    : option (list XmssPublicKey) :=
  match ids with
  | [] => Some []
  | i :: ids =>
      v ← validators !! N.to_nat i;
      keys ← participant_keys validators ids;
      Some (v_attestation_pubkey v :: keys)
  end.
Definition validateAggregatedSignature (state : State) (attestation : AttestationData)
    (signature : AggregatedSignatureProof) : result bool :=
  match participant_keys (st_validators state) (Bits.iter (asp_participants signature)) with
  | None => Ok false
  | Some public_keys =>
      xmss_verifyAggregatedSignatures public_keys (u32 (ad_slot attestation))
        (attestationPayload attestation) (asp_proof_data signature)
  end.

Definition onGossipAttestation (sa : SignedAttestation) : M () :=
  validateAttestation (mkAttestation (sa_validator_id sa) (sa_data sa)) ≫= λ _,
  state ← getState (cp_root (ad_target (sa_data sa)));
  match st_validators state !! N.to_nat (sa_validator_id sa) with
  | None => fc_err INVALID_ATTESTATION
  | Some v =>
      signature_valid ← sm_lift (xmss_verify (v_attestation_pubkey v)
        (attestationPayload (sa_data sa)) (u32 (ad_slot (sa_data sa))) (sa_signature sa));
      if negb signature_valid then fc_err INVALID_ATTESTATION
      else
        s ← sm_get;
        if negb (fc_is_aggregator s) then mret ()
        else
          their_subnet ← sm_lift (validatorSubnet (sa_validator_id sa) (fc_subnet_count s));
          our_subnet ← sm_lift (validatorSubnet (fc_validator_id s) (fc_subnet_count s));
          if their_subnet =? our_subnet
          then addSignatureToAggregate (sa_data sa) (sa_validator_id sa) (sa_signature sa)
          else mret ()
  end.

Definition onGossipAggregatedAttestation (saa : SignedAggregatedAttestation) : M () :=
  state ← getState (cp_root (ad_target (saa_data saa)));
  valid ← sm_lift (validateAggregatedSignature state (saa_data saa) (saa_proof saa));
  if negb valid then mret ()
  else onAggregatedAttestation saa false.

(** prune *)
Definition prune (finalized_slot : Slot) : M () :=
  sm_modify (λ s, set_by_data
    (filter (λ '(_, a), finalized_slot < cp_slot (ad_target (abd_data a)))
       (fc_attestations_by_data s)) s).

(** ** Blocks *)

Definition validateBlockSignatures (signed_block : SignedBlock) : M bool :=
  let block := sb_block signed_block in
  let aggregated_attestations := bb_attestations (b_body block) in
  let attestation_signatures := bsig_attestation_signatures (sb_signature signed_block) in
  if negb (lengthN attestation_signatures =? lengthN aggregated_attestations) then mret false
  else
    parent_state_res ← sm_try (getState (b_parent_root block));
    match parent_state_res with
    | inr _ => mret false
    | inl parent_state =>
        valid ← sm_lift (oc_all (λ '(a, sg), validateAggregatedSignature parent_state (aa_data a) sg)
                           (zip aggregated_attestations attestation_signatures));
        if negb valid then mret false
        else
          (* validators.data().at(proposer_index) *)
          proposer ← sm_lift (of_option OutOfRange
                        (st_validators parent_state !! N.to_nat (b_proposer_index block)));
          sm_lift (xmss_verify (v_proposal_pubkey proposer) (sszHash_block block) (u32 (b_slot block))
                  (bsig_proposer_signature (sb_signature signed_block)))
    end.

(** The part of onBlock that follows the post-state into the block tree. *)
Definition followCheckpoints (post_state : State) : M () :=
  justified ← getLatestJustified;
  (if cp_slot justified <? cp_slot (st_latest_justified post_state)
   then block_tree (BlockTree.setJustified (cp_root (st_latest_justified post_state)))
   else mret ()) ≫= λ _,
  finalized ← block_tree lastFinalized;
  if bi_slot finalized <? cp_slot (st_latest_finalized post_state)
  then block_tree (BlockTree.finalize (cp_root (st_latest_finalized post_state))) ≫= λ _,
       prune (cp_slot (st_latest_finalized post_state))
  else mret ().

(** states_.put *)
Definition cacheState (h : BlockHash) (state : State) : M () :=
  s ← sm_get;
  r ← sm_lift (lru_put h state (fc_states s));
  sm_put (set_states r.2 s).

Definition onBlock (signed_block : SignedBlock) : M () :=
  let block := sb_block signed_block in
  let h := block_hash block in
  known ← block_tree (has h);
  if (known : bool) then mret ()
  else
    parent_state ← getState (b_parent_root block);
    valid_signatures ← validateBlockSignatures signed_block;
    if negb valid_signatures then fc_err INVALID_ATTESTATION
    else
      post_state ← sm_lift (stateTransition block parent_state true);
      block_tree (addBlock signed_block) ≫= λ _,
      sm_try (block_storage (bs_putState h post_state)) ≫= λ _,
      followCheckpoints post_state ≫= λ _,
      cacheState h post_state ≫= λ _,
      let aggregated_attestations := bb_attestations (b_body block) in
      let attestation_signatures := bsig_attestation_signatures (sb_signature signed_block) in
      if negb (lengthN attestation_signatures =? lengthN aggregated_attestations)
      then fc_err SIGNATURE_COUNT_MISMATCH
      else if MAX_ATTESTATIONS_DATA <? lengthN aggregated_attestations
      then fc_err TOO_MANY_ATTESTATIONS
      else
        sm_iter (λ '(a, sg), onAggregatedAttestation (mkSignedAggregatedAttestation (aa_data a) sg) true)
          (zip aggregated_attestations attestation_signatures) ≫= λ _,
        updateHead.

(** ** Producing blocks *)

(** The known votes whose head is in the tree, as std::set orders them. *)
Fixpoint sortedData (votes : list AttestationData) (acc : list AttestationData)
    : M (list AttestationData) :=
  match votes with
  | [] => mret acc
  | data :: votes =>
      known ← block_tree (has (cp_root (ad_head data)));
      sortedData votes (if (known : bool) then sorted_emplace data acc else acc)
  end.

(** The loop of getProposalAttestations over the sorted data; [break] ends it. *)
Fixpoint pick_attestations (slot : Slot) (proposer_index : ValidatorIndex) (parent_root : BlockHash)
    (head_state : State) (by_data : gmap N AttestationsByData) (sorted_data : list AttestationData)
    (expected_source : Checkpoint) (attestations : list AggregatedAttestation)
    (proofs : list AggregatedSignatureProof)
    : result (list AggregatedAttestation * list AggregatedSignatureProof) :=
  match sorted_data with
  | [] => Ok (attestations, proofs)
  | data :: sorted_data =>
      if negb (bool_decide (ad_source data = expected_source))
      then pick_attestations slot proposer_index parent_root head_state by_data sorted_data
             expected_source attestations proofs
      else
        match by_data !! sszHash_data data with
        | None => Ok (attestations, proofs)
        | Some entry =>
            match abd_proofs entry with
            | [] => Ok (attestations, proofs)
            | _ =>
                let attestations := attestations ++
                  ((λ proof, mkAggregatedAttestation (asp_participants proof) data) <$> abd_proofs entry) in
                let proofs := proofs ++ abd_proofs entry in
                post_state ← processSlots head_state slot;
                post_state ← processBlock post_state
                  (mkBlock slot proposer_index parent_root kZeroHash (mkBlockBody attestations));
                pick_attestations slot proposer_index parent_root head_state by_data sorted_data
                  (st_latest_justified post_state) attestations proofs
            end
        end
  end.

Definition getProposalAttestations (slot : Slot) (proposer_index : ValidatorIndex)
    (parent_root : BlockHash) : M (list AggregatedAttestation * list AggregatedSignatureProof) :=
  head_state ← getState parent_root;
  s ← sm_get;
  sorted_data ← sortedData (snd <$> iteration (fc_latest_known_attestations s)) [];
  sm_lift (pick_attestations slot proposer_index parent_root head_state (fc_attestations_by_data s)
             sorted_data (st_latest_justified head_state) [] []).

Definition produceBlockWithSignatures (slot : Slot) (proposer_index : ValidatorIndex) : M SignedBlock :=
  s ← sm_get;
  let head_root := cp_root (fc_head s) in
  head_state ← getState head_root;
  is_proposer ← sm_lift (isProposer proposer_index slot (validatorCount head_state));
  if negb is_proposer then fc_err FC_INVALID_PROPOSER
  else
    proposer ← sm_lift (of_option OutOfRange (st_validators head_state !! N.to_nat proposer_index));
    match getKeypair (v_proposal_pubkey proposer) with
    | None => fc_err NO_KEYPAIR
    | Some private_key =>
        aggregated ← getProposalAttestations slot proposer_index head_root;
        let block root := mkBlock slot proposer_index head_root root (mkBlockBody aggregated.1) in
        state ← sm_lift (stateTransition (block kZeroHash) head_state false);
        let block := block (sszHash_state state) in
        proposer_signature ← sm_lift (xmss_sign private_key (u32 slot) (sszHash_block block));
        let signed_block := mkSignedBlock block (mkBlockSignatures aggregated.2 proposer_signature) in
        onBlock signed_block ≫= λ _,
        mret signed_block
    end.

(** ** Aggregation *)

(** state.validators.data().at(validator_id).attestation_pubkey for each id *)
Definition keys_at (state : State) (ids : list ValidatorIndex) : result (list XmssPublicKey) :=
  of_option OutOfRange (participant_keys (st_validators state) ids).

Fixpoint child_keys (state : State) (proofs : list AggregatedSignatureProof)
    : result (list (list XmssPublicKey)) :=
  match proofs with
  | [] => Ok []
  | proof :: proofs =>
      keys ← keys_at state (Bits.iter (asp_participants proof));
      rest ← child_keys state proofs;
      Ok (keys :: rest)
  end.

(** The aggregate of one entry. *)
Definition aggregate_entry (state : State) (entry : AttestationsByData)
    : result SignedAggregatedAttestation :=
  let signatures := signatures_in_order (abd_signatures entry) in
  public_keys ← keys_at state signatures.*1;
  child_public_keys ← child_keys state (abd_proofs entry);
  let participants := foldl Bits.add (mkAggregationBits [])
    (signatures.*1 ++ (abd_proofs entry ≫= λ proof, Bits.iter (asp_participants proof))) in
  aggregated_signature ← xmss_aggregateSignatures child_public_keys
    (asp_proof_data <$> abd_proofs entry) public_keys signatures.*2
    (u32 (ad_slot (abd_data entry))) (attestationPayload (abd_data entry));
  Ok (mkSignedAggregatedAttestation (abd_data entry)
        (mkAggregatedSignatureProof participants aggregated_signature)).

Fixpoint aggregate_loop (entries : list (N * AttestationsByData))
    (aggregated : list SignedAggregatedAttestation) : M (list SignedAggregatedAttestation) :=
  match entries with
  | [] => mret aggregated
  | (key, entry) :: entries =>
      if bool_decide (abd_signatures entry = ∅) && (lengthN (abd_proofs entry) <=? 1)
      then aggregate_loop entries aggregated
      else
        state_res ← sm_try (getState (cp_root (ad_target (abd_data entry))));
        match state_res with
        | inr _ => aggregate_loop entries aggregated
        | inl state =>
            a ← sm_lift (aggregate_entry state entry);
            sm_modify (λ s, set_by_data
              (<[key := mkAttestationsByData (abd_data entry) ∅ [saa_proof a]]>
                 (fc_attestations_by_data s)) s) ≫= λ _,
            aggregate_loop entries (aggregated ++ [a])
        end
  end.

Definition aggregateSignatures : M (list SignedAggregatedAttestation) :=
  s ← sm_get;
  aggregate_loop (iteration (fc_attestations_by_data s)) [].

(** ** Ticks *)

(** A result whose error is only logged. *)
Definition log_error {A} (m : M A) : M () := sm_try m ≫= λ _, mret ().

(** getState of the head; an error is fatal. *)
Definition head_state_or_fatal : M State :=
  s ← sm_get;
  res ← sm_try (getState (cp_root (fc_head s)));
  match res with inl state => mret state | inr _ => sm_throw Fatal end.

(** Phase 0: propose a block.  Returns the actions and the state of the head. *)
Definition tick_propose (current_slot : Slot) (validator_count : N) (head_state : State)
    (actions : list OnTickAction) : M (list OnTickAction * State) :=
  if current_slot =? 0 then mret (actions, head_state)
  else if validator_count =? 0 then sm_throw DivisionByZero
  else
    let producer_index := current_slot mod validator_count in
    s ← sm_get;
    if bool_decide (producer_index ∈ currentValidatorIndices) && negb (fc_dont_propose s) then
      log_error acceptNewAttestations ≫= λ _,
      res ← sm_try (produceBlockWithSignatures current_slot producer_index);
      match res with
      | inr _ => mret (actions, head_state)
      | inl produced_block =>
          head_state ← head_state_or_fatal;
          mret (actions ++ [ActBlock produced_block], head_state)
      end
    else mret (actions, head_state).

(** The loop of phase 1 over the validators of the node. *)
Fixpoint attest_loop (current_slot : Slot) (head_state : State) (indices : list ValidatorIndex)
    (attestation : option Attestation) (actions : list OnTickAction) : M (list OnTickAction) :=
  match indices with
  | [] => mret actions
  | validator_index :: indices =>
      s ← sm_get;
      if fc_dont_propose s then attest_loop current_slot head_state indices attestation actions
      else
        validator ← sm_lift (of_option OutOfRange (st_validators head_state !! N.to_nat validator_index));
        match getKeypair (v_attestation_pubkey validator) with
        | None => attest_loop current_slot head_state indices attestation actions
        | Some private_key =>
            a ← (match attestation with
                 | Some a => mret a
                 | None =>
                     justified ← getLatestJustified;
                     produceAttestation current_slot validator_index justified (fc_head s) None
                 end);
            signature ← sm_lift (xmss_sign private_key (u32 current_slot) (attestationPayload (at_data a)));
            let signed_attestation := SignedAttestation_from a signature in
            res ← sm_try (onGossipAttestation signed_attestation);
            attest_loop current_slot head_state indices (Some a)
              (match res with
               | inl _ => actions ++ [ActAttestation signed_attestation]
               | inr _ => actions
               end)
        end
  end.

(** Phase 1: attest. *)
Definition tick_attest (current_slot : Slot) (head_state : State) (actions : list OnTickAction)
    : M (list OnTickAction) :=
  log_error acceptNewAttestations ≫= λ _,
  s ← sm_get;
  justified ← getLatestJustified;
  target ← getAttestationTarget justified (fc_head s) None;
  source ← getLatestJustified;
  if cp_slot target <? cp_slot source then mret actions
  else attest_loop current_slot head_state currentValidatorIndices None actions.

(** Phase 2: aggregate. *)
Fixpoint import_aggregates (l : list SignedAggregatedAttestation) (actions : list OnTickAction)
    : M (list OnTickAction) :=
  match l with
  | [] => mret actions
  | a :: l =>
      res ← sm_try (onGossipAggregatedAttestation a);
      import_aggregates l (match res with
                           | inl _ => actions ++ [ActAggregated a]
                           | inr _ => actions
                           end)
  end.
Definition tick_aggregate (actions : list OnTickAction) : M (list OnTickAction) :=
  s ← sm_get;
  if fc_is_aggregator s then
    aggregated ← aggregateSignatures;
    import_aggregates aggregated actions
  else mret actions.

(** One turn of the loop of onTick. *)
Definition tick (validator_count : N) (head_state : State) (actions : list OnTickAction)
    : M (list OnTickAction * State) :=
  sm_modify (λ s, set_time (Interval.mkInterval (u64_add (Interval.interval (fc_time s)) 1)) s) ≫= λ _,
  s ← sm_get;
  let current_slot := Interval.slot (fc_time s) in
  let phase := Interval.phase (fc_time s) in
  if phase =? 0 then tick_propose current_slot validator_count head_state actions
  else if phase =? 1 then a ← tick_attest current_slot head_state actions; mret (a, head_state)
  else if phase =? 2 then a ← tick_aggregate actions; mret (a, head_state)
  else if phase =? 3 then log_error updateSafeTarget ≫= λ _, mret (actions, head_state)
  else if phase =? 4 then log_error acceptNewAttestations ≫= λ _, mret (actions, head_state)
  else mret (actions, head_state).

Fixpoint ticks (n : nat) (validator_count : N) (head_state : State) (actions : list OnTickAction)
    : M (list OnTickAction) :=
  match n with
  | O => mret actions
  | Datatypes.S n =>
      r ← tick validator_count head_state actions;
      ticks n validator_count r.2 r.1
  end.

(** onTick: the loop runs while [time_.interval < now_interval]. *)
Definition onTick (now : N) : M (list OnTickAction) :=
  s ← sm_get;
  match Interval.fromTime now (fc_config s) with
  | None => mret []
  | Some now_interval =>
      head_state ← head_state_or_fatal;
      ticks (N.to_nat (Interval.interval now_interval - Interval.interval (fc_time s)))
        (validatorCount head_state) head_state []
  end.

(** ** The fork choice API *)

Definition kStateCacheSize : N := 16.

(** The walk from the leaves down to the finalized slot; [queue] has its back first. *)
Fixpoint api_nodes (fuel : nat) (finalized_slot : Slot) (queue : list BlockHash)
    (nodes : gmap BlockHash ForkChoiceNodeApiJson) : M (gmap BlockHash ForkChoiceNodeApiJson) :=
  match queue with
  | [] => mret nodes
  | h :: queue =>
      match fuel with
      | O => sm_throw OutOfFuel
      | Datatypes.S fuel =>
          header_opt ← block_tree (tryGetBlockHeader h);
          match header_opt with
          | None => api_nodes fuel finalized_slot queue nodes
          | Some header =>
              if bh_slot header <? finalized_slot then api_nodes fuel finalized_slot queue nodes
              else
                api_nodes fuel finalized_slot
                  (if finalized_slot <? bh_slot header then bh_parent_root header :: queue else queue)
                  (emplace h (mkForkChoiceNodeApiJson h (bh_slot header) (bh_parent_root header)
                                (bh_proposer_index header) 0) nodes)
          end
      end
  end.

Fixpoint api_vote (fuel : nat) (h : BlockHash) (nodes : gmap BlockHash ForkChoiceNodeApiJson)
    : result (gmap BlockHash ForkChoiceNodeApiJson) :=
  match nodes !! h with
  | None => Ok nodes
  | Some node =>
      match fuel with
      | O => Throw OutOfFuel
      | Datatypes.S fuel =>
          api_vote fuel (fn_parent_root node)
            (<[h := mkForkChoiceNodeApiJson (fn_root node) (fn_slot node) (fn_parent_root node)
                      (fn_proposer_index node) (u64_add (fn_weight node) 1)]> nodes)
      end
  end.

Definition apiForkChoice : M ForkChoiceApiJson :=
  finalized ← getLatestFinalized;
  s ← sm_get;
  let head := cp_root (getHead s) in
  head_state ← getState head;
  leaves ← block_tree getLeaves;
  nodes ← api_nodes loop_fuel (cp_slot finalized) (reverse leaves) ∅;
  nodes ← sm_lift (oc_foldl (λ nodes attestation, api_vote loop_fuel (cp_root (ad_head attestation)) nodes)
                     nodes (snd <$> iteration (fc_latest_known_attestations s)));
  justified ← getLatestJustified;
  mret (mkForkChoiceApiJson (snd <$> iteration nodes) head justified finalized
          (cp_root (fc_safe_target s)) (validatorCount head_state)).

(** ** Construction *)

(** getValidatorId *)
Definition getValidatorId : result ValidatorIndex :=
  match currentValidatorIndices with
  | [i] => Ok i
  | _ => Throw Fatal
  end.

(** anchor_block_slots_: the first slot of each root of the anchor's history. *)
Definition anchorBlockSlots (historical_block_hashes : list BlockHash) : gmap BlockHash Slot :=
  foldl (λ m '(slot, h), if h =? kZeroHash then m else emplace h slot m) ∅
    (zip (seqN 0 (lengthN historical_block_hashes)) historical_block_hashes).

(** ForkChoiceStore::ForkChoiceStore *)
Definition ForkChoiceStore_new (anchor_state : State) (anchor_block : BlockHeader) (now_ms : N)
    (is_aggregator : bool) (subnet_count : N) (p : BlockTreeData S) : result (ForkChoiceStore S) :=
  validator_id ← getValidatorId;
  _ ← boost_assert (bh_state_root anchor_block =? sszHash_state anchor_state);
  let time := default (Interval.fromSlot 0 0) (Interval.fromTime now_ms (st_config anchor_state)) in
  let head := BlockIndex_to_Checkpoint (ct_justified (bt_tree p)) in
  let store := mkForkChoiceStore p time (st_config anchor_state) head (mkCheckpoint kZeroHash 0)
    (mkLruCache kStateCacheSize 0 []) ∅ ∅ ∅ validator_id is_aggregator subnet_count false ∅ in
  let m :=
    log_error updateSafeTarget ≫= λ _,
    log_error updateHead ≫= λ _,
    sm_modify (set_anchor_block_slots (anchorBlockSlots (st_historical_block_hashes anchor_state))) in
  let '(r, store) := m store in
  _ ← r; Ok store.
End fork_choice.
