(* ===== verification/ForkChoiceProofs.v ===== *)
(** * ForkChoiceStore: reading the tree, weights and the GHOST walk *)

From S2P Require Import Prelude Errors Types Justifiable Stf CachedTree CachedTreeProofs.
From S2P Require Import CachedTreeFinalize CachedTreeTheorems BlockStorage BlockStorageSpec.
From S2P Require Import BlockTree BlockTreeProofs LruCache ForkChoice.

(** ** Votes and the GHOST rule on the tree *)

(** Whether [a] is [p] or one of its ancestors, by walking up. *)
Fixpoint ancb (fuel : nat) (nodes : Nodes) (a p : BlockIndex) : bool :=
  if decide (a = p) then true
  else
    match fuel, parent_of nodes p with
    | S fuel, Some q => ancb fuel nodes a q
    | _, _ => false
    end.

(** A vote supports a block when its head descends from that block. *)
Definition supportsb (t : CachedTree) (q : BlockIndex) (v : AttestationData) : bool :=
  match find t (cp_root (ad_head v)) with
  | Some n => ancb (tree_fuel (ct_nodes t)) (ct_nodes t) q n
  | None => false
  end.

(** How many votes support a block. *)
Definition support (t : CachedTree) (votes : list AttestationData) (q : BlockIndex) : N :=
  lengthN (filter (λ v, supportsb t q v = true) votes).

(** The GHOST walk: from a block to the child with the greatest weight, the greater hash
    among equals, until no child has the minimal score. *)
Inductive ghost (nodes : Nodes) (w : BlockIndex → N) (min_score : N) : BlockIndex → BlockIndex → Prop :=
| ghost_stop q n :
    nodes !! bi_hash q = Some n → (∀ c, c ∈ tn_children n → w c < min_score) →
    ghost nodes w min_score q q
| ghost_step q n c r :
    nodes !! bi_hash q = Some n → c ∈ tn_children n → min_score ≤ w c →
    (∀ c', c' ∈ tn_children n → min_score ≤ w c' →
       w c' < w c ∨ (w c' = w c ∧ bi_hash c' ≤ bi_hash c)) →
    ghost nodes w min_score c r → ghost nodes w min_score q r.

(** Stored headers outside the tree are not later than the finalized block. *)
Definition stored_old (t : CachedTree) (a : Abs) : Prop :=
  ∀ h hd, a_header a h = Some hd → ct_nodes t !! h = None → bh_slot hd ≤ bi_slot (ct_root t).

Lemma ancb_spec root nodes fuel a p :
  nodes_wf root nodes → valid nodes p → (height nodes p ≤ fuel)%nat →
  ancb fuel nodes a p = true ↔ anc nodes a p.
Proof.
  intros Hw Hp. revert p Hp fuel.
  apply (parent_ind root nodes Hw (λ p, ∀ fuel, (height nodes p ≤ fuel)%nat → _)).
  intros p Hp IH fuel Hf. destruct (parent_of nodes p) as [q|] eqn:Hq.
  - pose proof (height_parent _ _ Hw _ _ Hp Hq). destruct fuel as [|fuel]; [lia|]. simpl.
    case_decide as Heq; [subst; split; [by constructor|done]|]. rewrite Hq.
    rewrite (IH q eq_refl fuel) by lia. split; [by econstructor|].
    intros Ha. inversion Ha; [done|congruence].
  - assert (Hfalse : ancb fuel nodes a p = if decide (a = p) then true else false).
    { destruct fuel; simpl; rewrite ?Hq; done. }
    rewrite Hfalse. case_decide as Heq; [subst; split; [by constructor|done]|].
    split; [done|]. intros Ha. inversion Ha; [done|congruence].
Qed.

Lemma supportsb_spec t q v n :
  tree_wf t → find t (cp_root (ad_head v)) = Some n →
  supportsb t q v = true ↔ anc (ct_nodes t) q n.
Proof.
  intros Hwf Hf. unfold supportsb. rewrite Hf. destruct (find_valid _ _ _ Hwf Hf) as [Hv _].
  eapply ancb_spec; [apply Hwf|done|]. pose proof (height_fuel (ct_nodes t) n). lia.
Qed.

Lemma support_perm t l1 l2 q : l1 ≡ₚ l2 → support t l1 q = support t l2 q.
Proof. intros Hp. unfold support, lengthN. by rewrite Hp. Qed.

Lemma support_cons t v votes q :
  support t (v :: votes) q = (if supportsb t q v then 1 else 0) + support t votes q.
Proof.
  unfold support, lengthN. rewrite filter_cons. destruct (supportsb t q v); case_decide; try done;
    simpl length; lia.
Qed.

Lemma support_le t votes q : support t votes q ≤ lengthN votes.
Proof. unfold support, lengthN. pose proof (length_filter (λ v, supportsb t q v = true) votes). lia. Qed.

Lemma ghost_anc root nodes w min_score q r :
  nodes_wf root nodes → valid nodes q → ghost nodes w min_score q r → anc nodes q r ∧ valid nodes r.
Proof.
  intros Hw Hq Hg. induction Hg as [q n|q n c r Hn Hc _ _ _ IH]; [split; [by constructor|done]|].
  destruct (child_parent _ _ Hw _ _ _ Hn Hc) as [Hv Hp].
  destruct (IH Hv) as [Ha Hr]. split; [|done]. eapply anc_trans; [|done].
  assert (tn_index n = q) as Hi.
  { destruct Hq as (n' & Hn' & Hi). congruence. }
  rewrite Hi in Hp. econstructor; [done|]. by constructor.
Qed.

(** The walk only depends on the weights of later blocks. *)
Lemma ghost_ext root nodes w w' min_score b q r :
  nodes_wf root nodes → valid nodes q → b ≤ bi_slot q →
  (∀ x, valid nodes x → b < bi_slot x → w x = w' x) →
  ghost nodes w min_score q r → ghost nodes w' min_score q r.
Proof.
  intros Hw Hq Hb Hext Hg.
  assert (Hkids : ∀ q n c, valid nodes q → b ≤ bi_slot q → nodes !! bi_hash q = Some n →
    c ∈ tn_children n → valid nodes c ∧ b < bi_slot c).
  { intros x n c (n' & Hn' & Hi) Hbx Hn Hc. destruct (child_parent _ _ Hw _ _ _ Hn Hc) as [Hcv Hcp].
    destruct (parent_of_valid _ _ Hw _ _ Hcv Hcp) as [_ Hlt]. split; [done|].
    assert (n' = n) as -> by congruence. rewrite Hi in Hlt. lia. }
  induction Hg as [q n Hn Hc|q n c r Hn Hc Hmin Hmax _ IH].
  - eapply ghost_stop; [done|]. intros c Hin. destruct (Hkids q n c Hq Hb Hn Hin).
    rewrite <- Hext by done. by apply Hc.
  - destruct (Hkids q n c Hq Hb Hn Hc) as [Hcv Hcb].
    eapply ghost_step; [done|done|by rewrite <- Hext| |apply IH; [done|lia]].
    intros c' Hc'. destruct (Hkids q n c' Hq Hb Hn Hc'). rewrite <- !Hext by done. by apply Hmax.
Qed.

Lemma ghost_functional root nodes w min_score q r1 r2 :
  nodes_wf root nodes → valid nodes q →
  ghost nodes w min_score q r1 → ghost nodes w min_score q r2 → r1 = r2.
Proof.
  intros Hw Hq H1. revert r2. induction H1 as [q n Hn Hc|q n c r Hn Hc Hmin Hmax _ IH]; intros r2 H2.
  - inversion H2 as [|q' n' c' r' Hn' Hc' Hmin' _ _]; subst; [done|].
    assert (n' = n) as -> by congruence. specialize (Hc _ Hc'). lia.
  - destruct (child_parent _ _ Hw _ _ _ Hn Hc) as [Hcv _].
    inversion H2 as [q' n' Hn' Hs|q' n' c' r' Hn' Hc' Hmin' Hmax' Hg']; subst;
      assert (n' = n) as -> by congruence.
    + specialize (Hs _ Hc). lia.
    + destruct (child_parent _ _ Hw _ _ _ Hn Hc') as [Hcv' _].
      assert (c = c') as <-.
      { eapply valid_inj; [done..|]. pose proof (Hmax _ Hc' Hmin'). pose proof (Hmax' _ Hc Hmin). lia. }
      by apply IH.
Qed.

(** ** Running reads of the tree *)
Section proofs.
Context {S : Type} `{!SszHash} `{!BlockStorage S} `{!BlockStorageLaws S} `{!BuildMode} `{!UnorderedMap}.
Context `{!XmssProvider} `{!NodeKeys} `{!LoopFuel}.
Implicit Types s : ForkChoiceStore S.

(** [m] returns [r] and changes nothing but caches inside the storage. *)
Definition fc_reads {A} (m : SM (ForkChoiceStore S) error A) s (r : outcome error A) t g ev a : Prop :=
  ∃ p', m s = (r, set_block_tree p' s) ∧ at_state t g ev p' a.

Lemma set_block_tree_same s : set_block_tree (fc_block_tree s) s = s.
Proof. by destruct s. Qed.

Lemma fc_ret {A} (x : A) s t g ev a :
  at_state t g ev (fc_block_tree s) a → fc_reads (mret x) s (Ok x) t g ev a.
Proof. intros Hp. exists (fc_block_tree s). by rewrite set_block_tree_same. Qed.
Lemma fc_throw_err {A} e s t g ev a :
  at_state t g ev (fc_block_tree s) a → fc_reads (sm_err e : SM _ _ A) s (Err e) t g ev a.
Proof. intros Hp. exists (fc_block_tree s). by rewrite set_block_tree_same. Qed.
Lemma fc_lift {A} (r : outcome error A) s t g ev a :
  at_state t g ev (fc_block_tree s) a → fc_reads (sm_lift r) s r t g ev a.
Proof. intros Hp. exists (fc_block_tree s). by rewrite set_block_tree_same. Qed.
Lemma fc_get s t g ev a :
  at_state t g ev (fc_block_tree s) a → fc_reads sm_get s (Ok s) t g ev a.
Proof. intros Hp. exists (fc_block_tree s). by rewrite set_block_tree_same. Qed.

Lemma fc_bind {A C} (m : SM (ForkChoiceStore S) error A) (f : A → SM (ForkChoiceStore S) error C)
    s x t g ev a r :
  fc_reads m s (Ok x) t g ev a →
  (∀ p', at_state t g ev p' a → fc_reads (f x) (set_block_tree p' s) r t g ev a) →
  fc_reads (m ≫= f) s r t g ev a.
Proof.
  intros (p' & Hm & Hp') Hf. destruct (Hf p' Hp') as (p'' & Hf' & Hp'').
  exists p''. split; [|done]. unfold mbind, sm_bind. by rewrite Hm.
Qed.
Lemma fc_bind_err {A C} (m : SM (ForkChoiceStore S) error A) (f : A → SM (ForkChoiceStore S) error C)
    s e t g ev a :
  fc_reads m s (Err e) t g ev a → fc_reads (m ≫= f) s (Err e) t g ev a.
Proof. intros (p' & Hm & Hp'). exists p'. split; [|done]. unfold mbind, sm_bind. by rewrite Hm. Qed.
Lemma fc_try {A} (m : SM (ForkChoiceStore S) error A) s r t g ev a :
  fc_reads m s r t g ev a →
  match r with
  | Ok x => fc_reads (sm_try m) s (Ok (inl x)) t g ev a
  | Err e => fc_reads (sm_try m) s (Ok (inr e)) t g ev a
  | Throw _ => True
  end.
Proof.
  intros (p' & Hm & Hp'). destruct r; [| |done]; exists p'; unfold sm_try; by rewrite Hm.
Qed.
Lemma fc_tree {A} (m : SM (BlockTreeData S) error A) s r t g ev a :
  bt_runs m (fc_block_tree s) r t g ev a → fc_reads (block_tree m) s r t g ev a.
Proof. intros (p' & Hm & Hp'). exists p'. unfold block_tree. by rewrite Hm. Qed.

(** A read may start from any state that differs only in the storage's caches. *)
Lemma fc_reads_from {A} (m : SM (ForkChoiceStore S) error A) s p' r t g ev a :
  fc_reads m (set_block_tree p' s) r t g ev a →
  ∃ p'', m (set_block_tree p' s) = (r, set_block_tree p'' s) ∧ at_state t g ev p'' a.
Proof. intros (p'' & Hm & Hp''). by exists p''. Qed.

(** ** Reads of the block tree *)
Section reads.
Context (t : CachedTree) (g : option BlockHash) (ev : list Event) (a : Abs).

Lemma bt_has_spec h p :
  at_state t g ev p a →
  bt_runs (has h) p (Ok (bool_decide (is_Some (ct_nodes t !! h)) || bool_decide (is_Some (a_header a h)))) t g ev a.
Proof.
  intros Hp. unfold has. eapply bt_bind; [by apply bt_get_tree|]. intros p1 Hp1.
  unfold find. destruct (ct_nodes t !! h) as [n|]; simpl.
  - by apply bt_ret.
  - pose proof (law_hasBlockHeader _ _ h (as_storage _ _ _ _ _ Hp1)) as Hg.
    pose proof (bt_storage_op _ _ _ _ _ _ _ _ Hp1 Hg) as Hs. apply bt_try in Hs.
    eapply bt_bind; [exact Hs|]. intros p2 Hp2. by apply bt_ret.
Qed.

Lemma bt_getBlockHeader_spec h p :
  at_state t g ev p a →
  bt_runs (BlockTree.getBlockHeader h) p
    (match a_header a h with
     | Some hd => Ok hd
     | None => Err (E_BlockStorage BS_HEADER_NOT_FOUND) end) t g ev a.
Proof.
  intros Hp. eapply bt_storage_op; [done|]. by apply law_getBlockHeader, Hp.
Qed.

Lemma bt_getSlotByHash_node h p n :
  at_state t g ev p a → find t h = Some n → bt_runs (getSlotByHash h) p (Ok (bi_slot n)) t g ev a.
Proof.
  intros Hp Hf. unfold getSlotByHash. eapply bt_bind; [by apply bt_get_tree|]. intros p1 Hp1.
  rewrite Hf. by apply bt_ret.
Qed.

Lemma bt_lastFinalized_spec p :
  at_state t g ev p a → bt_runs lastFinalized p (Ok (ct_root t)) t g ev a.
Proof. intros Hp. eapply bt_bind; [by apply bt_get_tree|]. intros p1 Hp1. by apply bt_ret. Qed.

Lemma bt_getLatestJustified_spec p :
  at_state t g ev p a →
  bt_runs BlockTree.getLatestJustified p (Ok (BlockIndex_to_Checkpoint (ct_justified t))) t g ev a.
Proof.
  intros Hp. eapply (bt_bind _ _ _ (ct_justified t)).
  { eapply bt_bind; [by apply bt_get_tree|]. intros p1 Hp1. by apply bt_ret. }
  intros p1 Hp1. by apply bt_ret.
Qed.

Lemma bt_getChildren_node h p n :
  at_state t g ev p a → ct_nodes t !! h = Some n →
  bt_runs (getChildren h) p (Ok (bi_hash <$> tn_children n)) t g ev a.
Proof.
  intros Hp Hn. unfold getChildren. eapply bt_bind; [by apply bt_get_tree|]. intros p1 Hp1.
  rewrite Hn. by apply bt_ret.
Qed.
End reads.
End proofs.
