(* ===== verification/ForkChoiceGhost.v ===== *)
(** * ForkChoiceStore: LMD GHOST and the head *)

From S2P Require Import Prelude Errors Types Justifiable Stf CachedTree CachedTreeProofs.
From S2P Require Import CachedTreeFinalize CachedTreeTheorems BlockStorage BlockStorageSpec.
From S2P Require Import BlockTree BlockTreeProofs LruCache ForkChoice ForkChoiceProofs.

(** ** std::max_element over the children *)
Section max_child.
Context (weights : gmap BlockHash N).

Definition not_heavier (x y : BlockHash) : Prop :=
  get_weight weights x < get_weight weights y ∨
  (get_weight weights x = get_weight weights y ∧ x ≤ y).

Lemma lighter_spec x y : lighter weights x y = false ↔ not_heavier y x.
Proof.
  unfold lighter, not_heavier. destruct (N.eqb_spec (get_weight weights x) (get_weight weights y)) as [He|He].
  - rewrite N.ltb_ge. lia.
  - rewrite N.ltb_ge. lia.
Qed.

Lemma not_heavier_trans x y z : not_heavier x y → not_heavier y z → not_heavier x z.
Proof. unfold not_heavier. lia. Qed.
Lemma not_heavier_refl x : not_heavier x x.
Proof. unfold not_heavier. lia. Qed.

Lemma max_child_spec first rest :
  max_child weights first rest ∈ first :: rest ∧
  ∀ x, x ∈ first :: rest → not_heavier x (max_child weights first rest).
Proof.
  unfold max_child. revert first. induction rest as [|y rest IH]; intros first; simpl.
  - split; [by left|]. intros x Hx. apply list_elem_of_singleton in Hx as ->. apply not_heavier_refl.
  - destruct (IH (if lighter weights first y then y else first)) as [Hin Hmax]. split.
    + revert Hin. case_match; set_solver.
    + intros x Hx. destruct (lighter weights first y) eqn:Hl.
      * assert (not_heavier first y) as Hf.
        { destruct (lighter weights y first) eqn:Hl'; [|by apply lighter_spec].
          exfalso. revert Hl Hl'. unfold lighter.
          rewrite (N.eqb_sym (get_weight weights y)). case_match; rewrite !N.ltb_lt; lia. }
        apply elem_of_cons in Hx as [->|Hx]; [|by apply Hmax].
        eapply not_heavier_trans; [done|]. apply Hmax. by left.
      * apply lighter_spec in Hl. apply elem_of_cons in Hx as [->|Hx]; [apply Hmax; by left|].
        apply elem_of_cons in Hx as [->|Hx]; [|apply Hmax; by right].
        eapply not_heavier_trans; [done|]. apply Hmax. by left.
Qed.
End max_child.

Section ghost_proofs.
Context {S : Type} `{!SszHash} `{!BlockStorage S} `{!BlockStorageLaws S} `{!BuildMode} `{!UnorderedMap}.
Context `{!XmssProvider} `{!NodeKeys} `{!LoopFuel}.
Context (t : CachedTree) (g : option BlockHash) (ev : list Event) (a : Abs).
Context (Hwf : bt_wf t a) (Hold : stored_old t a).
Implicit Types s : ForkChoiceStore S.

Local Abbreviation at_fc s := (at_state t g ev (fc_block_tree s) a).
Local Abbreviation reads m s r := (fc_reads m s r t g ev a).

Let Htw : tree_wf t := bw_tree _ _ Hwf.
Let Hnw : nodes_wf (ct_root t) (ct_nodes t) := tw_nodes _ Htw.

Lemma valid_find q : valid (ct_nodes t) q → find t (bi_hash q) = Some q.
Proof. intros (n & Hn & Hi). unfold find. rewrite Hn. simpl. by rewrite Hi. Qed.

Lemma find_None h : find t h = None ↔ ct_nodes t !! h = None.
Proof. unfold find. by destruct (ct_nodes t !! h). Qed.

Lemma reads_header s h :
  at_fc s →
  reads (sm_try (block_tree (tryGetBlockHeader h))) s
    (Ok (match a_header a h with
         | Some hd => inl (Some hd)
         | None => inr (E_BlockStorage BS_HEADER_NOT_FOUND) end)).
Proof.
  intros Hp. pose proof (fc_try _ _ _ _ _ _ _ (fc_tree _ s _ _ _ _ _ (tryGetBlockHeader_spec h _ _ _ _ _ Hp))) as Hr.
  by destruct (a_header a h).
Qed.

(** ** Weights *)
Lemma ancb_parent x n par :
  valid (ct_nodes t) n → parent_of (ct_nodes t) n = Some par →
  ancb (tree_fuel (ct_nodes t)) (ct_nodes t) x n =
  bool_decide (x = n) || ancb (tree_fuel (ct_nodes t)) (ct_nodes t) x par.
Proof.
  intros Hn Hp. destruct (parent_of_valid _ _ Hnw _ _ Hn Hp) as [Hpv _].
  pose proof (height_fuel (ct_nodes t) n). pose proof (height_fuel (ct_nodes t) par).
  apply eq_true_iff_eq. rewrite orb_true_iff, bool_decide_eq_true, !(ancb_spec _ _ _ _ _ Hnw) by (done || lia).
  split.
  - intros Ha. inversion Ha; [by left|right; congruence].
  - intros [->|Ha]; [by constructor|by econstructor].
Qed.

Definition weight_after (start : Slot) (n : BlockIndex) (w w' : gmap BlockHash N) : Prop :=
  ∀ x, valid (ct_nodes t) x → start < bi_slot x →
    get_weight w' (bi_hash x) =
      (if ancb (tree_fuel (ct_nodes t)) (ct_nodes t) x n
       then u64_add (get_weight w (bi_hash x)) 1 else get_weight w (bi_hash x)).

Lemma add_weights_node start fuel n w s :
  at_fc s → bi_slot (ct_root t) ≤ start → valid (ct_nodes t) n → (height (ct_nodes t) n < fuel)%nat →
  ∃ w', reads (add_weights fuel start (bi_hash n) w) s (Ok w') ∧ weight_after start n w w'.
Proof.
  intros Hp Hroot. revert n w s Hp. induction fuel as [|fuel IH]; intros n w s Hp Hn Hf; [lia|].
  destruct (bw_headers _ _ Hwf n Hn) as (hd & Hh & Hslot & Hpar). simpl.
  pose proof (reads_header s (bi_hash n) Hp) as Hr. rewrite Hh in Hr.
  destruct (N.leb_spec (bi_slot n) start) as [Hle|Hgt].
  - exists w. split.
    + eapply fc_bind; [exact Hr|]. intros p1 Hp1. cbv beta iota. rewrite Hslot, (proj2 (N.leb_le _ _) Hle). by apply fc_ret.
    + intros x Hx Hlt. case_match eqn:Ha; [|done].
      apply (ancb_spec _ _ _ _ _ Hnw Hn) in Ha; [|pose proof (height_fuel (ct_nodes t) n); lia].
      destruct (anc_slot _ _ Hnw _ _ Hn Ha). lia.
  - destruct (parent_of_is_Some _ _ Hnw n Hn) as [par Hp']; [intros ->; lia|].
    destruct (parent_of_valid _ _ Hnw _ _ Hn Hp') as [Hpv Hps].
    pose proof (height_parent _ _ Hnw _ _ Hn Hp') as Hh'.
    set (w1 := <[bi_hash n := u64_add (default 0 (w !! bi_hash n)) 1]> w).
    assert (Hgen : ∀ s, at_fc s → ∃ w', reads (add_weights fuel start (bi_hash par) w1) s (Ok w') ∧
      weight_after start par w1 w') by (intros; apply IH; [done..|lia]).
    destruct Hr as (p1 & Hr & Hp1). destruct (Hgen (set_block_tree p1 s) Hp1) as (w' & Hr' & Hw').
    exists w'. split.
    + destruct Hr' as (p2 & Hr' & Hp2). exists p2. split; [|done].
      unfold mbind, sm_bind. rewrite Hr. cbv beta iota. rewrite Hslot, (proj2 (N.leb_gt _ _) Hgt), (Hpar par Hp').
      exact Hr'.
    + intros x Hx Hlt. rewrite (Hw' x Hx Hlt), (ancb_parent x n par Hn Hp').
      unfold w1, get_weight. case_bool_decide as Heq.
      * subst x. rewrite lookup_insert_eq, orb_true_l.
        destruct (ancb (tree_fuel (ct_nodes t)) (ct_nodes t) n par) eqn:Ha; [|done].
        apply (ancb_spec _ _ _ _ _ Hnw Hpv) in Ha; [|pose proof (height_fuel (ct_nodes t) par); lia].
        destruct (anc_slot _ _ Hnw _ _ Hpv Ha). lia.
      * rewrite lookup_insert_ne; [done|]. intros He. apply Heq. symmetry. by eapply valid_inj.
Qed.

Lemma add_weights_vote start v w s :
  at_fc s → bi_slot (ct_root t) ≤ start → (tree_fuel (ct_nodes t) ≤ loop_fuel)%nat →
  ∃ w', reads (add_weights loop_fuel start (cp_root (ad_head v)) w) s (Ok w') ∧
    ∀ x, valid (ct_nodes t) x → start < bi_slot x →
      get_weight w' (bi_hash x) =
        (if supportsb t x v then u64_add (get_weight w (bi_hash x)) 1 else get_weight w (bi_hash x)).
Proof.
  intros Hp Hroot Hfuel. unfold supportsb. destruct (find t (cp_root (ad_head v))) as [n|] eqn:Hf.
  - destruct (find_valid _ _ _ Htw Hf) as [Hn <-]. apply add_weights_node; [done..|].
    pose proof (height_fuel (ct_nodes t) n). lia.
  - exists w. split; [|done]. pose proof (reads_header s (cp_root (ad_head v)) Hp) as Hr.
    destruct loop_fuel as [|fuel]; [unfold tree_fuel in Hfuel; lia|]. simpl.
    eapply fc_bind; [exact Hr|]. intros p1 Hp1. destruct (a_header a _) as [hd|] eqn:Hh; [|by apply fc_ret]. cbv beta iota.
    apply find_None in Hf. specialize (Hold _ _ Hh Hf).
    rewrite (proj2 (N.leb_le _ _)) by lia. by apply fc_ret.
Qed.

Lemma collect_weights_spec start votes w s :
  at_fc s → bi_slot (ct_root t) ≤ start → (tree_fuel (ct_nodes t) ≤ loop_fuel)%nat →
  (∀ x, valid (ct_nodes t) x → start < bi_slot x → get_weight w (bi_hash x) + lengthN votes < two64) →
  ∃ w', reads (collect_weights start votes w) s (Ok w') ∧
    ∀ x, valid (ct_nodes t) x → start < bi_slot x →
      get_weight w' (bi_hash x) = get_weight w (bi_hash x) + support t votes x.
Proof.
  intros Hp Hroot Hfuel. revert w s Hp. induction votes as [|v votes IH]; intros w s Hp Hb; simpl.
  - exists w. split; [by apply fc_ret|]. intros. unfold support. simpl. rewrite filter_nil. unfold lengthN. simpl. lia.
  - destruct (add_weights_vote start v w s Hp Hroot Hfuel) as (w1 & (p1 & Hr & Hp1) & Hw1).
    assert (Hw1' : ∀ x, valid (ct_nodes t) x → start < bi_slot x →
      get_weight w1 (bi_hash x) = get_weight w (bi_hash x) + (if supportsb t x v then 1 else 0)).
    { intros x Hx Hlt. rewrite (Hw1 x Hx Hlt). specialize (Hb x Hx Hlt). unfold lengthN in Hb. simpl in Hb.
      case_match; [|lia]. apply u64_add_small. lia. }
    destruct (IH w1 (set_block_tree p1 s) Hp1) as (w' & (p2 & Hr' & Hp2) & Hw').
    { intros x Hx Hlt. rewrite (Hw1' x Hx Hlt). specialize (Hb x Hx Hlt). unfold lengthN in *. simpl in Hb.
      case_match; lia. }
    exists w'. split.
    + exists p2. split; [|done]. unfold mbind, sm_bind. by rewrite Hr.
    + intros x Hx Hlt. rewrite (Hw' x Hx Hlt), (Hw1' x Hx Hlt), support_cons. lia.
Qed.

(** ** The walk *)
Lemma ghost_walk_spec min_score w fuel q s :
  at_fc s → valid (ct_nodes t) q → (above (ct_nodes t) q < fuel)%nat →
  ∃ r, reads (ghost_walk fuel min_score w (bi_hash q)) s (Ok (bi_hash r)) ∧
    ghost (ct_nodes t) (λ c, get_weight w (bi_hash c)) min_score q r.
Proof.
  revert q s. induction fuel as [|fuel IH]; intros q s Hp Hq Hf; [lia|].
  destruct Hq as (n & Hn & Hi). simpl.
  pose proof (fc_try _ _ _ _ _ _ _ (fc_tree _ s _ _ _ _ _ (bt_getChildren_node t g ev a _ _ n Hp Hn))) as Hr.
  simpl in Hr. destruct Hr as (p1 & Hr & Hp1).
  set (children := if 0 <? min_score
    then filter (λ h, min_score ≤ get_weight w h) (bi_hash <$> tn_children n) else bi_hash <$> tn_children n).
  assert (Hch : ∀ h, h ∈ children ↔ ∃ c, h = bi_hash c ∧ c ∈ tn_children n ∧ min_score ≤ get_weight w (bi_hash c)).
  { intros h. unfold children. destruct (N.ltb_spec 0 min_score) as [Hm|Hm].
    - rewrite list_elem_of_filter, list_elem_of_fmap. naive_solver.
    - rewrite list_elem_of_fmap. split; [|naive_solver]. intros (c & -> & Hc).
      exists c. split; [done|]. split; [done|lia]. }
  destruct children as [|first rest] eqn:Hc.
  - exists q. split.
    + exists p1. split; [|done]. unfold mbind, sm_bind. rewrite Hr. fold children. by rewrite Hc.
    + eapply ghost_stop; [done|]. intros c Hin. apply N.nle_gt. intros Hm.
      apply (not_elem_of_nil (bi_hash c)), Hch. by exists c.
  - destruct (max_child_spec w first rest) as [Hin Hmax].
    apply Hch in Hin as (c & Hc' & Hcin & Hcm).
    destruct (child_parent _ _ Hnw _ _ _ Hn Hcin) as [Hcv _].
    pose proof (above_child _ _ _ _ _ Hnw Hn Hi Hcin).
    destruct (IH c (set_block_tree p1 s) Hp1 Hcv) as (r & (p2 & Hr' & Hp2) & Hg); [lia|].
    exists r. split.
    + exists p2. split; [|done]. unfold mbind, sm_bind. rewrite Hr. fold children. rewrite Hc, Hc'. exact Hr'.
    + eapply ghost_step; [done..| |done]. intros c' Hin' Hm'. rewrite <- Hc'. apply Hmax, Hch. by exists c'.
Qed.

(** The block the walk starts from. *)
Definition ghost_anchor (start_root : BlockHash) (q : BlockIndex) : Prop :=
  (start_root ≠ kZeroHash ∧ find t start_root = Some q) ∨
  ((start_root = kZeroHash ∨ (find t start_root = None ∧ a_header a start_root = None)) ∧ q = ct_root t).

Definition anchors_agree s : Prop :=
  ∀ h n slot, find t h = Some n → fc_anchor_block_slots s !! h = Some slot → slot = bi_slot n.

Lemma reads_block_slot s q :
  at_fc s → anchors_agree s → valid (ct_nodes t) q →
  reads (getBlockSlot (bi_hash q)) s (Ok (bi_slot q)).
Proof.
  intros Hp Ha Hq. unfold getBlockSlot. eapply fc_bind; [by apply fc_get|]. intros p1 Hp1.
  pose proof (valid_find q Hq) as Hf.
  destruct (fc_anchor_block_slots s !! bi_hash q) as [slot|] eqn:Hs.
  - rewrite <- (Ha _ _ _ Hf Hs). by apply fc_ret.
  - apply fc_tree. by apply bt_getSlotByHash_node.
Qed.

Lemma computeLmdGhostHead_spec start_root q atts min_score s :
  at_fc s → anchors_agree s → ghost_anchor start_root q → (tree_fuel (ct_nodes t) ≤ loop_fuel)%nat →
  N.of_nat (size atts) < two64 →
  ∃ r, reads (computeLmdGhostHead start_root atts min_score) s (Ok (bi_hash r)) ∧
    ghost (ct_nodes t) (support t (map_to_list atts).*2) min_score q r.
Proof.
  intros Hp Hag Hanchor Hfuel Hsize.
  assert (Hq : valid (ct_nodes t) q).
  { destruct Hanchor as [[_ Hf]|[_ ->]]; [by apply (find_valid _ _ _ Htw) in Hf as [? _]|by apply (valid_root _ _ Hnw)]. }
  assert (Hroot : bi_slot (ct_root t) ≤ bi_slot q).
  { by apply (anc_slot _ _ Hnw _ _ Hq), (anc_root _ _ Hnw). }
  set (votes := snd <$> iteration atts).
  assert (Hperm : votes ≡ₚ (map_to_list atts).*2) by (unfold votes; by rewrite iteration_perm).
  assert (Hlen : lengthN votes = N.of_nat (size atts)).
  { unfold lengthN. by rewrite Hperm, length_fmap, length_map_to_list. }
  assert (R1 : reads (if start_root =? kZeroHash then mret false else block_tree (has start_root)) s
    (Ok (bool_decide (start_root ≠ kZeroHash ∧ find t start_root = Some q)))).
  { destruct Hanchor as [[Hne Hf]|[Hun ->]].
    - rewrite (proj2 (N.eqb_neq _ _) Hne). rewrite bool_decide_true by done.
      apply fc_tree. pose proof (bt_has_spec t g ev a start_root _ Hp) as Hh.
      rewrite bool_decide_true in Hh; [exact Hh|]. unfold find in Hf. by destruct (ct_nodes t !! _).
    - rewrite bool_decide_false; [|intros [Hne Hf]; destruct Hun as [|[Hf' _]]; congruence].
      destruct (N.eqb_spec start_root kZeroHash) as [|Hne]; [by apply fc_ret|].
      destruct Hun as [|[Hf Hh]]; [done|]. apply fc_tree.
      pose proof (bt_has_spec t g ev a start_root _ Hp) as Hb. apply find_None in Hf.
      rewrite Hf, Hh in Hb. exact Hb. }
  destruct R1 as (p1 & R1 & Hp1).
  assert (R2 : reads (if bool_decide (start_root ≠ kZeroHash ∧ find t start_root = Some q)
      then mret start_root else (b ← block_tree lastFinalized; mret (bi_hash b))) (set_block_tree p1 s) (Ok (bi_hash q))).
  { case_bool_decide as Hd.
    - destruct Hd as [_ Hf]. apply (find_valid _ _ _ Htw) in Hf as [_ <-]. by apply fc_ret.
    - destruct Hanchor as [|[_ ->]]; [done|]. eapply fc_bind; [by apply fc_tree, bt_lastFinalized_spec|].
      intros p2 Hp2. by apply fc_ret. }
  destruct R2 as (p2 & R2 & Hp2).
  destruct (reads_block_slot (set_block_tree p2 s) q Hp2 Hag Hq) as (p3 & R3 & Hp3).
  destruct (collect_weights_spec (bi_slot q) votes ∅ (set_block_tree p3 s) Hp3 Hroot Hfuel) as (w & (p4 & R4 & Hp4) & Hw).
  { intros x _ _. unfold get_weight. rewrite lookup_empty, Hlen. simpl. lia. }
  destruct (ghost_walk_spec min_score w loop_fuel q (set_block_tree p4 s) Hp4 Hq) as (r & (p5 & R5 & Hp5) & Hg).
  { pose proof (above_fuel (ct_nodes t) q). lia. }
  exists r. split.
  - exists p5. split; [|done]. unfold computeLmdGhostHead.
    rewrite (sm_bind_ok _ _ _ _ _ R1), (sm_bind_ok _ _ _ _ _ R2), (sm_bind_ok _ _ _ _ _ R3),
      (sm_bind_ok _ _ _ _ _ R4). exact R5.
  - clear R1 R2 R3 R4 R5.
    assert (Hsup : ∀ x, valid (ct_nodes t) x → bi_slot q < bi_slot x →
      get_weight w (bi_hash x) = support t (map_to_list atts).*2 x).
    { intros x Hx Hlt. rewrite (Hw x Hx Hlt). unfold get_weight. rewrite lookup_empty. simpl.
      by apply support_perm. }
    eapply ghost_ext; [apply Hnw|done|reflexivity|apply Hsup|exact Hg].
Qed.

(** ** Reorg detection *)
Local Abbreviation cp n := (BlockIndex_to_Checkpoint n).

Lemma lift_one_spec n par s :
  at_fc s → valid (ct_nodes t) n → parent_of (ct_nodes t) n = Some par →
  reads (lift_one (cp n)) s (Ok (cp par)).
Proof.
  intros Hp Hn Hpar. destruct (bw_headers _ _ Hwf n Hn) as (hd & Hh & Hslot & Hpr).
  destruct (parent_of_valid _ _ Hnw _ _ Hn Hpar) as [Hpv _].
  pose proof (bt_getBlockHeader_spec t g ev a (bi_hash n) _ Hp) as Hg. rewrite Hh in Hg.
  eapply fc_bind; [apply fc_tree; exact Hg|]. intros p1 Hp1. rewrite (Hpr par Hpar).
  eapply fc_bind; [apply fc_tree, bt_getSlotByHash_node; [done|by apply valid_find]|].
  intros p2 Hp2. by apply fc_ret.
Qed.

Lemma lift_one_missing c s :
  at_fc s → a_header a (cp_root c) = None →
  reads (lift_one c) s (Err (E_BlockStorage BS_HEADER_NOT_FOUND)).
Proof.
  intros Hp Hh. apply fc_bind_err, fc_tree. pose proof (bt_getBlockHeader_spec t g ev a (cp_root c) _ Hp) as Hg.
  by rewrite Hh in Hg.
Qed.

Lemma not_root_later x y :
  valid (ct_nodes t) x → valid (ct_nodes t) y → bi_slot y < bi_slot x →
  ∃ par, parent_of (ct_nodes t) x = Some par.
Proof.
  intros Hx Hy Hlt. apply (parent_of_is_Some _ _ Hnw x Hx). intros ->.
  destruct (anc_slot _ _ Hnw _ _ Hy (anc_root _ _ Hnw _ Hy)). lia.
Qed.

Lemma common_ancestor_spec fuel x y s :
  at_fc s → valid (ct_nodes t) x → valid (ct_nodes t) y →
  (height (ct_nodes t) x + height (ct_nodes t) y < fuel)%nat →
  ∃ c, reads (common_ancestor fuel (cp x) (cp y)) s (Ok (cp c)) ∧
    anc (ct_nodes t) c x ∧ anc (ct_nodes t) c y.
Proof.
  revert x y s. induction fuel as [|fuel IH]; intros x y s Hp Hx Hy Hf; [lia|]. simpl.
  assert (Hlift : ∀ x par s, at_fc s → valid (ct_nodes t) x → parent_of (ct_nodes t) x = Some par →
    valid (ct_nodes t) par ∧ (height (ct_nodes t) par < height (ct_nodes t) x)%nat ∧
    reads (lift_one (cp x)) s (Ok (cp par))).
  { intros z par s' Hs Hz Hpar. split; [by apply (parent_of_valid _ _ Hnw _ _ Hz Hpar)|].
    split; [by apply (height_parent _ _ Hnw)|by apply lift_one_spec]. }
  destruct (N.eqb_spec (bi_hash x) (bi_hash y)) as [Heq|Hne].
  { apply valid_inj with (nodes := ct_nodes t) in Heq as ->; [|done..].
    exists y. split; [by apply fc_ret|]. by split; constructor. }
  destruct (N.ltb_spec (bi_slot y) (bi_slot x)) as [Hlt|Hge].
  { destruct (not_root_later x y Hx Hy Hlt) as [par Hpar].
    destruct (Hlift x par s Hp Hx Hpar) as (Hpv & Hh & p1 & Hr & Hp1).
    destruct (IH par y (set_block_tree p1 s) Hp1 Hpv Hy) as (c & (p2 & Hr' & Hp2) & Hc1 & Hc2); [lia|].
    exists c. split; [|split; [by econstructor|done]]. exists p2. rewrite (sm_bind_ok _ _ _ _ _ Hr). done. }
  destruct (N.ltb_spec (bi_slot x) (bi_slot y)) as [Hlt'|Hge'].
  { destruct (not_root_later y x Hy Hx Hlt') as [par Hpar].
    destruct (Hlift y par s Hp Hy Hpar) as (Hpv & Hh & p1 & Hr & Hp1).
    destruct (IH x par (set_block_tree p1 s) Hp1 Hx Hpv) as (c & (p2 & Hr' & Hp2) & Hc1 & Hc2); [lia|].
    exists c. split; [|split; [done|by econstructor]]. exists p2. rewrite (sm_bind_ok _ _ _ _ _ Hr). done. }
  assert (Hnr : ∀ u v, valid (ct_nodes t) u → valid (ct_nodes t) v → bi_slot u = bi_slot v →
    bi_hash u ≠ bi_hash v → ∃ par, parent_of (ct_nodes t) u = Some par).
  { intros u v Hu Hv Hs Hn. apply (parent_of_is_Some _ _ Hnw u Hu). intros ->. apply Hn.
    destruct (anc_slot _ _ Hnw _ _ Hv (anc_root _ _ Hnw _ Hv)) as [_ He]. by rewrite He. }
  destruct (Hnr x y Hx Hy ltac:(lia) Hne) as [px Hpx].
  destruct (Hnr y x Hy Hx ltac:(lia) ltac:(done)) as [py Hpy].
  destruct (Hlift x px s Hp Hx Hpx) as (Hxv & Hhx & p1 & Hr & Hp1).
  destruct (Hlift y py (set_block_tree p1 s) Hp1 Hy Hpy) as (Hyv & Hhy & p2 & Hr2 & Hp2).
  destruct (IH px py (set_block_tree p2 s) Hp2 Hxv Hyv) as (c & (p3 & Hr' & Hp3) & Hc1 & Hc2); [lia|].
  exists c. split; [|split; by econstructor]. exists p3.
  rewrite (sm_bind_ok _ _ _ _ _ Hr), (sm_bind_ok _ _ _ _ _ Hr2). done.
Qed.

Lemma common_ancestor_missing fuel c y s :
  at_fc s → a_header a (cp_root c) = None → bi_slot (ct_root t) ≤ cp_slot c →
  valid (ct_nodes t) y → (height (ct_nodes t) y < fuel)%nat →
  reads (common_ancestor fuel c (cp y)) s (Err (E_BlockStorage BS_HEADER_NOT_FOUND)).
Proof.
  intros Hp Hh Hroot. revert y s Hp. induction fuel as [|fuel IH]; intros y s Hp Hy Hf; [lia|]. simpl.
  destruct (N.eqb_spec (cp_root c) (bi_hash y)) as [Heq|Hne].
  { destruct (bw_headers _ _ Hwf y Hy) as (hd & Hh' & _). congruence. }
  destruct (N.ltb_spec (bi_slot y) (cp_slot c)) as [Hlt|Hge]; [by apply fc_bind_err, lift_one_missing|].
  destruct (N.ltb_spec (cp_slot c) (bi_slot y)) as [Hlt|Hge']; [|by apply fc_bind_err, lift_one_missing].
  destruct (parent_of_is_Some _ _ Hnw y Hy) as [par Hpar]; [intros ->; lia|].
  destruct (parent_of_valid _ _ Hnw _ _ Hy Hpar) as [Hpv _].
  pose proof (height_parent _ _ Hnw _ _ Hy Hpar).
  eapply fc_bind; [by apply lift_one_spec|]. intros p1 Hp1. apply IH; [done..|lia].
Qed.

(** ** updateHead *)
Lemma updateHead_prefix q s :
  at_fc s → anchors_agree s → ghost_anchor (bi_hash (ct_justified t)) q →
  (tree_fuel (ct_nodes t) ≤ loop_fuel)%nat → N.of_nat (size (fc_latest_known_attestations s)) < two64 →
  ∃ r p', at_state t g ev p' a ∧ valid (ct_nodes t) r ∧
    ghost (ct_nodes t) (support t (map_to_list (fc_latest_known_attestations s)).*2) 0 q r ∧
    updateHead s =
      ((if negb (cp_root (fc_head s) =? bi_hash r)
        then common_ancestor loop_fuel (fc_head s) (cp r) ≫= λ _, mret ()
        else mret ()) ≫= λ _, sm_modify (set_head (cp r))) (set_block_tree p' s).
Proof.
  intros Hp Hag Hanchor Hfuel Hsize.
  assert (R1 : reads getLatestJustified s (Ok (cp (ct_justified t)))) by (by apply fc_tree, bt_getLatestJustified_spec).
  destruct R1 as (p1 & R1 & Hp1).
  destruct (computeLmdGhostHead_spec _ q (fc_latest_known_attestations s) 0 (set_block_tree p1 s)
    Hp1 Hag Hanchor Hfuel Hsize) as (r & (p2 & R2 & Hp2) & Hg).
  assert (Hq : valid (ct_nodes t) q).
  { destruct Hanchor as [[_ Hf]|[_ ->]]; [by apply (find_valid _ _ _ Htw) in Hf as [? _]|by apply (valid_root _ _ Hnw)]. }
  destruct (ghost_anc _ _ _ _ _ _ Hnw Hq Hg) as [_ Hr].
  destruct (reads_block_slot (set_block_tree p2 s) r Hp2 Hag Hr) as (p3 & R3 & Hp3).
  exists r, p3. split; [done|]. split; [done|]. split; [done|]. unfold updateHead.
  rewrite (sm_bind_ok _ _ s s s) by done. rewrite (sm_bind_ok _ _ _ _ _ R1).
  cbn [cp_root BlockIndex_to_Checkpoint]. rewrite (sm_bind_ok _ _ _ _ _ R2), (sm_bind_ok _ _ _ _ _ R3). done.
Qed.

Lemma updateHead_spec q hn s :
  at_fc s → anchors_agree s → ghost_anchor (bi_hash (ct_justified t)) q →
  (2 * tree_fuel (ct_nodes t) ≤ loop_fuel)%nat → N.of_nat (size (fc_latest_known_attestations s)) < two64 →
  valid (ct_nodes t) hn → fc_head s = cp hn →
  ∃ r p', updateHead s = (Ok (), set_head (cp r) (set_block_tree p' s)) ∧ at_state t g ev p' a ∧
    ghost (ct_nodes t) (support t (map_to_list (fc_latest_known_attestations s)).*2) 0 q r.
Proof.
  intros Hp Hag Hanchor Hfuel Hsize Hhn Hhead.
  destruct (updateHead_prefix q s Hp Hag Hanchor ltac:(lia) Hsize) as (r & p1 & Hp1 & Hr & Hg & Hrun).
  exists r. rewrite Hrun, Hhead. cbn [cp_root BlockIndex_to_Checkpoint].
  destruct (N.eqb_spec (bi_hash hn) (bi_hash r)) as [He|He]; simpl.
  - by exists p1.
  - destruct (common_ancestor_spec loop_fuel hn r (set_block_tree p1 s) Hp1 Hhn Hr) as (c & (p2 & R & Hp2) & _).
    { pose proof (height_fuel (ct_nodes t) hn). pose proof (height_fuel (ct_nodes t) r). lia. }
    exists p2. split; [|done]. unfold mbind, sm_bind. by rewrite R.
Qed.

Lemma updateHead_pruned_spec q s :
  at_fc s → anchors_agree s → ghost_anchor (bi_hash (ct_justified t)) q →
  (tree_fuel (ct_nodes t) ≤ loop_fuel)%nat → N.of_nat (size (fc_latest_known_attestations s)) < two64 →
  a_header a (cp_root (fc_head s)) = None → bi_slot (ct_root t) ≤ cp_slot (fc_head s) →
  reads updateHead s (Err (E_BlockStorage BS_HEADER_NOT_FOUND)).
Proof.
  intros Hp Hag Hanchor Hfuel Hsize Hh Hroot.
  destruct (updateHead_prefix q s Hp Hag Hanchor Hfuel Hsize) as (r & p1 & Hp1 & Hr & Hg & Hrun).
  destruct (common_ancestor_missing loop_fuel (fc_head s) r (set_block_tree p1 s) Hp1 Hh Hroot Hr) as (p2 & R & Hp2).
  { pose proof (height_fuel (ct_nodes t) r). lia. }
  exists p2. split; [|done]. rewrite Hrun.
  destruct (N.eqb_spec (cp_root (fc_head s)) (bi_hash r)) as [He|He]; simpl.
  - destruct (bw_headers _ _ Hwf r Hr) as (hd & Hh' & _). congruence.
  - unfold mbind, sm_bind. by rewrite R.
Qed.
End ghost_proofs.
