(* ===== verification/ForkChoiceVotes.v ===== *)
(** * ForkChoiceStore: attestations, targets and aggregation *)

From S2P Require Import Prelude Errors Types Justifiable Stf StfProofs CachedTree CachedTreeProofs.
From S2P Require Import CachedTreeFinalize CachedTreeTheorems BlockStorage BlockStorageSpec.
From S2P Require Import BlockTree BlockTreeProofs LruCache ForkChoice ForkChoiceProofs ForkChoiceGhost.

(** ** Bookkeeping of signatures and proofs *)

(** [i] takes part in some collected proof. *)
Definition covered (e : AttestationsByData) (i : ValidatorIndex) : Prop :=
  ∃ proof, proof ∈ abd_proofs e ∧ Bits.contains (asp_participants proof) i = true.
(** [i] attested: by a single signature or within a proof. *)
Definition attested (e : AttestationsByData) (i : ValidatorIndex) : Prop :=
  is_Some (abd_signatures e !! i) ∨ covered e i.
(** Signatures are only kept for validators that no proof covers. *)
Definition disjoint_entry (e : AttestationsByData) : Prop :=
  ∀ i, is_Some (abd_signatures e !! i) → ¬ covered e i.

Lemma contains_foldl_add b l i :
  Bits.contains (foldl Bits.add b l) i = true ↔ Bits.contains b i = true ∨ i ∈ l.
Proof.
  revert b. induction l as [|j l IH]; intros b; simpl; [set_solver|].
  rewrite IH, BitsFacts.contains_add, orb_true_iff, N.eqb_eq, elem_of_cons. naive_solver.
Qed.

Lemma contains_empty i : Bits.contains (mkAggregationBits []) i = false.
Proof. done. Qed.

(** The union of the participants of some proofs. *)
Lemma contains_union proofs i :
  Bits.contains (foldl Bits.add (mkAggregationBits []) (proofs ≫= λ p, Bits.iter (asp_participants p))) i = true ↔
  ∃ p, p ∈ proofs ∧ Bits.contains (asp_participants p) i = true.
Proof.
  rewrite contains_foldl_add, contains_empty, list_elem_of_bind.
  setoid_rewrite BitsFacts.elem_of_iter. naive_solver.
Qed.

Lemma foldl_delete_lookup {V} (m : gmap N V) l i :
  foldl (λ m i, delete i m) m l !! i = if decide (i ∈ l) then None else m !! i.
Proof.
  revert m. induction l as [|j l IH]; intros m; simpl; [done|]. rewrite IH.
  destruct (decide (i ∈ l)) as [Hin|Hin]; [rewrite decide_True by (by right); done|].
  destruct (decide (i = j)) as [->|Hne].
  - rewrite decide_True by (by left). apply lookup_delete_eq.
  - rewrite decide_False by (by intros [?|?]%elem_of_cons). by apply lookup_delete_ne.
Qed.

(** The proofs kept next to a new one: those that are not strictly below it. *)
Definition kept_proofs (p : AggregatedSignatureProof) (e : AttestationsByData)
    : list AggregatedSignatureProof :=
  filter (λ proof,
    existsb (λ i, negb (Bits.contains (asp_participants p) i)) (Bits.iter (asp_participants proof))
    || forallb (λ i, Bits.contains (asp_participants proof) i) (Bits.iter (asp_participants p)) = true)
    (abd_proofs e).

Lemma kept_or_below p e q :
  q ∈ abd_proofs e →
  q ∈ kept_proofs p e ∨
  (∀ i, Bits.contains (asp_participants q) i = true → Bits.contains (asp_participants p) i = true).
Proof.
  intros Hq. unfold kept_proofs. destruct (existsb (λ i, negb (Bits.contains (asp_participants p) i))
    (Bits.iter (asp_participants q))) eqn:He.
  - left. apply list_elem_of_filter. by rewrite He.
  - right. intros i Hi. destruct (Bits.contains (asp_participants p) i) eqn:Hp; [done|].
    exfalso. enough (false = true) by done. rewrite <- He. apply existsb_exists. exists i.
    rewrite Hp. split; [|done]. by apply list_elem_of_In, BitsFacts.elem_of_iter.
Qed.

Lemma kept_in p e q : q ∈ kept_proofs p e → q ∈ abd_proofs e.
Proof. by intros [_ ?]%list_elem_of_filter. Qed.

(** Either the kept proofs cover the new one already, or it is added. *)
Lemma add_proof_cases p e :
  ((∀ i, Bits.contains (asp_participants p) i = true →
      ∃ q, q ∈ kept_proofs p e ∧ Bits.contains (asp_participants q) i = true) ∧
   add_proof p e = mkAttestationsByData (abd_data e) (abd_signatures e) (kept_proofs p e)) ∨
  add_proof p e = mkAttestationsByData (abd_data e)
    (foldl (λ m i, delete i m) (abd_signatures e) (Bits.iter (asp_participants p)))
    (kept_proofs p e ++ [p]).
Proof.
  unfold add_proof. fold (kept_proofs p e). case_match eqn:Hall; [left|by right]. split; [|done].
  intros i Hi. apply contains_union. rewrite forallb_forall in Hall. apply Hall.
  by apply list_elem_of_In, BitsFacts.elem_of_iter.
Qed.

Lemma add_proof_covered p e i :
  covered (add_proof p e) i ↔ covered e i ∨ Bits.contains (asp_participants p) i = true.
Proof.
  destruct (add_proof_cases p e) as [[Hall ->]| ->]; unfold covered; cbn [abd_proofs].
  - split.
    + intros (q & Hq & Hi). left. exists q. split; [by eapply kept_in|done].
    + intros [(q & Hq & Hi)|Hi]; [|by apply Hall].
      destruct (kept_or_below p e q Hq) as [Hk|Hb]; [by exists q|]. by apply Hall, Hb.
  - setoid_rewrite elem_of_app. setoid_rewrite list_elem_of_singleton. split.
    + intros (q & [Hq| ->] & Hi); [left; exists q; split; [by eapply kept_in|done]|by right].
    + intros [(q & Hq & Hi)|Hi]; [|exists p; naive_solver].
      destruct (kept_or_below p e q Hq) as [Hk|Hb]; [exists q; naive_solver|]. exists p. naive_solver.
Qed.

Lemma add_proof_signatures p e i :
  disjoint_entry e →
  is_Some (abd_signatures (add_proof p e) !! i) ↔
    is_Some (abd_signatures e !! i) ∧ Bits.contains (asp_participants p) i = false.
Proof.
  intros Hd. destruct (add_proof_cases p e) as [[Hall ->]| ->]; cbn [abd_signatures].
  - split; [|naive_solver]. intros Hs. split; [done|]. apply not_true_is_false. intros Hi.
    destruct (Hall i Hi) as (q & Hq & Hqi). apply (Hd i Hs). exists q. split; [by eapply kept_in|done].
  - rewrite foldl_delete_lookup. case_decide as Hin; rewrite BitsFacts.elem_of_iter in Hin.
    + split; [by intros [? ?]|]. intros [_ Hf]. congruence.
    + apply not_true_is_false in Hin. naive_solver.
Qed.

Lemma add_proof_disjoint p e : disjoint_entry e → disjoint_entry (add_proof p e).
Proof.
  intros Hd i [Hs Hf]%add_proof_signatures Hc; [|done]. apply add_proof_covered in Hc as [Hc|Hc].
  - by apply (Hd i).
  - congruence.
Qed.

Lemma add_proof_attested p e i :
  disjoint_entry e →
  attested (add_proof p e) i ↔ attested e i ∨ Bits.contains (asp_participants p) i = true.
Proof.
  intros Hd. unfold attested. rewrite add_proof_signatures, add_proof_covered by done.
  destruct (Bits.contains (asp_participants p) i); naive_solver.
Qed.

(** The participants of an aggregate are the validators that attested. *)
Lemma aggregate_entry_participants `{!SszHash} `{!XmssProvider} state e saa i :
  aggregate_entry state e = Ok saa →
  saa_data saa = abd_data e ∧ (Bits.contains (asp_participants (saa_proof saa)) i = true ↔ attested e i).
Proof.
  unfold aggregate_entry. intros Ha. outcome_inv Ha. split; [done|]. cbn [saa_proof asp_participants].
  rewrite contains_foldl_add, contains_empty, elem_of_app, list_elem_of_bind. unfold attested, covered.
  setoid_rewrite BitsFacts.elem_of_iter.
  assert (i ∈ (signatures_in_order (abd_signatures e)).*1 ↔ is_Some (abd_signatures e !! i)) as ->.
  { unfold signatures_in_order. rewrite list_elem_of_fmap. split.
    - intros ([j sg] & -> & Hin). exists sg. by apply StfWindow.elem_of_map_ordered in Hin.
    - intros [sg Hsg]. exists (i, sg). split; [done|]. by apply StfWindow.elem_of_map_ordered. }
  naive_solver.
Qed.

Section votes.
Context {S : Type} `{!SszHash} `{!BlockStorage S} `{!BlockStorageLaws S} `{!BuildMode} `{!UnorderedMap}.
Context `{!XmssProvider} `{!NodeKeys} `{!LoopFuel}.
Implicit Types s : ForkChoiceStore S.

(** ** Computations that only touch the block tree *)
Definition tree_only {A} (m : SM (ForkChoiceStore S) error A) : Prop :=
  ∀ s, ∃ r p, m s = (r, set_block_tree p s).

Lemma tree_only_ret {A} (r : outcome error A) : tree_only (λ s, (r, s)).
Proof. intros s. exists r, (fc_block_tree s). by rewrite set_block_tree_same. Qed.
Lemma tree_only_bind {A B} (m : SM (ForkChoiceStore S) error A) (f : A → SM (ForkChoiceStore S) error B) :
  tree_only m → (∀ x, tree_only (f x)) → tree_only (m ≫= f).
Proof.
  intros Hm Hf s. destruct (Hm s) as (r & p & Hr). unfold mbind, sm_bind. rewrite Hr.
  destruct r as [x| |]; [|by eexists _, _..].
  destruct (Hf x (set_block_tree p s)) as (r' & p' & Hr'). rewrite Hr'. by exists r', p'.
Qed.
Lemma tree_only_get : tree_only sm_get.
Proof. intros s. exists (Ok s), (fc_block_tree s). by rewrite set_block_tree_same. Qed.
Lemma tree_only_tree {A} (m : SM (BlockTreeData S) error A) : tree_only (block_tree m).
Proof. intros s. unfold block_tree. destruct (m (fc_block_tree s)) as [r p]. by exists r, p. Qed.
Lemma tree_only_try {A} (m : SM (ForkChoiceStore S) error A) : tree_only m → tree_only (sm_try m).
Proof.
  intros Hm s. destruct (Hm s) as (r & p & Hr). unfold sm_try. rewrite Hr. destruct r; by eexists _, _.
Qed.
End votes.

Ltac tree_only :=
  repeat first
    [ apply tree_only_get | apply tree_only_tree | apply tree_only_try | assumption
    | apply (tree_only_ret (Ok _)) | apply (tree_only_ret (Err _)) | apply (tree_only_ret (Throw _))
    | apply tree_only_bind; [|intro] | case_match ].

Section votes2.
Context {S : Type} `{!SszHash} `{!BlockStorage S} `{!BlockStorageLaws S} `{!BuildMode} `{!UnorderedMap}.
Context `{!XmssProvider} `{!NodeKeys} `{!LoopFuel}.
Implicit Types s : ForkChoiceStore S.

Lemma tree_only_getBlockSlot h : tree_only (getBlockSlot (S := S) h).
Proof. unfold getBlockSlot. tree_only. Qed.
Lemma tree_only_add_weights fuel start h w : tree_only (add_weights (S := S) fuel start h w).
Proof. revert h w. induction fuel as [|fuel IH]; intros h w; simpl; tree_only. apply IH. Qed.
Lemma tree_only_collect start votes w : tree_only (collect_weights (S := S) start votes w).
Proof.
  revert w. induction votes as [|v votes IH]; intros w; simpl; tree_only; [apply tree_only_add_weights|apply IH].
Qed.
Lemma tree_only_walk fuel min_score w h : tree_only (ghost_walk (S := S) fuel min_score w h).
Proof. revert h. induction fuel as [|fuel IH]; intros h; simpl; tree_only; apply IH. Qed.
Lemma tree_only_ghost root atts min_score : tree_only (computeLmdGhostHead (S := S) root atts min_score).
Proof.
  unfold computeLmdGhostHead. tree_only; try apply tree_only_getBlockSlot; try apply tree_only_collect.
  apply tree_only_walk.
Qed.
Lemma tree_only_lift c : tree_only (lift_one (S := S) c).
Proof. unfold lift_one. tree_only. Qed.
Lemma tree_only_common fuel x y : tree_only (common_ancestor (S := S) fuel x y).
Proof.
  revert x y. induction fuel as [|fuel IH]; intros x y; simpl; tree_only; try apply tree_only_lift; apply IH.
Qed.
Lemma tree_only_validate att : tree_only (validateAttestation (S := S) att).
Proof. unfold validateAttestation, has_block, slot_differs, getBlockSlot. tree_only. Qed.

(** updateHead changes at most the head. *)
Lemma updateHead_fields s :
  ∃ r p h, updateHead s = (r, set_head h (set_block_tree p s)) ∧ (r ≠ Ok () → h = fc_head s).
Proof.
  unfold updateHead. rewrite (sm_bind_ok _ _ s s s) by done.
  assert (Hpre : ∀ A (m : SM (ForkChoiceStore S) error A) (f : A → SM (ForkChoiceStore S) error ()) s0 p0,
    tree_only m → s0 = set_block_tree p0 s →
    (∀ x p, ∃ r p' h, f x (set_block_tree p s) = (r, set_head h (set_block_tree p' s)) ∧ (r ≠ Ok () → h = fc_head s)) →
    ∃ r p' h, (m ≫= f) s0 = (r, set_head h (set_block_tree p' s)) ∧ (r ≠ Ok () → h = fc_head s)).
  { intros A m f s0 p0 Hm -> Hf. destruct (Hm (set_block_tree p0 s)) as (r & p & Hr).
    unfold mbind, sm_bind. rewrite Hr. destruct r as [x|e|x]; [apply Hf| |].
    all: eexists _, p, (fc_head s); split; [by destruct s|done]. }
  eapply (Hpre _ _ _ s (fc_block_tree s)); [apply tree_only_tree|by rewrite set_block_tree_same|]. intros j p1.
  eapply Hpre; [apply tree_only_ghost|done|]. intros root p2.
  eapply Hpre; [apply tree_only_getBlockSlot|done|]. intros slot p3.
  eapply Hpre; [tree_only; apply tree_only_common|done|]. intros [] p4.
  by eexists _, p4, _.
Qed.

(** acceptNewAttestations replaces the known votes by the new ones. *)
Lemma foldl_insert_iteration (known new : AttestationDataByValidator) :
  foldl (λ known '(validator, attestation), <[validator := attestation]> known) known (iteration new) = new ∪ known.
Proof.
  assert (Hgen : ∀ l known, NoDup l.*1 →
    foldl (λ known '(validator, attestation), <[validator := attestation]> known) known l =
    (list_to_map l : AttestationDataByValidator) ∪ known).
  { clear. induction l as [|[k v] l IH]; intros known Hnd; simpl; [by rewrite map_empty_union|].
    apply NoDup_cons in Hnd as [Hk Hnd]. rewrite IH by done.
    rewrite <- insert_union_r by (by apply not_elem_of_list_to_map_1). by rewrite insert_union_l. }
  pose proof (iteration_perm new) as Hperm.
  assert (Hnd : NoDup (iteration new).*1) by (rewrite Hperm; apply NoDup_fst_map_to_list).
  rewrite Hgen by done. f_equal.
  rewrite (list_to_map_proper _ (map_to_list new)) by done. apply list_to_map_to_list.
Qed.

Lemma acceptNewAttestations_fields s :
  ∃ r s', acceptNewAttestations s = (r, s') ∧
    fc_latest_known_attestations s' = fc_latest_new_attestations s ∪ fc_latest_known_attestations s ∧
    fc_latest_new_attestations s' = ∅.
Proof.
  unfold acceptNewAttestations. erewrite sm_bind_ok by done.
  match goal with |- context [updateHead ?x] => destruct (updateHead_fields x) as (r & p & h & Hr & _) end.
  eexists r, _. split; [exact Hr|]. split; [|done]. apply foldl_insert_iteration.
Qed.
End votes2.

Section validation.
Context {S : Type} `{!SszHash} `{!BlockStorage S} `{!BlockStorageLaws S} `{!BuildMode} `{!UnorderedMap}.
Context `{!XmssProvider} `{!NodeKeys} `{!LoopFuel}.
Context (t : CachedTree) (g : option BlockHash) (ev : list Event) (a : Abs).
Implicit Types s : ForkChoiceStore S.
Local Abbreviation at_fc s := (at_state t g ev (fc_block_tree s) a).
Local Abbreviation reads m s r := (fc_reads m s r t g ev a).

(** ** Validation *)

(** The store knows a block: from the anchor's history, the tree or the storage. *)
Definition known_block s (h : BlockHash) : Prop :=
  is_Some (fc_anchor_block_slots s !! h) ∨ is_Some (ct_nodes t !! h) ∨ is_Some (a_header a h).

(** The slot the store gives a block. *)
Definition block_slot s (h : BlockHash) : option Slot :=
  match fc_anchor_block_slots s !! h with
  | Some slot => Some slot
  | None =>
      match find t h with
      | Some n => Some (bi_slot n)
      | None => bh_slot <$> a_header a h
      end
  end.

(** The checks of validateAttestation after the blocks are found. *)
Definition consistent_attestation s (data : AttestationData) : Prop :=
  cp_slot (ad_source data) ≤ cp_slot (ad_target data) ∧
  cp_slot (ad_target data) ≤ cp_slot (ad_head data) ∧
  block_slot s (cp_root (ad_source data)) = Some (cp_slot (ad_source data)) ∧
  block_slot s (cp_root (ad_target data)) = Some (cp_slot (ad_target data)) ∧
  ad_slot data ≤ u64_add (getCurrentSlot s) 1.

Lemma has_block_spec s h :
  at_fc s → ∃ b, reads (has_block h) s (Ok b) ∧ (b = true ↔ known_block s h).
Proof.
  intros Hp. unfold known_block. destruct (fc_anchor_block_slots s !! h) as [slot|] eqn:Hs.
  - exists true. split; [|split; [by left; eauto|done]]. eapply fc_bind; [by apply fc_get|].
    intros p1 Hp1. rewrite Hs. by apply fc_ret.
  - eexists. split.
    + eapply fc_bind; [by apply fc_get|]. intros p1 Hp1. rewrite Hs.
      by apply fc_tree, bt_has_spec.
    + rewrite orb_true_iff, !bool_decide_eq_true. split; [by right|].
      intros [[? [=]]|?]. done.
Qed.

Lemma getBlockSlot_spec s h :
  at_fc s →
  reads (getBlockSlot h) s
    (match block_slot s h with Some x => Ok x | None => Err (E_BlockStorage BS_HEADER_NOT_FOUND) end).
Proof.
  intros Hp. unfold getBlockSlot, block_slot. eapply fc_bind; [by apply fc_get|]. intros p1 Hp1.
  destruct (fc_anchor_block_slots s !! h) as [slot|]; [by apply fc_ret|]. apply fc_tree.
  destruct (find t h) as [n|] eqn:Hf; [by apply bt_getSlotByHash_node|].
  eapply bt_bind; [by apply bt_get_tree|]. intros p2 Hp2. rewrite Hf.
  pose proof (bt_getBlockHeader_spec t g ev a h _ Hp2) as Hh.
  destruct (a_header a h); simpl; [|by apply bt_bind_err].
  eapply bt_bind; [exact Hh|]. intros p3 Hp3. by apply bt_ret.
Qed.

Lemma slot_differs_spec s c :
  at_fc s → ∃ b, reads (slot_differs c) s (Ok b) ∧ (b = false ↔ block_slot s (cp_root c) = Some (cp_slot c)).
Proof.
  intros Hp. pose proof (fc_try _ _ _ _ _ _ _ (getBlockSlot_spec s (cp_root c) Hp)) as Hr. unfold slot_differs.
  destruct (block_slot s (cp_root c)) as [slot|].
  - exists (negb (slot =? cp_slot c)). split.
    + eapply fc_bind; [exact Hr|]. intros p1 Hp1. by apply fc_ret.
    + rewrite negb_false_iff, N.eqb_eq. split; [by intros ->|by intros [= ->]].
  - exists true. split; [|done]. eapply fc_bind; [exact Hr|]. intros p1 Hp1. by apply fc_ret.
Qed.

(** [m] reads and returns some [r] with [Q r]. *)
Definition reads_post {A} (m : SM (ForkChoiceStore S) error A) s (Q : outcome error A → Prop) : Prop :=
  ∃ r, reads m s r ∧ Q r.

Lemma post_bind {A B} (P : A → Prop) (m : SM (ForkChoiceStore S) error A)
    (f : A → SM (ForkChoiceStore S) error B) s Q :
  (∃ b, reads m s (Ok b) ∧ P b) →
  (∀ b p', P b → at_state t g ev p' a → reads_post (f b) (set_block_tree p' s) Q) →
  reads_post (m ≫= f) s Q.
Proof.
  intros (b & (p1 & Hm & Hp1) & HP) Hf. destruct (Hf b p1 HP Hp1) as (r & (p2 & Hr & Hp2) & HQ).
  exists r. split; [|done]. exists p2. by rewrite (sm_bind_ok _ _ _ _ _ Hm).
Qed.
Lemma post_ret {A} (r : outcome error A) s (Q : outcome error A → Prop) :
  at_fc s → Q r → reads_post (λ s, (r, s)) s Q.
Proof. intros Hp HQ. exists r. split; [|done]. exists (fc_block_tree s). by rewrite set_block_tree_same. Qed.

(** The outcome of validateAttestation, by the first failing check. *)
Lemma validateAttestation_spec s att :
  at_fc s →
  let data := at_data att in
  let ks := known_block s (cp_root (ad_source data)) in
  let kt := known_block s (cp_root (ad_target data)) in
  let kh := known_block s (cp_root (ad_head data)) in
  reads_post (validateAttestation att) s (λ r,
    (¬ ks ∧ r = Err (E_ForkChoice CANT_VALIDATE_ATTESTATION_SOURCE_NOT_FOUND)) ∨
    (ks ∧ ¬ kt ∧ r = Err (E_ForkChoice CANT_VALIDATE_ATTESTATION_TARGET_NOT_FOUND)) ∨
    (ks ∧ kt ∧ ¬ kh ∧ r = Err (E_ForkChoice CANT_VALIDATE_ATTESTATION_HEAD_NOT_FOUND)) ∨
    (ks ∧ kt ∧ kh ∧ ¬ consistent_attestation s data ∧ r = Err (E_ForkChoice INVALID_ATTESTATION)) ∨
    (ks ∧ kt ∧ kh ∧ consistent_attestation s data ∧ r = Ok ())).
Proof.
  intros Hp data ks kt kh. unfold validateAttestation, consistent_attestation. fold data.
  eapply post_bind; [by apply has_block_spec|]. intros b1 p1 Hb1 Hp1. fold ks in Hb1.
  destruct b1; simpl; [|apply post_ret; [done|]; naive_solver]. apply proj1 in Hb1. specialize (Hb1 eq_refl).
  eapply post_bind; [by apply has_block_spec|]. intros b2 p2 Hb2 Hp2. change (b2 = true ↔ kt) in Hb2.
  destruct b2; simpl; [|apply post_ret; [done|]; naive_solver]. apply proj1 in Hb2. specialize (Hb2 eq_refl).
  eapply post_bind; [by apply has_block_spec|]. intros b3 p3 Hb3 Hp3. change (b3 = true ↔ kh) in Hb3.
  destruct b3; simpl; [|apply post_ret; [done|]; naive_solver]. apply proj1 in Hb3. specialize (Hb3 eq_refl).
  destruct (N.ltb_spec (cp_slot (ad_target data)) (cp_slot (ad_source data))).
  { apply post_ret; [done|]. do 3 right. left. split_and!; [done..|lia|done]. }
  destruct (N.ltb_spec (cp_slot (ad_head data)) (cp_slot (ad_target data))).
  { apply post_ret; [done|]. do 3 right. left. split_and!; [done..|lia|done]. }
  eapply post_bind; [by apply slot_differs_spec|]. intros b4 p4 Hb4 Hp4.
  change (b4 = false ↔ block_slot s (cp_root (ad_source data)) = Some (cp_slot (ad_source data))) in Hb4.
  destruct b4; [apply post_ret; [done|]; naive_solver|].
  eapply post_bind; [by apply slot_differs_spec|]. intros b5 p5 Hb5 Hp5.
  change (b5 = false ↔ block_slot s (cp_root (ad_target data)) = Some (cp_slot (ad_target data))) in Hb5.
  destruct b5; [apply post_ret; [done|]; naive_solver|].
  eapply (post_bind (λ s', s' = set_block_tree p5 s)); [eexists; split; [by apply fc_get|done]|].
  intros s' p6 -> Hp6. change (getCurrentSlot (set_block_tree p5 s)) with (getCurrentSlot s).
  destruct (N.ltb_spec (u64_add (getCurrentSlot s) 1) (ad_slot data)).
  { apply post_ret; [done|]. do 3 right. left. split_and!; [done..|lia|done]. }
  apply post_ret; [done|]. do 4 right. split_and!; [done..|by apply Hb4|by apply Hb5|done|done].
Qed.
End validation.

(** ** The attestation target *)
Lemma isJustifiableSlot_ok `{BuildMode} fin cand :
  fin ≤ cand → ∃ b, isJustifiableSlot fin cand = Ok b.
Proof.
  intros Hle. unfold isJustifiableSlot. rewrite (proj2 (N.leb_le _ _) Hle), boost_assert_true. simpl. eauto.
Qed.

Section target.
Context {S : Type} `{!SszHash} `{!BlockStorage S} `{!BlockStorageLaws S} `{!BuildMode} `{!UnorderedMap}.
Context `{!XmssProvider} `{!NodeKeys} `{!LoopFuel}.
Context (t : CachedTree) (g : option BlockHash) (ev : list Event) (a : Abs) (Hwf : bt_wf t a).
Implicit Types s : ForkChoiceStore S.
Local Abbreviation at_fc s := (at_state t g ev (fc_block_tree s) a).
Local Abbreviation reads m s r := (fc_reads m s r t g ev a).
Local Abbreviation cp n := (BlockIndex_to_Checkpoint n).
Let Htw : tree_wf t := bw_tree _ _ Hwf.
Let Hnw : nodes_wf (ct_root t) (ct_nodes t) := tw_nodes _ Htw.

Lemma slot_and_parent_spec head n s :
  at_fc s → valid (ct_nodes t) n →
  ∃ parent, reads (get_slot_and_parent head None (bi_hash n)) s (Ok (bi_slot n, parent)) ∧
    ∀ par, parent_of (ct_nodes t) n = Some par → parent = bi_hash par.
Proof.
  intros Hp Hn. destruct (bw_headers _ _ Hwf n Hn) as (hd & Hh & Hslot & Hpr).
  exists (bh_parent_root hd). split; [|done]. unfold get_slot_and_parent.
  pose proof (bt_getBlockHeader_spec t g ev a (bi_hash n) _ Hp) as Hg. rewrite Hh in Hg.
  eapply fc_bind; [exact (fc_try _ _ _ _ _ _ _ (fc_tree _ s _ _ _ _ _ Hg))|]. intros p1 Hp1.
  cbv beta iota. rewrite Hslot. by apply fc_ret.
Qed.

(** The first loop goes back over at most [steps] blocks later than the limit. *)
Lemma walk_to_safe_spec head limit steps n s :
  at_fc s → valid (ct_nodes t) n → bi_slot (ct_root t) ≤ limit →
  ∃ m l, reads (walk_to_safe steps (get_slot_and_parent head None) limit (bi_hash n)) s (Ok (bi_hash m)) ∧
    valid (ct_nodes t) m ∧ up (ct_nodes t) m n l ∧ (length l ≤ steps)%nat ∧
    (∀ x, x ∈ l → limit < bi_slot x) ∧ (bi_slot m ≤ limit ∨ length l = steps).
Proof.
  intros Hp Hn Hlim. revert n s Hp Hn. induction steps as [|steps IH]; intros n s Hp Hn; simpl.
  { exists n, []. split; [by apply fc_ret|]. split; [done|]. split; [constructor|]. split; [done|].
    split; [set_solver|by right]. }
  destruct (slot_and_parent_spec head n s Hp Hn) as (parent & (p1 & R1 & Hp1) & Hpar).
  destruct (N.ltb_spec limit (bi_slot n)) as [Hlt|Hge].
  - destruct (parent_of_is_Some _ _ Hnw n Hn) as [par Hpar']; [intros ->; lia|].
    destruct (parent_of_valid _ _ Hnw _ _ Hn Hpar') as [Hpv _]. rewrite (Hpar par Hpar') in R1.
    destruct (IH par (set_block_tree p1 s) Hp1 Hpv) as (m & l & (p2 & R2 & Hp2) & Hm & Hup & Hlen & Hl & Hor).
    exists m, (n :: l). split.
    + exists p2. rewrite (sm_bind_ok _ _ _ _ _ R1). simpl. rewrite (proj2 (N.ltb_lt _ _) Hlt). done.
    + split; [done|]. split; [by econstructor|]. simpl. split; [lia|]. split; [set_solver|]. lia.
  - exists n, []. split.
    + exists p1. rewrite (sm_bind_ok _ _ _ _ _ R1). simpl. rewrite (proj2 (N.ltb_ge _ _) Hge). done.
    + split; [done|]. split; [constructor|]. simpl. split; [lia|]. split; [set_solver|by left].
Qed.

(** The second loop stops at the nearest ancestor with a justifiable slot. *)
Lemma walk_to_justifiable_spec head fuel n s :
  at_fc s → valid (ct_nodes t) n → (height (ct_nodes t) n < fuel)%nat →
  ∃ m l, reads (walk_to_justifiable fuel (get_slot_and_parent head None) (bi_slot (ct_root t)) (bi_hash n)) s
      (Ok (bi_hash m)) ∧
    valid (ct_nodes t) m ∧ up (ct_nodes t) m n l ∧
    isJustifiableSlot (bi_slot (ct_root t)) (bi_slot m) = Ok true ∧
    (∀ x, x ∈ l → isJustifiableSlot (bi_slot (ct_root t)) (bi_slot x) = Ok false).
Proof.
  revert n s. induction fuel as [|fuel IH]; intros n s Hp Hn Hf; [lia|]. simpl.
  destruct (slot_and_parent_spec head n s Hp Hn) as (parent & (p1 & R1 & Hp1) & Hpar).
  destruct (anc_slot _ _ Hnw _ _ Hn (anc_root _ _ Hnw _ Hn)) as [Hle _].
  destruct (isJustifiableSlot_ok _ _ Hle) as [b Hb]. destruct b.
  - exists n, []. split.
    + exists p1. rewrite (sm_bind_ok _ _ _ _ _ R1). simpl. rewrite Hb. done.
    + split; [done|]. split; [constructor|]. split; [done|set_solver].
  - destruct (parent_of_is_Some _ _ Hnw n Hn) as [par Hpar'].
    { intros ->. by rewrite isJustifiableSlot_same in Hb. }
    destruct (parent_of_valid _ _ Hnw _ _ Hn Hpar') as [Hpv _]. rewrite (Hpar par Hpar') in R1.
    pose proof (height_parent _ _ Hnw _ _ Hn Hpar').
    destruct (IH par (set_block_tree p1 s) Hp1 Hpv) as (m & l & (p2 & R2 & Hp2) & Hm & Hup & Hj & Hl); [lia|].
    exists m, (n :: l). split.
    + exists p2. rewrite (sm_bind_ok _ _ _ _ _ R1). simpl. rewrite Hb. done.
    + split; [done|]. split; [by econstructor|]. split; [done|set_solver].
Qed.

Lemma getAttestationTarget_spec justified hn s :
  at_fc s → valid (ct_nodes t) hn → bi_slot (ct_root t) ≤ cp_slot justified →
  (tree_fuel (ct_nodes t) ≤ loop_fuel)%nat →
  let limit := N.max (cp_slot (fc_safe_target s)) (cp_slot justified) in
  ∃ m m1 l1 l2, reads (getAttestationTarget justified (cp hn) None) s (Ok (cp m)) ∧
    valid (ct_nodes t) m ∧
    up (ct_nodes t) m1 hn l1 ∧ lengthN l1 ≤ JUSTIFICATION_LOOKBACK_SLOTS ∧
    (∀ x, x ∈ l1 → limit < bi_slot x) ∧ (bi_slot m1 ≤ limit ∨ lengthN l1 = JUSTIFICATION_LOOKBACK_SLOTS) ∧
    up (ct_nodes t) m m1 l2 ∧
    isJustifiableSlot (bi_slot (ct_root t)) (bi_slot m) = Ok true ∧
    (∀ x, x ∈ l2 → isJustifiableSlot (bi_slot (ct_root t)) (bi_slot x) = Ok false).
Proof.
  intros Hp Hhn Hroot Hfuel limit. unfold getAttestationTarget.
  destruct (walk_to_safe_spec (cp hn) limit (N.to_nat JUSTIFICATION_LOOKBACK_SLOTS) hn s Hp Hhn)
    as (m1 & l1 & (p1 & R1 & Hp1) & Hm1 & Hu1 & Hlen & Hl1 & Hor); [lia|].
  destruct (fc_tree _ (set_block_tree p1 s) _ _ _ _ _ (bt_lastFinalized_spec t g ev a _ Hp1)) as (p2 & R2 & Hp2).
  destruct (walk_to_justifiable_spec (cp hn) loop_fuel m1 (set_block_tree p2 s) Hp2 Hm1)
    as (m & l2 & (p3 & R3 & Hp3) & Hm & Hu2 & Hj & Hl2).
  { pose proof (height_fuel (ct_nodes t) m1). lia. }
  destruct (slot_and_parent_spec (cp hn) m (set_block_tree p3 s) Hp3 Hm) as (par & (p4 & R4 & Hp4) & _).
  exists m, m1, l1, l2. split.
  - exists p4. split; [|done]. rewrite (sm_bind_ok _ _ s s s) by done.
    rewrite (sm_bind_ok _ _ _ _ _ R1), (sm_bind_ok _ _ _ _ _ R2), (sm_bind_ok _ _ _ _ _ R3),
      (sm_bind_ok _ _ _ _ _ R4). done.
  - unfold lengthN. split_and!; try done; [lia|]. destruct Hor as [?|Hor]; [by left|right; lia].
Qed.
End target.
