(* ===== verification/ForkChoiceBlocks.v ===== *)
(** * ForkChoiceStore: blocks and ticks *)

From S2P Require Import Prelude Errors Types Justifiable Stf CachedTree CachedTreeProofs.
From S2P Require Import CachedTreeFinalize CachedTreeTheorems BlockStorage BlockStorageSpec.
From S2P Require Import BlockTree BlockTreeProofs LruCache LruProofs ForkChoice ForkChoiceProofs.

(** ** The frame: what no operation but the tick itself changes *)
Record frame {S} (s s' : ForkChoiceStore S) : Prop := {
  fr_time : fc_time s' = fc_time s;
  fr_config : fc_config s' = fc_config s;
  fr_validator_id : fc_validator_id s' = fc_validator_id s;
  fr_is_aggregator : fc_is_aggregator s' = fc_is_aggregator s;
  fr_subnet_count : fc_subnet_count s' = fc_subnet_count s;
  fr_dont_propose : fc_dont_propose s' = fc_dont_propose s;
  fr_anchor : fc_anchor_block_slots s' = fc_anchor_block_slots s;
}.

#[global] Instance frame_refl {S} : Reflexive (@frame S).
Proof. by constructor. Qed.
#[global] Instance frame_trans {S} : Transitive (@frame S).
Proof. intros x y z [] []. constructor; congruence. Qed.

Definition keeps_frame {S A} (m : SM (ForkChoiceStore S) error A) : Prop := ∀ s, frame s (m s).2.

Section frame_rules.
Context {S A B : Type}.
Implicit Types (m : SM (ForkChoiceStore S) error A) (f : A → SM (ForkChoiceStore S) error B).

Lemma keeps_ret (r : outcome error A) : keeps_frame (S := S) (λ s, (r, s)).
Proof. intros s. reflexivity. Qed.
Lemma keeps_bind m f : keeps_frame m → (∀ x, keeps_frame (f x)) → keeps_frame (m ≫= f).
Proof.
  intros Hm Hf s. specialize (Hm s). unfold mbind, sm_bind. destruct (m s) as [[x| |] s1]; simpl in *; [|done..].
  etrans; [exact Hm|apply Hf].
Qed.
Lemma keeps_try m : keeps_frame m → keeps_frame (sm_try m).
Proof. intros Hm s. specialize (Hm s). unfold sm_try. by destruct (m s) as [[] ?]. Qed.
Lemma keeps_get : keeps_frame (S := S) sm_get.
Proof. intros s. reflexivity. Qed.
Lemma keeps_modify (f : ForkChoiceStore S → ForkChoiceStore S) :
  (∀ s, frame s (f s)) → keeps_frame (sm_modify f).
Proof. intros Hf s. apply Hf. Qed.
(** Writing back a state read before. *)
Lemma keeps_get_bind (f : ForkChoiceStore S → SM (ForkChoiceStore S) error B) :
  (∀ s, frame s (f s s).2) → keeps_frame (sm_get ≫= f).
Proof. intros Hf s. apply Hf. Qed.
Lemma keeps_iter (f : A → SM (ForkChoiceStore S) error ()) l :
  (∀ x, keeps_frame (f x)) → keeps_frame (sm_iter f l).
Proof.
  intros Hf. induction l as [|x l IH]; simpl; [by intros s|].
  intros s. pose proof (Hf x s) as Hx. unfold mbind, sm_bind. destruct (f x s) as [[[]| |] s1]; simpl in *; [|done..].
  etrans; [exact Hx|apply IH].
Qed.
End frame_rules.

Lemma keeps_tree {S A} (m : SM (BlockTreeData S) error A) : keeps_frame (block_tree m).
Proof. intros s. unfold block_tree. destruct (m (fc_block_tree s)). by constructor. Qed.

Create HintDb frame.
#[export] Hint Resolve keeps_tree keeps_get : frame.

(** Splits a computation into its steps and closes those that keep the frame. *)
Ltac keeps :=
  repeat first
    [ assumption | solve [auto with frame nocore]
    | apply (keeps_ret (Ok _)) | apply (keeps_ret (Err _)) | apply (keeps_ret (Throw _))
    | apply keeps_try | apply keeps_iter; intro
    | apply keeps_modify; by constructor
    | apply keeps_bind; [|intro] | case_match ].

Section frame_ops.
Context {S : Type} `{!BlockStorage S} `{!BuildMode} `{!SszHash} `{!UnorderedMap}.
Context `{!XmssProvider} `{!NodeKeys} `{!LoopFuel}.

Lemma keeps_lift {A} (r : outcome error A) : keeps_frame (S := S) (sm_lift r).
Proof. intros s. reflexivity. Qed.
#[local] Hint Resolve keeps_lift : frame.

Lemma keeps_states (x : ForkChoiceStore S → outcome error (State * LruCache BlockHash State)) :
  keeps_frame (S := S) (s ← sm_get; r ← sm_lift (x s); sm_put (set_states r.2 s) ≫= λ _, mret r.1).
Proof. apply keeps_get_bind. intros s. unfold mbind, sm_bind, sm_lift. by destruct (x s). Qed.

Lemma keeps_getState h : keeps_frame (getState (S := S) h).
Proof.
  apply keeps_get_bind. intros s. destruct (lru_get h (fc_states s)) as [cached c].
  set (s1 := set_states c s). rewrite (sm_bind_ok _ _ s () s1) by done.
  transitivity s1; [by constructor|]. generalize s1. clear s1 c s.
  match goal with |- ∀ s, frame s (?m s).2 => change (keeps_frame m) end.
  destruct cached; [apply (keeps_ret (Ok _))|]. apply keeps_bind; [apply keeps_tree|]. intros [state|].
  - apply (keeps_states (λ s, lru_put h state (fc_states s))).
  - apply (keeps_ret (Err _)).
Qed.
#[local] Hint Resolve keeps_getState : frame.

Lemma keeps_getLatestFinalized : keeps_frame (getLatestFinalized (S := S)).
Proof. unfold getLatestFinalized. keeps. Qed.
Lemma keeps_getLatestJustified : keeps_frame (getLatestJustified (S := S)).
Proof. apply keeps_tree. Qed.
Lemma keeps_getBlockSlot h : keeps_frame (getBlockSlot (S := S) h).
Proof. unfold getBlockSlot. keeps. Qed.
#[local] Hint Resolve keeps_getLatestFinalized keeps_getLatestJustified keeps_getBlockSlot : frame.
Lemma keeps_add_weights fuel start h w : keeps_frame (add_weights (S := S) fuel start h w).
Proof. revert h w. induction fuel as [|fuel IH]; intros h w; simpl; keeps; apply IH. Qed.
#[local] Hint Resolve keeps_add_weights : frame.
Lemma keeps_collect start votes w : keeps_frame (collect_weights (S := S) start votes w).
Proof. revert w. induction votes as [|v votes IH]; intros w; simpl; keeps; apply IH. Qed.
Lemma keeps_walk fuel min_score w h : keeps_frame (ghost_walk (S := S) fuel min_score w h).
Proof. revert h. induction fuel as [|fuel IH]; intros h; simpl; keeps; apply IH. Qed.
#[local] Hint Resolve keeps_collect keeps_walk : frame.
Lemma keeps_ghost root atts min_score : keeps_frame (computeLmdGhostHead (S := S) root atts min_score).
Proof. unfold computeLmdGhostHead. keeps. Qed.
#[local] Hint Resolve keeps_ghost : frame.
Lemma keeps_updateSafeTarget : keeps_frame (updateSafeTarget (S := S)).
Proof. unfold updateSafeTarget. keeps. Qed.
Lemma keeps_lift_one c : keeps_frame (lift_one (S := S) c).
Proof. unfold lift_one. keeps. Qed.
#[local] Hint Resolve keeps_lift_one : frame.
Lemma keeps_common fuel x y : keeps_frame (common_ancestor (S := S) fuel x y).
Proof. revert x y. induction fuel as [|fuel IH]; intros x y; simpl; keeps; apply IH. Qed.
#[local] Hint Resolve keeps_common : frame.
Lemma keeps_updateHead : keeps_frame (updateHead (S := S)).
Proof. unfold updateHead. keeps. Qed.
#[local] Hint Resolve keeps_updateHead : frame.
Lemma keeps_acceptNew : keeps_frame (acceptNewAttestations (S := S)).
Proof. unfold acceptNewAttestations. keeps. Qed.
Lemma keeps_slot_and_parent head parent h : keeps_frame (get_slot_and_parent (S := S) head parent h).
Proof. unfold get_slot_and_parent. keeps. Qed.
#[local] Hint Resolve keeps_slot_and_parent : frame.
Lemma keeps_walk_safe steps head parent limit h :
  keeps_frame (walk_to_safe (S := S) steps (get_slot_and_parent head parent) limit h).
Proof. revert h. induction steps as [|steps IH]; intros h; simpl; keeps; apply IH. Qed.
Lemma keeps_walk_justifiable fuel head parent fin h :
  keeps_frame (walk_to_justifiable (S := S) fuel (get_slot_and_parent head parent) fin h).
Proof. revert h. induction fuel as [|fuel IH]; intros h; simpl; keeps; apply IH. Qed.
#[local] Hint Resolve keeps_walk_safe keeps_walk_justifiable : frame.
Lemma keeps_target j h p : keeps_frame (getAttestationTarget (S := S) j h p).
Proof. unfold getAttestationTarget. keeps. Qed.
#[local] Hint Resolve keeps_target keeps_updateSafeTarget keeps_acceptNew : frame.
Lemma keeps_validate att : keeps_frame (validateAttestation (S := S) att).
Proof. unfold validateAttestation, has_block, slot_differs. keeps. Qed.
#[local] Hint Resolve keeps_validate : frame.
Lemma keeps_addSignature data i sg : keeps_frame (addSignatureToAggregate (S := S) data i sg).
Proof. unfold addSignatureToAggregate. keeps. Qed.
Lemma keeps_addProof saa : keeps_frame (addProofToAggregate (S := S) saa).
Proof. unfold addProofToAggregate. keeps. Qed.
#[local] Hint Resolve keeps_addSignature keeps_addProof : frame.
Lemma keeps_onAttestation att b : keeps_frame (onAttestation (S := S) att b).
Proof.
  unfold onAttestation. apply keeps_bind; [keeps|]. intros _. apply keeps_get_bind. intros s.
  repeat case_match; by constructor.
Qed.
#[local] Hint Resolve keeps_onAttestation : frame.
Lemma keeps_onAggregated saa b : keeps_frame (onAggregatedAttestation (S := S) saa b).
Proof. unfold onAggregatedAttestation. keeps. Qed.
#[local] Hint Resolve keeps_onAggregated : frame.
Lemma keeps_onGossip sa : keeps_frame (onGossipAttestation (S := S) sa).
Proof. unfold onGossipAttestation. keeps. Qed.
Lemma keeps_onGossipAggregated saa : keeps_frame (onGossipAggregatedAttestation (S := S) saa).
Proof. unfold onGossipAggregatedAttestation. keeps. Qed.
Lemma keeps_prune slot : keeps_frame (prune (S := S) slot).
Proof. unfold prune. keeps. Qed.
Lemma keeps_validateBlock sb : keeps_frame (validateBlockSignatures (S := S) sb).
Proof. unfold validateBlockSignatures. keeps. Qed.
Lemma keeps_cacheState h st : keeps_frame (cacheState (S := S) h st).
Proof.
  apply keeps_get_bind. intros s. unfold mbind, sm_bind, sm_lift. by destruct (lru_put h st (fc_states s)).
Qed.
#[local] Hint Resolve keeps_onGossip keeps_onGossipAggregated keeps_prune keeps_validateBlock keeps_cacheState : frame.
Lemma keeps_follow st : keeps_frame (followCheckpoints (S := S) st).
Proof. unfold followCheckpoints. keeps. Qed.
#[local] Hint Resolve keeps_follow : frame.
Lemma keeps_onBlock sb : keeps_frame (onBlock (S := S) sb).
Proof. unfold onBlock, block_storage. keeps. Qed.
#[local] Hint Resolve keeps_onBlock : frame.
Lemma keeps_sortedData votes acc : keeps_frame (sortedData (S := S) votes acc).
Proof. revert acc. induction votes as [|v votes IH]; intros acc; simpl; keeps; apply IH. Qed.
#[local] Hint Resolve keeps_sortedData : frame.
Lemma keeps_getProposal slot i h : keeps_frame (getProposalAttestations (S := S) slot i h).
Proof. unfold getProposalAttestations. keeps. Qed.
#[local] Hint Resolve keeps_getProposal : frame.
Lemma keeps_produceBlock slot i : keeps_frame (produceBlockWithSignatures (S := S) slot i).
Proof. unfold produceBlockWithSignatures. keeps. Qed.
Lemma keeps_aggregate_loop entries acc : keeps_frame (aggregate_loop (S := S) entries acc).
Proof. revert acc. induction entries as [|[k e] entries IH]; intros acc; simpl; keeps; apply IH. Qed.
#[local] Hint Resolve keeps_produceBlock keeps_aggregate_loop : frame.
Lemma keeps_produceAttestation slot i j h p : keeps_frame (produceAttestation (S := S) slot i j h p).
Proof. unfold produceAttestation. keeps. Qed.
Lemma keeps_head_state : keeps_frame (head_state_or_fatal (S := S)).
Proof. unfold head_state_or_fatal. keeps. Qed.
#[local] Hint Resolve keeps_produceAttestation keeps_head_state : frame.
Lemma keeps_attest_loop slot st ids att acts : keeps_frame (attest_loop (S := S) slot st ids att acts).
Proof. revert att acts. induction ids as [|i ids IH]; intros att acts; simpl; keeps; apply IH. Qed.
Lemma keeps_import l acts : keeps_frame (import_aggregates (S := S) l acts).
Proof. revert acts. induction l as [|x l IH]; intros acts; simpl; keeps; apply IH. Qed.
#[local] Hint Resolve keeps_attest_loop keeps_import : frame.
Lemma keeps_tick_propose slot n st acts : keeps_frame (tick_propose (S := S) slot n st acts).
Proof. unfold tick_propose, log_error. keeps. Qed.
Lemma keeps_tick_attest slot st acts : keeps_frame (tick_attest (S := S) slot st acts).
Proof. unfold tick_attest, log_error. keeps. Qed.
Lemma keeps_tick_aggregate acts : keeps_frame (tick_aggregate (S := S) acts).
Proof. unfold tick_aggregate, aggregateSignatures. keeps. Qed.

(** One tick moves the clock by one interval and nothing else of the frame. *)
Definition clock (n : N) (s : ForkChoiceStore S) : ForkChoiceStore S :=
  set_time (Interval.mkInterval n) s.

Lemma tick_frame n st acts s :
  frame (clock (u64_add (Interval.interval (fc_time s)) 1) s) (tick n st acts s).2.
Proof.
  unfold tick. fold (clock (u64_add (Interval.interval (fc_time s)) 1) s).
  erewrite sm_bind_ok by done. fold (clock (u64_add (Interval.interval (fc_time s)) 1) s).
  generalize (clock (u64_add (Interval.interval (fc_time s)) 1) s). clear s. intros s.
  erewrite sm_bind_ok by done.
  repeat case_match.
  - apply keeps_tick_propose.
  - apply (keeps_bind _ (λ a, mret (a, st))); [apply keeps_tick_attest|]. intros x. apply (keeps_ret (Ok _)).
  - apply (keeps_bind _ (λ a, mret (a, st))); [apply keeps_tick_aggregate|]. intros x. apply (keeps_ret (Ok _)).
  - apply (keeps_bind _ (λ _, mret (acts, st))); [unfold log_error; keeps|]. intros x. apply (keeps_ret (Ok _)).
  - apply (keeps_bind _ (λ _, mret (acts, st))); [unfold log_error; keeps|]. intros x. apply (keeps_ret (Ok _)).
  - reflexivity.
Qed.

(** [k] ticks: the clock never passes the target, and reaches it on success. *)
Lemma ticks_time k n st acts s :
  Interval.interval (fc_time s) + N.of_nat k < two64 →
  let i := Interval.interval (fc_time s) in
  let '(r, s') := ticks k n st acts s in
  i ≤ Interval.interval (fc_time s') ≤ i + N.of_nat k ∧
  frame (clock (Interval.interval (fc_time s')) s) s' ∧
  match r with Ok _ => Interval.interval (fc_time s') = i + N.of_nat k | _ => True end.
Proof.
  revert st acts s. induction k as [|k IH]; intros st acts s Hb; simpl.
  - split; [lia|]. split; [|lia]. constructor; try done. by destruct (fc_time s).
  - pose proof (tick_frame n st acts s) as Hf. unfold mbind, sm_bind.
    destruct (tick n st acts s) as [r s1]. simpl in Hf.
    assert (Ht : Interval.interval (fc_time s1) = Interval.interval (fc_time s) + 1).
    { rewrite (fr_time _ _ Hf). simpl. apply u64_add_small. lia. }
    assert (Hs1 : frame (clock (Interval.interval (fc_time s1)) s) s1).
    { destruct Hf as [?????? ?]. constructor; try done. by destruct (fc_time s1). }
    destruct r as [x| |]; [|split; [lia|done]..].
    specialize (IH x.2 x.1 s1 ltac:(lia)). simpl in IH.
    destruct (ticks k n x.2 x.1 s1) as [r s']. destruct IH as (Hle & Hfr & Hr).
    split; [lia|]. split.
    + destruct Hfr, Hs1. constructor; try done; etrans; eassumption.
    + destruct r; try done. lia.
Qed.

Lemma onTick_time now s :
  Interval.interval (fc_time s) < two64 →
  let '(r, s') := onTick now s in
  match Interval.fromTime now (fc_config s) with
  | None => r = Ok [] ∧ s' = s
  | Some i =>
      Interval.interval (fc_time s) ≤ Interval.interval (fc_time s') ∧
      Interval.interval (fc_time s') ≤ N.max (Interval.interval (fc_time s)) (Interval.interval i) ∧
      frame (clock (Interval.interval (fc_time s')) s) s' ∧
      match r with
      | Ok _ => Interval.interval (fc_time s') = N.max (Interval.interval (fc_time s)) (Interval.interval i)
      | _ => True
      end
  end.
Proof.
  intros Hb. unfold onTick. rewrite (sm_bind_ok _ _ s s s) by done.
  destruct (Interval.fromTime now (fc_config s)) as [i|] eqn:Hi; [|done].
  assert (Hib : Interval.interval i < two64).
  { unfold Interval.fromTime in Hi. case_match; [done|]. injection Hi as <-. apply u64_lt. }
  pose proof (keeps_head_state s) as Hk. unfold mbind, sm_bind.
  destruct (head_state_or_fatal s) as [[st|e|x] s1]; cbn [snd] in Hk; pose proof (fr_time _ _ Hk) as Ht.
  - set (k := N.to_nat _). pose proof (ticks_time k (validatorCount st) st [] s1) as Htk. rewrite Ht in Htk.
    destruct (ticks k (validatorCount st) st [] s1) as [r s']. specialize (Htk ltac:(lia)).
    destruct Htk as (Hle & Hfr & Hr). split; [lia|]. split; [lia|]. split.
    + destruct Hfr, Hk. constructor; try done; etrans; eassumption.
    + destruct r; [lia|done..].
  - rewrite Ht. split; [lia|]. split; [lia|]. split; [|done].
    destruct Hk. constructor; try done. simpl. by destruct (fc_time s).
  - rewrite Ht. split; [lia|]. split; [lia|]. split; [|done].
    destruct Hk. constructor; try done. simpl. by destruct (fc_time s).
Qed.
End frame_ops.

(** ** Blocks *)
Section blocks.
Context {S : Type} `{!SszHash} `{!BlockStorage S} `{!BlockStorageLaws S} `{!BuildMode} `{!UnorderedMap}.
Context `{!XmssProvider} `{!NodeKeys} `{!LoopFuel}.
Implicit Types s : ForkChoiceStore S.

(** getState from the cache. *)
Lemma getState_hit s h state :
  cached (fc_states s) h state →
  ∃ c, getState h s = (Ok state, set_states c s) ∧ cached c h state ∧
    pairs c ≡ₚ pairs (fc_states s) ∧ lru_max_size c = lru_max_size (fc_states s).
Proof.
  intros Hc. destruct (lru_get_cached _ _ _ Hc) as [Hr Hc']. unfold getState.
  rewrite (sm_bind_ok _ _ s s s) by done.
  pose proof (lru_get_pairs h (fc_states s)) as Hp. pose proof (lru_get_max h (fc_states s)) as Hm.
  destruct (lru_get h (fc_states s)) as [r c]. simpl in *. subst r. exists c. done.
Qed.

(** Where getState finds the state of a block: a cached pair, else the storage.  Storing the loaded
    state in a full cache that holds an equal state is undefined. *)
Definition state_lookup (a : Abs) (s : ForkChoiceStore S) (h : BlockHash) (r : result State) : Prop :=
  let uncached := ∀ v, (h, v) ∉ pairs (fc_states s) in
  match r with
  | Ok state => (h, state) ∈ pairs (fc_states s) ∨ (uncached ∧ a_state a h = Some state)
  | Err e => e = E_ForkChoice STATE_NOT_FOUND ∧ uncached ∧ a_state a h = None
  | Throw x => x = UndefinedBehaviour ∧ uncached ∧ ∃ state k, a_state a h = Some state ∧
      lru_max_size (fc_states s) ≤ lengthN (lru_cache (fc_states s)) ∧ (k, state) ∈ pairs (fc_states s)
  end.

Lemma getState_total s h t g ev a :
  at_state t g ev (fc_block_tree s) a →
  ∃ r p c, getState h s = (r, set_states c (set_block_tree p s)) ∧ at_state t g ev p a ∧ state_lookup a s h r.
Proof.
  intros Hp. pose proof (lru_get_result h (fc_states s)) as Hr. pose proof (lru_get_pairs h (fc_states s)) as Hpairs.
  pose proof (lru_get_max h (fc_states s)) as Hmax. unfold getState. rewrite (sm_bind_ok _ _ s s s) by done.
  destruct (lru_get h (fc_states s)) as [cached c]. cbn [fst snd] in *. unfold mbind at 1, sm_bind at 1. cbn [sm_put].
  destruct cached as [state|].
  { exists (Ok state), (fc_block_tree s), c. rewrite set_block_tree_same. split; [done|]. split; [done|]. by left. }
  destruct (bt_storage_op _ _ _ _ _ _ _ _ Hp (law_getState _ _ h (as_storage _ _ _ _ _ Hp))) as (p & Hrun & Hp').
  rewrite (sm_bind_ok _ _ _ (a_state a h) (set_states c (set_block_tree p s)))
    by (unfold block_storage, block_tree; cbn [fc_block_tree set_states]; by rewrite Hrun).
  destruct (a_state a h) as [state|] eqn:Hst; [|by exists (Err (E_ForkChoice STATE_NOT_FOUND)), p, c].
  rewrite (sm_bind_ok _ _ (set_states c (set_block_tree p s)) (set_states c (set_block_tree p s)) (set_states c (set_block_tree p s)))
    by done. unfold mbind at 1, sm_bind at 1, sm_lift. cbn [fc_states set_states].
  destruct (lru_put_result h state c) as [[c' ->]|(-> & Hfull & k & Hk)].
  - exists (Ok state), p, c'. split; [done|]. split; [done|]. right. by rewrite Hst.
  - exists (Throw UndefinedBehaviour), p, c. split; [done|]. split; [done|]. split; [done|]. split; [done|].
    exists state, k. split; [done|]. rewrite <- Hmax, <- Hpairs. split; [|done].
    unfold lengthN in *. by rewrite <- (pairs_length _ _ Hpairs).
Qed.

(** The checks of validateBlockSignatures up to the proposer's key. *)
Definition attestations_verify (state : State) (sb : SignedBlock) : Prop :=
  lengthN (bsig_attestation_signatures (sb_signature sb)) = lengthN (bb_attestations (b_body (sb_block sb))) ∧
  oc_all (λ '(a, sg), validateAggregatedSignature state (aa_data a) sg)
    (zip (bb_attestations (b_body (sb_block sb))) (bsig_attestation_signatures (sb_signature sb))) = Ok true.

Lemma validateBlockSignatures_spec s sb state :
  cached (fc_states s) (b_parent_root (sb_block sb)) state → attestations_verify state sb →
  ∃ c, cached c (b_parent_root (sb_block sb)) state ∧ pairs c ≡ₚ pairs (fc_states s) ∧
    lru_max_size c = lru_max_size (fc_states s) ∧
    validateBlockSignatures sb s =
      (match st_validators state !! N.to_nat (b_proposer_index (sb_block sb)) with
       | None => Throw OutOfRange
       | Some v => xmss_verify (v_proposal_pubkey v) (sszHash_block (sb_block sb))
                     (u32 (b_slot (sb_block sb))) (bsig_proposer_signature (sb_signature sb))
       end, set_states c s).
Proof.
  intros Hc [Hlen Hall]. destruct (getState_hit s _ _ Hc) as (c & Hr & Hc' & Hp & Hm).
  exists c. split_and!; try done. unfold validateBlockSignatures. rewrite Hlen, N.eqb_refl. simpl.
  rewrite (sm_bind_ok _ _ s (inl state) (set_states c s)) by (unfold sm_try; by rewrite Hr).
  rewrite Hall. simpl. by destruct (st_validators state !! _).
Qed.

(** onBlock up to the signature check, for a block that is not known. *)
Lemma onBlock_prefix s sb t g ev a state :
  at_state t g ev (fc_block_tree s) a →
  ct_nodes t !! block_hash (sb_block sb) = None → a_header a (block_hash (sb_block sb)) = None →
  cached (fc_states s) (b_parent_root (sb_block sb)) state → attestations_verify state sb →
  ∃ p c, at_state t g ev p a ∧ pairs c ≡ₚ pairs (fc_states s) ∧ lru_max_size c = lru_max_size (fc_states s) ∧
    let s1 := set_states c (set_block_tree p s) in
    match st_validators state !! N.to_nat (b_proposer_index (sb_block sb)) with
    | None => onBlock sb s = (Throw OutOfRange, s1)
    | Some v =>
        xmss_verify (v_proposal_pubkey v) (sszHash_block (sb_block sb))
          (u32 (b_slot (sb_block sb))) (bsig_proposer_signature (sb_signature sb)) = Ok true →
        onBlock sb s = (
          post_state ← sm_lift (stateTransition (sb_block sb) state true);
          block_tree (addBlock sb) ≫= λ _,
          sm_try (block_storage (bs_putState (block_hash (sb_block sb)) post_state)) ≫= λ _,
          followCheckpoints post_state ≫= λ _,
          cacheState (block_hash (sb_block sb)) post_state ≫= λ _,
          let aggregated_attestations := bb_attestations (b_body (sb_block sb)) in
          let attestation_signatures := bsig_attestation_signatures (sb_signature sb) in
          if negb (lengthN attestation_signatures =? lengthN aggregated_attestations)
          then sm_err (E_ForkChoice SIGNATURE_COUNT_MISMATCH)
          else if MAX_ATTESTATIONS_DATA <? lengthN aggregated_attestations
          then sm_err (E_ForkChoice TOO_MANY_ATTESTATIONS)
          else
            sm_iter (λ '(a, sg), onAggregatedAttestation (mkSignedAggregatedAttestation (aa_data a) sg) true)
              (zip aggregated_attestations attestation_signatures) ≫= λ _,
            updateHead) s1
    end.
Proof.
  intros Hp Hn Hh Hc Hv.
  destruct (fc_tree _ s _ _ _ _ _ (bt_has_spec t g ev a (block_hash (sb_block sb)) _ Hp)) as (p & R1 & Hp1).
  rewrite Hn, Hh in R1. simpl in R1.
  destruct (getState_hit (set_block_tree p s) _ _ Hc) as (c1 & R2 & Hc1 & Hpc1 & Hm1).
  destruct (validateBlockSignatures_spec (set_states c1 (set_block_tree p s)) sb state Hc1 Hv)
    as (c2 & Hc2 & Hpc2 & Hm2 & R3).
  exists p, c2. split; [done|]. split; [by rewrite Hpc2|]. split; [by rewrite Hm2|].
  unfold onBlock. rewrite (sm_bind_ok _ _ _ _ _ R1). cbv beta iota zeta.
  rewrite (sm_bind_ok _ _ _ _ _ R2).
  destruct (st_validators state !! _) as [v|].
  - intros Hx. rewrite Hx in R3. rewrite (sm_bind_ok _ _ _ _ _ R3). done.
  - rewrite (sm_bind_throw _ _ _ _ _ R3). done.
Qed.

(** Adding the block and its state. *)
Lemma store_block_spec s sb pn t g ev a post :
  at_state t g ev (fc_block_tree s) a → bt_wf t a →
  ct_nodes t !! block_hash (sb_block sb) = None → ct_nodes t !! b_parent_root (sb_block sb) = Some pn →
  bi_slot (tn_index pn) < b_slot (sb_block sb) → b_slot (sb_block sb) < two64 →
  ∃ p t' ev' a', block_tree (addBlock sb) s = (Ok (), set_block_tree p s) ∧
    ∃ p', sm_try (block_storage (bs_putState (block_hash (sb_block sb)) post)) (set_block_tree p s)
        = (Ok (inl ()), set_block_tree p' s) ∧
      at_state t' g ev' p' a' ∧ valid (ct_nodes t') (block_index (sb_block sb)) ∧
      ct_root t' = ct_root t ∧ ct_justified t' = ct_justified t ∧
      a_header a' (block_hash (sb_block sb)) = Some (getHeader (sb_block sb)) ∧
      a_state a' (block_hash (sb_block sb)) = Some post.
Proof.
  intros Hp Hwf Hnew Hpn Hlt Hfit.
  destruct (addBlock_spec sb pn _ t g ev a Hp Hwf Hnew Hpn Hlt Hfit)
    as (t' & a' & (p & Hrun & Hp') & _ & Hr & Hj & Hval & _ & Hh & _).
  pose proof (law_putState _ _ (block_hash (sb_block sb)) post (as_storage _ _ _ _ _ Hp')) as Hput.
  destruct (bt_storage_op _ _ _ _ _ _ _ _ Hp' Hput) as (p' & Hrun' & Hp'').
  exists p. do 2 eexists. exists (abs_set_state (block_hash (sb_block sb)) (Some post) a').
  split; [unfold block_tree; by rewrite Hrun|]. exists p'. split.
  { unfold sm_try, block_storage, block_tree. cbn [fc_block_tree set_block_tree]. by rewrite Hrun'. }
  split; [exact Hp''|]. split; [apply Hval; by left|]. split; [done|]. split; [done|]. simpl. rewrite Hh.
  unfold upd. by rewrite !decide_True.
Qed.

(** followCheckpoints does nothing when the checkpoints are not later. *)
Lemma followCheckpoints_noop s t g ev a post :
  at_state t g ev (fc_block_tree s) a →
  cp_slot (st_latest_justified post) ≤ bi_slot (ct_justified t) →
  cp_slot (st_latest_finalized post) ≤ bi_slot (ct_root t) →
  fc_reads (followCheckpoints post) s (Ok ()) t g ev a.
Proof.
  intros Hp Hj Hf. eapply fc_bind; [apply fc_tree, bt_getLatestJustified_spec; exact Hp|]. intros p1 Hp1.
  simpl. rewrite (proj2 (N.ltb_ge _ _) Hj). eapply fc_bind; [by apply fc_ret|]. intros p2 Hp2.
  eapply fc_bind; [apply fc_tree, bt_lastFinalized_spec; exact Hp2|]. intros p3 Hp3.
  rewrite (proj2 (N.ltb_ge _ _) Hf). by apply fc_ret.
Qed.

(** ** Stored headers outside the tree stay old *)
Lemma addBlock_stored_old sb t t' a a' :
  stored_old t a → ct_root t' = ct_root t →
  (∀ q, valid (ct_nodes t') q ↔ q = block_index (sb_block sb) ∨ valid (ct_nodes t) q) →
  tree_wf t →
  a_header a' = upd (block_hash (sb_block sb)) (Some (getHeader (sb_block sb))) (a_header a) →
  stored_old t' a'.
Proof.
  intros Hold Hroot Hval Hwf Hh h hd. rewrite Hh, Hroot. unfold upd. case_decide as Heq.
  - subst h. intros _ Hn. assert (valid (ct_nodes t') (block_index (sb_block sb))) as (n & Hn' & _) by (apply Hval; by left).
    unfold block_index in Hn'. cbn [bi_hash] in Hn'. congruence.
  - intros Hhd Hn. apply (Hold h hd Hhd). destruct (ct_nodes t !! h) as [n|] eqn:Hnt; [|done].
    assert (valid (ct_nodes t') (tn_index n)) as (n' & Hn' & _).
    { apply Hval. right. eapply valid_node; [apply Hwf|done]. }
    rewrite (nw_key _ _ (tw_nodes _ Hwf) _ _ Hnt) in Hn'. congruence.
Qed.

Lemma finalize_stored_old t nf changes t' a a' :
  bt_wf t a → stored_old t a → finalized_to t nf changes t' → valid (ct_nodes t) nf →
  (∀ x, x ∈ bi_hash <$> rp_prune changes → a_header a' x = None) →
  (∀ x, x ∉ bi_hash <$> rp_prune changes → a_header a' x = a_header a x) →
  stored_old t' a'.
Proof.
  intros Hwf Hold Hfz Hnf Hpr Hkeep h hd Hhd Hn. rewrite (fz_root _ _ _ _ Hfz).
  pose proof (tw_nodes _ (bw_tree _ _ Hwf)) as Hnw.
  destruct (decide (h ∈ bi_hash <$> rp_prune changes)) as [Hin|Hin]; [rewrite (Hpr h Hin) in Hhd; done|].
  rewrite (Hkeep h Hin) in Hhd. destruct (ct_nodes t !! h) as [n|] eqn:Hnt.
  - pose proof (valid_node _ _ Hnw _ _ Hnt) as Hv. pose proof (nw_key _ _ Hnw _ _ Hnt) as Hk.
    assert (Hna : ¬ anc (ct_nodes t) nf (tn_index n)).
    { intros Ha. assert (valid (ct_nodes t') (tn_index n)) as (n' & Hn' & _) by (by apply (fz_nodes _ _ _ _ Hfz)).
      rewrite Hk in Hn'. congruence. }
    assert (Hslot : bh_slot hd = bi_slot (tn_index n)).
    { destruct (bw_headers _ _ Hwf _ Hv) as (hd' & Hh' & Hs & _). rewrite Hk in Hh'. congruence. }
    destruct (anc_dec _ _ Hnw (tn_index n) nf Hv Hnf) as [Ha|Ha].
    + rewrite Hslot. by apply (anc_slot _ _ Hnw _ _ Hnf Ha).
    + exfalso. apply Hin, list_elem_of_fmap. exists (tn_index n). split; [done|].
      by apply (fz_prune _ _ _ _ Hfz).
  - specialize (Hold h hd Hhd Hnt). etrans; [exact Hold|].
    by apply (anc_slot _ _ Hnw _ _ Hnf), (anc_root _ _ Hnw).
Qed.
End blocks.
