(* ===== verification/ToyForkChoice.v ===== *)
(** * An example fork choice store

    A store over the in-memory storage with genesis, one child and one vote, and the facts
    about it that the theorems' hypotheses ask for. *)

From S2P Require Import Prelude Errors Types Justifiable Stf CachedTree CachedTreeProofs CachedTreeOps.
From S2P Require Import CachedTreeFinalize CachedTreeTheorems Storage BlockStorage BlockStorageSpec.
From S2P Require Import BlockTree BlockTreeProofs LruCache LruProofs ForkChoice ForkChoiceProofs.
From S2P Require Import ForkChoiceGhost ForkChoiceVotes ForkChoiceBlocks ToyHash ToyStore.

Module FcStore.
#[local] Existing Instance ReleaseBuild.
#[local] Existing Instance CanonicalOrder.

(** Signatures that always verify, one validator per node, and enough fuel. *)
Definition ToyXmss : XmssProvider := {|
  xmss_sign _ _ _ := Ok 1;
  xmss_verify _ _ _ _ := Ok true;
  xmss_aggregateSignatures _ _ _ _ _ _ := Ok [1];
  xmss_verifyAggregatedSignatures _ _ _ _ := Ok true;
|}.
#[local] Existing Instance ToyXmss.
Definition ToyKeys : NodeKeys := {| currentValidatorIndices := [0]; getKeypair pk := Some pk |}.
#[local] Existing Instance ToyKeys.
Definition ToyFuel : LoopFuel := 100%nat.
#[local] Existing Instance ToyFuel.

(** A tree of one block. *)
Definition root_data (h : BlockHeader) : BlockTreeData ToyS :=
  mkBlockTreeData (putBlockHeader h toy_empty).2 (CachedTree_new (header_index h)) None [].
Definition root_abs (h : BlockHeader) : Abs := abs_put_header h abs_empty.

Lemma root_at h :
  bh_slot h < two64 → at_state (CachedTree_new (header_index h)) None [] (root_data h) (root_abs h).
Proof.
  intros Hs. destruct (run_putBlockHeader (B := positive) toy_empty abs_empty h toy_empty_represents Hs) as (s & Hr & Hs').
  constructor; try done. unfold root_data. cbn [bt_storage]. rewrite Hr. exact Hs'.
Qed.
Lemma root_wf h : bt_wf (CachedTree_new (header_index h)) (root_abs h).
Proof.
  constructor; [apply CachedTree_new_wf|]. intros q (n & Hn & <-).
  cbn [CachedTree_new ct_nodes] in *. apply lookup_singleton_Some in Hn as [_ <-].
  exists h. unfold root_abs, abs_put_header, upd. cbn [a_header].
  rewrite decide_True by done. split; [done|]. split; [done|]. intros par.
  unfold parent_of. cbn [TreeNode_root tn_index]. by rewrite lookup_singleton_eq.
Qed.
Lemma root_old h : stored_old (CachedTree_new (header_index h)) (root_abs h).
Proof.
  intros x hd. unfold root_abs, abs_put_header, upd. cbn [a_header]. case_decide as Hx; [|done].
  intros _. subst x. cbn [CachedTree_new ct_nodes]. by rewrite lookup_singleton_eq.
Qed.

(** Genesis at slot 0 and a child at slot 1. *)
Definition genesis : BlockHeader := getHeader (genesisBlock Ex.s0).
Definition child : SignedBlock := mkSignedBlock Ex.b1 (mkBlockSignatures [] 1).
Abbreviation genesis_index := (header_index genesis).
Abbreviation child_index := (block_index (sb_block child)).
Lemma header_index_hash h : bi_hash (header_index h) = sszHash_header h.
Proof. reflexivity. Qed.
Lemma block_index_hash b : bi_hash (block_index b) = block_hash b.
Proof. reflexivity. Qed.
Definition p1 : BlockTreeData ToyS := (addBlock child (root_data genesis)).2.

Lemma p1_facts :
  ∃ t ev a, at_state t None ev p1 a ∧ bt_wf t a ∧ stored_old t a ∧
    ct_root t = genesis_index ∧ ct_justified t = genesis_index ∧
    (∀ q, valid (ct_nodes t) q ↔ q = child_index ∨ q = genesis_index) ∧
    (∀ h, h ≠ bi_hash genesis_index → h ≠ bi_hash child_index → a_header a h = None).
Proof.
  destruct (addBlock_spec child (TreeNode_root genesis_index) (root_data genesis) _ _ _ _
    (root_at genesis eq_refl) (root_wf genesis))
    as (t & a & (p & Hrun & Hp) & Hwf & Hroot & Hj & Hval & _ & Hh & _); [by vm_compute..|].
  eexists t, _, a. unfold p1. rewrite Hrun. cbn [snd]. split; [exact Hp|]. split; [exact Hwf|]. split.
  { exact (addBlock_stored_old child _ _ _ _ (root_old genesis) Hroot Hval (CachedTree_new_wf _) Hh). }
  split; [exact Hroot|]. split; [exact Hj|]. split.
  - intros q. rewrite Hval. split; (intros [Hq|Hq]; [left; exact Hq|right]).
    + destruct Hq as (n & Hn & <-). cbn [CachedTree_new ct_nodes] in Hn.
      apply lookup_singleton_Some in Hn as [_ <-]. reflexivity.
    + rewrite Hq. exists (TreeNode_root genesis_index). split; [|reflexivity]. apply lookup_singleton_eq.
  - intros h Hg Hc. rewrite block_index_hash in Hc. rewrite header_index_hash in Hg. rewrite Hh. unfold upd, root_abs, abs_put_header, upd. cbn [a_header].
    rewrite decide_False by exact Hc. rewrite decide_False by exact Hg. reflexivity.
Qed.

Lemma p1_small : (tree_fuel (ct_nodes (bt_tree p1)) ≤ 50)%nat.
Proof. apply Nat.leb_le. by vm_compute. Qed.

Definition cp_of : BlockIndex → Checkpoint := BlockIndex_to_Checkpoint.

(** Validator 0 voted for the child, which is not the head yet. *)
Definition vote (slot : Slot) (target : BlockIndex) : AttestationData :=
  mkAttestationData slot (cp_of target) (cp_of target) (cp_of genesis_index).
Definition store (head : Checkpoint) (known new : AttestationDataByValidator) : ForkChoiceStore ToyS :=
  mkForkChoiceStore p1 (Interval.mkInterval 20) Ex.config head (cp_of genesis_index)
    (mkLruCache 16 1 [mkCacheEntry (bi_hash genesis_index) Ex.s0 1]) known new ∅ 0 true 1 false ∅.
Definition votes : AttestationDataByValidator := {[0 := vote 2 child_index]}.
Definition s_ex : ForkChoiceStore ToyS := store (cp_of genesis_index) votes ∅.

Lemma store_facts head known new :
  ∃ t ev a, at_state t None ev (fc_block_tree (store head known new)) a ∧ bt_wf t a ∧ stored_old t a ∧
    anchors_agree t (store head known new) ∧ ghost_anchor t a (bi_hash (ct_justified t)) genesis_index ∧
    (2 * tree_fuel (ct_nodes t) ≤ loop_fuel)%nat ∧
    ct_root t = genesis_index ∧ ct_justified t = genesis_index ∧
    find t (bi_hash genesis_index) = Some genesis_index ∧
    find t (bi_hash child_index) = Some child_index ∧
    (∀ h, h ≠ bi_hash genesis_index → h ≠ bi_hash child_index →
       ct_nodes t !! h = None ∧ a_header a h = None).
Proof.
  destruct p1_facts as (t & ev & a & Hp & Hwf & Hold & Hr & Hj & Hval & Hhd).
  pose proof p1_small as Hsmall. rewrite (as_tree _ _ _ _ _ Hp) in Hsmall.
  assert (Hfind : ∀ q, valid (ct_nodes t) q → find t (bi_hash q) = Some q).
  { intros q (n & Hn & Hi). unfold find. by rewrite Hn, <- Hi. }
  assert (Hg : find t (bi_hash genesis_index) = Some genesis_index).
  { apply Hfind, Hval. by right. }
  exists t, ev, a. split; [exact Hp|]. split; [exact Hwf|]. split; [exact Hold|].
  split; [intros h n slot _ Hl; unfold store in Hl; cbn [fc_anchor_block_slots] in Hl; by rewrite lookup_empty in Hl|].
  split; [left; split; [rewrite Hj; by vm_compute|rewrite Hj; exact Hg]|].
  split; [unfold loop_fuel, ToyFuel; lia|]. split; [exact Hr|]. split; [exact Hj|]. split; [exact Hg|].
  split; [apply Hfind, Hval; left; reflexivity|].
  intros h Hne1 Hne2. split; [|exact (Hhd h Hne1 Hne2)].
  destruct (ct_nodes t !! h) as [n|] eqn:Hn; [|reflexivity]. exfalso.
  pose proof (nw_key _ _ (tw_nodes _ (bw_tree _ _ Hwf)) _ _ Hn) as Hk.
  assert (valid (ct_nodes t) (tn_index n)) as [Hq|Hq]%Hval.
  { exists n. rewrite Hk. exact (conj Hn eq_refl). }
  - rewrite Hq in Hk. exact (Hne2 (eq_sym Hk)).
  - rewrite Hq in Hk. exact (Hne1 (eq_sym Hk)).
Qed.
End FcStore.
