(* ===== verification/ForkChoiceTheorems.v ===== *)
(** * ForkChoiceStore and SmallLruCache: the theorems *)

From S2P Require Import Prelude Errors Types Justifiable Stf CachedTree CachedTreeProofs CachedTreeOps.
From S2P Require Import CachedTreeFinalize CachedTreeTheorems Storage BlockStorage BlockStorageSpec.
From S2P Require Import BlockTree BlockTreeProofs LruCache LruProofs ForkChoice ForkChoiceProofs.
From S2P Require Import ForkChoiceGhost ForkChoiceVotes ForkChoiceBlocks ToyHash ToyStore ToyForkChoice.

Section theorems.
Context {S : Type} `{!SszHash} `{!BlockStorage S} `{!BlockStorageLaws S} `{!BuildMode} `{!UnorderedMap}.
Context `{!XmssProvider} `{!NodeKeys} `{!LoopFuel}.
Context (t : CachedTree) (g : option BlockHash) (ev : list Event) (a : Abs).
Implicit Types s : ForkChoiceStore S.

(** C2: computeLmdGhostHead implements LMD GHOST.  Started at a block of the tree (or at the
    finalized block when the requested one is unknown) it returns the end of the walk
    that always takes the child supported by the most votes, the greater hash among
    equals, and stops where no child has the minimal score; a vote supports every
    ancestor of its head.  It terminates within the tree's size, the result descends
    from the start, and no other block satisfies the rule. *)
Theorem lmd_ghost_correct start_root q atts min_score s :
  at_state t g ev (fc_block_tree s) a → bt_wf t a → stored_old t a → anchors_agree t s →
  ghost_anchor t a start_root q → (tree_fuel (ct_nodes t) ≤ loop_fuel)%nat →
  N.of_nat (size atts) < two64 →
  ∃ r s', computeLmdGhostHead start_root atts min_score s = (Ok (bi_hash r), s') ∧
    anc (ct_nodes t) q r ∧
    ghost (ct_nodes t) (support t (map_to_list atts).*2) min_score q r ∧
    ∀ r', ghost (ct_nodes t) (support t (map_to_list atts).*2) min_score q r' → r' = r.
Proof.
  intros Hp Hwf Hold Hag Han Hf Hs. pose proof (tw_nodes _ (bw_tree _ _ Hwf)) as Hnw.
  destruct (computeLmdGhostHead_spec t g ev a Hwf Hold start_root q atts min_score s Hp Hag Han Hf Hs)
    as (r & (p & Hr & _) & Hg).
  assert (Hq : valid (ct_nodes t) q).
  { destruct Han as [[_ Hq]|[_ ->]]; [by apply (find_valid _ _ _ (bw_tree _ _ Hwf)) in Hq as [? _]|by apply (valid_root _ _ Hnw)]. }
  exists r. eexists. split; [exact Hr|]. split; [by apply (ghost_anc _ _ _ _ _ _ Hnw Hq Hg)|]. split; [done|].
  intros r' Hg'. by eapply ghost_functional.
Qed.

(** C5: updateHead moves the head to the LMD GHOST head of the known votes, counted from the
    latest justified block, and changes nothing else, when the current head is a block of the
    tree.  When the current head, at or after the slot of the root, is not stored any more
    (its fork was removed by a finalization), updateHead fails while looking for the common
    ancestor with the new head, and the head stays where it is. *)
Theorem updateHead_follows_ghost q s :
  at_state t g ev (fc_block_tree s) a → bt_wf t a → stored_old t a → anchors_agree t s →
  ghost_anchor t a (bi_hash (ct_justified t)) q → (2 * tree_fuel (ct_nodes t) ≤ loop_fuel)%nat →
  N.of_nat (size (fc_latest_known_attestations s)) < two64 →
  (∀ hn, valid (ct_nodes t) hn → fc_head s = BlockIndex_to_Checkpoint hn →
     ∃ r p', updateHead s = (Ok (), set_head (BlockIndex_to_Checkpoint r) (set_block_tree p' s)) ∧
       at_state t g ev p' a ∧
       ghost (ct_nodes t) (support t (map_to_list (fc_latest_known_attestations s)).*2) 0 q r) ∧
  (a_header a (cp_root (fc_head s)) = None → bi_slot (ct_root t) ≤ cp_slot (fc_head s) →
     ∃ s', updateHead s = (Err (E_BlockStorage BS_HEADER_NOT_FOUND), s') ∧ fc_head s' = fc_head s).
Proof.
  intros Hp Hwf Hold Hag Han Hf Hs. split.
  - intros hn Hv Hh. by eapply updateHead_spec.
  - intros Hh Hr. destruct (updateHead_pruned_spec t g ev a Hwf Hold q s Hp Hag Han) as (p & Hrun & _); [lia|done..|].
    by eexists.
Qed.

(** C21: validateAttestation accepts exactly the attestations whose three blocks are known,
    whose slots are ordered source, target, head, whose source and target slots are the
    slots of their blocks and which are at most one slot ahead of the clock; it reports
    the first unknown block, and INVALID_ATTESTATION for any other defect. *)
Theorem validateAttestation_decides att s :
  at_state t g ev (fc_block_tree s) a →
  let data := at_data att in
  let ks := known_block t a s (cp_root (ad_source data)) in
  let kt := known_block t a s (cp_root (ad_target data)) in
  let kh := known_block t a s (cp_root (ad_head data)) in
  ∃ r s', validateAttestation att s = (r, s') ∧
    (r = Ok () ↔ ks ∧ kt ∧ kh ∧ consistent_attestation t a s data) ∧
    (r = Err (E_ForkChoice CANT_VALIDATE_ATTESTATION_SOURCE_NOT_FOUND) ↔ ¬ ks) ∧
    (r = Err (E_ForkChoice CANT_VALIDATE_ATTESTATION_TARGET_NOT_FOUND) ↔ ks ∧ ¬ kt) ∧
    (r = Err (E_ForkChoice CANT_VALIDATE_ATTESTATION_HEAD_NOT_FOUND) ↔ ks ∧ kt ∧ ¬ kh) ∧
    (r = Err (E_ForkChoice INVALID_ATTESTATION) ↔ ks ∧ kt ∧ kh ∧ ¬ consistent_attestation t a s data).
Proof.
  intros Hp data ks kt kh.
  destruct (validateAttestation_spec t g ev a s att Hp) as (r & (p & Hr & _) & HQ).
  exists r. eexists. split; [exact Hr|]. fold data in HQ. fold ks in HQ. fold kt in HQ. fold kh in HQ.
  generalize dependent (consistent_attestation t a s data). intros ok HQ.
  destruct HQ as [(? & ->)|[(? & ? & ->)|[(? & ? & ? & ->)|[(? & ? & ? & ? & ->)|(? & ? & ? & ? & ->)]]]];
    split_and!; split; intros Heq; try discriminate Heq; try tauto; try reflexivity.
Qed.

(** The stage an attestation enters. *)
Definition stage (from_block : bool) s : AttestationDataByValidator :=
  if from_block then fc_latest_known_attestations s else fc_latest_new_attestations s.

(** An attestation that onAttestation accepts. *)
Definition acceptable (att : Attestation) (from_block : bool) s : Prop :=
  known_block t a s (cp_root (ad_source (at_data att))) ∧
  known_block t a s (cp_root (ad_target (at_data att))) ∧
  known_block t a s (cp_root (ad_head (at_data att))) ∧
  consistent_attestation t a s (at_data att) ∧
  (from_block = false → ad_slot (at_data att) ≤ getCurrentSlot s).

Lemma onAttestation_run att from_block s :
  at_state t g ev (fc_block_tree s) a → acceptable att from_block s →
  let data := at_data att in
  let v := at_validator_id att in
  let later (o : option AttestationData) :=
    match o with None => true | Some d => ad_slot d <? ad_slot data end in
  let known := fc_latest_known_attestations s in
  let new := fc_latest_new_attestations s in
  ∃ p, at_state t g ev p a ∧ onAttestation att from_block s = (Ok (),
    if from_block
    then set_attestations (if later (known !! v) then <[v := data]> known else known)
           (match new !! v with
            | Some d => if ad_slot d <=? ad_slot data then delete v new else new
            | None => new end) (set_block_tree p s)
    else set_attestations known (if later (new !! v) then <[v := data]> new else new) (set_block_tree p s)).
Proof.
  intros Hp (Hs & Ht & Hh & Hc & Htime) data v later known new.
  destruct (validateAttestation_spec t g ev a s att Hp) as (r & (p & Hr & Hp') & HQ).
  assert (r = Ok ()) as -> by (destruct HQ as [(? & _)|[(_ & ? & _)|[(_ & _ & ? & _)|[(_ & _ & _ & ? & _)|(_ & _ & _ & _ & ?)]]]]; done).
  exists p. split; [done|]. unfold onAttestation. rewrite (sm_bind_ok _ _ _ _ _ Hr).
  rewrite (sm_bind_ok _ _ (set_block_tree p s) (set_block_tree p s) (set_block_tree p s)) by done.
  destruct from_block; [done|]. change (getCurrentSlot (set_block_tree p s)) with (getCurrentSlot s).
  rewrite (proj2 (N.ltb_ge _ _)) by (by apply Htime). done.
Qed.

(** C19: an accepted attestation enters its stage and only supersedes older votes of the same
    validator: per validator the slot in that stage never decreases and ends at least at
    the attestation's slot; an attestation from a block also removes the validator's
    pending vote unless that is newer, and one from gossip leaves the known votes alone. *)
Theorem onAttestation_keeps_latest att from_block s :
  at_state t g ev (fc_block_tree s) a → acceptable att from_block s →
  ∃ s', onAttestation att from_block s = (Ok (), s') ∧
    (∀ v d, stage from_block s !! v = Some d →
       ∃ d', stage from_block s' !! v = Some d' ∧ ad_slot d ≤ ad_slot d') ∧
    (∃ d', stage from_block s' !! at_validator_id att = Some d' ∧ ad_slot (at_data att) ≤ ad_slot d') ∧
    (∀ v d', stage from_block s' !! v = Some d' →
       stage from_block s !! v = Some d' ∨ (v = at_validator_id att ∧ d' = at_data att)) ∧
    (from_block = true →
       (∀ d, fc_latest_new_attestations s' !! at_validator_id att = Some d → ad_slot (at_data att) < ad_slot d) ∧
       ∀ v, v ≠ at_validator_id att → fc_latest_new_attestations s' !! v = fc_latest_new_attestations s !! v) ∧
    (from_block = false → fc_latest_known_attestations s' = fc_latest_known_attestations s).
Proof.
  intros Hp Hok. destruct (onAttestation_run att from_block s Hp Hok) as (p & _ & Hrun).
  eexists. split; [exact Hrun|].
  assert (Hstage : ∀ m : AttestationDataByValidator, let v := at_validator_id att in
    let m' := if match m !! v with None => true | Some d => ad_slot d <? ad_slot (at_data att) end
              then <[v := at_data att]> m else m in
    (∀ w d, m !! w = Some d → ∃ d', m' !! w = Some d' ∧ ad_slot d ≤ ad_slot d') ∧
    (∃ d', m' !! v = Some d' ∧ ad_slot (at_data att) ≤ ad_slot d') ∧
    (∀ w d', m' !! w = Some d' → m !! w = Some d' ∨ (w = v ∧ d' = at_data att))).
  { intros m v m'. unfold m'. destruct (m !! v) as [d0|] eqn:Hm; [destruct (N.ltb_spec (ad_slot d0) (ad_slot (at_data att)))|];
      split_and!; try (intros w d); try (by eexists; split; [apply lookup_insert_eq|lia]); try (by exists d0);
      try (by eauto with lia);
      try (destruct (decide (w = v)) as [->|Hne];
           [rewrite lookup_insert_eq|rewrite lookup_insert_ne by done]; naive_solver lia). }
  destruct from_block; cbn [stage set_attestations set_block_tree fc_latest_known_attestations fc_latest_new_attestations].
  - destruct (Hstage (fc_latest_known_attestations s)) as (Hs1 & Hs2 & Hs3). split_and!; try done. intros _. split.
    + intros d. destruct (fc_latest_new_attestations s !! at_validator_id att) as [d0|] eqn:Hn; [|congruence].
      destruct (N.leb_spec (ad_slot d0) (ad_slot (at_data att))); [by rewrite lookup_delete_eq|]. rewrite Hn.
      intros [= <-]. done.
    + intros v Hne. destruct (fc_latest_new_attestations s !! at_validator_id att) as [d0|]; [|done].
      destruct (ad_slot d0 <=? ad_slot (at_data att)); [by rewrite lookup_delete_ne|done].
  - destruct (Hstage (fc_latest_new_attestations s)) as (Hs1 & Hs2 & Hs3). by split_and!.
Qed.

(** Nevertheless the vote that counts can go back in time.  A gossiped attestation older
    than the validator's known vote enters the pending votes, and acceptNewAttestations
    replaces the known vote by it, although only the attestation of the highest slot is
    documented to be kept. *)
Theorem known_vote_can_regress att k s :
  at_state t g ev (fc_block_tree s) a → acceptable att false s →
  fc_latest_known_attestations s !! at_validator_id att = Some k →
  ad_slot (at_data att) < ad_slot k →
  fc_latest_new_attestations s !! at_validator_id att = None →
  ∃ s1 r s2, onAttestation att false s = (Ok (), s1) ∧ acceptNewAttestations s1 = (r, s2) ∧
    fc_latest_known_attestations s2 !! at_validator_id att = Some (at_data att).
Proof.
  intros Hp Hok Hk Hlt Hn. destruct (onAttestation_run att false s Hp Hok) as (p & _ & Hrun). rewrite Hn in Hrun.
  eexists. destruct (acceptNewAttestations_fields (set_attestations (fc_latest_known_attestations s)
    (<[at_validator_id att := at_data att]> (fc_latest_new_attestations s)) (set_block_tree p s)))
    as (r & s2 & Hr & Hknown & _).
  exists r, s2. split; [exact Hrun|]. split; [exact Hr|]. rewrite Hknown. simpl.
  apply lookup_union_Some_l, lookup_insert_eq.
Qed.

(** C25: the attestation target is an ancestor of the head at a justifiable slot.  It is
    found by stepping back over at most three blocks later than both the safe target and
    the justified block, and then to the nearest ancestor whose slot is justifiable
    after the finalized slot; the search always ends inside the tree, without the fatal
    error or the failed assertion. *)
Theorem attestation_target_justifiable justified hn s :
  at_state t g ev (fc_block_tree s) a → bt_wf t a → valid (ct_nodes t) hn →
  bi_slot (ct_root t) ≤ cp_slot justified → (tree_fuel (ct_nodes t) ≤ loop_fuel)%nat →
  let limit := N.max (cp_slot (fc_safe_target s)) (cp_slot justified) in
  ∃ m m1 l1 l2 s',
    getAttestationTarget justified (BlockIndex_to_Checkpoint hn) None s = (Ok (BlockIndex_to_Checkpoint m), s') ∧
    valid (ct_nodes t) m ∧
    up (ct_nodes t) m1 hn l1 ∧ lengthN l1 ≤ JUSTIFICATION_LOOKBACK_SLOTS ∧
    (∀ x, x ∈ l1 → limit < bi_slot x) ∧ (bi_slot m1 ≤ limit ∨ lengthN l1 = JUSTIFICATION_LOOKBACK_SLOTS) ∧
    up (ct_nodes t) m m1 l2 ∧
    isJustifiableSlot (bi_slot (ct_root t)) (bi_slot m) = Ok true ∧
    (∀ x, x ∈ l2 → isJustifiableSlot (bi_slot (ct_root t)) (bi_slot x) = Ok false).
Proof.
  intros Hp Hwf Hv Hr Hf limit.
  destruct (getAttestationTarget_spec t g ev a Hwf justified hn s Hp Hv Hr Hf)
    as (m & m1 & l1 & l2 & (p & Hrun & _) & Hrest).
  exists m, m1, l1, l2. eexists. split; [exact Hrun|exact Hrest].
Qed.
End theorems.

(** C26: collecting proofs loses no vote.  Adding a proof to an entry keeps signatures
    disjoint from the proofs, the validators that attested become those of the entry and
    of the new proof, and aggregating the entry yields a proof of exactly the validators
    that attested. *)
Theorem aggregation_loses_no_vote `{!SszHash} `{!XmssProvider} p e :
  disjoint_entry e →
  disjoint_entry (add_proof p e) ∧
  (∀ i, attested (add_proof p e) i ↔ attested e i ∨ Bits.contains (asp_participants p) i = true) ∧
  (∀ state saa, aggregate_entry state (add_proof p e) = Ok saa →
     saa_data saa = abd_data e ∧
     ∀ i, Bits.contains (asp_participants (saa_proof saa)) i = true ↔
       attested e i ∨ Bits.contains (asp_participants p) i = true).
Proof.
  intros Hd. split; [by apply add_proof_disjoint|]. split; [intros i; by apply add_proof_attested|].
  intros state saa Ha.
  assert (Hdata : abd_data (add_proof p e) = abd_data e).
  { by destruct (add_proof_cases p e) as [[_ ->]| ->]. }
  split.
  - destruct (aggregate_entry_participants state _ saa 0 Ha) as [-> _]. done.
  - intros i. destruct (aggregate_entry_participants state _ saa i Ha) as [_ ->]. by apply add_proof_attested.
Qed.

Section block_theorems.
Context {S : Type} `{!SszHash} `{!BlockStorage S} `{!BlockStorageLaws S} `{!BuildMode} `{!UnorderedMap}.
Context `{!XmssProvider} `{!NodeKeys} `{!LoopFuel}.
Implicit Types s : ForkChoiceStore S.

(** A block with a proposer index outside the validator set makes onBlock throw
    std::out_of_range: the signature check looks the proposer up with at() before the
    state transition checks the index.  The block needs no valid proposer signature. *)
Theorem onBlock_proposer_out_of_range sb state s t g ev a :
  at_state t g ev (fc_block_tree s) a →
  ct_nodes t !! block_hash (sb_block sb) = None → a_header a (block_hash (sb_block sb)) = None →
  cached (fc_states s) (b_parent_root (sb_block sb)) state → attestations_verify state sb →
  lengthN (st_validators state) ≤ b_proposer_index (sb_block sb) →
  ∃ s', onBlock sb s = (Throw OutOfRange, s').
Proof.
  intros Hp Hn Hh Hc Hv Hi. destruct (onBlock_prefix s sb t g ev a state Hp Hn Hh Hc Hv) as (p & c & _ & _ & _ & Hrun).
  rewrite lookup_ge_None_2 in Hrun by (unfold lengthN in Hi; lia). by eexists.
Qed.

(** A block with too many attestations is refused only after it was imported: onBlock
    returns TOO_MANY_ATTESTATIONS, but the block is in the tree, its header and post-state
    are stored and the head is not updated. *)
Theorem onBlock_refuses_after_import sb state v post pn s t g ev a :
  at_state t g ev (fc_block_tree s) a → bt_wf t a →
  ct_nodes t !! block_hash (sb_block sb) = None → a_header a (block_hash (sb_block sb)) = None →
  ct_nodes t !! b_parent_root (sb_block sb) = Some pn →
  bi_slot (tn_index pn) < b_slot (sb_block sb) → b_slot (sb_block sb) < two64 →
  cached (fc_states s) (b_parent_root (sb_block sb)) state →
  lengthN (lru_cache (fc_states s)) < lru_max_size (fc_states s) →
  attestations_verify state sb →
  st_validators state !! N.to_nat (b_proposer_index (sb_block sb)) = Some v →
  xmss_verify (v_proposal_pubkey v) (sszHash_block (sb_block sb)) (u32 (b_slot (sb_block sb)))
    (bsig_proposer_signature (sb_signature sb)) = Ok true →
  stateTransition (sb_block sb) state true = Ok post →
  cp_slot (st_latest_justified post) ≤ bi_slot (ct_justified t) →
  cp_slot (st_latest_finalized post) ≤ bi_slot (ct_root t) →
  MAX_ATTESTATIONS_DATA < lengthN (bb_attestations (b_body (sb_block sb))) →
  ∃ s' t' ev' a', onBlock sb s = (Err (E_ForkChoice TOO_MANY_ATTESTATIONS), s') ∧
    at_state t' g ev' (fc_block_tree s') a' ∧ valid (ct_nodes t') (block_index (sb_block sb)) ∧
    a_header a' (block_hash (sb_block sb)) = Some (getHeader (sb_block sb)) ∧
    a_state a' (block_hash (sb_block sb)) = Some post ∧ fc_head s' = fc_head s.
Proof.
  intros Hp Hwf Hn Hh Hpn Hlt Hfit Hc Hroom Hv Hval Hx Hst Hj Hf Hmany.
  destruct (onBlock_prefix s sb t g ev a state Hp Hn Hh Hc Hv) as (p & c & Hp1 & Hpairs & Hmax & Hrun).
  rewrite Hval in Hrun. specialize (Hrun Hx). rewrite Hst in Hrun.
  rewrite (sm_bind_ok _ _ (set_states c (set_block_tree p s)) post (set_states c (set_block_tree p s))) in Hrun by done.
  destruct (store_block_spec (set_states c (set_block_tree p s)) sb pn t g ev a post Hp1 Hwf Hn Hpn Hlt Hfit)
    as (p2 & t' & ev' & a' & R2 & p3 & R3 & Hp3 & Hvb & Hroot & Hjust & Hhd & Hs).
  rewrite (sm_bind_ok _ _ _ _ _ R2), (sm_bind_ok _ _ _ _ _ R3) in Hrun.
  destruct (followCheckpoints_noop (set_block_tree p3 (set_states c (set_block_tree p s))) t' g ev' a' post Hp3)
    as (p4 & R4 & Hp4); [by rewrite Hjust|by rewrite Hroot|].
  rewrite (sm_bind_ok _ _ _ _ _ R4) in Hrun.
  destruct (lru_put_room (block_hash (sb_block sb)) post c) as (c' & Hput & _).
  { unfold lengthN in *. rewrite (pairs_length _ _ Hpairs), Hmax. done. }
  set (s4 := set_block_tree p4 (set_block_tree p3 (set_states c (set_block_tree p s)))) in Hrun.
  assert (R5 : cacheState (block_hash (sb_block sb)) post s4 = (Ok (), set_states c' s4)).
  { unfold cacheState. rewrite (sm_bind_ok _ _ s4 s4 s4) by done. change (fc_states s4) with c.
    by rewrite Hput. }
  rewrite (sm_bind_ok _ _ _ _ _ R5) in Hrun. destruct Hv as [Hlen _].
  cbv zeta in Hrun. rewrite Hlen, N.eqb_refl, (proj2 (N.ltb_lt _ _) Hmany) in Hrun. cbn [negb] in Hrun.
  exists (set_states c' s4), t', ev', a'. split; [exact Hrun|]. by split_and!.
Qed.

(** OnTick moves the clock forward to the interval of the given time, one interval at a
    time, and never past it: when it returns, the clock shows the later of its old value
    and that interval, also when a duty of some interval failed; before genesis it does
    nothing.  No duty changes the configuration, the validator or the anchor. *)
Theorem onTick_advances_clock now s :
  Interval.interval (fc_time s) < two64 →
  let '(r, s') := onTick now s in
  match Interval.fromTime now (fc_config s) with
  | None => r = Ok [] ∧ s' = s
  | Some i =>
      Interval.interval (fc_time s) ≤ Interval.interval (fc_time s') ∧
      Interval.interval (fc_time s') ≤ N.max (Interval.interval (fc_time s)) (Interval.interval i) ∧
      frame (clock (Interval.interval (fc_time s')) s) s' ∧
      ∀ actions, r = Ok actions →
        Interval.interval (fc_time s') = N.max (Interval.interval (fc_time s)) (Interval.interval i)
  end.
Proof.
  intros Hb. pose proof (onTick_time now s Hb) as Htime. destruct (onTick now s) as [r s'].
  destruct (Interval.fromTime now (fc_config s)); [|done]. destruct Htime as (Hle & Hmax & Hfr & Hok).
  split_and!; [done..|]. intros actions ->. exact Hok.
Qed.
End block_theorems.

(** C29: the LRU cache implements a list of pairs ordered by latest use, also across the overflow of
    its tick counter, and every operation keeps its invariant.  get finds a pair exactly when one with
    the key is listed and moves it to the front; put adds its pair in front, also when the key is
    listed already, and drops the least recently used pair of a full cache; erase removes one pair
    with the key, and erase_if the pairs that the predicate selects.  put is undefined behaviour in no
    other case than a full cache that holds an equal value. *)
Theorem lru_cache_refines {K V : Type} `{EqDecision K} `{EqDecision V} (c : LruCache K V) l :
  lru_wf c → recency c l →
  (∀ k, let '(r, c') := lru_get k c in
     lru_wf c' ∧ lru_max_size c' = lru_max_size c ∧
     match r with
     | Some v => ∃ l1 l2, l = l1 ++ (k, v) :: l2 ∧ recency c' ((k, v) :: l1 ++ l2)
     | None => (k ∉ l.*1) ∧ recency c' l
     end) ∧
  (∀ k v,
     (∃ c', lru_put k v c = Ok (v, c') ∧ lru_wf c' ∧ lru_max_size c' = lru_max_size c ∧
        recency c' (take (N.to_nat (lru_max_size c)) ((k, v) :: l))) ∨
     (lru_put k v c = Throw UndefinedBehaviour ∧ lengthN l = lru_max_size c ∧ v ∈ l.*2)) ∧
  (∀ k, lru_wf (lru_erase k c) ∧
     (((k ∉ l.*1) ∧ recency (lru_erase k c) l) ∨
      ∃ v l1 l2, l = l1 ++ (k, v) :: l2 ∧ recency (lru_erase k c) (l1 ++ l2))) ∧
  (∀ predicate, lru_wf (lru_erase_if predicate c) ∧
     recency (lru_erase_if predicate c) (filter (λ p, predicate p.1 p.2 = false) l)).
Proof.
  intros Hwf Hr. split_and!; intros.
  - by apply lru_get_refines.
  - by apply lru_put_refines.
  - by apply lru_erase_refines.
  - by apply lru_erase_if_refines.
Qed.

(** ** The theorems on an example store *)
Module FcEx.
Import FcStore.
#[local] Existing Instance ReleaseBuild.
#[local] Existing Instance CanonicalOrder.
#[local] Existing Instance ToyXmss.
#[local] Existing Instance ToyKeys.
#[local] Existing Instance ToyFuel.

Lemma lmd_ghost_correct_witness :
  ∃ r s', computeLmdGhostHead (bi_hash genesis_index) votes 1 s_ex = (Ok (bi_hash r), s').
Proof.
  destruct (store_facts (cp_of genesis_index) votes ∅)
    as (t & ev & a & Hp & Hwf & Hold & Hag & Han & Hf & _ & Hj & _). rewrite Hj in Han.
  destruct (lmd_ghost_correct t None ev a _ _ votes 1 s_ex Hp Hwf Hold Hag Han)
    as (r & s' & Hr & _); [lia|by vm_compute|]. exists r, s'. exact Hr.
Defined.

(** A store whose head is a block that is not stored any more. *)
Definition s_pruned : ForkChoiceStore ToyS := store (mkCheckpoint 42 3) votes ∅.
Lemma updateHead_follows_ghost_witness :
  (∃ r p', updateHead s_ex = (Ok (), set_head (cp_of r) (set_block_tree p' s_ex))) ∧
  ∃ s', updateHead s_pruned = (Err (E_BlockStorage BS_HEADER_NOT_FOUND), s') ∧ fc_head s' = fc_head s_pruned.
Proof.
  split.
  - destruct (store_facts (cp_of genesis_index) votes ∅)
      as (t & ev & a & Hp & Hwf & Hold & Hag & Han & Hf & Hr & _).
    destruct (updateHead_follows_ghost t None ev a genesis_index s_ex Hp Hwf Hold Hag Han Hf) as [Hgo _]; [by vm_compute|].
    destruct (Hgo genesis_index) as (r & p' & Hrun & _); [|reflexivity|exists r, p'; exact Hrun].
    rewrite <- Hr. apply (valid_root _ _ (tw_nodes _ (bw_tree _ _ Hwf))).
  - destruct (store_facts (mkCheckpoint 42 3) votes ∅)
      as (t & ev & a & Hp & Hwf & Hold & Hag & Han & Hf & Hr & _ & _ & _ & Hno).
    destruct (updateHead_follows_ghost t None ev a genesis_index s_pruned Hp Hwf Hold Hag Han Hf) as [_ Hno']; [by vm_compute|].
    apply Hno'; [apply Hno; by vm_compute|rewrite Hr; by vm_compute].
Defined.

Definition vote_att (slot : Slot) : Attestation := mkAttestation 0 (vote slot child_index).

Lemma find_lookup t h q : find t h = Some q → is_Some (ct_nodes t !! h).
Proof. unfold find. destruct (ct_nodes t !! h); [by eexists|done]. Qed.

Lemma vote_acceptable t a head known new slot :
  find t (bi_hash genesis_index) = Some genesis_index →
  find t (bi_hash child_index) = Some child_index → slot ≤ 4 →
  acceptable t a (vote_att slot) false (store head known new).
Proof.
  intros Hg Hc Hs. pose proof (find_lookup _ _ _ Hg) as Hg'. pose proof (find_lookup _ _ _ Hc) as Hc'.
  assert (Hbs : ∀ q, find t (bi_hash q) = Some q → block_slot t a (store head known new) (bi_hash q) = Some (bi_slot q)).
  { intros q Hq. unfold block_slot, store. cbn [fc_anchor_block_slots]. by rewrite lookup_empty, Hq. }
  split; [right; left; exact Hg'|]. split; [right; left; exact Hc'|]. split; [right; left; exact Hc'|].
  assert (Hcur : getCurrentSlot (store head known new) = 4) by reflexivity.
  split; [|intros _; rewrite Hcur; exact Hs].
  split; [by vm_compute|]. split; [by vm_compute|]. split; [exact (Hbs _ Hg)|]. split; [exact (Hbs _ Hc)|].
  rewrite Hcur. change (slot ≤ 5). lia.
Qed.

(** A vote from genesis to its child is valid; one with an unknown source is refused for it. *)
Definition unknown_source : Attestation :=
  mkAttestation 0 (mkAttestationData 2 (cp_of child_index) (cp_of child_index) (mkCheckpoint 42 0)).
Lemma validateAttestation_decides_witness :
  (∃ s', validateAttestation (vote_att 2) s_ex = (Ok (), s')) ∧
  ∃ s', validateAttestation unknown_source s_ex
        = (Err (E_ForkChoice CANT_VALIDATE_ATTESTATION_SOURCE_NOT_FOUND), s').
Proof.
  destruct (store_facts (cp_of genesis_index) votes ∅)
    as (t & ev & a & Hp & _ & _ & _ & _ & _ & _ & _ & Hg & Hc & Hno). split.
  - destruct (validateAttestation_decides t None ev a (vote_att 2) s_ex Hp) as (r & s' & Hr & Hok & _).
    destruct (vote_acceptable t a (cp_of genesis_index) votes ∅ 2 Hg Hc) as (Hs & Ht & Hh & Hcons & _); [lia|].
    exists s'. rewrite (proj2 Hok (conj Hs (conj Ht (conj Hh Hcons)))) in Hr. exact Hr.
  - destruct (validateAttestation_decides t None ev a unknown_source s_ex Hp) as (r & s' & Hr & _ & Hsrc & _).
    exists s'. rewrite <- (proj2 Hsrc); [exact Hr|]. destruct (Hno 42) as [Hn Hh]; [by vm_compute..|].
    unfold known_block. cbn. rewrite Hn, Hh. intros [Hx|[Hx|Hx]]; by destruct Hx.
Defined.

Lemma onAttestation_keeps_latest_witness :
  ∃ s', onAttestation (vote_att 3) false s_ex = (Ok (), s') ∧
    fc_latest_known_attestations s' = fc_latest_known_attestations s_ex.
Proof.
  destruct (store_facts (cp_of genesis_index) votes ∅)
    as (t & ev & a & Hp & _ & _ & _ & _ & _ & _ & _ & Hg & Hc & _).
  destruct (onAttestation_keeps_latest t None ev a (vote_att 3) false s_ex Hp)
    as (s' & Hr & _ & _ & _ & _ & Hk); [apply vote_acceptable; [exact Hg|exact Hc|lia]|].
  exists s'. exact (conj Hr (Hk eq_refl)).
Defined.

(** A vote for slot 1 arrives after the vote for slot 2 is known. *)
Lemma known_vote_can_regress_witness :
  ∃ s1 r s2, onAttestation (vote_att 1) false s_ex = (Ok (), s1) ∧ acceptNewAttestations s1 = (r, s2) ∧
    fc_latest_known_attestations s2 !! 0 = Some (vote 1 child_index).
Proof.
  destruct (store_facts (cp_of genesis_index) votes ∅)
    as (t & ev & a & Hp & _ & _ & _ & _ & _ & _ & _ & Hg & Hc & _).
  apply (known_vote_can_regress t None ev a (vote_att 1) (vote 2 child_index) s_ex Hp);
    [apply vote_acceptable; [exact Hg|exact Hc|lia]|reflexivity|reflexivity|reflexivity].
Defined.

Lemma attestation_target_justifiable_witness :
  ∃ m s', getAttestationTarget (cp_of genesis_index) (cp_of child_index) None s_ex = (Ok (cp_of m), s') ∧
    isJustifiableSlot 0 (bi_slot m) = Ok true.
Proof.
  destruct (store_facts (cp_of genesis_index) votes ∅)
    as (t & ev & a & Hp & Hwf & _ & _ & _ & Hf & Hr & _ & _ & Hc & _).
  destruct (attestation_target_justifiable t None ev a (cp_of genesis_index) child_index s_ex Hp Hwf)
    as (m & m1 & l1 & l2 & s' & Hrun & _ & _ & _ & _ & _ & _ & Hm & _).
  - apply (find_valid _ _ _ (bw_tree _ _ Hwf) Hc).
  - rewrite Hr. by vm_compute.
  - lia.
  - exists m, s'. split; [exact Hrun|]. rewrite Hr in Hm. exact Hm.
Defined.

(** Votes of validators 1 and 2 by signature, and a proof of 0 and 1. *)
Definition entry : AttestationsByData :=
  mkAttestationsByData (vote 2 child_index) {[1 := 5; 2 := 5]} [].
Definition proof01 : AggregatedSignatureProof :=
  mkAggregatedSignatureProof (mkAggregationBits [true; true]) [1].
Lemma aggregation_loses_no_vote_witness :
  disjoint_entry entry ∧ disjoint_entry (add_proof proof01 entry) ∧
  (attested (add_proof proof01 entry) 2 ↔ attested entry 2 ∨ Bits.contains (asp_participants proof01) 2 = true).
Proof.
  assert (Hd : disjoint_entry entry) by (intros i _ (p & Hp & _); by apply elem_of_nil in Hp).
  destruct (aggregation_loses_no_vote proof01 entry Hd) as (Hd' & Ha & _).
  exact (conj Hd (conj Hd' (Ha 2))).
Defined.

Lemma genesis_cached head known new : cached (fc_states (store head known new)) (bi_hash genesis_index) Ex.s0.
Proof.
  unfold cached, store, pairs, entry_pair. cbn [fc_states lru_cache fmap list_fmap ce_key ce_value].
  split; [by apply list_elem_of_singleton|]. intros v' Hv. apply list_elem_of_singleton in Hv. by injection Hv.
Qed.

(** A block of validator 7 of a single validator. *)
Definition bad_proposer : SignedBlock :=
  mkSignedBlock (mkBlock 1 7 (bi_hash genesis_index) 5 (mkBlockBody [])) (mkBlockSignatures [] 1).
Lemma onBlock_proposer_out_of_range_witness : ∃ s', onBlock bad_proposer s_ex = (Throw OutOfRange, s').
Proof.
  destruct (store_facts (cp_of genesis_index) votes ∅)
    as (t & ev & a & Hp & _ & _ & _ & _ & _ & _ & _ & _ & _ & Hno).
  destruct (Hno (block_hash (sb_block bad_proposer))) as [Hn Hh]; [by vm_compute..|].
  apply (onBlock_proposer_out_of_range bad_proposer Ex.s0 s_ex t None ev a Hp Hn Hh (genesis_cached _ _ _));
    [split; reflexivity|by vm_compute].
Defined.

(** A valid child of genesis at slot 2 with seventeen attestations for genesis. *)
Definition crowded : SignedBlock :=
  mkSignedBlock
    (Ex.child Ex.s0 2 (replicate 17 (mkAggregatedAttestation (mkAggregationBits [true])
       (mkAttestationData 1 (mkCheckpoint 0 0) (mkCheckpoint 0 0) (mkCheckpoint 0 0)))))
    (mkBlockSignatures (replicate 17 (mkAggregatedSignatureProof (mkAggregationBits [true]) [1])) 1).
Lemma crowded_post : ∃ post, stateTransition (sb_block crowded) Ex.s0 true = Ok post ∧
  cp_slot (st_latest_justified post) = 0 ∧ cp_slot (st_latest_finalized post) = 0.
Proof.
  destruct (stateTransition (sb_block crowded) Ex.s0 true) as [post| |] eqn:Hst;
    [|exfalso; revert Hst; by vm_compute..].
  exists post. split; [reflexivity|].
  assert (Hok : match stateTransition (sb_block crowded) Ex.s0 true with
    | Ok post => cp_slot (st_latest_justified post) = 0 ∧ cp_slot (st_latest_finalized post) = 0
    | _ => False end) by (vm_compute; split; reflexivity).
  rewrite Hst in Hok. exact Hok.
Qed.

Lemma onBlock_refuses_after_import_witness :
  ∃ s', onBlock crowded s_ex = (Err (E_ForkChoice TOO_MANY_ATTESTATIONS), s') ∧ fc_head s' = fc_head s_ex.
Proof.
  destruct (store_facts (cp_of genesis_index) votes ∅)
    as (t & ev & a & Hp & Hwf & _ & _ & _ & _ & Hr & Hj & Hg & _ & Hno).
  destruct (Hno (block_hash (sb_block crowded))) as [Hn Hh]; [by vm_compute..|].
  destruct crowded_post as (post & Hst & Hpj & Hpf).
  destruct (ct_nodes t !! bi_hash genesis_index) as [pn|] eqn:Hpn; [|unfold find in Hg; rewrite Hpn in Hg; discriminate Hg].
  assert (Hpi : tn_index pn = genesis_index) by (unfold find in Hg; rewrite Hpn in Hg; by injection Hg).
  assert (Hpar : b_parent_root (sb_block crowded) = bi_hash genesis_index) by (by vm_compute).
  rewrite <- Hpar in Hpn. pose proof (genesis_cached (cp_of genesis_index) votes ∅) as Hc. rewrite <- Hpar in Hc.
  assert (Hlt : bi_slot (tn_index pn) < b_slot (sb_block crowded)) by (rewrite Hpi; by vm_compute).
  assert (Hfit : b_slot (sb_block crowded) < two64) by (by vm_compute).
  assert (Hroom : lengthN (lru_cache (fc_states s_ex)) < lru_max_size (fc_states s_ex)) by reflexivity.
  assert (Hsig : attestations_verify Ex.s0 crowded) by (split; by vm_compute).
  assert (Hprop : st_validators Ex.s0 !! N.to_nat (b_proposer_index (sb_block crowded)) = Some (mkValidator 11 12 0))
    by (by vm_compute).
  destruct (onBlock_refuses_after_import crowded Ex.s0 _ post pn s_ex t None ev a Hp Hwf Hn Hh Hpn Hlt Hfit Hc Hroom Hsig Hprop
    eq_refl Hst) as (s' & t' & ev' & a' & Hrun & _ & _ & _ & _ & Hhead);
    [rewrite Hpj; apply N.le_0_l|rewrite Hpf; apply N.le_0_l|by vm_compute|].
  exists s'. exact (conj Hrun Hhead).
Defined.

(** Genesis is at 1000 s: a tick at 1018 s. *)
Lemma onTick_advances_clock_witness : ∃ r s', onTick 1018000 s_ex = (r, s') ∧ 20 ≤ Interval.interval (fc_time s').
Proof.
  pose proof (onTick_advances_clock 1018000 s_ex eq_refl) as Ht.
  destruct (onTick 1018000 s_ex) as [r s']. exists r, s'. split; [reflexivity|].
  destruct (Interval.fromTime 1018000 (fc_config s_ex)) as [i|] eqn:Hi; [exact (proj1 Ht)|discriminate Hi].
Defined.

(** A full cache of two entries whose tick counter is about to overflow. *)
Definition old_cache : LruCache N N :=
  mkLruCache 2 (two64 - 1) [mkCacheEntry 1 10 (two64 - 1); mkCacheEntry 2 20 7].
Lemma old_cache_wf : lru_wf old_cache.
Proof.
  constructor; [reflexivity|reflexivity|reflexivity|reflexivity|intros e He|by apply (bool_decide_unpack _)..].
  apply elem_of_cons in He as [->|He]; [reflexivity|]. apply list_elem_of_singleton in He as ->. discriminate.
Qed.
Lemma lru_cache_refines_witness :
  (∃ c', lru_put 3 30 old_cache = Ok (30, c') ∧ recency c' [(3, 30); (1, 10)]) ∧
  (∃ c', lru_put 1 40 old_cache = Ok (40, c') ∧ recency c' [(1, 40); (1, 10)]) ∧
  lru_put 3 20 old_cache = Throw UndefinedBehaviour.
Proof.
  assert (Hr : recency old_cache [(1, 10); (2, 20)]).
  { exists (lru_cache old_cache). split; [reflexivity|]. split; [|reflexivity].
    repeat constructor; by vm_compute. }
  destruct (lru_cache_refines old_cache _ old_cache_wf Hr) as (_ & Hput & _). split_and!.
  - destruct (Hput 3 30) as [(c' & Hc & _ & _ & Hrec)|(Hub & _)]; [exists c'; exact (conj Hc Hrec)|discriminate Hub].
  - destruct (Hput 1 40) as [(c' & Hc & _ & _ & Hrec)|(Hub & _)]; [exists c'; exact (conj Hc Hrec)|discriminate Hub].
  - destruct (Hput 3 20) as [(c' & Hc & _)|(Hub & _)]; [discriminate Hc|exact Hub].
Defined.
End FcEx.
