(* ===== verification/Networking.v ===== *)
(** * Block synchronization (src/src/modules/networking/networking.{hpp,cpp})

    The part of NetworkingImpl that receives blocks, attestations and statuses: blocks
    whose parent is unknown wait in a cache until the parent arrives, then the cached
    subtree is imported.  All handlers run on the thread of the io_context, so each is
    one step on [Networking].  The block tree and the fork choice store are reached
    through the interface [Chain]; requests to peers are recorded. *)

From S2P Require Import Prelude Errors Types CachedTree.

(** What the module uses of BlockTree and ForkChoiceStoreMutex. *)
Class Chain (C : Type) := {
  ch_has : BlockHash → SM C error bool;
  ch_lastFinalized : SM C error BlockIndex;
  ch_bestBlock : SM C error BlockIndex;
  ch_getSlotByHash : BlockHash → SM C error Slot;
  ch_onBlock : SignedBlock → SM C error ();
  ch_onGossipAttestation : SignedAttestation → SM C error ();
  ch_onGossipAggregatedAttestation : SignedAggregatedAttestation → SM C error ();
}.

(** [std::unordered_multimap::emplace] inserts at an unspecified position. *)
Class UnorderedMultimap := {
  mm_emplace {A} : A → list A → list A;
  mm_emplace_perm {A} (x : A) l : mm_emplace x l ≡ₚ x :: l;
}.
Definition AppendOrder : UnorderedMultimap :=
  {| mm_emplace A x l := x :: l; mm_emplace_perm A x l := Permutation_refl _ |}.

(** equal_range: the mapped values of a key, in iteration order. *)
Definition equal_range {K V} `{EqDecision K} (k : K) (m : list (K * V)) : list V :=
  (filter (λ p, p.1 = k) m).*2.
(** erase of an iterator range with one key *)
Definition erase_key {K V} `{EqDecision K} (k : K) (m : list (K * V)) : list (K * V) :=
  filter (λ p, p.1 ≠ k) m.
(** erase of the element an iterator points to; a dangling iterator is undefined. *)
Fixpoint erase_element {A} `{EqDecision A} (x : A) (m : list A) : result (list A) :=
  match m with
  | [] => Throw UndefinedBehaviour
  | y :: m => if decide (y = x) then Ok m else m' ← erase_element x m; Ok (y :: m')
  end.

Abbreviation PeerId := N (only parsing).
(** Clock::now(), in nanoseconds *)
Definition kRetryRequestBlock : N := 3 * 1000000000.

(** StatusMessage and messages::StatusMessageReceived *)
Record StatusMessage := mkStatusMessage {
  sm_finalized : Checkpoint;
  sm_head : Checkpoint;
}.
Record StatusMessageReceived := mkStatusMessageReceived {
  smr_from_peer : PeerId;
  smr_notification : StatusMessage;
}.

(** BlockCacheItem; [child_it] points to an element of block_children_, the pair of
    the parent's hash and the block's hash. *)
Record BlockCacheItem := mkBlockCacheItem {
  bci_child_it : BlockHash * BlockHash;
  bci_block : SignedBlock;
}.

(** The fields of NetworkingImpl used here.  [nw_requests] are the block requests
    under way, [nw_statuses] the statuses dispatched to other modules. *)
Record Networking (C : Type) := mkNetworking {
  nw_chain : C;
  nw_block_requested_at : gmap BlockHash N;
  nw_block_cache : gmap BlockHash BlockCacheItem;
  nw_block_children : list (BlockHash * BlockHash);
  nw_attestation_cache : list (BlockHash * SignedAttestation);
  nw_aggregated_attestation_cache : list (BlockHash * SignedAggregatedAttestation);
  nw_requests : list (PeerId * BlockHash);
  nw_statuses : list StatusMessageReceived;
}.
Arguments mkNetworking {C} _ _ _ _ _ _ _ _.
Arguments nw_chain {C} _.
Arguments nw_block_requested_at {C} _.
Arguments nw_block_cache {C} _.
Arguments nw_block_children {C} _.
Arguments nw_attestation_cache {C} _.
Arguments nw_aggregated_attestation_cache {C} _.
Arguments nw_requests {C} _.
Arguments nw_statuses {C} _.

Section setters.
Context {C : Type}.
Implicit Types s : Networking C.
Definition set_chain (x : C) s : Networking C :=
  mkNetworking x (nw_block_requested_at s) (nw_block_cache s) (nw_block_children s)
    (nw_attestation_cache s) (nw_aggregated_attestation_cache s) (nw_requests s) (nw_statuses s).
Definition set_requested (at_ : gmap BlockHash N) (reqs : list (PeerId * BlockHash)) s : Networking C :=
  mkNetworking (nw_chain s) at_ (nw_block_cache s) (nw_block_children s)
    (nw_attestation_cache s) (nw_aggregated_attestation_cache s) reqs (nw_statuses s).
Definition set_blocks (cache : gmap BlockHash BlockCacheItem) (children : list (BlockHash * BlockHash)) s
    : Networking C :=
  mkNetworking (nw_chain s) (nw_block_requested_at s) cache children
    (nw_attestation_cache s) (nw_aggregated_attestation_cache s) (nw_requests s) (nw_statuses s).
Definition set_pending (l : list (BlockHash * SignedAttestation))
    (l' : list (BlockHash * SignedAggregatedAttestation)) s : Networking C :=
  mkNetworking (nw_chain s) (nw_block_requested_at s) (nw_block_cache s) (nw_block_children s)
    l l' (nw_requests s) (nw_statuses s).
Definition add_status (m : StatusMessageReceived) s : Networking C :=
  mkNetworking (nw_chain s) (nw_block_requested_at s) (nw_block_cache s) (nw_block_children s)
    (nw_attestation_cache s) (nw_aggregated_attestation_cache s) (nw_requests s) (nw_statuses s ++ [m]).
End setters.

Section networking.
Context {C : Type} `{Chain C} `{SszHash} `{UnorderedMultimap}.
Local Abbreviation M := (SM (Networking C) error).

Definition chain {A} (m : SM C error A) : M A := λ s,
  let '(r, c) := m (nw_chain s) in (r, set_chain c s).

(** ** Requests *)

(** The loop of requestBlock: from a cached block to its first ancestor that is not
    cached; [None] when a cached block is not later than the finalized one. *)
Fixpoint missing_ancestor (fuel : nat) (finalized_slot : Slot)
    (cache : gmap BlockHash BlockCacheItem) (block_hash : BlockHash) : result (option BlockHash) :=
  match fuel with
  | O => Throw OutOfFuel
  | S fuel =>
      match cache !! block_hash with
      | None => Ok (Some block_hash)
      | Some item =>
          let block := sb_block (bci_block item) in
          if b_slot block <=? finalized_slot then Ok None
          else missing_ancestor fuel finalized_slot cache (b_parent_root block)
      end
  end.

Definition requestBlock (now : N) (peer_id : PeerId) (block_hash : BlockHash) : M () :=
  finalized ← chain ch_lastFinalized;
  s ← sm_get;
  missing ← sm_lift (missing_ancestor (S (size (nw_block_cache s))) (bi_slot finalized)
                       (nw_block_cache s) block_hash);
  match missing with
  | None => mret ()
  | Some block_hash =>
      known ← chain (ch_has block_hash);
      if (known : bool) then mret ()
      else
        s ← sm_get;
        (* block_requested_at_[block_hash] *)
        let requested_at := default 0 (nw_block_requested_at s !! block_hash) in
        if now <? requested_at + kRetryRequestBlock
        then sm_put (set_requested (<[block_hash := requested_at]> (nw_block_requested_at s)) (nw_requests s) s)
        else sm_put (set_requested (<[block_hash := now]> (nw_block_requested_at s))
                       (nw_requests s ++ [(peer_id, block_hash)]) s)
  end.

(** ** Importing a cached subtree *)

(** consumeMultimap on both attestation caches *)
Definition consume_pending (block_hash : BlockHash)
    : M (list SignedAttestation * list SignedAggregatedAttestation) :=
  s ← sm_get;
  sm_put (set_pending (erase_key block_hash (nw_attestation_cache s))
            (erase_key block_hash (nw_aggregated_attestation_cache s)) s) ≫= λ _,
  mret (equal_range block_hash (nw_attestation_cache s),
        equal_range block_hash (nw_aggregated_attestation_cache s)).

(** The type BlockConsumer; an empty std::function is [None]. *)
Definition BlockConsumer : Type :=
  bool → SignedBlock → list SignedAttestation → list SignedAggregatedAttestation → M bool.

(** The body of the loop of consumeBlockTree: the block leaves the caches and is given
    to the consumer. *)
Definition consume_block (consume : option BlockConsumer) (good : bool) (block_hash : BlockHash) : M bool :=
  s ← sm_get;
  match nw_block_cache s !! block_hash with
  | None => sm_throw Fatal
  | Some item =>
      children ← sm_lift (erase_element (bci_child_it item) (nw_block_children s));
      sm_put (set_blocks (delete block_hash (nw_block_cache s)) children s) ≫= λ _,
      pending ← consume_pending block_hash;
      match consume with
      | Some consume => consume good (bci_block item) pending.1 pending.2
      | None => mret good
      end
  end.

(** The loop of consumeBlockTree over its queue. *)
Fixpoint consume_queue (fuel : nat) (consume : option BlockConsumer) (queue : list (bool * BlockHash))
    : M () :=
  match queue with
  | [] => mret ()
  | (good, block_hash) :: queue =>
      match fuel with
      | O => sm_throw OutOfFuel
      | S fuel =>
          new_good ← consume_block consume good block_hash;
          s ← sm_get;
          consume_queue fuel consume
            (queue ++ ((λ child, (new_good, child)) <$> equal_range block_hash (nw_block_children s)))
      end
  end.

(** Every turn takes a block out of the cache, so its size bounds the loop. *)
Definition consumeBlockTree (init_good : bool) (init_hash : BlockHash) (consume : option BlockConsumer)
    : M () :=
  s ← sm_get;
  consume_queue (S (size (nw_block_cache s))) consume [(init_good, init_hash)].

(** prune *)
Definition prune : M () :=
  finalized ← chain ch_lastFinalized;
  s ← sm_get;
  let old (item : BlockCacheItem) := b_slot (sb_block (bci_block item)) <=? bi_slot finalized in
  let erased := filter (λ '(_, item), old item = true) (nw_block_cache s) in
  children ← sm_lift (oc_foldl (λ children item, erase_element (bci_child_it item) children)
                        (nw_block_children s) (map_to_list erased).*2);
  sm_put (set_pending
    (filter (λ '(_, a), ¬ cp_slot (ad_head (sa_data a)) ≤ bi_slot finalized) (nw_attestation_cache s))
    (filter (λ '(_, a), ¬ cp_slot (ad_head (saa_data a)) ≤ bi_slot finalized)
       (nw_aggregated_attestation_cache s))
    (set_blocks (filter (λ '(_, item), old item = false) (nw_block_cache s)) children s)).

(** ** Receiving *)

(** The consumer of receiveBlock: [good] is not used. *)
Definition import_block : BlockConsumer := λ _ block attestations aggregated_attestations,
  block_res ← sm_try (chain (ch_onBlock block));
  match block_res with
  | inr _ => mret false
  | inl _ =>
      sm_iter (λ a, sm_try (chain (ch_onGossipAttestation a)) ≫= λ _, mret ()) attestations ≫= λ _,
      sm_iter (λ a, sm_try (chain (ch_onGossipAggregatedAttestation a)) ≫= λ _, mret ())
        aggregated_attestations ≫= λ _,
      mret true
  end.

Definition request_parent (now : N) (from_peer : option PeerId) (parent_hash : BlockHash) : M () :=
  match from_peer with
  | Some peer_id => requestBlock now peer_id parent_hash
  | None => mret ()
  end.

(** receiveBlock.  The loop over the children of a block at a finalized slot erases the
    element its iterator points to; advancing the iterator is undefined. *)
Definition receiveBlock (now : N) (from_peer : option PeerId) (signed_block : SignedBlock) : M () :=
  let block_index := block_index (sb_block signed_block) in
  let parent_hash := b_parent_root (sb_block signed_block) in
  s ← sm_get;
  if bool_decide (is_Some (nw_block_cache s !! bi_hash block_index))
  then request_parent now from_peer parent_hash
  else
    known ← chain (ch_has (bi_hash block_index));
    if (known : bool) then mret ()
    else
      finalized ← chain ch_lastFinalized;
      if bi_slot block_index <=? bi_slot finalized then
        s ← sm_get;
        match equal_range (bi_hash block_index) (nw_block_children s) with
        | [] => mret ()
        | child :: _ =>
            consumeBlockTree false child None ≫= λ _,
            sm_throw UndefinedBehaviour
        end
      else
        s ← sm_get;
        let child_it := (parent_hash, bi_hash block_index) in
        sm_put (set_blocks
          (<[bi_hash block_index := mkBlockCacheItem child_it signed_block]> (nw_block_cache s))
          (mm_emplace child_it (nw_block_children s)) s) ≫= λ _,
        request_parent now from_peer parent_hash ≫= λ _,
        parent_known ← chain (ch_has parent_hash);
        if negb parent_known then mret ()
        else
          consumeBlockTree true (bi_hash block_index) (Some import_block) ≫= λ _,
          prune.

(** The end of the coroutine of requestBlock. *)
Definition onBlockResponse (now : N) (peer_id : PeerId) (block_hash : BlockHash)
    (response : option SignedBlock) : M () :=
  sm_modify (λ s, set_requested (delete block_hash (nw_block_requested_at s)) (nw_requests s) s) ≫= λ _,
  match response with
  | Some block => receiveBlock now (Some peer_id) block
  | None => mret ()
  end.

(** The handlers of the attestation topics. *)
Definition onGossipVote (now : N) (peer_id : option PeerId) (sa : SignedAttestation) : M () :=
  let head := ad_head (sa_data sa) in
  known ← chain (ch_has (cp_root head));
  if negb known then
    finalized ← chain ch_lastFinalized;
    if cp_slot head <=? bi_slot finalized then mret ()
    else
      sm_modify (λ s, set_pending (mm_emplace (cp_root head, sa) (nw_attestation_cache s))
                        (nw_aggregated_attestation_cache s) s) ≫= λ _,
      request_parent now peer_id (cp_root head)
  else sm_try (chain (ch_onGossipAttestation sa)) ≫= λ _, mret ().

Definition onGossipAggregation (now : N) (peer_id : option PeerId) (saa : SignedAggregatedAttestation)
    : M () :=
  let head := ad_head (saa_data saa) in
  known ← chain (ch_has (cp_root head));
  if negb known then
    finalized ← chain ch_lastFinalized;
    if cp_slot head <=? bi_slot finalized then mret ()
    else
      sm_modify (λ s, set_pending (nw_attestation_cache s)
                        (mm_emplace (cp_root head, saa) (nw_aggregated_attestation_cache s)) s) ≫= λ _,
      request_parent now peer_id (cp_root head)
  else sm_try (chain (ch_onGossipAggregatedAttestation saa)) ≫= λ _, mret ().

(** ** Status *)

Definition getStatus : M StatusMessage :=
  finalized ← chain ch_lastFinalized;
  head ← chain ch_bestBlock;
  mret (mkStatusMessage (mkCheckpoint (bi_hash finalized) (bi_slot finalized))
          (mkCheckpoint (bi_hash head) (bi_slot head))).

Definition statusFinalizedIsGood (slot_hash : BlockIndex) : M bool :=
  expected ← sm_try (chain (ch_getSlotByHash (bi_hash slot_hash)));
  match expected with
  | inl slot => mret (bi_slot slot_hash =? slot)
  | inr _ => finalized ← chain ch_lastFinalized; mret (bi_slot finalized <? bi_slot slot_hash)
  end.

Definition receiveStatus (now : N) (message : StatusMessageReceived) : M () :=
  let status := smr_notification message in
  let finalized := mkBlockIndex (cp_slot (sm_finalized status)) (cp_root (sm_finalized status)) in
  let head := mkBlockIndex (cp_slot (sm_head status)) (cp_root (sm_head status)) in
  finalized_good ← statusFinalizedIsGood finalized;
  if negb finalized_good then mret ()
  else
    head_good ← statusFinalizedIsGood head;
    if negb head_good then mret ()
    else
      last_finalized ← chain ch_lastFinalized;
      (if bi_slot last_finalized <? bi_slot head then
         known ← chain (ch_has (bi_hash head));
         if negb known then requestBlock now (smr_from_peer message) (bi_hash head) else mret ()
       else mret ()) ≫= λ _,
      sm_modify (add_status message).
End networking.
