(* ===== verification/NetworkingProofs.v ===== *)
(** * Block synchronization: the caches

    The block cache and the table of children describe one forest; importing a subtree
    visits it from parents to children. *)

From S2P Require Import Prelude Errors Types CachedTree Networking.

(** ** Multimaps as lists of their elements *)

Lemma elem_of_equal_range {K V} `{EqDecision K} (k : K) (m : list (K * V)) v :
  v ∈ equal_range k m ↔ (k, v) ∈ m.
Proof.
  unfold equal_range. rewrite list_elem_of_fmap. setoid_rewrite list_elem_of_filter.
  split; [intros ([k' v'] & -> & Hk & Hm); simpl in *; by subst|].
  intros Hm. by exists (k, v).
Qed.

Lemma equal_range_NoDup {K V} `{EqDecision K} (k : K) (m : list (K * V)) :
  NoDup m → NoDup (equal_range k m).
Proof.
  intros Hm. unfold equal_range. apply NoDup_fmap_2_strong; [|by apply NoDup_filter].
  intros [k1 v1] [k2 v2] [Hk1 _]%list_elem_of_filter [Hk2 _]%list_elem_of_filter Hv. simpl in *. by subst.
Qed.

Lemma erase_element_ok {A} `{EqDecision A} (x : A) m :
  x ∈ m → ∃ m', erase_element x m = Ok m' ∧ m ≡ₚ x :: m'.
Proof.
  induction m as [|y m IH]; [by intros ?%elem_of_nil|]. intros Hx. simpl. case_decide as Hy.
  - subst. by exists m.
  - apply elem_of_cons in Hx as [->|Hx]; [done|]. destruct (IH Hx) as (m' & -> & Hp).
    exists (y :: m'). split; [done|]. rewrite Hp. by constructor.
Qed.

Lemma erase_element_spec {A} `{EqDecision A} (x : A) m m' :
  NoDup m → erase_element x m = Ok m' → NoDup m' ∧ ∀ y, y ∈ m' ↔ y ∈ m ∧ y ≠ x.
Proof.
  intros Hm He.
  assert (Hx : x ∈ m).
  { clear Hm. revert m' He. induction m as [|y m IH]; intros m' He; simpl in He; [done|]. case_decide; [set_solver|].
    destruct (erase_element x m) eqn:He'; try done. specialize (IH _ eq_refl). set_solver. }
  destruct (erase_element_ok x m Hx) as (m'' & Hm'' & Hp). rewrite He in Hm''. injection Hm'' as <-.
  rewrite Hp in Hm. apply NoDup_cons in Hm as [Hnx Hnd]. split; [done|].
  intros y. rewrite Hp, elem_of_cons. split; [intros Hy; split; [by right|congruence]|naive_solver].
Qed.

(** ** The forest of cached blocks *)

Abbreviation Cache := (gmap BlockHash BlockCacheItem).
Abbreviation Children := (list (BlockHash * BlockHash)).

Definition item_parent (item : BlockCacheItem) : BlockHash := b_parent_root (sb_block (bci_block item)).

Record cache_wf `{SszHash} (cache : Cache) (children : Children) : Prop := {
  cw_item : ∀ h item, cache !! h = Some item →
    bci_child_it item = (item_parent item, h) ∧ block_hash (sb_block (bci_block item)) = h;
  cw_children : ∀ p h, (p, h) ∈ children ↔ ∃ item, cache !! h = Some item ∧ item_parent item = p;
  cw_nodup : NoDup children;
}.

(** [x] is [y] or one of its cached descendants. *)
Inductive desc (cache : Cache) (y : BlockHash) : BlockHash → Prop :=
| desc_refl : is_Some (cache !! y) → desc cache y y
| desc_child x item : desc cache y (item_parent item) → cache !! x = Some item → desc cache y x.

Definition acyclic (cache : Cache) : Prop :=
  ∃ rank : BlockHash → nat, ∀ h item, cache !! h = Some item → (rank (item_parent item) < rank h)%nat.

(** No queued block lies below a queued block. *)
Record queue_ok (cache : Cache) (queue : list BlockHash) : Prop := {
  qo_nodup : NoDup queue;
  qo_cached : ∀ h, h ∈ queue → is_Some (cache !! h);
  qo_apart : ∀ y h item, y ∈ queue → h ∈ queue → cache !! h = Some item → ¬ desc cache y (item_parent item);
}.

Section forest.
Context `{SszHash}.
Implicit Types (cache : Cache) (children : Children).

Lemma desc_cached cache y x : desc cache y x → is_Some (cache !! x).
Proof. intros Hd. destruct Hd; [done|by eexists]. Qed.

Lemma desc_mono cache cache' y x : cache ⊆ cache' → desc cache y x → desc cache' y x.
Proof.
  intros Hs Hd. induction Hd as [[i Hi]|x item Hd IH Hx].
  - constructor. exists i. by eapply lookup_weaken.
  - econstructor; [done|]. by eapply lookup_weaken.
Qed.

Lemma desc_trans cache x y z : desc cache x y → desc cache y z → desc cache x z.
Proof. intros H1 H2. induction H2; [done|]. by econstructor. Qed.

Lemma desc_rank cache (rank : BlockHash → nat) y x :
  (∀ h item, cache !! h = Some item → (rank (item_parent item) < rank h)%nat) →
  desc cache y x → (rank y ≤ rank x)%nat.
Proof. intros Hr Hd. induction Hd as [|x item Hd IH Hx]; [done|]. specialize (Hr _ _ Hx). lia. Qed.

(** Without cycles a single block is a good queue. *)
Lemma queue_ok_single cache h : acyclic cache → is_Some (cache !! h) → queue_ok cache [h].
Proof.
  intros [rank Hr] Hh. constructor.
  - apply NoDup_singleton.
  - by intros x ->%list_elem_of_singleton.
  - intros y x item ->%list_elem_of_singleton ->%list_elem_of_singleton Hx Hd.
    pose proof (desc_rank _ _ _ _ Hr Hd). specialize (Hr _ _ Hx). lia.
Qed.

(** Taking a block out keeps the tables consistent. *)
Lemma cache_wf_take cache children h item :
  cache_wf cache children → cache !! h = Some item →
  ∃ children', erase_element (bci_child_it item) children = Ok children' ∧
    cache_wf (delete h cache) children' ∧
    ∀ p x, (p, x) ∈ children' ↔ (p, x) ∈ children ∧ x ≠ h.
Proof.
  intros Hw Hh. destruct (cw_item _ _ Hw _ _ Hh) as [Hit Hhash].
  assert (Hin : bci_child_it item ∈ children).
  { rewrite Hit. apply (cw_children _ _ Hw). by exists item. }
  destruct (erase_element_ok _ _ Hin) as (ch' & He & _). exists ch'. split; [done|].
  destruct (erase_element_spec _ _ _ (cw_nodup _ _ Hw) He) as [Hnd Hel].
  assert (Hel' : ∀ p x, (p, x) ∈ ch' ↔ (p, x) ∈ children ∧ x ≠ h).
  { intros p x. rewrite Hel, Hit. split; intros [Hp Hne]; split; try done.
    - intros ->. apply (cw_children _ _ Hw) in Hp as (item' & Hi' & <-). congruence.
    - congruence. }
  split; [|done]. constructor; [| |done].
  - intros x i [Hne Hi]%lookup_delete_Some. by apply (cw_item _ _ Hw).
  - intros p x. rewrite Hel', (cw_children _ _ Hw). setoid_rewrite lookup_delete_Some. naive_solver.
Qed.

(** Adding a new block. *)
Lemma cache_wf_add `{UnorderedMultimap} cache children sb :
  cache_wf cache children → cache !! block_hash (sb_block sb) = None →
  cache_wf (<[block_hash (sb_block sb) := mkBlockCacheItem (b_parent_root (sb_block sb), block_hash (sb_block sb)) sb]> cache)
    (mm_emplace (b_parent_root (sb_block sb), block_hash (sb_block sb)) children).
Proof.
  intros Hw Hn. constructor.
  - intros h item [[<- <-]|[_ Hi]]%lookup_insert_Some; [done|by apply (cw_item _ _ Hw)].
  - intros p h. rewrite mm_emplace_perm, elem_of_cons, (cw_children _ _ Hw). split.
    + intros [[= -> ->]|(item & Hi & <-)]; [eexists; by rewrite lookup_insert_eq|].
      exists item. split; [|done]. rewrite lookup_insert_ne; [done|congruence].
    + intros (item & [[<- <-]|[_ Hi]]%lookup_insert_Some & <-); [by left|right; by exists item].
  - rewrite mm_emplace_perm. constructor; [|apply Hw].
    intros (item & Hi & _)%(cw_children _ _ Hw). congruence.
Qed.
End forest.

(** ** The order in which a subtree is consumed *)

(** The hashes the loop of consumeBlockTree takes from its queue, one after another. *)
Fixpoint visit_order (fuel : nat) (cache : Cache) (children : Children) (queue : list BlockHash)
    : list BlockHash :=
  match queue, fuel with
  | [], _ | _, O => []
  | h :: queue, S fuel =>
      h :: match cache !! h with
           | None => []
           | Some item =>
               match erase_element (bci_child_it item) children with
               | Ok children' =>
                   visit_order fuel (delete h cache) children' (queue ++ equal_range h children')
               | _ => []
               end
           end
  end.

(** Parents come before their children; the queued blocks come without. *)
Definition parents_first (cache : Cache) (roots l : list BlockHash) : Prop :=
  ∀ i x item, l !! i = Some x → cache !! x = Some item →
    x ∈ roots ∨ ∃ j, (j < i)%nat ∧ l !! j = Some (item_parent item).

Section order.
Context `{SszHash}.
Implicit Types (cache : Cache) (children : Children).

(** One turn of the loop keeps the queue good. *)
Lemma queue_ok_step cache children h queue item children' :
  cache_wf cache children → queue_ok cache (h :: queue) → cache !! h = Some item →
  erase_element (bci_child_it item) children = Ok children' →
  queue_ok (delete h cache) (queue ++ equal_range h children') ∧
  (∀ x, x ∈ equal_range h children' ↔ x ≠ h ∧ ∃ i, cache !! x = Some i ∧ item_parent i = h).
Proof.
  intros Hw Hq Hh He. destruct (cache_wf_take _ _ _ _ Hw Hh) as (ch & He' & Hw' & Hel).
  rewrite He in He'. injection He' as <-.
  assert (Hkid : ∀ x, x ∈ equal_range h children' ↔ x ≠ h ∧ ∃ i, cache !! x = Some i ∧ item_parent i = h).
  { intros x. rewrite elem_of_equal_range, Hel, (cw_children _ _ Hw). naive_solver. }
  split; [|done]. destruct Hq as [Hnd Hc Ha]. apply NoDup_cons in Hnd as [Hhq Hnd].
  constructor.
  - apply NoDup_app. split; [done|]. split; [|apply equal_range_NoDup, Hw'].
    intros x Hx (_ & i & Hi & Hp)%Hkid. apply (Ha h x i); [by left|by right|done|].
    rewrite Hp. constructor. by eexists.
  - intros x [Hx|(Hne & i & Hi & _)%Hkid]%elem_of_app.
    + destruct (Hc x ltac:(by right)) as [i Hi]. exists i. rewrite lookup_delete_ne; [done|].
      intros ->. done.
    + exists i. by rewrite lookup_delete_ne.
  - intros y x i Hy Hx [_ Hi]%lookup_delete_Some Hd.
    assert (Hroot : ∃ r, r ∈ h :: queue ∧ desc cache r (item_parent i)).
    { assert (desc cache y (item_parent i)) as Hd'.
      { eapply desc_mono; [|done]. apply delete_subseteq. }
      apply elem_of_app in Hy as [Hy|(_ & iy & Hiy & Hpy)%Hkid]; [exists y; split; [by right|done]|].
      exists h. split; [by left|]. eapply desc_trans; [|done]. econstructor; [|done].
      rewrite Hpy. constructor. by eexists. }
    destruct Hroot as (r & Hr & Hdr). apply elem_of_app in Hx as [Hx|(_ & i' & Hi' & Hp')%Hkid].
    + by apply (Ha r x i); [|by right|..].
    + rewrite Hi in Hi'. injection Hi' as <-. apply desc_cached in Hd. rewrite Hp', lookup_delete_eq in Hd.
      by destruct Hd.
Qed.

(** What is below the queue: its first block and what is below the next queue. *)
Lemma desc_step cache children h queue item children' x :
  cache_wf cache children → queue_ok cache (h :: queue) → cache !! h = Some item →
  erase_element (bci_child_it item) children = Ok children' →
  (∃ r, r ∈ h :: queue ∧ desc cache r x) ↔
  x = h ∨ ∃ r, r ∈ queue ++ equal_range h children' ∧ desc (delete h cache) r x.
Proof.
  intros Hw Hq Hh He. destruct (queue_ok_step _ _ _ _ _ _ Hw Hq Hh He) as [Hq' Hkid].
  split.
  - intros (r & Hr & Hd). induction Hd as [Hc|x i Hd IH Hx].
    + apply elem_of_cons in Hr as [->|Hr]; [by left|right]. exists r. split; [set_solver|].
      constructor. rewrite lookup_delete_ne; [done|]. intros ->.
      destruct Hq as [[? ?]%NoDup_cons _ _]. done.
    + destruct (decide (x = h)) as [->|Hne]; [by left|right].
      destruct IH as [Hp|(r' & Hr' & Hd')].
      * exists x. split; [apply elem_of_app; right; apply Hkid; by eauto|].
        constructor. rewrite lookup_delete_ne; [by eexists|done].
      * exists r'. split; [done|]. econstructor; [done|]. by rewrite lookup_delete_ne.
  - intros [->|(r & Hr & Hd)].
    + exists h. split; [by left|]. constructor. by eexists.
    + apply (desc_mono _ cache) in Hd; [|apply delete_subseteq].
      apply elem_of_app in Hr as [Hr|(_ & i & Hi & Hp)%Hkid]; [exists r; split; [by right|done]|].
      exists h. split; [by left|]. eapply desc_trans; [|done]. econstructor; [|done].
      rewrite Hp. constructor. by eexists.
Qed.

(** The visited blocks are exactly those below the queue, each once, parents first. *)
Lemma visit_order_spec fuel cache children queue :
  cache_wf cache children → queue_ok cache queue → (size cache < fuel)%nat →
  NoDup (visit_order fuel cache children queue) ∧
  (∀ x, x ∈ visit_order fuel cache children queue ↔ ∃ r, r ∈ queue ∧ desc cache r x) ∧
  parents_first cache queue (visit_order fuel cache children queue).
Proof.
  revert cache children queue. induction fuel as [|fuel IH]; intros cache children queue Hw Hq Hf; [lia|].
  destruct queue as [|h queue]; cbn [visit_order].
  { split; [constructor|]. split; [|by intros i x item Hi]. intros x. split; [by intros ?%elem_of_nil|].
    intros (r & Hr & _). by apply elem_of_nil in Hr. }
  destruct (qo_cached _ _ Hq h) as [item Hh]; [by left|]. rewrite Hh.
  destruct (cache_wf_take _ _ _ _ Hw Hh) as (children' & He & Hw' & _). rewrite He.
  destruct (queue_ok_step _ _ _ _ _ _ Hw Hq Hh He) as [Hq' Hkid].
  destruct (IH (delete h cache) children' (queue ++ equal_range h children') Hw' Hq') as (Hnd & Hel & Hpf).
  { rewrite map_size_delete_Some; [|by eexists]. assert (size cache ≠ 0%nat); [|lia].
    intros Hz%map_size_empty_inv. by rewrite Hz, lookup_empty in Hh. }
  set (l := visit_order fuel _ _ _) in *. split; [|split].
  - constructor; [|done]. intros (r & _ & Hd)%Hel. apply desc_cached in Hd.
    rewrite lookup_delete_eq in Hd. by destruct Hd.
  - intros x. rewrite elem_of_cons, Hel. symmetry. by eapply desc_step.
  - intros [|i] x it Hi Hx; simpl in Hi; [injection Hi as <-; left; by left|].
    destruct (decide (x = h)) as [->|Hne]; [left; by left|].
    destruct (Hpf i x it Hi) as [Hr|(j & Hj & Hlj)]; [by rewrite lookup_delete_ne| |].
    + apply elem_of_app in Hr as [Hr|(_ & i' & Hi' & Hp')%Hkid]; [left; by right|].
      right. exists 0%nat. split; [lia|]. simpl. congruence.
    + right. exists (S j). split; [lia|]. done.
Qed.
End order.

(** ** consumeBlockTree as a loop over that order *)

Section consume.
Context {C : Type} `{Chain C} `{SszHash} `{UnorderedMultimap}.
Local Abbreviation M := (SM (Networking C) error).
Implicit Types s : Networking C.

(** A computation that only changes the chain and throws only what [P] allows. *)
Definition quiet {A} (P : exn → Prop) (m : M A) : Prop :=
  ∀ s, (∃ c, (m s).2 = set_chain c s) ∧ throws_only P (m s).1.

(** The chain throws only what [P] allows. *)
Record chain_throws (P : exn → Prop) : Prop := {
  ct_has h c : throws_only P (ch_has h c).1;
  ct_lastFinalized c : throws_only P (ch_lastFinalized c).1;
  ct_getSlotByHash h c : throws_only P (ch_getSlotByHash h c).1;
  ct_onBlock b c : throws_only P (ch_onBlock b c).1;
  ct_onGossipAttestation a c : throws_only P (ch_onGossipAttestation a c).1;
  ct_onGossipAggregatedAttestation a c : throws_only P (ch_onGossipAggregatedAttestation a c).1;
}.
Lemma chain_throws_any : chain_throws (λ _, True).
Proof. constructor; intros; unfold throws_only; by case_match. Qed.

Lemma quiet_ret {A} P (a : A) : quiet P (mret a).
Proof. intros s. split; [|done]. exists (nw_chain s). by destruct s. Qed.
Lemma quiet_chain {A} P (m : SM C error A) : (∀ c, throws_only P (m c).1) → quiet P (chain m).
Proof.
  intros Hm s. unfold chain. specialize (Hm (nw_chain s)). destruct (m (nw_chain s)) as [r c].
  split; [by exists c|done].
Qed.
Lemma quiet_bind {A B} P (m : M A) (f : A → M B) : quiet P m → (∀ a, quiet P (f a)) → quiet P (m ≫= f).
Proof.
  intros Hm Hf s. destruct (Hm s) as [Hc Ht]. unfold mbind, sm_bind.
  destruct (m s) as [[a|e|x] s1]; simpl in *; try done.
  destruct Hc as [c ->]. destruct (Hf a (set_chain c s)) as [[c' ->] Ht']. split; [by exists c'|done].
Qed.
Lemma quiet_try {A} P (m : M A) : quiet P m → quiet P (sm_try m).
Proof. intros Hm s. specialize (Hm s). unfold sm_try. by destruct (m s) as [[a|e|x] s1]. Qed.
Lemma quiet_iter {A} P (f : A → M ()) l : (∀ a, quiet P (f a)) → quiet P (sm_iter f l).
Proof. intros Hf. induction l as [|a l IH]; [apply quiet_ret|]. by apply quiet_bind. Qed.

Lemma quiet_import P g b l l' : chain_throws P → quiet P (import_block g b l l').
Proof.
  intros HP. apply quiet_bind; [apply quiet_try, quiet_chain, HP|]. intros [u|e]; [|apply quiet_ret].
  apply quiet_bind; [|intros _; apply quiet_bind; [|intros; apply quiet_ret]];
    (apply quiet_iter; intros a; apply quiet_bind; [apply quiet_try, quiet_chain, HP|intros; apply quiet_ret]).
Qed.

(** A consumer that leaves the caches alone and does not look at [good]. *)
Definition plain_consumer (consume : option (BlockConsumer (C:=C))) : Prop :=
  ∀ f, consume = Some f → ∀ g b l l', quiet (λ _, True) (f g b l l') ∧ f g b l l' = f true b l l'.

Lemma plain_import : plain_consumer (Some import_block).
Proof. intros f [= <-] g b l l'. split; [apply quiet_import, chain_throws_any|done]. Qed.
Lemma plain_none : plain_consumer None.
Proof. by intros f. Qed.

(** The state in which the consumer runs. *)
Definition taken (h : BlockHash) (children : Children) s : Networking C :=
  set_pending (erase_key h (nw_attestation_cache s)) (erase_key h (nw_aggregated_attestation_cache s))
    (set_blocks (delete h (nw_block_cache s)) children s).

Lemma consume_block_run consume g h s :
  consume_block consume g h s =
  match nw_block_cache s !! h with
  | None => (Throw Fatal, s)
  | Some item =>
      match erase_element (bci_child_it item) (nw_block_children s) with
      | Ok children =>
          match consume with
          | Some f => f g (bci_block item) (equal_range h (nw_attestation_cache s))
                        (equal_range h (nw_aggregated_attestation_cache s)) (taken h children s)
          | None => (Ok g, taken h children s)
          end
      | Err e => (Err e, s)
      | Throw x => (Throw x, s)
      end
  end.
Proof.
  unfold consume_block. rewrite (sm_bind_ok _ _ s s s) by done.
  destruct (nw_block_cache s !! h) as [item|]; [|done].
  destruct (erase_element (bci_child_it item) (nw_block_children s)) as [ch|e|x];
    unfold mbind, sm_bind, sm_lift; [|done|done]. by destruct consume.
Qed.

Definition visit (consume : option (BlockConsumer (C:=C))) (h : BlockHash) : M () :=
  consume_block consume true h ≫= λ _, mret ().

Lemma consume_queue_visits consume fuel queue s :
  plain_consumer consume → (size (nw_block_cache s) < fuel)%nat →
  consume_queue fuel consume queue s =
  sm_iter (visit consume) (visit_order fuel (nw_block_cache s) (nw_block_children s) queue.*2) s.
Proof.
  intros Hc. revert queue s. induction fuel as [|fuel IH]; intros queue s Hf; [lia|].
  destruct queue as [|[g h] queue]; [done|].
  cbn [consume_queue fmap list_fmap snd visit_order sm_iter].
  change (visit consume h) with (consume_block consume true h ≫= λ _, mret ()).
  destruct (nw_block_cache s !! h) as [item|] eqn:Hh; cycle 1.
  { unfold mbind, sm_bind. by rewrite !consume_block_run, Hh. }
  destruct (erase_element (bci_child_it item) (nw_block_children s)) as [ch|e|x] eqn:He;
    [|unfold mbind, sm_bind; by rewrite !consume_block_run, Hh, He..].
  assert (Hnext : ∀ g' c, consume_queue fuel consume (queue ++ ((λ child, (g', child)) <$> equal_range h ch))
      (set_chain c (taken h ch s)) =
    sm_iter (visit consume) (visit_order fuel (delete h (nw_block_cache s)) ch (queue.*2 ++ equal_range h ch))
      (set_chain c (taken h ch s))).
  { intros g' c. rewrite IH.
    - cbn [taken set_pending set_blocks set_chain nw_block_cache nw_block_children].
      rewrite fmap_app, <- list_fmap_compose. do 3 f_equal. apply list_fmap_id.
    - cbn [taken set_pending set_blocks set_chain nw_block_cache].
      rewrite map_size_delete_Some by (by eexists). assert (size (nw_block_cache s) ≠ 0%nat); [|lia].
      intros Hz%map_size_empty_inv. by rewrite Hz, lookup_empty in Hh. }
  unfold mbind, sm_bind. rewrite !consume_block_run, Hh, He. destruct consume as [f|].
  - destruct (Hc f eq_refl g (bci_block item) (equal_range h (nw_attestation_cache s))
      (equal_range h (nw_aggregated_attestation_cache s))) as [Hq ->].
    destruct (Hc f eq_refl true (bci_block item) (equal_range h (nw_attestation_cache s))
      (equal_range h (nw_aggregated_attestation_cache s))) as [Hq' _].
    specialize (Hq' (taken h ch s)). destruct (f true _ _ _ (taken h ch s)) as [[g'|e|x] s1]; [|done..].
    simpl in Hq'. destruct Hq' as [[c ->] _]. cbn -[consume_queue visit_order sm_iter]. apply Hnext.
  - cbn -[consume_queue visit_order sm_iter]. specialize (Hnext g (nw_chain s)). by destruct s.
Qed.
End consume.
