(* ===== verification/NetworkingSteps.v ===== *)
(** * Block synchronization: the handlers

    What the module relies on of the chain ([ChainLaws]), what each handler does to the
    caches, and the states reachable by its handlers. *)

From S2P Require Import Prelude Errors Types CachedTree Networking NetworkingProofs.

(** What the chain shows to the module: which blocks it has and the finalized block. *)
Record ChainView := mkChainView {
  cv_known : BlockHash → bool;
  cv_finalized : BlockIndex;
}.
Class ChainLaws (C : Type) `{Chain C} := {
  ch_view : C → ChainView → Prop;
  ch_has_view c v h :
    ch_view c v → ∃ c', ch_has h c = (Ok (cv_known v h), c') ∧ ch_view c' v;
  ch_lastFinalized_view c v :
    ch_view c v → ∃ c', ch_lastFinalized c = (Ok (cv_finalized v), c') ∧ ch_view c' v;
}.

(** The cached ancestors of [x], nearest first, up to [y]. *)
Inductive cached_path (cache : Cache) : BlockHash → BlockHash → Prop :=
| path_here x : cached_path cache x x
| path_up x item y : cache !! x = Some item → cached_path cache (item_parent item) y → cached_path cache x y.

(** Blocks of the cache below a rank: a bound on the walk of requestBlock. *)
Lemma missing_ancestor_spec fin (cache : Cache) h :
  acyclic cache →
  ∃ r, missing_ancestor (S (size cache)) fin cache h = Ok r ∧
    match r with Some y => cache !! y = None ∧ cached_path cache h y | None => True end.
Proof.
  intros [rank Hr].
  assert (Hgen : ∀ fuel h, (size (filter (λ '(x, _), (rank x ≤ rank h)%nat) cache) < fuel)%nat →
    ∃ r, missing_ancestor fuel fin cache h = Ok r ∧
      match r with Some y => cache !! y = None ∧ cached_path cache h y | None => True end).
  { induction fuel as [|fuel IH]; intros x Hf; [lia|]. simpl.
    destruct (cache !! x) as [item|] eqn:Hx; [|eexists; split; [done|split; [done|constructor]]].
    destruct (_ <=? fin); [by exists None|].
    destruct (IH (item_parent item)) as (r & Hrun & Hres).
    { eapply Nat.lt_le_trans; [|apply Nat.lt_succ_r, Hf]. apply map_subset_size. specialize (Hr _ _ Hx). split.
      - apply map_subseteq_spec. intros y i. rewrite !map_lookup_filter_Some. intros [? ?]. split; [done|lia].
      - intros Hsub. eapply (lookup_weaken _ _ x item) in Hsub.
        + apply map_lookup_filter_Some in Hsub as [_ Hle]. lia.
        + by apply map_lookup_filter_Some. }
    exists r. split; [done|]. destruct r as [y|]; [|done]. destruct Hres as [Hy Hp].
    split; [done|]. by econstructor. }
  apply Hgen. apply Nat.lt_succ_r, map_subseteq_size, map_filter_subseteq.
Qed.

(** A block that is neither cached nor known to the chain, at a slot the chain has
    finalized, and whose child is cached. *)
Definition late_parent {C : Type} `{Chain C} `{SszHash} (sb : SignedBlock) (s : Networking C) : Prop :=
  (∃ child, (block_hash (sb_block sb), child) ∈ nw_block_children s) ∧
  nw_block_cache s !! block_hash (sb_block sb) = None ∧
  ∃ c fin c', ch_has (block_hash (sb_block sb)) (nw_chain s) = (Ok false, c) ∧
    ch_lastFinalized c = (Ok fin, c') ∧ b_slot (sb_block sb) ≤ bi_slot fin.

Lemma chain_ok_inv {C A : Type} `{Chain C} (m : SM C error A) (s s' : Networking C) a :
  chain m s = (Ok a, s') → ∃ c, m (nw_chain s) = (Ok a, c) ∧ s' = set_chain c s.
Proof. unfold chain. destruct (m (nw_chain s)) as [r c]. intros [= -> <-]. by exists c. Qed.

Section steps.
Context {C : Type} `{Chain C} `{!ChainLaws C} `{SszHash} `{UnorderedMultimap}.
Local Abbreviation M := (SM (Networking C) error).
Implicit Types s : Networking C.

Lemma chain_has_run s v h :
  ch_view (nw_chain s) v → ∃ c, chain (ch_has h) s = (Ok (cv_known v h), set_chain c s) ∧ ch_view c v.
Proof.
  intros Hv. destruct (ch_has_view _ _ h Hv) as (c & Hr & Hc). exists c. unfold chain. by rewrite Hr.
Qed.
Lemma chain_finalized_run s v :
  ch_view (nw_chain s) v → ∃ c, chain ch_lastFinalized s = (Ok (cv_finalized v), set_chain c s) ∧ ch_view c v.
Proof.
  intros Hv. destruct (ch_lastFinalized_view _ _ Hv) as (c & Hr & Hc). exists c. unfold chain. by rewrite Hr.
Qed.

(** requestBlock: at most one request, for a missing block, not twice within the retry
    interval. *)
Lemma requestBlock_run now peer h s v :
  ch_view (nw_chain s) v → acyclic (nw_block_cache s) →
  ∃ c at' reqs, requestBlock now peer h s = (Ok (), set_requested at' reqs (set_chain c s)) ∧ ch_view c v ∧
    (reqs = nw_requests s ∨
     ∃ y, reqs = nw_requests s ++ [(peer, y)] ∧ cached_path (nw_block_cache s) h y ∧
       nw_block_cache s !! y = None ∧ cv_known v y = false ∧ at' !! y = Some now ∧
       default 0 (nw_block_requested_at s !! y) + kRetryRequestBlock ≤ now).
Proof.
  intros Hv Ha. unfold requestBlock. destruct (chain_finalized_run s v Hv) as (c1 & R1 & Hv1).
  rewrite (sm_bind_ok _ _ _ _ _ R1).
  rewrite (sm_bind_ok _ _ (set_chain c1 s) (set_chain c1 s) (set_chain c1 s)) by done.
  destruct (missing_ancestor_spec (bi_slot (cv_finalized v)) (nw_block_cache s) h Ha) as (r & Hr & Hres).
  rewrite (sm_bind_ok _ _ (set_chain c1 s) r (set_chain c1 s)) by (unfold sm_lift; f_equal; exact Hr).
  destruct r as [y|].
  - destruct Hres as [Hy Hp]. destruct (chain_has_run (set_chain c1 s) v y Hv1) as (c2 & R2 & Hv2).
    rewrite (sm_bind_ok _ _ _ _ _ R2). destruct (cv_known v y) eqn:Hk.
    + exists c2, (nw_block_requested_at s), (nw_requests s). split; [by destruct s|]. split; [done|by left].
    + rewrite (sm_bind_ok _ _ (set_chain c2 s) (set_chain c2 s) (set_chain c2 s)) by done.
      change (nw_block_requested_at (set_chain c2 s)) with (nw_block_requested_at s). cbv zeta.
      destruct (N.ltb_spec now (default 0 (nw_block_requested_at s !! y) + kRetryRequestBlock)).
      * eexists c2, _, _. split; [done|]. split; [done|by left].
      * eexists c2, _, _. split; [done|]. split; [done|]. right. exists y. split_and!; try done.
        apply lookup_insert_eq.
  - exists c1, (nw_block_requested_at s), (nw_requests s). split; [by destruct s|]. split; [done|by left].
Qed.

Lemma request_parent_run now from h s v :
  ch_view (nw_chain s) v → acyclic (nw_block_cache s) →
  ∃ c at' reqs, request_parent now from h s = (Ok (), set_requested at' reqs (set_chain c s)) ∧ ch_view c v ∧
    ∃ more, reqs = nw_requests s ++ more.
Proof.
  intros Hv Ha. destruct from as [peer|]; simpl.
  - destruct (requestBlock_run now peer h s v Hv Ha) as (c & at' & reqs & Hr & Hc & Hq).
    exists c, at', reqs. split; [done|]. split; [done|].
    destruct Hq as [->|(y & -> & _)]; eexists; [by rewrite app_nil_r|done].
  - exists (nw_chain s), (nw_block_requested_at s), (nw_requests s). split; [by destruct s|]. split; [done|].
    exists []. by rewrite app_nil_r.
Qed.

(** The cache after a new block was put in. *)
Definition with_block (sb : SignedBlock) (cache : Cache) : Cache :=
  <[block_hash (sb_block sb) := mkBlockCacheItem (b_parent_root (sb_block sb), block_hash (sb_block sb)) sb]> cache.

Lemma bind_get_put {A} (f : Networking C → Networking C) (k : Networking C → M A) s :
  (sm_get ≫= λ s0, sm_put (f s0) ≫= λ _, k s0) s = k s (f s).
Proof. done. Qed.

(** A block with a known parent: the block and everything cached below it is imported,
    parents first. *)
Lemma receiveBlock_imports now from sb s v :
  let h := block_hash (sb_block sb) in
  ch_view (nw_chain s) v → cache_wf (nw_block_cache s) (nw_block_children s) →
  acyclic (with_block sb (nw_block_cache s)) →
  nw_block_cache s !! h = None → cv_known v h = false →
  bi_slot (cv_finalized v) < b_slot (sb_block sb) → cv_known v (b_parent_root (sb_block sb)) = true →
  ∃ s1 l, receiveBlock now from sb s = (sm_iter (visit (Some import_block)) l ≫= λ _, prune) s1 ∧
    ch_view (nw_chain s1) v ∧ nw_block_cache s1 = with_block sb (nw_block_cache s) ∧
    cache_wf (nw_block_cache s1) (nw_block_children s1) ∧
    nw_attestation_cache s1 = nw_attestation_cache s ∧
    nw_aggregated_attestation_cache s1 = nw_aggregated_attestation_cache s ∧
    NoDup l ∧ (∀ x, x ∈ l ↔ desc (nw_block_cache s1) h x) ∧ parents_first (nw_block_cache s1) [h] l.
Proof.
  intros h Hv Hw Ha Hn Hk Hslot Hpk. unfold receiveBlock.
  rewrite (sm_bind_ok _ _ s s s) by done. change (bi_hash (block_index (sb_block sb))) with h.
  rewrite bool_decide_eq_false_2 by (rewrite Hn; apply is_Some_None).
  destruct (chain_has_run s v h Hv) as (c1 & R1 & Hv1). rewrite (sm_bind_ok _ _ _ _ _ R1), Hk.
  destruct (chain_finalized_run (set_chain c1 s) v Hv1) as (c2 & R2 & Hv2).
  rewrite (sm_bind_ok _ _ _ _ _ R2). cbn [block_index bi_slot]. rewrite (proj2 (N.leb_gt _ _) Hslot).
  rewrite (bind_get_put (λ s0, set_blocks _ _ s0)). cbn [set_chain nw_block_cache nw_block_children].
  set (s2 := set_blocks _ _ _).
  destruct (request_parent_run now from (b_parent_root (sb_block sb)) s2 v Hv2 Ha)
    as (c3 & at' & reqs & R3 & Hv3 & _).
  rewrite (sm_bind_ok _ _ _ _ _ R3). set (s3 := set_requested _ _ _) in *.
  destruct (chain_has_run s3 v (b_parent_root (sb_block sb)) Hv3) as (c4 & R4 & Hv4).
  rewrite (sm_bind_ok _ _ _ _ _ R4), Hpk. cbn [negb]. set (s4 := set_chain c4 s3).
  pose proof (cache_wf_add _ _ sb Hw Hn) as Hw'. fold h in Hw'.
  assert (Hq : queue_ok (with_block sb (nw_block_cache s)) [h]).
  { apply queue_ok_single; [done|]. unfold with_block. rewrite lookup_insert_eq. by eexists. }
  destruct (visit_order_spec (S (size (with_block sb (nw_block_cache s)))) _ _ _ Hw' Hq) as (Hnd & Hel & Hpf); [apply Nat.lt_succ_diag_r|].
  eexists s4, _. split.
  { unfold consumeBlockTree. unfold mbind at 1, sm_bind at 1. rewrite (sm_bind_ok _ _ s4 s4 s4) by done.
    rewrite consume_queue_visits; [done|apply plain_import|]. by apply Nat.lt_succ_r. }
  split_and!; try done.
  intros x. cbn [fmap list_fmap snd]. etrans; [apply Hel|]. split; [|by exists h; split; [left|]].
  by intros (r & ->%list_elem_of_singleton & Hd).
Qed.
End steps.

(** ** Every handler keeps the caches consistent *)

Section safety.
Context {C : Type} `{Chain C} `{SszHash} `{UnorderedMultimap}.
Context (P : exn → Prop) (HP : chain_throws (C:=C) P).
Local Abbreviation M := (SM (Networking C) error).
Implicit Types s : Networking C.

Definition caches_ok s : Prop := cache_wf (nw_block_cache s) (nw_block_children s).

(** [m] leaves the block caches as they are. *)
Definition tame {A} (m : M A) s : Prop :=
  nw_block_cache (m s).2 = nw_block_cache s ∧ nw_block_children (m s).2 = nw_block_children s ∧
  throws_only P (m s).1.

(** [m] keeps the block caches consistent. *)
Definition safe {A} (Q : exn → Prop) (m : M A) s : Prop :=
  caches_ok (m s).2 ∧ throws_only Q (m s).1.

Lemma tame_quiet {A} (m : M A) s : quiet P m → tame m s.
Proof. intros Hm. destruct (Hm s) as [[c Hc] Ht]. unfold tame. by rewrite Hc. Qed.
Lemma tame_bind {A B} (m : M A) (f : A → M B) s :
  tame m s →
  (∀ a s', m s = (Ok a, s') → nw_block_cache s' = nw_block_cache s →
     nw_block_children s' = nw_block_children s → tame (f a) s') →
  tame (m ≫= f) s.
Proof.
  unfold tame. intros (E1 & E2 & E3) Hf. unfold mbind, sm_bind. destruct (m s) as [[a|e|x] s'] eqn:Hm; try done.
  cbn [snd] in *. destruct (Hf a s' eq_refl E1 E2) as (E4 & E5 & E6). split_and!; [congruence|congruence|done].
Qed.
Lemma safe_bind {A B} Q (m : M A) (f : A → M B) s :
  safe Q m s → (∀ a s', m s = (Ok a, s') → caches_ok s' → safe Q (f a) s') → safe Q (m ≫= f) s.
Proof.
  unfold safe. intros [E1 E2] Hf. unfold mbind, sm_bind. destruct (m s) as [[a|e|x] s'] eqn:Hm; try done.
  by apply Hf.
Qed.
Lemma safe_tame {A} Q (m : M A) s : (∀ x, P x → Q x) → caches_ok s → tame m s → safe Q m s.
Proof.
  intros HQ Hok (E1 & E2 & E3). unfold safe, caches_ok. rewrite E1, E2. split; [done|].
  destruct (m s).1; simpl in *; auto.
Qed.
Lemma safe_bind_tame {A B} (Q : exn → Prop) (m : M A) (f : A → M B) s :
  (∀ x, P x → Q x) → tame m s →
  (∀ a s', m s = (Ok a, s') → nw_block_cache s' = nw_block_cache s →
     nw_block_children s' = nw_block_children s → safe Q (f a) s') →
  caches_ok s → safe Q (m ≫= f) s.
Proof.
  intros HQ (E1 & E2 & E3) Hf Hok. unfold safe, mbind, sm_bind. destruct (m s) as [[a|e|x] s'] eqn:Hm; cbn [fst snd] in *.
  - by apply Hf.
  - unfold caches_ok. by rewrite E1, E2.
  - unfold caches_ok. rewrite E1, E2. simpl in *. auto.
Qed.

Lemma tame_ret {A} (a : A) s : tame (mret a) s.
Proof. done. Qed.
Lemma tame_chain {A} (m : SM C error A) s : (∀ c, throws_only P (m c).1) → tame (chain m) s.
Proof. intros Hm. by apply tame_quiet, quiet_chain. Qed.
Lemma tame_try_chain {A} (m : SM C error A) s : (∀ c, throws_only P (m c).1) → tame (sm_try (chain m)) s.
Proof. intros Hm. by apply tame_quiet, quiet_try, quiet_chain. Qed.

Lemma requestBlock_tame now peer h s : acyclic (nw_block_cache s) → tame (requestBlock now peer h) s.
Proof.
  intros Ha. apply tame_bind; [apply tame_chain, HP|]. intros fin s1 _ Hc1 Hch1.
  apply tame_bind; [done|]. intros s1' s2 [= <- <-] _ _.
  apply tame_bind.
  { split; [done|]. split; [done|]. rewrite <- Hc1 in Ha.
    by destruct (missing_ancestor_spec (bi_slot fin) _ h Ha) as (r & -> & _). }
  intros [y|] s2 [= _ <-] _ _; [|done].
  apply tame_bind; [apply tame_chain, HP|]. intros [|] s3 _ _ _; [done|].
  apply tame_bind; [done|]. intros s3' s4 [= <- <-] _ _.
  cbv zeta. by case_match.
Qed.
Lemma request_parent_tame now from h s : acyclic (nw_block_cache s) → tame (request_parent now from h) s.
Proof. intros Ha. destruct from; [by apply requestBlock_tame|done]. Qed.

(** Visiting cached blocks. *)
Lemma visits_safe consume l s :
  (∀ f, consume = Some f → ∀ b l1 l2, quiet P (f true b l1 l2)) →
  caches_ok s → NoDup l → (∀ x, x ∈ l → is_Some (nw_block_cache s !! x)) →
  safe P (sm_iter (visit consume) l) s ∧
  ∀ s', sm_iter (visit consume) l s = (Ok (), s') →
    ∀ x, nw_block_cache s' !! x = if decide (x ∈ l) then None else nw_block_cache s !! x.
Proof.
  intros Hc. revert s. induction l as [|h l IH]; intros s Hok Hnd Hin.
  { split; [done|]. intros s' [= <-] x. by rewrite decide_False by apply not_elem_of_nil. }
  apply NoDup_cons in Hnd as [Hh Hnd]. destruct (Hin h) as [item Hit]; [by left|].
  destruct (cache_wf_take _ _ _ _ Hok Hit) as (ch & He & Hw & _).
  assert (Hv : ∃ c r, consume_block consume true h s = (r, set_chain c (taken h ch s)) ∧ throws_only P r).
  { rewrite consume_block_run, Hit, He. destruct consume as [f|]; [|exists (nw_chain s), (Ok true); by destruct s].
    destruct (Hc f eq_refl (bci_block item) (equal_range h (nw_attestation_cache s))
      (equal_range h (nw_aggregated_attestation_cache s)) (taken h ch s)) as [[c Hcs] Ht].
    destruct (f true _ _ _ (taken h ch s)) as [r s1]. simpl in *. subst s1. by exists c, r. }
  destruct Hv as (c & r & Hrun & Ht). set (s1 := set_chain c (taken h ch s)) in Hrun.
  assert (Hiter : sm_iter (visit consume) (h :: l) s =
    match r with Ok _ => sm_iter (visit consume) l s1 | Err e => (Err e, s1) | Throw x => (Throw x, s1) end).
  { cbn [sm_iter]. change (visit consume h) with (consume_block consume true h ≫= λ _, mret ()).
    unfold mbind, sm_bind. rewrite Hrun. by destruct r. }
  unfold safe. rewrite Hiter.
  assert (Hok1 : caches_ok s1) by exact Hw.
  destruct r as [g|e|x]; [|by split; [split|]..].
  destruct (IH s1 Hok1 Hnd) as [Hs Hrest].
  { intros x Hx. cbn. rewrite lookup_delete_ne; [apply Hin; by right|]. by intros ->. }
  split; [exact Hs|]. intros s' Hs' x. rewrite (Hrest s' Hs' x).
  change (nw_block_cache s1) with (delete h (nw_block_cache s)). destruct (decide (x = h)) as [->|Hne].
  - rewrite lookup_delete_eq, (decide_True (P := h ∈ h :: l)) by (by left). by case_decide.
  - rewrite lookup_delete_ne by done. repeat case_decide; set_solver.
Qed.

Lemma consumeBlockTree_safe consume g h s :
  plain_consumer consume → (∀ f, consume = Some f → ∀ b l1 l2, quiet P (f true b l1 l2)) →
  caches_ok s → acyclic (nw_block_cache s) → is_Some (nw_block_cache s !! h) →
  safe P (consumeBlockTree g h consume) s.
Proof.
  intros Hpl Hc Hok Ha Hh. unfold consumeBlockTree. unfold safe. rewrite (sm_bind_ok _ _ s s s) by done.
  rewrite consume_queue_visits; [|done|apply Nat.lt_succ_diag_r].
  destruct (visit_order_spec (S (size (nw_block_cache s))) _ _ _ Hok (queue_ok_single _ _ Ha Hh))
    as (Hnd & Hel & _); [apply Nat.lt_succ_diag_r|].
  apply visits_safe; [done|done|done|]. intros x (r & _ & Hd)%Hel. by eapply desc_cached.
Qed.

(** prune erases each old block and its entry in the table of children. *)
Lemma erase_items l (cache : Cache) children :
  cache_wf cache children → NoDup l.*1 → (∀ h item, (h, item) ∈ l → cache !! h = Some item) →
  ∃ children', oc_foldl (λ ch item, erase_element (bci_child_it item) ch) children l.*2 = Ok children' ∧
    cache_wf (filter (λ '(h, _), h ∉ l.*1) cache) children'.
Proof.
  revert cache children. induction l as [|[h item] l IH]; intros cache children Hw Hnd Hin.
  { exists children. split; [done|]. by rewrite map_filter_id by (intros; by apply not_elem_of_nil). }
  cbn [fmap list_fmap fst snd] in *. apply NoDup_cons in Hnd as [Hh Hnd].
  destruct (cache_wf_take cache children h item Hw) as (ch & He & Hw' & _); [apply Hin; by left|].
  destruct (IH (delete h cache) ch Hw' Hnd) as (ch' & Hf & Hw'').
  { intros h' i' Hi. rewrite lookup_delete_ne; [apply Hin; by right|]. intros ->. apply Hh.
    apply list_elem_of_fmap. by exists (h', i'). }
  exists ch'. split; [cbn [oc_foldl]; by rewrite He|].
  replace (filter _ cache) with (filter (λ '(h', _), h' ∉ l.*1) (delete h cache)); [done|].
  apply map_eq. intros x. apply option_eq. intros i.
  rewrite !map_lookup_filter_Some, lookup_delete_Some, not_elem_of_cons. naive_solver.
Qed.

Lemma prune_safe s : caches_ok s → safe P prune s.
Proof.
  intros Hok. apply safe_bind_tame; [done|apply tame_chain, HP| |done]. intros fin s1 _ Hc1 Hch1.
  set (old := λ item, b_slot (sb_block (bci_block item)) <=? bi_slot fin).
  destruct (erase_items (map_to_list (filter (λ '(_, item), old item = true) (nw_block_cache s1)))
    (nw_block_cache s1) (nw_block_children s1)) as (ch & Hf & Hw).
  { by rewrite Hc1, Hch1. }
  { apply NoDup_fst_map_to_list. }
  { intros h item [Hi _]%elem_of_map_to_list%map_lookup_filter_Some. done. }
  unfold safe. rewrite (sm_bind_ok _ _ s1 s1 s1) by done.
  rewrite (sm_bind_ok _ _ s1 ch s1) by (unfold sm_lift; f_equal; exact Hf).
  split; [|done]. unfold caches_ok. cbn [sm_put snd set_pending set_blocks nw_block_cache nw_block_children].
  replace (filter _ (nw_block_cache s1)) with
    (filter (λ '(h, _), h ∉ (map_to_list (filter (λ '(_, item), old item = true) (nw_block_cache s1))).*1)
       (nw_block_cache s1)); [exact Hw|].
  apply map_eq. intros x. apply option_eq. intros i. rewrite !map_lookup_filter_Some, list_elem_of_fmap.
  fold old. split; intros [Hi Hn]; (split; [done|]).
  - apply not_true_iff_false. intros Ht. apply Hn. exists (x, i). split; [done|].
    apply elem_of_map_to_list, map_lookup_filter_Some. done.
  - intros ([x' i'] & -> & [Hi' Ht]%elem_of_map_to_list%map_lookup_filter_Some). cbn [fst] in *.
    rewrite Hi in Hi'. injection Hi' as <-. congruence.
Qed.

Definition block_exn (sb : SignedBlock) s (x : exn) : Prop :=
  P x ∨ (x = UndefinedBehaviour ∧ late_parent sb s).

Lemma plain_import_quiet f : Some import_block = Some f → ∀ b l1 l2, quiet P (f true b l1 l2).
Proof. intros [= <-] b l1 l2. by apply quiet_import. Qed.

Lemma receiveBlock_safe now from sb s :
  caches_ok s → acyclic (nw_block_cache s) → acyclic (with_block sb (nw_block_cache s)) →
  safe (block_exn sb s) (receiveBlock now from sb) s.
Proof.
  intros Hok Ha Ha'. assert (HPQ : ∀ x, P x → block_exn sb s x) by (by left).
  unfold receiveBlock. cbv zeta. cbn [block_index bi_hash bi_slot].
  apply safe_bind; [done|]. intros s0 s0' [= <- <-] _.
  case_bool_decide as Hc; [by apply safe_tame, request_parent_tame|].
  apply eq_None_not_Some in Hc.
  apply safe_bind_tame; [done|apply tame_chain, HP| |done]. intros [|] s1 Hhas Hc1 Hch1.
  { split; [unfold caches_ok; cbn; by rewrite Hc1, Hch1|done]. }
  assert (Hok1 : caches_ok s1) by (unfold caches_ok; by rewrite Hc1, Hch1).
  apply safe_bind_tame; [done|apply tame_chain, HP| |done]. intros fin s2 Hfin Hc2 Hch2.
  rewrite Hc1 in Hc2. rewrite Hch1 in Hch2.
  assert (Hok2 : caches_ok s2) by (unfold caches_ok; by rewrite Hc2, Hch2).
  destruct (b_slot (sb_block sb) <=? bi_slot fin) eqn:Hslot.
  - apply safe_bind; [done|]. intros s3 s3' [= <- <-] _.
    destruct (equal_range _ _) as [|child rest] eqn:Hrange; [done|].
    assert (Hch : (block_hash (sb_block sb), child) ∈ nw_block_children s).
    { rewrite <- Hch2. apply elem_of_equal_range. rewrite Hrange. by left. }
    apply safe_bind.
    + assert (Hs : safe P (consumeBlockTree false child None) s2).
      { apply consumeBlockTree_safe; [apply plain_none|done|done|by rewrite Hc2|].
        rewrite Hc2. apply (cw_children _ _ Hok) in Hch as (item & Hi & _). by eexists. }
      destruct Hs as [Hs Ht]. split; [done|]. destruct (_ s2).1; simpl in *; auto.
    + intros _ s3 _ Hok3. split; [done|]. right. split; [done|].
      apply chain_ok_inv in Hhas as (c1 & Hhas & ->). apply chain_ok_inv in Hfin as (c2 & Hfin & _).
      split; [by exists child|]. split; [done|]. exists c1, fin, c2. split_and!; [done..|by apply N.leb_le].
  - apply safe_bind; [done|]. intros s3 s3' [= <- <-] _.
    pose proof (cache_wf_add _ _ sb Hok2) as Hw. rewrite Hc2 in Hw. specialize (Hw Hc).
    apply safe_bind; [split; [|done]; unfold caches_ok; cbn; by rewrite Hc2|].
    intros u s3 [= _ <-] Hok3. set (s3 := set_blocks _ _ s2) in *.
    assert (Hcache : nw_block_cache s3 = with_block sb (nw_block_cache s)) by (cbn; by rewrite Hc2).
    apply safe_bind_tame; [done|apply request_parent_tame; by rewrite Hcache| |done].
    intros u' s4 _ Hc4 Hch4. assert (Hok4 : caches_ok s4) by (unfold caches_ok; by rewrite Hc4, Hch4).
    apply safe_bind_tame; [done|apply tame_chain, HP| |done]. intros [|] s5 _ Hc5 Hch5; cycle 1.
    { split; [unfold caches_ok; cbn -[set_blocks]; by rewrite Hc5, Hch5|done]. }
    rewrite Hc4, Hcache in Hc5. rewrite Hch4 in Hch5.
    assert (Hok5 : caches_ok s5) by (unfold caches_ok; by rewrite Hc5, Hch5, <- Hcache).
    cbn [negb]. apply safe_bind.
    + assert (Hs : safe P (consumeBlockTree true (block_hash (sb_block sb)) (Some import_block)) s5).
      { apply consumeBlockTree_safe; [apply plain_import|apply plain_import_quiet|done|by rewrite Hc5|].
        rewrite Hc5. unfold with_block. rewrite lookup_insert_eq. by eexists. }
      destruct Hs as [Hs Ht]. split; [done|]. destruct (_ s5).1; simpl in *; auto.
    + intros u'' s6 _ Hok6. destruct (prune_safe s6 Hok6) as [Hs Ht]. split; [done|].
      destruct (prune s6).1; simpl in *; auto.
Qed.

Lemma statusFinalizedIsGood_tame i s : tame (statusFinalizedIsGood i) s.
Proof.
  apply tame_bind; [apply tame_try_chain, HP|]. intros [slot|e] s1 _ _ _; [done|].
  apply tame_bind; [apply tame_chain, HP|done].
Qed.

Lemma receiveStatus_tame now m s : acyclic (nw_block_cache s) → tame (receiveStatus now m) s.
Proof.
  intros Ha. apply tame_bind; [apply statusFinalizedIsGood_tame|]. intros [|] s1 _ Hc1 _; [|done].
  apply tame_bind; [apply statusFinalizedIsGood_tame|]. intros [|] s2 _ Hc2 _; [|done].
  apply tame_bind; [apply tame_chain, HP|]. intros fin s3 _ Hc3 _.
  apply tame_bind; [|done]. destruct (_ <? _); [|done].
  apply tame_bind; [apply tame_chain, HP|]. intros [|] s4 _ Hc4 _; [done|].
  apply requestBlock_tame. by rewrite Hc4, Hc3, Hc2, Hc1.
Qed.

(** The two attestation topics have the same shape. *)
Lemma pending_tame (f : Networking C → Networking C) now from h slot (imp : SM C error ()) s :
  (∀ s, nw_block_cache (f s) = nw_block_cache s ∧ nw_block_children (f s) = nw_block_children s) →
  (∀ c, throws_only P (imp c).1) → acyclic (nw_block_cache s) →
  tame (known ← chain (ch_has h);
        if negb known then
          finalized ← chain ch_lastFinalized;
          if slot <=? bi_slot finalized then mret ()
          else sm_modify f ≫= λ _, request_parent now from h
        else sm_try (chain imp) ≫= λ _, mret ()) s.
Proof.
  intros Hf Hi Ha. apply tame_bind; [apply tame_chain, HP|]. intros [|] s1 _ Hc1 _; cbn [negb].
  { by apply tame_bind; [apply tame_try_chain|]. }
  apply tame_bind; [apply tame_chain, HP|]. intros fin s2 _ Hc2 _. destruct (_ <=? _); [done|].
  apply tame_bind; [split; [apply Hf|split; [apply Hf|done]]|]. intros u s3 _ Hc3 _.
  apply request_parent_tame. by rewrite Hc3, Hc2, Hc1.
Qed.
End safety.

(** ** Reachable states *)
Section reachable.
Context {C : Type} `{Chain C} `{SszHash} `{UnorderedMultimap}.

(** What the io_context delivers. *)
Inductive NetEvent :=
| GossipBlock (from : option PeerId) (sb : SignedBlock)
| BlockResponse (from : PeerId) (requested : BlockHash) (response : option SignedBlock)
| GossipVote (from : option PeerId) (sa : SignedAttestation)
| GossipAggregation (from : option PeerId) (saa : SignedAggregatedAttestation)
| Status (message : StatusMessageReceived).

Definition handle (now : N) (ev : NetEvent) : SM (Networking C) error () :=
  match ev with
  | GossipBlock from sb => receiveBlock now from sb
  | BlockResponse from h response => onBlockResponse now from h response
  | GossipVote from sa => onGossipVote now from sa
  | GossipAggregation from saa => onGossipAggregation now from saa
  | Status message => receiveStatus now message
  end.

(** The block an event carries. *)
Definition event_block (ev : NetEvent) : option SignedBlock :=
  match ev with GossipBlock _ sb | BlockResponse _ _ (Some sb) => Some sb | _ => None end.

(** Hashes form no cycle through the cached blocks and the new one. *)
Definition no_cycle (ev : NetEvent) (s : Networking C) : Prop :=
  acyclic (nw_block_cache s) ∧
  match event_block ev with Some sb => acyclic (with_block sb (nw_block_cache s)) | None => True end.

(** Handlers run one after another, and other modules change the chain in between.
    Hashes of received blocks form no cycle. *)
Inductive reachable : Networking C → Prop :=
| reach_init c : reachable (mkNetworking c ∅ ∅ [] [] [] [] [])
| reach_handle now ev s : reachable s → no_cycle ev s → reachable (handle now ev s).2
| reach_chain c s : reachable s → reachable (set_chain c s).

(** What leaves a handler: a failure of the chain, or the loop of receiveBlock. *)
Definition handler_exn (P : exn → Prop) (ev : NetEvent) s (x : exn) : Prop :=
  P x ∨ (x = UndefinedBehaviour ∧ ∃ sb, event_block ev = Some sb ∧ late_parent sb s).

Lemma handle_safe (P : exn → Prop) now ev s :
  chain_throws P → caches_ok s → no_cycle ev s → safe (handler_exn P ev s) (handle now ev) s.
Proof.
  intros HP Hok [Ha Hb]. assert (HPQ : ∀ x, P x → handler_exn P ev s x) by (by left).
  assert (Hblock : ∀ from sb s', event_block ev = Some sb → nw_block_cache s' = nw_block_cache s →
    nw_block_children s' = nw_block_children s → nw_chain s' = nw_chain s →
    safe (handler_exn P ev s) (receiveBlock now from sb) s').
  { intros from sb s' He Hc Hch Hcn. rewrite He in Hb.
    destruct (receiveBlock_safe P HP now from sb s') as [Hs Ht].
    - unfold caches_ok. by rewrite Hc, Hch.
    - by rewrite Hc.
    - by rewrite Hc.
    - split; [done|]. destruct (receiveBlock now from sb s').1; simpl in *; [done..|].
      destruct Ht as [?|[-> Hl]]; [by left|right]. split; [done|]. exists sb. split; [done|].
      unfold late_parent in *. by rewrite Hc, Hch, Hcn in Hl. }
  destruct ev as [from sb|from h [sb|]|from sa|from saa|m]; cbn [handle].
  - by apply Hblock.
  - unfold onBlockResponse. apply safe_bind; [done|]. intros u s1 [= _ <-] _. by apply Hblock.
  - done.
  - apply (safe_tame P); [done..|]. by apply (pending_tame P HP); [|apply HP|].
  - apply (safe_tame P); [done..|]. by apply (pending_tame P HP); [|apply HP|].
  - apply (safe_tame P); [done..|]. by apply receiveStatus_tame.
Qed.
End reachable.
