(* ===== verification/ForkChoiceChain.v ===== *)
(** * The fork choice store as the chain of the networking module

    NetworkingImpl holds the block tree and the fork choice store over it; the store's
    block tree is that tree. *)

From S2P Require Import Prelude Errors Types Justifiable Stf CachedTree CachedTreeProofs CachedTreeOps.
From S2P Require Import BlockStorage BlockStorageSpec BlockTree BlockTreeProofs LruCache.
From S2P Require Import ForkChoice ForkChoiceProofs Networking NetworkingProofs NetworkingSteps.

Section chain.
Context {S : Type} `{!SszHash} `{!BlockStorage S} `{!BuildMode} `{!UnorderedMap}.
Context `{!XmssProvider} `{!NodeKeys} `{!LoopFuel}.

#[global] Instance ForkChoiceChain : Chain (ForkChoiceStore S) := {|
  ch_has h := block_tree (has h);
  ch_lastFinalized := block_tree lastFinalized;
  ch_bestBlock := block_tree bestBlock;
  ch_getSlotByHash h := block_tree (getSlotByHash h);
  ch_onBlock := onBlock;
  ch_onGossipAttestation := onGossipAttestation;
  ch_onGossipAggregatedAttestation := onGossipAggregatedAttestation;
|}.

(** The store shows the blocks of its tree and its storage. *)
Definition store_view `{!BlockStorageLaws S} (s : ForkChoiceStore S) (v : ChainView) : Prop :=
  ∃ t g ev a, at_state t g ev (fc_block_tree s) a ∧ cv_finalized v = ct_root t ∧
    ∀ h, cv_known v h = bool_decide (is_Some (ct_nodes t !! h)) || bool_decide (is_Some (a_header a h)).

#[global] Instance ForkChoiceChain_laws `{!BlockStorageLaws S} : ChainLaws (ForkChoiceStore S).
Proof.
  refine {| ch_view := store_view |}.
  - intros s v h (t & g & ev & a & Hp & Hf & Hk).
    destruct (fc_tree _ s _ _ _ _ _ (bt_has_spec t g ev a h _ Hp)) as (p & Hr & Hp').
    exists (set_block_tree p s). rewrite Hk. split; [exact Hr|]. by exists t, g, ev, a.
  - intros s v (t & g & ev & a & Hp & Hf & Hk).
    destruct (fc_tree _ s _ _ _ _ _ (bt_lastFinalized_spec t g ev a _ Hp)) as (p & Hr & Hp').
    exists (set_block_tree p s). rewrite Hf. split; [exact Hr|]. by exists t, g, ev, a.
Defined.
End chain.
