(* ===== verification/NetworkingTheorems.v ===== *)
(** * Block synchronization: the theorems *)

From S2P Require Import Prelude Errors Types Justifiable Stf CachedTree CachedTreeProofs.
From S2P Require Import BlockStorage BlockStorageSpec BlockTree BlockTreeProofs LruCache ForkChoice ForkChoiceProofs.
From S2P Require Import ToyHash ToyStore ToyForkChoice.
From S2P Require Import Networking NetworkingProofs NetworkingSteps ForkChoiceChain.

Section theorems.
Context {C : Type} `{Chain C} `{!ChainLaws C} `{SszHash} `{UnorderedMultimap}.
Implicit Types s : Networking C.

(** C12: in every state the handlers can reach, whatever other modules do to the chain in
    between, the block cache and the table of children describe the same forest, and a
    handler leaves with an exception only when the chain throws it or when the event
    carries a block, neither cached nor known to the chain, whose slot is not above the
    slot the chain reports as finalized and whose child is cached. *)
Theorem caches_stay_consistent P now ev s :
  chain_throws (C:=C) P → reachable s → no_cycle ev s →
  caches_ok s ∧
  ∀ x s', handle now ev s = (Throw x, s') →
    P x ∨ (x = UndefinedBehaviour ∧ ∃ sb, event_block ev = Some sb ∧ late_parent sb s).
Proof.
  intros HP Hr Hn. assert (Hok : caches_ok s).
  { clear ev Hn now. induction Hr as [c|now ev s Hr IH Hn|c s Hr IH]; [|by apply (handle_safe P now ev s)|done].
    constructor; simpl; [done| |constructor]. intros p h. rewrite elem_of_nil. naive_solver. }
  split; [done|]. intros x s' Hrun. destruct (handle_safe P now ev s HP Hok Hn) as [_ Ht].
  by rewrite Hrun in Ht.
Qed.

Lemma prune_erases s x : nw_block_cache s !! x = None → nw_block_cache (prune s).2 !! x = None.
Proof.
  intros Hx. unfold prune, mbind, sm_bind, chain. destruct (ch_lastFinalized (nw_chain s)) as [[fin|e|y] c]; try done.
  cbn [sm_get sm_lift]. case_match; try done. cbn. apply map_lookup_filter_None. by left.
Qed.

(** C8: a block whose parent is known is imported together with every cached block that
    descends from it: each exactly once, parents before their children, with the
    attestations that waited for it; afterwards none of them is cached.  The loop ends
    within the size of the cache. *)
Theorem receiveBlock_imports_subtree now from sb s v :
  let h := block_hash (sb_block sb) in
  ch_view (nw_chain s) v → caches_ok s → acyclic (with_block sb (nw_block_cache s)) →
  nw_block_cache s !! h = None → cv_known v h = false →
  bi_slot (cv_finalized v) < b_slot (sb_block sb) → cv_known v (b_parent_root (sb_block sb)) = true →
  ∃ s1 l, receiveBlock now from sb s = (sm_iter (visit (Some import_block)) l ≫= λ _, prune) s1 ∧
    nw_block_cache s1 = with_block sb (nw_block_cache s) ∧
    nw_attestation_cache s1 = nw_attestation_cache s ∧
    nw_aggregated_attestation_cache s1 = nw_aggregated_attestation_cache s ∧
    NoDup l ∧ (∀ x, x ∈ l ↔ desc (with_block sb (nw_block_cache s)) h x) ∧
    parents_first (with_block sb (nw_block_cache s)) [h] l ∧
    ∀ s', receiveBlock now from sb s = (Ok (), s') → ∀ x, x ∈ l → nw_block_cache s' !! x = None.
Proof.
  intros h Hv Hok Ha Hn Hk Hslot Hpk.
  destruct (receiveBlock_imports now from sb s v Hv Hok Ha Hn Hk Hslot Hpk)
    as (s1 & l & Hrun & _ & Hc1 & Hw1 & Ha1 & Ha2 & Hnd & Hel & Hpf).
  exists s1, l. rewrite Hc1 in *. split_and!; try done. intros s' Hs' x Hx. rewrite Hrun in Hs'.
  destruct (visits_safe (λ _, True) chain_throws_any (Some import_block) l s1) as [_ Hgone]; [|unfold caches_ok; by rewrite Hc1|done| |].
  - intros f [= <-] b l1 l2. apply quiet_import, chain_throws_any.
  - intros y Hy%Hel. rewrite Hc1. by eapply desc_cached.
  - unfold mbind, sm_bind in Hs'. destruct (sm_iter _ l s1) as [[[]|e|y] s2] eqn:Hit; try done.
    specialize (Hgone s2 eq_refl x). rewrite decide_True in Hgone by done.
    replace s' with (prune s2).2 by (by rewrite Hs'). by apply prune_erases.
Qed.

Lemma visits_none l s :
  caches_ok s → NoDup l → (∀ x, x ∈ l → is_Some (nw_block_cache s !! x)) →
  ∃ s', sm_iter (visit None) l s = (Ok (), s').
Proof.
  revert s. induction l as [|h l IH]; intros s Hok Hnd Hin; [by exists s|].
  apply NoDup_cons in Hnd as [Hh Hnd]. destruct (Hin h) as [item Hit]; [by left|].
  destruct (cache_wf_take _ _ _ _ Hok Hit) as (ch & He & Hw & _).
  destruct (IH (taken h ch s)) as [s' Hs']; [exact Hw|done| |].
  { intros x Hx. cbn. rewrite lookup_delete_ne; [apply Hin; by right|]. by intros ->. }
  exists s'. cbn [sm_iter]. change (visit None h) with (consume_block (C:=C) None true h ≫= λ _, mret ()).
  unfold mbind, sm_bind. by rewrite consume_block_run, Hit, He.
Qed.

(** A block at a finalized slot whose child is cached makes receiveBlock use an iterator
    after its element was erased: the loop over the children of the block consumes the
    child, which erases the entry the loop stands on. *)
Theorem receiveBlock_dangling_iterator now from sb s :
  caches_ok s → acyclic (nw_block_cache s) → late_parent sb s →
  ∃ s', receiveBlock now from sb s = (Throw UndefinedBehaviour, s').
Proof.
  intros Hok Ha ([child Hch] & Hn & c1 & fin & c2 & R1 & R2 & Hslot). set (h := block_hash (sb_block sb)) in *.
  unfold receiveBlock. rewrite (sm_bind_ok _ _ s s s) by done. cbv zeta. cbn [block_index bi_hash bi_slot].
  rewrite bool_decide_eq_false_2 by (fold h; rewrite Hn; apply is_Some_None).
  rewrite (sm_bind_ok _ _ s false (set_chain c1 s)) by (unfold chain; fold h; by rewrite R1).
  set (s2 := set_chain c2 s).
  rewrite (sm_bind_ok _ _ _ fin s2) by (unfold chain; cbn [nw_chain set_chain]; by rewrite R2).
  rewrite (proj2 (N.leb_le _ _) Hslot).
  rewrite (sm_bind_ok _ _ s2 s2 s2) by done.
  destruct (equal_range (block_hash (sb_block sb)) (nw_block_children s2)) as [|child' rest] eqn:Hrange.
  { apply elem_of_equal_range in Hch. change (nw_block_children s2) with (nw_block_children s) in Hrange.
    fold h in Hrange. rewrite Hrange in Hch. by apply elem_of_nil in Hch. }
  assert (Hcached : is_Some (nw_block_cache s !! child')).
  { assert (Hin : (h, child') ∈ nw_block_children s).
    { apply elem_of_equal_range. change (nw_block_children s2) with (nw_block_children s) in Hrange.
      fold h in Hrange. rewrite Hrange. by left. }
    apply (cw_children _ _ Hok) in Hin as (item & Hi & _). by eexists. }
  destruct (visit_order_spec (S (size (nw_block_cache s))) _ _ _ Hok (queue_ok_single _ _ Ha Hcached))
    as (Hnd & Hel & _); [apply Nat.lt_succ_diag_r|].
  destruct (visits_none _ s2 Hok Hnd) as [s' Hs'].
  { intros x (r & _ & Hd)%Hel. by eapply desc_cached. }
  assert (Hcons : consumeBlockTree false child' None s2 = (Ok (), s')).
  { unfold consumeBlockTree. rewrite (sm_bind_ok _ _ s2 s2 s2) by done.
    rewrite consume_queue_visits; [exact Hs'|apply plain_none|apply Nat.lt_succ_diag_r]. }
  exists s'. by rewrite (sm_bind_ok _ _ _ _ _ Hcons).
Qed.

(** RequestBlock asks for at most one block: the nearest ancestor of the wanted block that
    is neither cached nor known, and not again within the retry interval.  The search
    through the cache always ends. *)
Theorem requestBlock_asks_missing now peer h s v :
  ch_view (nw_chain s) v → acyclic (nw_block_cache s) →
  ∃ c at' reqs, requestBlock now peer h s = (Ok (), set_requested at' reqs (set_chain c s)) ∧ ch_view c v ∧
    (reqs = nw_requests s ∨
     ∃ y, reqs = nw_requests s ++ [(peer, y)] ∧ cached_path (nw_block_cache s) h y ∧
       nw_block_cache s !! y = None ∧ cv_known v y = false ∧ at' !! y = Some now ∧
       default 0 (nw_block_requested_at s !! y) + kRetryRequestBlock ≤ now).
Proof. intros. by apply requestBlock_run. Qed.
End theorems.

(** ** The example store as chain: blocks 2 and 3 of the example chain arrive *)
Module NetEx.
Import FcStore.
#[local] Existing Instance ReleaseBuild.
#[local] Existing Instance CanonicalOrder.
#[local] Existing Instance ToyXmss.
#[local] Existing Instance ToyKeys.
#[local] Existing Instance ToyFuel.
#[local] Existing Instance AppendOrder.

Lemma ex_view : ∃ v, ch_view s_ex v ∧ cv_finalized v = genesis_index ∧
  cv_known v (bi_hash child_index) = true ∧
  ∀ h, h ≠ bi_hash genesis_index → h ≠ bi_hash child_index → cv_known v h = false.
Proof.
  destruct (store_facts (cp_of genesis_index) votes ∅) as (t & ev & a & Hp & _ & _ & _ & _ & _ & Hr & _ & _ & Hc & Hno).
  exists (mkChainView (λ h, bool_decide (is_Some (ct_nodes t !! h)) || bool_decide (is_Some (a_header a h))) (ct_root t)).
  split; [exists t, None, ev, a; split; [exact Hp|]; split; [reflexivity|intros h; reflexivity]|].
  split; [exact Hr|]. cbn [cv_known]. split.
  - unfold find in Hc. destruct (ct_nodes t !! bi_hash child_index); [reflexivity|discriminate Hc].
  - intros h H1 H2. destruct (Hno h H1 H2) as [-> ->]. reflexivity.
Qed.

Definition sb2 : SignedBlock := mkSignedBlock Ex.b2 (mkBlockSignatures [] 1).
Definition sb3 : SignedBlock := mkSignedBlock Ex.b3 (mkBlockSignatures [] 1).
Definition start : Networking (ForkChoiceStore ToyS) := mkNetworking s_ex ∅ ∅ [] [] [] [] [].
(** Block 3 waits for block 2. *)
Definition waiting (sb : SignedBlock) : Networking (ForkChoiceStore ToyS) :=
  set_blocks (with_block sb ∅) [(b_parent_root (sb_block sb), block_hash (sb_block sb))] start.

Lemma start_ok : caches_ok start.
Proof. constructor; simpl; [done| |constructor]. intros p h. rewrite elem_of_nil. naive_solver. Qed.
Lemma waiting_ok sb : caches_ok (waiting sb).
Proof. exact (cache_wf_add _ _ sb start_ok eq_refl). Qed.

(** Two blocks, the second on top of the first. *)
Lemma acyclic_two (first second : SignedBlock) :
  b_parent_root (sb_block first) ≠ block_hash (sb_block first) →
  b_parent_root (sb_block second) ≠ block_hash (sb_block second) →
  b_parent_root (sb_block first) ≠ block_hash (sb_block second) →
  acyclic (with_block first (with_block second ∅)).
Proof.
  intros H1 H2 H3. exists (λ h, if decide (h = block_hash (sb_block second)) then 2%nat
    else if decide (h = block_hash (sb_block first)) then 1%nat else 0%nat).
  intros h item Hi. unfold with_block in Hi. apply lookup_insert_Some in Hi as [[<- <-]|[Hne Hi]].
  - unfold item_parent. cbn [bci_block]. repeat case_decide; try done; lia.
  - apply lookup_insert_Some in Hi as [[<- <-]|[_ Hi]]; [|by rewrite lookup_empty in Hi].
    unfold item_parent. cbn [bci_block]. repeat case_decide; try done; lia.
Qed.
Lemma acyclic_one (sb : SignedBlock) :
  b_parent_root (sb_block sb) ≠ block_hash (sb_block sb) → acyclic (with_block sb ∅).
Proof.
  intros Hne. exists (λ h, if decide (h = block_hash (sb_block sb)) then 1%nat else 0%nat).
  intros h item Hi. unfold with_block in Hi.
  apply lookup_insert_Some in Hi as [[<- <-]|[_ Hi]]; [|by rewrite lookup_empty in Hi].
  unfold item_parent. cbn [bci_block]. repeat case_decide; try done; lia.
Qed.

Lemma receiveBlock_imports_subtree_witness :
  ∃ s1 l, receiveBlock 10 (Some 5) sb2 (waiting sb3) = (sm_iter (visit (Some import_block)) l ≫= λ _, prune) s1 ∧
    (block_hash Ex.b2) ∈ l.
Proof.
  destruct ex_view as (v & Hv & Hf & Hk & Hno).
  destruct (receiveBlock_imports_subtree 10 (Some 5) sb2 (waiting sb3) v Hv (waiting_ok sb3))
    as (s1 & l & Hrun & _ & _ & _ & _ & Hel & _).
  - apply acyclic_two; by vm_compute.
  - by vm_compute.
  - apply Hno; by vm_compute.
  - rewrite Hf. by vm_compute.
  - replace (b_parent_root (sb_block sb2)) with (bi_hash child_index) by (by vm_compute). exact Hk.
  - exists s1, l. split; [exact Hrun|]. apply Hel. constructor. unfold with_block.
    eexists. apply lookup_insert_eq.
Defined.

(** A block of slot 0 of another fork arrives after its child. *)
Definition fork0 : SignedBlock := mkSignedBlock (mkBlock 0 3 9 9 (mkBlockBody [])) (mkBlockSignatures [] 1).
Definition fork1 : SignedBlock :=
  mkSignedBlock (mkBlock 1 0 (block_hash (sb_block fork0)) 9 (mkBlockBody [])) (mkBlockSignatures [] 1).
(** A chain that knows one block, finalized at slot 0, and never throws. *)
Definition OneBlock : Chain () :=
  {| ch_has h c := (Ok (h =? 9), c); ch_lastFinalized c := (Ok (mkBlockIndex 0 9), c);
     ch_bestBlock c := (Ok (mkBlockIndex 0 9), c); ch_getSlotByHash h c := (Ok 0, c);
     ch_onBlock b c := (Ok (), c); ch_onGossipAttestation a c := (Ok (), c);
     ch_onGossipAggregatedAttestation a c := (Ok (), c) |}.
#[local] Existing Instance OneBlock | 0.
Definition empty_net : Networking () := mkNetworking () ∅ ∅ [] [] [] [] [].
(** The state after the later block of the fork arrived. *)
Definition fork1_waits : Networking () := (handle 5 (GossipBlock None fork1) empty_net).2.

Lemma OneBlock_throws : chain_throws (C:=()) (λ _, False).
Proof. by constructor. Qed.
Lemma fork1_waits_cache : nw_block_cache fork1_waits = with_block fork1 ∅.
Proof. vm_compute. reflexivity. Qed.
Lemma fork1_waits_late : late_parent fork0 fork1_waits.
Proof.
  split; [exists (block_hash (sb_block fork1)); vm_compute; by left|]. split; [by vm_compute|].
  exists (), (mkBlockIndex 0 9), (). split_and!; by vm_compute.
Qed.

Lemma receiveBlock_dangling_iterator_witness :
  ∃ s', receiveBlock 10 None fork0 fork1_waits = (Throw UndefinedBehaviour, s').
Proof.
  apply receiveBlock_dangling_iterator; [| |exact fork1_waits_late].
  - refine (proj1 (handle_safe (λ _, False) 5 (GossipBlock None fork1) empty_net OneBlock_throws _ _)).
    + constructor; simpl; [done| |constructor]. intros p h. rewrite elem_of_nil. naive_solver.
    + split; [exists (λ _, 0%nat); intros h item Hi; cbn in Hi; by rewrite lookup_empty in Hi|].
      apply acyclic_one; by vm_compute.
  - rewrite fork1_waits_cache. apply acyclic_one; by vm_compute.
Defined.

(** The state is reachable, its caches agree, and the handler of the earlier block, which
    throws in it, does so because the block is late. *)
Lemma caches_stay_consistent_witness :
  caches_ok fork1_waits ∧ nw_block_cache fork1_waits = with_block fork1 ∅ ∧
  ∃ s', handle 10 (GossipBlock None fork0) fork1_waits = (Throw UndefinedBehaviour, s') ∧
    late_parent fork0 fork1_waits.
Proof.
  assert (Hn : no_cycle (GossipBlock None fork0) fork1_waits).
  { split; cbn [event_block]; rewrite fork1_waits_cache; [apply acyclic_one|apply acyclic_two]; by vm_compute. }
  assert (Hr : reachable fork1_waits).
  { apply reach_handle; [apply reach_init|]. split; [|apply acyclic_one; by vm_compute].
    exists (λ _, 0%nat). intros h item Hi. cbn in Hi. by rewrite lookup_empty in Hi. }
  destruct (caches_stay_consistent (λ _, False) 10 (GossipBlock None fork0) fork1_waits OneBlock_throws Hr Hn)
    as [Hok Hx].
  split; [exact Hok|]. split; [exact fork1_waits_cache|].
  exists (handle 10 (GossipBlock None fork0) fork1_waits).2. split; [vm_compute; reflexivity|].
  destruct (Hx UndefinedBehaviour (handle 10 (GossipBlock None fork0) fork1_waits).2) as [[]|(_ & sb & [= <-] & Hl)];
    [vm_compute; reflexivity|exact Hl].
Defined.

Lemma requestBlock_asks_missing_witness :
  ∃ c at' reqs, requestBlock 10000000000 5 (block_hash Ex.b3) (waiting sb3) =
    (Ok (), set_requested at' reqs (set_chain c (waiting sb3))).
Proof.
  destruct ex_view as (v & Hv & _).
  destruct (requestBlock_asks_missing 10000000000 5 (block_hash Ex.b3) (waiting sb3) v Hv)
    as (c & at' & reqs & Hrun & _); [apply acyclic_one; by vm_compute|].
  exists c, at', reqs. exact Hrun.
Defined.
End NetEx.
