(* ===== verification/Peers.v ===== *)
(** * Peer connections (src/src/modules/networking/networking.{hpp,cpp})

    The state machine of the bootnode peers: Connectable, Connecting, Connected, Backoff.
    Connecting is asynchronous; [pr_connects] are the attempts under way.  Times are
    nanoseconds of the steady clock, backoffs milliseconds. *)

From S2P Require Import Prelude Errors Types CachedTree Networking.

Definition kInitBackoff : N := 10 * 1000.
Definition kMaxBackoff : N := 5 * 60 * 1000.
(** A duration in milliseconds added to a time point. *)
Definition after_ms (now ms : N) : N := now + ms * 1000000.

(** PeerState *)
Inductive PeerStatus :=
| Connectable (backoff : N)
| Connecting (backoff : N)
| Connected
| Backoff (backoff : N) (backoff_until : N).
Record PeerInfo := mkPeerInfo {
  pi_id : PeerId;
  pi_addresses : list N;
}.
Record PeerState := mkPeerState {
  ps_info : PeerInfo;
  ps_state : PeerStatus;
}.

(** libp2p::PeerId of a bootnode, its address and its role *)
Record BootnodeInfo := mkBootnodeInfo {
  bn_address : N;
  bn_peer_id : PeerId;
  bn_is_aggregator : bool;
}.

(** connectable_peers_, peer_states_, subnet_aggregators_ (in its iteration order) and
    the random engine. *)
Record Peers := mkPeers {
  pr_connectable : list PeerId;
  pr_states : gmap PeerId PeerState;
  pr_aggregators : list PeerId;
  pr_random : N;
  pr_connects : list PeerId;
}.

(** [std::uniform_int_distribution{0, max}(engine)]: a value and the engine's next state. *)
Class Uniform := {
  uniform : N → N → N * N;
  uniform_le max engine : (uniform max engine).1 ≤ max;
}.

Definition set_status (st : PeerStatus) (p : PeerState) : PeerState := mkPeerState (ps_info p) st.
Definition is_connectable (st : PeerStatus) : bool :=
  match st with Connectable _ => true | _ => false end.
Definition is_active (st : PeerStatus) : bool :=
  match st with Connecting _ | Connected => true | _ => false end.

Section peers.
Context `{UnorderedMap} `{UnorderedMultimap} `{Uniform}.
Local Abbreviation M := (SM Peers error).

Definition set_states (m : gmap PeerId PeerState) (p : Peers) : Peers :=
  mkPeers (pr_connectable p) m (pr_aggregators p) (pr_random p) (pr_connects p).
Definition set_connectable (l : list PeerId) (p : Peers) : Peers :=
  mkPeers l (pr_states p) (pr_aggregators p) (pr_random p) (pr_connects p).

(** The loop of on_loaded_success over the bootnodes. *)
Definition add_bootnode (self : PeerId) (subnets : gset N) (subnet_count : N) (p : Peers)
    (entry : ValidatorIndex * BootnodeInfo) : result Peers :=
  let '(validator_index, bootnode) := entry in
  let id := bn_peer_id bootnode in
  if id =? self then Ok p
  else
    subnet ← (if bn_is_aggregator bootnode then s ← validatorSubnet validator_index subnet_count; Ok (Some s)
              else Ok None);
    let aggregator := match subnet with Some s => bool_decide (s ∈ subnets) | None => false end in
    Ok (mkPeers
      (if aggregator then pr_connectable p else pr_connectable p ++ [id])
      (emplace id (mkPeerState (mkPeerInfo id [bn_address bootnode]) (Connectable kInitBackoff)) (pr_states p))
      (if aggregator
       then (if decide (id ∈ pr_aggregators p) then pr_aggregators p else mm_emplace id (pr_aggregators p))
       else pr_aggregators p)
      (pr_random p) (pr_connects p)).
Definition load_bootnodes (self : PeerId) (subnets : gset N) (subnet_count validator_count : N)
    (bootnodes : list BootnodeInfo) (engine : N) : result Peers :=
  oc_foldl (add_bootnode self subnets subnet_count) (mkPeers [] ∅ [] engine [])
    (zip (seqN 0 validator_count) bootnodes).

(** on_peer_connected; the part about peer_states_ *)
Definition onPeerConnected (peer_id : PeerId) : M () :=
  p ← sm_get;
  match pr_states p !! peer_id with
  | None => mret ()
  | Some state =>
      match ps_state state with
      | Connected => mret ()
      | Connectable _ =>
          if decide (peer_id ∈ pr_connectable p) then
            children ← sm_lift (erase_element peer_id (pr_connectable p));
            sm_put (set_states (<[peer_id := set_status Connected state]> (pr_states p))
                      (set_connectable children p))
          else sm_throw LogicError
      | _ => sm_put (set_states (<[peer_id := set_status Connected state]> (pr_states p)) p)
      end
  end.

(** on_peer_disconnected *)
Definition onPeerDisconnected (now : N) (peer_id : PeerId) : M () :=
  sm_modify (λ p,
    match pr_states p !! peer_id with
    | Some state =>
        match ps_state state with
        | Connected =>
            set_states (<[peer_id := set_status (Backoff kInitBackoff (after_ms now kInitBackoff)) state]>
                          (pr_states p)) p
        | _ => p
        end
    | None => p
    end).

(** The first loop of connectToPeers: counts the active peers and ends expired backoffs. *)
Definition expire_backoff (now : N) (acc : N * Peers) (entry : PeerId * PeerState) : N * Peers :=
  let '(active, p) := acc in
  let '(id, state) := entry in
  match ps_state state with
  | Connecting _ | Connected => (active + 1, p)
  | Backoff backoff until =>
      if until <=? now then
        (active, mkPeers
          (if decide (pi_id (ps_info state) ∈ pr_aggregators p) then pr_connectable p
           else pr_connectable p ++ [pi_id (ps_info state)])
          (<[id := set_status (Connectable backoff) state]> (pr_states p))
          (pr_aggregators p) (pr_random p) (pr_connects p))
      else acc
  | Connectable _ => acc
  end.

(** The lambda connect: Connectable => Connecting, and an attempt is started. *)
Definition connect (id : PeerId) (state : PeerState) : M () :=
  match ps_state state with
  | Connectable backoff =>
      sm_modify (λ p, mkPeers (pr_connectable p)
        (<[id := set_status (Connecting backoff) state]> (pr_states p))
        (pr_aggregators p) (pr_random p) (pr_connects p ++ [pi_id (ps_info state)]))
  | _ => sm_throw BadVariantAccess
  end.

(** The loop over the aggregators of the subnet. *)
Fixpoint connect_aggregators (ids : list PeerId) (active : N) : M N :=
  match ids with
  | [] => mret active
  | id :: ids =>
      p ← sm_get;
      state ← sm_lift (of_option OutOfRange (pr_states p !! id));
      if is_connectable (ps_state state)
      then connect id state ≫= λ _, connect_aggregators ids (active + 1)
      else connect_aggregators ids active
  end.

(** The loop that picks random connectable peers. *)
Fixpoint connect_random (fuel : nat) (want active : N) : M N :=
  p ← sm_get;
  if active <? want then
    match last (pr_connectable p), fuel with
    | None, _ => mret active
    | Some _, O => sm_throw OutOfFuel
    | Some back, S fuel =>
        let l := pr_connectable p in
        let '(i, engine) := uniform (lengthN l - 1) (pr_random p) in
        id ← sm_lift (of_option OutOfRange (l !! N.to_nat i));
        (* swap with the last one and pop_back *)
        sm_put (mkPeers (take (length l - 1) (<[N.to_nat i := back]> l)) (pr_states p) (pr_aggregators p)
                  engine (pr_connects p)) ≫= λ _,
        state ← sm_lift (of_option OutOfRange (pr_states p !! id));
        connect id state ≫= λ _,
        connect_random fuel want (active + 1)
    end
  else mret active.

Definition connectToPeers (now : N) (max_bootnodes : option N) : M () :=
  p ← sm_get;
  let want := N.of_nat (size (pr_states p)) in
  let want := match max_bootnodes with Some limit => N.min want limit | None => want end in
  let '(active, p) := foldl (expire_backoff now) (0, p) (iteration (pr_states p)) in
  sm_put p ≫= λ _,
  active ← connect_aggregators (pr_aggregators p) active;
  p ← sm_get;
  connect_random (length (pr_connectable p)) want active ≫= λ _, mret ().

(** The end of the coroutine of connect. *)
Definition onConnectFinished (now : N) (peer_id : PeerId) (success : bool) : M () :=
  p ← sm_get;
  state ← sm_lift (of_option OutOfRange (pr_states p !! peer_id));
  if success then mret ()
  else
    match ps_state state with
    | Connecting backoff =>
        sm_put (set_states (<[peer_id := set_status
          (Backoff (N.min (2 * backoff) kMaxBackoff) (after_ms now backoff)) state]> (pr_states p)) p)
    | _ => mret ()
    end.
End peers.
