(* ===== verification/PeersProofs.v ===== *)
(** * Peer connections: the invariant and its preservation *)

From S2P Require Import Prelude Errors Types CachedTree Networking NetworkingProofs Peers.

(** The backoff a state carries. *)
Definition status_backoff (st : PeerStatus) : option N :=
  match st with
  | Connectable b | Connecting b | Backoff b _ => Some b
  | Connected => None
  end.

(** Whether a peer of the table is in a state of the kind [f]. *)
Definition in_state (f : PeerStatus → bool) (m : gmap PeerId PeerState) (id : PeerId) : Prop :=
  ∃ st, m !! id = Some st ∧ f (ps_state st) = true.

(** connectable_peers_ holds exactly the connectable peers that are not aggregators. *)
Record peers_wf (p : Peers) : Prop := {
  pw_id : ∀ id st, pr_states p !! id = Some st → pi_id (ps_info st) = id;
  pw_connectable : ∀ id, id ∈ pr_connectable p ↔ (id ∉ pr_aggregators p) ∧ in_state is_connectable (pr_states p) id;
  pw_nodup : NoDup (pr_connectable p);
  pw_aggregators : ∀ id, id ∈ pr_aggregators p → is_Some (pr_states p !! id);
  pw_backoff : ∀ id st b, pr_states p !! id = Some st → status_backoff (ps_state st) = Some b →
    kInitBackoff ≤ b ≤ kMaxBackoff;
}.

Lemma in_state_insert_eq f m id st : in_state f (<[id := st]> m) id ↔ f (ps_state st) = true.
Proof. unfold in_state. rewrite lookup_insert_eq. naive_solver. Qed.
Lemma in_state_insert_ne f m id id' st : id ≠ id' → in_state f (<[id := st]> m) id' ↔ in_state f m id'.
Proof. intros Hne. unfold in_state. by rewrite lookup_insert_ne. Qed.

Lemma init_le_max : kInitBackoff ≤ kMaxBackoff.
Proof. by vm_compute. Qed.

(** A peer changes its state; the list of connectable peers follows. *)
Lemma peers_wf_update p id st status l engine connects :
  peers_wf p → pr_states p !! id = Some st →
  (∀ b, status_backoff status = Some b → kInitBackoff ≤ b ≤ kMaxBackoff) →
  NoDup l →
  (∀ x, x ≠ id → x ∈ l ↔ x ∈ pr_connectable p) →
  (id ∈ l ↔ (id ∉ pr_aggregators p) ∧ is_connectable status = true) →
  peers_wf (mkPeers l (<[id := set_status status st]> (pr_states p)) (pr_aggregators p) engine connects).
Proof.
  intros Hw Hst Hb Hnd Hl Hid. constructor; cbn [pr_states pr_connectable pr_aggregators].
  - intros x s [[<- <-]|[_ Hs]]%lookup_insert_Some; [|by apply (pw_id _ Hw)].
    by apply (pw_id _ Hw _ _ Hst).
  - intros x. destruct (decide (x = id)) as [->|Hne].
    + by rewrite in_state_insert_eq.
    + by rewrite in_state_insert_ne, Hl, (pw_connectable _ Hw).
  - done.
  - intros x Hx%(pw_aggregators _ Hw). destruct (decide (x = id)) as [->|Hne].
    + rewrite lookup_insert_eq. by eexists.
    + by rewrite lookup_insert_ne.
  - intros x s b [[<- <-]|[_ Hs]]%lookup_insert_Some Hsb; [by apply Hb|by eapply (pw_backoff _ Hw)].
Qed.

(** A change between states that are not connectable. *)
Lemma peers_wf_status p id st status :
  peers_wf p → pr_states p !! id = Some st →
  is_connectable (ps_state st) = false → is_connectable status = false →
  (∀ b, status_backoff status = Some b → kInitBackoff ≤ b ≤ kMaxBackoff) →
  peers_wf (set_states (<[id := set_status status st]> (pr_states p)) p).
Proof.
  intros Hw Hst Hold Hnew Hb. apply (peers_wf_update p id st status (pr_connectable p)); try done; [apply Hw|].
  rewrite (pw_connectable _ Hw), Hnew. split; [|naive_solver].
  intros [_ (st' & Hst' & Hc)]. rewrite Hst in Hst'. injection Hst' as <-. congruence.
Qed.

Lemma onPeerConnected_wf id p : peers_wf p → peers_wf (onPeerConnected id p).2.
Proof.
  intros Hw. unfold onPeerConnected. rewrite (sm_bind_ok _ _ p p p) by done.
  destruct (pr_states p !! id) as [st|] eqn:Hst; [|done].
  destruct (ps_state st) as [b|b| |b u] eqn:Hs; [|apply peers_wf_status; by rewrite ?Hs|done|apply peers_wf_status; by rewrite ?Hs].
  case_decide as Hin; [|done].
  destruct (erase_element_ok id _ Hin) as (l & He & _).
  destruct (erase_element_spec _ _ _ (pw_nodup _ Hw) He) as [Hnd Hel].
  rewrite (sm_bind_ok _ _ p l p) by (unfold sm_lift; by rewrite He).
  apply (peers_wf_update p id st Connected l); try done.
  - intros x Hne. rewrite Hel. naive_solver.
  - rewrite Hel. naive_solver.
Qed.

Lemma onPeerDisconnected_wf now id p : peers_wf p → peers_wf (onPeerDisconnected now id p).2.
Proof.
  intros Hw. unfold onPeerDisconnected, sm_modify. cbn [snd].
  destruct (pr_states p !! id) as [st|] eqn:Hst; [|done]. destruct (ps_state st) eqn:Hs; try done.
  apply peers_wf_status; rewrite ?Hs; try done. intros b [= <-]. split; [done|apply init_le_max].
Qed.

Lemma onConnectFinished_wf now id ok p : peers_wf p → peers_wf (onConnectFinished now id ok p).2.
Proof.
  intros Hw. unfold onConnectFinished. rewrite (sm_bind_ok _ _ p p p) by done.
  destruct (pr_states p !! id) as [st|] eqn:Hst; [|done].
  rewrite (sm_bind_ok _ _ p st p) by done. destruct ok; [done|].
  destruct (ps_state st) as [b|b| |b u] eqn:Hs; try done.
  apply peers_wf_status; rewrite ?Hs; try done. intros b' [= <-].
  pose proof (pw_backoff _ Hw _ _ b Hst ltac:(by rewrite Hs)). pose proof init_le_max. lia.
Qed.

(** ** connectToPeers *)

(** How many peers are active. *)
Definition active_count (m : gmap PeerId PeerState) : N :=
  N.of_nat (size (filter (λ '(_, st), is_active (ps_state st) = true) m)).

Lemma active_count_entries m :
  active_count m = lengthN (filter (λ e, is_active (ps_state e.2) = true) (map_to_list m)).
Proof.
  unfold active_count, lengthN. rewrite map_filter_alt, map_size_list_to_map.
  - do 2 f_equal. apply list_filter_iff. by intros [].
  - apply NoDup_fmap_2_strong; [|apply NoDup_filter, NoDup_map_to_list].
    intros [k1 v1] [k2 v2] [_ Hk1]%list_elem_of_filter [_ Hk2]%list_elem_of_filter Hk. cbn [fst] in Hk. subst k2.
    apply elem_of_map_to_list in Hk1, Hk2. congruence.
Qed.
Lemma active_count_activate m id st status :
  m !! id = Some st → is_active (ps_state st) = false → is_active status = true →
  active_count (<[id := set_status status st]> m) = active_count m + 1.
Proof.
  intros Hst Hold Hnew. unfold active_count. rewrite map_filter_insert_True by done.
  rewrite map_size_insert_None; [lia|]. apply map_lookup_filter_None. right.
  intros st' Hst'. rewrite Hst in Hst'. injection Hst' as <-. by rewrite Hold.
Qed.
Lemma active_count_keep m id st status :
  m !! id = Some st → is_active (ps_state st) = false → is_active status = false →
  active_count (<[id := set_status status st]> m) = active_count m.
Proof.
  intros Hst Hold Hnew. unfold active_count. rewrite map_filter_insert_False by (cbn; congruence).
  f_equal. f_equal. apply map_eq. intros x. apply option_eq. intros s.
  rewrite !map_lookup_filter_Some, lookup_delete_Some. split; [naive_solver|].
  intros [Hs Ha]. split; [|done]. split; [|done]. intros <-. rewrite Hst in Hs. injection Hs as <-. congruence.
Qed.

Section connect.
Context `{UnorderedMap} `{UnorderedMultimap} `{Uniform}.

(** The loop over the peers' states. *)
Lemma expire_loop now l active p :
  peers_wf p → NoDup l.*1 → (∀ id st, (id, st) ∈ l → pr_states p !! id = Some st) →
  let '(active', p') := foldl (expire_backoff now) (active, p) l in
  peers_wf p' ∧ pr_aggregators p' = pr_aggregators p ∧ pr_connects p' = pr_connects p ∧
  dom (pr_states p') = dom (pr_states p) ∧
  active_count (pr_states p') = active_count (pr_states p) ∧
  active' = active + lengthN (filter (λ e, is_active (ps_state e.2) = true) l) ∧
  (∀ id, (id ∉ l.*1) → pr_states p' !! id = pr_states p !! id) ∧
  ∀ id, id ∈ l.*1 → ∀ st b u, pr_states p' !! id = Some st → ps_state st = Backoff b u → now < u.
Proof.
  revert active p. induction l as [|[id st] l IH]; intros active p Hw Hnd Hin; cbn [foldl].
  { split_and!; try done; [by rewrite N.add_0_r|]. intros id Hid. by apply elem_of_nil in Hid. }
  cbn [fmap list_fmap fst] in Hnd. apply NoDup_cons in Hnd as [Hid Hnd].
  pose proof (Hin id st ltac:(by left)) as Hst.
  assert (Hother : ∀ id' st', (id', st') ∈ l → id' ≠ id).
  { intros id' st' Hl ->. apply Hid. apply list_elem_of_fmap. by exists (id, st'). }
  (* one turn: [p1] is the state after it *)
  assert (Hturn : ∃ a1 p1, expire_backoff now (active, p) (id, st) = (a1, p1) ∧ peers_wf p1 ∧
    pr_aggregators p1 = pr_aggregators p ∧ pr_connects p1 = pr_connects p ∧ dom (pr_states p1) = dom (pr_states p) ∧
    active_count (pr_states p1) = active_count (pr_states p) ∧
    a1 = active + (if is_active (ps_state st) then 1 else 0) ∧
    (∀ x, x ≠ id → pr_states p1 !! x = pr_states p !! x) ∧
    ∀ s b u, pr_states p1 !! id = Some s → ps_state s = Backoff b u → now < u).
  { unfold expire_backoff. destruct (ps_state st) as [b|b| |b u] eqn:Hs.
    1,2,3: eexists _, p; split_and!; try done; try (cbn; lia);
      intros s b' u' Hs'; rewrite Hst in Hs'; injection Hs' as <-; congruence.
    destruct (N.leb_spec u now) as [Hle|Hgt].
    - eexists _, _. split; [done|]. rewrite (pw_id _ Hw _ _ Hst).
      assert (Hnc : id ∉ pr_connectable p).
      { rewrite (pw_connectable _ Hw). intros [_ (s & Hs1 & Hs2)]. rewrite Hst in Hs1. injection Hs1 as <-.
        by rewrite Hs in Hs2. }
      split_and!; try done; cbn [pr_states]; [|by rewrite dom_insert_lookup_L by (by eexists)| |cbn; lia| |].
      + apply peers_wf_update; try done.
        * intros b' [= <-]. eapply (pw_backoff _ Hw); [done|by rewrite Hs].
        * case_decide; [apply Hw|]. apply NoDup_app. split; [apply Hw|]. split; [|apply NoDup_singleton].
          intros x Hx ->%list_elem_of_singleton. done.
        * intros x Hne. case_decide; [done|]. rewrite elem_of_app, list_elem_of_singleton. naive_solver.
        * case_decide as Hag; [naive_solver|]. rewrite elem_of_app, list_elem_of_singleton. naive_solver.
      + apply active_count_keep; [done|by rewrite Hs|done].
      + intros x Hne. by rewrite lookup_insert_ne.
      + intros s b' u'. rewrite lookup_insert_eq. by intros [= <-].
    - eexists _, p. split_and!; try done; [cbn; lia|]. intros s b' u' Hs' Hs2. rewrite Hst in Hs'.
      injection Hs' as <-. rewrite Hs in Hs2. by injection Hs2 as <- <-. }
  destruct Hturn as (a1 & p1 & -> & Hw1 & Hag & Hcn & Hdom & Hcount & Ha1 & Hsame & Hexp).
  specialize (IH a1 p1 Hw1 Hnd). destruct (foldl _ (a1, p1) l) as [a2 p2].
  destruct IH as (Hw2 & Hag2 & Hcn2 & Hdom2 & Hcount2 & Ha2 & Hout & Hexp2).
  { intros id' st' Hl. rewrite Hsame by (by eapply Hother). apply Hin. by right. }
  cbn [fmap list_fmap fst]. split_and!; try done; try congruence.
  - rewrite Ha2, Ha1, filter_cons. unfold lengthN. cbn [snd]. destruct (is_active (ps_state st)); case_decide; try done;
      cbn [length]; lia.
  - intros x [Hx1 Hx2]%not_elem_of_cons. rewrite Hout by done. by apply Hsame.
  - intros x [->|Hx]%elem_of_cons; [|by apply Hexp2]. intros s b u. rewrite Hout by done. apply Hexp.
Qed.

(** [m'] differs from [m] only in connectable peers that are being connected. *)
Definition progress (m m' : gmap PeerId PeerState) : Prop :=
  dom m' = dom m ∧
  ∀ x st', m' !! x = Some st' → ∃ st, m !! x = Some st ∧
    (st' = st ∨ (is_connectable (ps_state st) = true ∧ ∃ b, ps_state st' = Connecting b)).

Lemma progress_refl m : progress m m.
Proof. split; [done|]. intros x st Hst. exists st. by split; [|left]. Qed.
Lemma progress_trans m1 m2 m3 : progress m1 m2 → progress m2 m3 → progress m1 m3.
Proof.
  intros [Hd1 H12] [Hd2 H23]. split; [by rewrite Hd2|]. intros x st3 Hst3.
  destruct (H23 _ _ Hst3) as (st2 & Hst2 & [->|(Hc & b & Hb)]); [by apply H12|].
  destruct (H12 _ _ Hst2) as (st1 & Hst1 & [->|(_ & b' & Hb')]); [|by rewrite Hb' in Hc].
  exists st1. split; [done|]. right. eauto.
Qed.
Lemma progress_connecting m id st b :
  m !! id = Some st → is_connectable (ps_state st) = true → progress m (<[id := set_status (Connecting b) st]> m).
Proof.
  intros Hst Hc. split; [by rewrite dom_insert_lookup_L by (by eexists)|].
  intros x st' [[<- <-]|[_ Hx]]%lookup_insert_Some.
  - exists st. split; [done|]. right. eauto.
  - exists st'. by split; [|left].
Qed.
Lemma progress_connectable m m' x : progress m m' → in_state is_connectable m' x → in_state is_connectable m x.
Proof.
  intros [_ Hp] (st' & Hst' & Hc). destruct (Hp _ _ Hst') as (st & Hst & [->|(Hc' & b & Hb)]); [by exists st|].
  by exists st.
Qed.

Lemma connect_run id st b p :
  ps_state st = Connectable b →
  connect id st p = (Ok (), mkPeers (pr_connectable p) (<[id := set_status (Connecting b) st]> (pr_states p))
    (pr_aggregators p) (pr_random p) (pr_connects p ++ [pi_id (ps_info st)])).
Proof. intros Hs. unfold connect. by rewrite Hs. Qed.

(** Connecting to the connectable aggregators. *)
Lemma connect_aggregators_run ids p active :
  peers_wf p → (∀ id, id ∈ ids → id ∈ pr_aggregators p) → active = active_count (pr_states p) →
  ∃ p', connect_aggregators ids active p = (Ok (active_count (pr_states p')), p') ∧ peers_wf p' ∧
    pr_aggregators p' = pr_aggregators p ∧ pr_connectable p' = pr_connectable p ∧
    progress (pr_states p) (pr_states p') ∧
    ∀ id, id ∈ ids → ¬ in_state is_connectable (pr_states p') id.
Proof.
  revert p active. induction ids as [|id ids IH]; intros p active Hw Hids ->.
  { exists p. split_and!; try done; [apply progress_refl|]. intros id Hid. by apply elem_of_nil in Hid. }
  assert (Hag : id ∈ pr_aggregators p) by (apply Hids; by left).
  destruct (pw_aggregators _ Hw _ Hag) as [st Hst]. cbn [connect_aggregators].
  rewrite (sm_bind_ok _ _ p p p) by done. rewrite (sm_bind_ok _ _ p st p) by (unfold sm_lift; by rewrite Hst).
  destruct (is_connectable (ps_state st)) eqn:Hc.
  - destruct (ps_state st) as [b|b| |b u] eqn:Hs; try done.
    rewrite (sm_bind_ok _ _ _ _ _ (connect_run id st b p Hs)). set (p1 := mkPeers _ _ _ _ _).
    assert (Hw1 : peers_wf p1).
    { apply peers_wf_update; try done; [|apply Hw|].
      - intros b' [= <-]. by eapply (pw_backoff _ Hw); [|rewrite Hs].
      - rewrite (pw_connectable _ Hw). split; [naive_solver|]. by intros [? ?]. }
    destruct (IH p1 (active_count (pr_states p) + 1) Hw1) as (p' & Hrun & Hw' & Hag' & Hl & Hpr & Hnc).
    { intros x Hx. apply Hids. by right. }
    { unfold p1. cbn [pr_states]. rewrite (active_count_activate _ _ st); [done|done|by rewrite Hs|done]. }
    exists p'. split_and!; try done.
    + eapply progress_trans; [|exact Hpr]. apply progress_connecting; [done|by rewrite Hs].
    + intros x [->|Hx]%elem_of_cons; [|by apply Hnc]. intros Hin%(progress_connectable _ _ _ Hpr).
      unfold p1 in Hin. cbn [pr_states] in Hin. by apply in_state_insert_eq in Hin.
  - destruct (IH p (active_count (pr_states p)) Hw) as (p' & Hrun & Hw' & Hag' & Hl & Hpr & Hnc); [|done|].
    { intros x Hx. apply Hids. by right. }
    exists p'. split_and!; try done. intros x [->|Hx]%elem_of_cons; [|by apply Hnc].
    intros (st' & Hst' & Hc')%(progress_connectable _ _ _ Hpr). rewrite Hst in Hst'. injection Hst' as <-. congruence.
Qed.

Lemma swap_pop {A} (l : list A) i x back :
  l !! i = Some x → last l = Some back → l ≡ₚ x :: take (length l - 1) (<[i := back]> l).
Proof.
  intros Hi Hl. apply last_Some in Hl as [l0 ->]. rewrite length_app. cbn [length].
  replace (length l0 + 1 - 1)%nat with (length l0) by lia.
  apply lookup_app_Some in Hi as [Hi|[Hge Hi]].
  - rewrite insert_app_l by (by eapply lookup_lt_Some). rewrite take_app_length' by (by rewrite length_insert).
    rewrite (insert_take_drop l0 i back) by (by eapply lookup_lt_Some).
    rewrite <- (take_drop_middle l0 i x Hi) at 1. rewrite Permutation_app_comm. simpl.
    rewrite <- (Permutation_middle (take i l0) (drop (S i) l0) back).
    rewrite <- (Permutation_middle (take i l0) (drop (S i) l0) x). apply perm_swap.
  - apply list_lookup_singleton_Some in Hi as [Hz ->].
    replace i with (length l0 + 0)%nat by lia. rewrite insert_app_r, take_app_length. simpl.
    rewrite Permutation_app_comm. done.
Qed.

(** Connecting to random connectable peers. *)
Lemma connect_random_run fuel want p active :
  peers_wf p → (length (pr_connectable p) ≤ fuel)%nat → active = active_count (pr_states p) →
  ∃ p', connect_random fuel want active p = (Ok (active_count (pr_states p')), p') ∧ peers_wf p' ∧
    pr_aggregators p' = pr_aggregators p ∧ progress (pr_states p) (pr_states p') ∧
    (want ≤ active_count (pr_states p') ∨ pr_connectable p' = []).
Proof.
  revert p active. induction fuel as [|fuel IH]; intros p active Hw Hf ->;
    cbn [connect_random]; rewrite (sm_bind_ok _ _ p p p) by done;
    (destruct (N.ltb_spec (active_count (pr_states p)) want) as [Hlt|Hge];
      [|exists p; split_and!; try done; [apply progress_refl|by left]]);
    (destruct (last (pr_connectable p)) as [back|] eqn:Hlast;
      [|exists p; split_and!; try done; [apply progress_refl|by right; apply last_None]]).
  { destruct (pr_connectable p); [done|simpl in Hf; lia]. }
  set (l := pr_connectable p) in *.
  assert (Hlen : (0 < length l)%nat) by (destruct l; [done|simpl; lia]).
  pose proof (uniform_le (lengthN l - 1) (pr_random p)) as Hu. destruct (uniform _ _) as [i engine]. cbn [fst] in Hu.
  destruct (lookup_lt_is_Some_2 l (N.to_nat i)) as [id Hid]; [unfold lengthN in Hu; lia|].
  rewrite (sm_bind_ok _ _ p id p) by (unfold sm_lift; by rewrite Hid).
  pose proof (swap_pop l _ id back Hid Hlast) as Hperm. set (l' := take _ _) in *.
  assert (Hnd : NoDup (id :: l')) by (rewrite <- Hperm; apply Hw). apply NoDup_cons in Hnd as [Hnid Hnd].
  assert (Hidc : id ∈ pr_connectable p) by (by eapply list_elem_of_lookup_2).
  apply (pw_connectable _ Hw) in Hidc as [Hnag (st & Hst & Hc)].
  destruct (ps_state st) as [b|b| |b u] eqn:Hs; try done.
  unfold mbind at 1, sm_bind at 1. cbn [sm_put]. set (p0 := mkPeers l' _ _ _ _).
  rewrite (sm_bind_ok _ _ p0 st p0) by (unfold sm_lift; by rewrite Hst).
  rewrite (sm_bind_ok _ _ _ _ _ (connect_run id st b p0 Hs)). set (p1 := mkPeers _ _ _ _ _).
  assert (Hw1 : peers_wf p1).
  { apply (peers_wf_update p id st (Connecting b) l'); try done.
    - intros b' [= <-]. by eapply (pw_backoff _ Hw); [|rewrite Hs].
    - intros x Hne. fold l. rewrite Hperm, elem_of_cons. naive_solver.
    - split; [done|]. by intros [_ ?]. }
  destruct (IH p1 (active_count (pr_states p) + 1) Hw1) as (p' & Hrun & Hw' & Hag' & Hpr & Hend).
  { unfold p1. cbn. rewrite Hperm in Hf. simpl in Hf. lia. }
  { unfold p1. cbn [pr_states p0]. rewrite (active_count_activate _ _ st); [done|done|by rewrite Hs|done]. }
  exists p'. split_and!; try done. eapply progress_trans; [|exact Hpr].
  apply progress_connecting; [done|by rewrite Hs].
Qed.
End connect.
