(* ===== verification/PeersTheorems.v ===== *)
(** * Peer connections: the theorems *)

From S2P Require Import Prelude Errors Types CachedTree Networking NetworkingProofs Peers PeersProofs.

Section theorems.
Context `{UnorderedMap} `{UnorderedMultimap} `{Uniform}.

(** The events of the module. *)
Inductive PeerEvent :=
| EvPeerConnected (id : PeerId)
| EvPeerDisconnected (id : PeerId)
| EvTimer (max_bootnodes : option N)
| EvConnectFinished (id : PeerId) (success : bool).

Definition peer_step (now : N) (ev : PeerEvent) : SM Peers error () :=
  match ev with
  | EvPeerConnected id => onPeerConnected id
  | EvPeerDisconnected id => onPeerDisconnected now id
  | EvTimer max_bootnodes => connectToPeers now max_bootnodes
  | EvConnectFinished id success => onConnectFinished now id success
  end.

(** The states after loading distinct bootnodes and any events. *)
Inductive peers_reachable : Peers → Prop :=
| peers_loaded self subnets subnet_count validator_count bootnodes engine p :
    NoDup (bn_peer_id <$> bootnodes) →
    load_bootnodes self subnets subnet_count validator_count bootnodes engine = Ok p → peers_reachable p
| peers_event now ev p : peers_reachable p → peers_reachable (peer_step now ev p).2.

Lemma add_bootnode_wf self subnets subnet_count p entry p' :
  peers_wf p → pr_states p !! bn_peer_id entry.2 = None →
  add_bootnode self subnets subnet_count p entry = Ok p' →
  peers_wf p' ∧ ∀ x, is_Some (pr_states p' !! x) → x = bn_peer_id entry.2 ∨ is_Some (pr_states p !! x).
Proof.
  intros Hw Hnew. destruct entry as [i b]. unfold add_bootnode. cbn [snd] in *. set (id := bn_peer_id b) in *.
  case_match; [intros [= <-]; by split; [|right]|]. intros Hrun. apply outcome_bind_ok in Hrun as (subnet & _ & [= <-]).
  set (aggregator := match subnet with Some s => _ | None => _ end).
  unfold emplace. rewrite Hnew.
  assert (Hnag : id ∉ pr_aggregators p).
  { intros [st Hst]%(pw_aggregators _ Hw). congruence. }
  assert (Hnc : id ∉ pr_connectable p).
  { intros [_ (st & Hst & _)]%(pw_connectable _ Hw). congruence. }
  rewrite decide_False by done. split.
  - constructor; cbn [pr_states pr_connectable pr_aggregators].
    + intros x st [[<- <-]|[_ Hs]]%lookup_insert_Some; [done|by apply (pw_id _ Hw)].
    + intros x. destruct (decide (x = id)) as [->|Hne].
      * rewrite in_state_insert_eq. destruct aggregator; [rewrite mm_emplace_perm, elem_of_cons|];
          rewrite ?elem_of_app, ?list_elem_of_singleton; naive_solver.
      * rewrite in_state_insert_ne by done.
        assert (x ∈ (if aggregator then mm_emplace id (pr_aggregators p) else pr_aggregators p) ↔
          x ∈ pr_aggregators p) as Hag.
        { destruct aggregator; [|done]. rewrite mm_emplace_perm, elem_of_cons. naive_solver. }
        rewrite Hag, <- (pw_connectable _ Hw). destruct aggregator; [done|].
        rewrite elem_of_app, list_elem_of_singleton. naive_solver.
    + destruct aggregator; [apply Hw|]. apply NoDup_app. split; [apply Hw|]. split; [|apply NoDup_singleton].
      intros x Hx ->%list_elem_of_singleton. done.
    + intros x Hx. destruct (decide (x = id)) as [->|Hne]; [rewrite lookup_insert_eq; by eexists|].
      rewrite lookup_insert_ne by done. apply (pw_aggregators _ Hw). destruct aggregator; [|done].
      rewrite mm_emplace_perm, elem_of_cons in Hx. naive_solver.
    + intros x st b' [[<- <-]|[_ Hs]]%lookup_insert_Some Hb; [|by eapply (pw_backoff _ Hw)].
      injection Hb as <-. split; [done|apply init_le_max].
  - cbn [pr_states]. intros x [st [[<- _]|[_ Hs]]%lookup_insert_Some]; [by left|right; by eexists].
Qed.

Lemma load_bootnodes_wf self subnets subnet_count validator_count bootnodes engine p :
  NoDup (bn_peer_id <$> bootnodes) →
  load_bootnodes self subnets subnet_count validator_count bootnodes engine = Ok p → peers_wf p.
Proof.
  intros Hnd. unfold load_bootnodes.
  assert (Hgen : ∀ l p0, NoDup ((λ e, bn_peer_id e.2) <$> l) → peers_wf p0 →
    (∀ e, e ∈ l → pr_states p0 !! bn_peer_id e.2 = None) →
    oc_foldl (add_bootnode self subnets subnet_count) p0 l = Ok p → peers_wf p).
  { induction l as [|e l IH]; intros p0 Hn Hw Hnew Hrun; [injection Hrun as <-; done|].
    cbn [oc_foldl] in Hrun. apply outcome_bind_ok in Hrun as (p1 & H1' & Hrun).
    cbn [fmap list_fmap] in Hn. apply NoDup_cons in Hn as [He Hn].
    destruct (add_bootnode_wf _ _ _ _ _ _ Hw (Hnew e ltac:(by left)) H1') as [Hw1 Hdom].
    eapply IH; [done|done| |done]. intros e' He'. apply eq_None_not_Some.
    intros [Heq|Hs]%Hdom; [|rewrite Hnew in Hs by (by right); by destruct Hs].
    apply He. rewrite <- Heq. apply (list_elem_of_fmap_2 (λ e, bn_peer_id e.2) l e' He'). }
  apply Hgen.
  - clear -Hnd. revert Hnd. generalize (seqN 0 validator_count). intros l. revert l.
    induction bootnodes as [|b bs IH]; intros [|i l] Hnd; try constructor.
    + cbn [fmap list_fmap] in Hnd. apply NoDup_cons in Hnd as [Hb _]. intros ([i' b'] & Hb' & Hin)%list_elem_of_fmap.
      cbn [snd] in Hb'. apply elem_of_zip_r in Hin. apply Hb. rewrite Hb'. by apply list_elem_of_fmap_2.
    + apply IH. cbn [fmap list_fmap] in Hnd. by apply NoDup_cons in Hnd as [_ ?].
  - constructor; cbn; try done; [|constructor|by intros id ?%elem_of_nil].
    intros id. rewrite elem_of_nil. split; [done|]. by intros [_ (st & Hst & _)].
  - done.
Qed.

Lemma connectToPeers_run now max_bootnodes p :
  peers_wf p →
  let want := match max_bootnodes with
              | Some limit => N.min (N.of_nat (size (pr_states p))) limit
              | None => N.of_nat (size (pr_states p)) end in
  ∃ p', connectToPeers now max_bootnodes p = (Ok (), p') ∧ peers_wf p' ∧
    dom (pr_states p') = dom (pr_states p) ∧
    (want ≤ active_count (pr_states p') ∨ ∀ id, ¬ in_state is_connectable (pr_states p') id) ∧
    ∀ id st b u, pr_states p' !! id = Some st → ps_state st = Backoff b u → now < u.
Proof.
  intros Hw want. unfold connectToPeers. rewrite (sm_bind_ok _ _ p p p) by done. fold want.
  pose proof (expire_loop now (iteration (pr_states p)) 0 p Hw) as He.
  destruct (foldl _ _ _) as [active p1].
  destruct He as (Hw1 & Hag1 & _ & Hdom1 & Hcount1 & Hact & _ & Hexp).
  { rewrite iteration_perm. apply NoDup_fst_map_to_list. }
  { intros id st. rewrite iteration_perm. apply elem_of_map_to_list. }
  unfold mbind at 1, sm_bind at 1. cbn [sm_put].
  destruct (connect_aggregators_run (pr_aggregators p1) p1 active Hw1) as (p2 & R2 & Hw2 & Hag2 & Hl2 & Hpr2 & Hnc2);
    [done| |].
  { rewrite Hact, Hcount1, active_count_entries. unfold lengthN. by rewrite iteration_perm. }
  rewrite (sm_bind_ok _ _ _ _ _ R2), (sm_bind_ok _ _ p2 p2 p2) by done.
  destruct (connect_random_run (length (pr_connectable p2)) want p2 _ Hw2 (le_n _) eq_refl)
    as (p3 & R3 & Hw3 & Hag3 & Hpr3 & Hend).
  rewrite (sm_bind_ok _ _ _ _ _ R3). exists p3. pose proof (progress_trans _ _ _ Hpr2 Hpr3) as Hpr.
  split; [done|]. split; [done|]. split; [by rewrite (proj1 Hpr)|]. split.
  - destruct Hend as [Hend|Hend]; [by left|right]. intros id Hin.
    destruct (decide (id ∈ pr_aggregators p3)) as [Ha|Ha].
    + rewrite Hag3, Hag2 in Ha. apply (Hnc2 id Ha). by eapply progress_connectable.
    + assert (Hc : id ∈ pr_connectable p3) by (by apply (pw_connectable _ Hw3)).
      rewrite Hend in Hc. by apply elem_of_nil in Hc.
  - intros id st b u Hst Hs. destruct (proj2 Hpr _ _ Hst) as (st1 & Hst1 & [->|(_ & b' & Hb)]); [|congruence].
    eapply Hexp; [|done|done]. rewrite iteration_perm. apply elem_of_dom_2 in Hst1. rewrite Hdom1 in Hst1.
    apply elem_of_dom in Hst1 as [st0 Hst0]. apply list_elem_of_fmap. exists (id, st0).
    split; [done|]. by apply elem_of_map_to_list.
Qed.

Lemma peers_reachable_wf p : peers_reachable p → peers_wf p.
Proof.
  induction 1 as [|now ev p Hr IH]; [by eapply load_bootnodes_wf|]. destruct ev; cbn [peer_step].
  - by apply onPeerConnected_wf.
  - by apply onPeerDisconnected_wf.
  - by destruct (connectToPeers_run now max_bootnodes p IH) as (p' & -> & Hw & _).
  - by apply onConnectFinished_wf.
Qed.

(** An aggregator of the subnet that is still connectable. *)
Definition stuck_aggregator (id : PeerId) (p : Peers) : Prop :=
  id ∈ pr_aggregators p ∧ in_state is_connectable (pr_states p) id.

Lemma onPeerConnected_decides id p :
  peers_wf p →
  (onPeerConnected id p = (Throw LogicError, p) ∧ stuck_aggregator id p) ∨
  ((onPeerConnected id p).1 = Ok () ∧ ¬ stuck_aggregator id p).
Proof.
  intros Hw. unfold onPeerConnected. rewrite (sm_bind_ok _ _ p p p) by done.
  assert (Hno : ∀ st, pr_states p !! id = Some st → is_connectable (ps_state st) = false → ¬ stuck_aggregator id p).
  { intros st Hst Hc [_ (st' & Hst' & Hc')]. rewrite Hst in Hst'. injection Hst' as <-. congruence. }
  destruct (pr_states p !! id) as [st|] eqn:Hst; [|right; split; [done|]; intros [_ (st & Hst' & _)]; congruence].
  destruct (ps_state st) as [b|b| |b u] eqn:Hs;
    [|right; split; [done|apply (Hno st eq_refl); by rewrite Hs]..].
  assert (Hc : in_state is_connectable (pr_states p) id) by (exists st; by rewrite Hs).
  case_decide as Hin.
  - right. destruct (erase_element_ok id _ Hin) as (l & He & _).
    rewrite (sm_bind_ok _ _ p l p) by (unfold sm_lift; by rewrite He). split; [done|].
    intros [Ha _]. by apply (pw_connectable _ Hw) in Hin as [? _].
  - left. split; [done|]. split; [|done]. destruct (decide (id ∈ pr_aggregators p)) as [|Ha]; [done|].
    exfalso. apply Hin. by apply (pw_connectable _ Hw).
Qed.

(** C31: whatever peers connect, disconnect or fail to answer, connectable_peers_ stays the list
    of the connectable peers that are not aggregators of the subnet, and backoffs stay
    between ten seconds and five minutes.  A new connection makes the handler throw
    exactly when it comes from an aggregator that is still connectable: such a peer was
    never put in that list. *)
Theorem peer_table_consistent p :
  peers_reachable p →
  peers_wf p ∧
  ∀ id,
    let stuck := id ∈ pr_aggregators p ∧ in_state is_connectable (pr_states p) id in
    ((onPeerConnected id p).1 = Throw LogicError ∧ stuck) ∨ ((onPeerConnected id p).1 = Ok () ∧ ¬ stuck).
Proof.
  intros Hr. pose proof (peers_reachable_wf p Hr) as Hw. split; [done|]. intros id stuck.
  destruct (onPeerConnected_decides id p Hw) as [[-> Hs]|Hs]; [by left|by right].
Qed.

(** The periodic connectToPeers never fails; afterwards the wanted number of peers is
    connected or being connected, or no peer is left to connect to, and every peer whose
    backoff has expired takes part again. *)
Theorem connectToPeers_fills now max_bootnodes p :
  peers_reachable p →
  let want := match max_bootnodes with
              | Some limit => N.min (N.of_nat (size (pr_states p))) limit
              | None => N.of_nat (size (pr_states p)) end in
  ∃ p', connectToPeers now max_bootnodes p = (Ok (), p') ∧ dom (pr_states p') = dom (pr_states p) ∧
    (want ≤ active_count (pr_states p') ∨ ∀ id, ¬ in_state is_connectable (pr_states p') id) ∧
    ∀ id st b u, pr_states p' !! id = Some st → ps_state st = Backoff b u → now < u.
Proof.
  intros Hr want. destruct (connectToPeers_run now max_bootnodes p (peers_reachable_wf p Hr)) as (p' & Hrun & _ & Hrest).
  by exists p'.
Qed.
End theorems.

(** ** Three bootnodes: this node, an aggregator of its subnet and another one *)
Module PeersEx.
#[local] Existing Instance CanonicalOrder.
#[local] Existing Instance AppendOrder.
Definition FirstChoice : Uniform.
Proof. refine {| uniform _ engine := (0, engine) |}. intros max engine. apply N.le_0_l. Defined.
#[local] Existing Instance FirstChoice.

Definition bootnodes : list BootnodeInfo :=
  [mkBootnodeInfo 71 1 false; mkBootnodeInfo 72 2 true; mkBootnodeInfo 73 3 false].
Definition loaded : Peers :=
  match load_bootnodes 1 {[0]} 1 3 bootnodes 0 with Ok p => p | _ => mkPeers [] ∅ [] 0 [] end.

Lemma loaded_reachable : peers_reachable loaded.
Proof.
  apply (peers_loaded 1 {[0]} 1 3 bootnodes 0); [|by vm_compute].
  apply (bool_decide_unpack _). by vm_compute.
Qed.

Lemma peer_table_consistent_witness :
  peers_wf loaded ∧ 2 ∈ pr_aggregators loaded ∧ (onPeerConnected 2 loaded).1 = Throw LogicError.
Proof.
  destruct (peer_table_consistent loaded loaded_reachable) as [Hw Hc]. split; [exact Hw|].
  destruct (Hc 2) as [[Ht [Ha _]]|[Hok _]]; [exact (conj Ha Ht)|exfalso; revert Hok; by vm_compute].
Defined.

Lemma connectToPeers_fills_witness : ∃ p', connectToPeers 0 (Some 1) loaded = (Ok (), p').
Proof.
  destruct (connectToPeers_fills 0 (Some 1) loaded loaded_reachable) as (p' & Hrun & _). exists p'. exact Hrun.
Defined.
End PeersEx.
