(* ===== verification/Startup.v ===== *)
(** * Start-up (src/src/blockchain/impl/{anchor_block_impl,block_storage_initializer,
    block_tree_initializer}.cpp)

    On start the anchor block and state are stored when the storage does not have them,
    and the block tree is restored from the storage: the finalized and justified blocks
    from the state of the latest leaf, the other blocks by walking down from the leaves.
    Constructors run once; an error is raised as an exception. *)

From S2P Require Import Prelude Errors Types Stf CachedTree BlockStorage BlockTree.

(** AnchorBlockImpl::AnchorBlockImpl *)
Definition AnchorBlock `{SszHash} (state : State) : BlockHeader :=
  with_state_root (sszHash_state state) (st_latest_block_header state).

(** BlockStorage::seekLastSlot and SlotIterator::isValid: whether the slot index has a
    record; the cursor is the storage's. *)
Class SlotCursor (S : Type) := seekLastSlot_valid : SM S error bool.

(** SL_WARN of soralog: whether its arguments are evaluated at the configured level. *)
Class SlWarn := warning_evaluated : bool.

(** BlockIndex::operator<=>: by slot, then by hash *)
Definition index_lt (x y : BlockIndex) : bool :=
  (bi_slot x <? bi_slot y) || ((bi_slot x =? bi_slot y) && (bi_hash x <? bi_hash y)).
(** std::set<BlockIndex>::emplace *)
Fixpoint set_emplace (x : BlockIndex) (l : list BlockIndex) : list BlockIndex :=
  match l with
  | [] => [x]
  | y :: l' => if index_lt x y then x :: l else if index_lt y x then y :: set_emplace x l' else l
  end.
(** std::map<BlockIndex, BlockHeader>::emplace *)
Fixpoint map_emplace {V} (k : BlockIndex) (v : V) (l : list (BlockIndex * V)) : list (BlockIndex * V) :=
  match l with
  | [] => [(k, v)]
  | (y, w) :: l' =>
      if index_lt k y then (k, v) :: l else if index_lt y k then (y, w) :: map_emplace k v l' else l
  end.
(** std::unordered_set<BlockIndex>::emplace *)
Definition uset_emplace (x : BlockIndex) (l : list BlockIndex) : list BlockIndex :=
  if decide (x ∈ l) then l else x :: l.

Section startup.
Context {S : Type} `{BlockStorage S} `{SlotCursor S} `{SlWarn} `{BuildMode} `{SszHash}.
Local Abbreviation M := (SM S error).

Definition raise {A} (m : M A) : M A := λ s,
  match m s with
  | (Err _, s') => (Throw SystemError, s')
  | r => r
  end.

(** ** BlockStorageInitializer *)
Definition BlockStorageInitializer (anchor_block : BlockHeader) (anchor_state : State) : M () :=
  raise (
    let h := sszHash_header anchor_block in
    anchor_header_is_exist ← bs_hasBlockHeader h;
    if (anchor_header_is_exist : bool) then mret ()
    else
      stored ← bs_putBlock (mkBlockData h (Some anchor_block) None None);
      sm_lift (boost_assert (h =? stored)) ≫= λ _,
      bs_assignHashToSlot (header_index anchor_block) ≫= λ _,
      bs_setBlockTreeLeaves [h] ≫= λ _,
      bs_putState h anchor_state).

(** ** loadLeaves *)

(** The loop over the stored leaves; the error is compared with one of BlockTreeError. *)
Fixpoint find_leaves (hashes : list BlockHash) (leaves : list BlockIndex) : M (list BlockIndex) :=
  match hashes with
  | [] => mret leaves
  | h :: hashes =>
      header ← sm_try (bs_getBlockHeader h);
      match header with
      | inl header => find_leaves hashes (set_emplace (mkBlockIndex (bh_slot header) h) leaves)
      | inr e =>
          if bool_decide (e = E_BlockTree BT_HEADER_NOT_FOUND) then find_leaves hashes leaves else sm_err e
      end
  end.

(** The search for the last slot with a block. *)
Fixpoint bisect (fuel : nat) (lower upper : Slot) : M Slot :=
  match fuel with
  | O => sm_throw OutOfFuel
  | Datatypes.S fuel =>
      let slot := u64_add (u64_add lower ((upper - lower) / 2)) 1 in
      hashes ← sm_try (bs_getBlockHash slot);
      match hashes with
      | inr _ => sm_err (E_BlockTree BT_HEADER_NOT_FOUND)
      | inl hashes =>
          let found := negb (bool_decide (hashes = [])) in
          let lower := if found then slot else lower in
          let upper := if found then upper else u64_sub slot 1 in
          if lower =? upper then mret lower else bisect fuel lower upper
      end
  end.

(** The interval halves at every turn. *)
Definition bisect_fuel : nat := 64.

Definition repair_leaves : M (list BlockIndex) :=
  valid ← seekLastSlot_valid;
  if negb valid then sm_err (E_BlockStorage NO_BLOCKS_FOUND)
  else
    slot ← bisect bisect_fuel 0 (two64 - 1);
    hashes ← bs_getBlockHash slot;
    bs_setBlockTreeLeaves hashes ≫= λ _,
    mret (foldl (λ leaves h, set_emplace (mkBlockIndex slot h) leaves) [] hashes).

Definition loadLeaves : M (list BlockIndex) :=
  res ← sm_try bs_getBlockTreeLeaves;
  leaves ← match res with
           | inl hashes => find_leaves hashes []
           | inr e => if bool_decide (e = E_BlockStorage BLOCK_TREE_LEAVES_NOT_FOUND) then mret [] else sm_err e
           end;
  match leaves with
  | [] => repair_leaves
  | _ => mret leaves
  end.

(** ** BlockTreeInitializer *)

(** The finalized and the justified block, from the state of the latest leaf.  When the
    state is missing, the warning asks a successful result for its error, which throws
    if the logger evaluates the argument; otherwise the parent is tried. *)
Fixpoint find_finalized (fuel : nat) (anchor_block : BlockHeader) (h : BlockHash)
    : M (BlockIndex * BlockIndex) :=
  match fuel with
  | O => sm_throw OutOfFuel
  | Datatypes.S fuel =>
      header_res ← sm_try (bs_getBlockHeader h);
      match header_res with
      | inr _ => sm_err (E_BlockTree BLOCK_TREE_CORRUPTED)
      | inl header =>
          let block_index := mkBlockIndex (bh_slot header) h in
          if bh_slot header =? 0 then mret (block_index, block_index)
          else if sszHash_header header =? sszHash_header anchor_block then mret (block_index, block_index)
          else
            state ← bs_getState h;
            match state with
            | Some state =>
                mret (mkBlockIndex (cp_slot (st_latest_finalized state)) (cp_root (st_latest_finalized state)),
                      mkBlockIndex (cp_slot (st_latest_justified state)) (cp_root (st_latest_justified state)))
            | None =>
                if warning_evaluated then sm_throw BadResultAccess
                else find_finalized fuel anchor_block (bh_parent_root header)
            end
      end
  end.

(** What the walk over the leaves collects. *)
Record Collected := mkCollected {
  co_observed : gset BlockHash;
  co_dead : list BlockIndex;
  co_collected : list (BlockIndex * BlockHeader);
}.

(** The loop that marks a fork next to the finalized chain as dead.  Its last two
    assignments give [fork] and [main] the blocks they already are. *)
Fixpoint mark_fork (fuel : nat) (fork main : BlockIndex) (dead : list BlockIndex) : M (list BlockIndex) :=
  match fuel with
  | O => sm_throw OutOfFuel
  | Datatypes.S fuel =>
      let dead := uset_emplace fork dead in
      f_res ← sm_try (bs_getBlockHeader (bi_hash fork));
      match f_res with
      | inr _ => mret dead
      | inl fork_header =>
          m_res ← sm_try (bs_getBlockHeader (bi_hash main));
          match m_res with
          | inr _ => mret dead
          | inl main_header =>
              sm_lift (boost_assert (bh_slot fork_header =? bh_slot main_header)) ≫= λ _,
              if bh_parent_root fork_header =? bh_parent_root main_header then mret dead
              else mark_fork fuel (mkBlockIndex (bh_slot fork_header) (sszHash_header fork_header))
                     (mkBlockIndex (bh_slot main_header) (sszHash_header main_header)) dead
          end
      end
  end.

(** The walk from a leaf to the finalized or an observed block. *)
Fixpoint collect_branch (fuel : nat) (finalized : BlockIndex) (block_hash : BlockHash)
    (subchain : list BlockIndex) (co : Collected) : M Collected :=
  match fuel with
  | O => sm_throw OutOfFuel
  | Datatypes.S fuel =>
      let kill := foldl (λ dead b, uset_emplace b dead) (co_dead co) subchain in
      if block_hash =? bi_hash finalized then mret co
      else if bool_decide (block_hash ∈ co_observed co) then mret co
      else
        header_res ← sm_try (bs_getBlockHeader block_hash);
        match header_res with
        | inr _ => sm_err (E_BlockTree BLOCK_TREE_CORRUPTED)
        | inl header =>
            let block := header_index header in
            sm_lift (boost_assert (bi_hash block =? block_hash)) ≫= λ _,
            if bool_decide (block ∈ co_dead co)
            then mret (mkCollected (co_observed co) kill (co_collected co))
            else if bi_slot block =? bi_slot finalized then
              dead ← mark_fork fuel block finalized kill;
              mret (mkCollected (co_observed co) dead (co_collected co))
            else
              let observed := {[bi_hash block]} ∪ co_observed co in
              if bh_slot header <? bi_slot finalized
              then mret (mkCollected observed (co_dead co) (co_collected co))
              else collect_branch fuel finalized (bh_parent_root header) (uset_emplace block subchain)
                     (mkCollected observed (co_dead co) (map_emplace block header (co_collected co)))
        end
  end.

Fixpoint collect_leaves (fuel : nat) (finalized : BlockIndex) (leaves : list BlockIndex) (co : Collected)
    : M Collected :=
  match leaves with
  | [] => mret co
  | leaf :: leaves =>
      co ← collect_branch fuel finalized (bi_hash leaf) [] co;
      collect_leaves fuel finalized leaves co
  end.

(** BlockTreeInitializer::BlockTreeInitializer: the finalized block, the justified block
    and the blocks to add. *)
Definition BlockTreeInitializer (fuel : nat) (anchor_block : BlockHeader)
    : M (BlockIndex * BlockIndex * list (BlockIndex * BlockHeader)) :=
  raise (
    leaves ← loadLeaves;
    match last leaves with
    | None => sm_err (E_BlockTree BLOCK_TREE_CORRUPTED)
    | Some last_leaf =>
        found ← find_finalized fuel anchor_block (bi_hash last_leaf);
        bs_getBlockHeader (bi_hash found.1) ≫= λ _,
        bs_getBlockHeader (bi_hash found.2) ≫= λ _,
        co ← collect_leaves fuel found.1 leaves (mkCollected ∅ [] []);
        sm_iter (λ block, sm_try (bs_removeBlock (bi_hash block)) ≫= λ _, mret ()) (co_dead co) ≫= λ _,
        mret (found.1, found.2, filter (λ e, e.1 ∉ co_dead co) (co_collected co))
    end).

(** The whole start: storage, initializer, block tree. *)
Definition start_block_tree `{UnorderedMap} (fuel : nat) (anchor_state : State) (s : S)
    : result () * BlockTreeData S :=
  let anchor_block := AnchorBlock anchor_state in
  match BlockStorageInitializer anchor_block anchor_state s with
  | (Ok _, s) =>
      match BlockTreeInitializer fuel anchor_block s with
      | (Ok (finalized, justified, non_finalized), s) =>
          BlockTreeImpl_new fuel s finalized justified non_finalized
      | (Err e, s) => (Err e, mkBlockTreeData s (CachedTree_new (mkBlockIndex 0 0)) None [])
      | (Throw x, s) => (Throw x, mkBlockTreeData s (CachedTree_new (mkBlockIndex 0 0)) None [])
      end
  | (Err e, s) => (Err e, mkBlockTreeData s (CachedTree_new (mkBlockIndex 0 0)) None [])
  | (Throw x, s) => (Throw x, mkBlockTreeData s (CachedTree_new (mkBlockIndex 0 0)) None [])
  end.
End startup.
