(* ===== verification/StartupProofs.v ===== *)
(** * Start-up: lemmas

    The ordered containers, the bisection of loadLeaves, the walk over the leaves and the
    rebuilding of the block tree, against the laws of [BlockStorage]. *)

From S2P Require Import Prelude Errors Types Stf CachedTree CachedTreeProofs CachedTreeOps CachedTreeFinalize CachedTreeTheorems BlockStorage BlockStorageSpec BlockTree BlockTreeProofs Startup.

(** ** std::set and std::map keyed by BlockIndex *)
Lemma index_lt_spec x y :
  index_lt x y = true ↔ bi_slot x < bi_slot y ∨ (bi_slot x = bi_slot y ∧ bi_hash x < bi_hash y).
Proof. unfold index_lt. rewrite orb_true_iff, andb_true_iff, !N.ltb_lt, N.eqb_eq. done. Qed.
Lemma index_lt_irrefl x : index_lt x x = false.
Proof. apply not_true_is_false. rewrite index_lt_spec. lia. Qed.
Lemma index_lt_trans x y z : index_lt x y = true → index_lt y z = true → index_lt x z = true.
Proof. rewrite !index_lt_spec. lia. Qed.
Lemma index_lt_total x y : index_lt x y = false → index_lt y x = false → x = y.
Proof.
  rewrite <- !not_true_iff_false, !index_lt_spec. destruct x as [s1 h1], y as [s2 h2]. simpl. intros.
  assert (s1 = s2) as -> by lia. assert (h1 = h2) as -> by lia. done.
Qed.

(** Strictly increasing keys. *)
Definition ordered (l : list BlockIndex) : Prop := StronglySorted (λ x y, index_lt x y = true) l.

Lemma elem_of_set_emplace x y l : y ∈ set_emplace x l ↔ y = x ∨ y ∈ l.
Proof.
  induction l as [|z l IH]; simpl; [set_solver|]. destruct (index_lt x z) eqn:H1; [set_solver|].
  destruct (index_lt z x) eqn:H2; [rewrite !elem_of_cons, IH; tauto|].
  rewrite (index_lt_total _ _ H1 H2). set_solver.
Qed.
Lemma set_emplace_ordered x l : ordered l → ordered (set_emplace x l).
Proof.
  induction 1 as [|z l Hl IH Hall]; simpl; [repeat constructor|].
  destruct (index_lt x z) eqn:H1.
  - constructor; [by constructor|]. constructor; [done|].
    eapply Forall_impl; [exact Hall|]. intros y. by apply index_lt_trans.
  - destruct (index_lt z x) eqn:H2; [|by constructor]. constructor; [done|].
    apply Forall_forall. intros y [->|Hy]%elem_of_set_emplace; [done|].
    by apply (proj1 (Forall_forall _ _) Hall).
Qed.

Lemma map_emplace_keys {V} k (v : V) l : (map_emplace k v l).*1 = set_emplace k l.*1.
Proof.
  induction l as [|[y w] l IH]; [done|]. csimpl. destruct (index_lt k y); [done|].
  destruct (index_lt y k); [|done]. csimpl. by rewrite IH.
Qed.
Lemma elem_of_map_emplace {V} k (v : V) l e :
  k ∉ l.*1 → e ∈ map_emplace k v l ↔ e = (k, v) ∨ e ∈ l.
Proof.
  induction l as [|[y w] l IH]; simpl; [set_solver|]. intros Hk.
  destruct (index_lt k y) eqn:H1; [set_solver|]. destruct (index_lt y k) eqn:H2.
  - rewrite !elem_of_cons, IH by set_solver. tauto.
  - destruct Hk. rewrite (index_lt_total _ _ H1 H2). by left.
Qed.

Lemma filter_everything {A} (P : A → Prop) `{∀ x, Decision (P x)} (l : list A) : (∀ x, P x) → filter P l = l.
Proof. intros HP. induction l as [|x l IH]; [done|]. rewrite filter_cons_True by done. by rewrite IH. Qed.

(** The last element of an ordered list is the greatest. *)
Lemma ordered_last l x : ordered l → x ∈ l → (∀ y, y ∈ l → y = x ∨ index_lt y x = true) → last l = Some x.
Proof.
  induction 1 as [|z l Hl IH Hall]; [by intros ?%not_elem_of_nil|]. intros Hx Hmax.
  destruct l as [|z' l]; [by apply list_elem_of_singleton in Hx as ->|].
  change (last (z :: z' :: l)) with (last (z' :: l)). apply IH; [|set_solver].
  apply elem_of_cons in Hx as [->|?]; [|done]. exfalso.
  apply Forall_cons in Hall as [Hz _]. destruct (Hmax z') as [->|Hc]; [set_solver| |].
  - by rewrite index_lt_irrefl in Hz.
  - pose proof (index_lt_trans _ _ _ Hz Hc) as Hcc. by rewrite index_lt_irrefl in Hcc.
Qed.

Section proofs.
Context {S : Type} `{!SszHash} `{!BlockStorage S} `{!BlockStorageLaws S} `{!SlotCursor S} `{!SlWarn}.
Context `{!BuildMode} `{!UnorderedMap}.

Lemma runs_header s a h hd :
  represents s a → a_header a h = Some hd → runs represents (bs_getBlockHeader h) s (Ok hd) a.
Proof. intros Hs Hh. pose proof (law_getBlockHeader s a h Hs) as Hr. by rewrite Hh in Hr. Qed.
Lemma runs_try_header s a h hd :
  represents s a → a_header a h = Some hd → runs represents (sm_try (bs_getBlockHeader h)) s (Ok (inl hd)) a.
Proof. intros Hs Hh. by apply runs_try, runs_header. Qed.
Lemma runs_raise {A} (m : SM S error A) s x a :
  runs represents m s (Ok x) a → runs represents (raise m) s (Ok x) a.
Proof. intros (s' & Hm & Hs'). exists s'. unfold raise. by rewrite Hm. Qed.

(** ** The bisection *)

(** It ends on a slot that is the lower bound or has a block, and whose successor is
    above the upper bound or has none; at most [fuel] turns when the interval is
    shorter than [2 ^ fuel]. *)
Lemma bisect_spec fuel lower upper s a :
  represents s a → lower < upper → upper < two64 → upper - lower < 2 ^ N.of_nat fuel →
  ∃ m, runs represents (bisect fuel lower upper) s (Ok m) a ∧ lower ≤ m ∧ m ≤ upper ∧
    (m = lower ∨ a_slots a m ≠ []) ∧ (m = upper ∨ a_slots a (m + 1) = []).
Proof.
  revert lower upper s. induction fuel as [|fuel IH]; intros lower upper s Hs Hlu Hu Hf.
  { change (2 ^ N.of_nat 0) with 1 in Hf. lia. }
  rewrite Nnat.Nat2N.inj_succ, N.pow_succ_r' in Hf.
  pose proof (N.div_mod (upper - lower) 2 ltac:(lia)) as Hd.
  pose proof (N.mod_lt (upper - lower) 2 ltac:(lia)) as Hm.
  set (d := (upper - lower) / 2) in *. set (r := (upper - lower) mod 2) in *.
  cbn [bisect]. fold d. rewrite (u64_add_small lower d), (u64_add_small (lower + d) 1) by lia.
  set (slot := lower + d + 1). rewrite (u64_sub_small slot 1) by lia.
  destruct (runs_try represents _ _ _ _ (law_getBlockHash s a slot Hs ltac:(lia))) as (s' & Hg & Hs').
  assert (Hnext : ∀ l u, l ≤ u → u < two64 → u - l < 2 ^ N.of_nat fuel →
    ∃ m, runs represents (if l =? u then mret l else bisect fuel l u) s' (Ok m) a ∧ l ≤ m ∧ m ≤ u ∧
      (m = l ∨ a_slots a m ≠ []) ∧ (m = u ∨ a_slots a (m + 1) = [])).
  { intros l u Hle Hu' Hsmall. destruct (N.eqb_spec l u) as [->|Hne]; [|apply IH; try done; lia].
    exists u. split; [by apply runs_ret|]. split_and!; try done; by left. }
  unfold runs at 1. unfold mbind, sm_bind. rewrite Hg. cbn beta iota zeta.
  destruct (decide (a_slots a slot = [])) as [He|He].
  - rewrite (bool_decide_true _ He). cbn [negb].
    destruct (Hnext lower (slot - 1)) as (m & Hm1 & Hm2 & Hm3 & Hm4 & Hm5); [lia..|].
    exists m. split; [exact Hm1|]. split_and!; [lia|lia|done|].
    destruct Hm5 as [->|?]; [|by right]. right. by replace (slot - 1 + 1) with slot by lia.
  - rewrite (bool_decide_false _ He). cbn [negb].
    destruct (Hnext slot upper) as (m & Hm1 & Hm2 & Hm3 & Hm4 & Hm5); [lia..|].
    exists m. split; [exact Hm1|]. split_and!; [lia|lia| |done].
    right. by destruct Hm4 as [->|?].
Qed.

Lemma bisect_all s a : represents s a →
  ∃ m, runs represents (bisect bisect_fuel 0 (two64 - 1)) s (Ok m) a ∧ m < two64 ∧
    (m = 0 ∨ a_slots a m ≠ []) ∧ (m = two64 - 1 ∨ a_slots a (m + 1) = []).
Proof.
  intros Hs. destruct (bisect_spec bisect_fuel 0 (two64 - 1) s a Hs) as (m & ? & ? & ? & ? & ?); [by vm_compute..|].
  exists m. split_and!; try done. assert (0 < two64) by (by vm_compute). lia.
Qed.

(** ** Loading the leaves *)
Lemma find_leaves_spec hashes acc s a :
  represents s a → (∀ h, h ∈ hashes → is_Some (a_header a h)) → ordered acc →
  ∃ ls, runs represents (find_leaves hashes acc) s (Ok ls) a ∧ ordered ls ∧
    ∀ x, x ∈ ls ↔ x ∈ acc ∨ ∃ hd, bi_hash x ∈ hashes ∧ a_header a (bi_hash x) = Some hd ∧ bh_slot hd = bi_slot x.
Proof.
  revert acc s. induction hashes as [|h hashes IH]; intros acc s Hs Hh Hacc.
  { exists acc. split; [by apply runs_ret|]. split; [done|]. intros x. set_solver. }
  destruct (Hh h) as [hd Hhd]; [by left|].
  destruct (runs_try_header s a h hd Hs Hhd) as (s' & Hg & Hs').
  destruct (IH (set_emplace (mkBlockIndex (bh_slot hd) h) acc) s' Hs') as (ls & Hr & Ho & Hin).
  { intros; apply Hh; by right. }
  { by apply set_emplace_ordered. }
  exists ls. split.
  { unfold runs. cbn [find_leaves]. unfold mbind, sm_bind. rewrite Hg. exact Hr. }
  split; [done|]. intros x. rewrite Hin, elem_of_set_emplace. setoid_rewrite elem_of_cons. split.
  - intros [[->|?]|(hd' & ? & ? & ?)]; [right; exists hd; simpl; tauto|by left|right; eauto].
  - intros [?|(hd' & [Hx|?] & Hhd' & Hsl)]; [by left; right| |right; eauto].
    left; left. destruct x as [sl hx]. simpl in *. subst. congruence.
Qed.

(** The pointers to the leaves. *)
Definition is_leaf (t : CachedTree) (q : BlockIndex) : Prop :=
  ∃ n, ct_nodes t !! bi_hash q = Some n ∧ tn_index n = q ∧ tn_children n = [].

Lemma elem_of_iteration t h sl : (h, sl) ∈ iteration (ct_leaves t) ↔ ct_leaves t !! h = Some sl.
Proof. rewrite <- elem_of_map_to_list. by rewrite (iteration_perm (ct_leaves t)). Qed.

Lemma elem_of_leafHashes t h :
  tree_wf t → h ∈ leafHashes t ↔ ∃ q, is_leaf t q ∧ bi_hash q = h.
Proof.
  intros Hwf. unfold leafHashes. rewrite list_elem_of_fmap. split.
  - intros ([h' sl] & -> & Hin%(elem_of_iteration t)). simpl.
    apply (tw_leaves _ Hwf) in Hin as (n & Hn & Hc & Hsl). exists (tn_index n).
    pose proof (nw_key _ _ (tw_nodes _ Hwf) _ _ Hn) as Hk. split; [|done]. exists n. by rewrite Hk.
  - intros (q & (n & Hn & Hi & Hc) & <-). exists (bi_hash q, bi_slot q). split; [done|].
    apply (elem_of_iteration t). apply (tw_leaves _ Hwf). exists n. by rewrite Hi.
Qed.

Lemma loadLeaves_spec s t a :
  represents s a → bt_wf t a → a_leaves a = Some (sort_hashes (leafHashes t)) →
  ∃ ls, runs represents loadLeaves s (Ok ls) a ∧ ordered ls ∧ ∀ x, x ∈ ls ↔ is_leaf t x.
Proof.
  intros Hs Hwf Hl. pose proof (bw_tree _ _ Hwf) as Htw.
  assert (Hin : ∀ h, h ∈ sort_hashes (leafHashes t) ↔ ∃ q, is_leaf t q ∧ bi_hash q = h).
  { intros h. unfold sort_hashes. rewrite merge_sort_Permutation. by apply elem_of_leafHashes. }
  pose proof (law_getBlockTreeLeaves s a Hs) as Hg. rewrite Hl in Hg.
  apply runs_try in Hg as (s1 & Hg & Hs1).
  destruct (find_leaves_spec (sort_hashes (leafHashes t)) [] s1 a Hs1) as (ls & (s2 & Hr & Hs2) & Ho & Hls).
  { intros h (q & (n & Hn & Hi & _) & <-)%Hin.
    destruct (bw_headers _ _ Hwf q) as (hd & Hhd & _); [by exists n|]. by exists hd. }
  { constructor. }
  assert (Hx : ∀ x, x ∈ ls ↔ is_leaf t x).
  { intros x. rewrite Hls. setoid_rewrite Hin. split.
    - intros [[]%not_elem_of_nil|(hd & (q & Hq & Heq) & Hhd & Hsl)].
      destruct Hq as (n & Hn & Hi & Hc). destruct (bw_headers _ _ Hwf q) as (hd' & Hhd' & Hsl' & _); [by exists n|].
      assert (x = q) as -> by (destruct x, q; simpl in *; congruence). by exists n.
    - intros Hleaf. right. pose proof Hleaf as (n & Hn & Hi & _).
      destruct (bw_headers _ _ Hwf x) as (hd & Hhd & Hsl & _); [by exists n|].
      exists hd. split; [by exists x|done]. }
  exists ls. split; [|done]. exists s2. split; [|done].
  unfold loadLeaves, mbind, sm_bind. rewrite Hg, Hr.
  destruct (leaf_descendant _ _ _ (tw_nodes _ Htw) (valid_root _ _ (tw_nodes _ Htw))) as (q & n & Hn & Hi & Hc & _).
  assert (Hq : q ∈ ls) by (apply Hx; by exists n). by destruct ls; [apply not_elem_of_nil in Hq|].
Qed.

(** ** Walking down from the leaves *)
Section walk.
Context (t : CachedTree) (a : Abs) (Hwf : bt_wf t a).
Local Abbreviation nodes := (ct_nodes t).
Local Abbreviation root := (ct_root t).
Let Htw : tree_wf t := bw_tree _ _ Hwf.
Let Hw : nodes_wf root nodes := tw_nodes _ Htw.

(** The blocks collected so far: nodes other than the root with their headers, ordered,
    and closed under parents up to the root and [cur], the block still to be visited. *)
Record collected_ok (cur : option BlockIndex) (co : Collected) : Prop := {
  ck_dead : co_dead co = [];
  ck_observed : ∀ h, h ∈ co_observed co ↔ ∃ q, q ∈ (co_collected co).*1 ∧ bi_hash q = h;
  ck_ordered : ordered (co_collected co).*1;
  ck_node : ∀ q hd, (q, hd) ∈ co_collected co → valid nodes q ∧ q ≠ root ∧ a_header a (bi_hash q) = Some hd;
  ck_parent : ∀ q p, q ∈ (co_collected co).*1 → parent_of nodes q = Some p →
    p = root ∨ p ∈ (co_collected co).*1 ∨ cur = Some p;
}.

Lemma ck_key cur co q : collected_ok cur co → q ∈ (co_collected co).*1 → valid nodes q ∧ q ≠ root.
Proof. intros Hco ([q' hd] & -> & Hin)%list_elem_of_fmap. by destruct (ck_node _ _ Hco _ _ Hin) as (? & ? & _). Qed.

Lemma collected_stop cur co :
  collected_ok (Some cur) co → cur = root ∨ cur ∈ (co_collected co).*1 → collected_ok None co.
Proof.
  intros Hco Hcur. constructor; try apply Hco. intros q p Hq Hp.
  destruct (ck_parent _ _ Hco q p Hq Hp) as [?|[?|[= ->]]]; tauto.
Qed.

Lemma collected_add q p hd co :
  collected_ok (Some q) co → valid nodes q → q ≠ root → parent_of nodes q = Some p →
  q ∉ (co_collected co).*1 → a_header a (bi_hash q) = Some hd →
  collected_ok (Some p) (mkCollected ({[bi_hash q]} ∪ co_observed co) [] (map_emplace q hd (co_collected co))).
Proof.
  intros Hco Hv Hne Hp Hnew Hhd. constructor; cbn [co_dead co_observed co_collected].
  - done.
  - intros h. rewrite elem_of_union, elem_of_singleton, (ck_observed _ _ Hco), map_emplace_keys.
    setoid_rewrite elem_of_set_emplace. naive_solver.
  - rewrite map_emplace_keys. apply set_emplace_ordered, Hco.
  - intros q' hd' [[= -> ->]|Hin]%elem_of_map_emplace; [done|by apply (ck_node _ _ Hco)|done].
  - intros q' p'. rewrite map_emplace_keys, !elem_of_set_emplace. intros [->|Hq'] Hp'.
    + right; right. congruence.
    + destruct (ck_parent _ _ Hco q' p' Hq' Hp') as [?|[?|[= ->]]]; tauto.
Qed.

Lemma collect_branch_spec fuel q sub co s :
  represents s a → valid nodes q → (height nodes q < fuel)%nat → collected_ok (Some q) co →
  ∃ co', runs represents (collect_branch fuel root (bi_hash q) sub co) s (Ok co') a ∧
    collected_ok None co' ∧ (q = root ∨ q ∈ (co_collected co').*1) ∧
    (∀ x, x ∈ (co_collected co).*1 → x ∈ (co_collected co').*1).
Proof.
  revert q sub co s. induction fuel as [|fuel IH]; intros q sub co s Hs Hv Hf Hco; [lia|].
  cbn [collect_branch]. destruct (N.eqb_spec (bi_hash q) (bi_hash root)) as [Heq|Hne].
  { assert (q = root) as -> by (eapply valid_inj; [done|by eapply valid_root|done]).
    exists co. split; [by apply runs_ret|]. split; [|split; [by left|done]].
    eapply collected_stop; [done|by left]. }
  assert (Hqr : q ≠ root) by congruence. case_bool_decide as Hobs.
  { apply (ck_observed _ _ Hco) in Hobs as (q' & Hq' & Heq).
    assert (q' = q) as -> by (eapply valid_inj; [by eapply ck_key| |]; done).
    exists co. split; [by apply runs_ret|]. split; [|split; [by right|done]].
    eapply collected_stop; [done|by right]. }
  assert (Hnew : q ∉ (co_collected co).*1).
  { intros Hin. apply Hobs, (ck_observed _ _ Hco). by exists q. }
  destruct (parent_of_is_Some _ _ Hw q Hv Hqr) as (p & Hp).
  destruct (bw_headers _ _ Hwf q Hv) as (hd & Hhd & Hsl & Hpar). specialize (Hpar p Hp).
  destruct (represents_hash s a _ _ Hs Hhd) as [Hhash _].
  destruct (parent_of_valid _ _ Hw _ _ Hv Hp) as [Hpv Hlt].
  assert (Hi : header_index hd = q) by (unfold header_index; rewrite Hhash, Hsl; by destruct q).
  assert (Hrs : bi_slot root < bi_slot q).
  { destruct (anc_slot _ _ Hw root q Hv (anc_root _ _ Hw q Hv)) as [Hle Hsame].
    destruct (N.eq_dec (bi_slot root) (bi_slot q)); [|lia]. by destruct Hqr; rewrite Hsame. }
  destruct (runs_try_header s a _ hd Hs Hhd) as (s1 & Hg & Hs1).
  unfold runs. unfold mbind at 1. unfold sm_bind at 1. rewrite Hg. cbv beta iota zeta. rewrite Hi.
  rewrite (ck_dead _ _ Hco), bool_decide_false by apply not_elem_of_nil. unfold boost_assert.
  rewrite N.eqb_refl, andb_false_r. rewrite (proj2 (N.eqb_neq (bi_slot q) _)) by lia.
  rewrite (proj2 (N.ltb_ge (bh_slot hd) _)) by lia. rewrite Hpar.
  destruct (IH p (uset_emplace q sub) (mkCollected ({[bi_hash q]} ∪ co_observed co) []
    (map_emplace q hd (co_collected co))) s1 Hs1 Hpv) as (co' & (s2 & Hr & Hs2) & Hok & Hin & Hsub).
  { pose proof (height_parent _ _ Hw q p Hv Hp). lia. }
  { by apply collected_add. }
  exists co'. split; [exists s2; split; [exact Hr|done]|]. split; [done|].
  assert (Hkeys : ∀ x, x = q ∨ x ∈ (co_collected co).*1 → x ∈ (co_collected co').*1).
  { intros x Hx. apply Hsub. cbn [co_collected]. by rewrite map_emplace_keys, elem_of_set_emplace. }
  split; [right; apply Hkeys; by left|]. intros x Hx. apply Hkeys. by right.
Qed.

Lemma collect_leaves_spec fuel leaves co s :
  represents s a → (∀ q, q ∈ leaves → valid nodes q) → (tree_fuel nodes ≤ fuel)%nat → collected_ok None co →
  ∃ co', runs represents (collect_leaves fuel root leaves co) s (Ok co') a ∧
    collected_ok None co' ∧ (∀ q, q ∈ leaves → q = root ∨ q ∈ (co_collected co').*1) ∧
    (∀ x, x ∈ (co_collected co).*1 → x ∈ (co_collected co').*1).
Proof.
  intros Hs Hv Hf. revert co s Hs. induction leaves as [|q leaves IH]; intros co s Hs Hco.
  { exists co. split; [by apply runs_ret|]. split; [done|]. split; [|done]. by intros q ?%not_elem_of_nil. }
  destruct (collect_branch_spec fuel q [] co s Hs) as (co1 & (s1 & Hr1 & Hs1) & Hok1 & Hq & Hsub1).
  { apply Hv. by left. }
  { pose proof (height_fuel nodes q). lia. }
  { constructor; try apply Hco. intros x p Hx Hp. destruct (ck_parent _ _ Hco x p Hx Hp) as [?|[?|[=]]]; tauto. }
  destruct (IH ltac:(intros; apply Hv; by right) co1 s1 Hs1 Hok1) as (co2 & (s2 & Hr2 & Hs2) & Hok2 & Hin & Hsub2).
  exists co2. split.
  { exists s2. split; [|done]. cbn [collect_leaves]. unfold mbind, sm_bind. rewrite Hr1. exact Hr2. }
  split; [done|]. split; [|by auto]. intros x [->|Hx]%elem_of_cons; [|by apply Hin].
  destruct Hq as [?|?]; [by left|right; by apply Hsub2].
Qed.

(** Once every leaf is collected, every node but the root is. *)
Lemma collected_all co :
  collected_ok None co → (∀ q, is_leaf t q → q = root ∨ q ∈ (co_collected co).*1) →
  ∀ q, q ∈ (co_collected co).*1 ↔ valid nodes q ∧ q ≠ root.
Proof.
  intros Hco Hleaves q. split; [by eapply ck_key|]. intros [Hv Hne].
  destruct (leaf_descendant _ _ q Hw Hv) as (l & n & Hn & Hi & Hc & Hanc).
  assert (Hl : l = root ∨ l ∈ (co_collected co).*1) by (apply Hleaves; by exists n).
  assert (Hlv : valid nodes l) by (by exists n). clear n Hn Hi Hc.
  induction Hanc as [_|p l Hp _ IH]; [by destruct Hl|].
  destruct (parent_of_valid _ _ Hw _ _ Hlv Hp) as [Hpv _]. apply IH; [|done].
  destruct Hl as [->|Hl]; [by rewrite parent_of_root in Hp|].
  destruct (ck_parent _ _ Hco l p Hl Hp) as [?|[?|?]]; [by left|by right|done].
Qed.

(** ** The initializer *)

(** The latest leaf, and what it says of the finalized and justified blocks: the state
    of the leaf, or the leaf itself at genesis and at the anchor. *)
Definition latest_leaf (leaf : BlockIndex) : Prop :=
  is_leaf t leaf ∧ ∀ q, is_leaf t q → q = leaf ∨ index_lt q leaf = true.
Definition leaf_knows (anchor : BlockHash) (leaf finalized justified : BlockIndex) : Prop :=
  if (bi_slot leaf =? 0) || (bi_hash leaf =? anchor) then finalized = leaf ∧ justified = leaf
  else ∃ st, a_state a (bi_hash leaf) = Some st ∧
    mkBlockIndex (cp_slot (st_latest_finalized st)) (cp_root (st_latest_finalized st)) = finalized ∧
    mkBlockIndex (cp_slot (st_latest_justified st)) (cp_root (st_latest_justified st)) = justified.

Lemma find_finalized_spec fuel anchor leaf f j s :
  represents s a → is_leaf t leaf → leaf_knows (sszHash_header anchor) leaf f j →
  runs represents (find_finalized (Datatypes.S fuel) anchor (bi_hash leaf)) s (Ok (f, j)) a.
Proof.
  intros Hs (n & Hn & Hi & _) Hk. destruct (bw_headers _ _ Hwf leaf) as (hd & Hhd & Hsl & _); [by exists n|].
  destruct (represents_hash s a _ _ Hs Hhd) as [Hhash _]. cbn [find_finalized].
  eapply runs_bind; [by apply runs_try_header|]. intros s1 Hs1. cbv beta iota zeta.
  rewrite Hhash, Hsl. replace (mkBlockIndex (bi_slot leaf) (bi_hash leaf)) with leaf by (by destruct leaf).
  unfold leaf_knows in Hk. destruct (bi_slot leaf =? 0); cbn [orb] in Hk.
  { destruct Hk as [-> ->]. by apply runs_ret. }
  destruct (bi_hash leaf =? sszHash_header anchor).
  { destruct Hk as [-> ->]. by apply runs_ret. }
  destruct Hk as (st & Hst & Hf & Hj).
  pose proof (law_getState s1 a (bi_hash leaf) Hs1) as Hg. rewrite Hst in Hg.
  eapply runs_bind; [exact Hg|]. intros s2 Hs2. cbv beta iota. rewrite Hf, Hj. by apply runs_ret.
Qed.

Lemma BlockTreeInitializer_spec fuel anchor leaf s :
  represents s a → a_leaves a = Some (sort_hashes (leafHashes t)) → valid nodes (ct_justified t) →
  (tree_fuel nodes ≤ fuel)%nat →
  latest_leaf leaf → leaf_knows (sszHash_header anchor) leaf root (ct_justified t) →
  ∃ nf, runs represents (BlockTreeInitializer fuel anchor) s (Ok (root, ct_justified t, nf)) a ∧
    ordered nf.*1 ∧ (∀ q, q ∈ nf.*1 ↔ valid nodes q ∧ q ≠ root) ∧
    (∀ q hd, (q, hd) ∈ nf → a_header a (bi_hash q) = Some hd).
Proof.
  intros Hs Hl Hjv Hf [Hleaf Hlast] Hk.
  destruct (loadLeaves_spec s t a Hs Hwf Hl) as (ls & (s1 & Hload & Hs1) & Ho & Hls).
  assert (Hlast' : last ls = Some leaf).
  { apply ordered_last; [done|by apply Hls|]. intros q Hq. by apply Hlast, Hls. }
  destruct (bw_headers _ _ Hwf root (valid_root _ _ Hw)) as (rhd & Hrhd & _).
  destruct (bw_headers _ _ Hwf (ct_justified t) Hjv) as (jhd & Hjhd & _).
  assert (Hstart : collected_ok None (mkCollected ∅ [] [])).
  { constructor; simpl; try done; [|constructor| |]; set_solver. }
  assert (Hvl : ∀ q, q ∈ ls → valid nodes q) by (intros q (n & ? & ? & _)%Hls; by exists n).
  destruct fuel as [|fuel]; [unfold tree_fuel in Hf; lia|].
  destruct (find_finalized_spec fuel anchor leaf _ _ s1 Hs1 Hleaf Hk) as (s2 & Hfind & Hs2).
  destruct (runs_header s2 a _ _ Hs2 Hrhd) as (s3 & Hgr & Hs3).
  destruct (runs_header s3 a _ _ Hs3 Hjhd) as (s4 & Hgj & Hs4).
  destruct (collect_leaves_spec (Datatypes.S fuel) ls _ s4 Hs4 Hvl Hf Hstart)
    as (co & (s5 & Hcol & Hs5) & Hok & Hin & _).
  exists (co_collected co). split; [|split; [apply Hok|]].
  - apply runs_raise. exists s5. split; [|done]. unfold mbind, sm_bind. rewrite Hload, Hlast', Hfind.
    cbn [fst snd]. rewrite Hgr, Hgj, Hcol, (ck_dead _ _ Hok). cbn [sm_iter].
    unfold mret, sm_ret. do 3 f_equal. apply filter_everything. intros. apply not_elem_of_nil.
  - split; [|intros q hd Hq; by apply (ck_node _ _ Hok)].
    apply collected_all; [done|]. intros q Hq. by apply Hin, Hls.
Qed.
End walk.

(** ** Rebuilding the tree *)

(** [t'] holds the root of [t] and the blocks of [done], with the parents of [t]. *)
Record rebuilt (t : CachedTree) (blocks : list BlockIndex) (t' : CachedTree) : Prop := {
  rb_wf : tree_wf t';
  rb_root : ct_root t' = ct_root t;
  rb_justified : ct_justified t' = ct_root t;
  rb_valid : ∀ q, valid (ct_nodes t') q ↔ q = ct_root t ∨ q ∈ blocks;
  rb_parent : ∀ q, valid (ct_nodes t') q → parent_of (ct_nodes t') q = parent_of (ct_nodes t) q;
}.

Lemma rebuilt_new t : tree_wf t → rebuilt t [] (CachedTree_new (ct_root t)).
Proof.
  intros Hwf. pose proof (CachedTree_new_wf (ct_root t)) as Hnew.
  assert (Hv : ∀ q, valid (ct_nodes (CachedTree_new (ct_root t))) q ↔ q = ct_root t).
  { intros q. split.
    - intros (n & Hn & <-). cbn [CachedTree_new ct_nodes] in Hn. by apply lookup_singleton_Some in Hn as [_ <-].
    - intros ->. apply (valid_root _ _ (tw_nodes _ Hnew)). }
  constructor; try done.
  - intros q. rewrite Hv. set_solver.
  - intros q ->%Hv. rewrite (parent_of_root _ _ (tw_nodes _ Hwf)).
    apply (parent_of_root _ _ (tw_nodes _ Hnew)).
Qed.

Lemma rebuilt_bt_wf t a blocks t' a' :
  bt_wf t a → rebuilt t blocks t' → (∀ q, q ∈ blocks → valid (ct_nodes t) q) → a_header a' = a_header a →
  bt_wf t' a'.
Proof.
  intros Hwf Hr Hb Hh. constructor; [apply Hr|]. intros q Hq. rewrite Hh.
  assert (Hqv : valid (ct_nodes t) q).
  { apply (rb_valid _ _ _ Hr) in Hq as [->|?]; [|by apply Hb]. apply (valid_root _ _ (tw_nodes _ (bw_tree _ _ Hwf))). }
  destruct (bw_headers _ _ Hwf q Hqv) as (hd & ? & ? & Hp). exists hd. split; [done|]. split; [done|].
  rewrite (rb_parent _ _ _ Hr q Hq). exact Hp.
Qed.

(** Adding the next block, all blocks at lower positions being there. *)
Lemma addExistingBlock_spec fuel t a blocks q hd t' p g ev a' :
  bt_wf t a → rebuilt t blocks t' → (∀ x, x ∈ blocks → valid (ct_nodes t) x) →
  a_header a' = a_header a → at_state t' g ev p a' →
  valid (ct_nodes t) q → q ≠ ct_root t → q ∉ blocks → a_header a (bi_hash q) = Some hd →
  (∀ par, parent_of (ct_nodes t) q = Some par → par = ct_root t ∨ par ∈ blocks) →
  ∃ t'' a'', bt_runs (addExistingBlock fuel (bi_hash q) hd) p (Ok ()) t'' g ev a'' ∧
    rebuilt t (blocks ++ [q]) t'' ∧
    a_header a'' = a_header a ∧ a_body a'' = a_body a' ∧ a_signatures a'' = a_signatures a' ∧
    a_state a'' = a_state a' ∧ a_leaves a'' = Some (sort_hashes (leafHashes t'')).
Proof.
  intros Hwf Hr Hb Hh Hp Hv Hne Hnew Hhd Hpar. pose proof (bw_tree _ _ Hwf) as Htw. pose proof (tw_nodes _ Htw) as Hw.
  pose proof (rebuilt_bt_wf _ _ _ _ _ Hwf Hr Hb Hh) as Hwf'. pose proof (rb_wf _ _ _ Hr) as Htw'.
  destruct (parent_of_is_Some _ _ Hw q Hv Hne) as (par & Hq).
  destruct (parent_of_valid _ _ Hw _ _ Hv Hq) as [Hpv Hlt].
  destruct (bw_headers _ _ Hwf q Hv) as (hd' & Hhd' & Hsl & Hroot). specialize (Hroot par Hq).
  assert (hd' = hd) as -> by congruence.
  assert (Hhda : a_header a' (bi_hash q) = Some hd) by (by rewrite Hh).
  destruct (represents_hash _ _ _ _ (as_storage _ _ _ _ _ Hp) Hhda) as [Hhash Hfit].
  assert (Hi : header_index hd = q) by (unfold header_index; rewrite Hhash, Hsl; by destruct q).
  assert (Hpv' : valid (ct_nodes t') par) by (by apply (rb_valid _ _ _ Hr), Hpar).
  assert (Hvt : ∀ x, valid (ct_nodes t') x → valid (ct_nodes t) x).
  { intros x [->|?]%(rb_valid _ _ _ Hr); [by apply (valid_root _ _ Hw)|by apply Hb]. }
  assert (Hfresh : ct_nodes t' !! bi_hash q = None).
  { destruct (ct_nodes t' !! bi_hash q) as [m|] eqn:Hm; [|done]. exfalso.
    pose proof (nw_key _ _ (tw_nodes _ Htw') _ _ Hm) as Hk.
    assert (Hmv : valid (ct_nodes t') (tn_index m)) by (exists m; by rewrite Hk).
    assert (tn_index m = q) as Heq by (eapply (valid_inj (ct_nodes t)); eauto).
    rewrite Heq in Hmv. apply (rb_valid _ _ _ Hr) in Hmv as [?|?]; done. }
  pose proof Hpv' as (pn & Hpn & Hpi).
  destruct (bt_add_node q par pn t' a' Hwf') as (t'' & a'' & Hrun & Htw'' & Hroot'' & Hj'' & Hn'' & Hsame); try done.
  { intros x Hx. exact (bt_wf_slots _ _ _ _ _ _ Hp Hwf' Hx). }
  { by rewrite <- Hsl. }
  exists t'', a''. split; [|split; [|by rewrite <- Hh]].
  - unfold addExistingBlock. cbn [addExistingBlockNoLock].
    eapply bt_bind; [by apply bt_get_tree|]. intros p1 Hp1. unfold find. rewrite Hfresh. cbn [fmap option_fmap option_map].
    rewrite Hroot, Hpn. cbn [fmap option_fmap option_map].
    eapply bt_bind; [by apply bt_ret|]. intros p2 Hp2. cbv beta.
    eapply bt_bind; [by apply bt_get_tree|]. intros p3 Hp3. rewrite Hpn. cbn [fmap option_fmap option_map].
    rewrite bool_decide_true by (by eexists). rewrite boost_assert_true.
    eapply bt_bind; [by apply bt_lift|]. intros p4 Hp4. cbn [of_option].
    eapply bt_bind; [by apply bt_lift|]. intros p5 Hp5. rewrite Hi, Hpi. by apply Hrun.
  - constructor; [done|by rewrite Hroot'', (rb_root _ _ _ Hr)|by rewrite Hj'', (rb_justified _ _ _ Hr)| |].
    + intros x. rewrite Hn'', (added_valid t' Htw' q par pn Hfresh Hpn Hpi Hlt), (rb_valid _ _ _ Hr). set_solver.
    + intros x. rewrite Hn'', (added_valid t' Htw' q par pn Hfresh Hpn Hpi Hlt).
      destruct (added_parent_of t' q par pn x Htw' Hfresh Hpn Hpi Hlt) as [Hpq Hpx].
      intros [->|Hx]; [by rewrite Hpq|]. rewrite (Hpx Hx). by apply (rb_parent _ _ _ Hr).
Qed.

(** The loop of the constructor: the blocks come in the order of their slots, so a
    parent comes before its children. *)
Lemma rebuild_loop fuel t a blocks nf t' p g ev a' :
  bt_wf t a → rebuilt t blocks t' → (∀ x, x ∈ blocks → valid (ct_nodes t) x) →
  a_header a' = a_header a → a_leaves a' = Some (sort_hashes (leafHashes t')) ∨ blocks = [] ∧ a_leaves a' = a_leaves a →
  at_state t' g ev p a' →
  ordered nf.*1 → (∀ q hd, (q, hd) ∈ nf → a_header a (bi_hash q) = Some hd) →
  (∀ q, q ∈ nf.*1 → q ∉ blocks) → (∀ q, q ∈ blocks ∨ q ∈ nf.*1 ↔ valid (ct_nodes t) q ∧ q ≠ ct_root t) →
  ∃ t'' a'', bt_runs (sm_iter (λ '(block, header), addExistingBlock fuel (bi_hash block) header) nf) p (Ok ()) t'' g ev a'' ∧
    rebuilt t (blocks ++ nf.*1) t'' ∧
    a_header a'' = a_header a ∧ a_body a'' = a_body a' ∧ a_signatures a'' = a_signatures a' ∧
    a_state a'' = a_state a' ∧
    (a_leaves a'' = Some (sort_hashes (leafHashes t'')) ∨ blocks ++ nf.*1 = [] ∧ a_leaves a'' = a_leaves a).
Proof.
  intros Hwf. pose proof (tw_nodes _ (bw_tree _ _ Hwf)) as Hw.
  revert blocks t' p a'. induction nf as [|[q hd] nf IH]; intros blocks t' p a' Hr Hb Hh Hl Hp Ho Hhd Hnew Hall.
  { exists t', a'. rewrite app_nil_r. split; [by apply bt_ret|]. by split_and!. }
  rewrite fmap_cons in *. cbn [fst] in *. apply StronglySorted_inv in Ho as [Ho Hlt].
  destruct (proj1 (Hall q)) as [Hqv Hqr]; [right; by left|].
  destruct (addExistingBlock_spec fuel t a blocks q hd t' p g ev a' Hwf Hr Hb Hh Hp Hqv Hqr)
    as (t1 & a1 & (p1 & Hrun1 & Hp1) & Hr1 & Hh1 & Hb1 & Hs1 & Hst1 & Hl1).
  { apply Hnew. by left. }
  { apply Hhd. by left. }
  { intros par Hpar. destruct (parent_of_valid _ _ Hw _ _ Hqv Hpar) as [Hparv Hslot].
    destruct (decide (par = ct_root t)) as [|Hne]; [by left|right].
    destruct (proj2 (Hall par) (conj Hparv Hne)) as [?|[->|Hin]%elem_of_cons]; [done|lia|exfalso].
    apply (proj1 (Forall_forall _ _) Hlt), index_lt_spec in Hin. lia. }
  destruct (IH (blocks ++ [q]) t1 p1 a1) as (t2 & a2 & (p2 & Hrun2 & Hp2) & Hr2 & Hh2 & Hb2 & Hs2 & Hst2 & Hl2); try done.
  { intros x. rewrite elem_of_app, list_elem_of_singleton. intros [?| ->]; [by apply Hb|done]. }
  { by left. }
  { intros x y Hx. apply Hhd. by right. }
  { intros x Hx. rewrite elem_of_app, list_elem_of_singleton. intros [Hx'| ->]; [eapply Hnew; [by right|done]|].
    apply (proj1 (Forall_forall _ _) Hlt) in Hx. by rewrite index_lt_irrefl in Hx. }
  { intros x. rewrite <- Hall, elem_of_app, !elem_of_cons, elem_of_nil. tauto. }
  exists t2, a2. rewrite <- (assoc_L (++)) in Hr2, Hl2. split; [|split; [exact Hr2|]].
  - exists p2. split; [|done]. cbn [sm_iter]. unfold mbind, sm_bind. rewrite Hrun1. exact Hrun2.
  - split_and!; [congruence..|exact Hl2].
Qed.

(** Trees with the same nodes and parents have the same leaves. *)
Lemma same_leaves t t' :
  tree_wf t → tree_wf t' → (∀ q, valid (ct_nodes t') q ↔ valid (ct_nodes t) q) →
  (∀ q, valid (ct_nodes t) q → parent_of (ct_nodes t') q = parent_of (ct_nodes t) q) →
  ct_leaves t' = ct_leaves t.
Proof.
  assert (Hhalf : ∀ t1 t2, tree_wf t1 → tree_wf t2 → (∀ q, valid (ct_nodes t1) q ↔ valid (ct_nodes t2) q) →
    (∀ q, valid (ct_nodes t1) q → parent_of (ct_nodes t1) q = parent_of (ct_nodes t2) q) →
    ∀ h sl, ct_leaves t1 !! h = Some sl → ct_leaves t2 !! h = Some sl).
  { intros t1 t2 Hw1 Hw2 Hv Hp h sl (n & Hn & Hc & Hsl)%(tw_leaves _ Hw1).
    pose proof (nw_key _ _ (tw_nodes _ Hw1) _ _ Hn) as Hk. subst h.
    assert (Hnv : valid (ct_nodes t1) (tn_index n)) by (by exists n).
    pose proof (proj1 (Hv _) Hnv) as (m & Hm & Hmi). apply (tw_leaves _ Hw2). exists m. rewrite Hmi.
    split; [done|]. split; [|done]. destruct (tn_children m) as [|c l] eqn:Hmc; [done|exfalso].
    destruct (child_parent _ _ (tw_nodes _ Hw2) _ _ c Hm) as [Hcv Hcp]; [rewrite Hmc; by left|].
    rewrite <- (Hp c), Hmi in Hcp by (by apply Hv).
    destruct (proj2 (Hv c) Hcv) as (cn & Hcn & Hci).
    destruct (parent_of_child _ _ (tw_nodes _ Hw1) _ _ _ Hcn Hci Hcp) as (_ & _ & _ & n' & Hn' & _ & Hin).
    rewrite Hn in Hn'. injection Hn' as <-. rewrite Hc in Hin. by apply not_elem_of_nil in Hin. }
  intros Hw Hw' Hv Hp. apply map_eq. intros h. apply option_eq. intros sl. split; apply Hhalf; try done.
  - intros q Hq. by apply Hp, Hv.
  - intros q Hq. by rewrite Hp.
Qed.

(** ** The restored tree *)
Record restored (t : CachedTree) (a : Abs) (t' : CachedTree) (a' : Abs) : Prop := {
  rs_wf : bt_wf t' a';
  rs_root : ct_root t' = ct_root t;
  rs_justified : ct_justified t' = ct_justified t;
  rs_valid : ∀ q, valid (ct_nodes t') q ↔ valid (ct_nodes t) q;
  rs_parent : ∀ q, valid (ct_nodes t) q → parent_of (ct_nodes t') q = parent_of (ct_nodes t) q;
  rs_leaves : ct_leaves t' = ct_leaves t;
  rs_storage : same_blocks a a';
}.

Lemma rebuilt_restored t a blocks t' a' j :
  bt_wf t a → rebuilt t blocks t' → (∀ q, q ∈ blocks ↔ valid (ct_nodes t) q ∧ q ≠ ct_root t) →
  a_leaves a = Some (sort_hashes (leafHashes t)) →
  a_header a' = a_header a → a_body a' = a_body a → a_signatures a' = a_signatures a → a_state a' = a_state a →
  a_leaves a' = Some (sort_hashes (leafHashes t')) ∨ blocks = [] ∧ a_leaves a' = a_leaves a →
  ct_justified j = ct_justified t →
  ct_root j = ct_root t' → ct_nodes j = ct_nodes t' → ct_best j = ct_best t' → ct_leaves j = ct_leaves t' →
  restored t a j a'.
Proof.
  intros Hwf Hr Hall Hl Hh Hb Hs Hst Hl' Hj Hjr Hjn Hjb Hjl. pose proof (bw_tree _ _ Hwf) as Htw.
  assert (Hv : ∀ q, valid (ct_nodes t') q ↔ valid (ct_nodes t) q).
  { intros q. rewrite (rb_valid _ _ _ Hr), Hall. split; [|destruct (decide (q = ct_root t)); tauto].
    intros [->|[? _]]; [apply (valid_root _ _ (tw_nodes _ Htw))|done]. }
  assert (Hp : ∀ q, valid (ct_nodes t) q → parent_of (ct_nodes t') q = parent_of (ct_nodes t) q).
  { intros q Hq. by apply (rb_parent _ _ _ Hr), Hv. }
  assert (Hleaves : ct_leaves t' = ct_leaves t) by (apply same_leaves; try done; apply Hr).
  assert (Hwf' : bt_wf t' a').
  { eapply rebuilt_bt_wf; [done|done| |done]. by intros q [? _]%Hall. }
  constructor; rewrite ?Hjn, ?Hjl, ?Hjr; try done; [|apply Hr|].
  - destruct Hwf' as [[]?]. constructor; [|by rewrite Hjn]. by constructor; rewrite ?Hjn, ?Hjl, ?Hjr, ?Hjb.
  - split_and!; try done. destruct Hl' as [->|[_ ->]]; [|done]. rewrite Hl. unfold leafHashes. by rewrite Hleaves.
Qed.

Lemma BlockTreeImpl_new_spec fuel t a nf s :
  represents s a → bt_wf t a → valid (ct_nodes t) (ct_justified t) →
  a_leaves a = Some (sort_hashes (leafHashes t)) →
  ordered nf.*1 → (∀ q, q ∈ nf.*1 ↔ valid (ct_nodes t) q ∧ q ≠ ct_root t) →
  (∀ q hd, (q, hd) ∈ nf → a_header a (bi_hash q) = Some hd) →
  ∃ p' t' a', BlockTreeImpl_new fuel s (ct_root t) (ct_justified t) nf = (Ok (), p') ∧
    at_state t' None [] p' a' ∧ restored t a t' a'.
Proof.
  intros Hs Hwf Hjv Hl Ho Hall Hhd.
  destruct (rebuild_loop fuel t a [] nf (CachedTree_new (ct_root t))
    (mkBlockTreeData s (CachedTree_new (ct_root t)) None []) None [] a Hwf)
    as (t1 & a1 & (p1 & Hrun & Hp1) & Hr & Hh & Hb & Hsg & Hst & Hl1); try done.
  { apply rebuilt_new, Hwf. }
  { by intros x ?%not_elem_of_nil. }
  { by right. }
  { by intros q _ ?%not_elem_of_nil. }
  { intros q. rewrite <- Hall. set_solver. }
  cbn [app] in Hr, Hl1.
  assert (Hset : ∃ p2 t2, setJustified (bi_hash (ct_justified t)) p1 = (Ok (), p2) ∧ at_state t2 None [] p2 a1 ∧
    restored t a t2 a1).
  { destruct (decide (ct_justified t = ct_root t)) as [Hj|Hj].
    - exists p1, t1. rewrite Hj, <- (rb_justified _ _ _ Hr). split.
      + unfold setJustified, getLastJustified, get_tree, mbind, sm_bind, mret, sm_ret.
        by rewrite (as_tree _ _ _ _ _ Hp1), N.eqb_refl.
      + split; [done|]. eapply rebuilt_restored; try done. by rewrite (rb_justified _ _ _ Hr).
    - assert (Hwf1 : bt_wf t1 a1).
      { eapply rebuilt_bt_wf; [done|done| |done]. by intros q [? _]%Hall. }
      assert (Hjv1 : valid (ct_nodes t1) (ct_justified t)).
      { apply (rb_valid _ _ _ Hr). right. by apply Hall. }
      pose proof (tw_nodes _ (bw_tree _ _ Hwf1)) as Hw1.
      destruct (setJustified_bt_spec (bi_hash (ct_justified t)) (ct_justified t) p1 t1 None [] a1 Hp1 Hwf1)
        as (b & Hb' & (p2 & Hrun2 & Hp2)).
      { destruct Hjv1 as (n & Hn & Hi). unfold find. rewrite Hn. cbn. by rewrite Hi. }
      { rewrite (rb_justified _ _ _ Hr). intros Heq. apply Hj.
        eapply (valid_inj (ct_nodes t)); [done|apply (valid_root _ _ (tw_nodes _ (bw_tree _ _ Hwf)))|done]. }
      assert (b = true) as ->.
      { apply Hb'. rewrite (rb_justified _ _ _ Hr), <- (rb_root _ _ _ Hr). split; [by apply (anc_root _ _ Hw1)|].
        rewrite (rb_root _ _ _ Hr). congruence. }
      exists p2, (CachedTree.setJustified t1 (ct_justified t)). split; [done|]. split; [done|].
      by eapply rebuilt_restored. }
  destruct Hset as (p2 & t2 & Hrun2 & Hp2 & Hrs). exists p2, t2, a1. split; [|done].
  unfold BlockTreeImpl_new, raise_error, mbind, sm_bind. by rewrite Hrun, Hrun2.
Qed.
End proofs.
