(* ===== verification/StartupTheorems.v ===== *)
(** * Start-up: the theorems *)

From S2P Require Import Prelude Errors Types Stf CachedTree CachedTreeProofs CachedTreeOps CachedTreeFinalize CachedTreeTheorems Storage BlockStorage BlockStorageSpec BlockTree BlockTreeProofs Startup StartupProofs ToyHash ToyStore.

Section theorems.
Context {S : Type} `{!SszHash} `{!BlockStorage S} `{!BlockStorageLaws S} `{!SlotCursor S} `{!SlWarn}.
Context `{!BuildMode} `{!UnorderedMap}.

(** What storing the anchor does. *)
Definition abs_anchor (anchor : BlockHeader) (state : State) (a : Abs) : Abs :=
  abs_set_state (sszHash_header anchor) (Some state)
    (abs_set_leaves [sszHash_header anchor]
       (abs_assign (header_index anchor) (abs_put_header anchor a))).

Lemma anchor_stored anchor state s a :
  represents s a → a_header a (sszHash_header anchor) = None → bh_slot anchor < two64 →
  runs represents (BlockStorageInitializer anchor state) s (Ok ()) (abs_anchor anchor state a).
Proof.
  intros Hs Hh Hsl. apply runs_raise.
  pose proof (law_hasBlockHeader s a (sszHash_header anchor) Hs) as Hhas.
  rewrite bool_decide_false in Hhas by (rewrite Hh; by intros [? ?]).
  eapply runs_bind; [exact Hhas|]. intros s1 Hs1. cbv beta iota.
  eapply runs_bind; [by apply (law_putBlock s1 a _ anchor)|]. intros s2 Hs2.
  rewrite N.eqb_refl, boost_assert_true. eapply runs_bind; [by apply runs_lift|]. intros s3 Hs3.
  eapply runs_bind; [by apply law_assignHashToSlot|]. intros s4 Hs4.
  eapply runs_bind; [by apply law_setBlockTreeLeaves|]. intros s5 Hs5.
  by apply (law_putState s5).
Qed.

Lemma anchor_kept anchor state s a :
  represents s a → is_Some (a_header a (sszHash_header anchor)) →
  runs represents (BlockStorageInitializer anchor state) s (Ok ()) a.
Proof.
  intros Hs Hh. apply runs_raise.
  pose proof (law_hasBlockHeader s a (sszHash_header anchor) Hs) as Hhas.
  rewrite bool_decide_true in Hhas by done.
  eapply runs_bind; [exact Hhas|]. intros s1 Hs1. by apply runs_ret.
Qed.

Lemma abs_assign_header i a : a_header (abs_assign i a) = a_header a.
Proof. unfold abs_assign. by case_decide. Qed.

Lemma abs_anchor_header anchor state a :
  a_header (abs_anchor anchor state a) = upd (sszHash_header anchor) (Some anchor) (a_header a).
Proof. unfold abs_anchor, abs_set_state, abs_set_leaves. cbn [a_header]. by rewrite abs_assign_header. Qed.

(** A tree of one block has one leaf, and no block but the root. *)
Lemma new_is_leaf i q : is_leaf (CachedTree_new i) q → q = i.
Proof. intros (n & Hn & <- & _). cbn [CachedTree_new ct_nodes] in Hn. by apply lookup_singleton_Some in Hn as [_ <-]. Qed.

Lemma anchor_bt_wf anchor state a :
  bt_wf (CachedTree_new (header_index anchor)) (abs_anchor anchor state a).
Proof.
  constructor; [apply CachedTree_new_wf|]. intros q (n & Hn & <-).
  cbn [CachedTree_new ct_nodes] in *. apply lookup_singleton_Some in Hn as [_ <-].
  exists anchor. rewrite abs_anchor_header. unfold upd. rewrite decide_True by done.
  split; [done|]. split; [done|]. intros par.
  unfold parent_of. cbn [TreeNode_root tn_index]. by rewrite lookup_singleton_eq.
Qed.

(** The first start: when the storage does not have the anchor block, the anchor's
    header, slot entry and state are stored and it becomes the only leaf; nothing else
    is lost; the block tree then consists of the anchor alone, finalized and justified. *)
Theorem first_start fuel state s a :
  let anchor := AnchorBlock state in
  represents s a → a_header a (sszHash_header anchor) = None → bh_slot anchor < two64 → (2 ≤ fuel)%nat →
  ∃ p' a', start_block_tree fuel state s = (Ok (), p') ∧
    at_state (CachedTree_new (header_index anchor)) None [] p' a' ∧
    bt_wf (CachedTree_new (header_index anchor)) a' ∧
    a_header a' = upd (sszHash_header anchor) (Some anchor) (a_header a) ∧
    a_state a' = upd (sszHash_header anchor) (Some state) (a_state a) ∧
    a_leaves a' = Some [sszHash_header anchor] ∧
    sszHash_header anchor ∈ a_slots a' (bh_slot anchor).
Proof.
  intros anchor Hs Hh Hsl Hf. set (t := CachedTree_new (header_index anchor)). set (a' := abs_anchor anchor state a).
  pose proof (anchor_bt_wf anchor state a) as Hwf. fold t a' in Hwf.
  destruct (anchor_stored anchor state s a Hs Hh Hsl) as (s1 & Hr1 & Hs1). fold a' in Hs1.
  destruct (BlockTreeInitializer_spec t a' Hwf fuel anchor (header_index anchor) s1 Hs1)
    as (nf & (s2 & Hr2 & Hs2) & _ & Hall & _).
  { unfold leafHashes, t, CachedTree_new. cbn [ct_leaves].
    assert (iteration {[bi_hash (header_index anchor) := bi_slot (header_index anchor)]}
            = [(bi_hash (header_index anchor), bi_slot (header_index anchor))]) as ->; [|done].
    apply Permutation_singleton_r. by rewrite iteration_perm, map_to_list_singleton. }
  { apply (valid_root _ _ (tw_nodes _ (CachedTree_new_wf _))). }
  { unfold tree_fuel, t, CachedTree_new. cbn [ct_nodes]. by rewrite map_size_singleton. }
  { split; [|by left; apply new_is_leaf]. eexists. cbn [t CachedTree_new ct_nodes]. by rewrite lookup_singleton_eq. }
  { unfold leaf_knows. change (bi_hash (header_index anchor)) with (sszHash_header anchor).
    by rewrite N.eqb_refl, orb_true_r. }
  assert (nf = []) as ->.
  { destruct nf as [|[q hd] nf]; [done|]. destruct (proj1 (Hall q)) as [(n & Hn & <-) Hq]; [by left|].
    cbn [t CachedTree_new ct_nodes] in Hn. apply lookup_singleton_Some in Hn as [_ <-]. done. }
  exists (mkBlockTreeData s2 t None []), a'. split.
  { unfold start_block_tree. fold anchor. rewrite Hr1, Hr2. unfold BlockTreeImpl_new, raise_error. cbn [sm_iter].
    unfold setJustified, getLastJustified, get_tree, mbind, sm_bind, mret, sm_ret. cbn [bt_tree].
    by rewrite N.eqb_refl. }
  split_and!; try done; unfold a', abs_anchor.
  - apply abs_anchor_header.
  - unfold abs_set_state, abs_set_leaves. cbn [a_state]. unfold abs_assign. by case_decide.
  - cbn [a_slots abs_set_state abs_set_leaves]. unfold abs_assign. case_decide as Hd; [done|].
    cbn [a_slots abs_set_slot]. unfold upd. rewrite decide_True by done. by left.
Qed.

(** C6: a restart restores the block tree: when the storage holds the blocks and the
    leaves of a tree, and the state of the latest leaf names the finalized block (the
    root) and the justified block of that tree, then the start succeeds and gives a tree
    with the same root, justified block, blocks, parents and leaves; the stored blocks,
    states and leaves are unchanged, and the invariant between tree and storage holds. *)
Theorem restart_restores_tree fuel state s t a leaf :
  represents s a → is_Some (a_header a (sszHash_header (AnchorBlock state))) →
  bt_wf t a → a_leaves a = Some (sort_hashes (leafHashes t)) → valid (ct_nodes t) (ct_justified t) →
  latest_leaf t leaf → leaf_knows a (sszHash_header (AnchorBlock state)) leaf (ct_root t) (ct_justified t) →
  (tree_fuel (ct_nodes t) ≤ fuel)%nat →
  ∃ p' t' a', start_block_tree fuel state s = (Ok (), p') ∧ at_state t' None [] p' a' ∧ restored t a t' a'.
Proof.
  intros Hs Hh Hwf Hl Hj Hleaf Hk Hf.
  destruct (anchor_kept (AnchorBlock state) state s a Hs Hh) as (s1 & Hr1 & Hs1).
  destruct (BlockTreeInitializer_spec t a Hwf fuel (AnchorBlock state) leaf s1 Hs1 Hl Hj Hf Hleaf Hk)
    as (nf & (s2 & Hr2 & Hs2) & Ho & Hall & Hhd).
  destruct (BlockTreeImpl_new_spec fuel t a nf s2 Hs2 Hwf Hj Hl Ho Hall Hhd) as (p' & t' & a' & Hr3 & Hp' & Hrs).
  exists p', t', a'. split; [|done]. unfold start_block_tree. by rewrite Hr1, Hr2.
Qed.

(** The blocks of one slot as leaves. *)
Lemma slot_leaves sl hashes acc x :
  x ∈ foldl (λ leaves h, set_emplace (mkBlockIndex sl h) leaves) acc hashes ↔
  x ∈ acc ∨ (bi_slot x = sl ∧ bi_hash x ∈ hashes).
Proof.
  revert acc. induction hashes as [|h hashes IH]; intros acc; simpl; [set_solver|].
  rewrite IH, elem_of_set_emplace, elem_of_cons. destruct x as [sx hx]. simpl. split.
  - intros [[[= -> ->]|?]|[-> ?]]; tauto.
  - intros [?|[-> [->|?]]]; tauto.
Qed.

(** When the leaves are lost but the slot index has records, loadLeaves ends after at
    most 64 probes of the slot index and stores new leaves: the blocks of one slot, a
    slot that is 0 or has a block and is followed by an empty slot; it is the last slot
    with a block when the slots from 1 to the last one all have blocks. *)
Theorem loadLeaves_repairs s a :
  represents s a → a_leaves a = None →
  (∀ s', represents s' a → runs represents seekLastSlot_valid s' (Ok true) a) →
  ∃ m leaves s', m < two64 ∧ loadLeaves s = (Ok leaves, s') ∧
    represents s' (abs_set_leaves (sort_hashes (a_slots a m)) a) ∧
    (∀ x, x ∈ leaves ↔ bi_slot x = m ∧ bi_hash x ∈ a_slots a m) ∧
    (m = 0 ∨ a_slots a m ≠ []) ∧ (m = two64 - 1 ∨ a_slots a (m + 1) = []) ∧
    (∀ k, k < two64 → (∀ sl, 0 < sl → sl < two64 → a_slots a sl ≠ [] ↔ sl ≤ k) → m = k).
Proof.
  intros Hs Hl Hv. pose proof (law_getBlockTreeLeaves s a Hs) as Hg. rewrite Hl in Hg. destruct Hg as (s1 & Hg & Hs1).
  destruct (Hv s1 Hs1) as (s2 & Hseek & Hs2). destruct (bisect_all s2 a Hs2) as (m & (s3 & Hb & Hs3) & Hm & Hlow & Hmax).
  destruct (law_getBlockHash s3 a m Hs3 Hm) as (s4 & Hh & Hs4).
  destruct (law_setBlockTreeLeaves s4 a (a_slots a m) Hs4) as (s5 & Hset & Hs5).
  exists m, (foldl (λ leaves h, set_emplace (mkBlockIndex m h) leaves) [] (a_slots a m)), s5.
  split; [done|]. split.
  { unfold loadLeaves, repair_leaves, sm_try, mbind, sm_bind. rewrite Hg, bool_decide_true by done.
    unfold mret, sm_ret. rewrite Hseek. cbn [negb]. by rewrite Hb, Hh, Hset. }
  split; [done|]. split; [|split; [done|split; [done|]]].
  - intros x. rewrite slot_leaves. split; [intros [?%not_elem_of_nil|?]; done|by right].
  - intros k Hk Hcont. destruct (N.lt_trichotomy m k) as [Hlt|[?|Hlt]]; [exfalso|done|exfalso].
    + destruct Hmax as [->|He]; [lia|]. by apply (proj2 (Hcont (m + 1) ltac:(lia) ltac:(lia))); [lia|].
    + destruct Hlow as [->|Hne]; [lia|]. apply Hcont in Hne; lia.
Qed.
(** The loop that marks a dead fork never advances: when the two blocks have different
    parents it runs for ever. *)
Theorem mark_fork_never_ends fuel fork main dead fh mh s a :
  represents s a → a_header a (bi_hash fork) = Some fh → a_header a (bi_hash main) = Some mh →
  bh_slot fh = bh_slot mh → bh_parent_root fh ≠ bh_parent_root mh →
  ∃ s', mark_fork fuel fork main dead s = (Throw OutOfFuel, s') ∧ (represents s' a).
Proof.
  intros Hs Hf Hm Hsl Hne. revert fork main dead s Hs Hf Hm.
  induction fuel as [|fuel IH]; intros fork main dead s Hs Hf Hm; [by exists s|].
  destruct (represents_hash s a _ _ Hs Hf) as [Hfh _]. destruct (represents_hash s a _ _ Hs Hm) as [Hmh _].
  destruct (runs_try_header s a _ _ Hs Hf) as (s1 & Hr1 & Hs1).
  destruct (runs_try_header s1 a _ _ Hs1 Hm) as (s2 & Hr2 & Hs2).
  edestruct (IH (mkBlockIndex (bh_slot fh) (sszHash_header fh)) (mkBlockIndex (bh_slot mh) (sszHash_header mh))
    (uset_emplace fork dead) s2 Hs2) as (s3 & Hr3 & Hs3); [by cbn; rewrite ?Hfh, ?Hmh..|].
  exists s3. split; [|done]. cbn [mark_fork]. unfold mbind, sm_bind. rewrite Hr1. rewrite Hr2.
  rewrite Hsl, N.eqb_refl, boost_assert_true, (proj2 (N.eqb_neq _ _) Hne) in *. exact Hr3.
Qed.
End theorems.

(** ** A first start, a block, a restart *)
Module StartEx.
#[local] Existing Instance ReleaseBuild.
#[local] Existing Instance CanonicalOrder.
#[local] Instance ToyCursor : SlotCursor ToyS := mret true.
#[local] Instance ToyWarn : SlWarn := true.

Lemma empty_ok : represents (S := ToyS) toy_empty abs_empty.
Proof. exact toy_empty_represents. Qed.

Lemma first_start_witness :
  ∃ p' a', start_block_tree 2 Ex.s0 toy_empty = (Ok (), p') ∧
    at_state (CachedTree_new (header_index (AnchorBlock Ex.s0))) None [] p' a' ∧
    bt_wf (CachedTree_new (header_index (AnchorBlock Ex.s0))) a'.
Proof.
  destruct (first_start (S := ToyS) 2 Ex.s0 toy_empty abs_empty empty_ok) as (p' & a' & Hr & Hp & Hwf & _);
    [done|by vm_compute|lia|].
  exists p', a'. exact (conj Hr (conj Hp Hwf)).
Defined.

(** The storage of a node that stored the anchor, added a block and stored its state. *)
Definition anchor : BlockHeader := AnchorBlock Ex.s0.
Definition sb1 : SignedBlock := mkSignedBlock Ex.b1 (mkBlockSignatures [] 1).
Definition run_once : BlockTreeData ToyS :=
  (addBlock sb1 (mkBlockTreeData (BlockStorageInitializer anchor Ex.s0 toy_empty).2
                   (CachedTree_new (header_index anchor)) None [])).2.
Definition stored : ToyS := (bs_putState (block_hash Ex.b1) Ex.s1 (bt_storage run_once)).2.

Lemma stored_ok : ∃ t a, represents stored a ∧ bt_wf t a ∧ a_leaves a = Some (sort_hashes (leafHashes t)) ∧
  bt_tree run_once = t ∧ ct_root t = header_index anchor ∧ ct_justified t = header_index anchor ∧
  (∀ q, valid (ct_nodes t) q ↔ q = block_index Ex.b1 ∨ q = header_index anchor) ∧
  is_Some (a_header a (sszHash_header anchor)) ∧ a_state a (block_hash Ex.b1) = Some Ex.s1.
Proof.
  destruct (anchor_stored anchor Ex.s0 toy_empty abs_empty empty_ok) as (s1 & Hr1 & Hs1); [done|by vm_compute|].
  pose proof (anchor_bt_wf anchor Ex.s0 abs_empty) as Hwf1.
  set (p1 := mkBlockTreeData s1 (CachedTree_new (header_index anchor)) None []).
  assert (Hp1 : at_state (CachedTree_new (header_index anchor)) None [] p1 (abs_anchor anchor Ex.s0 abs_empty)) by done.
  destruct (addBlock_spec sb1 (TreeNode_root (header_index anchor)) p1 _ None [] _ Hp1 Hwf1)
    as (t & a & (p & Hr & Hp) & Hwf & Hroot & Hj & Hv & _ & Hh & _ & _ & _ & Hl); [by vm_compute..|].
  destruct (law_putState _ a (block_hash Ex.b1) Ex.s1 (as_storage _ _ _ _ _ Hp)) as (s2 & Hr2 & Hs2).
  exists t, (abs_set_state (block_hash Ex.b1) (Some Ex.s1) a). unfold stored, run_once. rewrite Hr1. cbn [snd].
  fold p1. rewrite Hr. cbn [snd]. rewrite Hr2. split; [done|]. split; [by destruct Hwf|]. split; [done|].
  split; [apply Hp|]. split; [done|]. split; [done|]. split.
  { intros q. rewrite Hv. split; [|intros [->| ->]; [by left|right]].
    - intros [->|(n & Hn & <-)]; [by left|right]. cbn [CachedTree_new ct_nodes] in Hn.
      by apply lookup_singleton_Some in Hn as [_ <-].
    - apply (valid_root _ _ (tw_nodes _ (CachedTree_new_wf _))). }
  cbn [abs_set_state a_header a_state]. rewrite Hh, abs_anchor_header. unfold upd.
  split; [|by rewrite decide_True]. rewrite (decide_True (P := sszHash_header anchor = sszHash_header anchor)) by done.
  destruct (decide (sszHash_header anchor = block_hash (sb_block sb1))); by eexists.
Qed.

Lemma run_once_leaf : is_leaf (bt_tree run_once) (block_index Ex.b1) ∧ ¬ is_leaf (bt_tree run_once) (header_index anchor).
Proof.
  split; [eexists; split; [by vm_compute|by split; vm_compute]|].
  intros (n & Hn & _ & Hc). vm_compute in Hn. injection Hn as <-. discriminate Hc.
Qed.

Lemma restart_restores_tree_witness :
  ∃ p' t' a', start_block_tree 3 Ex.s0 stored = (Ok (), p') ∧ at_state t' None [] p' a' ∧
    ct_root t' = header_index anchor ∧ valid (ct_nodes t') (block_index Ex.b1).
Proof.
  destruct stored_ok as (t & a & Hs & Hwf & Hl & Ht & Hr & Hj & Hv & Hh & Hst). destruct run_once_leaf as [Hleaf Hno].
  rewrite Ht in Hleaf, Hno.
  destruct (restart_restores_tree 3 Ex.s0 stored t a (block_index Ex.b1) Hs Hh Hwf Hl)
    as (p' & t' & a' & Hrun & Hp & Hrs).
  - rewrite Hj. apply Hv. by right.
  - split; [done|]. intros q Hq. left. pose proof Hq as (n & Hn & Hi & _).
    destruct (proj1 (Hv q) (ex_intro _ n (conj Hn Hi))) as [Hq'|Hq']; [exact Hq'|].
    rewrite Hq' in Hq. destruct (Hno Hq).
  - unfold leaf_knows. rewrite Hr, Hj. change (bi_hash (block_index Ex.b1)) with (block_hash Ex.b1).
    assert ((bi_slot (block_index Ex.b1) =? 0) || (block_hash Ex.b1 =? sszHash_header (AnchorBlock Ex.s0)) = false)
      as -> by (vm_compute; reflexivity).
    exists Ex.s1. split; [exact Hst|]. split; vm_compute; reflexivity.
  - rewrite <- Ht. by vm_compute.
  - exists p', t', a'. split; [exact Hrun|]. split; [exact Hp|]. split; [by rewrite (rs_root _ _ _ _ Hrs)|].
    apply (rs_valid _ _ _ _ Hrs), Hv. by left.
Defined.

Lemma loadLeaves_repairs_witness :
  ∃ m leaves s', m < two64 ∧ loadLeaves (S := ToyS) (bs_assignHashToSlot (mkBlockIndex 0 5) toy_empty).2 = (Ok leaves, s').
Proof.
  destruct (law_assignHashToSlot (S := ToyS) toy_empty abs_empty (mkBlockIndex 0 5) empty_ok ltac:(by vm_compute))
    as (s & Hr & Hs).
  destruct (loadLeaves_repairs s _ Hs) as (m & ls & s' & Hm & Hl & _).
  - by vm_compute.
  - intros s' Hs'. by exists s'.
  - rewrite Hr. exists m, ls, s'. exact (conj Hm Hl).
Defined.

(** Blocks at slots 0 and 5 and none between: the repaired leaves are those of slot 0. *)
Definition gap : ToyS :=
  (bs_assignHashToSlot (mkBlockIndex 5 9) (bs_assignHashToSlot (mkBlockIndex 0 7) toy_empty).2).2.

Theorem loadLeaves_misses_gap :
  (bs_getBlockHash 5 gap).1 = Ok [9] ∧ (loadLeaves gap).1 = Ok [mkBlockIndex 0 7].
Proof. split; vm_compute; reflexivity. Qed.
End StartEx.
