(* ===== verification/Rlp.v ===== *)
(** * RLP (src/src/serde/enr.cpp, namespace lean::rlp)

    The recursive length prefix encoding of Ethereum node records.  A byte is an [N]
    below 256; a [Decoder] is the rest of its input, a [SM bytes]; an [Encoder] is the
    output written so far. *)

From S2P Require Import Prelude Errors.

Abbreviation bytes := (list N).
Definition is_byte (x : N) : Prop := x < 256.
#[global] Instance is_byte_dec x : Decision (is_byte x) := decide_rel N.lt x 256.

Definition kMaxPrefix1 : N := 55.
Definition kBytesPrefix1 : N := 128.
Definition kListPrefix1 : N := 192.

(** ** Decoder *)
Module Decoder.
Local Abbreviation M := (SM bytes error).

Definition empty (input : bytes) : bool := bool_decide (input = []).

Definition take (n : N) : M bytes := λ input,
  if lengthN input <? n then (Err (E_Rlp INVALID_RLP), input)
  else (Ok (take (N.to_nat n) input), drop (N.to_nat n) input).

(** uint<T>(BytesIn); [digits] is the width of T. *)
Definition uint_be (digits : N) (be : bytes) : result N :=
  if digits <? u64_mul (lengthN be) 8 then Err (E_Rlp INT_OVERFLOW)
  else Ok (foldl (λ v x, N.lor (N.shiftl v 8) x mod 2 ^ digits) 0 be).

(** input_[0]; undefined on an empty input. *)
Definition front : M N := λ input,
  match input with
  | x :: _ => (Ok x, input)
  | [] => (Throw UndefinedBehaviour, input)
  end.

Definition bytesInternal (base1 : N) : M bytes :=
  let base2 := base1 + kMaxPrefix1 in
  x ← front;
  if x <? base1 then sm_err (E_Rlp INVALID_RLP)
  else if x <=? base2 then
    take 1 ≫= λ _,
    take (x - base1)
  else
    take 1 ≫= λ _,
    n2_raw ← take (x - base2);
    n2 ← sm_lift (uint_be 64 n2_raw);
    take n2.

Definition is_list (input : bytes) : bool :=
  match input with x :: _ => kListPrefix1 <=? x | [] => false end.

(** list: the decoder of the list's content *)
Definition list : M bytes :=
  input ← sm_get;
  if empty input then sm_err (E_Rlp INVALID_RLP) else bytesInternal kListPrefix1.

Definition bytes_ : M bytes :=
  input ← sm_get;
  if empty input then sm_err (E_Rlp INVALID_RLP)
  else
    x ← front;
    if kListPrefix1 <=? x then sm_err (E_Rlp INVALID_RLP)
    else if x <? kBytesPrefix1 then take 1
    else bytesInternal kBytesPrefix1.

Definition bytes_n (n : N) : M bytes :=
  raw ← bytes_;
  if negb (lengthN raw =? n) then sm_err (E_Rlp INVALID_RLP) else mret raw.

Definition str : M bytes := bytes_.

Definition uint (digits : N) : M N :=
  be ← bytes_;
  sm_lift (uint_be digits be).

Definition readBool : M bool :=
  byte ← uint 8;
  if byte =? 0 then mret false
  else if byte =? 1 then mret true
  else sm_err (E_Rlp INT_OVERFLOW).

Definition skip : M () :=
  input ← sm_get;
  if is_list input then list ≫= λ _, mret () else bytes_ ≫= λ _, mret ().

(** The loop of keyValue; every turn takes at least one byte. *)
Fixpoint key_value_loop (fuel : nat) (kv : gmap bytes bytes) : M (gmap bytes bytes) :=
  input ← sm_get;
  if empty input then mret kv
  else
    match fuel with
    | O => sm_throw OutOfFuel
    | S fuel =>
        key ← str;
        value ← sm_get;
        if empty value then sm_err (E_Rlp INVALID_KEY_VALUE)
        else
          skip ≫= λ _,
          rest ← sm_get;
          let value := firstn (length value - length rest) value in
          (* unordered_map::emplace *)
          key_value_loop fuel (match kv !! key with None => <[key := value]> kv | Some _ => kv end)
    end.
Definition keyValue : M (gmap bytes bytes) := λ input, key_value_loop (length input) ∅ input.
End Decoder.

(** ** Encoder *)

(** std::countl_zero of a uint64_t *)
Definition countl_zero (v : N) : N := 64 - N.size v.

(** EncodeBuffer: the first [size_] bytes of the buffer *)
Module EncodeBuffer.
Definition is_short (buffer : bytes) : bool :=
  match buffer with x :: _ => x <? kBytesPrefix1 | [] => true end.

(** The bytes v >> 8 * (n - i), truncated, for i from 1 to n. *)
Definition be_bytes (n v : N) : bytes :=
  (λ i, N.shiftr v (8 * (n - i)) mod 256) <$> seqN 1 n.

Definition uint (base v : N) : bytes :=
  let n := 8 - countl_zero v / 8 in
  (base + n) mod 256 :: be_bytes n v.

Definition bytesInternal (base n : N) : bytes :=
  if n <=? kMaxPrefix1 then [(base + n) mod 256] else uint (base + kMaxPrefix1) n.
End EncodeBuffer.

Definition EncodeUint (v : N) : bytes :=
  if (0 <? v) && (v <? kBytesPrefix1) then [v] else EncodeBuffer.uint kBytesPrefix1 v.

Definition EncodeBytes (b : bytes) : bytes :=
  match b with
  | [x] => if x <? kBytesPrefix1 then [x] else EncodeBuffer.bytesInternal kBytesPrefix1 1
  | _ => EncodeBuffer.bytesInternal kBytesPrefix1 (lengthN b)
  end.

Definition EncodeList (n : N) : bytes := EncodeBuffer.bytesInternal kListPrefix1 n.

Module Encoder.
Definition uint (v : N) (output : bytes) : bytes := output ++ EncodeUint v.
Definition writeBool (v : bool) (output : bytes) : bytes := uint (if v then 1 else 0) output.
Definition bytes_ (b : bytes) (output : bytes) : bytes :=
  let prefix := EncodeBytes b in
  if EncodeBuffer.is_short prefix then output ++ prefix else output ++ prefix ++ b.
Definition str (s : bytes) (output : bytes) : bytes := bytes_ s output.
Definition list (output : bytes) : bytes := EncodeList (lengthN output) ++ output.
End Encoder.
