(* ===== verification/RlpProofs.v ===== *)
(** * RLP: round trips and totality *)

From S2P Require Import Prelude Errors Rlp.

(** ** Big-endian integers *)
Lemma lor_byte v x : x < 256 → N.lor (N.shiftl v 8) x = v * 256 + x.
Proof.
  intros Hx. rewrite <- N.lxor_lor, <- N.add_nocarry_lxor; [by rewrite N.shiftl_mul_pow2|..]; apply N.bits_inj; intros i;
    rewrite N.land_spec, N.bits_0; destruct (N.lt_ge_cases i 8).
  1, 3: by rewrite N.shiftl_spec_low.
  all: rewrite <- (N.mod_small x (2 ^ 8)) by done; by rewrite N.mod_pow2_bits_high, andb_false_r.
Qed.

Lemma be_bytes_S n v :
  EncodeBuffer.be_bytes (N.succ n) v = N.shiftr v (8 * n) mod 256 :: EncodeBuffer.be_bytes n v.
Proof.
  unfold EncodeBuffer.be_bytes, seqN. rewrite Nnat.N2Nat.inj_succ. cbn [seq]. rewrite !fmap_cons.
  f_equal; [do 3 f_equal; lia|]. rewrite <- fmap_S_seq, <- !list_fmap_compose. apply list_fmap_ext.
  intros i x _. cbn. do 3 f_equal. lia.
Qed.

Lemma be_bytes_0 v : EncodeBuffer.be_bytes 0 v = [].
Proof. done. Qed.

Lemma length_be_bytes n v : lengthN (EncodeBuffer.be_bytes n v) = n.
Proof. unfold lengthN, EncodeBuffer.be_bytes. rewrite length_fmap. apply length_seqN. Qed.

Lemma be_bytes_byte n v : Forall is_byte (EncodeBuffer.be_bytes n v).
Proof. apply Forall_fmap, Forall_true. intros i. cbn. by apply N.mod_lt. Qed.

Lemma fold_be_bytes digits n v acc :
  acc * 256 ^ n + v mod 256 ^ n < 2 ^ digits →
  foldl (λ v x, N.lor (N.shiftl v 8) x mod 2 ^ digits) acc (EncodeBuffer.be_bytes n v)
  = acc * 256 ^ n + v mod 256 ^ n.
Proof.
  revert acc. induction n as [|n IH] using N.peano_ind; intros acc Hlt.
  { rewrite be_bytes_0. cbn. rewrite N.mod_1_r. lia. }
  rewrite be_bytes_S. cbn [foldl].
  assert (Hb : N.shiftr v (8 * n) mod 256 < 256) by (by apply N.mod_lt).
  rewrite lor_byte by done. rewrite N.shiftr_div_pow2, N.pow_mul_r in *. change (2 ^ 8) with 256 in *.
  assert (Hsplit : v mod 256 ^ N.succ n = (v / 256 ^ n) mod 256 * 256 ^ n + v mod 256 ^ n).
  { rewrite N.pow_succ_r', (N.mul_comm 256), N.Div0.mod_mul_r. lia. }
  rewrite Hsplit, N.pow_succ_r' in *.
  assert (Hp : 0 < 256 ^ n) by (apply N.neq_0_lt_0, N.pow_nonzero; lia).
  pose proof (N.mod_lt v (256 ^ n) ltac:(lia)) as Hm.
  set (b := (v / 256 ^ n) mod 256) in *. set (p := 256 ^ n) in *. set (m := v mod p) in *.
  assert (Heq : acc * (256 * p) + (b * p + m) = (acc * 256 + b) * p + m) by ring.
  rewrite Heq in *. assert ((acc * 256 + b) * 1 ≤ (acc * 256 + b) * p) by (apply N.mul_le_mono_l; lia).
  rewrite (N.mod_small (acc * 256 + b)) by lia. by apply IH.
Qed.

(** The number of bytes written by EncodeBuffer::uint is enough. *)
Lemma uint_bytes v : v < two64 → 8 - countl_zero v / 8 ≤ 8 ∧ v < 256 ^ (8 - countl_zero v / 8).
Proof.
  intros Hv. split; [apply N.le_sub_l|]. unfold countl_zero.
  assert (Hs : N.size v ≤ 64).
  { destruct (N.eq_dec v 0) as [->|Hne]; [done|]. rewrite N.size_log2 by done.
    apply N.le_succ_l, N.log2_lt_pow2; [lia|done]. }
  change 256 with (2 ^ 8). rewrite <- N.pow_mul_r. eapply N.lt_le_trans; [apply N.size_gt|].
  apply N.pow_le_mono_r; [done|]. pose proof (N.div_mod (64 - N.size v) 8 ltac:(lia)).
  pose proof (N.mod_lt (64 - N.size v) 8 ltac:(lia)).
  generalize dependent ((64 - N.size v) mod 8). generalize dependent ((64 - N.size v) / 8).
  generalize dependent (N.size v). clear. intros. lia.
Qed.

Lemma uint_be_bytes digits n v :
  n < two64 / 8 → 8 * n ≤ digits → v < 256 ^ n → Decoder.uint_be digits (EncodeBuffer.be_bytes n v) = Ok v.
Proof.
  intros Hn Hd Hv. unfold Decoder.uint_be. rewrite length_be_bytes.
  rewrite u64_mul_small by (pose proof (N.Div0.mul_div_le two64 8); lia).
  rewrite (proj2 (N.ltb_ge _ _)) by lia.
  assert (Hlt : 0 * 256 ^ n + v mod 256 ^ n < 2 ^ digits).
  { rewrite N.mod_small by done. eapply N.lt_le_trans; [exact Hv|]. change 256 with (2 ^ 8).
    rewrite <- N.pow_mul_r. by apply N.pow_le_mono_r. }
  rewrite fold_be_bytes by done. by rewrite N.mod_small by done.
Qed.

(** ** Reading back what was written *)
Lemma lengthN_app {A} (l k : list A) : lengthN (l ++ k) = lengthN l + lengthN k.
Proof. unfold lengthN. rewrite length_app. lia. Qed.

Lemma take_app_run (l rest : bytes) n : n = lengthN l → Decoder.take n (l ++ rest) = (Ok l, rest).
Proof.
  intros ->. unfold Decoder.take. rewrite lengthN_app, (proj2 (N.ltb_ge _ _)) by lia.
  unfold lengthN. by rewrite Nnat.Nat2N.id, take_app_length, drop_app_length.
Qed.
Lemma take_one_run x (rest : bytes) : Decoder.take 1 (x :: rest) = (Ok [x], rest).
Proof. by apply (take_app_run [x] rest). Qed.
Lemma front_run x (rest : bytes) : Decoder.front (x :: rest) = (Ok x, x :: rest).
Proof. done. Qed.

(** A prefix and the bytes it announces. *)
Lemma bytesInternal_run base b rest :
  base + kMaxPrefix1 + 8 < 256 → lengthN b < two64 →
  Decoder.bytesInternal base (EncodeBuffer.bytesInternal base (lengthN b) ++ b ++ rest) = (Ok b, rest).
Proof.
  intros Hbase Hb. unfold Decoder.bytesInternal, EncodeBuffer.bytesInternal. unfold kMaxPrefix1 in *.
  destruct (N.leb_spec (lengthN b) 55) as [Hle|Hgt].
  - cbn [app]. rewrite N.mod_small by lia. rewrite (sm_bind_ok _ _ _ _ _ (front_run _ _)).
    rewrite (proj2 (N.ltb_ge _ _)), (proj2 (N.leb_le _ _)) by lia.
    rewrite (sm_bind_ok _ _ _ _ _ (take_one_run _ _)). apply take_app_run. lia.
  - unfold EncodeBuffer.uint. destruct (uint_bytes _ Hb) as [Hn Hv].
    set (n := 8 - countl_zero (lengthN b) / 8) in *. cbn [app]. rewrite N.mod_small by lia.
    assert (Hpos : n ≠ 0) by (intros Hz; rewrite Hz in Hv; cbn in Hv; lia).
    rewrite (sm_bind_ok _ _ _ _ _ (front_run _ _)).
    rewrite (proj2 (N.ltb_ge _ _)), (proj2 (N.leb_gt _ _)) by lia.
    rewrite (sm_bind_ok _ _ _ _ _ (take_one_run _ _)).
    rewrite (sm_bind_ok _ _ _ _ _ (take_app_run (EncodeBuffer.be_bytes n (lengthN b)) _ (base + 55 + n - (base + 55))
      ltac:(rewrite length_be_bytes; lia))).
    assert (Hn8 : n < two64 / 8) by (eapply N.le_lt_trans; [exact Hn|by vm_compute]).
    unfold mbind, sm_bind, sm_lift. rewrite (uint_be_bytes 64 n (lengthN b) Hn8 ltac:(lia) Hv).
    by apply take_app_run.
Qed.

Lemma run_get (s : bytes) : sm_get (E:=error) s = (Ok s, s).
Proof. done. Qed.

(** Decoder::list after Encoder::list *)
Lemma list_run out rest :
  lengthN out < two64 → Decoder.list (Encoder.list out ++ rest) = (Ok out, rest).
Proof.
  intros Hl. unfold Decoder.list, Encoder.list, EncodeList. rewrite <- app_assoc.
  rewrite (sm_bind_ok _ _ _ _ _ (run_get _)).
  assert (He : Decoder.empty (EncodeBuffer.bytesInternal kListPrefix1 (lengthN out) ++ out ++ rest) = false).
  { unfold EncodeBuffer.bytesInternal. by destruct (_ <=? _). }
  rewrite He. by apply bytesInternal_run.
Qed.

(** The bytes of one item. *)
Definition item (b : bytes) : bytes := Encoder.bytes_ b [].

Lemma enc_bytes_item b out : Encoder.bytes_ b out = out ++ item b.
Proof. unfold item, Encoder.bytes_. by destruct (EncodeBuffer.is_short _). Qed.

Lemma prefix_front n :
  n < two64 → ∃ x rest, EncodeBuffer.bytesInternal kBytesPrefix1 n = x :: rest ∧ kBytesPrefix1 ≤ x ∧ x < kListPrefix1.
Proof.
  intros Hn. unfold EncodeBuffer.bytesInternal, EncodeBuffer.uint. destruct (uint_bytes n Hn) as [Hl _].
  unfold kBytesPrefix1, kListPrefix1, kMaxPrefix1.
  destruct (N.leb_spec n 55); do 2 eexists; (split; [done|]); rewrite N.mod_small; lia.
Qed.

Lemma bytes_run b rest :
  Forall is_byte b → lengthN b < two64 → Decoder.bytes_ (item b ++ rest) = (Ok b, rest).
Proof.
  intros Hb Hl. unfold item, Encoder.bytes_, Decoder.bytes_. rewrite (sm_bind_ok _ _ _ _ _ (run_get _)).
  assert (Hcase : (∃ x, b = [x] ∧ x < kBytesPrefix1) ∨
    EncodeBytes b = EncodeBuffer.bytesInternal kBytesPrefix1 (lengthN b)).
  { unfold EncodeBytes. destruct b as [|x [|]]; [by right| |by right].
    destruct (N.ltb_spec x kBytesPrefix1); [left; by exists x|by right]. }
  destruct Hcase as [(x & -> & Hx)|HE].
  - cbn [EncodeBytes]. rewrite (proj2 (N.ltb_lt _ _) Hx). unfold EncodeBuffer.is_short. rewrite (proj2 (N.ltb_lt _ _) Hx).
    cbn [app]. unfold Decoder.empty. rewrite bool_decide_false by done. rewrite (sm_bind_ok _ _ _ _ _ (front_run _ _)).
    rewrite (proj2 (N.leb_gt kListPrefix1 x)) by (unfold kListPrefix1, kBytesPrefix1 in *; lia).
    rewrite (proj2 (N.ltb_lt _ _) Hx). apply take_one_run.
  - rewrite HE. pose proof (bytesInternal_run kBytesPrefix1 b rest ltac:(done) Hl) as Hrun.
    destruct (prefix_front _ Hl) as (x & pre & Hp & Hlo & Hhi). rewrite Hp in *.
    unfold EncodeBuffer.is_short. rewrite (proj2 (N.ltb_ge _ _) Hlo). cbn [app] in *.
    rewrite <- app_assoc. unfold Decoder.empty. rewrite bool_decide_false by done.
    rewrite (sm_bind_ok _ _ _ _ _ (front_run _ _)).
    rewrite (proj2 (N.leb_gt kListPrefix1 x)) by done. by rewrite (proj2 (N.ltb_ge _ _) Hlo).
Qed.

(** An unsigned integer is the item of its big-endian bytes. *)
Lemma EncodeUint_item v :
  v < two64 → ∃ b, EncodeUint v = item b ∧ Forall is_byte b ∧ lengthN b ≤ 8 ∧
    ∀ k, k ≤ 8 → v < 2 ^ (8 * k) → Decoder.uint_be (8 * k) b = Ok v.
Proof.
  intros Hv. destruct (uint_bytes v Hv) as [Hn8 Hvn]. unfold EncodeUint.
  set (n := 8 - countl_zero v / 8) in *.
  assert (Hbe : ∀ k, k ≤ 8 → v < 2 ^ (8 * k) → n ≤ k).
  { intros k Hk Hlt. unfold n, countl_zero.
    assert (Hs : N.size v ≤ 8 * k).
    { destruct (N.eq_dec v 0) as [->|Hne]; [cbn; lia|]. rewrite N.size_log2 by done.
      apply N.le_succ_l, N.log2_lt_pow2; [lia|done]. }
    assert (Hd : 8 - k ≤ (64 - N.size v) / 8) by (apply N.div_le_lower_bound; lia).
    generalize dependent ((64 - N.size v) / 8). clear -Hk. intros. lia. }
  assert (Hdec : ∀ k, k ≤ 8 → v < 2 ^ (8 * k) → Decoder.uint_be (8 * k) (EncodeBuffer.be_bytes n v) = Ok v).
  { intros k Hk Hlt. apply uint_be_bytes; [eapply N.le_lt_trans; [exact Hn8|by vm_compute]| |exact Hvn].
    specialize (Hbe k Hk Hlt). lia. }
  destruct (decide (0 < v ∧ v < kBytesPrefix1)) as [[H0 H1]|Hbig].
  - exists [v]. rewrite (proj2 (N.ltb_lt _ _) H0), (proj2 (N.ltb_lt _ _) H1). unfold kBytesPrefix1 in *. split.
    { unfold item, Encoder.bytes_, EncodeBytes, EncodeBuffer.is_short. by rewrite !(proj2 (N.ltb_lt v kBytesPrefix1)) by done. }
    split; [repeat constructor; unfold is_byte; lia|]. split; [done|]. intros k Hk Hlt.
    destruct (N.eq_dec k 0) as [->|Hk0]; [cbn in Hlt; lia|].
    unfold Decoder.uint_be. change (u64_mul (lengthN [v]) 8) with 8. rewrite (proj2 (N.ltb_ge _ _)) by lia.
    cbn [foldl]. rewrite lor_byte by lia. by rewrite N.mod_small by lia.
  - exists (EncodeBuffer.be_bytes n v). assert (Hif : (0 <? v) && (v <? kBytesPrefix1) = false).
    { apply andb_false_iff. rewrite N.ltb_ge, N.ltb_ge. lia. }
    rewrite Hif. split; [|split; [apply be_bytes_byte|split; [by rewrite length_be_bytes|exact Hdec]]].
    assert (HE : EncodeBytes (EncodeBuffer.be_bytes n v) = EncodeBuffer.bytesInternal kBytesPrefix1 n).
    { rewrite <- (length_be_bytes n v) at 2. unfold EncodeBytes.
      destruct (EncodeBuffer.be_bytes n v) as [|x [|]] eqn:Hbytes; try done.
      assert (n = 1) as Hn1 by (rewrite <- (length_be_bytes n v), Hbytes; done).
      destruct (N.ltb_spec x kBytesPrefix1); [|done]. exfalso.
      rewrite Hn1 in Hbytes. change 1 with (N.succ 0) in Hbytes. rewrite be_bytes_S in Hbytes.
      injection Hbytes as Hx. cbn in Hx. rewrite Hn1 in Hvn. rewrite N.mod_small in Hx by done. subst x.
      apply Hbig. split; [|done]. destruct (N.eq_dec v 0) as [->|]; [|lia].
      unfold n in Hn1. by vm_compute in Hn1. }
    unfold item, Encoder.bytes_. rewrite HE. unfold EncodeBuffer.bytesInternal, kMaxPrefix1.
    rewrite (proj2 (N.leb_le n 55)) by lia. unfold EncodeBuffer.is_short, EncodeBuffer.uint. fold n.
    unfold kBytesPrefix1. by rewrite !N.mod_small, (proj2 (N.ltb_ge _ _)) by lia.
Qed.

Lemma uint_run v k rest :
  v < two64 → k ≤ 8 → v < 2 ^ (8 * k) → Decoder.uint (8 * k) (EncodeUint v ++ rest) = (Ok v, rest).
Proof.
  intros Hv Hk Hlt. destruct (EncodeUint_item v Hv) as (b & -> & Hb & Hl & Hdec). unfold Decoder.uint.
  rewrite (sm_bind_ok _ _ _ _ _ (bytes_run b rest Hb ltac:(eapply N.le_lt_trans; [exact Hl|by vm_compute]))).
  unfold sm_lift. by rewrite Hdec.
Qed.

(** ** Key-value lists *)
Lemma item_front b : lengthN b < two64 → ∃ x rest, item b = x :: rest ∧ x < kListPrefix1.
Proof.
  intros Hl. unfold item, Encoder.bytes_, EncodeBytes.
  destruct (prefix_front _ Hl) as (y & pre & Hp & _ & Hy).
  destruct b as [|x [|x' b]].
  - rewrite Hp. unfold EncodeBuffer.is_short. destruct (_ <? _); cbn [app]; eauto.
  - destruct (N.ltb_spec x kBytesPrefix1) as [Hx|].
    + unfold EncodeBuffer.is_short. rewrite (proj2 (N.ltb_lt _ _) Hx). exists x, []. split; [done|].
      unfold kListPrefix1, kBytesPrefix1 in *. lia.
    + change (lengthN [x]) with 1 in Hp. rewrite Hp. destruct (EncodeBuffer.is_short _); cbn [app]; eauto.
  - rewrite Hp. destruct (EncodeBuffer.is_short _); cbn [app]; eauto.
Qed.

Lemma skip_run b rest :
  Forall is_byte b → lengthN b < two64 → Decoder.skip (item b ++ rest) = (Ok (), rest).
Proof.
  intros Hb Hl. unfold Decoder.skip. rewrite (sm_bind_ok _ _ _ _ _ (run_get _)).
  destruct (item_front b Hl) as (x & pre & Hi & Hx). rewrite Hi. cbn [app Decoder.is_list].
  rewrite (proj2 (N.leb_gt _ _) Hx).
  change (x :: pre ++ rest) with ((x :: pre) ++ rest). rewrite <- Hi.
  by rewrite (sm_bind_ok _ _ _ _ _ (bytes_run b rest Hb Hl)).
Qed.

Definition small (b : bytes) : Prop := Forall is_byte b ∧ lengthN b < two64.

Definition emplace_value (kv : gmap bytes bytes) (e : bytes * bytes) : gmap bytes bytes :=
  match kv !! e.1 with None => <[e.1 := item e.2]> kv | Some _ => kv end.

Lemma key_value_run fuel kv (l : list (bytes * bytes)) :
  (length l ≤ fuel)%nat → Forall (λ e, small e.1 ∧ small e.2) l →
  Decoder.key_value_loop fuel kv (concat ((λ e, item e.1 ++ item e.2) <$> l)) = (Ok (foldl emplace_value kv l), []).
Proof.
  revert fuel kv. induction l as [|[k v] l IH]; intros fuel kv Hf Hl.
  { by destruct fuel. }
  destruct fuel as [|fuel]; [cbn in Hf; lia|]. apply Forall_cons in Hl as [[[Hk1 Hk2] [Hv1 Hv2]] Hl].
  cbn [fst snd] in *. rewrite fmap_cons. cbn [concat fst snd]. rewrite <- !app_assoc. cbn [Decoder.key_value_loop].
  rewrite (sm_bind_ok _ _ _ _ _ (run_get _)).
  destruct (item_front k Hk2) as (xk & prek & Hik & _). destruct (item_front v Hv2) as (xv & prev & Hiv & _).
  assert (Hne : ∀ pre x tail rest, pre = x :: tail → Decoder.empty (pre ++ rest) = false).
  { intros ???? ->. by apply bool_decide_false. }
  rewrite (Hne _ _ _ _ Hik). rewrite (sm_bind_ok _ _ _ _ _ (bytes_run k _ Hk1 Hk2)).
  rewrite (sm_bind_ok _ _ _ _ _ (run_get _)), (Hne _ _ _ _ Hiv).
  rewrite (sm_bind_ok _ _ _ _ _ (skip_run v _ Hv1 Hv2)), (sm_bind_ok _ _ _ _ _ (run_get _)).
  rewrite length_app, Nat.add_sub, take_app_length. cbn [foldl]. unfold emplace_value at 2. cbn [fst snd].
  apply IH; [cbn in Hf; lia|done].
Qed.

(** ** No exception *)

(** Pure steps. *)
Local Ltac pure := first [done | exact (le_n _)].

(** [m] does not throw on [input], and takes at least [k] bytes when it succeeds. *)
Definition consumes {A} (k : nat) (m : SM bytes error A) (input : bytes) : Prop :=
  match m input with
  | (Ok _, rest) => (k + length rest ≤ length input)%nat
  | (Err _, _) => True
  | (Throw _, _) => False
  end.

Lemma consumes_bind {A B} k1 k2 (m : SM bytes error A) (f : A → SM bytes error B) input :
  consumes k1 m input → (∀ x rest, m input = (Ok x, rest) → consumes k2 (f x) rest) →
  consumes (k1 + k2) (m ≫= f) input.
Proof.
  unfold consumes, mbind, sm_bind. destruct (m input) as [[x|e|y] rest]; intros Hm Hf; [|done|done].
  specialize (Hf x rest eq_refl). destruct (f x rest) as [[z|e|y] rest']; [lia|done|done].
Qed.

Lemma consumes_weaken {A} k (m : SM bytes error A) input : consumes k m input → consumes 0 m input.
Proof. unfold consumes. destruct (m input) as [[]]; try done. lia. Qed.

Lemma consumes_ret {A} (x : A) input : consumes 0 (mret x) input.
Proof. exact (le_n _). Qed.
Lemma consumes_err {A} k e input : consumes k (sm_err e : SM bytes error A) input.
Proof. done. Qed.

Lemma take_consumes n input : consumes (N.to_nat n) (Decoder.take n) input.
Proof.
  unfold consumes, Decoder.take. destruct (N.ltb_spec (lengthN input) n) as [|Hle]; [done|].
  rewrite length_drop. unfold lengthN in Hle. lia.
Qed.

Lemma bytesInternal_consumes base input : input ≠ [] → consumes 1 (Decoder.bytesInternal base) input.
Proof.
  intros Hne. destruct input as [|x input]; [done|]. unfold Decoder.bytesInternal.
  apply (consumes_bind 0 1); [pure|]. intros y rest [= <- <-].
  destruct (x <? base); [done|]. destruct (x <=? base + kMaxPrefix1).
  - apply (consumes_bind 1 0); [apply take_consumes|]. intros. eapply consumes_weaken, take_consumes.
  - apply (consumes_bind 1 0); [apply take_consumes|]. intros _ rest _.
    apply (consumes_bind 0 0); [eapply consumes_weaken, take_consumes|]. intros raw rest' _.
    apply (consumes_bind 0 0).
    + unfold consumes, sm_lift, Decoder.uint_be. destruct (_ <? _); pure.
    + intros n rest'' _. eapply consumes_weaken, take_consumes.
Qed.

Lemma bytes_consumes input : consumes 1 Decoder.bytes_ input.
Proof.
  unfold Decoder.bytes_. apply (consumes_bind 0 1); [pure|]. intros s rest [= <- <-].
  unfold Decoder.empty. case_bool_decide as He; [done|]. destruct input as [|x input]; [done|].
  apply (consumes_bind 0 1); [pure|]. intros y rest [= <- <-].
  destruct (kListPrefix1 <=? x); [done|]. destruct (x <? kBytesPrefix1); [apply take_consumes|].
  by apply bytesInternal_consumes.
Qed.

Lemma list_consumes input : consumes 1 Decoder.list input.
Proof.
  unfold Decoder.list. apply (consumes_bind 0 1); [pure|]. intros s rest [= <- <-].
  unfold Decoder.empty. case_bool_decide; [done|]. by apply bytesInternal_consumes.
Qed.

Lemma skip_consumes input : consumes 1 Decoder.skip input.
Proof.
  unfold Decoder.skip. apply (consumes_bind 0 1); [pure|]. intros s rest [= <- <-].
  destruct (Decoder.is_list input); (apply (consumes_bind 1 0); [|intros; pure]);
    [apply list_consumes|apply bytes_consumes].
Qed.

Lemma bytes_n_consumes n input : consumes 1 (Decoder.bytes_n n) input.
Proof. apply (consumes_bind 1 0); [apply bytes_consumes|]. intros b rest _. destruct (negb _); pure. Qed.

Lemma uint_consumes digits input : consumes 1 (Decoder.uint digits) input.
Proof.
  apply (consumes_bind 1 0); [apply bytes_consumes|]. intros b rest _.
  unfold consumes, sm_lift, Decoder.uint_be. destruct (_ <? _); pure.
Qed.

Lemma readBool_consumes input : consumes 1 Decoder.readBool input.
Proof.
  apply (consumes_bind 1 0); [apply uint_consumes|]. intros b rest _. destruct (b =? 0), (b =? 1); pure.
Qed.

(** The loop ends: every turn takes two bytes at least. *)
Lemma key_value_consumes fuel kv input :
  (length input ≤ fuel)%nat → consumes 0 (Decoder.key_value_loop fuel kv) input.
Proof.
  revert kv input. induction fuel as [|fuel IH]; intros kv input Hf; cbn [Decoder.key_value_loop];
    (apply (consumes_bind 0 0); [pure|]); intros s rest [= <- <-]; unfold Decoder.empty; case_bool_decide as He; try pure.
  { by destruct input; [|cbn in Hf; lia]. }
  eapply consumes_weaken. apply (consumes_bind 1 0); [apply bytes_consumes|]. intros key rest Hkey.
  pose proof (bytes_consumes input) as Hc. unfold consumes in Hc. change Decoder.str with Decoder.bytes_ in Hkey. rewrite Hkey in Hc.
  apply (consumes_bind 0 0); [pure|]. intros value rest' [= <- <-].
  case_bool_decide; [done|]. eapply consumes_weaken. apply (consumes_bind 1 0); [apply skip_consumes|].
  intros [] rest' Hskip. pose proof (skip_consumes rest) as Hs. unfold consumes in Hs. rewrite Hskip in Hs.
  apply (consumes_bind 0 0); [pure|]. intros r rest'' [= <- <-]. apply IH. lia.
Qed.
