(* ===== verification/Enr.v ===== *)
(** * Ethereum node records (src/src/serde/enr.{hpp,cpp}, namespace lean::enr)

    Encoding and decoding of the signed record of a bootnode.  Strings are lists of
    bytes.  Base64, Keccak and secp256k1 are libraries: parameters of the model. *)

From Stdlib Require Import Ascii String.
From S2P Require Import Prelude Errors Rlp.

(** qtils::str2byte *)
Definition str2byte (s : string) : bytes := N_of_ascii <$> list_ascii_of_string s.

Record Enr := mkEnr {
  enr_signature : bytes;          (* 64 bytes *)
  enr_sequence : N;
  enr_public_key : bytes;         (* 33 bytes *)
  enr_ip : option bytes;          (* 4 bytes *)
  enr_port : option N;
  enr_is_aggregator_optional : option bool;
}.
#[global] Instance Enr_eq_dec : EqDecision Enr.
Proof. solve_decision. Defined.

(** libp2p::crypto::KeyPair; [true] for a key of type Secp256k1 *)
Record KeyPair := mkKeyPair {
  kp_private_secp256k1 : bool;
  kp_private_key : bytes;
  kp_public_secp256k1 : bool;
  kp_public_key : bytes;
}.

(** cppcodec::base64_url_unpadded (decoding throws on malformed text), libp2p::Keccak and
    Secp256k1ProviderImpl *)
Class EnrLibraries := {
  base64_encode : bytes → bytes;
  base64_decode : bytes → result bytes;
  keccak : bytes → bytes;
  signCompact : bytes → bytes → result bytes;
  verifyCompact : bytes → bytes → bytes → result bool;
}.

(** store_big_u32 *)
Definition makeIp (i : N) : bytes := EncodeBuffer.be_bytes 4 i.

Definition isAggregator (enr : Enr) : bool := bool_decide (enr_is_aggregator_optional enr = Some true).

(** encodeContent; value() throws on an empty optional. *)
Definition encodeContent (enr : Enr) (rlp : bytes) : result bytes :=
  let rlp := Encoder.uint (enr_sequence enr) rlp in
  let rlp := Encoder.str (str2byte "id") rlp in
  let rlp := Encoder.str (str2byte "v4") rlp in
  let rlp := Encoder.str (str2byte "ip") rlp in
  ip ← of_option BadOptionalAccess (enr_ip enr);
  let rlp := Encoder.bytes_ ip rlp in
  let rlp := match enr_is_aggregator_optional enr with
             | Some b => Encoder.writeBool b (Encoder.str (str2byte "is_aggregator") rlp)
             | None => rlp
             end in
  let rlp := Encoder.str (str2byte "quic") rlp in
  port ← of_option BadOptionalAccess (enr_port enr);
  let rlp := Encoder.uint port rlp in
  let rlp := Encoder.str (str2byte "secp256k1") rlp in
  Ok (Encoder.bytes_ (enr_public_key enr) rlp).

Definition signable (enr : Enr) : result bytes :=
  content ← encodeContent enr [];
  Ok (Encoder.list content).

(** A decoding step on the input alone. *)
Definition decode_all {A} (m : SM bytes error A) (input : bytes) : result A := (m input).1.

(** The value of a key, decoded with [m] when the key is there. *)
Definition optional_key {A : Type} (kv : gmap bytes bytes) (key : string) (m : SM bytes error A) : result (option A) :=
  match kv !! str2byte key with
  | Some value => x ← decode_all m value; Ok (Some x)
  | None => Ok None
  end.
Definition required_key {A : Type} (kv : gmap bytes bytes) (key : string) (m : SM bytes error A) : result A :=
  match kv !! str2byte key with
  | Some value => decode_all m value
  | None => Err (E_Rlp KEY_NOT_FOUND)
  end.

Section enr.
Context `{EnrLibraries}.

(** The part of decode after the list is opened; the second result is [signable]. *)
Definition decode_record (input : bytes) : result (Enr * bytes) :=
  let '(signature, rest) := Decoder.bytes_n 64 input in
  signature ← signature;
  let signable := EncodeList (lengthN rest) ++ rest in
  let '(sequence, rest) := Decoder.uint 64 rest in
  sequence ← sequence;
  kv ← decode_all Decoder.keyValue rest;
  id ← required_key kv "id" Decoder.str;
  if negb (bool_decide (id = str2byte "v4")) then Err (E_Enr INVALID_ID)
  else
    ip ← optional_key kv "ip" (Decoder.bytes_n 4);
    public_key ← required_key kv "secp256k1" (Decoder.bytes_n 33);
    port ← optional_key kv "quic" (Decoder.uint 16);
    is_aggregator ← optional_key kv "is_aggregator" Decoder.readBool;
    Ok (mkEnr signature sequence public_key ip port is_aggregator, signable).

Definition decode (str : bytes) : result Enr :=
  if negb (bool_decide (take 4 str = str2byte "enr:")) then Err (E_Enr INVALID_PREFIX)
  else
    rlp_bytes ← base64_decode (drop 4 str);
    rlp ← decode_all Decoder.list rlp_bytes;
    r ← decode_record rlp;
    let '(enr, signable) := r in
    valid_signature ← verifyCompact (keccak signable) (enr_signature enr) (enr_public_key enr);
    if negb valid_signature then Err (E_Enr SIGNATURE_VERIFICATION_FAILED)
    else Ok enr.

(** ByteArr<N>::fromSpan *)
Definition fromSpan (n : N) (data : bytes) : result bytes :=
  if lengthN data =? n then Ok data else Err (E_Library INVALID_KEY).

(** value() of a failed result throws. *)
Definition value_of {A} (r : result A) : result A :=
  match r with Err _ => Throw SystemError | _ => r end.

Definition encode (keypair : KeyPair) (ip : bytes) (port : N) (is_aggregator : option bool) : result bytes :=
  if negb (kp_private_secp256k1 keypair) then Err (E_Enr EXPECTED_SECP256K1_KEYPAIR)
  else if negb (kp_public_secp256k1 keypair) then Err (E_Enr EXPECTED_SECP256K1_KEYPAIR)
  else
    private_key ← fromSpan 32 (kp_private_key keypair);
    public_key ← fromSpan 33 (kp_public_key keypair);
    let enr signature := mkEnr signature 1 public_key (Some ip) (Some port) is_aggregator in
    to_sign ← signable (enr (replicate 64 0));
    signature ← value_of (signCompact (keccak to_sign) private_key);
    content ← encodeContent (enr signature) (Encoder.bytes_ signature []);
    Ok (str2byte "enr:" ++ base64_encode (Encoder.list content)).
End enr.
