(* ===== verification/EnrTheorems.v ===== *)
(** * Ethereum node records: the theorems *)

From Stdlib Require Import Ascii String.
From S2P Require Import Prelude Errors Rlp RlpProofs Enr.

(** What the record relies on: base64 can be read back, a signature made with a private
    key is 64 bytes and verifies under the matching public key. *)
Class EnrLaws `{EnrLibraries} := {
  matching : bytes → bytes → Prop;
  base64_roundtrip b : Forall is_byte b → base64_decode (base64_encode b) = Ok b;
  sign_verify sk pk h : matching sk pk →
    ∃ sig, signCompact h sk = Ok sig ∧ lengthN sig = 64 ∧ Forall is_byte sig ∧ verifyCompact h sig pk = Ok true;
}.

(** ** Sizes and bytes of encoded items *)
Lemma bytesInternal_byte base n : Forall is_byte (EncodeBuffer.bytesInternal base n).
Proof.
  unfold EncodeBuffer.bytesInternal, EncodeBuffer.uint.
  destruct (_ <=? _); (constructor; [by apply N.mod_lt|]); [constructor|apply be_bytes_byte].
Qed.
Lemma EncodeBytes_byte b : Forall is_byte b → Forall is_byte (EncodeBytes b).
Proof.
  intros Hb. unfold EncodeBytes. destruct b as [|x [|]]; try apply bytesInternal_byte.
  destruct (_ <? _); [done|apply bytesInternal_byte].
Qed.
Lemma item_byte b : Forall is_byte b → Forall is_byte (item b).
Proof.
  intros Hb. unfold item, Encoder.bytes_. pose proof (EncodeBytes_byte b Hb).
  destruct (EncodeBuffer.is_short _); cbn [app]; [done|]. by apply Forall_app.
Qed.
Lemma bytesInternal_length base n : n < two64 → lengthN (EncodeBuffer.bytesInternal base n) ≤ 9.
Proof.
  intros Hn. unfold EncodeBuffer.bytesInternal, EncodeBuffer.uint. destruct (_ <=? _); [by vm_compute|].
  destruct (uint_bytes n Hn) as [Hl _]. set (k := 8 - countl_zero n / 8) in *.
  replace (lengthN (_ :: _)) with (1 + lengthN (EncodeBuffer.be_bytes k n)) by (unfold lengthN; cbn [length]; lia).
  rewrite length_be_bytes. lia.
Qed.
Lemma item_length b : lengthN b < two64 → lengthN (item b) ≤ 9 + lengthN b.
Proof.
  intros Hb. pose proof (bytesInternal_length kBytesPrefix1 (lengthN b) Hb) as Hl.
  assert (He : lengthN (EncodeBytes b) ≤ 9).
  { unfold EncodeBytes. destruct b as [|x [|]]; try done. destruct (_ <? _); [by vm_compute|done]. }
  unfold item, Encoder.bytes_. destruct (EncodeBuffer.is_short _); cbn [app]; rewrite ?lengthN_app; lia.
Qed.

Lemma item_small b : Forall is_byte b → lengthN b ≤ 64 → small b.
Proof. intros Hb Hl. split; [done|]. eapply N.le_lt_trans; [exact Hl|by vm_compute]. Qed.

(** ** The content as a list of keys and values *)

(** The first value of a key. *)
Fixpoint first_value (k : bytes) (l : list (bytes * bytes)) : option bytes :=
  match l with
  | [] => None
  | (k', v) :: l => if decide (k' = k) then Some v else first_value k l
  end.

Lemma emplaced_lookup k (l : list (bytes * bytes)) kv :
  foldl emplace_value kv l !! k = match kv !! k with Some v => Some v | None => item <$> first_value k l end.
Proof.
  revert kv. induction l as [|[k' v] l IH]; intros kv; cbn [foldl first_value]; [by destruct (kv !! k)|].
  rewrite IH. unfold emplace_value. cbn [fst snd]. case_decide as Hk.
  - subst k'. destruct (kv !! k) eqn:Hkv; [by rewrite Hkv|]. by rewrite lookup_insert_eq.
  - destruct (kv !! k'); [done|]. by rewrite lookup_insert_ne.
Qed.

(** The value of is_aggregator, if any. *)
Definition agg_pair (agg : option bool) (b : bytes) : list (bytes * bytes) :=
  match agg with Some _ => [(str2byte "is_aggregator", b)] | None => [] end.

Definition content_pairs (ip portb pk aggb : bytes) (agg : option bool) : list (bytes * bytes) :=
  [(str2byte "id", str2byte "v4"); (str2byte "ip", ip)] ++ agg_pair agg aggb ++
  [(str2byte "quic", portb); (str2byte "secp256k1", pk)].

Definition flatten (l : list (bytes * bytes)) : bytes := concat ((λ e, item e.1 ++ item e.2) <$> l).

Lemma encodeContent_pairs sig seq pk ip port agg portb aggb out :
  EncodeUint port = item portb → (∀ b : bool, agg = Some b → EncodeUint (if b then 1 else 0) = item aggb) →
  encodeContent (mkEnr sig seq pk (Some ip) (Some port) agg) out
  = Ok (out ++ EncodeUint seq ++ flatten (content_pairs ip portb pk aggb agg)).
Proof.
  intros Hport Hagg. unfold encodeContent, Encoder.str, Encoder.writeBool, Encoder.uint.
  cbn [enr_sequence enr_ip enr_is_aggregator_optional enr_port enr_public_key of_option mbind outcome_bind].
  f_equal. rewrite !enc_bytes_item, Hport. unfold flatten, content_pairs.
  destruct agg as [b|]; cbn [agg_pair app fmap list_fmap concat fst snd];
    rewrite ?enc_bytes_item, ?(Hagg _ eq_refl), ?app_nil_r, <- ?app_assoc; done.
Qed.

(** Short byte strings. *)
Definition short (b : bytes) : Prop := Forall is_byte b ∧ lengthN b ≤ 64.
#[local] Instance short_dec b : Decision (short b).
Proof. apply and_dec; apply _. Defined.

Lemma short_small b : short b → small b.
Proof. intros [Hb Hl]. by apply item_small. Qed.

Lemma flatten_bound (l : list (bytes * bytes)) :
  Forall (λ e, short e.1 ∧ short e.2) l → Forall is_byte (flatten l) ∧ lengthN (flatten l) ≤ 146 * lengthN l.
Proof.
  induction 1 as [|[k v] l [[Hk1 Hk2] [Hv1 Hv2]] _ [IH1 IH2]]; [done|]. cbn [fst snd] in *.
  unfold flatten in *. rewrite fmap_cons. cbn [concat fst snd].
  assert (Hsz : ∀ b, lengthN b ≤ 64 → lengthN (item b) ≤ 73).
  { intros b Hb. etrans; [apply item_length; eapply N.le_lt_trans; [exact Hb|by vm_compute]|lia]. }
  split; [rewrite !Forall_app; split; [split|]; by try apply item_byte|].
  rewrite !lengthN_app. pose proof (Hsz k Hk2). pose proof (Hsz v Hv2).
  replace (lengthN ((k, v) :: l)) with (1 + lengthN l) by (unfold lengthN; cbn [length]; lia). lia.
Qed.

Lemma content_short ip portb pk aggb agg :
  short ip → short portb → short pk → short aggb →
  Forall (λ e, short e.1 ∧ short e.2) (content_pairs ip portb pk aggb agg).
Proof.
  intros. assert (Hs : ∀ s, bool_decide (short (str2byte s)) = true → short (str2byte s)) by (by intros s ?%bool_decide_eq_true).
  unfold content_pairs, agg_pair. destruct agg; cbn [app];
    repeat (apply Forall_cons_2; [split; cbn [fst snd]; try done; apply Hs; by vm_compute|]); apply Forall_nil_2.
Qed.

Lemma content_lookup ip portb pk aggb agg key :
  foldl emplace_value ∅ (content_pairs ip portb pk aggb agg) !! str2byte key
  = item <$> first_value (str2byte key) (content_pairs ip portb pk aggb agg).
Proof. by rewrite emplaced_lookup, lookup_empty. Qed.

(** Reading one value back. *)
Lemma decode_item {A} (m : SM bytes error A) b r : m (item b ++ []) = (r, []) → decode_all m (item b) = r.
Proof. unfold decode_all. rewrite app_nil_r. by intros ->. Qed.

Lemma str_item b : small b → decode_all Decoder.str (item b) = Ok b.
Proof. intros [Hb Hl]. apply decode_item. by apply bytes_run. Qed.
Lemma bytes_n_item n b : small b → lengthN b = n → decode_all (Decoder.bytes_n n) (item b) = Ok b.
Proof.
  intros [Hb Hl] Hn. apply decode_item. unfold Decoder.bytes_n. rewrite (sm_bind_ok _ _ _ _ _ (bytes_run b [] Hb Hl)).
  by rewrite Hn, N.eqb_refl.
Qed.
Lemma uint_item v k b : EncodeUint v = item b → v < two64 → k ≤ 8 → v < 2 ^ (8 * k) →
  decode_all (Decoder.uint (8 * k)) (item b) = Ok v.
Proof. intros Hb Hv Hk Hlt. apply decode_item. rewrite <- Hb. by apply uint_run. Qed.
Lemma bool_item (v : bool) b : EncodeUint (if v then 1 else 0) = item b → decode_all Decoder.readBool (item b) = Ok v.
Proof.
  intros Hb. apply decode_item. rewrite <- Hb. unfold Decoder.readBool.
  rewrite (sm_bind_ok _ _ _ _ _ (uint_run (if v then 1 else 0) 1 [] ltac:(by destruct v) ltac:(done) ltac:(by destruct v))).
  by destruct v.
Qed.

(** The port and the flag as items. *)
Lemma value_items port agg :
  port < 2 ^ 16 → ∃ portb aggb, short portb ∧ short aggb ∧ EncodeUint port = item portb ∧
    ∀ b : bool, agg = Some b → EncodeUint (if b then 1 else 0) = item aggb.
Proof.
  intros Hport.
  destruct (EncodeUint_item port) as (portb & Hpb & Hpb1 & Hpb2 & _); [eapply N.lt_trans; [exact Hport|by vm_compute]|].
  exists portb. destruct agg as [v|].
  - destruct (EncodeUint_item (if v then 1 else 0)) as (b & Hb & Hb1 & Hb2 & _); [by destruct v|].
    exists b. split; [split; [done|lia]|]. split; [split; [done|lia]|]. split; [done|]. by intros ? [= <-].
  - exists []. split; [split; [done|lia]|]. by split; [vm_compute|].
Qed.

(** The record read from what encodeContent wrote. *)
Lemma decode_record_run sig pk ip port agg content :
  lengthN sig = 64 → Forall is_byte sig → lengthN pk = 33 → Forall is_byte pk →
  lengthN ip = 4 → Forall is_byte ip → port < 2 ^ 16 →
  encodeContent (mkEnr sig 1 pk (Some ip) (Some port) agg) [] = Ok content →
  decode_record (item sig ++ content) = Ok (mkEnr sig 1 pk (Some ip) (Some port) agg, Encoder.list content) ∧
  Forall is_byte content ∧ lengthN content ≤ 1024.
Proof.
  intros Hs1 Hs2 Hp1 Hp2 Hi1 Hi2 Hport Hc.
  assert (Hport64 : port < two64) by (eapply N.lt_trans; [exact Hport|by vm_compute]).
  destruct (value_items port agg Hport) as (portb & aggb & [Hpb1 Hpb2] & Hab & Hpb & Hagg).
  rewrite (encodeContent_pairs sig 1 pk ip port agg portb aggb [] Hpb Hagg), app_nil_l in Hc.
  assert (Hcc : content = EncodeUint 1 ++ flatten (content_pairs ip portb pk aggb agg)) by congruence.
  clear Hc. subst content.
  set (pairs := content_pairs ip portb pk aggb agg).
  assert (Hpairs : Forall (λ e, short e.1 ∧ short e.2) pairs).
  { apply content_short; [split; [done|lia]..|done]. }
  destruct (flatten_bound pairs Hpairs) as [Hfb Hfl].
  assert (Hseq : EncodeUint 1 = [1]) by done. split.
  - unfold decode_record.
    assert (Hsig : Decoder.bytes_n 64 (item sig ++ EncodeUint 1 ++ flatten pairs) = (Ok sig, EncodeUint 1 ++ flatten pairs)).
    { unfold Decoder.bytes_n. rewrite (sm_bind_ok _ _ _ _ _ (bytes_run sig _ Hs2 ltac:(by rewrite Hs1))).
      by rewrite Hs1. }
    rewrite Hsig. cbn [mbind outcome_bind].
    change 64 with (8 * 8) at 1. rewrite (uint_run 1 8 (flatten pairs)) by done. cbn [mbind outcome_bind].
    assert (Hkv : decode_all Decoder.keyValue (flatten pairs) = Ok (foldl emplace_value ∅ pairs)).
    { unfold decode_all, Decoder.keyValue, flatten. rewrite key_value_run; [done| |].
      - clear -Hpairs. induction Hpairs as [|[k v] l [Hk _] _ IH]; [done|]. rewrite fmap_cons. cbn [concat length fst snd].
        destruct (item_front k) as (x & pre & Hi & _); [by apply short_small|]. rewrite !length_app, Hi. cbn [length]. lia.
      - eapply Forall_impl; [exact Hpairs|]. intros e [? ?]. by split; apply short_small. }
    rewrite Hkv. cbn [mbind outcome_bind].
    assert (Hid : first_value (str2byte "id") pairs = Some (str2byte "v4")) by done.
    assert (Hip : first_value (str2byte "ip") pairs = Some ip) by done.
    assert (Hquic : first_value (str2byte "quic") pairs = Some portb) by (by destruct agg).
    assert (Hpk : first_value (str2byte "secp256k1") pairs = Some pk) by (by destruct agg).
    assert (Hag : first_value (str2byte "is_aggregator") pairs = ((λ _, aggb) <$> agg)) by (by destruct agg).
    assert (Hl : ∀ key, foldl emplace_value ∅ pairs !! str2byte key = item <$> first_value (str2byte key) pairs)
      by (intros; apply content_lookup).
    unfold required_key, optional_key. rewrite !Hl, Hid, Hip, Hquic, Hpk, Hag.
    cbn [fmap option_fmap option_map].
    assert (Hv4 : small (str2byte "v4")) by (apply short_small, (proj1 (bool_decide_eq_true _)); by vm_compute).
    rewrite (str_item _ Hv4).
    cbn [mbind outcome_bind]. rewrite bool_decide_true by done. cbn [negb].
    rewrite (bytes_n_item 4 ip) by (try done; by apply item_small; [|lia]). cbn [mbind outcome_bind].
    rewrite (bytes_n_item 33 pk) by (try done; by apply item_small; [|lia]). cbn [mbind outcome_bind].
    change 16 with (8 * 2). rewrite (uint_item port 2 portb) by done. cbn [mbind outcome_bind].
    destruct agg as [v|]; cbn [fmap option_fmap option_map mbind outcome_bind]; [|done].
    by rewrite (bool_item v aggb) by (by apply Hagg).
  - rewrite Hseq. split; [by apply Forall_app; split; [repeat constructor|]|].
    rewrite lengthN_app. assert (lengthN pairs ≤ 5) by (unfold pairs; by destruct agg). change (lengthN [1]) with 1. lia.
Qed.

(** ** No exception *)
Lemma bind_no_throw {A B} (m : result A) (f : A → result B) x :
  m ≠ Throw x → (∀ a, m = Ok a → f a ≠ Throw x) → (m ≫= f) ≠ Throw x.
Proof. destruct m as [a|e|y]; cbn; [|done|congruence]. intros _ Hf. by apply Hf. Qed.

Lemma consumes_no_throw {A} k (m : SM bytes error A) input x : consumes k m input → decode_all m input ≠ Throw x.
Proof. unfold consumes, decode_all. by destruct (m input) as [[] ?]. Qed.

Lemma required_no_throw {A} k (m : SM bytes error A) kv key x :
  (∀ input, consumes k m input) → required_key kv key m ≠ Throw x.
Proof. intros Hm. unfold required_key. destruct (kv !! _); [by eapply consumes_no_throw|done]. Qed.
Lemma optional_no_throw {A} k (m : SM bytes error A) kv key x :
  (∀ input, consumes k m input) → optional_key kv key m ≠ Throw x.
Proof.
  intros Hm. unfold optional_key. destruct (kv !! _); [|done].
  apply bind_no_throw; [by eapply consumes_no_throw|done].
Qed.

Lemma decode_record_no_throw input x : decode_record input ≠ Throw x.
Proof.
  unfold decode_record. pose proof (bytes_n_consumes 64 input) as H1. unfold consumes in H1.
  destruct (Decoder.bytes_n 64 input) as [[sig|e|y] rest]; [|done|done]. cbn [mbind outcome_bind].
  pose proof (uint_consumes 64 rest) as H2. unfold consumes in H2.
  destruct (Decoder.uint 64 rest) as [[sq|e|y] rest']; [|done|done]. cbn [mbind outcome_bind].
  apply bind_no_throw; [eapply consumes_no_throw; by apply key_value_consumes|]. intros kv _.
  apply bind_no_throw; [eapply required_no_throw, bytes_consumes|]. intros id _. destruct (negb _); [done|].
  apply bind_no_throw; [eapply optional_no_throw, bytes_n_consumes|]. intros ip _.
  apply bind_no_throw; [eapply required_no_throw, bytes_n_consumes|]. intros pk _.
  apply bind_no_throw; [eapply optional_no_throw, uint_consumes|]. intros port _.
  apply bind_no_throw; [eapply optional_no_throw, readBool_consumes|]. done.
Qed.

Lemma decode_record_signature input enr to_sign :
  decode_record input = Ok (enr, to_sign) →
  ∃ rest, Decoder.bytes_n 64 input = (Ok (enr_signature enr), rest) ∧ to_sign = EncodeList (lengthN rest) ++ rest.
Proof.
  unfold decode_record. destruct (Decoder.bytes_n 64 input) as [[sig|e|y] rest]; [|done|done]. cbn [mbind outcome_bind].
  destruct (Decoder.uint 64 rest) as [sq rest']. intros (sq' & _ & Hd)%outcome_bind_ok.
  apply outcome_bind_ok in Hd as (kv & _ & Hd). apply outcome_bind_ok in Hd as (id & _ & Hd).
  destruct (negb _); [done|]. apply outcome_bind_ok in Hd as (ip & _ & Hd). apply outcome_bind_ok in Hd as (pk & _ & Hd).
  apply outcome_bind_ok in Hd as (port & _ & Hd). apply outcome_bind_ok in Hd as (agg & _ & Hd).
  injection Hd as <- <-. by exists rest.
Qed.

Section theorems.
Context `{EnrLibraries}.

(** A record that is encoded decodes to its fields. *)
Lemma encode_decode `{!EnrLaws} sk pk ip port agg :
  matching sk pk → lengthN sk = 32 → lengthN pk = 33 → Forall is_byte pk →
  lengthN ip = 4 → Forall is_byte ip → port < 2 ^ 16 →
  ∃ str sig, encode (mkKeyPair true sk true pk) ip port agg = Ok str ∧
    decode str = Ok (mkEnr sig 1 pk (Some ip) (Some port) agg).
Proof.
  intros Hm Hsk Hpk Hpkb Hip Hipb Hport.
  assert (Hcontent : ∃ content, ∀ sig out, encodeContent (mkEnr sig 1 pk (Some ip) (Some port) agg) out = Ok (out ++ content)).
  { destruct (value_items port agg Hport) as (portb & aggb & _ & _ & Hpb & Hagg).
    exists (EncodeUint 1 ++ flatten (content_pairs ip portb pk aggb agg)). intros. by apply encodeContent_pairs. }
  destruct Hcontent as [content Hcontent].
  destruct (sign_verify sk pk (keccak (Encoder.list content)) Hm) as (sig & Hsign & Hs1 & Hs2 & Hverify).
  destruct (decode_record_run sig pk ip port agg content Hs1 Hs2 Hpk Hpkb Hip Hipb Hport (Hcontent sig []))
    as (Hrec & Hcb & Hcl).
  assert (Hlen : lengthN (item sig ++ content) ≤ 2048).
  { rewrite lengthN_app. pose proof (item_length sig ltac:(by rewrite Hs1)). lia. }
  exists (str2byte "enr:" ++ base64_encode (Encoder.list (item sig ++ content))), sig. split.
  - unfold encode, fromSpan, signable. cbn [kp_private_secp256k1 kp_private_key kp_public_secp256k1 kp_public_key negb].
    rewrite Hsk, Hpk, !N.eqb_refl. cbn [mbind outcome_bind]. rewrite Hcontent, app_nil_l. cbn [mbind outcome_bind].
    rewrite Hsign. cbn [value_of mbind outcome_bind]. rewrite Hcontent. done.
  - unfold decode. rewrite bool_decide_true by done. cbn [negb].
    change (drop 4 (str2byte "enr:" ++ ?x)) with x.
    rewrite base64_roundtrip.
    2: { unfold Encoder.list, EncodeList. rewrite !Forall_app. split; [apply bytesInternal_byte|].
         split; [by apply item_byte|done]. }
    cbn [mbind outcome_bind]. unfold decode_all at 1.
    rewrite <- (app_nil_r (Encoder.list _)), list_run by (eapply N.le_lt_trans; [exact Hlen|by vm_compute]).
    cbn [fst mbind outcome_bind]. rewrite Hrec. cbn [mbind outcome_bind enr_signature enr_public_key].
    by rewrite Hverify.
Qed.

(** C35: encoding a node record with a secp256k1 key pair succeeds, and decoding the text
    gives back the record: sequence 1, the public key, the address, the port and the
    aggregator flag. *)
Theorem enr_roundtrip `{!EnrLaws} sk pk ip port agg :
  matching sk pk → lengthN sk = 32 → lengthN pk = 33 → Forall is_byte pk →
  lengthN ip = 4 → Forall is_byte ip → port < 2 ^ 16 →
  ∃ str sig, encode (mkKeyPair true sk true pk) ip port agg = Ok str ∧
    decode str = Ok (mkEnr sig 1 pk (Some ip) (Some port) agg).
Proof. apply encode_decode. Qed.

(** Decoding any text gives a record or an error, never undefined behaviour, and ends;
    only base64 can throw.  A decoded record carries a signature that verifies, under the
    record's own public key, over the list of the bytes that follow it. *)
Theorem enr_decode_safe str :
  (∀ x, base64_decode (drop 4 str) ≠ Throw x) →
  (∀ h sig pk x, verifyCompact h sig pk ≠ Throw x) →
  (∀ x, decode str ≠ Throw x) ∧
  ∀ enr, decode str = Ok enr →
    ∃ raw rlp rest, base64_decode (drop 4 str) = Ok raw ∧ decode_all Decoder.list raw = Ok rlp ∧
      Decoder.bytes_n 64 rlp = (Ok (enr_signature enr), rest) ∧
      decode_record rlp = Ok (enr, EncodeList (lengthN rest) ++ rest) ∧
      verifyCompact (keccak (EncodeList (lengthN rest) ++ rest)) (enr_signature enr) (enr_public_key enr) = Ok true.
Proof.
  intros Hb64 Hver. split.
  - intros x. unfold decode. destruct (negb _); [done|]. apply bind_no_throw; [apply Hb64|]. intros raw _.
    apply bind_no_throw; [eapply consumes_no_throw, list_consumes|]. intros rlp _.
    apply bind_no_throw; [apply decode_record_no_throw|]. intros [enr to_sign] _.
    apply bind_no_throw; [apply Hver|]. intros [] _; done.
  - intros enr. unfold decode. destruct (negb _); [done|].
    intros (raw & Hraw & Hd)%outcome_bind_ok. apply outcome_bind_ok in Hd as (rlp & Hrlp & Hd).
    apply outcome_bind_ok in Hd as ([enr' to_sign] & Hrec & Hd). apply outcome_bind_ok in Hd as ([] & Hv & Hd); [|done].
    injection Hd as ->. destruct (decode_record_signature _ _ _ Hrec) as (rest & Hsig & ->).
    by exists raw, rlp, rest.
Qed.
End theorems.

(** ** A record under toy libraries: base64 as the identity, a signature that repeats the key *)
Module EnrEx.
#[local] Instance ToyLibraries : EnrLibraries := {|
  base64_encode b := b;
  base64_decode b := Ok b;
  keccak b := b;
  signCompact _ sk := Ok (sk ++ sk);
  verifyCompact _ sig pk := Ok (bool_decide (sig = drop 1 pk ++ drop 1 pk));
|}.

#[local] Instance ToyLaws : EnrLaws.
Proof.
  refine {| matching sk pk := pk = 2 :: sk ∧ lengthN sk = 32 ∧ Forall is_byte sk |}.
  - done.
  - intros sk pk h (-> & Hl & Hb). exists (sk ++ sk). cbn. rewrite lengthN_app, Hl. split_and!; try done.
    + by apply Forall_app.
    + by rewrite drop_0, bool_decide_true.
Defined.

Lemma enr_roundtrip_witness :
  ∃ str sig, encode (mkKeyPair true (replicate 32 7) true (2 :: replicate 32 7)) [127; 0; 0; 1] 9000 (Some true) = Ok str ∧
    decode str = Ok (mkEnr sig 1 (2 :: replicate 32 7) (Some [127; 0; 0; 1]) (Some 9000) (Some true)).
Proof.
  apply (enr_roundtrip (replicate 32 7) (2 :: replicate 32 7) [127; 0; 0; 1] 9000 (Some true)); try (by vm_compute).
  - split; [done|]. split; [done|]. by apply (bool_decide_unpack _); vm_compute.
  - by apply (bool_decide_unpack _); vm_compute.
  - by apply (bool_decide_unpack _); vm_compute.
Defined.

Lemma enr_decode_safe_witness : decode (str2byte "enr:" ++ [200; 1; 2; 3]) ≠ Throw UndefinedBehaviour.
Proof. refine (proj1 (enr_decode_safe (str2byte "enr:" ++ [200; 1; 2; 3]) _ _) UndefinedBehaviour); done. Defined.
End EnrEx.
