(* ===== verification/Snappy.v ===== *)
(** * Snappy framing (src/src/serde/snappy.hpp)

    Messages on the wire are framed: a stream identifier, then chunks of at most 64 KiB,
    each compressed and with a checksum.  Snappy itself and CRC-32C are libraries. *)

From S2P Require Import Prelude Errors Rlp.

(** snappy::Compress, GetUncompressedLength, Uncompress; crc32c::Crc32c *)
Class SnappyLibrary := {
  Compress : bytes → bytes;
  GetUncompressedLength : bytes → option N;
  Uncompress : bytes → option bytes;
  Crc32c : bytes → N;
}.

Definition kHeaderSize : N := 4.
Definition kMaxBlockSize : N := N.shiftl 1 16.
Definition kDefaultMaxSize : N := N.shiftl 4 20.
(** sNaPpY *)
Definition kStreamIdentifier : bytes := [115; 78; 97; 80; 112; 89].

(** ChunkType; an enum over a uint8_t, so any byte is a value. *)
Definition ChunkType_Stream : N := 255.
Definition ChunkType_Compressed : N := 0.
Definition ChunkType_Uncompressed : N := 1.
Definition ChunkType_Padding : N := 254.

(** store_little_u24, store_little_u32, load_little_u24 *)
Definition store_little (n v : N) : bytes := (λ i, N.shiftr v (8 * i) mod 256) <$> seqN 0 n.
Fixpoint load_little (b : bytes) : N :=
  match b with
  | [] => 0
  | x :: b => N.lor x (N.shiftl (load_little b) 8)
  end.

Section snappy.
Context `{SnappyLibrary}.

Definition compress (input : bytes) : bytes := Compress input.

Definition uncompress (compressed : bytes) (max_size : N) : result bytes :=
  match GetUncompressedLength compressed with
  | None => Err (E_Snappy UNCOMPRESS_INVALID)
  | Some size =>
      if max_size <? size then Err (E_Snappy UNCOMPRESS_TOO_LONG)
      else
        match Uncompress compressed with
        | None => Err (E_Snappy UNCOMPRESS_INVALID)
        | Some uncompressed => Ok uncompressed
        end
  end.

(** hashCrc32; v is a uint32_t *)
Definition hashCrc32 (input : bytes) : bytes :=
  let v := Crc32c input in
  let v := (N.lor (N.shiftr v 15) (N.shiftl v 17 mod 2 ^ 32) + 2726488792) mod 2 ^ 32 in
  store_little 4 v.

Definition write_header (type size : N) (framed : bytes) : bytes :=
  framed ++ [type] ++ store_little 3 size.

(** The loop of compressFramed; every turn takes at least one byte. *)
Fixpoint compress_chunks (fuel : nat) (input framed : bytes) : result bytes :=
  match input with
  | [] => Ok framed
  | _ =>
      match fuel with
      | O => Throw OutOfFuel
      | S fuel =>
          let n := N.to_nat (N.min (lengthN input) kMaxBlockSize) in
          let chunk := take n input in
          let crc := hashCrc32 chunk in
          let compressed := compress chunk in
          compress_chunks fuel (drop n input)
            (write_header ChunkType_Compressed (4 + lengthN compressed) framed ++ crc ++ compressed)
      end
  end.

Definition compressFramed (input : bytes) : result bytes :=
  compress_chunks (length input) input
    (write_header ChunkType_Stream (lengthN kStreamIdentifier) [] ++ kStreamIdentifier).

Definition chunkNeedBytes (input : bytes) : option N :=
  if lengthN input <? kHeaderSize then None
  else Some (kHeaderSize + load_little (take 3 (drop 1 input))).

(** libp2p::saturating_sub is the subtraction of [N]. *)

(** The content of one chunk; [None] for a chunk without data.  first and subspan of a
    content shorter than the checksum are undefined. *)
Definition read_chunk (type : N) (content : bytes) (max_size : N) : result (option bytes) :=
  if type =? ChunkType_Stream then
    if bool_decide (content = kStreamIdentifier) then Ok None
    else Err (E_Snappy UNCOMPRESS_UNKNOWN_IDENTIFIER)
  else if (type =? ChunkType_Compressed) || (type =? ChunkType_Uncompressed) then
    if lengthN content <? 4 then Throw UndefinedBehaviour
    else
      let expected_crc := take 4 content in
      let uncompressed := drop 4 content in
      uncompressed ← (if type =? ChunkType_Compressed then uncompress uncompressed max_size
                      else Ok uncompressed);
      if negb (bool_decide (hashCrc32 uncompressed = expected_crc))
      then Err (E_Snappy UNCOMPRESS_CRC_MISMATCH)
      else Ok (Some uncompressed)
  else if type =? ChunkType_Padding then Ok None
  else Err (E_Snappy UNCOMPRESS_UNKNOWN_TYPE).

(** The loop of uncompressFramed; every turn takes a header at least. *)
Fixpoint uncompress_chunks (fuel : nat) (compressed : bytes) (max_size : N) (res : bytes) : result bytes :=
  match compressed with
  | [] => Ok res
  | type :: _ =>
      match fuel with
      | O => Throw OutOfFuel
      | S fuel =>
          match chunkNeedBytes compressed with
          | None => Err (E_Snappy UNCOMPRESS_TRUNCATED)
          | Some need =>
              if lengthN compressed <? need then Err (E_Snappy UNCOMPRESS_TRUNCATED)
              else
                let size := load_little (take 3 (drop 1 compressed)) in
                let content := take (N.to_nat size) (drop 4 compressed) in
                chunk ← read_chunk type content (max_size - lengthN res);
                uncompress_chunks fuel (drop (N.to_nat (kHeaderSize + size)) compressed) max_size
                  (match chunk with Some b => res ++ b | None => res end)
          end
      end
  end.

Definition uncompressFramed (compressed : bytes) (max_size : N) : result bytes :=
  uncompress_chunks (length compressed) compressed max_size [].

(** ** Streams *)

(** libp2p::read of [n] bytes from a stream, here the bytes that are still to come. *)
Definition read (n : N) : SM bytes error bytes := λ stream,
  if lengthN stream <? n then (Err (E_Library STREAM_READ_ERROR), stream)
  else (Ok (take (N.to_nat n) stream), drop (N.to_nat n) stream).

(** The loop of coUncompressFramed; every turn reads a header at least. *)
Fixpoint co_chunks (fuel : nat) (size : N) (res : bytes) : SM bytes error bytes :=
  if size <=? lengthN res then mret res
  else
    match fuel with
    | O => sm_throw OutOfFuel
    | S fuel =>
        chunk ← read kHeaderSize;
        need ← sm_lift (of_option BadOptionalAccess (chunkNeedBytes chunk));
        content ← read (need - kHeaderSize);
        uncompressed ← sm_lift (uncompressFramed (chunk ++ content) (size - lengthN res));
        co_chunks fuel size (res ++ uncompressed)
    end.

(** coUncompressFramed, after libp2p::readVarint has read the size. *)
Definition coUncompressFramed (size max_size : N) : SM bytes error bytes :=
  if max_size <? size then sm_err (E_Snappy UNCOMPRESS_TOO_LONG)
  else λ stream, co_chunks (S (length stream)) size [] stream.

(** coCompressFramed: the size to write as a varint and the bytes after it. *)
Definition coCompressFramed (message : bytes) : result (N * bytes) :=
  compressed ← compressFramed message;
  Ok (lengthN message, compressed).
End snappy.
