(* ===== verification/SnappyTheorems.v ===== *)
(** * Snappy framing: round trips, termination and bounds *)

From S2P Require Import Prelude Errors Rlp RlpProofs Snappy.

(** The documented behaviour of the library: compression can be undone, the stored length
    is the length of the data, and compressed data is at most MaxCompressedLength long. *)
Class SnappyLaws `{SnappyLibrary} := {
  compressed_length x : GetUncompressedLength (Compress x) = Some (lengthN x);
  uncompress_compress x : Uncompress (Compress x) = Some x;
  max_compressed_length x : lengthN (Compress x) ≤ 32 + lengthN x + lengthN x / 6;
  uncompressed_length c n x : GetUncompressedLength c = Some n → Uncompress c = Some x → lengthN x = n;
}.

(** ** Little-endian integers *)
Lemma store_little_S n v : store_little (N.succ n) v = v mod 256 :: store_little n (v / 256).
Proof.
  unfold store_little, seqN. rewrite Nnat.N2Nat.inj_succ. cbn [seq]. rewrite !fmap_cons.
  f_equal. rewrite <- fmap_S_seq, <- !list_fmap_compose. apply list_fmap_ext.
  intros i x _. cbn. rewrite !N.shiftr_div_pow2. change 256 with (2 ^ 8) at 2. rewrite N.Div0.div_div, <- N.pow_add_r.
  do 3 f_equal. lia.
Qed.
Lemma length_store_little n v : lengthN (store_little n v) = n.
Proof. unfold lengthN, store_little. rewrite length_fmap. apply length_seqN. Qed.
Lemma load_store_little n v : v < 256 ^ n → load_little (store_little n v) = v.
Proof.
  revert v. induction n as [|n IH] using N.peano_ind; intros v Hv.
  { cbn in Hv. assert (v = 0) as -> by lia. done. }
  rewrite store_little_S. cbn [load_little]. rewrite N.pow_succ_r' in Hv.
  rewrite IH by (apply N.Div0.div_lt_upper_bound; lia).
  rewrite N.lor_comm, lor_byte by (by apply N.mod_lt). pose proof (N.div_mod v 256 ltac:(lia)). lia.
Qed.

Section proofs.
Context `{SnappyLibrary}.

Lemma length_hashCrc32 b : lengthN (hashCrc32 b) = 4.
Proof. apply length_store_little. Qed.

(** The bytes of a chunk. *)
Definition chunk (type : N) (content : bytes) : bytes := [type] ++ store_little 3 (lengthN content) ++ content.

Lemma length_chunk type content : lengthN (chunk type content) = 4 + lengthN content.
Proof.
  unfold chunk. rewrite !lengthN_app, length_store_little. change (lengthN [type]) with 1. lia.
Qed.

Lemma take_lengthN {A} (l k : list A) n : n = lengthN l → take (N.to_nat n) (l ++ k) = l.
Proof. intros ->. unfold lengthN. by rewrite Nnat.Nat2N.id, take_app_length. Qed.
Lemma drop_lengthN {A} (l k : list A) n : n = lengthN l → drop (N.to_nat n) (l ++ k) = k.
Proof. intros ->. unfold lengthN. by rewrite Nnat.Nat2N.id, drop_app_length. Qed.

Lemma chunk_size type content rest :
  lengthN content < 2 ^ 24 → load_little (take 3 (drop 1 (chunk type content ++ rest))) = lengthN content.
Proof.
  intros Hl. unfold chunk. cbn [app drop]. rewrite drop_0, <- app_assoc.
  change 3%nat with (N.to_nat 3). rewrite take_lengthN by (by rewrite length_store_little). by apply load_store_little.
Qed.

Lemma chunk_need type content rest :
  lengthN content < 2 ^ 24 → chunkNeedBytes (chunk type content ++ rest) = Some (kHeaderSize + lengthN content).
Proof.
  intros Hl. unfold chunkNeedBytes. rewrite chunk_size by done.
  rewrite (proj2 (N.ltb_ge _ _)); [done|]. rewrite lengthN_app, length_chunk. unfold kHeaderSize. lia.
Qed.

(** One turn of uncompressFramed on a well-formed chunk. *)
Lemma uncompress_turn fuel type content rest max_size res :
  lengthN content < 2 ^ 24 →
  uncompress_chunks (S fuel) (chunk type content ++ rest) max_size res
  = (c ← read_chunk type content (max_size - lengthN res);
     uncompress_chunks fuel rest max_size (match c with Some b => res ++ b | None => res end)).
Proof.
  intros Hl. cbn [uncompress_chunks]. change (chunk type content ++ rest) with (type :: (store_little 3 (lengthN content) ++ content) ++ rest) at 1.
  cbv iota beta. rewrite chunk_need, chunk_size by done.
  rewrite (proj2 (N.ltb_ge _ _)) by (rewrite lengthN_app, length_chunk; unfold kHeaderSize; lia).
  assert (Hc : take (N.to_nat (lengthN content)) (drop 4 (chunk type content ++ rest)) = content).
  { unfold chunk. rewrite app_assoc, <- app_assoc. change 4%nat with (N.to_nat 4).
    rewrite drop_lengthN by (rewrite lengthN_app, length_store_little; done). by apply take_lengthN. }
  rewrite Hc. rewrite drop_lengthN by (rewrite length_chunk; done). done.
Qed.

Lemma header_chunk type content framed :
  write_header type (lengthN content) framed ++ content = framed ++ chunk type content.
Proof. unfold write_header, chunk. by rewrite <- !app_assoc. Qed.

(** A chunk of the stream identifier. *)
Definition identifier : bytes := chunk ChunkType_Stream kStreamIdentifier.

Lemma read_identifier max_size : read_chunk ChunkType_Stream kStreamIdentifier max_size = Ok None.
Proof. done. Qed.

Lemma read_chunk_throw type content max_size x :
  read_chunk type content max_size = Throw x → x = UndefinedBehaviour.
Proof.
  unfold read_chunk, uncompress. case_match; [by case_match|]. destruct (_ || _); [|by case_match].
  case_match; [by intros [= <-]|]. destruct (type =? ChunkType_Compressed); cbn [mbind outcome_bind]; [|by case_match].
  case_match; [|done]. case_match; [done|]. case_match; [|done]. cbn. by case_match.
Qed.

Section laws.
Context `{!SnappyLaws}.

(** The content of the chunk of [c]. *)
Definition compressed (c : bytes) : bytes := hashCrc32 c ++ Compress c.

Lemma length_compressed c : lengthN (compressed c) = 4 + lengthN (Compress c).
Proof. unfold compressed. by rewrite lengthN_app, length_hashCrc32. Qed.

Lemma compressed_fits c : lengthN c ≤ kMaxBlockSize → lengthN (compressed c) < 2 ^ 24.
Proof.
  intros Hc. rewrite length_compressed. pose proof (max_compressed_length c).
  assert (lengthN c / 6 ≤ 10923) by (apply N.Div0.div_le_upper_bound; etrans; [exact Hc|by vm_compute]).
  change kMaxBlockSize with 65536 in Hc. change (2 ^ 24) with 16777216.
  generalize dependent (lengthN c / 6). intros. lia.
Qed.

Lemma read_compressed c max_size :
  read_chunk ChunkType_Compressed (compressed c) max_size
  = if lengthN c <=? max_size then Ok (Some c) else Err (E_Snappy UNCOMPRESS_TOO_LONG).
Proof.
  unfold read_chunk. change (ChunkType_Compressed =? ChunkType_Stream) with false.
  change (ChunkType_Compressed =? ChunkType_Compressed) with true. cbn [orb].
  rewrite (proj2 (N.ltb_ge _ _)) by (rewrite length_compressed; lia). unfold compressed.
  change 4%nat with (N.to_nat 4). rewrite take_lengthN, drop_lengthN by (by rewrite length_hashCrc32).
  unfold uncompress. rewrite compressed_length. rewrite N.ltb_antisym.
  destruct (lengthN c <=? max_size); [|done]. cbn [negb]. rewrite uncompress_compress. cbn [mbind outcome_bind].
  by rewrite bool_decide_true.
Qed.

(** The chunks of the input. *)
Inductive chunks : bytes → list bytes → Prop :=
| chunks_nil : chunks [] []
| chunks_cons c input cs :
    c ≠ [] → lengthN c ≤ kMaxBlockSize → chunks input cs → chunks (c ++ input) (c :: cs).

Definition frames (cs : list bytes) : bytes := concat ((λ c, chunk ChunkType_Compressed (compressed c)) <$> cs).

Lemma compress_chunks_spec fuel input framed :
  (length input ≤ fuel)%nat →
  ∃ cs, chunks input cs ∧ compress_chunks fuel input framed = Ok (framed ++ frames cs).
Proof.
  revert input framed. induction fuel as [|fuel IH]; intros input framed Hf.
  { destruct input; [|cbn in Hf; lia]. exists []. split; [constructor|]. cbn. by rewrite app_nil_r. }
  destruct input as [|x input].
  { exists []. split; [constructor|]. cbn. by rewrite app_nil_r. }
  set (l := x :: input) in *. cbn [compress_chunks]. change (match l with [] => ?a | _ => ?b end) with b. cbv zeta.
  set (n := N.to_nat (N.min (lengthN l) kMaxBlockSize)).
  assert (Hn : (0 < n ≤ length l)%nat).
  { unfold n, lengthN. assert (0 < kMaxBlockSize) by (by vm_compute). cbn [length l]. lia. }
  destruct (IH (drop n l) (write_header ChunkType_Compressed (4 + lengthN (compress (take n l))) framed ++
    hashCrc32 (take n l) ++ compress (take n l))) as (cs & Hcs & Hrun).
  { rewrite length_drop. lia. }
  exists (take n l :: cs). split.
  - rewrite <- (take_drop n l) at 1. constructor; [| |done].
    + intros Hnil. apply (f_equal length) in Hnil. rewrite length_take in Hnil. cbn [length] in Hnil. lia.
    + unfold lengthN. rewrite length_take. unfold n, lengthN. lia.
  - rewrite Hrun. f_equal. change (compress (take n l)) with (Compress (take n l)).
    rewrite <- length_compressed. change (hashCrc32 (take n l) ++ Compress (take n l)) with (compressed (take n l)).
    rewrite header_chunk. unfold frames. rewrite fmap_cons. cbn [concat]. by rewrite <- app_assoc.
Qed.

Lemma uncompress_frames fuel input cs max_size res :
  chunks input cs → (length cs ≤ fuel)%nat → lengthN res ≤ max_size →
  uncompress_chunks fuel (frames cs) max_size res
  = if lengthN res + lengthN input <=? max_size then Ok (res ++ input) else Err (E_Snappy UNCOMPRESS_TOO_LONG).
Proof.
  intros Hcs. revert fuel res. induction Hcs as [|c input cs Hne Hl Hcs IH]; intros fuel res Hf Hres.
  { change (lengthN []) with 0. rewrite (proj2 (N.leb_le _ _)), app_nil_r by lia. by destruct fuel. }
  destruct fuel as [|fuel]; [cbn in Hf; lia|]. unfold frames. rewrite fmap_cons. cbn [concat].
  rewrite uncompress_turn by (by apply compressed_fits). rewrite read_compressed, lengthN_app.
  destruct (N.leb_spec (lengthN c) (max_size - lengthN res)) as [Hle|Hgt]; cbn [mbind outcome_bind].
  - assert (Hfit : lengthN res + lengthN c ≤ max_size).
    { destruct (decide (lengthN c = 0)) as [Hz|]; lia. }
    change (concat _) with (frames cs). rewrite IH by (rewrite ?lengthN_app; cbn in Hf; lia).
    by rewrite lengthN_app, N.add_assoc, <- app_assoc.
  - by rewrite (proj2 (N.leb_gt _ _)) by lia.
Qed.

Lemma chunks_count input cs : chunks input cs → (length cs ≤ length (frames cs))%nat.
Proof.
  induction 1 as [|c input cs Hne Hl Hcs IH]; [done|]. unfold frames in *. rewrite fmap_cons. cbn [concat].
  rewrite length_app.
  change (length (chunk ?a ?b)) with (S (length (store_little 3 (lengthN b) ++ b))). cbn [length]. lia.
Qed.

(** C36: a framed message is read back unchanged when it is within the size limit, and refused
    as too long otherwise. *)
Theorem snappy_roundtrip input max_size :
  ∃ framed, compressFramed input = Ok framed ∧
    uncompressFramed framed max_size
    = if lengthN input <=? max_size then Ok input else Err (E_Snappy UNCOMPRESS_TOO_LONG).
Proof.
  unfold compressFramed. rewrite header_chunk, app_nil_l.
  destruct (compress_chunks_spec (length input) input identifier (le_n _)) as (cs & Hcs & Hrun).
  eexists. split; [exact Hrun|]. unfold uncompressFramed, identifier.
  pose proof (chunks_count _ _ Hcs) as Hcount.
  assert (Hlen : length (chunk ChunkType_Stream kStreamIdentifier ++ frames cs) = (10 + length (frames cs))%nat) by done.
  rewrite Hlen. change (10 + length (frames cs))%nat with (S (9 + length (frames cs))).
  rewrite uncompress_turn by (by vm_compute). rewrite read_identifier. cbn [mbind outcome_bind].
  by rewrite (uncompress_frames (9 + length (frames cs)) input cs max_size [] Hcs ltac:(lia) (N.le_0_l _)).
Qed.

(** One chunk of a stream. *)
Lemma co_turn fuel size res type content r rest :
  lengthN res < size → lengthN content < 2 ^ 24 →
  read_chunk type content (size - lengthN res) = Ok r →
  co_chunks (S fuel) size res (chunk type content ++ rest)
  = co_chunks fuel size (match r with Some b => res ++ b | None => res end) rest.
Proof.
  intros Hsize Hl Hread. cbn [co_chunks]. rewrite (proj2 (N.leb_gt _ _)) by done.
  set (head := [type] ++ store_little 3 (lengthN content)).
  assert (Hhead : lengthN head = 4) by (unfold head; by rewrite lengthN_app, length_store_little).
  assert (Hch : chunk type content = head ++ content) by (unfold chunk, head; by rewrite <- app_assoc).
  assert (Hr : ∀ b n tail, n = lengthN b → read n (b ++ tail) = (Ok b, tail)).
  { intros b n tail Hn. unfold read. rewrite lengthN_app, (proj2 (N.ltb_ge _ _)) by lia.
    by rewrite take_lengthN, drop_lengthN. }
  rewrite Hch, <- app_assoc. rewrite (sm_bind_ok _ _ _ _ _ (Hr head kHeaderSize _ (eq_sym Hhead))).
  assert (Hneed : chunkNeedBytes head = Some (kHeaderSize + lengthN content)).
  { unfold chunkNeedBytes. rewrite Hhead. change (4 <? kHeaderSize) with false. do 2 f_equal.
    unfold head. cbn [app drop]. rewrite drop_0. rewrite <- (app_nil_r (store_little _ _)).
    change 3%nat with (N.to_nat 3). rewrite take_lengthN by (by rewrite length_store_little).
    by apply load_store_little. }
  rewrite Hneed. cbn [of_option].
  rewrite (sm_bind_ok _ _ (content ++ rest) (kHeaderSize + lengthN content) (content ++ rest)) by done.
  rewrite (sm_bind_ok _ _ _ _ _ (Hr content (kHeaderSize + lengthN content - kHeaderSize) rest ltac:(lia))).
  rewrite <- Hch. unfold uncompressFramed.
  assert (Hone : uncompress_chunks (length (chunk type content)) (chunk type content) (size - lengthN res) []
    = Ok (match r with Some b => b | None => [] end)).
  { change (length (chunk type content)) with (S (length (store_little 3 (lengthN content) ++ content))).
    rewrite <- (app_nil_r (chunk type content)), uncompress_turn by done.
    change (lengthN []) with 0. rewrite N.sub_0_r, Hread. cbn [mbind outcome_bind].
    destruct r; by destruct (length _). }
  rewrite Hone. unfold sm_lift, mbind, sm_bind. by destruct r; rewrite ?app_nil_r.
Qed.

Lemma co_frames fuel input cs size res rest :
  chunks input cs → (length cs ≤ fuel)%nat → lengthN res + lengthN input = size →
  co_chunks fuel size res (frames cs ++ rest) = (Ok (res ++ input), rest).
Proof.
  intros Hcs. revert fuel res. induction Hcs as [|c input cs Hne Hl Hcs IH]; intros fuel res Hf Hsize.
  { change (lengthN []) with 0 in Hsize. rewrite app_nil_r. destruct fuel; cbn [co_chunks];
      by rewrite (proj2 (N.leb_le _ _)) by lia. }
  destruct fuel as [|fuel]; [cbn in Hf; lia|]. rewrite lengthN_app in Hsize.
  assert (Hpos : lengthN c ≠ 0) by (destruct c; [done|unfold lengthN; cbn [length]; lia]).
  unfold frames. rewrite fmap_cons. cbn [concat]. rewrite <- app_assoc.
  rewrite (co_turn _ _ _ _ _ (Some c)); [|lia|by apply compressed_fits|].
  - change (concat _) with (frames cs). rewrite IH by (rewrite ?lengthN_app; cbn in Hf; lia). by rewrite <- app_assoc.
  - rewrite read_compressed. by rewrite (proj2 (N.leb_le _ _)) by lia.
Qed.

(** A message written to a stream is read back unchanged when it is within the size
    limit; a message that is not empty leaves the stream behind its last chunk. *)
Theorem snappy_stream_roundtrip message max_size rest :
  lengthN message ≤ max_size →
  ∃ size data left, coCompressFramed message = Ok (size, data) ∧
    coUncompressFramed size max_size (data ++ rest) = (Ok message, left) ∧ (message ≠ [] → left = rest).
Proof.
  intros Hmax. unfold coCompressFramed, compressFramed. rewrite header_chunk, app_nil_l. fold identifier.
  destruct (compress_chunks_spec (length message) message identifier (le_n _)) as (cs & Hcs & ->).
  pose proof (chunks_count _ _ Hcs) as Hcount. unfold coUncompressFramed. cbn [mbind outcome_bind].
  destruct (decide (message = [])) as [->|Hne].
  - do 3 eexists. split; [done|]. change (lengthN []) with 0. rewrite (proj2 (N.ltb_ge _ _)) by lia.
    by split; [|].
  - exists (lengthN message), (identifier ++ frames cs), rest. split; [done|]. rewrite (proj2 (N.ltb_ge _ _)) by done.
    split; [|done]. rewrite <- app_assoc. unfold identifier at 2.
    assert (Hpos : lengthN message ≠ 0) by (destruct message; [done|unfold lengthN; cbn [length]; lia]).
    rewrite (co_turn _ _ [] _ _ None); [|change (lengthN []) with 0; lia|by vm_compute|apply read_identifier].
    rewrite (co_frames _ message cs); [done|done| |done]. rewrite !length_app. lia.
Qed.

(** ** Bounds *)
Lemma read_chunk_bound type content max_size b :
  read_chunk type content max_size = Ok (Some b) → lengthN b ≤ max_size ∨ lengthN b ≤ lengthN content.
Proof.
  unfold read_chunk. case_match; [by case_match|]. destruct (_ || _); [|by case_match]. case_match; [done|].
  intros (u & Hu & Hb)%outcome_bind_ok. case_match; [done|]. injection Hb as <-. destruct (type =? ChunkType_Compressed).
  - left. unfold uncompress in Hu. destruct (GetUncompressedLength (drop 4 content)) as [n|] eqn:Hn; [|done].
    destruct (N.ltb_spec max_size n); [done|]. destruct (Uncompress (drop 4 content)) as [x|] eqn:Hx; [|done].
    injection Hu as <-. by rewrite (uncompressed_length _ _ _ Hn Hx).
  - right. injection Hu as <-. unfold lengthN. rewrite length_drop. lia.
Qed.

Lemma uncompress_chunks_bound fuel c max_size res r :
  uncompress_chunks fuel c max_size res = Ok r → lengthN r ≤ N.max max_size (lengthN res) + lengthN c.
Proof.
  revert c res. induction fuel as [|fuel IH]; intros c res; destruct c as [|type c]; cbn [uncompress_chunks].
  - intros [= <-]. lia.
  - done.
  - intros [= <-]. lia.
  - destruct (chunkNeedBytes (type :: c)) as [need|] eqn:Hneed; [|done].
    destruct (N.ltb_spec (lengthN (type :: c)) need) as [|Hle]; [done|].
    unfold chunkNeedBytes in Hneed. destruct (_ <? _); [done|].
    set (size := load_little (take 3 (drop 1 (type :: c)))) in *. assert (need = kHeaderSize + size) as -> by congruence.
    intros (o & Hread & Hrun)%outcome_bind_ok. apply IH in Hrun.
    assert (Hdrop : lengthN (drop (N.to_nat (kHeaderSize + size)) (type :: c)) + size ≤ lengthN (type :: c)).
    { unfold lengthN in *. rewrite length_drop. unfold kHeaderSize in *. lia. }
    assert (Hcont : lengthN (take (N.to_nat size) (drop 4 (type :: c))) ≤ size).
    { unfold lengthN. rewrite length_take. lia. }
    destruct o as [b|]; [|lia]. rewrite lengthN_app in Hrun. apply read_chunk_bound in Hread as [Hb|Hb]; lia.
Qed.
End laws.

Lemma uncompressFramed_throws compressed max_size x :
  uncompressFramed compressed max_size = Throw x → x = UndefinedBehaviour.
Proof.
  unfold uncompressFramed. generalize (@nil N). generalize (le_n (length compressed)).
  generalize (length compressed) at 2 3. intros fuel. revert compressed x.
  induction fuel as [|fuel IH]; intros [|type c] x Hf res; cbn [uncompress_chunks]; try done; [cbn in Hf; lia|].
  destruct (chunkNeedBytes _) as [need|]; [|done]. destruct (_ <? need); [done|].
  destruct (read_chunk _ _ _) as [o|e|y] eqn:Hread; cbn [mbind outcome_bind]; [|done|].
  + apply IH. rewrite length_drop. unfold kHeaderSize. cbn [length] in *. lia.
  + intros [= <-]. by eapply read_chunk_throw.
Qed.

(** Every turn of the reader of a stream reads a header, so its fuel is enough. *)
Lemma co_chunks_throws fuel size res stream x s' :
  (length stream < fuel)%nat → co_chunks fuel size res stream = (Throw x, s') → x = UndefinedBehaviour.
Proof.
  revert res stream. induction fuel as [|fuel IH]; intros res stream Hf; [lia|]. cbn [co_chunks].
  case_match; [done|]. unfold mbind, sm_bind, read at 1.
  destruct (N.ltb_spec (lengthN stream) kHeaderSize) as [|Hlen]; [done|].
  set (header := take (N.to_nat kHeaderSize) stream).
  assert (Hh : lengthN header = 4).
  { unfold header, lengthN in *. rewrite length_take. unfold kHeaderSize in *. lia. }
  unfold chunkNeedBytes. rewrite Hh. change (4 <? kHeaderSize) with false. cbn [of_option sm_lift]. unfold sm_lift, read.
  destruct (_ <? _); [done|]. destruct (uncompressFramed _ _) as [u|e|y] eqn:Hu; [|done|].
  - apply IH. rewrite !length_drop. unfold lengthN, kHeaderSize in Hlen. unfold kHeaderSize. lia.
  - intros [= <- _]. by apply uncompressFramed_throws in Hu.
Qed.

(** Reading a framed message always ends, and the only exception is undefined behaviour,
    which a chunk shorter than its checksum causes: four bytes suffice.  The result is no
    longer than the limit plus the length of the input. *)
Theorem uncompressFramed_bounds `{!SnappyLaws} compressed max_size :
  (∀ x, uncompressFramed compressed max_size = Throw x → x = UndefinedBehaviour) ∧
  (∀ r, uncompressFramed compressed max_size = Ok r → lengthN r ≤ max_size + lengthN compressed) ∧
  uncompressFramed [ChunkType_Compressed; 0; 0; 0] max_size = Throw UndefinedBehaviour.
Proof.
  split; [|split; [|done]].
  - intros x. apply uncompressFramed_throws.
  - intros r Hr. apply uncompress_chunks_bound in Hr. change (lengthN []) with 0 in Hr. lia.
Qed.
End proofs.

(** ** A toy library: compression as the identity *)
Module SnappyEx.
#[local] Instance ToySnappy : SnappyLibrary := {|
  Compress x := x;
  GetUncompressedLength c := Some (lengthN c);
  Uncompress c := Some c;
  Crc32c x := lengthN x;
|}.
#[local] Instance ToySnappy_laws : SnappyLaws.
Proof.
  split; cbn; intros; try done; [|congruence].
  generalize (lengthN x / 6). generalize (lengthN x). intros. lia.
Defined.

Lemma snappy_roundtrip_witness :
  ∃ framed, compressFramed [1; 2; 3] = Ok framed ∧ uncompressFramed framed 10 = Ok [1; 2; 3].
Proof. exact (snappy_roundtrip [1; 2; 3] 10). Defined.

Lemma snappy_stream_roundtrip_witness :
  ∃ size data left, coCompressFramed [1; 2; 3] = Ok (size, data) ∧
    coUncompressFramed size 10 (data ++ [9]) = (Ok [1; 2; 3], left) ∧ ([1; 2; 3] ≠ [] → left = [9]).
Proof. exact (snappy_stream_roundtrip [1; 2; 3] 10 [9] ltac:(by vm_compute)). Defined.

Lemma uncompressFramed_bounds_witness :
  uncompressFramed [ChunkType_Compressed; 0; 0; 0] 10 = Throw UndefinedBehaviour.
Proof. exact (proj2 (proj2 (uncompressFramed_bounds [] 10))). Defined.

(** The limit does not apply to a chunk that is not compressed. *)
Lemma uncompressed_ignores_limit :
  uncompressFramed (chunk ChunkType_Uncompressed (hashCrc32 [7; 8] ++ [7; 8])) 0 = Ok [7; 8].
Proof. by vm_compute. Qed.
End SnappyEx.
