(* ===== verification/Protocols.v ===== *)
(** * Messages on the wire (src/src/serde/serialization.hpp, src/src/modules/networking/
    ssz_snappy.hpp, response_status.hpp, status_protocol.cpp, block_request_protocol.cpp and the
    gossip part of networking.cpp)

    The coroutines of the request protocols run on the thread of the io_context.  Whenever one
    waits for its stream the other handlers of that thread may run: [co_env] says what each of
    these pauses does to the module, and the theorems hold for all of them. *)

From Stdlib Require Import Ascii String.
From S2P Require Import Prelude Errors Types ToyHash CachedTree BlockStorage BlockStorageSpec ToyStore BlockTree.
From S2P Require Import BlockTreeProofs BlockTreeTheorems LruCache ForkChoice ToyForkChoice Networking.
From S2P Require Import ForkChoiceChain NetworkingTheorems Rlp RlpProofs Snappy SnappyTheorems.

(** ** serde/serialization.hpp *)

(** What ssz::deserialize leaves with when it does not return. *)
Inductive SszException := SszOutOfRange | SszInvalidArgument | SszOtherException.

(** ssz::serialize and ssz::deserialize of a type *)
Class Ssz (T : Type) := {
  ssz_serialize : T → bytes;
  ssz_deserialize : bytes → T + SszException;
}.
(** A serialized value is read back and is never empty.  The type stands for the values within the
    capacities of its SSZ lists. *)
Class SszLaws (T : Type) `{Ssz T} := {
  ssz_roundtrip x : ssz_deserialize (ssz_serialize x) = inl x;
  ssz_nonempty x : ssz_serialize x ≠ [];
}.

Definition encode {T} `{Ssz T} (v : T) : result bytes := Ok (ssz_serialize v).
Definition decode {T} `{Ssz T} (data : bytes) : result T :=
  match ssz_deserialize data with
  | inl v => Ok v
  | inr SszOutOfRange => Err (E_Ssz DecodeError)
  | inr SszInvalidArgument => Err (E_Ssz DecodeError)
  | inr SszOtherException => Throw RuntimeError
  end.
(** outcome::result::value *)
Definition value {A} (r : result A) : result A :=
  match r with Err _ => Throw SystemError | _ => r end.

(** ** ssz_snappy.hpp *)
Section ssz_snappy.
Context `{SnappyLibrary} {T : Type} `{Ssz T}.

Definition encodeSszSnappy (t : T) : result bytes :=
  b ← value (encode t); Ok (compress b).
Definition decodeSszSnappy (compressed : bytes) : result (T * N) :=
  uncompressed ← uncompress compressed kDefaultMaxSize;
  decoded ← decode uncompressed;
  Ok (decoded, lengthN uncompressed).
Definition encodeSszSnappyFramed (t : T) : result bytes :=
  b ← value (encode t); compressFramed b.
Definition decodeSszSnappyFramed (compressed : bytes) : result T :=
  uncompressed ← uncompressFramed compressed kDefaultMaxSize;
  decode uncompressed.
End ssz_snappy.

(** ** Streams

    [co_in] are the bytes the other side sends on this stream (also those still to come),
    [co_out] the bytes written, [co_room] how many the transport takes before it fails. *)
Record CoState (S : Type) := mkCoState {
  co_in : bytes;
  co_out : bytes;
  co_room : N;
  co_env : list (S → S);
  co_self : S;
}.
Arguments mkCoState {S} _ _ _ _ _.
Arguments co_in {S} _.
Arguments co_out {S} _.
Arguments co_room {S} _.
Arguments co_env {S} _.
Arguments co_self {S} _.

(** libp2p::EncodeVarint and libp2p::readVarint *)
Class Varint := {
  EncodeVarint : N → bytes;
  readVarint : SM bytes error N;
}.
Class VarintLaws `{Varint} := {
  varint_roundtrip n rest : n < two64 → readVarint (EncodeVarint n ++ rest) = (Ok n, rest);
}.

Section streams.
Context {S : Type}.
Local Abbreviation M := (SM (CoState S) error).

(** The other handlers run while the coroutine waits. *)
Definition co_pause : M () := λ s,
  match co_env s with
  | [] => (Ok (), s)
  | f :: env => (Ok (), mkCoState (co_in s) (co_out s) (co_room s) env (f (co_self s)))
  end.
(** co_await of something that only reads the stream *)
Definition co_reading {A} (m : SM bytes error A) : M A :=
  co_pause ≫= λ _,
  (λ s, let '(r, rest) := m (co_in s) in
        (r, mkCoState rest (co_out s) (co_room s) (co_env s) (co_self s))) : M A.
(** libp2p::write *)
Definition co_write (b : bytes) : M () :=
  co_pause ≫= λ _,
  (λ s,
    if co_room s <? lengthN b then (Err (E_Library STREAM_WRITE_ERROR), s)
    else (Ok (), mkCoState (co_in s) (co_out s ++ b) (co_room s - lengthN b) (co_env s) (co_self s))) : M ().
(** A call into the module, which does not wait. *)
Definition co_call {A} (m : SM S error A) : M A := λ s,
  let '(r, self) := m (co_self s) in
  (r, mkCoState (co_in s) (co_out s) (co_room s) (co_env s) self).

(** response_status.hpp *)
Definition writeResponseStatus : M () := co_write [0].
(** The status is read and not looked at. *)
Definition readResponseStatus : M () := co_reading (read 1) ≫= λ _, mret ().

Context `{SnappyLibrary} `{Varint}.

(** snappy::coCompressFramed and coUncompressFramed on a stream *)
Definition co_compress (message : bytes) : M () :=
  framed ← sm_lift (coCompressFramed message);
  co_write (EncodeVarint framed.1) ≫= λ _,
  co_write framed.2.
Definition co_uncompress : M bytes :=
  size ← co_reading readVarint;
  co_reading (coUncompressFramed size kDefaultMaxSize).

(** ** status_protocol.cpp *)
Section status.
Context `{Ssz StatusMessage}.
(** get_status_ and on_status_ *)
Context (get_status : SM S error StatusMessage) (on_status : StatusMessageReceived → SM S error ()).

Definition status_read (remotePeerId : PeerId) : M () :=
  encoded ← co_uncompress;
  status ← sm_lift (decode encoded);
  co_call (on_status (mkStatusMessageReceived remotePeerId status)).
Definition status_write : M () :=
  status ← co_call get_status;
  b ← sm_lift (value (encode status));
  co_compress b.
(** connect, after host_->newStream has opened the stream *)
Definition status_connect (remotePeerId : PeerId) : M () :=
  status_write ≫= λ _,
  readResponseStatus ≫= λ _,
  status_read remotePeerId.
Definition status_coroHandle (remotePeerId : PeerId) : M () :=
  status_read remotePeerId ≫= λ _,
  writeResponseStatus ≫= λ _,
  status_write.
End status.

(** ** block_request_protocol.cpp *)
Record BlockRequest := mkBlockRequest { br_roots : list BlockHash }.

Section block_request.
Context `{Ssz BlockRequest} `{Ssz SignedBlock}.
(** block_tree_->tryGetSignedBlock *)
Context (tryGetSignedBlock : BlockHash → SM S error (option SignedBlock)).

(** request, after host_->newStream *)
Definition blocks_request (request : BlockRequest) : M SignedBlock :=
  b ← sm_lift (value (encode request));
  co_compress b ≫= λ _,
  readResponseStatus ≫= λ _,
  encoded ← co_uncompress;
  sm_lift (decode encoded).

(** The loop of coroRespond. *)
Definition respond_block (block_hash : BlockHash) : M () :=
  block ← co_call (tryGetSignedBlock block_hash);
  match block with
  | None => mret ()
  | Some block =>
      writeResponseStatus ≫= λ _,
      b ← sm_lift (value (encode block));
      co_compress b
  end.
Definition blocks_coroRespond : M () :=
  encoded ← co_uncompress;
  request ← sm_lift (decode encoded);
  sm_iter respond_block (br_roots request).
End block_request.
End streams.

(** ** Gossip (networking.cpp) *)

(** The bytes of a string literal. *)
Definition text (s : string) : bytes := N_of_ascii <$> list_ascii_of_string s.
Arguments text s%_string.

(** gossipTopic: std::format of the type into the name of the topic *)
Definition gossipTopic (type : bytes) : bytes :=
  text "/leanconsensus/12345678/" ++ type ++ text "/ssz_snappy".

Record Message := mkMessage {
  gm_topic : bytes;
  gm_data : bytes;
}.

(** libp2p::crypto::Sha256: the digest of all that was written *)
Class Sha256Library := sha256_digest : bytes → bytes.

Definition MESSAGE_DOMAIN_INVALID_SNAPPY : bytes := [0; 0; 0; 0].
Definition MESSAGE_DOMAIN_VALID_SNAPPY : bytes := [1; 0; 0; 0].

(** std::vector::resize to a smaller or larger size *)
Definition resize (n : nat) (b : bytes) : bytes := take n b ++ replicate (n - length b) 0.

Section gossip.
Context `{SnappyLibrary} `{Sha256Library}.

(** hash_topic: the length of the topic as a little-endian uint64_t, and the topic *)
Definition hash_topic (message : Message) (hasher : bytes) : bytes :=
  hasher ++ store_little 8 (lengthN (gm_topic message)) ++ gm_topic message.
(** What gossipMessageId writes into its hasher. *)
Definition gossip_preimage (message : Message) : result bytes :=
  match uncompress (gm_data message) kDefaultMaxSize with
  | Ok uncompressed => Ok (hash_topic message [] ++ MESSAGE_DOMAIN_VALID_SNAPPY ++ uncompressed)
  | Err _ => Ok (hash_topic message MESSAGE_DOMAIN_INVALID_SNAPPY ++ gm_data message)
  | Throw x => Throw x
  end.
Definition gossipMessageId (message : Message) : result bytes :=
  preimage ← gossip_preimage message;
  Ok (resize 20 (sha256_digest preimage)).
End gossip.

(** A message of a topic: its data and the peer it came from. *)
Record RawMessage := mkRawMessage {
  rm_data : bytes;
  rm_received_from : option PeerId;
}.

Section subscribe.
Context `{SnappyLibrary} {T : Type} `{Ssz T} {S : Type}.

(** gossipSubscribe: the loop of the coroutine over the messages it receives before the topic
    closes.  [observe] is the histogram of the sizes, [f] the handler. *)
Context (observe : N → SM S error ()) (f : T → option PeerId → SM S error ()).
Definition gossip_message (raw : RawMessage) : SM S error () :=
  r ← sm_try (sm_lift (decodeSszSnappy (rm_data raw)));
  match r with
  | inl (decoded, size) => observe size ≫= λ _, f decoded (rm_received_from raw)
  | inr _ => mret ()
  end.
Definition gossipSubscribe (messages : list RawMessage) : SM S error () :=
  sm_iter gossip_message messages.
End subscribe.

(** onSendSignedBlock, onSendSignedVote and onSendSignedAggregatedAttestation: the function posted
    to the io_context publishes the encoded message. *)
Section publish.
Context `{SnappyLibrary} `{Ssz SignedBlock} `{Ssz SignedAttestation} `{Ssz SignedAggregatedAttestation}.
Record Topics := mkTopics {
  tp_blocks : list bytes;
  tp_votes : list bytes;
  tp_aggregations : list bytes;
}.
Definition onSendSignedBlock (notification : SignedBlock) : SM Topics error () :=
  b ← sm_lift (encodeSszSnappy notification);
  sm_modify (λ t, mkTopics (tp_blocks t ++ [b]) (tp_votes t) (tp_aggregations t)).
Definition onSendSignedVote (notification : SignedAttestation) : SM Topics error () :=
  b ← sm_lift (encodeSszSnappy notification);
  sm_modify (λ t, mkTopics (tp_blocks t) (tp_votes t ++ [b]) (tp_aggregations t)).
Definition onSendSignedAggregatedAttestation (notification : SignedAggregatedAttestation)
    : SM Topics error () :=
  b ← sm_lift (encodeSszSnappy notification);
  sm_modify (λ t, mkTopics (tp_blocks t) (tp_votes t) (tp_aggregations t ++ [b])).
End publish.

(** * Messages on the wire: the exchanges of two nodes, gossip and its identifiers *)

(** ** Coroutines and their streams *)
Section streams.
Context {S : Type}.
Implicit Types (s : CoState S) (self : S).

(** The module after [n] pauses. *)
Definition resume (n : nat) (env : list (S → S)) self : S := foldl (λ x f, f x) self (take n env).

Lemma resume_0 env self : resume 0 env self = self.
Proof. done. Qed.
Lemma resume_S n env self : resume 1 (drop n env) (resume n env self) = resume (Datatypes.S n) env self.
Proof.
  unfold resume. rewrite <- foldl_app, take_take_drop. f_equal. f_equal. lia.
Qed.
Lemma resume_add n m env self : resume m (drop n env) (resume n env self) = resume (n + m) env self.
Proof. unfold resume. by rewrite <- foldl_app, take_take_drop. Qed.

Lemma co_pause_run s :
  co_pause s = (Ok (), mkCoState (co_in s) (co_out s) (co_room s) (drop 1 (co_env s))
                         (resume 1 (co_env s) (co_self s))).
Proof. destruct s as [i o r [|f env] self]; done. Qed.

Lemma co_reading_run {A} (m : SM bytes error A) s x rest :
  m (co_in s) = (Ok x, rest) →
  co_reading m s = (Ok x, mkCoState rest (co_out s) (co_room s) (drop 1 (co_env s))
                            (resume 1 (co_env s) (co_self s))).
Proof. intros Hm. unfold co_reading, mbind, sm_bind. rewrite co_pause_run. cbn [co_in]. by rewrite Hm. Qed.

Lemma co_write_run b s :
  lengthN b ≤ co_room s →
  co_write b s = (Ok (), mkCoState (co_in s) (co_out s ++ b) (co_room s - lengthN b) (drop 1 (co_env s))
                            (resume 1 (co_env s) (co_self s))).
Proof.
  intros Hr. unfold co_write, mbind, sm_bind. rewrite co_pause_run. cbn [co_room].
  by rewrite (proj2 (N.ltb_ge _ _)) by done.
Qed.

Lemma co_call_run {A} (m : SM S error A) s x self :
  m (co_self s) = (Ok x, self) →
  co_call m s = (Ok x, mkCoState (co_in s) (co_out s) (co_room s) (co_env s) self).
Proof. intros Hm. unfold co_call. by rewrite Hm. Qed.

Context `{SnappyLaws} `{VarintLaws}.

(** A message as it stands on the stream: its size, then its chunks. *)
Definition wire (message : bytes) : bytes :=
  match coCompressFramed message with
  | Ok (size, data) => EncodeVarint size ++ data
  | _ => []
  end.

Lemma co_compress_run message s :
  lengthN (wire message) ≤ co_room s → lengthN message ≤ kDefaultMaxSize →
  co_compress message s
  = (Ok (), mkCoState (co_in s) (co_out s ++ wire message) (co_room s - lengthN (wire message))
              (drop 2 (co_env s)) (resume 2 (co_env s) (co_self s))).
Proof.
  intros Hr Hmax. unfold co_compress, wire in *.
  destruct (snappy_stream_roundtrip message kDefaultMaxSize [] Hmax) as (size & data & left & Hc & _).
  rewrite Hc in *. rewrite lengthN_app in Hr.
  rewrite (sm_bind_ok _ _ s (size, data) s) by done. cbn [fst snd].
  erewrite sm_bind_ok by (apply co_write_run; lia). rewrite co_write_run by (cbn [co_room]; lia).
  cbn [co_in co_out co_room co_env co_self]. rewrite drop_drop, resume_S, <- app_assoc, lengthN_app.
  by rewrite N.sub_add_distr.
Qed.

Lemma co_uncompress_run message rest s :
  co_in s = wire message ++ rest → message ≠ [] → lengthN message ≤ kDefaultMaxSize →
  co_uncompress s
  = (Ok message, mkCoState rest (co_out s) (co_room s) (drop 2 (co_env s)) (resume 2 (co_env s) (co_self s))).
Proof.
  intros Hin Hne Hmax. unfold co_uncompress, wire in *.
  destruct (snappy_stream_roundtrip message kDefaultMaxSize rest Hmax) as (size & data & left & Hc & Hu & Hl).
  rewrite Hc in *. rewrite <- app_assoc in Hin.
  assert (size = lengthN message) as Hsize.
  { unfold coCompressFramed in Hc. destruct (compressFramed message); [|done..]. by injection Hc as <-. }
  erewrite sm_bind_ok.
  2:{ apply co_reading_run. rewrite Hin. apply varint_roundtrip. subst size.
      eapply N.le_lt_trans; [exact Hmax|by vm_compute]. }
  erewrite co_reading_run by (cbn [co_in]; apply Hu).
  cbn [co_out co_room co_env co_self]. by rewrite drop_drop, resume_S, Hl.
Qed.

Lemma readResponseStatus_run b rest s :
  co_in s = b :: rest →
  readResponseStatus s = (Ok (), mkCoState rest (co_out s) (co_room s) (drop 1 (co_env s))
                                   (resume 1 (co_env s) (co_self s))).
Proof.
  intros Hin. unfold readResponseStatus. erewrite sm_bind_ok; [done|]. apply co_reading_run. rewrite Hin.
  unfold read. rewrite (proj2 (N.ltb_ge _ _)) by (unfold lengthN; cbn [length]; lia).
  change (N.to_nat 1) with 1%nat. cbn [take drop]. by rewrite drop_0.
Qed.

Lemma decode_encode {T} `{SszLaws T} (x : T) : decode (ssz_serialize x) = Ok x.
Proof. unfold decode. by rewrite ssz_roundtrip. Qed.
Lemma sm_encode {T B} `{Ssz T} (x : T) (f : bytes → SM (CoState S) error B) s :
  (sm_lift (value (encode x)) ≫= f) s = f (ssz_serialize x) s.
Proof. done. Qed.
Lemma sm_decode {T B} `{SszLaws T} (x : T) (f : T → SM (CoState S) error B) s :
  (sm_lift (decode (ssz_serialize x)) ≫= f) s = f x s.
Proof. apply sm_bind_ok. unfold sm_lift. by rewrite decode_encode. Qed.
End streams.

(** What fits into one message, and on the stream of [s]. *)
Definition fits {T} `{Ssz T} (x : T) : Prop := lengthN (ssz_serialize x) ≤ kDefaultMaxSize.

(** ** The status handshake *)
Section status.
Context `{SnappyLaws} `{VarintLaws} `{SszLaws StatusMessage}.
Context {S1 S2 : Type}.
Context (get1 : SM S1 error StatusMessage) (on1 : StatusMessageReceived → SM S1 error ()).
Context (get2 : SM S2 error StatusMessage) (on2 : StatusMessageReceived → SM S2 error ()).

Lemma status_write_run {S} (get : SM S error StatusMessage) s m self :
  get (co_self s) = (Ok m, self) → fits m → lengthN (wire (ssz_serialize m)) ≤ co_room s →
  status_write get s
  = (Ok (), mkCoState (co_in s) (co_out s ++ wire (ssz_serialize m))
              (co_room s - lengthN (wire (ssz_serialize m))) (drop 2 (co_env s)) (resume 2 (co_env s) self)).
Proof.
  intros Hget Hfit Hroom. unfold status_write. erewrite sm_bind_ok by (by apply co_call_run).
  by rewrite sm_encode, co_compress_run.
Qed.

Lemma status_read_run {S} (on_ : StatusMessageReceived → SM S error ()) peer m rest s self :
  co_in s = wire (ssz_serialize m) ++ rest → fits m →
  on_ (mkStatusMessageReceived peer m) (resume 2 (co_env s) (co_self s)) = (Ok (), self) →
  status_read on_ peer s
  = (Ok (), mkCoState rest (co_out s) (co_room s) (drop 2 (co_env s)) self).
Proof.
  intros Hin Hfit Hon. unfold status_read.
  erewrite sm_bind_ok by (eapply co_uncompress_run; [done|apply ssz_nonempty|done]).
  rewrite sm_decode. by erewrite co_call_run by done.
Qed.

(** C9: in a status handshake each node hands the status that the other one sent to its handler,
    whatever the other handlers of both nodes do while the coroutines wait: with the bytes of the
    responder as the input of the initiator and the other way round both coroutines end with
    success, the initiator sends its status as it was when it connected, and the responder its
    own as it is after it handled the status it received. *)
Theorem status_handshake p1 p2 in1 in2 room1 room2 env1 env2 self1 self2 m1 x1 m2 x2 y1 y2 :
  (* the initiator's status, and the responder's after handling it *)
  get1 self1 = (Ok m1, x1) →
  on2 (mkStatusMessageReceived p1 m1) (resume 2 env2 self2) = (Ok (), y2) →
  get2 (resume 1 (drop 2 env2) y2) = (Ok m2, x2) →
  on1 (mkStatusMessageReceived p2 m2) (resume 5 env1 x1) = (Ok (), y1) →
  fits m1 → fits m2 →
  lengthN (wire (ssz_serialize m1)) ≤ room1 → 1 + lengthN (wire (ssz_serialize m2)) ≤ room2 →
  ∃ out1 out2 s1 s2,
    status_connect get1 on1 p2 (mkCoState (out2 ++ in1) [] room1 env1 self1) = (Ok (), s1) ∧
    status_coroHandle get2 on2 p1 (mkCoState (out1 ++ in2) [] room2 env2 self2) = (Ok (), s2) ∧
    co_out s1 = out1 ∧ co_out s2 = out2 ∧ co_in s1 = in1 ∧ co_in s2 = in2 ∧
    co_self s1 = y1 ∧ co_self s2 = resume 2 (drop 3 env2) x2.
Proof.
  intros Hget1 Hon2 Hget2 Hon1 Hf1 Hf2 Hr1 Hr2.
  exists (wire (ssz_serialize m1)), ([0] ++ wire (ssz_serialize m2)).
  do 2 eexists. split_and!.
  - unfold status_connect. erewrite sm_bind_ok by (by apply status_write_run). cbn [co_in co_out co_room co_env co_self].
    erewrite sm_bind_ok by (by apply (readResponseStatus_run 0)). cbn [co_in co_out co_room co_env co_self].
    rewrite drop_drop, resume_S. eapply status_read_run; [done|done|].
    cbn [co_env co_self]. rewrite resume_add. exact Hon1.
  - unfold status_coroHandle. erewrite sm_bind_ok by (by eapply status_read_run). cbn [co_in co_out co_room co_env co_self].
    unfold writeResponseStatus. erewrite sm_bind_ok by (apply co_write_run; cbn [co_room]; change (lengthN [0]) with 1; lia).
    cbn [co_in co_out co_room co_env co_self]. rewrite drop_drop.
    eapply status_write_run; [done|done|]. cbn [co_room]. change (lengthN [0]) with 1. lia.
  - done.
  - done.
  - done.
  - done.
  - done.
  - done.
Qed.
End status.

(** ** Block requests *)
Section block_request.
Context `{SnappyLaws} `{VarintLaws} `{SszLaws BlockRequest} `{SszLaws SignedBlock}.
Context {S1 S2 : Type} (tryGet : BlockHash → SM S2 error (option SignedBlock)).

(** What the server writes for a block. *)
Definition response (b : SignedBlock) : bytes := [0] ++ wire (ssz_serialize b).

Lemma respond_block_run h b s self :
  tryGet h (co_self s) = (Ok (Some b), self) → fits b → lengthN (response b) ≤ co_room s →
  respond_block tryGet h s
  = (Ok (), mkCoState (co_in s) (co_out s ++ response b) (co_room s - lengthN (response b))
              (drop 3 (co_env s)) (resume 3 (co_env s) self)).
Proof.
  intros Hget Hfit Hroom. unfold response in *. rewrite lengthN_app in Hroom. change (lengthN [0]) with 1 in Hroom.
  unfold respond_block. erewrite sm_bind_ok by (by apply co_call_run). cbv beta iota.
  unfold writeResponseStatus. erewrite sm_bind_ok by (apply co_write_run; cbn [co_room]; change (lengthN [0]) with 1; lia).
  rewrite sm_encode, co_compress_run; [|cbn [co_room]; change (lengthN [0]) with 1; lia|done].
  cbn [co_in co_out co_room co_env co_self]. rewrite drop_drop, resume_add, <- app_assoc, lengthN_app.
  change (lengthN [0]) with 1. by rewrite N.sub_add_distr.
Qed.

(** The lookup of the server answers with [lookup] in every state that satisfies [P], and keeps [P]. *)
Context (P : S2 → Prop) (lookup : BlockHash → result (option SignedBlock)).
Definition answers (h : BlockHash) : Prop :=
  ∀ self, P self → ∃ self', tryGet h self = (lookup h, self') ∧ P self'.

(** The blocks that are sent: until a lookup fails. *)
Fixpoint served (hs : list BlockHash) : list SignedBlock :=
  match hs with
  | [] => []
  | h :: hs =>
      match lookup h with
      | Ok (Some b) => b :: served hs
      | Ok None => served hs
      | _ => []
      end
  end.

Definition env_keeps (env : list (S2 → S2)) : Prop := Forall (λ f, ∀ x, P x → P (f x)) env.
Lemma resume_keeps n env self : env_keeps env → P self → P (resume n env self).
Proof.
  unfold resume. revert env self. induction n as [|n IH]; intros [|f env] self Henv HP; try done.
  apply Forall_cons in Henv as [Hf Henv]. apply (IH env); [done|by apply Hf].
Qed.

Lemma respond_blocks_run hs s :
  Forall answers hs → (∀ h x, h ∈ hs → lookup h ≠ Throw x) → env_keeps (co_env s) → P (co_self s) →
  Forall fits (served hs) → lengthN (concat (response <$> served hs)) ≤ co_room s →
  ∃ r s', sm_iter (respond_block tryGet) hs s = (r, s') ∧ (∀ x, r ≠ Throw x) ∧
    co_out s' = co_out s ++ concat (response <$> served hs) ∧ co_in s' = co_in s ∧ P (co_self s').
Proof.
  revert s. induction hs as [|h hs IH]; intros s Hans Hnt Henv HP Hfit Hroom.
  { exists (Ok ()), s. cbn. by rewrite app_nil_r. }
  apply Forall_cons in Hans as [Hh Hans]. destruct (Hh (co_self s) HP) as (self' & Hget & HP').
  assert (Hnt' : ∀ h x, h ∈ hs → lookup h ≠ Throw x) by (intros; apply Hnt; by right).
  cbn [served sm_iter] in *. destruct (lookup h) as [[b|]|e|x] eqn:Hb.
  - apply Forall_cons in Hfit as [Hfb Hfit]. rewrite fmap_cons in *. cbn [concat] in *. rewrite lengthN_app in Hroom.
    erewrite sm_bind_ok by (apply respond_block_run; [done|done|lia]).
    edestruct IH as (r & s' & Hrun & Hr & Hout & Hin & HPs'); [done|done| | |done| |].
    4:{ exists r, s'. split; [exact Hrun|]. split; [done|]. rewrite Hout, Hin. cbn [co_out co_in]. by rewrite app_assoc. }
    + by apply Forall_drop.
    + by apply resume_keeps.
    + cbn [co_room]. lia.
  - rewrite (sm_bind_ok _ _ s () (mkCoState (co_in s) (co_out s) (co_room s) (co_env s) self')).
    2:{ unfold respond_block. by erewrite sm_bind_ok by (by apply co_call_run). }
    destruct (IH (mkCoState (co_in s) (co_out s) (co_room s) (co_env s) self')) as (r & s' & Hrun & Hrest); try done.
    by exists r, s'.
  - eexists (Err _), _. split; [|split; [done|]].
    + erewrite sm_bind_err; [done|]. unfold respond_block. apply sm_bind_err. unfold co_call. by rewrite Hget.
    + cbn. by rewrite app_nil_r.
  - by destruct (Hnt h x ltac:(by left)).
Qed.

Lemma blocks_coroRespond_run roots in_ room env self :
  Forall answers roots → (∀ h x, h ∈ roots → lookup h ≠ Throw x) → env_keeps env → P self →
  Forall fits (served roots) → fits (mkBlockRequest roots) →
  lengthN (concat (response <$> served roots)) ≤ room →
  ∃ r s', blocks_coroRespond tryGet (mkCoState (wire (ssz_serialize (mkBlockRequest roots)) ++ in_) [] room env self)
          = (r, s') ∧ (∀ x, r ≠ Throw x) ∧ co_out s' = concat (response <$> served roots) ∧ co_in s' = in_ ∧ P (co_self s').
Proof.
  intros Hans Hnt Henv HP Hfits Hfit Hroom. unfold blocks_coroRespond.
  erewrite sm_bind_ok by (eapply co_uncompress_run; [done|apply ssz_nonempty|done]).
  rewrite sm_decode. cbn [co_out co_room co_env co_self br_roots].
  edestruct (respond_blocks_run roots) as (r & s' & Hrun & Hr & Hout & Hin & HPs'); [done|done| | |done| |].
  4:{ exists r, s'. split; [exact Hrun|]. by rewrite Hout, Hin. }
  - by apply Forall_drop.
  - by apply resume_keeps.
  - done.
Qed.

(** The requester reads the first block of the answer. *)
Lemma blocks_request_run request bs room env (self : S1) :
  fits request → lengthN (wire (ssz_serialize request)) ≤ room → Forall fits bs →
  ∃ s1, blocks_request request (mkCoState (concat (response <$> bs)) [] room env self)
        = (match bs with b :: _ => Ok b | [] => Err (E_Library STREAM_READ_ERROR) end, s1) ∧
    co_out s1 = wire (ssz_serialize request) ∧ co_in s1 = concat (response <$> drop 1 bs).
Proof.
  intros Hfit Hroom Hfits. unfold blocks_request. rewrite sm_encode.
  erewrite sm_bind_ok by (by apply co_compress_run). cbn [co_in co_out co_room co_env co_self].
  destruct bs as [|b bs].
  - cbn [fmap list_fmap concat drop]. eexists. split.
    + erewrite sm_bind_err; [done|]. unfold readResponseStatus. apply sm_bind_err. unfold co_reading.
      by erewrite sm_bind_ok by apply co_pause_run.
    + done.
  - apply Forall_cons in Hfits as [Hb Hfits]. rewrite fmap_cons. cbn [concat drop]. rewrite drop_0.
    unfold response at 1. rewrite <- app_assoc.
    erewrite sm_bind_ok by (by apply (readResponseStatus_run 0)). cbn [co_in co_out co_room co_env co_self].
    erewrite sm_bind_ok by (eapply co_uncompress_run; [done|apply ssz_nonempty|done]).
    eexists. split; [unfold sm_lift; by rewrite decode_encode|done].
Qed.
End block_request.

(** ** Requests to the block tree of another node *)
Section tree_request.
Context `{SnappyLaws} `{VarintLaws} `{SszLaws BlockRequest} `{SszLaws SignedBlock}.
Context {S : Type} `{!SszHash} `{!BlockStorage S} `{!BuildMode} `{!UnorderedMap} `{!BlockStorageLaws S}.

(** The tree over a storage that shows the blocks of [a] for [roots]. *)
Definition tree_shows (a : Abs) (roots : list BlockHash) (p : BlockTreeData S) : Prop :=
  ∃ t g ev a', at_state t g ev p a' ∧ ∀ h, h ∈ roots → abs_signed_block a' h = abs_signed_block a h.
(** What tryGetSignedBlock gives. *)
Definition tree_lookup (a : Abs) (h : BlockHash) : result (option SignedBlock) :=
  match abs_signed_block a h with Ok b => Ok (Some b) | Err e => Err e | Throw x => Throw x end.

Lemma tree_answers a roots h : h ∈ roots → answers tryGetSignedBlock (tree_shows a roots) (tree_lookup a) h.
Proof.
  intros Hh p (t & g & ev & a' & Hp & Ha). destruct (tryGetSignedBlock_spec h p t g ev a' Hp) as (p' & Hr & Hp').
  exists p'. rewrite Ha in Hr by done. split; [exact Hr|]. by exists t, g, ev, a'.
Qed.
Lemma tree_lookup_no_throw a h x : tree_lookup a h ≠ Throw x.
Proof. unfold tree_lookup, abs_signed_block. by repeat case_match. Qed.

(** C10: a node that asks a peer for blocks by their roots gets the block of the first root when the
    storage of the peer has it, whatever the peer does meanwhile that keeps these blocks.  When the
    storage does not have it the peer's lookup is an error: it writes nothing, no later root is
    served, and the request ends with an error of the stream.  Answers to later roots stay
    unread.  The peer never leaves with an exception. *)
Theorem block_request_served {S1} (a : Abs) h roots in2 room1 room2 env1 env2 (self1 : S1) p2 :
  let request := mkBlockRequest (h :: roots) in
  let answer := served (tree_lookup a) (h :: roots) in
  tree_shows a (h :: roots) p2 → env_keeps (tree_shows a (h :: roots)) env2 →
  fits request → Forall fits answer →
  lengthN (wire (ssz_serialize request)) ≤ room1 → lengthN (concat (response <$> answer)) ≤ room2 →
  ∃ out1 out2 s1 r2 s2,
    blocks_request request (mkCoState out2 [] room1 env1 self1)
    = (match abs_signed_block a h with Ok b => Ok b | _ => Err (E_Library STREAM_READ_ERROR) end, s1) ∧
    blocks_coroRespond tryGetSignedBlock (mkCoState (out1 ++ in2) [] room2 env2 p2) = (r2, s2) ∧
    co_out s1 = out1 ∧ co_out s2 = out2 ∧ (∀ x, r2 ≠ Throw x) ∧
    (a_header a h = None → out2 = []) ∧ co_in s1 = concat (response <$> drop 1 answer).
Proof.
  intros request answer Hp2 Henv Hreq Hans Hr1 Hr2.
  destruct (blocks_coroRespond_run tryGetSignedBlock (tree_shows a (h :: roots)) (tree_lookup a) (h :: roots)
    in2 room2 env2 p2) as (r2 & s2 & Hrun2 & Hnt & Hout2 & _); try done.
  { apply Forall_forall. intros. by apply tree_answers. }
  { intros. apply tree_lookup_no_throw. }
  destruct (blocks_request_run (S1 := S1) request answer room1 env1 self1) as (s1 & Hrun1 & Hout1 & Hin1); [done..|].
  exists (wire (ssz_serialize request)), (concat (response <$> answer)), s1, r2, s2. split_and!; try done.
  - rewrite Hrun1. f_equal. unfold answer. cbn [served]. unfold tree_lookup. by destruct (abs_signed_block a h).
  - intros Hh. unfold answer. cbn [served]. unfold tree_lookup, abs_signed_block. by rewrite Hh.
Qed.
End tree_request.

(** ** Gossip *)
Section gossip.
Context `{SnappyLaws}.

Lemma decode_published {T} `{SszLaws T} (x : T) b :
  encodeSszSnappy x = Ok b → fits x → decodeSszSnappy b = Ok (x, lengthN (ssz_serialize x)).
Proof.
  intros [= <-] Hfit. unfold decodeSszSnappy, uncompress, compress.
  rewrite compressed_length, uncompress_compress, (proj2 (N.ltb_ge _ _)) by done.
  cbn [mbind outcome_bind]. by rewrite decode_encode.
Qed.

(** The messages of a topic as they arrive: those published, between any that cannot be decoded. *)
Inductive arrives (T : Type) `{Ssz T} : list RawMessage → list RawMessage → Prop :=
| arrives_nil : arrives T [] []
| arrives_published raw raws published :
    arrives T raws published → arrives T (raw :: raws) (raw :: published)
| arrives_malformed raw raws published e :
    decodeSszSnappy (T := T) (rm_data raw) = Err e → arrives T raws published → arrives T (raw :: raws) published.

(** What the handler of a topic does with a message that was published as [x]. *)
Definition deliver {T S} `{Ssz T} (observe : N → SM S error ()) (f : T → option PeerId → SM S error ())
    (m : T * option PeerId) : SM S error () :=
  observe (lengthN (ssz_serialize m.1)) ≫= λ _, f m.1 m.2.

Lemma gossip_run {T S} `{SszLaws T} (observe : N → SM S error ()) (f : T → option PeerId → SM S error ())
    raws (xs : list T) (from : list (option PeerId)) s :
  Forall fits xs → length from = length xs →
  arrives T raws (zip_with mkRawMessage ((λ x, compress (ssz_serialize x)) <$> xs) from) →
  gossipSubscribe observe f raws s = sm_iter (deliver observe f) (zip xs from) s.
Proof.
  intros Hfit Hlen Harr. remember (zip_with _ _ _) as published eqn:Hp. revert s xs from Hfit Hlen Hp.
  induction Harr as [|raw raws published Harr IH|raw raws published e Hd Harr IH]; intros s xs from Hfit Hlen Hp.
  - by destruct xs, from.
  - destruct xs as [|x xs], from as [|p from]; try done. injection Hp as -> ->. injection Hlen as Hlen.
    apply Forall_cons in Hfit as [Hx Hfit].
    unfold gossipSubscribe in *. cbn [zip zip_with sm_iter].
    assert (Hm : gossip_message observe f (mkRawMessage (compress (ssz_serialize x)) p) s = deliver observe f (x, p) s).
    { unfold gossip_message. cbn [rm_data rm_received_from].
      rewrite (decode_published x (compress (ssz_serialize x)) eq_refl Hx). done. }
    unfold mbind, sm_bind. rewrite Hm. destruct (deliver observe f (x, p) s) as [[]]; [|done..]. by apply IH.
  - unfold gossipSubscribe in *. cbn [sm_iter]. erewrite sm_bind_ok; [by apply IH|].
    unfold gossip_message. rewrite Hd. done.
Qed.

(** C11: a subscriber of the block topic hands every published block to receiveBlock, once and in the
    order of arrival, with the peer it came from: a block that one node publishes is the block
    that the other one decodes, and messages that cannot be decoded are skipped without ending
    the subscription. *)
Theorem gossip_delivers_blocks {C} `{Chain C} `{SszHash} `{UnorderedMultimap} `{SszLaws SignedBlock}
    (sent : list SignedBlock) (from : list (option PeerId)) now (observe : N → SM (Networking C) error ())
    (t : Topics) (n : Networking C) :
  Forall fits sent → length from = length sent →
  ∃ t' data, sm_iter onSendSignedBlock sent t = (Ok (), t') ∧ tp_blocks t' = tp_blocks t ++ data ∧
    ∀ raws, arrives SignedBlock raws (zip_with mkRawMessage data from) →
      gossipSubscribe observe (λ sb from_peer, receiveBlock now from_peer sb) raws n
      = sm_iter (deliver observe (λ sb from_peer, receiveBlock now from_peer sb)) (zip sent from) n.
Proof.
  intros Hfit Hlen.
  assert (Hsend : ∃ t', sm_iter onSendSignedBlock sent t = (Ok (), t') ∧
    tp_blocks t' = tp_blocks t ++ ((λ x, compress (ssz_serialize x)) <$> sent)).
  { clear. revert t. induction sent as [|x sent IH]; intros t.
    - exists t. cbn. by rewrite app_nil_r.
    - destruct (IH (mkTopics (tp_blocks t ++ [compress (ssz_serialize x)]) (tp_votes t) (tp_aggregations t)))
        as (t' & Hrun & Hb).
      exists t'. split; [exact Hrun|]. rewrite Hb. cbn [tp_blocks fmap list_fmap]. by rewrite <- app_assoc. }
  destruct Hsend as (t' & Hrun & Hb). exists t', ((λ x, compress (ssz_serialize x)) <$> sent).
  split; [exact Hrun|]. split; [exact Hb|]. intros raws Harr. by apply gossip_run.
Qed.
End gossip.

(** ** Message identifiers *)
Section message_id.
Context `{SnappyLibrary} `{Sha256Library}.

(** What a message says: the data it decompresses to, or its bytes when it does not. *)
Definition content (m : Message) : bytes + bytes :=
  match uncompress (gm_data m) kDefaultMaxSize with
  | Ok uncompressed => inl uncompressed
  | _ => inr (gm_data m)
  end.
Definition preimage (topic : bytes) (c : bytes + bytes) : bytes :=
  match c with
  | inl data => store_little 8 (lengthN topic) ++ topic ++ MESSAGE_DOMAIN_VALID_SNAPPY ++ data
  | inr data => MESSAGE_DOMAIN_INVALID_SNAPPY ++ store_little 8 (lengthN topic) ++ topic ++ data
  end.

Lemma gossip_preimage_eq m : gossip_preimage m = Ok (preimage (gm_topic m) (content m)).
Proof.
  unfold gossip_preimage, content, preimage, hash_topic. unfold uncompress. repeat case_match; try done;
    simplify_eq; by rewrite ?app_nil_l, <- ?app_assoc.
Qed.

Lemma store_little_8 v :
  store_little 8 v = [v mod 256; v / 256 mod 256; v / 256 / 256 mod 256; v / 256 / 256 / 256 mod 256;
    v / 256 / 256 / 256 / 256 mod 256; v / 256 / 256 / 256 / 256 / 256 mod 256;
    v / 256 / 256 / 256 / 256 / 256 / 256 mod 256; v / 256 / 256 / 256 / 256 / 256 / 256 / 256 mod 256].
Proof. change 8 with (N.succ (N.succ (N.succ (N.succ (N.succ (N.succ (N.succ (N.succ 0)))))))). by rewrite !store_little_S. Qed.

Lemma low_bytes_zero v :
  v < 2 ^ 32 → v mod 256 = 0 → v / 256 mod 256 = 0 → v / 256 / 256 mod 256 = 0 → v / 256 / 256 / 256 mod 256 = 0 → v = 0.
Proof.
  intros Hv H1 H2 H3 H4. rewrite !N.Div0.div_div in *. change (2 ^ 32) with 4294967296 in Hv.
  zify; Z.to_euclidean_division_equations; lia.
Qed.

Lemma preimage_topics topic1 topic2 l1 l2 :
  lengthN topic1 < 2 ^ 32 → lengthN topic2 < 2 ^ 32 →
  store_little 8 (lengthN topic1) ++ topic1 ++ l1 = store_little 8 (lengthN topic2) ++ topic2 ++ l2 →
  topic1 = topic2 ∧ l1 = l2.
Proof.
  intros H1 H2 Heq.
  assert (Hl : length (store_little 8 (lengthN topic1)) = length (store_little 8 (lengthN topic2))).
  { apply Nnat.Nat2N.inj. change (lengthN (store_little 8 (lengthN topic1)) = lengthN (store_little 8 (lengthN topic2))).
    by rewrite !length_store_little. }
  apply app_inj_1 in Heq as [Hs Heq]; [|done]. apply (f_equal load_little) in Hs.
  rewrite !load_store_little in Hs by (eapply N.lt_trans; [eassumption|by vm_compute]).
  apply app_inj_1 in Heq; [done|]. unfold lengthN in Hs. by apply Nnat.Nat2N.inj.
Qed.

(** Topics are shorter than 4 GiB: then the two domains cannot be confused, although they stand at
    different places. *)
Lemma preimage_inj topic1 c1 topic2 c2 :
  lengthN topic1 < 2 ^ 32 → lengthN topic2 < 2 ^ 32 →
  preimage topic1 c1 = preimage topic2 c2 → topic1 = topic2 ∧ c1 = c2.
Proof.
  assert (Hmix : ∀ t1 d1 t2 d2, lengthN t1 < 2 ^ 32 → lengthN t2 < 2 ^ 32 →
    preimage t1 (inl d1) = preimage t2 (inr d2) → False).
  { clear. intros t1 d1 t2 d2 H1 H2. cbn [preimage]. rewrite !store_little_8. intros Heq.
    injection Heq as E0 E1 E2 E3 E4 E5 E6 E7 Heq.
    apply low_bytes_zero in H1 as Hz1; [|done..]. rewrite Hz1 in *.
    apply low_bytes_zero in H2 as Hz2; [|by rewrite <- ?E4, <- ?E5, <- ?E6, <- ?E7..].
    assert (t1 = []) as -> by (by destruct t1). rewrite Hz2 in Heq. by injection Heq. }
  intros H1 H2 Heq. destruct c1 as [d1|d1], c2 as [d2|d2].
  - apply preimage_topics in Heq as [-> Heq]; [|done..]. by apply app_inv_head in Heq as ->.
  - by apply Hmix in Heq.
  - symmetry in Heq. by apply Hmix in Heq.
  - apply app_inv_head in Heq. by apply preimage_topics in Heq as [-> ->].
Qed.

(** The identifier of a gossip message depends on its topic and its decompressed data only, so one
    message compressed in two ways is seen as one; and two messages with different topics or
    different data have different identifiers, unless the hash itself collides: equal
    identifiers exhibit two different inputs of SHA-256 with the same first twenty bytes. *)
Theorem gossip_id_identifies m1 m2 :
  lengthN (gm_topic m1) < 2 ^ 32 → lengthN (gm_topic m2) < 2 ^ 32 →
  (∃ id, gossipMessageId m1 = Ok id) ∧
  (gm_topic m1 = gm_topic m2 → content m1 = content m2 → gossipMessageId m1 = gossipMessageId m2) ∧
  (gossipMessageId m1 = gossipMessageId m2 →
   gm_topic m1 = gm_topic m2 ∧ content m1 = content m2 ∨
   ∃ x y, x ≠ y ∧ resize 20 (sha256_digest x) = resize 20 (sha256_digest y)).
Proof.
  intros H1 H2. unfold gossipMessageId. rewrite !gossip_preimage_eq. cbn [mbind outcome_bind].
  split; [by eexists|]. split; [by intros -> ->|]. intros [= Heq].
  destruct (decide (preimage (gm_topic m1) (content m1) = preimage (gm_topic m2) (content m2))) as [Hp|Hp].
  - left. by apply preimage_inj.
  - right. by do 2 eexists.
Qed.
End message_id.

(** ** Arbitrary input *)
Section input.
Context `{SnappyLibrary} `{Varint} {S : Type}.

Definition may_throw {A B} (P : exn → Prop) (m : SM A error B) : Prop :=
  ∀ s x s', m s = (Throw x, s') → P x.

Lemma may_throw_bind {A B B'} P (m : SM A error B) (f : B → SM A error B') :
  may_throw P m → (∀ b, may_throw P (f b)) → may_throw P (m ≫= f).
Proof.
  intros Hm Hf s x s'. unfold mbind, sm_bind. destruct (m s) as [[b|e|y] s1] eqn:Hs; [apply Hf|done|].
  intros [= <- _]. by eapply Hm.
Qed.
Lemma may_throw_lift {A B} P (m : result B) : throws_only P m → may_throw (A := A) P (sm_lift m).
Proof. intros Hm s x s' [= Hx _]. by rewrite Hx in Hm. Qed.
Lemma may_throw_iter {A B} P (f : B → SM A error ()) l : (∀ x, may_throw P (f x)) → may_throw P (sm_iter f l).
Proof. intros Hf. induction l as [|x l IH]; [done|]. by apply may_throw_bind. Qed.
Lemma may_throw_mono {A B} (P Q : exn → Prop) (m : SM A error B) :
  (∀ x, P x → Q x) → may_throw P m → may_throw Q m.
Proof. intros HPQ Hm s x s' Hs. eapply HPQ, Hm, Hs. Qed.

Lemma co_reading_throw {A} P (m : SM bytes error A) : may_throw P m → may_throw P (co_reading (S := S) m).
Proof.
  intros Hm. apply may_throw_bind.
  - intros s x s'. by rewrite co_pause_run.
  - intros _ s x s'. destruct (m (co_in s)) as [r rest] eqn:Hr. intros [= -> _]. by eapply Hm.
Qed.
Lemma co_write_throw P b : may_throw P (co_write (S := S) b).
Proof.
  apply may_throw_bind; [intros s x s'; by rewrite co_pause_run|]. intros _ s x s'. by case_match.
Qed.
Lemma co_call_throw {A} P (m : SM S error A) : may_throw P m → may_throw P (co_call m).
Proof. intros Hm s x s'. unfold co_call. destruct (m (co_self s)) as [r self] eqn:Hr. intros [= -> _]. by eapply Hm. Qed.

Lemma compress_chunks_throws P fuel input framed : (length input ≤ fuel)%nat → throws_only P (compress_chunks fuel input framed).
Proof.
  revert input framed. induction fuel as [|fuel IH]; intros [|x input] framed Hf; try done; [cbn in Hf; lia|].
  cbn [compress_chunks]. apply IH. rewrite length_drop. cbn [length] in *.
  assert (0 < kMaxBlockSize) by (by vm_compute). unfold lengthN. cbn [length]. lia.
Qed.
Lemma co_compress_throw P message : may_throw P (co_compress (S := S) message).
Proof.
  apply may_throw_bind; [|intros; apply may_throw_bind; intros; apply co_write_throw].
  apply may_throw_lift. unfold coCompressFramed. apply throws_only_bind; [by apply compress_chunks_throws|done].
Qed.

(** The exceptions that a peer can cause: undefined behaviour in the frames, an exception of the
    SSZ library other than those decode catches, or one of the library that reads a varint. *)
Definition input_exn (varint : exn → Prop) (x : exn) : Prop := x = UndefinedBehaviour ∨ x = RuntimeError ∨ varint x.

Lemma co_uncompress_throw varint : may_throw varint readVarint → may_throw (input_exn varint) (co_uncompress (S := S)).
Proof.
  intros Hv. apply may_throw_bind.
  - apply co_reading_throw. eapply may_throw_mono; [|exact Hv]. unfold input_exn. naive_solver.
  - intros size. apply co_reading_throw. intros s x s'. unfold coUncompressFramed. case_match; [done|].
    intros Hc. left. eapply co_chunks_throws; [|exact Hc]. lia.
Qed.
Lemma decode_throw {T} `{Ssz T} varint b : throws_only (input_exn varint) (decode (T := T) b).
Proof. unfold decode. destruct (ssz_deserialize b) as [|[]]; try done. right. by left. Qed.

(** Whatever bytes a peer sends, the handlers of both request protocols end: they never run out of
    fuel, and the only exceptions are those of the calls into the node, the undefined behaviour of
    a chunk shorter than its checksum, and exceptions of the libraries that read varints and SSZ. *)
Theorem request_handlers_end `{Ssz StatusMessage} `{Ssz BlockRequest} `{Ssz SignedBlock} varint node
    (get_status : SM S error StatusMessage) (on_status : StatusMessageReceived → SM S error ()) peer
    (tryGet : BlockHash → SM S error (option SignedBlock)) :
  may_throw varint readVarint →
  may_throw node get_status → (∀ m, may_throw node (on_status m)) → (∀ h, may_throw node (tryGet h)) →
  may_throw (λ x, input_exn varint x ∨ node x) (status_coroHandle get_status on_status peer) ∧
  may_throw (λ x, input_exn varint x ∨ node x) (blocks_coroRespond tryGet).
Proof.
  intros Hv Hget Hon Hblock. set (P := λ x, input_exn varint x ∨ node x).
  assert (Hu : may_throw P (co_uncompress (S := S))).
  { eapply may_throw_mono; [|by apply co_uncompress_throw]. by left. }
  assert (Hn : ∀ A (m : SM S error A), may_throw node m → may_throw P (co_call m)).
  { intros A m Hm. apply co_call_throw. eapply may_throw_mono; [|exact Hm]. by right. }
  assert (Hd : ∀ T (HT : Ssz T) b, may_throw (A := CoState S) P (sm_lift (decode (T := T) b))).
  { intros. apply may_throw_lift. pose proof (decode_throw varint b) as Hb. destruct (decode b); [done..|by left]. }
  assert (Hw : ∀ m, may_throw P (co_compress (S := S) m)) by (intros; apply co_compress_throw).
  split.
  - repeat (apply Hu || apply Hd || (apply Hn; by eauto) || apply Hw || apply co_write_throw ||
            (apply may_throw_lift; done) || (apply may_throw_bind; [|intros])).
  - apply may_throw_bind; [apply Hu|]. intros. apply may_throw_bind; [apply Hd|]. intros.
    apply may_throw_iter. intros. apply may_throw_bind; [apply Hn, Hblock|]. intros [b'|]; [|done].
    apply may_throw_bind; [apply co_write_throw|]. intros _. apply may_throw_bind; [by apply may_throw_lift|]. intros. apply Hw.
Qed.
End input.

(** ** Two nodes that exchange blocks, with toy libraries *)
Module ProtoEx.
#[local] Existing Instance SnappyEx.ToySnappy.
#[local] Existing Instance SnappyEx.ToySnappy_laws.
#[local] Existing Instance ReleaseBuild.
#[local] Existing Instance CanonicalOrder.
#[local] Existing Instance AppendOrder.

#[global] Instance Block_countable : Countable Block.
Proof.
  refine (inj_countable' (λ b, (b_slot b, b_proposer_index b, b_parent_root b, b_state_root b, b_body b))
    (λ '(a, b, c, d, e), mkBlock a b c d e) _). by intros [].
Defined.
#[global] Instance SignedBlock_countable : Countable SignedBlock.
Proof. refine (inj_countable' (λ b, (sb_block b, sb_signature b)) (λ '(b, s), mkSignedBlock b s) _). by intros []. Defined.
#[global] Instance StatusMessage_eq_dec : EqDecision StatusMessage.
Proof. solve_decision. Defined.
#[global] Instance StatusMessage_countable : Countable StatusMessage.
Proof. refine (inj_countable' (λ m, (sm_finalized m, sm_head m)) (λ '(f, h), mkStatusMessage f h) _). by intros []. Defined.
#[global] Instance BlockRequest_eq_dec : EqDecision BlockRequest.
Proof. solve_decision. Defined.
#[global] Instance BlockRequest_countable : Countable BlockRequest.
Proof. refine (inj_countable' br_roots mkBlockRequest _). by intros []. Defined.

(** A value is one number. *)
#[local] Instance ToySsz T `{Countable T} : Ssz T := {|
  ssz_serialize x := [N.pos (countable.encode x)];
  ssz_deserialize b :=
    match b with
    | [N.pos p] => match countable.decode p with Some x => inl x | None => inr SszOutOfRange end
    | _ => inr SszInvalidArgument
    end;
|}.
#[local] Instance ToySsz_laws T `{Countable T} : SszLaws T.
Proof. split; cbn; [|done]. intros x. by rewrite countable.decode_encode. Defined.
#[local] Instance ToyVarint : Varint := {|
  EncodeVarint n := [n];
  readVarint b := match b with n :: rest => (Ok n, rest) | [] => (Err (E_Library STREAM_READ_ERROR), []) end;
|}.
#[local] Instance ToyVarint_laws : VarintLaws.
Proof. by split. Defined.
#[local] Instance ToySha : Sha256Library := λ b, rev b.

(** A node of the handshake: its own status and those it has received. *)
Definition node : Type := StatusMessage * list StatusMessageReceived.
Definition get : SM node error StatusMessage := λ n, (Ok n.1, n).
Definition on_ (m : StatusMessageReceived) : SM node error () := λ n, (Ok (), (n.1, n.2 ++ [m])).
Definition status1 := mkStatusMessage (mkCheckpoint 1 0) (mkCheckpoint 5 3).
Definition status2 := mkStatusMessage (mkCheckpoint 1 0) (mkCheckpoint 7 9).

(** While the responder waits it imports a block and its status changes. *)
Lemma status_handshake_witness :
  ∃ out1 out2 s1 s2,
    status_connect get on_ 20 (mkCoState (out2 ++ []) [] 1000 [] (status1, [])) = (Ok (), s1) ∧
    status_coroHandle get on_ 10 (mkCoState (out1 ++ []) [] 1000 [λ n, (status2, n.2)] (status1, [])) = (Ok (), s2) ∧
    co_self s1 = (status1, [mkStatusMessageReceived 20 status2]) ∧
    co_self s2 = (status2, [mkStatusMessageReceived 10 status1]).
Proof.
  destruct (status_handshake get on_ get on_ 10 20 [] [] 1000 1000 [] [λ n, (status2, n.2)] (status1, []) (status1, [])
    status1 (status1, []) status2 (status2, [mkStatusMessageReceived 10 status1])
    (status1, [mkStatusMessageReceived 20 status2]) (status2, [mkStatusMessageReceived 10 status1]))
    as (out1 & out2 & s1 & s2 & H1 & H2 & _ & _ & _ & _ & H3 & H4); [by vm_compute..|].
  exists out1, out2, s1, s2. exact (conj H1 (conj H2 (conj H3 H4))).
Defined.

Definition root : BlockHash := block_hash (sb_block BtEx.block).
Lemma block_shown : ∃ a, tree_shows a [root] BtEx.p1 ∧ abs_signed_block a root = Ok BtEx.block.
Proof.
  destruct (addBlock_spec BtEx.block (TreeNode_root (header_index BtEx.genesis)) BtEx.p0 _ _ _ BtEx.a0 BtEx.p0_at BtEx.p0_wf)
    as (t' & a' & (p' & Hr & Hp') & _ & _ & _ & _ & _ & Hh & Hb & Hs & _); [by vm_compute..|].
  exists a'. split.
  - unfold BtEx.p1. rewrite Hr. eexists _, _, _, a'. split; [exact Hp'|intros; exact eq_refl].
  - unfold abs_signed_block. rewrite Hh, Hb, Hs. unfold upd, root. rewrite !decide_True by exact eq_refl. exact eq_refl.
Qed.

Lemma block_request_served_witness :
  ∃ out1 out2 s1 r2 s2,
    blocks_request (mkBlockRequest [root]) (mkCoState out2 [] 1000 [] ()) = (Ok BtEx.block, s1) ∧
    blocks_coroRespond tryGetSignedBlock (mkCoState (out1 ++ []) [] 1000 [] BtEx.p1) = (r2, s2) ∧
    co_out s1 = out1 ∧ co_out s2 = out2.
Proof.
  destruct block_shown as (a & Hshow & Hb).
  assert (Hans : served (tree_lookup a) [root] = [BtEx.block]) by (cbn [served]; unfold tree_lookup; rewrite Hb; exact eq_refl).
  destruct (block_request_served a root [] [] 1000 1000 [] [] () BtEx.p1 Hshow)
    as (out1 & out2 & s1 & r2 & s2 & H1 & H2 & H3 & H4 & _).
  - constructor.
  - by vm_compute.
  - rewrite Hans. constructor; [by vm_compute|constructor].
  - by vm_compute.
  - rewrite Hans. by vm_compute.
  - exists out1, out2, s1, r2, s2. rewrite Hb in H1. exact (conj H1 (conj H2 (conj H3 H4))).
Defined.

#[local] Existing Instance FcStore.ToyXmss.
#[local] Existing Instance FcStore.ToyKeys.
#[local] Existing Instance FcStore.ToyFuel.

Definition no_metric : N → SM (Networking (ForkChoiceStore ToyS)) error () := λ _, mret ().
(** A published block arrives after a message that is not snappy data of a block. *)
Definition malformed : RawMessage := mkRawMessage [] (Some 4).
Lemma gossip_delivers_blocks_witness :
  ∃ t' data, sm_iter onSendSignedBlock [NetEx.sb2] (mkTopics [] [] []) = (Ok (), t') ∧ tp_blocks t' = [] ++ data ∧
    gossipSubscribe no_metric (λ sb from_peer, receiveBlock 10 from_peer sb)
      (malformed :: zip_with mkRawMessage data [Some 5]) NetEx.start
    = sm_iter (deliver no_metric (λ sb from_peer, receiveBlock 10 from_peer sb)) [(NetEx.sb2, Some 5)] NetEx.start.
Proof.
  destruct (gossip_delivers_blocks [NetEx.sb2] [Some 5] 10 no_metric (mkTopics [] [] []) NetEx.start)
    as (t' & data & H1 & H2 & H3).
  - constructor; [by vm_compute|constructor].
  - exact eq_refl.
  - exists t', data. split; [exact H1|]. split; [exact H2|]. apply H3.
    apply (arrives_malformed _ _ _ _ (E_Ssz DecodeError)); [by vm_compute|].
    destruct data as [|d [|d' data]]; repeat constructor.
Defined.

(** One message in two encodings: the second is not compressed by the toy library at all. *)
Definition topic : bytes := gossipTopic [98; 108; 111; 99; 107].
Lemma gossip_id_identifies_witness :
  gossipMessageId (mkMessage topic [1; 2]) ≠ gossipMessageId (mkMessage topic [1; 3]).
Proof.
  intros Heq.
  destruct (gossip_id_identifies (mkMessage topic [1; 2]) (mkMessage topic [1; 3])) as (_ & _ & Hid); [by vm_compute..|].
  destruct (Hid Heq) as [[_ Hc]|_]; [by vm_compute in Hc|]. by vm_compute in Heq.
Defined.

Lemma request_handlers_end_witness :
  ∀ x s', status_coroHandle get on_ 10 (mkCoState [5; ChunkType_Compressed; 0; 0; 0] [] 1000 [] (status1, [])) = (Throw x, s') →
    x = UndefinedBehaviour ∨ x = RuntimeError.
Proof.
  intros x s' Hrun.
  destruct (request_handlers_end (λ _, False) (λ _, False) get on_ 10 (λ _ n, (Ok None, n))) as [H1 _].
  - by intros [|n b] x' b'.
  - by intros n x' n'.
  - by intros m n x' n'.
  - by intros h n x' n'.
  - destruct (H1 _ _ _ Hrun) as [[?|[?|[]]]|[]]; [by left|by right].
Defined.
(** Such a message is one frame of four bytes. *)
Lemma peer_causes_undefined_behaviour :
  (status_coroHandle get on_ 10 (mkCoState [5; ChunkType_Compressed; 0; 0; 0] [] 1000 [] (status1, []))).1
  = Throw UndefinedBehaviour.
Proof. by vm_compute. Qed.
End ProtoEx.
