(* ===== verification/Yaml.v ===== *)
(** * YAML documents (src/src/serde/yaml.hpp)

    A parsed document of yaml-cpp and the accessors of the program. *)

From S2P Require Import Prelude Errors Rlp.

(** A YAML document; [Undefined] is what looking up a missing key gives, [Null] an empty
    value. *)
Inductive Yaml :=
| Null
| Scalar (text : bytes)
| Sequence (items : list Yaml)
| Map (entries : list (bytes * Yaml))
| Undefined.

(** YAML::Node::as of an unsigned integer; a text that is no number throws. *)
Class YamlNumber := as_number : bytes → result N.

Definition yaml_error {A} : result A := Throw RuntimeError.

Definition yaml_lookup (key : bytes) (entries : list (bytes * Yaml)) : Yaml :=
  match list_find (λ e, e.1 = key) entries with Some (_, e) => e.2 | None => Undefined end.

(** Node::map(key), Node::map(), Node::list(), Node::str(), Node::num() *)
Definition yaml_key (key : bytes) (yaml : Yaml) : result Yaml :=
  match yaml with Map entries => Ok (yaml_lookup key entries) | _ => yaml_error end.
Definition yaml_map (yaml : Yaml) : result (list (bytes * Yaml)) :=
  match yaml with Map entries => Ok entries | _ => yaml_error end.
Definition yaml_list (yaml : Yaml) : result (list Yaml) :=
  match yaml with Sequence items => Ok items | _ => yaml_error end.
Definition yaml_str (yaml : Yaml) : result bytes :=
  match yaml with Scalar text => Ok text | _ => yaml_error end.
Definition yaml_num `{YamlNumber} (yaml : Yaml) : result N :=
  match yaml with Scalar text => as_number text | _ => yaml_error end.
