(* ===== verification/Registry.v ===== *)
(** * Validator registry (src/src/blockchain/impl/validator_registry_impl.cpp, serde/yaml.hpp)

    The table of which node runs which validators, read from a YAML file.  Node ids are
    strings, lists of bytes. *)

From S2P Require Import Prelude Errors Types Rlp Yaml.

(** ** ValidatorRegistryImpl *)
Record ValidatorRegistryImpl := mkValidatorRegistryImpl {
  index_to_node : gmap ValidatorIndex bytes;
  node_to_indices : gmap bytes (list ValidatorIndex);
  current_validator_indices : gset ValidatorIndex;
}.

Definition nodeIdByIndex (r : ValidatorRegistryImpl) (index : ValidatorIndex) : option bytes :=
  index_to_node r !! index.

Definition validatorIndicesForNodeId (r : ValidatorRegistryImpl) (node_id : bytes) : option (gset ValidatorIndex) :=
  match node_id with
  | [] => None
  | _ =>
      match node_to_indices r !! node_id with
      | Some (i :: l) => Some (list_to_set (i :: l))
      | _ => None
      end
  end.

Definition currentValidatorIndices (r : ValidatorRegistryImpl) : gset ValidatorIndex := current_validator_indices r.

Definition allValidatorsIndices (r : ValidatorRegistryImpl) : gset ValidatorIndex := dom (index_to_node r).

(** The loop over the indices of a node: [node_indices] is a reference into the table. *)
Fixpoint assign_indices (node_id : bytes) (indices : list ValidatorIndex) (r : ValidatorRegistryImpl)
    : result ValidatorRegistryImpl :=
  match indices with
  | [] => Ok r
  | idx :: indices =>
      match index_to_node r !! idx with
      | Some node => if decide (node = node_id) then assign_indices node_id indices r else Throw SystemError
      | None =>
          assign_indices node_id indices
            (mkValidatorRegistryImpl (<[idx := node_id]> (index_to_node r))
               (<[node_id := default [] (node_to_indices r !! node_id) ++ [idx]]> (node_to_indices r))
               (current_validator_indices r))
      end
  end.

Section registry.
Context `{YamlNumber}.

(** index in bytes *)
Definition key_index : bytes := [105; 110; 100; 101; 120].

Definition read_indices (yaml_items : Yaml) : result (list ValidatorIndex) :=
  items ← yaml_list yaml_items;
  oc_foldl (λ l item, node ← yaml_key key_index item; i ← yaml_num node; Ok (l ++ [i])) [] items.

Definition add_entry (r : ValidatorRegistryImpl) (entry : bytes * Yaml) : result ValidatorRegistryImpl :=
  indices ← read_indices entry.2;
  match indices with
  | [] => Ok r
  | _ =>
      (* node_to_indices_[node_id] *)
      assign_indices entry.1 indices
        (mkValidatorRegistryImpl (index_to_node r)
           (<[entry.1 := default [] (node_to_indices r !! entry.1)]> (node_to_indices r))
           (current_validator_indices r))
  end.

(** The constructor. *)
Definition ValidatorRegistryImpl_new (yaml : Yaml) (current_node_id : bytes) : result ValidatorRegistryImpl :=
  entries ← yaml_map yaml;
  r ← oc_foldl add_entry (mkValidatorRegistryImpl ∅ ∅ ∅) entries;
  match current_node_id with
  | [] => Ok r
  | _ =>
      Ok (match validatorIndicesForNodeId r current_node_id with
          | Some indices => mkValidatorRegistryImpl (index_to_node r) (node_to_indices r) indices
          | None => r
          end)
  end.

(** ** Consistency *)

(** The table says that [node_id] runs validator [i]. *)
Definition listed (entries : list (bytes * Yaml)) (node_id : bytes) (i : ValidatorIndex) : Prop :=
  ∃ yaml indices, (node_id, yaml) ∈ entries ∧ read_indices yaml = Ok indices ∧ i ∈ indices.

(** The two tables agree, and no index is listed twice. *)
Record registry_wf (r : ValidatorRegistryImpl) : Prop := {
  rw_agree n l : node_to_indices r !! n = Some l → NoDup l ∧ ∀ i, i ∈ l ↔ index_to_node r !! i = Some n;
  rw_known i n : index_to_node r !! i = Some n → is_Some (node_to_indices r !! n);
}.

Lemma assign_indices_spec node_id indices r :
  registry_wf r → is_Some (node_to_indices r !! node_id) →
  (∀ i n, i ∈ indices → index_to_node r !! i = Some n → n = node_id) →
  ∃ r', assign_indices node_id indices r = Ok r' ∧ registry_wf r' ∧
    current_validator_indices r' = current_validator_indices r ∧
    (∀ i n, index_to_node r' !! i = Some n ↔ index_to_node r !! i = Some n ∨ (n = node_id ∧ i ∈ indices)).
Proof.
  revert r. induction indices as [|idx indices IH]; intros r Hw Hnode Hfree.
  { exists r. split; [done|]. split; [done|]. split; [done|]. intros. rewrite elem_of_nil. naive_solver. }
  cbn [assign_indices]. destruct (index_to_node r !! idx) as [n|] eqn:Hidx.
  - assert (n = node_id) as -> by (eapply Hfree; [by left|done]). rewrite decide_True by done.
    destruct (IH r Hw Hnode) as (r' & Hr & Hw' & Hc & Hin). { intros i m Hi. apply Hfree. by right. }
    exists r'. split; [done|]. split; [done|]. split; [done|]. intros i m. rewrite Hin, elem_of_cons. naive_solver.
  - destruct Hnode as [l Hl]. rewrite Hl. cbn [default id].
    set (r1 := mkValidatorRegistryImpl _ _ _). destruct (rw_agree _ Hw node_id l Hl) as [Hnd Hag].
    destruct (IH r1) as (r' & Hr & Hw' & Hc & Hin).
    + constructor; unfold r1; cbn [index_to_node node_to_indices].
      * intros n k. rewrite lookup_insert_Some. intros [[<- <-]|[Hne Hk]].
        -- split.
           ++ apply NoDup_app. split; [done|]. split; [|apply NoDup_singleton].
              intros x Hx ->%list_elem_of_singleton. apply Hag in Hx. congruence.
           ++ intros i. rewrite elem_of_app, list_elem_of_singleton, lookup_insert_Some, Hag.
              destruct (decide (i = idx)) as [->|]; naive_solver.
        -- destruct (rw_agree _ Hw n k Hk) as [Hndk Hagk]. split; [done|]. intros i. rewrite Hagk, lookup_insert_Some.
           destruct (decide (i = idx)) as [->|]; naive_solver.
      * intros i n. rewrite lookup_insert_Some. intros [[_ <-]|[_ Hi]].
        -- rewrite lookup_insert_eq. by eexists.
        -- destruct (decide (n = node_id)) as [->|]; [rewrite lookup_insert_eq; by eexists|].
           rewrite lookup_insert_ne by done. by eapply rw_known.
    + unfold r1. cbn [node_to_indices]. rewrite lookup_insert_eq. by eexists.
    + intros i n Hi. unfold r1. cbn [index_to_node]. rewrite lookup_insert_Some.
      intros [[_ <-]|[_ Hi']]; [done|]. eapply Hfree; [by right|done].
    + exists r'. split; [done|]. split; [done|]. split; [done|]. intros i n. rewrite Hin, elem_of_cons. unfold r1. cbn [index_to_node].
      rewrite lookup_insert_Some. destruct (decide (i = idx)) as [->|]; naive_solver.
Qed.

Lemma assign_indices_clash node_id indices r i n :
  i ∈ indices → index_to_node r !! i = Some n → n ≠ node_id → assign_indices node_id indices r = Throw SystemError.
Proof.
  revert r. induction indices as [|idx indices IH]; intros r Hi Hn Hne; [by apply elem_of_nil in Hi|].
  cbn [assign_indices]. apply elem_of_cons in Hi as [->|Hi]; [by rewrite Hn, decide_False|].
  destruct (index_to_node r !! idx) as [m|] eqn:Hidx; [case_decide; [by apply IH|done]|].
  apply IH; try done. cbn [index_to_node]. rewrite lookup_insert_ne; [done|]. intros ->. congruence.
Qed.

Lemma assign_cases node_id (indices : list ValidatorIndex) r :
  (∀ i n, i ∈ indices → index_to_node r !! i = Some n → n = node_id) ∨
  (∃ i n, i ∈ indices ∧ index_to_node r !! i = Some n ∧ n ≠ node_id).
Proof.
  induction indices as [|idx indices [IH|(i & n & ? & ? & ?)]].
  - left. by intros i n ?%elem_of_nil.
  - destruct (index_to_node r !! idx) as [n|] eqn:Hidx.
    + destruct (decide (n = node_id)) as [->|Hne].
      * left. intros i m. rewrite elem_of_cons. naive_solver.
      * right. exists idx, n. split; [by left|done].
    + left. intros i m. rewrite elem_of_cons. naive_solver.
  - right. exists i, n. split; [by right|done].
Qed.

Lemma listed_app l1 l2 n i : listed (l1 ++ l2) n i ↔ listed l1 n i ∨ listed l2 n i.
Proof. unfold listed. setoid_rewrite elem_of_app. naive_solver. Qed.

Lemma listed_single n yaml indices m i :
  read_indices yaml = Ok indices → listed [(n, yaml)] m i ↔ m = n ∧ i ∈ indices.
Proof.
  intros Hr. unfold listed. setoid_rewrite list_elem_of_singleton. split.
  - intros (y & l & [= -> ->] & Hl & Hi). split; [done|]. congruence.
  - intros [-> Hi]. by exists yaml, indices.
Qed.

(** A validator listed for two nodes. *)
Definition clash (entries : list (bytes * Yaml)) : Prop :=
  ∃ i n m, n ≠ m ∧ listed entries n i ∧ listed entries m i.

Lemma add_entry_spec pre r n yaml indices :
  registry_wf r → (∀ i n, index_to_node r !! i = Some n ↔ listed pre n i) → read_indices yaml = Ok indices →
  (∃ r', add_entry r (n, yaml) = Ok r' ∧ registry_wf r' ∧
     current_validator_indices r' = current_validator_indices r ∧
     ∀ i m, index_to_node r' !! i = Some m ↔ listed (pre ++ [(n, yaml)]) m i) ∨
  (add_entry r (n, yaml) = Throw SystemError ∧ clash (pre ++ [(n, yaml)])).
Proof.
  intros Hw Hrep Hread. unfold add_entry. cbn [fst snd]. rewrite Hread. cbn [mbind outcome_bind].
  set (r1 := mkValidatorRegistryImpl _ _ _).
  assert (Hw1 : registry_wf r1).
  { constructor; unfold r1; cbn [index_to_node node_to_indices].
    - intros m l. rewrite lookup_insert_Some. intros [[<- <-]|[_ Hl]]; [|by apply (rw_agree _ Hw)].
      destruct (node_to_indices r !! n) as [l|] eqn:Hl; [by apply (rw_agree _ Hw)|]. cbn. split; [constructor|].
      intros i. rewrite elem_of_nil. split; [done|]. intros Hi. destruct (rw_known _ Hw _ _ Hi) as [? Hs]. congruence.
    - intros i m Hi. destruct (decide (m = n)) as [->|]; [rewrite lookup_insert_eq; by eexists|].
      rewrite lookup_insert_ne by done. by eapply rw_known. }
  assert (Hlist : ∀ i m, listed (pre ++ [(n, yaml)]) m i ↔ index_to_node r !! i = Some m ∨ (m = n ∧ i ∈ indices)).
  { intros i m. by rewrite listed_app, (listed_single _ _ _ _ _ Hread), Hrep. }
  destruct indices as [|i0 l0].
  { left. exists r. split_and!; try done. intros i m. rewrite Hlist, elem_of_nil. naive_solver. }
  set (indices := i0 :: l0) in *. destruct (assign_cases n indices r1) as [Hfree|(i & m & Hi & Hm & Hne)].
  - left. destruct (assign_indices_spec n indices r1 Hw1) as (r' & Hr & Hw' & Hc & Hin); [|done|].
    { unfold r1. cbn [node_to_indices]. rewrite lookup_insert_eq. by eexists. }
    exists r'. split_and!; try done. intros i m. by rewrite Hin, Hlist.
  - right. split; [by eapply assign_indices_clash|]. exists i, m, n. split; [done|]. rewrite !Hlist. split; [by left|by right].
Qed.

Lemma add_entries_spec entries pre r :
  registry_wf r → (∀ i n, index_to_node r !! i = Some n ↔ listed pre n i) →
  (∀ n yaml, (n, yaml) ∈ entries → ∃ indices, read_indices yaml = Ok indices) →
  (∃ r', oc_foldl add_entry r entries = Ok r' ∧ registry_wf r' ∧
     current_validator_indices r' = current_validator_indices r ∧
     ∀ i n, index_to_node r' !! i = Some n ↔ listed (pre ++ entries) n i) ∨
  (oc_foldl add_entry r entries = Throw SystemError ∧ clash (pre ++ entries)).
Proof.
  revert pre r. induction entries as [|[n yaml] entries IH]; intros pre r Hw Hrep Hread.
  { left. exists r. by rewrite app_nil_r. }
  destruct (Hread n yaml ltac:(by left)) as [indices Hi]. cbn [oc_foldl].
  replace (pre ++ (n, yaml) :: entries) with ((pre ++ [(n, yaml)]) ++ entries) by (by rewrite <- app_assoc).
  destruct (add_entry_spec pre r n yaml indices Hw Hrep Hi) as [(r1 & -> & Hw1 & Hcur & Hrep1)|[-> Hc]]; cbn [mbind outcome_bind].
  - rewrite <- Hcur. apply IH; [done|done|]. intros m y Hy. apply (Hread m). by right.
  - right. split; [done|]. destruct Hc as (i & m1 & m2 & ? & ? & ?). exists i, m1, m2. rewrite !listed_app in *. tauto.
Qed.

Lemma indices_for_node r entries n :
  registry_wf r → (∀ i n, index_to_node r !! i = Some n ↔ listed entries n i) → n ≠ [] →
  match validatorIndicesForNodeId r n with
  | Some s => ∀ i, i ∈ s ↔ listed entries n i
  | None => ∀ i, ¬ listed entries n i
  end.
Proof.
  intros Hw Hrep Hne. unfold validatorIndicesForNodeId. destruct n as [|x n]; [done|]. set (node := x :: n) in *.
  destruct (node_to_indices r !! node) as [l|] eqn:Hl.
  - destruct (rw_agree _ Hw node l Hl) as [_ Hag]. destruct l as [|i l].
    + intros i Hi. rewrite <- Hrep, <- Hag in Hi. by apply elem_of_nil in Hi.
    + intros j. by rewrite elem_of_list_to_set, Hag, Hrep.
  - intros i Hi. rewrite <- Hrep in Hi. destruct (rw_known _ Hw _ _ Hi) as [? Hs]. congruence.
Qed.

(** The registry built from a readable table: when a validator is listed for two nodes the
    constructor throws; otherwise it succeeds, every listed validator maps to its node and
    every node to exactly its validators, each once, and the validators of the running
    node are those listed for it. *)
Theorem registry_consistent entries current :
  (∀ n yaml, (n, yaml) ∈ entries → ∃ indices, read_indices yaml = Ok indices) →
  (ValidatorRegistryImpl_new (Map entries) current = Throw SystemError ∧ clash entries) ∨
  (¬ clash entries ∧
   ∃ r, ValidatorRegistryImpl_new (Map entries) current = Ok r ∧ registry_wf r ∧
     (∀ i n, nodeIdByIndex r i = Some n ↔ listed entries n i) ∧
     (∀ i, i ∈ allValidatorsIndices r ↔ ∃ n, listed entries n i) ∧
     (∀ n, n ≠ [] → match validatorIndicesForNodeId r n with
                    | Some s => ∀ i, i ∈ s ↔ listed entries n i
                    | None => ∀ i, ¬ listed entries n i
                    end) ∧
     (∀ i, i ∈ currentValidatorIndices r ↔ current ≠ [] ∧ listed entries current i)).
Proof.
  intros Hread. unfold ValidatorRegistryImpl_new. cbn [yaml_map mbind outcome_bind].
  assert (Hnone : ∀ n i, ¬ listed [] n i) by (intros n i (y & l & Hin & _); by apply elem_of_nil in Hin).
  destruct (add_entries_spec entries [] (mkValidatorRegistryImpl ∅ ∅ ∅)) as [(r & -> & Hw & Hcur & Hrep)|[-> Hc]];
    cbn [app index_to_node current_validator_indices] in *; try done.
  { intros i n. rewrite lookup_empty. split; [done|]. by intros ?%Hnone. }
  2: { by left. }
  cbn [mbind outcome_bind]. right. split.
  { intros (i & n & m & Hne & Hn & Hm). rewrite <- Hrep in Hn, Hm. congruence. }
  set (r' := match validatorIndicesForNodeId r current with
             | Some indices => mkValidatorRegistryImpl (index_to_node r) (node_to_indices r) indices
             | None => r end).
  assert (Hsame : index_to_node r' = index_to_node r ∧ node_to_indices r' = node_to_indices r).
  { unfold r'. by destruct (validatorIndicesForNodeId r current). }
  destruct Hsame as [Hi Hn].
  assert (Hw' : registry_wf r') by (destruct Hw; constructor; by rewrite Hi, Hn).
  assert (Hrep' : ∀ i n, index_to_node r' !! i = Some n ↔ listed entries n i) by (intros; by rewrite Hi).
  exists r'. split; [|split; [done|split; [done|split; [|split]]]].
  - unfold r'. by destruct current.
  - intros i. unfold allValidatorsIndices. rewrite elem_of_dom. unfold is_Some. by setoid_rewrite Hrep'.
  - intros n Hne. by apply indices_for_node.
  - intros i. unfold currentValidatorIndices. destruct (decide (current = [])) as [->|Hne].
    + change (i ∈ current_validator_indices r ↔ ([] : bytes) ≠ [] ∧ listed entries [] i). rewrite Hcur. set_solver.
    + pose proof (indices_for_node r entries current Hw Hrep Hne) as Hfor. unfold r'.
      destruct (validatorIndicesForNodeId r current) as [s|]; cbn [current_validator_indices]; [rewrite Hfor; tauto|].
      rewrite Hcur. specialize (Hfor i). set_solver.
Qed.
End registry.

(** Two nodes with one validator each. *)
Module RegistryEx.
#[local] Instance ToyNumber : YamlNumber := λ text, match text with [x] => Ok (x - 48) | _ => yaml_error end.
Definition node (i : N) : Yaml := Sequence [Map [(key_index, Scalar [48 + i])]].
Definition table : list (bytes * Yaml) := [([97], node 0); ([98], node 1)].

Lemma registry_consistent_witness :
  ∃ r, ValidatorRegistryImpl_new (Map table) [98] = Ok r ∧ 1 ∈ currentValidatorIndices r.
Proof.
  destruct (registry_consistent table [98]) as [[Hr _]|(_ & r & Hr & _ & _ & _ & _ & Hcur)].
  - intros n yaml. unfold table. rewrite !elem_of_cons, elem_of_nil.
    intros [[= -> ->]|[[= -> ->]|[]]]; [exists [0]|exists [1]]; by vm_compute.
  - exfalso. by vm_compute in Hr.
  - exists r. split; [exact Hr|]. apply Hcur. split; [done|]. exists (node 1), [1].
    split; [right; by left|]. split; [by vm_compute|by left].
Defined.
End RegistryEx.
