(* ===== verification/NetworkingModule.v ===== *)
(** * The networking module as a whole (src/src/modules/networking/networking.cpp)

    on_loaded_success, the handlers of the events of the libp2p host, and the count of the
    connected peers.  [NetModule] adds to [Peers] the other fields of NetworkingImpl that these
    change; what the module asks of the host, the loader and the metrics is recorded in order. *)

From Stdlib Require Import String.
From S2P Require Import Prelude Errors Types CachedTree ForkChoice Networking NetworkingProofs Peers PeersProofs.
From S2P Require Import PeersTheorems Rlp Protocols Registry.

(** libp2p::transport::detail::asQuic: the port of a QUIC address *)
Class QuicAddress := quic_port : N → option N.

Inductive ListenAddress :=
| ListenPort (port : N)          (* /ip4/0.0.0.0/udp/{port}/quic-v1 *)
| ListenMultiaddr (address : N).
(** The messages of modules/shared/networking_types.tmp.hpp that the loader dispatches *)
Inductive NetDispatch :=
| PeerConnectedMessage (peer : PeerId)
| PeerDisconnectedMessage (peer : PeerId)
| PeerCountsMessage (map : gmap bytes N).

Record NetModule := mkNetModule {
  nm_peers : Peers;
  nm_peer_name : gmap PeerId bytes;
  nm_counts : gmap bytes N;             (* connected_peer_count_by_name_ *)
  nm_client_gauge : gmap bytes N;       (* network_connected_peer_count by the label client *)
  nm_connect_events : gmap bytes N;     (* network_connect_event_count by direction *)
  nm_disconnect_events : gmap bytes N;
  nm_dispatched : list NetDispatch;
  nm_handshakes : list PeerId;          (* coroutines of StatusProtocol::connect that were spawned *)
  nm_addresses : list (PeerId * N);     (* given to the address repository *)
  nm_listen : list ListenAddress;
}.

(** What the host answers while a handler runs. *)
Record HostView := mkHostView {
  hv_connected : list PeerId;           (* getConnectedPeers *)
  hv_user_agent : PeerId → option bytes;
}.
Record Connection := mkConnection {
  cn_remotePeer : PeerId;
  cn_isInitiator : bool;
  cn_remoteMultiaddr : result N;
}.

Definition set_peers (p : Peers) (s : NetModule) : NetModule :=
  mkNetModule p (nm_peer_name s) (nm_counts s) (nm_client_gauge s) (nm_connect_events s)
    (nm_disconnect_events s) (nm_dispatched s) (nm_handshakes s) (nm_addresses s) (nm_listen s).
Definition set_counts (counts gauge : gmap bytes N) (s : NetModule) : NetModule :=
  mkNetModule (nm_peers s) (nm_peer_name s) counts gauge (nm_connect_events s)
    (nm_disconnect_events s) (nm_dispatched s) (nm_handshakes s) (nm_addresses s) (nm_listen s).
Definition set_events (connects disconnects : gmap bytes N) (s : NetModule) : NetModule :=
  mkNetModule (nm_peers s) (nm_peer_name s) (nm_counts s) (nm_client_gauge s) connects
    disconnects (nm_dispatched s) (nm_handshakes s) (nm_addresses s) (nm_listen s).
Definition add_dispatch (d : NetDispatch) (s : NetModule) : NetModule :=
  mkNetModule (nm_peers s) (nm_peer_name s) (nm_counts s) (nm_client_gauge s) (nm_connect_events s)
    (nm_disconnect_events s) (nm_dispatched s ++ [d]) (nm_handshakes s) (nm_addresses s) (nm_listen s).
Definition add_handshake (id : PeerId) (s : NetModule) : NetModule :=
  mkNetModule (nm_peers s) (nm_peer_name s) (nm_counts s) (nm_client_gauge s) (nm_connect_events s)
    (nm_disconnect_events s) (nm_dispatched s) (nm_handshakes s ++ [id]) (nm_addresses s) (nm_listen s).
Definition add_address (id : PeerId) (address : N) (s : NetModule) : NetModule :=
  mkNetModule (nm_peers s) (nm_peer_name s) (nm_counts s) (nm_client_gauge s) (nm_connect_events s)
    (nm_disconnect_events s) (nm_dispatched s) (nm_handshakes s) (nm_addresses s ++ [(id, address)]) (nm_listen s).

(** ** updateMetricConnectedPeerCount *)

(** The loop over the characters of a user agent: lower case, up to a slash. *)
Fixpoint lower_to_slash (ua : bytes) : bytes :=
  match ua with
  | [] => []
  | ch :: ua =>
      if ch =? 47 then []
      else (if (65 <=? ch) && (ch <=? 90) then ch - 65 + 97 else ch) :: lower_to_slash ua
  end.
Definition client_of_agent (ua : bytes) : bytes :=
  match lower_to_slash ua with [] => text "unknown" | ua => ua end.
(** The name under which a connected peer is counted. *)
Definition peer_label (names : gmap PeerId bytes) (host : HostView) (peer_id : PeerId) : bytes :=
  match names !! peer_id with
  | Some name => name
  | None => client_of_agent (default [] (hv_user_agent host peer_id))
  end.
(** ++connected_peer_count_by_name_[...] *)
Definition count_peer (names : gmap PeerId bytes) (host : HostView) (counts : gmap bytes N) (peer_id : PeerId)
    : gmap bytes N :=
  let label := peer_label names host peer_id in
  <[label := default 0 (counts !! label) + 1]> counts.

Section module.
Context `{!UnorderedMap} `{!UnorderedMultimap} `{!Uniform} `{!QuicAddress}.
Local Abbreviation M := (SM NetModule error).

Definition updateMetricConnectedPeerCount (host : HostView) : M () :=
  sm_modify (λ s,
    let counts := (λ _, 0) <$> nm_counts s in
    let counts := foldl (count_peer (nm_peer_name s) host) counts (hv_connected host) in
    (* every entry is set in the gauge *)
    add_dispatch (PeerCountsMessage counts) (set_counts counts (counts ∪ nm_client_gauge s) s)).

(** ** Events of the host *)
Definition peers {A} (m : SM Peers error A) : M A := λ s,
  let '(r, p) := m (nm_peers s) in (r, set_peers p s).
Definition direction_label (connection : Connection) : bytes :=
  if cn_isInitiator connection then text "inbound" else text "outbound".
(** ->inc() of a labelled counter *)
Definition inc (label : bytes) (counter : gmap bytes N) : gmap bytes N :=
  <[label := default 0 (counter !! label) + 1]> counter.

Definition on_peer_connected (host : HostView) (connection : Connection) : M () :=
  sm_modify (λ s, set_events (inc (direction_label connection) (nm_connect_events s)) (nm_disconnect_events s) s) ≫= λ _,
  let peer_id := cn_remotePeer connection in
  peers (onPeerConnected peer_id) ≫= λ _,
  updateMetricConnectedPeerCount host ≫= λ _,
  sm_modify (add_dispatch (PeerConnectedMessage peer_id)) ≫= λ _,
  if cn_isInitiator connection then sm_modify (add_handshake peer_id)
  else
    match cn_remoteMultiaddr connection with
    | Ok address => sm_modify (add_address peer_id address)
    | _ => mret ()
    end.

Definition on_peer_disconnected (now : N) (host : HostView) (peer_id : PeerId) : M () :=
  peers (onPeerDisconnected now peer_id) ≫= λ _,
  updateMetricConnectedPeerCount host ≫= λ _,
  sm_modify (add_dispatch (PeerDisconnectedMessage peer_id)).

Definition on_connection_closed (connection : Connection) : M () :=
  sm_modify (λ s, set_events (nm_connect_events s) (inc (direction_label connection) (nm_disconnect_events s)) s).

(** ** on_loaded_success *)

(** The subnets of the validators of the node. *)
Definition node_subnets (subnet_count : N) (indices : list ValidatorIndex) : result (gset SubnetIndex) :=
  oc_foldl (λ subnets i, subnet ← validatorSubnet i subnet_count; Ok ({[subnet]} ∪ subnets)) ∅ indices.

(** The loop that fills peer_name_. *)
Definition name_peer (registry : ValidatorRegistryImpl) (bootnodes : list BootnodeInfo) (names : gmap PeerId bytes)
    (index : ValidatorIndex) : result (gmap PeerId bytes) :=
  name ← of_option BadOptionalAccess (nodeIdByIndex registry index);
  match bootnodes !! N.to_nat index with
  | None => Ok names
  | Some bootnode => Ok (emplace (bn_peer_id bootnode) name names)
  end.
(** The iteration order of a set of indices *)
Definition index_order (indices : gset ValidatorIndex) : list ValidatorIndex :=
  (iteration (gset_to_gmap () indices)).*1.

(** The loop over the bootnodes that finds the addresses of this node, and --listen-addr. *)
Definition listen_addresses (self : PeerId) (bootnodes : list BootnodeInfo) (listen_addr : option N)
    : list ListenAddress :=
  (b ← bootnodes;
   if bn_peer_id b =? self
   then match quic_port (bn_address b) with Some port => [ListenPort port] | None => [] end
   else [])
  ++ match listen_addr with Some a => [ListenMultiaddr a] | None => [] end.

(** The module after on_loaded_success, and its subnet: the name of the vote topic. *)
Definition on_loaded_success (self : PeerId) (registry : ValidatorRegistryImpl) (subnet_count validator_count : N)
    (bootnodes : list BootnodeInfo) (listen_addr : option N) (engine : N) : result (NetModule * SubnetIndex) :=
  subnets ← node_subnets subnet_count (index_order (Registry.currentValidatorIndices registry));
  match elements subnets with
  | [subnet_id] =>
      names ← oc_foldl (name_peer registry bootnodes) ∅ (index_order (allValidatorsIndices registry));
      peers ← (match bootnodes with
               | [] => Ok (mkPeers [] ∅ [] engine [])
               | _ => load_bootnodes self subnets subnet_count validator_count bootnodes engine
               end);
      Ok (mkNetModule peers names ∅ ∅ ∅ ∅ [] []
            ((λ b, (bn_peer_id b, bn_address b)) <$> filter (λ b, bn_peer_id b ≠ self) bootnodes)
            (listen_addresses self bootnodes listen_addr), subnet_id)
  | _ => Throw Fatal
  end.
End module.

(** * The networking module: loading, connected peers and their counts *)

(** ** Counting *)
Section counting.
Context (names : gmap PeerId bytes) (host : HostView).

(** How many of the peers are counted under a name. *)
Definition labelled (k : bytes) (l : list PeerId) : N := lengthN (filter (λ p, peer_label names host p = k) l).

Lemma count_peers_lookup l counts k :
  default 0 (foldl (count_peer names host) counts l !! k) = default 0 (counts !! k) + labelled k l.
Proof.
  revert counts. induction l as [|p l IH]; intros counts; [unfold labelled, lengthN; cbn; lia|]. cbn [foldl]. rewrite IH.
  unfold count_peer, labelled. rewrite filter_cons. destruct (decide (peer_label names host p = k)) as [->|Hne].
  - rewrite lookup_insert_eq. unfold lengthN. simpl. lia.
  - by rewrite lookup_insert_ne.
Qed.

Lemma count_peers_dom l counts k : is_Some (counts !! k) → is_Some (foldl (count_peer names host) counts l !! k).
Proof.
  revert counts. induction l as [|p l IH]; intros counts Hk; [done|]. apply IH. unfold count_peer.
  by apply lookup_insert_is_Some'; right.
Qed.

(** The sum of all counts *)
Definition total (counts : gmap bytes N) : N := map_fold (λ _ n acc, n + acc) 0 counts.
Lemma total_insert k n counts : total (<[k := n]> counts) = n + total (delete k counts).
Proof.
  unfold total. rewrite <- insert_delete_eq. rewrite map_fold_insert_L; [done|intros; lia|apply lookup_delete_eq].
Qed.
Lemma total_delete k counts : total counts = default 0 (counts !! k) + total (delete k counts).
Proof.
  destruct (counts !! k) as [n|] eqn:Hk; cbn [from_option].
  - rewrite <- (insert_id counts k n Hk) at 1. apply total_insert.
  - by rewrite delete_id.
Qed.
Lemma count_peers_total l counts : total (foldl (count_peer names host) counts l) = total counts + lengthN l.
Proof.
  revert counts. induction l as [|p l IH]; intros counts; [unfold lengthN; cbn; lia|]. cbn [foldl]. rewrite IH.
  unfold count_peer. rewrite total_insert, (total_delete (peer_label names host p) counts). unfold lengthN. cbn [length]. lia.
Qed.
Lemma total_zero (counts : gmap bytes N) : total ((λ _, 0) <$> counts) = 0.
Proof.
  induction counts as [|k n counts Hk IH] using map_ind; [done|].
  rewrite fmap_insert, total_insert, delete_id by (by rewrite lookup_fmap, Hk). by rewrite IH.
Qed.
End counting.

(** The label of an unnamed peer: not empty, no slash, no capital letter. *)
Lemma lower_to_slash_chars ua : Forall (λ ch, ch ≠ 47 ∧ ¬ (65 ≤ ch ≤ 90)) (lower_to_slash ua).
Proof.
  induction ua as [|ch ua IH]; [constructor|]. cbn [lower_to_slash]. destruct (N.eqb_spec ch 47); [constructor|].
  constructor; [|done]. destruct (N.leb_spec 65 ch), (N.leb_spec ch 90); cbn [andb]; lia.
Qed.
Lemma client_of_agent_chars ua :
  client_of_agent ua ≠ [] ∧ Forall (λ ch, ch ≠ 47 ∧ ¬ (65 ≤ ch ≤ 90)) (client_of_agent ua).
Proof.
  unfold client_of_agent. pose proof (lower_to_slash_chars ua) as Hl. destruct (lower_to_slash ua); [|done].
  split; [done|]. by apply (bool_decide_unpack _).
Qed.

(** ** Events *)
Section module.
Context `{!UnorderedMap} `{!UnorderedMultimap} `{!Uniform} `{!QuicAddress}.

Inductive ModuleEvent :=
| MConnected (host : HostView) (connection : Connection)
| MDisconnected (host : HostView) (peer_id : PeerId)
| MClosed (connection : Connection)
| MTimer (max_bootnodes : option N)
| MConnectFinished (peer_id : PeerId) (success : bool).
Definition module_step (now : N) (ev : ModuleEvent) : SM NetModule error () :=
  match ev with
  | MConnected host connection => on_peer_connected host connection
  | MDisconnected host peer_id => on_peer_disconnected now host peer_id
  | MClosed connection => on_connection_closed connection
  | MTimer max_bootnodes => peers (connectToPeers now max_bootnodes)
  | MConnectFinished peer_id success => peers (onConnectFinished now peer_id success)
  end.
Inductive module_reachable : NetModule → Prop :=
| module_loaded self registry subnet_count validator_count bootnodes listen engine s subnet :
    NoDup (bn_peer_id <$> bootnodes) →
    on_loaded_success self registry subnet_count validator_count bootnodes listen engine = Ok (s, subnet) →
    module_reachable s
| module_event now ev s : module_reachable s → module_reachable (module_step now ev s).2.

(** Handlers touch the peer table through the events of the table only. *)
Definition peers_moved (now : N) (s s' : NetModule) : Prop :=
  nm_peers s' = nm_peers s ∨ ∃ ev, nm_peers s' = (peer_step now ev (nm_peers s)).2.

Lemma peers_run {A} (m : SM Peers error A) s :
  peers m s = ((m (nm_peers s)).1, set_peers (m (nm_peers s)).2 s).
Proof. unfold peers. by destruct (m (nm_peers s)). Qed.

(** The state after updateMetricConnectedPeerCount. *)
Definition recounted (host : HostView) (s : NetModule) : NetModule :=
  let counts := foldl (count_peer (nm_peer_name s) host) ((λ _, 0) <$> nm_counts s) (hv_connected host) in
  add_dispatch (PeerCountsMessage counts) (set_counts counts (counts ∪ nm_client_gauge s) s).

Lemma on_peer_connected_run host c s :
  let '(r, p) := onPeerConnected (cn_remotePeer c) (nm_peers s) in
  let s1 := set_peers p (set_events (inc (direction_label c) (nm_connect_events s)) (nm_disconnect_events s) s) in
  let s2 := add_dispatch (PeerConnectedMessage (cn_remotePeer c)) (recounted host s1) in
  on_peer_connected host c s
  = (r, match r with
        | Ok _ =>
            if cn_isInitiator c then add_handshake (cn_remotePeer c) s2
            else match cn_remoteMultiaddr c with Ok a => add_address (cn_remotePeer c) a s2 | _ => s2 end
        | _ => s1
        end).
Proof.
  destruct (onPeerConnected _ _) as [r p] eqn:Hr. cbv zeta. unfold on_peer_connected.
  rewrite (sm_bind_ok _ _ s () (set_events (inc (direction_label c) (nm_connect_events s)) (nm_disconnect_events s) s)) by done.
  unfold mbind, sm_bind. rewrite peers_run. cbn [nm_peers set_events] in *. rewrite Hr. cbn [fst snd].
  destruct r as [[]|e|x]; [|done..]. by destruct (cn_isInitiator c), (cn_remoteMultiaddr c).
Qed.
Lemma on_peer_disconnected_run now host id s :
  ∃ p, onPeerDisconnected now id (nm_peers s) = (Ok (), p) ∧
    on_peer_disconnected now host id s = (Ok (), add_dispatch (PeerDisconnectedMessage id) (recounted host (set_peers p s))).
Proof.
  exists (onPeerDisconnected now id (nm_peers s)).2. split; [done|]. unfold on_peer_disconnected.
  by rewrite (sm_bind_ok _ _ s () (set_peers (onPeerDisconnected now id (nm_peers s)).2 s)) by (by rewrite peers_run).
Qed.

Lemma module_step_peers now ev s : peers_moved now s (module_step now ev s).2.
Proof.
  destruct ev as [host c|host id|c|max|id ok]; cbn [module_step].
  - pose proof (on_peer_connected_run host c s) as Hrun.
    right. exists (EvPeerConnected (cn_remotePeer c)). cbn [peer_step].
    destruct (onPeerConnected (cn_remotePeer c) (nm_peers s)) as [r p]. cbv zeta in Hrun. rewrite Hrun. cbn [snd].
    destruct r; [|done..]. by destruct (cn_isInitiator c), (cn_remoteMultiaddr c).
  - destruct (on_peer_disconnected_run now host id s) as (p & Hp & ->). right. exists (EvPeerDisconnected id).
    cbn [peer_step]. by rewrite Hp.
  - by left.
  - right. exists (EvTimer max). by rewrite peers_run.
  - right. exists (EvConnectFinished id ok). by rewrite peers_run.
Qed.

Lemma on_loaded_success_peers self registry subnet_count validator_count bootnodes listen engine s subnet :
  NoDup (bn_peer_id <$> bootnodes) →
  on_loaded_success self registry subnet_count validator_count bootnodes listen engine = Ok (s, subnet) →
  peers_reachable (nm_peers s) ∧ nm_client_gauge s = nm_counts s.
Proof.
  intros Hnd. unfold on_loaded_success. intros (subnets & _ & Hrun)%outcome_bind_ok.
  destruct (elements subnets) as [|x [|]]; [done| |done]. apply outcome_bind_ok in Hrun as (names & _ & Hrun).
  apply outcome_bind_ok in Hrun as (p & Hp & [= <- _]). split; [|done]. cbn [nm_peers].
  apply (peers_loaded self subnets subnet_count validator_count bootnodes engine); [done|].
  destruct bootnodes; [|done]. unfold load_bootnodes. by rewrite zip_with_nil_r.
Qed.

(** Every event keeps the gauge of the clients equal to the counts. *)
Lemma recounted_gauge host s : nm_client_gauge s = nm_counts s → nm_client_gauge (recounted host s) = nm_counts (recounted host s).
Proof.
  intros Heq. unfold recounted. cbn [nm_client_gauge nm_counts add_dispatch set_counts]. rewrite Heq.
  apply map_eq. intros k. rewrite lookup_union. destruct (nm_counts s !! k) as [n|] eqn:Hk; [|by rewrite option_union_right_id].
  destruct (count_peers_dom (nm_peer_name s) host (hv_connected host) ((λ _, 0) <$> nm_counts s) k) as [m ->].
  { rewrite lookup_fmap, Hk. by eexists. }
  done.
Qed.
Lemma module_step_gauge now ev s :
  nm_client_gauge s = nm_counts s → nm_client_gauge (module_step now ev s).2 = nm_counts (module_step now ev s).2.
Proof.
  intros Heq. destruct ev as [host c|host id|c|max|id ok]; cbn [module_step]; [| |done|by rewrite peers_run..].
  - pose proof (on_peer_connected_run host c s) as Hrun.
    destruct (onPeerConnected (cn_remotePeer c) (nm_peers s)) as [r p]. cbv zeta in Hrun. rewrite Hrun. cbn [snd].
    pose proof (recounted_gauge host (set_peers p (set_events (inc (direction_label c) (nm_connect_events s))
      (nm_disconnect_events s) s)) Heq) as Hg.
    destruct r; [|done..]. destruct (cn_isInitiator c), (cn_remoteMultiaddr c); exact Hg.
  - destruct (on_peer_disconnected_run now host id s) as (p & _ & ->). exact (recounted_gauge host (set_peers p s) Heq).
Qed.

Lemma module_reachable_inv s : module_reachable s → peers_reachable (nm_peers s) ∧ nm_client_gauge s = nm_counts s.
Proof.
  induction 1 as [self registry sc vc bootnodes listen engine s subnet Hnd Hload|now ev s Hs [IHp IHg]].
  - by eapply on_loaded_success_peers.
  - split; [|by apply module_step_gauge]. destruct (module_step_peers now ev s) as [->|[ev' ->]]; [done|by constructor].
Qed.

(** The counts say how many connected peers each name has, and every connected peer is counted once. *)
Definition counts_correct (host : HostView) (s : NetModule) : Prop :=
  (∀ k, default 0 (nm_counts s !! k) = labelled (nm_peer_name s) host k (hv_connected host)) ∧
  total (nm_counts s) = lengthN (hv_connected host) ∧ nm_client_gauge s = nm_counts s ∧
  PeerCountsMessage (nm_counts s) ∈ nm_dispatched s.

Lemma recounted_correct host s : nm_client_gauge s = nm_counts s → counts_correct host (recounted host s).
Proof.
  intros Heq. split_and!; [| |by apply recounted_gauge|].
  - intros k. unfold recounted. cbn [nm_counts add_dispatch set_counts nm_peer_name]. rewrite count_peers_lookup, lookup_fmap.
    by destruct (nm_counts s !! k).
  - unfold recounted. cbn [nm_counts add_dispatch set_counts]. by rewrite count_peers_total, total_zero.
  - unfold recounted. cbn [nm_counts nm_dispatched add_dispatch set_counts]. apply elem_of_app. right. by apply list_elem_of_singleton.
Qed.

(** What a new connection does in a state of the module: a connection of an aggregator of the
    subnet that is still connectable throws before anything is counted or told, every other
    one is counted. *)
Definition connection_handled (host : HostView) (c : Connection) (s : NetModule) : Prop :=
  let events := inc (direction_label c) (nm_connect_events s) in
  (stuck_aggregator (cn_remotePeer c) (nm_peers s) ∧
   on_peer_connected host c s = (Throw LogicError, set_events events (nm_disconnect_events s) s)) ∨
  (¬ stuck_aggregator (cn_remotePeer c) (nm_peers s) ∧
   ∃ s', on_peer_connected host c s = (Ok (), s') ∧ counts_correct host s' ∧ nm_connect_events s' = events ∧
     nm_handshakes s' = nm_handshakes s ++ (if cn_isInitiator c then [cn_remotePeer c] else []) ∧
     nm_dispatched s' = nm_dispatched s ++ [PeerCountsMessage (nm_counts s'); PeerConnectedMessage (cn_remotePeer c)]).

Lemma connection_decides host c s :
  peers_wf (nm_peers s) → nm_client_gauge s = nm_counts s → connection_handled host c s.
Proof.
  intros Hw Hg. pose proof (on_peer_connected_run host c s) as Hr. unfold connection_handled.
  destruct (onPeerConnected_decides (cn_remotePeer c) (nm_peers s) Hw) as [[Hrun Hst]|[Hrun Hst]];
    destruct (onPeerConnected (cn_remotePeer c) (nm_peers s)) as [r p]; cbv zeta in *.
  - left. injection Hrun as -> ->. split; [done|]. rewrite Hr. by destruct s.
  - right. split; [done|]. simpl in Hrun. subst r. rewrite Hr. eexists. split; [done|].
    destruct (recounted_correct host (set_peers p (set_events (inc (direction_label c) (nm_connect_events s))
      (nm_disconnect_events s) s)) Hg) as (Hc1 & Hc2 & Hc3 & Hc4).
    destruct (cn_isInitiator c), (cn_remoteMultiaddr c);
      (split; [split_and!; [exact Hc1|exact Hc2|exact Hc3|cbn; apply elem_of_app; by left]|]); cbn;
      rewrite ?app_nil_r, <- ?app_assoc; done.
Qed.


(** ** Loading *)
Lemma index_order_elem (indices : gset ValidatorIndex) i : i ∈ index_order indices ↔ i ∈ indices.
Proof.
  unfold index_order. rewrite list_elem_of_fmap. split.
  - intros ([j []] & -> & Hj). rewrite iteration_perm in Hj. apply elem_of_map_to_list in Hj.
    by apply lookup_gset_to_gmap_Some in Hj as [? _].
  - intros Hi. exists (i, ()). split; [done|]. rewrite iteration_perm. apply elem_of_map_to_list.
    by apply lookup_gset_to_gmap_Some.
Qed.

Lemma node_subnets_run subnet_count l acc :
  subnet_count ≠ 0 →
  oc_foldl (λ subnets i, subnet ← validatorSubnet i subnet_count; Ok ({[subnet]} ∪ subnets)) acc l
  = Ok (list_to_set ((λ i, i mod subnet_count) <$> l) ∪ acc : gset SubnetIndex).
Proof.
  intros Hne. revert acc. induction l as [|i l IH]; intros acc; [cbn; by rewrite union_empty_l_L|].
  cbn [oc_foldl]. assert (validatorSubnet i subnet_count = Ok (i mod subnet_count)) as ->.
  { unfold validatorSubnet. by rewrite (proj2 (N.eqb_neq _ _)). }
  etrans; [apply IH|]. f_equal. cbn [fmap list_fmap list_to_set]. set_solver.
Qed.

Lemma load_bootnodes_ok self subnets subnet_count validator_count bootnodes engine :
  subnet_count ≠ 0 → ∃ p, load_bootnodes self subnets subnet_count validator_count bootnodes engine = Ok p.
Proof.
  intros Hne. unfold load_bootnodes. generalize (mkPeers [] ∅ [] engine []).
  induction (zip _ _) as [|[i b] l IH]; intros p; [by eexists|]. cbn [oc_foldl].
  assert (∃ p', add_bootnode self subnets subnet_count p (i, b) = Ok p') as [p' ->]; [|apply IH].
  unfold add_bootnode, validatorSubnet. rewrite (proj2 (N.eqb_neq subnet_count 0)) by done.
  destruct (_ =? self); [by eexists|]. destruct (bn_is_aggregator b); by eexists.
Qed.

(** The entry that bootnode and registry give to a peer. *)
Definition names_validator (registry : ValidatorRegistryImpl) (bootnodes : list BootnodeInfo) (p : PeerId) (n : bytes) : Prop :=
  ∃ i b, bootnodes !! N.to_nat i = Some b ∧ bn_peer_id b = p ∧ nodeIdByIndex registry i = Some n.

Lemma name_peers_run registry bootnodes l names :
  NoDup (bn_peer_id <$> bootnodes) → (∀ i, i ∈ l → is_Some (nodeIdByIndex registry i)) →
  (∀ p n, names !! p = Some n → names_validator registry bootnodes p n) →
  ∃ names', oc_foldl (name_peer registry bootnodes) names l = Ok names' ∧
    (∀ p n, names' !! p = Some n → names_validator registry bootnodes p n) ∧
    (∀ p, is_Some (names !! p) → is_Some (names' !! p)) ∧
    (∀ i b, i ∈ l → bootnodes !! N.to_nat i = Some b → is_Some (names' !! bn_peer_id b)).
Proof.
  intros Hnd. revert names. induction l as [|i l IH]; intros names Hknown Hnames.
  { exists names. split; [done|]. split; [done|]. split; [done|]. by intros i b ?%elem_of_nil. }
  destruct (Hknown i) as [n Hn]; [by left|]. cbn [oc_foldl].
  assert (Hstep : name_peer registry bootnodes names i
    = Ok (match bootnodes !! N.to_nat i with None => names | Some b => emplace (bn_peer_id b) n names end)).
  { unfold name_peer. rewrite Hn. cbn. by destruct (bootnodes !! N.to_nat i). }
  rewrite Hstep. clear Hstep. change (mbind ?f (Ok ?x)) with (f x). cbv beta.
  destruct (bootnodes !! N.to_nat i) as [b|] eqn:Hb.
  - destruct (IH (emplace (bn_peer_id b) n names)) as (names' & Hrun & Hsound & Hgrow & Hcomplete).
    { intros; apply Hknown; by right. }
    { intros p m. unfold emplace. destruct (names !! bn_peer_id b) eqn:Hold; [apply Hnames|].
      intros [[<- <-]|[_ Hp]]%lookup_insert_Some; [by exists i, b|by apply Hnames]. }
    exists names'. split; [exact Hrun|]. split; [done|].
    assert (Hb' : is_Some (emplace (bn_peer_id b) n names !! bn_peer_id b)).
    { unfold emplace. destruct (names !! bn_peer_id b) eqn:Hold; [by rewrite Hold|rewrite lookup_insert_eq; by eexists]. }
    split.
    + intros p Hp. apply Hgrow. unfold emplace. destruct (names !! bn_peer_id b); [done|]. apply lookup_insert_is_Some'. by right.
    + intros j b' [->|Hj]%elem_of_cons Hjb; [|by eapply Hcomplete]. rewrite Hb in Hjb. injection Hjb as <-. by apply Hgrow.
  - destruct (IH names) as (names' & Hrun & Hsound & Hgrow & Hcomplete); [intros; apply Hknown; by right|done|].
    exists names'. split; [exact Hrun|]. split; [done|]. split; [done|].
    intros j b' [->|Hj]%elem_of_cons Hjb; [congruence|by eapply Hcomplete].
Qed.

(** Loading the module succeeds exactly when the validators of the node are all on one subnet, else
    the process is aborted: with no validator too, and not for several validators on one subnet,
    although the message says so.  Once loaded, a peer has the name of the validator whose
    bootnode it is, and no other peer has a name. *)
Theorem module_load_decides self registry subnet_count validator_count bootnodes listen engine :
  NoDup (bn_peer_id <$> bootnodes) → subnet_count ≠ 0 →
  let subnets : gset SubnetIndex := set_map (λ i, i mod subnet_count) (Registry.currentValidatorIndices registry) in
  match on_loaded_success self registry subnet_count validator_count bootnodes listen engine with
  | Ok (s, subnet) =>
      subnets = {[subnet]} ∧ peers_reachable (nm_peers s) ∧
      ∀ p n, nm_peer_name s !! p = Some n ↔ names_validator registry bootnodes p n
  | Throw x => x = Fatal ∧ size subnets ≠ 1%nat
  | Err _ => False
  end.
Proof.
  intros Hnd Hsc subnets. pose proof (on_loaded_success_peers self registry subnet_count validator_count bootnodes listen engine) as Hpeers.
  unfold on_loaded_success in *. unfold node_subnets in *. rewrite node_subnets_run in * by done. cbn [mbind outcome_bind] in *.
  rewrite union_empty_r_L in *.
  assert (Hsub : list_to_set ((λ i, i mod subnet_count) <$> index_order (Registry.currentValidatorIndices registry)) = subnets).
  { apply set_eq. intros x. unfold subnets. rewrite elem_of_list_to_set, list_elem_of_fmap, elem_of_map.
    by setoid_rewrite index_order_elem. }
  rewrite Hsub in *. destruct (elements subnets) as [|subnet [|x l]] eqn:Hel.
  - split; [done|]. unfold size, set_size. simpl. by rewrite Hel.
  - destruct (name_peers_run registry bootnodes (index_order (allValidatorsIndices registry)) ∅ Hnd)
      as (names & Hrun & Hsound & _ & Hcomplete).
    { intros i. rewrite index_order_elem. unfold allValidatorsIndices, nodeIdByIndex. apply elem_of_dom. }
    { intros p n. by rewrite lookup_empty. }
    rewrite Hrun in *. cbn [mbind outcome_bind] in *.
    assert (Hload : ∃ p, (match bootnodes with [] => Ok (mkPeers [] ∅ [] engine [])
      | _ => load_bootnodes self subnets subnet_count validator_count bootnodes engine end) = Ok p).
    { destruct bootnodes as [|b bs]; [by eexists|]. by apply load_bootnodes_ok. }
    destruct Hload as [p Hp]. rewrite Hp in *. cbn [mbind outcome_bind nm_peer_name] in *.
    split; [|split].
    + apply set_eq. intros x. rewrite <- elem_of_elements, Hel. set_solver.
    + by eapply Hpeers.
    + intros q n. split; [apply Hsound|]. intros (i & b & Hb & <- & Hn).
      destruct (Hcomplete i b) as [m Hm]; [rewrite index_order_elem; by apply elem_of_dom|done|].
      rewrite Hm. f_equal. apply Hsound in Hm as (j & b' & Hb' & Heq & Hn').
      assert (N.to_nat i = N.to_nat j) as Hij%N2Nat.inj.
      { eapply NoDup_lookup; [exact Hnd|rewrite list_lookup_fmap, Hb; done|rewrite list_lookup_fmap, Hb'; cbn; by rewrite Heq]. }
      subst j. congruence.
  - split; [done|]. unfold size, set_size. simpl. by rewrite Hel.
Qed.
End module.

(** ** A node with three validators on two subnets *)
Module NetModuleEx.
#[local] Existing Instance CanonicalOrder.
#[local] Existing Instance AppendOrder.
#[local] Existing Instance PeersEx.FirstChoice.
#[local] Instance Ports : QuicAddress := λ a, Some (a + 9000).

Definition registry (own : gset ValidatorIndex) : ValidatorRegistryImpl :=
  mkValidatorRegistryImpl {[0 := [97]; 1 := [98]; 2 := [99]; 7 := [100]]} ∅ own.
Definition load (own : gset ValidatorIndex) : result (NetModule * SubnetIndex) :=
  on_loaded_success 1 (registry own) 2 3 PeersEx.bootnodes None 0.
Definition loaded : NetModule :=
  match load {[0; 2]} with Ok (s, _) => s | _ => mkNetModule PeersEx.loaded ∅ ∅ ∅ ∅ ∅ [] [] [] [] end.

Lemma ids_distinct : NoDup (bn_peer_id <$> PeersEx.bootnodes).
Proof. apply (bool_decide_unpack _). by vm_compute. Qed.
Lemma module_loaded_reachable : module_reachable loaded.
Proof.
  eapply (module_loaded 1 (registry {[0; 2]}) 2 3 PeersEx.bootnodes None 0 loaded 0); [apply ids_distinct|by vm_compute].
Qed.

(** Peer 2 is the bootnode of validator 1; peer 50 calls itself Qlean/1.0. *)
Definition host : HostView := mkHostView [2; 50; 51] (λ p, if p =? 50 then Some (text "Qlean/1.0") else None).
Lemma peer_50_not_stuck : ¬ stuck_aggregator 50 (nm_peers loaded).
Proof. intros [_ (st & Hst & _)]. vm_compute in Hst. discriminate Hst. Qed.

(** Two validators on one subnet are accepted, none at all is not. *)
Lemma module_load_decides_witness :
  (∃ s, load {[0; 2]} = Ok (s, 0) ∧ nm_peer_name s !! 2 = Some [98]) ∧ load ∅ = Throw Fatal.
Proof.
  pose proof (module_load_decides 1 (registry {[0; 2]}) 2 3 PeersEx.bootnodes None 0 ids_distinct ltac:(done)) as H1.
  pose proof (module_load_decides 1 (registry ∅) 2 3 PeersEx.bootnodes None 0 ids_distinct ltac:(done)) as H2.
  cbv zeta in H1, H2. split; [|by vm_compute]. fold (load {[0; 2]}) in H1.
  exists loaded. assert (load {[0; 2]} = Ok (loaded, 0)) as Hl by (by vm_compute). split; [exact Hl|].
  rewrite Hl in H1. apply H1. exists 1, (mkBootnodeInfo 72 2 true). split; [done|]. by split.
Defined.
End NetModuleEx.
