(* ===== verification/Scheduler.v ===== *)
(** * Task schedulers (src/src/se/impl/{scheduler_impl,common,thread_handler}.hpp)

    A scheduler keeps the tasks of one worker thread in a queue ordered by deadline.  Other
    threads add tasks under the lock; the worker takes the due ones and sleeps otherwise.
    The critical sections are functions on [SchedulerBase]; [step] interleaves the worker,
    at the position [sc_pc] of its loop, with any number of threads that add tasks.  Times
    are nanoseconds of the clock, timeouts microseconds. *)

From S2P Require Import Prelude.

Section scheduler.
Context {T P : Type}.

(** A one-shot task has no predicate; [tt_task] is empty for an empty std::function. *)
Record TimedTask := mkTimedTask {
  tt_created : N;
  tt_timeout : N;
  tt_predic : option P;
  tt_task : option T;
}.

Definition deadline (t : TimedTask) : N := tt_created t + 1000 * tt_timeout t.

(** Where the worker stands in the loop of [process]: before extractExpired, with a task
    taken, before untilFirst, in the wait that ends at a time, before the test of
    [proceed_], and returned. *)
Inductive Pc :=
| Extract
| Run (t : TimedTask)
| Until
| Wait (wake : N)
| Loop
| Returned.

(** [sc_event] is the signalled state of the event; [sc_log] records when which task
    was started and [sc_added] what was added. *)
Record SchedulerBase := mkSchedulerBase {
  sc_proceed : bool;
  sc_tasks : list TimedTask;
  sc_event : bool;
  sc_is_busy : bool;
  sc_pc : Pc;
  sc_log : list (N * TimedTask);
  sc_added : list TimedTask;
}.

Definition SchedulerBase_new : SchedulerBase := mkSchedulerBase true [] false false Extract [] [].

(** ** The queue *)

(** std::upper_bound: the position before the first task with a later deadline *)
Fixpoint after (tp : N) (tasks : list TimedTask) : nat :=
  match tasks with
  | [] => O
  | r :: tasks => if tp <? deadline r then O else S (after tp tasks)
  end.

Definition insert_task (pos : nat) (t : TimedTask) (tasks : list TimedTask) : list TimedTask :=
  take pos tasks ++ t :: drop pos tasks.

Definition add (t : TimedTask) (s : SchedulerBase) : SchedulerBase :=
  mkSchedulerBase (sc_proceed s)
    (insert_task (after (deadline t) (sc_tasks s)) t (sc_tasks s))
    true
    (if tt_timeout t =? 0 then true else sc_is_busy s)
    (sc_pc s) (sc_log s) (sc_added s ++ [t]).

Definition set_busy (busy : bool) (tasks : list TimedTask) (s : SchedulerBase) : SchedulerBase :=
  mkSchedulerBase (sc_proceed s) tasks (sc_event s) busy (sc_pc s) (sc_log s) (sc_added s).

Definition extractExpired (now : N) (s : SchedulerBase) : option TimedTask * SchedulerBase :=
  match sc_tasks s with
  | first_task :: tasks =>
      if deadline first_task <=? now then (Some first_task, set_busy true tasks s)
      else (None, set_busy false (sc_tasks s) s)
  | [] => (None, set_busy false [] s)
  end.

(** Microseconds until the first task; ten minutes when there is none. *)
Definition untilFirst (now : N) (s : SchedulerBase) : N :=
  match sc_tasks s with
  | first :: _ => if now <? deadline first then (deadline first - now) / 1000 else 0
  | [] => 10 * 60 * 1000000
  end.

(** ** The interface *)

Definition isBusy (s : SchedulerBase) : bool := sc_is_busy s.

Definition uploadIfFree (now timeout : N) (task : T) (s : SchedulerBase) : option T * SchedulerBase :=
  if sc_is_busy s then (Some task, s)
  else (None, add (mkTimedTask now timeout None (Some task)) s).

Definition addDelayed (now timeout : N) (task : T) (s : SchedulerBase) : SchedulerBase :=
  add (mkTimedTask now timeout None (Some task)) s.

Definition repeat (now timeout : N) (task : T) (pred : P) (s : SchedulerBase) : SchedulerBase :=
  add (mkTimedTask now timeout (Some pred) (Some task)) s.

Definition dispose (s : SchedulerBase) : SchedulerBase :=
  mkSchedulerBase false (sc_tasks s) true (sc_is_busy s) (sc_pc s) (sc_log s) (sc_added s).

(** ** The worker *)

(** How the body of a task ends: it returns, its predicate says no, or it throws. *)
Inductive RunResult := Done | PredicateFalse | Throws.

Definition set_pc (pc : Pc) (s : SchedulerBase) : SchedulerBase :=
  mkSchedulerBase (sc_proceed s) (sc_tasks s) (sc_event s) (sc_is_busy s) pc (sc_log s) (sc_added s).

Definition log_run (now : N) (t : TimedTask) (s : SchedulerBase) : SchedulerBase :=
  mkSchedulerBase (sc_proceed s) (sc_tasks s) (sc_event s) (sc_is_busy s) (sc_pc s)
    (sc_log s ++ [(now, t)]) (sc_added s).

(** The end of the try block of [process], at time [now]; exceptions are caught. *)
Definition run_extracted (now : N) (r : RunResult) (t : TimedTask) (s : SchedulerBase) : SchedulerBase :=
  match tt_task t, tt_predic t, r with
  | Some _, Some _, Done => add (mkTimedTask now (tt_timeout t) (tt_predic t) (tt_task t)) s
  | _, _, _ => s
  end.

(** The wait ends when the event is set, which resets it, or at its timeout. *)
Definition wait_done (now wake : N) (s : SchedulerBase) : option SchedulerBase :=
  if sc_event s || (wake <=? now)
  then Some (mkSchedulerBase (sc_proceed s) (sc_tasks s) false (sc_is_busy s) (sc_pc s) (sc_log s) (sc_added s))
  else None.

(** One step of the worker at time [now]; [r] is how the task it runs ends.  [None]: the
    worker is blocked or has returned. *)
Definition worker (now : N) (r : RunResult) (s : SchedulerBase) : option SchedulerBase :=
  match sc_pc s with
  | Extract =>
      let '(task, s) := extractExpired now s in
      Some (match task with Some t => set_pc (Run t) (log_run now t s) | None => set_pc Until s end)
  | Run t => Some (set_pc Loop (run_extracted now r t s))
  | Until => Some (set_pc (Wait (now + 1000 * untilFirst now s)) s)
  | Wait wake => set_pc Loop <$> wait_done now wake s
  | Loop =>
      (* while (proceed_.test_and_set()) *)
      Some (mkSchedulerBase true (sc_tasks s) (sc_event s) (sc_is_busy s)
              (if sc_proceed s then Extract else Returned) (sc_log s) (sc_added s))
  | Returned => None
  end.

(** What can happen at time [now]: a step of the worker, or of a thread that adds a task
    or stops the scheduler. *)
Inductive event :=
| EWorker (r : RunResult)
| EAddDelayed (timeout : N) (task : T)
| ERepeat (timeout : N) (task : T) (pred : P)
| EUploadIfFree (timeout : N) (task : T)
| EDispose.

Definition perform (now : N) (e : event) (s : SchedulerBase) : option SchedulerBase :=
  match e with
  | EWorker r => worker now r s
  | EAddDelayed timeout task => Some (addDelayed now timeout task s)
  | ERepeat timeout task pred => Some (repeat now timeout task pred s)
  | EUploadIfFree timeout task => Some (uploadIfFree now timeout task s).2
  | EDispose => Some (dispose s)
  end.

(** The states reachable at a time of a clock that does not go back. *)
Inductive reachable_at : N → SchedulerBase → Prop :=
| reach_new now : reachable_at now SchedulerBase_new
| reach_time now now' s : reachable_at now s → now ≤ now' → reachable_at now' s
| reach_step now now' e s s' :
    reachable_at now s → now ≤ now' → perform now' e s = Some s' → reachable_at now' s'.
End scheduler.
Arguments TimedTask : clear implicits.
Arguments SchedulerBase : clear implicits.
Arguments Pc : clear implicits.
Arguments event : clear implicits.
