(* ===== verification/SchedulerTheorems.v ===== *)
(** * Task schedulers: order, no lost wake-up, shutdown *)

From S2P Require Import Prelude Scheduler.

Section theorems.
Context {T P : Type}.
Notation TimedTask := (TimedTask T P).
Notation SchedulerBase := (SchedulerBase T P).
Implicit Types (s : SchedulerBase) (t : TimedTask) (tasks : list TimedTask).

(** ** The queue *)

Definition by_deadline : relation TimedTask := λ a b, deadline a ≤ deadline b.

(** The tasks due at one instant, in their order. *)
Definition due_at (d : N) tasks : list TimedTask := filter (λ t, deadline t = d) tasks.

#[local] Arguments due_at : simpl never.

Lemma due_at_app d l1 l2 : due_at d (l1 ++ l2) = due_at d l1 ++ due_at d l2.
Proof. apply filter_app. Qed.

Lemma due_at_none d tasks : Forall (λ t, d < deadline t) tasks → due_at d tasks = [].
Proof.
  induction 1 as [|t tasks Ht _ IH]; [done|]. unfold due_at. rewrite filter_cons_False; [done|lia].
Qed.

Lemma after_spec tp tasks :
  StronglySorted by_deadline tasks →
  Forall (λ t, deadline t ≤ tp) (take (after tp tasks) tasks) ∧
  Forall (λ t, tp < deadline t) (drop (after tp tasks) tasks).
Proof.
  induction 1 as [|r tasks Hs IH Hr]; [done|]. cbn [after].
  destruct (N.ltb_spec tp (deadline r)); cbn [take drop].
  - split; [done|]. constructor; [done|]. eapply Forall_impl; [exact Hr|]. unfold by_deadline. intros x Hx. cbn in Hx. lia.
  - destruct IH as [IH1 IH2]. split; [by constructor|done].
Qed.

Lemma insert_sorted t tasks :
  StronglySorted by_deadline tasks →
  StronglySorted by_deadline (insert_task (after (deadline t) tasks) t tasks).
Proof.
  intros Hs. destruct (after_spec (deadline t) tasks Hs) as [Hle Hgt]. unfold insert_task.
  rewrite <- (take_drop (after (deadline t) tasks) tasks) in Hs.
  apply StronglySorted_app in Hs as (Hcross & Hs1 & Hs2).
  apply StronglySorted_app. split_and!; [|done|].
  - intros a b Ha [->|Hb]%elem_of_cons; [by eapply Forall_forall in Hle|by apply Hcross].
  - constructor; [done|]. eapply Forall_impl; [exact Hgt|]. unfold by_deadline. cbn. intros; lia.
Qed.

(** A task goes behind the tasks that are due at the same instant. *)
Lemma insert_due_at d t tasks :
  StronglySorted by_deadline tasks →
  due_at d (insert_task (after (deadline t) tasks) t tasks) = due_at d (tasks ++ [t]).
Proof.
  intros Hs. destruct (after_spec (deadline t) tasks Hs) as [_ Hgt]. unfold insert_task.
  assert (Htasks : due_at d tasks = due_at d (take (after (deadline t) tasks) tasks) ++ due_at d (drop (after (deadline t) tasks) tasks))
    by (by rewrite <- due_at_app, take_drop).
  rewrite (cons_middle t), !due_at_app, Htasks, <- app_assoc. f_equal.
  destruct (decide (deadline t = d)) as [<-|Hne].
  - by rewrite (due_at_none _ _ Hgt), app_nil_r.
  - assert (Hnil : due_at d [t] = []) by (unfold due_at; by rewrite filter_cons_False, filter_nil).
    by rewrite Hnil, app_nil_r.
Qed.

(** ** The invariant *)

Record sched_wf (now : N) s : Prop := {
  sw_sorted : StronglySorted by_deadline (sc_tasks s);
  sw_fifo d : due_at d (sc_added s) = due_at d ((sc_log s).*2 ++ sc_tasks s);
  sw_log : Forall (λ x, deadline x.2 ≤ x.1 ∧ x.1 ≤ now) (sc_log s);
  sw_wake wake : sc_pc s = Wait wake → sc_event s = false →
    Forall (λ t, wake ≤ N.max (deadline t) now) (sc_tasks s);
}.

Lemma sched_wf_new now : sched_wf now SchedulerBase_new.
Proof. split; [constructor|done|constructor|done]. Qed.

Lemma sched_wf_mono now now' s : now ≤ now' → sched_wf now s → sched_wf now' s.
Proof.
  intros Hle [Hs Hf Hl Hw]. split; [done|done|..].
  - eapply Forall_impl; [exact Hl|]. intros x [??]; lia.
  - intros wake Hpc Hev. eapply Forall_impl; [exact (Hw wake Hpc Hev)|]. intros x Hx. cbn in Hx. lia.
Qed.

Lemma sched_wf_add now t s : sched_wf now s → sched_wf now (add t s).
Proof.
  intros [Hs Hf Hl Hw]. split; cbn.
  - by apply insert_sorted.
  - intros d. rewrite !due_at_app, (insert_due_at d t _ Hs), Hf, !due_at_app. by rewrite app_assoc.
  - done.
  - done.
Qed.

(** Moving the worker, without touching the queue. *)
Lemma sched_wf_pc now pc ev busy proceed s :
  sched_wf now s → (∀ wake, pc ≠ Wait wake) →
  sched_wf now (mkSchedulerBase proceed (sc_tasks s) ev busy pc (sc_log s) (sc_added s)).
Proof. intros [Hs Hf Hl _] Hpc. split; [done|done|done|]. intros wake Heq. by destruct (Hpc wake). Qed.

Lemma until_bound now s t tasks :
  sc_tasks s = t :: tasks → now + 1000 * untilFirst now s ≤ N.max (deadline t) now.
Proof.
  intros Ht. unfold untilFirst. rewrite Ht. destruct (N.ltb_spec now (deadline t)) as [Hlt|]; [|lia].
  pose proof (N.Div0.mul_div_le (deadline t - now) 1000). lia.
Qed.

Lemma sched_wf_worker now r s s' : sched_wf now s → worker now r s = Some s' → sched_wf now s'.
Proof.
  intros Hwf. pose proof Hwf as [Hs Hf Hl Hw]. unfold worker. destruct (sc_pc s) as [|t| |wake| |] eqn:Hpc; cbn.
  - unfold extractExpired. destruct (sc_tasks s) as [|t tasks] eqn:Ht.
    + intros [= <-]. pose proof (sched_wf_pc now Until (sc_event s) false (sc_proceed s) s Hwf) as H.
      rewrite Ht in H. by apply H.
    + destruct (N.leb_spec (deadline t) now); intros [= <-].
      * split; cbn.
        -- by inversion Hs.
        -- intros d. rewrite Hf, fmap_app. cbn. by rewrite <- (assoc_L (++)).
        -- apply Forall_app. split; [done|]. constructor; [cbn; lia|constructor].
        -- done.
      * pose proof (sched_wf_pc now Until (sc_event s) false (sc_proceed s) s Hwf) as H1.
        rewrite Ht in H1. by apply H1.
  - intros [= <-]. assert (Hrun : sched_wf now (run_extracted now r t s)).
    { unfold run_extracted. destruct (tt_task t), (tt_predic t), r; try done. by apply sched_wf_add. }
    by apply (sched_wf_pc now Loop _ _ _ _ Hrun).
  - intros [= <-]. split; cbn; [done|done|done|]. intros wake [= <-] _.
    destruct (sc_tasks s) as [|t tasks] eqn:Ht; [constructor|]. pose proof (until_bound now s t tasks Ht) as Hb.
    inversion Hs as [|?? _ Hall]; subst. constructor; [done|].
    eapply Forall_impl; [exact Hall|]. unfold by_deadline. intros x Hx. cbn in Hx. lia.
  - unfold wait_done. destruct (_ || _); [|done]. intros [= <-]. by apply (sched_wf_pc now Loop false (sc_is_busy s) (sc_proceed s) s Hwf).
  - intros [= <-]. apply (sched_wf_pc now _ _ _ _ _ Hwf). by destruct (sc_proceed s).
  - done.
Qed.

Lemma sched_wf_perform now e s s' : sched_wf now s → perform now e s = Some s' → sched_wf now s'.
Proof.
  intros Hwf. destruct e as [r|timeout task|timeout task pred|timeout task|]; cbn.
  - by apply sched_wf_worker.
  - intros [= <-]. by apply sched_wf_add.
  - intros [= <-]. by apply sched_wf_add.
  - unfold uploadIfFree. destruct (sc_is_busy s); intros [= <-]; [done|]. by apply sched_wf_add.
  - intros [= <-]. destruct Hwf as [Hs Hf Hl Hw]. by split.
Qed.

Lemma sched_reachable_wf now s : reachable_at now s → sched_wf now s.
Proof.
  induction 1 as [|now now' s _ IH Hle|now now' e s s' _ IH Hle Hstep]; [apply sched_wf_new|by eapply sched_wf_mono|].
  eapply sched_wf_perform; [|exact Hstep]. by eapply sched_wf_mono.
Qed.

(** The task that runs was logged. *)
Lemma running_logged now s t : reachable_at now s → sc_pc s = Run t → ∃ n, (n, t) ∈ sc_log s.
Proof.
  induction 1 as [|now now' s _ IH Hle|now now' e s s' _ IH Hle Hstep]; [done|done|].
  destruct e as [r|timeout task|timeout task pred|timeout task|]; cbn in Hstep.
  - unfold worker in Hstep. destruct (sc_pc s) as [|t0| |wake| |] eqn:Hpc.
    + unfold extractExpired in Hstep. destruct (sc_tasks s) as [|t1 tasks]; [|destruct (_ <=? _)];
        injection Hstep as <-; cbn; [done| |done]. intros [= <-]. exists now'. apply elem_of_app. right. by left.
    + by injection Hstep as <-.
    + by injection Hstep as <-.
    + unfold wait_done in Hstep. destruct (_ || _); [|done]. by injection Hstep as <-.
    + injection Hstep as <-. cbn. by destruct (sc_proceed s).
    + done.
  - by injection Hstep as <-.
  - by injection Hstep as <-.
  - unfold uploadIfFree in Hstep. destruct (sc_is_busy s); by injection Hstep as <-.
  - by injection Hstep as <-.
Qed.

Lemma logged_added now s n t : reachable_at now s → (n, t) ∈ sc_log s → t ∈ sc_added s.
Proof.
  intros Hwf%sched_reachable_wf Hin.
  assert (Hdue : t ∈ due_at (deadline t) (sc_added s)); [|by apply list_elem_of_filter in Hdue as [_ ?]].
  rewrite (sw_fifo _ _ Hwf). apply list_elem_of_filter. split; [done|]. apply elem_of_app. left.
  apply list_elem_of_fmap. by exists (n, t).
Qed.

(** Only a task with a predicate is added again. *)
Lemma worker_added now r s s' :
  worker now r s = Some s' → (∀ t, sc_pc s = Run t → tt_predic t = None) → sc_added s' = sc_added s.
Proof.
  unfold worker. intros Hw Hone. destruct (sc_pc s) as [|t| |wake| |] eqn:Hpc.
  - unfold extractExpired in Hw. destruct (sc_tasks s); [|destruct (_ <=? _)]; by injection Hw as <-.
  - injection Hw as <-. unfold run_extracted. rewrite (Hone t eq_refl). by destruct (tt_task t).
  - by injection Hw as <-.
  - unfold wait_done in Hw. destruct (_ || _); [|done]. by injection Hw as <-.
  - by injection Hw as <-.
  - done.
Qed.

(** ** Progress of the worker *)

(** The worker alone at time [now]; the list says how the tasks end. *)
Fixpoint run_worker (now : N) (rs : list RunResult) s : option SchedulerBase :=
  match rs with
  | [] => Some s
  | r :: rs => worker now r s ≫= run_worker now rs
  end.

(** At most [n] steps of the worker lead to [Q], however the tasks end. *)
Definition within (n : nat) (now : N) (Q : SchedulerBase → Prop) s : Prop :=
  ∀ rs, length rs = n → ∃ m s', (m ≤ n)%nat ∧ run_worker now (take m rs) s = Some s' ∧ Q s'.

Lemma within_done n now Q s : Q s → within n now Q s.
Proof. intros HQ rs _. exists 0%nat, s. split; [lia|]. by rewrite take_0. Qed.

Lemma within_step n now Q s :
  (∀ r, ∃ s', worker now r s = Some s' ∧ within n now Q s') → within (S n) now Q s.
Proof.
  intros Hstep [|r rs] Hl; [done|]. destruct (Hstep r) as (s' & Hw & Hn).
  destruct (Hn rs ltac:(by injection Hl)) as (m & s'' & Hm & Hrun & HQ).
  exists (S m), s''. split; [lia|]. split; [|done]. cbn. by rewrite Hw.
Qed.

Lemma within_le n n' now Q s : (n ≤ n')%nat → within n now Q s → within n' now Q s.
Proof.
  intros Hle Hn rs Hl. destruct (Hn (take n rs)) as (m & s' & Hm & Hrun & HQ); [rewrite length_take; lia|].
  exists m, s'. rewrite take_take, Nat.min_l in Hrun by done. split; [lia|done].
Qed.

(** The first task is taken next. *)
Definition started (now : N) t s : Prop := sc_pc s = Run t ∧ ∃ log, sc_log s = log ++ [(now, t)].

Lemma within_extract now s t tasks :
  sc_pc s = Extract → sc_tasks s = t :: tasks → deadline t ≤ now → within 1 now (started now t) s.
Proof.
  intros Hpc Ht Hdue. apply within_step. intros r. unfold worker, extractExpired. rewrite Hpc, Ht, (proj2 (N.leb_le _ _)) by done.
  eexists. split; [done|]. apply within_done. split; [done|]. by eexists.
Qed.

Lemma within_loop now s t tasks :
  sc_pc s = Loop → sc_proceed s = true → sc_tasks s = t :: tasks → deadline t ≤ now → within 2 now (started now t) s.
Proof.
  intros Hpc Hp Ht Hdue. apply within_step. intros r. unfold worker. rewrite Hpc, Hp. eexists. split; [done|]. by eapply within_extract.
Qed.

Lemma within_wait now s wake t tasks :
  sc_pc s = Wait wake → wake ≤ now ∨ sc_event s = true →
  sc_proceed s = true → sc_tasks s = t :: tasks → deadline t ≤ now → within 3 now (started now t) s.
Proof.
  intros Hpc Hwake Hp Ht Hdue. apply within_step. intros r. unfold worker, wait_done. rewrite Hpc.
  assert (sc_event s || (wake <=? now) = true) as -> by (apply orb_true_iff; rewrite N.leb_le; tauto).
  eexists. split; [done|]. by eapply within_loop.
Qed.

Lemma within_until now s t tasks :
  sc_pc s = Until → sc_proceed s = true → sc_tasks s = t :: tasks → deadline t ≤ now → within 4 now (started now t) s.
Proof.
  intros Hpc Hp Ht Hdue. apply within_step. intros r. unfold worker. rewrite Hpc. eexists. split; [done|].
  eapply within_wait; [done| |done|done|done]. left. pose proof (until_bound now s t tasks Ht). lia.
Qed.

(** A task that is added again does not overtake one that is due. *)
Lemma add_keeps_first now t' t tasks s :
  sc_tasks s = t :: tasks → deadline t ≤ now → tt_created t' = now →
  ∃ tasks', sc_tasks (add t' s) = t :: tasks'.
Proof.
  intros Ht Hdue Hc. cbn. rewrite Ht. cbn [after]. rewrite (proj2 (N.ltb_ge _ _)); [by eexists|].
  unfold deadline at 2. lia.
Qed.

Lemma within_run now s t0 t tasks :
  sc_pc s = Run t0 → sc_proceed s = true → sc_tasks s = t :: tasks → deadline t ≤ now → within 3 now (started now t) s.
Proof.
  intros Hpc Hp Ht Hdue. apply within_step. intros r. unfold worker. rewrite Hpc. eexists. split; [done|].
  assert (∃ tasks', sc_tasks (run_extracted now r t0 s) = t :: tasks' ∧ sc_proceed (run_extracted now r t0 s) = true)
    as (tasks' & Ht' & Hp').
  { unfold run_extracted. destruct (tt_task t0) as [x|], (tt_predic t0) as [p|], r; try by eexists.
    destruct (add_keeps_first now (mkTimedTask now (tt_timeout t0) (Some p) (Some x)) t tasks s Ht Hdue eq_refl)
      as [tasks' Ht']. by exists tasks'. }
  by eapply within_loop.
Qed.

(** ** The theorems *)

(** C27: In every reachable state of a scheduler, with any number of threads adding tasks, the
    queue is ordered by deadline; no task was started before its deadline; and for each
    instant the tasks due at it that were started, followed by those still queued, are the
    tasks that were added, in the order in which they were added: none is lost, none is
    started twice and none overtakes another. *)
Theorem scheduler_order now s :
  reachable_at now s →
  StronglySorted by_deadline (sc_tasks s) ∧
  Forall (λ x, deadline x.2 ≤ x.1 ∧ x.1 ≤ now) (sc_log s) ∧
  (∀ d, due_at d (sc_added s) = due_at d ((sc_log s).*2 ++ sc_tasks s)).
Proof. intros [Hs Hf Hl _]%sched_reachable_wf. done. Qed.

(** C33: No wake-up is lost: in every reachable state in which the first task is due and the
    worker has not been told to stop, the worker starts that task after at most four steps
    of its own, wherever it stands in its loop, asleep included. *)
Theorem scheduler_no_lost_wakeup now s t tasks :
  reachable_at now s → sc_proceed s = true → sc_pc s ≠ Returned →
  sc_tasks s = t :: tasks → deadline t ≤ now →
  within 4 now (started now t) s.
Proof.
  intros Hwf%sched_reachable_wf Hp Hret Ht Hdue. destruct (sc_pc s) as [|t0| |wake| |] eqn:Hpc.
  - apply (within_le 1); [lia|]. by eapply within_extract.
  - apply (within_le 3); [lia|]. by eapply within_run.
  - by eapply within_until.
  - apply (within_le 3); [lia|]. eapply within_wait; [done| |done|done|done].
    destruct (sc_event s) eqn:Hev; [by right|left].
    pose proof (sw_wake _ _ Hwf _ Hpc Hev) as Hall. rewrite Ht in Hall. inversion Hall; subst. lia.
  - apply (within_le 2); [lia|]. by eapply within_loop.
  - done.
Qed.

(** A scheduler that was disposed stops: its worker returns after at most four steps, from
    wherever it stands, and starts at most one more task. *)
Theorem scheduler_dispose_returns now s :
  sc_pc s ≠ Returned →
  within 4 now (λ s', sc_pc s' = Returned ∧ (length (sc_log s') ≤ S (length (sc_log s)))%nat) (dispose s).
Proof.
  intros Hret.
  assert (Hloop : ∀ s1, sc_pc s1 = Loop → sc_proceed s1 = false → (length (sc_log s1) ≤ S (length (sc_log s)))%nat →
            within 1 now (λ s', sc_pc s' = Returned ∧ (length (sc_log s') ≤ S (length (sc_log s)))%nat) s1).
  { intros s1 Hpc Hp Hl. apply within_step. intros r. unfold worker. rewrite Hpc, Hp. eexists. split; [done|].
    by apply within_done. }
  assert (Hrun : ∀ r t s1, sc_proceed (run_extracted now r t s1) = sc_proceed s1 ∧
            sc_log (run_extracted now r t s1) = sc_log s1).
  { intros r t s1. unfold run_extracted. by destruct (tt_task t), (tt_predic t), r. }
  destruct (sc_pc s) as [|t0| |wake| |] eqn:Hpc; try done; apply within_step; intros r;
    unfold worker; cbn [sc_pc dispose]; rewrite Hpc.
  - unfold extractExpired. cbn [sc_tasks dispose]. destruct (sc_tasks s) as [|t tasks]; [|destruct (_ <=? _)];
      (eexists; split; [done|]); apply within_step; intros r'; unfold worker; cbn; (eexists; split; [done|]).
    + apply (within_step 1). intros r''. cbn. eexists. split; [done|]. apply Hloop; cbn; [done|done|lia].
    + destruct (Hrun r' t (set_pc (Run t) (log_run now t (set_busy true tasks (dispose s))))) as [Hp Hl].
      apply (within_le 1); [lia|]. apply Hloop; cbn; [done|by rewrite Hp|]. rewrite Hl. cbn. rewrite length_app. cbn. lia.
    + apply (within_step 1). intros r''. cbn. eexists. split; [done|]. apply Hloop; cbn; [done|done|lia].
  - destruct (Hrun r t0 (dispose s)) as [Hp Hl]. eexists. split; [done|]. apply (within_le 1); [lia|].
    apply Hloop; cbn; [done|by rewrite Hp|]. rewrite Hl. cbn. lia.
  - eexists. split; [done|]. apply within_step. intros r'. cbn. eexists. split; [done|]. apply (within_le 1); [lia|].
    apply Hloop; cbn; [done|done|lia].
  - cbn. eexists. split; [done|]. apply (within_le 1); [lia|]. apply Hloop; cbn; [done|done|lia].
  - eexists. split; [done|]. cbn. apply within_done. cbn. split; [done|lia].
Qed.
End theorems.

(** The worker sleeps, then a task is added at time 0 and another when the first is due. *)
Module SchedEx.
Fixpoint run_events (now : N) (es : list (N * event N N)) (s : SchedulerBase N N) : option (N * SchedulerBase N N) :=
  match es with
  | [] => Some (now, s)
  | (t, e) :: es => if now <=? t then perform t e s ≫= run_events t es else None
  end.

Lemma run_events_reachable es now s now' s' :
  reachable_at now s → run_events now es s = Some (now', s') → reachable_at now' s'.
Proof.
  revert now s. induction es as [|[t e] es IH]; intros now s Hs; cbn; [by intros [= <- <-]|].
  destruct (N.leb_spec now t); [|done]. destruct (perform t e s) as [s1|] eqn:Hp; [|done].
  apply IH. by eapply reach_step.
Qed.

Definition first : TimedTask N N := mkTimedTask 0 1 None (Some 1).
Definition second : TimedTask N N := mkTimedTask 1000 5 None (Some 2).
Definition sleeping : SchedulerBase N N :=
  mkSchedulerBase true [first; second] true false (Wait 600000000000) [] [first; second].

Lemma sleeping_reachable : reachable_at 1000 sleeping.
Proof.
  eapply (run_events_reachable
    [(0, EWorker Done); (0, EWorker Done); (0, EAddDelayed 1 1); (1000, EUploadIfFree 5 2)] 0 SchedulerBase_new);
    [apply reach_new|by vm_compute].
Qed.

Lemma scheduler_order_witness : StronglySorted by_deadline (sc_tasks sleeping).
Proof. exact (proj1 (scheduler_order 1000 sleeping sleeping_reachable)). Defined.

Lemma scheduler_no_lost_wakeup_witness : within 4 1000 (started 1000 first) sleeping.
Proof.
  exact (scheduler_no_lost_wakeup 1000 sleeping first [second] sleeping_reachable eq_refl
           ltac:(done) eq_refl ltac:(by vm_compute)).
Defined.

Lemma scheduler_dispose_returns_witness :
  within 4 7 (λ s', sc_pc s' = Returned ∧ (length (sc_log s') ≤ 1)%nat) (dispose sleeping).
Proof. exact (scheduler_dispose_returns 7 sleeping ltac:(done)). Defined.
End SchedEx.
