(* ===== verification/Subscription.v ===== *)
(** * Subscriptions (src/src/se)

    Components talk through events: a SubscriberImpl registers for event keys at a
    SubscriptionEngine, a notification becomes one task per live subscription, and the
    AsyncDispatcher hands each task to the scheduler of the subscription's thread.

    Objects are identified by numbers: [sm_subscribers] holds the subscribers that are
    alive, so a [weak_ptr] locks when its number is there.  A [std::list] iterator is the
    number of its element.  Every method runs under the locks it takes and is one step. *)

From S2P Require Import Prelude Errors Scheduler.

Definition Tid := N.
Definition SubscriptionSetId := N.
Definition EventKey := N.
Definition EngineHash := N.
Definition SubscriberId := N.
Definition Iterator := N.

Definition kExecuteInPool : Tid := 2 ^ 32 - 1.

Section subscription.
Context {A : Type} `{BuildMode}.

(** The call [sub->on_notify(id, key, args)] that a notification makes *)
Record Delivery := mkDelivery {
  dl_subscriber : SubscriberId;
  dl_set_id : SubscriptionSetId;
  dl_key : EventKey;
  dl_args : A;
}.

(** A task as the dispatcher got it, or wrapped for a thread of its own. *)
Inductive Dispatched :=
| Plain (d : Delivery)
| OnTemporary (d : Delivery).

Notation Handler := (SchedulerBase Dispatched N).

(** ** AsyncDispatcher *)

Record AsyncDispatcher := mkAsyncDispatcher {
  ad_handlers : list Handler;
  ad_pool : list Handler;
  ad_temporary : list Handler;
  ad_temporary_counter : N;
  ad_is_disposed : bool;
  ad_next_tid_offset : N;
  ad_contexts : gmap Tid Handler;
}.

Definition set_handlers (l : list Handler) (d : AsyncDispatcher) : AsyncDispatcher :=
  mkAsyncDispatcher l (ad_pool d) (ad_temporary d) (ad_temporary_counter d) (ad_is_disposed d)
    (ad_next_tid_offset d) (ad_contexts d).
Definition set_pool (l : list Handler) (d : AsyncDispatcher) : AsyncDispatcher :=
  mkAsyncDispatcher (ad_handlers d) l (ad_temporary d) (ad_temporary_counter d) (ad_is_disposed d)
    (ad_next_tid_offset d) (ad_contexts d).
Definition set_contexts (offset : N) (m : gmap Tid Handler) (d : AsyncDispatcher) : AsyncDispatcher :=
  mkAsyncDispatcher (ad_handlers d) (ad_pool d) (ad_temporary d) (ad_temporary_counter d) (ad_is_disposed d)
    offset m.

Definition AsyncDispatcher_new (kHandlersCount kPoolThreadsCount : N) : AsyncDispatcher :=
  mkAsyncDispatcher (replicate (N.to_nat kHandlersCount) SchedulerBase_new)
    (replicate (N.to_nat kPoolThreadsCount) SchedulerBase_new) [] 0 false 0 ∅.

Definition kHandlersCount (d : AsyncDispatcher) : N := lengthN (ad_handlers d).

(** pred ? handler->repeat(...) : handler->addDelayed(...) *)
Definition hand_over (now timeout : N) (task : Delivery) (pred : option N) (h : Handler) : Handler :=
  match pred with
  | Some p => repeat now timeout (Plain task) p h
  | None => addDelayed now timeout (Plain task) h
  end.

(** The loop over the pool: the first handler that is free takes the task. *)
Fixpoint upload_to_pool (now timeout : N) (task : Dispatched) (pool : list Handler)
    : option Dispatched * list Handler :=
  match pool with
  | [] => (Some task, [])
  | h :: pool =>
      match uploadIfFree now timeout task h with
      | (None, h) => (None, h :: pool)
      | (Some task, h) => let '(o, pool) := upload_to_pool now timeout task pool in (o, h :: pool)
      end
  end.

Definition uploadToHandler (now : N) (tid : Tid) (timeout : N) (task : Delivery) (pred : option N)
    (d : AsyncDispatcher) : result AsyncDispatcher :=
  _ ← boost_assert (negb (tid =? kExecuteInPool) || bool_decide (pred = None));
  if ad_is_disposed d then Ok d
  else if tid <? kHandlersCount d then
    Ok (set_handlers (alter (hand_over now timeout task pred) (N.to_nat tid) (ad_handlers d)) d)
  else match ad_contexts d !! tid with
  | Some h => Ok (set_contexts (ad_next_tid_offset d) (<[tid := hand_over now timeout task pred h]> (ad_contexts d)) d)
  | None =>
      match upload_to_pool now timeout (Plain task) (ad_pool d) with
      | (None, pool) => Ok (set_pool pool d)
      | (Some _, pool) =>
          Ok (mkAsyncDispatcher (ad_handlers d) pool
                (ad_temporary d ++ [addDelayed now timeout (OnTemporary task) SchedulerBase_new])
                (ad_temporary_counter d + 1) (ad_is_disposed d) (ad_next_tid_offset d) (ad_contexts d))
      end
  end.

Definition dispatch_add (now : N) (tid : Tid) (task : Delivery) : AsyncDispatcher → result AsyncDispatcher :=
  uploadToHandler now tid 0 task None.
Definition dispatch_addDelayed (now : N) (tid : Tid) (timeout : N) (task : Delivery) : AsyncDispatcher → result AsyncDispatcher :=
  uploadToHandler now tid timeout task None.
Definition dispatch_repeat (now : N) (tid : Tid) (timeout : N) (task : Delivery) (pred : N) : AsyncDispatcher → result AsyncDispatcher :=
  uploadToHandler now tid timeout task (Some pred).

Definition bind (scheduler : option Handler) (d : AsyncDispatcher) : result (option Tid * AsyncDispatcher) :=
  match scheduler with
  | None => Ok (None, d)
  | Some h =>
      let execution_tid := (kHandlersCount d + ad_next_tid_offset d) mod 2 ^ 32 in
      _ ← boost_assert (bool_decide (ad_contexts d !! execution_tid = None));
      Ok (Some execution_tid,
          set_contexts ((ad_next_tid_offset d + 1) mod 2 ^ 32) (<[execution_tid := h]> (ad_contexts d)) d)
  end.

Definition unbind (tid : Tid) (d : AsyncDispatcher) : bool * AsyncDispatcher :=
  (bool_decide (is_Some (ad_contexts d !! tid)), set_contexts (ad_next_tid_offset d) (delete tid (ad_contexts d)) d).

(** The part of [dispose] before it waits for the temporary threads *)
Definition dispatcher_dispose (d : AsyncDispatcher) : AsyncDispatcher :=
  mkAsyncDispatcher (dispose <$> ad_handlers d) (dispose <$> ad_pool d) (ad_temporary d)
    (ad_temporary_counter d) true (ad_next_tid_offset d) (ad_contexts d).

(** ** SubscriptionEngine *)

(** An element of a list of subscribers, with the number that identifies it *)
Record Subscribed := mkSubscribed {
  sb_it : Iterator;
  sb_tid : Tid;
  sb_set_id : SubscriptionSetId;
  sb_subscriber : SubscriberId;
}.
#[global] Instance Subscribed_eq_dec : EqDecision Subscribed.
Proof. solve_decision. Defined.

(** [en_attached]: [dispatcher_] is set *)
Record SubscriptionEngine := mkSubscriptionEngine {
  en_attached : bool;
  en_subscribers_map : gmap EventKey (list Subscribed);
}.

Definition SubscriptionEngine_new : SubscriptionEngine := mkSubscriptionEngine true ∅.
Definition engine_dispose (e : SubscriptionEngine) : SubscriptionEngine :=
  mkSubscriptionEngine false (en_subscribers_map e).
Definition set_subscribers (m : gmap EventKey (list Subscribed)) (e : SubscriptionEngine) : SubscriptionEngine :=
  mkSubscriptionEngine (en_attached e) m.

(** [it] is the number of the new element. *)
Definition engine_subscribe (it : Iterator) (tid : Tid) (set_id : SubscriptionSetId) (key : EventKey)
    (ptr : SubscriberId) (e : SubscriptionEngine) : SubscriptionEngine :=
  set_subscribers
    (<[key := default [] (en_subscribers_map e !! key) ++ [mkSubscribed it tid set_id ptr]]> (en_subscribers_map e)) e.

(** Erasing the map element destroys the mutex that the lock_guard still holds, which is
    undefined, like erasing with an iterator that is not of this list. *)
Definition engine_unsubscribe (key : EventKey) (it_remove : Iterator) (e : SubscriptionEngine)
    : result SubscriptionEngine :=
  match en_subscribers_map e !! key with
  | None => Ok e
  | Some l =>
      if bool_decide (it_remove ∈ sb_it <$> l) then
        let l := filter (λ n, sb_it n ≠ it_remove) l in
        if bool_decide (l = []) then Throw UndefinedBehaviour
        else Ok (set_subscribers (<[key := l]> (en_subscribers_map e)) e)
      else Throw UndefinedBehaviour
  end.

Definition engine_size (key : EventKey) (e : SubscriptionEngine) : N :=
  lengthN (default [] (en_subscribers_map e !! key)).

(** The loop of notifyDelayed: the elements that stay and the tasks handed over *)
Fixpoint notify_list (now timeout : N) (key : EventKey) (args : A) (alive : SubscriberId → bool)
    (l : list Subscribed) (d : AsyncDispatcher) : result (list Subscribed * AsyncDispatcher) :=
  match l with
  | [] => Ok ([], d)
  | n :: l =>
      if alive (sb_subscriber n) then
        d ← dispatch_addDelayed now (sb_tid n) timeout (mkDelivery (sb_subscriber n) (sb_set_id n) key args) d;
        r ← notify_list now timeout key args alive l d;
        Ok (n :: r.1, r.2)
      else notify_list now timeout key args alive l d
  end.

Definition engine_notifyDelayed (now timeout : N) (key : EventKey) (args : A) (alive : SubscriberId → bool)
    (e : SubscriptionEngine) (d : AsyncDispatcher) : result (SubscriptionEngine * AsyncDispatcher) :=
  if negb (en_attached e) then Ok (e, d)
  else match en_subscribers_map e !! key with
  | None => Ok (e, d)
  | Some l =>
      r ← notify_list now timeout key args alive l d;
      Ok (set_subscribers (<[key := r.1]> (en_subscribers_map e)) e, r.2)
  end.

(** ** SubscriptionManager and its subscribers *)

Record SubscriberImpl := mkSubscriberImpl {
  su_next_id : SubscriptionSetId;
  su_engine : EngineHash;
  su_subscriptions_sets : gmap SubscriptionSetId (gmap EventKey Iterator);
}.

(** [sm_next] numbers the objects; [sm_delivered] records the calls of on_notify. *)
Record SubscriptionManager := mkSubscriptionManager {
  sm_dispatcher : AsyncDispatcher;
  sm_engines : gmap EngineHash SubscriptionEngine;
  sm_disposed : bool;
  sm_subscribers : gmap SubscriberId SubscriberImpl;
  sm_next : N;
  sm_delivered : list (N * Delivery);
}.

Definition set_dispatcher (d : AsyncDispatcher) (w : SubscriptionManager) : SubscriptionManager :=
  mkSubscriptionManager d (sm_engines w) (sm_disposed w) (sm_subscribers w) (sm_next w) (sm_delivered w).
Definition set_engines (m : gmap EngineHash SubscriptionEngine) (w : SubscriptionManager) : SubscriptionManager :=
  mkSubscriptionManager (sm_dispatcher w) m (sm_disposed w) (sm_subscribers w) (sm_next w) (sm_delivered w).
Definition put_subscribers (m : gmap SubscriberId SubscriberImpl) (w : SubscriptionManager) : SubscriptionManager :=
  mkSubscriptionManager (sm_dispatcher w) (sm_engines w) (sm_disposed w) m (sm_next w) (sm_delivered w).
Definition fresh (w : SubscriptionManager) : N * SubscriptionManager :=
  (sm_next w, mkSubscriptionManager (sm_dispatcher w) (sm_engines w) (sm_disposed w) (sm_subscribers w)
                (sm_next w + 1) (sm_delivered w)).

Definition SubscriptionManager_new (handlers pool : N) : SubscriptionManager :=
  mkSubscriptionManager (AsyncDispatcher_new handlers pool) ∅ false ∅ 0 [].

Definition manager_dispose (w : SubscriptionManager) : SubscriptionManager :=
  if sm_disposed w then w
  else mkSubscriptionManager (dispatcher_dispose (sm_dispatcher w)) (engine_dispose <$> sm_engines w) true
         (sm_subscribers w) (sm_next w) (sm_delivered w).

Definition getEngine (engineId : EngineHash) (w : SubscriptionManager) : SubscriptionManager :=
  match sm_engines w !! engineId with
  | Some _ => w
  | None => set_engines (<[engineId := SubscriptionEngine_new]> (sm_engines w)) w
  end.

Definition alive (w : SubscriptionManager) (ptr : SubscriberId) : bool :=
  bool_decide (is_Some (sm_subscribers w !! ptr)).

Definition notifyDelayed (now timeout : N) (engineId : EngineHash) (key : EventKey) (args : A)
    (w : SubscriptionManager) : result SubscriptionManager :=
  match sm_engines w !! engineId with
  | None => Ok w
  | Some engine =>
      r ← engine_notifyDelayed now timeout key args (alive w) engine (sm_dispatcher w);
      Ok (set_dispatcher r.2 (set_engines (<[engineId := r.1]> (sm_engines w)) w))
  end.

Definition notify (now : N) (engineId : EngineHash) (key : EventKey) (args : A) : SubscriptionManager → result SubscriptionManager :=
  notifyDelayed now 0 engineId key args.

(** SubscriberImpl::create and the end of the last reference to a subscriber, which does not
    unsubscribe *)
Definition subscriber_create (engineId : EngineHash) (w : SubscriptionManager) : SubscriberId * SubscriptionManager :=
  let '(id, w) := fresh w in
  (id, put_subscribers (<[id := mkSubscriberImpl 0 engineId ∅]> (sm_subscribers w)) w).
Definition subscriber_destroy (ptr : SubscriberId) (w : SubscriptionManager) : SubscriptionManager :=
  put_subscribers (delete ptr (sm_subscribers w)) w.

(** The methods of SubscriberImpl, called on a subscriber [ptr] that is alive *)
Definition set_sets (m : gmap SubscriptionSetId (gmap EventKey Iterator)) (s : SubscriberImpl) : SubscriberImpl :=
  mkSubscriberImpl (su_next_id s) (su_engine s) m.

Definition generateSubscriptionSetId (s : SubscriberImpl) : SubscriptionSetId * SubscriberImpl :=
  let id := (su_next_id s + 1) mod 2 ^ 32 in (id, mkSubscriberImpl id (su_engine s) (su_subscriptions_sets s)).

Definition subscribe (ptr : SubscriberId) (id : SubscriptionSetId) (key : EventKey) (tid : Tid)
    (w : SubscriptionManager) : SubscriptionManager :=
  match sm_subscribers w !! ptr with
  | None => w
  | Some s =>
      match sm_engines w !! su_engine s with
      | None => w
      | Some engine =>
          let set := default ∅ (su_subscriptions_sets s !! id) in
          match set !! key with
          | Some _ => w
          | None =>
              let '(it, w) := fresh w in
              put_subscribers (<[ptr := set_sets (<[id := <[key := it]> set]> (su_subscriptions_sets s)) s]> (sm_subscribers w))
                (set_engines (<[su_engine s := engine_subscribe it tid id key ptr engine]> (sm_engines w)) w)
          end
      end
  end.

(** engine->unsubscribe(key, it) when the engine locks *)
Definition unsubscribe_at (engineId : EngineHash) (key : EventKey) (it : Iterator) (w : SubscriptionManager)
    : result SubscriptionManager :=
  match sm_engines w !! engineId with
  | None => Ok w
  | Some engine =>
      engine ← engine_unsubscribe key it engine;
      Ok (set_engines (<[engineId := engine]> (sm_engines w)) w)
  end.

Definition unsubscribe_key (ptr : SubscriberId) (id : SubscriptionSetId) (key : EventKey) (w : SubscriptionManager)
    : result (bool * SubscriptionManager) :=
  match sm_subscribers w !! ptr with
  | None => Ok (false, w)
  | Some s =>
      match su_subscriptions_sets s !! id with
      | None => Ok (false, w)
      | Some subscriptions =>
          match subscriptions !! key with
          | None => Ok (false, w)
          | Some it =>
              w ← unsubscribe_at (su_engine s) key it w;
              Ok (true, put_subscribers
                          (<[ptr := set_sets (<[id := delete key subscriptions]> (su_subscriptions_sets s)) s]>
                             (sm_subscribers w)) w)
          end
      end
  end.

(** The loop over the subscriptions of a set; erasing different elements commutes, so the
    order of the unordered_map does not matter. *)
Definition unsubscribe_set (ptr : SubscriberId) (id : SubscriptionSetId) (w : SubscriptionManager)
    : result (bool * SubscriptionManager) :=
  match sm_subscribers w !! ptr with
  | None => Ok (false, w)
  | Some s =>
      match su_subscriptions_sets s !! id with
      | None => Ok (false, w)
      | Some subscriptions =>
          w ← oc_foldl (λ w x, unsubscribe_at (su_engine s) x.1 x.2 w) w (map_to_list subscriptions);
          Ok (true, put_subscribers (<[ptr := set_sets (delete id (su_subscriptions_sets s)) s]> (sm_subscribers w)) w)
      end
  end.

Definition unsubscribe_all (ptr : SubscriberId) (w : SubscriptionManager) : result SubscriptionManager :=
  match sm_subscribers w !! ptr with
  | None => Ok w
  | Some s =>
      w ← oc_foldl (λ w x, oc_foldl (λ w y, unsubscribe_at (su_engine s) y.1 y.2 w) w (map_to_list x.2))
            w (map_to_list (su_subscriptions_sets s));
      Ok (put_subscribers (<[ptr := set_sets ∅ s]> (sm_subscribers w)) w)
  end.

(** The worker of a handler makes a step; a task that ends called on_notify if its
    subscriber was still there. *)
Definition deliver (now : N) (h : Handler) (w : SubscriptionManager) : list (N * Delivery) :=
  match sc_pc h with
  | Run t => match tt_task t with
             | Some (Plain d) | Some (OnTemporary d) => if alive w (dl_subscriber d) then [(now, d)] else []
             | None => []
             end
  | _ => []
  end.

Definition handler_step (now : N) (i : nat) (r : RunResult) (w : SubscriptionManager) : option SubscriptionManager :=
  h ← ad_handlers (sm_dispatcher w) !! i;
  h' ← worker now r h;
  Some (mkSubscriptionManager
          (set_handlers (<[i := h']> (ad_handlers (sm_dispatcher w))) (sm_dispatcher w))
          (sm_engines w) (sm_disposed w) (sm_subscribers w) (sm_next w) (sm_delivered w ++ deliver now h w)).
End subscription.
Arguments Delivery : clear implicits.
Arguments Dispatched : clear implicits.
Arguments AsyncDispatcher : clear implicits.
Arguments SubscriptionManager : clear implicits.
