(* ===== verification/SubscriptionTheorems.v ===== *)
(** * Subscriptions: delivery and iterators *)

From S2P Require Import Prelude Errors Scheduler SchedulerTheorems Subscription.

Section theorems.
Context {A : Type} `{BuildMode}.
Notation SubscriptionManager := (SubscriptionManager A).
Notation AsyncDispatcher := (AsyncDispatcher A).
Notation Task := (TimedTask (Dispatched A) N).
Implicit Types (w : SubscriptionManager) (d : AsyncDispatcher).

(** ** One notification *)

(** The task a notification makes for a subscription, with the thread it goes to. *)
Definition notification (now timeout : N) (key : EventKey) (args : A) (n : Subscribed) : Tid * Task :=
  (sb_tid n, mkTimedTask now timeout None (Some (Plain (mkDelivery (sb_subscriber n) (sb_set_id n) key args)))).

(** The tasks for one thread, in order. *)
Definition tasks_of (i : nat) (sent : list (Tid * Task)) : list Task :=
  (filter (λ x, x.1 = N.of_nat i) sent).*2.

Definition add_all (l : list Task) (h : SchedulerBase (Dispatched A) N) := foldl (λ h t, add t h) h l.

Lemma tasks_of_app i l1 l2 : tasks_of i (l1 ++ l2) = tasks_of i l1 ++ tasks_of i l2.
Proof. unfold tasks_of. by rewrite filter_app, fmap_app. Qed.

Lemma tasks_of_cons i x l :
  tasks_of i (x :: l) = if decide (x.1 = N.of_nat i) then x.2 :: tasks_of i l else tasks_of i l.
Proof. unfold tasks_of. by case_decide; [rewrite filter_cons_True by done|rewrite filter_cons_False by done]. Qed.

(** Handing over a one-shot task: it goes to its thread and to no other. *)
Lemma upload_handlers now tid timeout (dl : Delivery A) d :
  ad_is_disposed d = false →
  ∃ d', dispatch_addDelayed now tid timeout dl d = Ok d' ∧
    ad_is_disposed d' = false ∧
    ∀ i h, ad_handlers d !! i = Some h →
      ad_handlers d' !! i
      = Some (if decide (tid = N.of_nat i) then add (mkTimedTask now timeout None (Some (Plain dl))) h else h).
Proof.
  intros Hd. unfold dispatch_addDelayed, uploadToHandler.
  rewrite bool_decide_eq_true_2, orb_true_r, boost_assert_true by done. cbn [mbind outcome_bind]. rewrite Hd.
  destruct (N.ltb_spec tid (kHandlersCount d)) as [Hlt|Hge].
  - eexists. split; [done|]. split; [done|]. intros i h Hi. cbn. case_decide as Hti.
    + subst tid. rewrite Nat2N.id, list_lookup_alter_eq, Hi. done.
    + rewrite list_lookup_alter_ne; [done|]. intros Heq. apply Hti. lia.
  - assert (Hother : ∀ i h, ad_handlers d !! i = Some h → tid ≠ N.of_nat i).
    { intros i h Hi ->. apply lookup_lt_Some in Hi. unfold kHandlersCount, lengthN in Hge. lia. }
    destruct (ad_contexts d !! tid); [|destruct (upload_to_pool _ _ _ _) as [[]?]];
      (eexists; split; [done|]); (split; [done|]); intros i h Hi; cbn; by rewrite decide_False by (by eapply Hother).
Qed.

Lemma upload_disposed now tid timeout (dl : Delivery A) d :
  ad_is_disposed d = true → dispatch_addDelayed now tid timeout dl d = Ok d.
Proof.
  intros Hd. unfold dispatch_addDelayed, uploadToHandler.
  rewrite bool_decide_eq_true_2, orb_true_r, boost_assert_true by done. cbn [mbind outcome_bind]. by rewrite Hd.
Qed.

(** What a notification sends. *)
Definition sends (now timeout : N) (key : EventKey) (args : A) (live : SubscriberId → bool) (l : list Subscribed) :=
  notification now timeout key args <$> filter (λ n, live (sb_subscriber n)) l.

Lemma notify_list_sends now timeout key args live l d :
  ad_is_disposed d = false →
  ∃ d', notify_list now timeout key args live l d = Ok (filter (λ n, live (sb_subscriber n)) l, d') ∧
    ad_is_disposed d' = false ∧
    ∀ i h, ad_handlers d !! i = Some h →
      ad_handlers d' !! i = Some (add_all (tasks_of i (sends now timeout key args live l)) h).
Proof.
  unfold sends. revert d. induction l as [|n l IH]; intros d Hd; cbn [notify_list]; [by exists d|].
  rewrite filter_cons. destruct (live (sb_subscriber n)) eqn:Hlive.
  - rewrite decide_True by done.
    destruct (upload_handlers now (sb_tid n) timeout (mkDelivery (sb_subscriber n) (sb_set_id n) key args) d Hd)
      as (d1 & -> & Hd1 & Hh1). cbn [mbind outcome_bind].
    destruct (IH d1 Hd1) as (d2 & -> & Hd2 & Hh2). cbn [mbind outcome_bind]. exists d2. split; [done|]. split; [done|].
    intros i h Hi. rewrite (Hh2 i _ (Hh1 i h Hi)), fmap_cons, tasks_of_cons. cbn [notification fst snd].
    by case_decide.
  - rewrite decide_False by (by intros []). by apply IH.
Qed.

Lemma notify_list_disposed now timeout key args live l d :
  ad_is_disposed d = true →
  notify_list now timeout key args live l d = Ok (filter (λ n, live (sb_subscriber n)) l, d).
Proof.
  intros Hd. induction l as [|n l IH]; cbn [notify_list]; [done|]. rewrite filter_cons.
  destruct (live (sb_subscriber n)) eqn:Hlive.
  - rewrite decide_True, upload_disposed by done. cbn [mbind outcome_bind]. by rewrite IH.
  - by rewrite decide_False by (by intros []).
Qed.

(** ** Iterators *)

(** [n] is an element of the list of [key] at the engine [h]. *)
Definition listed w (h : EngineHash) (key : EventKey) (n : Subscribed) : Prop :=
  ∃ e l, sm_engines w !! h = Some e ∧ en_subscribers_map e !! key = Some l ∧ n ∈ l.

(** The subscriber [ptr] holds the iterator [it] for [key] in its set [id]. *)
Definition holds w (ptr : SubscriberId) (s : SubscriberImpl) (id : SubscriptionSetId) (key : EventKey) (it : Iterator) : Prop :=
  sm_subscribers w !! ptr = Some s ∧ ∃ set, su_subscriptions_sets s !! id = Some set ∧ set !! key = Some it.

(** The iterators that subscribers hold point to their own elements, except for the
    subscriptions in [D], which are being removed. *)
Record wf_except (D : SubscriberId → SubscriptionSetId → EventKey → Prop) w : Prop := {
  mw_iter h key n : listed w h key n → sb_it n < sm_next w;
  mw_nodup h e key l : sm_engines w !! h = Some e → en_subscribers_map e !! key = Some l → NoDup (sb_it <$> l);
  mw_subs ptr s : sm_subscribers w !! ptr = Some s → ptr < sm_next w;
  mw_held ptr s id key it : holds w ptr s id key it → ¬ D ptr id key →
    ∃ n, listed w (su_engine s) key n ∧ sb_it n = it ∧ sb_subscriber n = ptr ∧ sb_set_id n = id;
}.
Definition manager_wf : SubscriptionManager → Prop := wf_except (λ _ _ _, False).

(** Replacing one list. *)
Definition put_list (h : EngineHash) (e : SubscriptionEngine) (key : EventKey) (l : list Subscribed) w : SubscriptionManager :=
  set_engines (<[h := set_subscribers (<[key := l]> (en_subscribers_map e)) e]> (sm_engines w)) w.

Lemma listed_put h e key l w h2 key2 n :
  sm_engines w !! h = Some e →
  listed (put_list h e key l w) h2 key2 n ↔ (h2 = h ∧ key2 = key ∧ n ∈ l) ∨ (¬ (h2 = h ∧ key2 = key) ∧ listed w h2 key2 n).
Proof.
  intros He. unfold listed, put_list. cbn. split.
  - intros (e2 & l2 & He2 & Hl2 & Hn). apply lookup_insert_Some in He2 as [[<- <-]|[Hne He2]]; cbn in *.
    + apply lookup_insert_Some in Hl2 as [[<- <-]|[Hne Hl2]]; [by left|right].
      split; [by intros [_ ->]|]. by exists e, l2.
    + right. split; [by intros [-> _]|]. by exists e2, l2.
  - intros [(-> & -> & Hn)|(Hne & e2 & l2 & He2 & Hl2 & Hn)].
    + eexists _, l. rewrite lookup_insert_eq. split; [done|]. cbn. by rewrite lookup_insert_eq.
    + destruct (decide (h2 = h)) as [->|Hh].
      * rewrite He in He2. injection He2 as <-. eexists _, l2. rewrite lookup_insert_eq. split; [done|]. cbn.
        rewrite lookup_insert_ne; [done|]. intros ->. by apply Hne.
      * exists e2, l2. by rewrite lookup_insert_ne by done.
Qed.

(** A list may lose elements nobody holds and gain elements with new numbers. *)
Lemma wf_put_list (D D' : SubscriberId → SubscriptionSetId → EventKey → Prop) h e key l w :
  wf_except D w → sm_engines w !! h = Some e → NoDup (sb_it <$> l) →
  (∀ n, n ∈ l → listed w h key n ∨ sb_it n < sm_next w) →
  (∀ ptr id key, D ptr id key → D' ptr id key) →
  (∀ n ptr s id it, holds w ptr s id key it → su_engine s = h → ¬ D' ptr id key → listed w h key n →
     sb_it n = it → sb_subscriber n = ptr → sb_set_id n = id → n ∈ l) →
  wf_except D' (put_list h e key l w).
Proof.
  intros [Hi Hn Hs Hh] He Hnd Hnew HD Hkeep. split.
  - intros h2 key2 n. rewrite listed_put by done. cbn. intros [(-> & -> & Hin)|[_ Hl]]; [|by eapply Hi].
    destruct (Hnew n Hin) as [Hl|]; [by eapply Hi|done].
  - cbn. intros h2 e2 key2 l2 He2 Hl2. apply lookup_insert_Some in He2 as [[<- <-]|[Hne He2]]; cbn in *; [|by eapply Hn].
    apply lookup_insert_Some in Hl2 as [[<- <-]|[Hne Hl2]]; [done|by eapply Hn].
  - done.
  - intros ptr s id key2 it Hheld HD2. destruct (Hh ptr s id key2 it Hheld) as (n & Hl & Hit & Hsub & Hid); [by eauto|].
    exists n. split; [|done]. rewrite listed_put by done.
    destruct (decide (su_engine s = h)) as [Heq|]; [|by right; split; [intros [? _]|]].
    destruct (decide (key2 = key)) as [->|]; [left|by right; split; [intros [_ ?]|]].
    split; [done|]. split; [done|]. rewrite Heq in Hl. by eapply Hkeep.
Qed.

(** Replacing the record of one subscriber. *)
Lemma wf_put_subscriber (D D' : SubscriberId → SubscriptionSetId → EventKey → Prop) ptr s w :
  wf_except D w → ptr < sm_next w →
  (∀ ptr' id key, ptr' ≠ ptr → D ptr' id key → D' ptr' id key) →
  (∀ id key it set, su_subscriptions_sets s !! id = Some set → set !! key = Some it → ¬ D' ptr id key →
     ∃ n, listed w (su_engine s) key n ∧ sb_it n = it ∧ sb_subscriber n = ptr ∧ sb_set_id n = id) →
  wf_except D' (put_subscribers (<[ptr := s]> (sm_subscribers w)) w).
Proof.
  intros [Hi Hn Hs Hh] Hptr HD Hnew. split.
  - intros h key n. apply Hi.
  - apply Hn.
  - cbn. intros ptr2 s2 [[<- <-]|[_ Hs2]]%lookup_insert_Some; [done|by eapply Hs].
  - intros ptr2 s2 id key it (Hs2 & set & Hset & Hit) HD2. cbn in Hs2.
    apply lookup_insert_Some in Hs2 as [[<- <-]|[Hne Hs2]]; [by eapply Hnew|].
    apply (Hh ptr2 s2 id key it); [by split; [|exists set]|]. intros HD3. apply HD2. by apply HD.
Qed.

(** Only the lists, the subscribers and the numbering matter. *)
Lemma wf_same D w w' :
  (∀ h e' key, sm_engines w' !! h = Some e' → ∃ e, sm_engines w !! h = Some e ∧
     en_subscribers_map e' !! key = en_subscribers_map e !! key) →
  (∀ h e, sm_engines w !! h = Some e → ∃ e', sm_engines w' !! h = Some e' ∧
     en_subscribers_map e' = en_subscribers_map e) →
  sm_subscribers w' = sm_subscribers w → sm_next w ≤ sm_next w' →
  wf_except D w → wf_except D w'.
Proof.
  intros Hback Hforth Hsub Hnext [Hi Hn Hs Hh]. split.
  - intros h key n (e' & l & He' & Hl & Hin). destruct (Hback h e' key He') as (e & He & Hmap).
    eapply N.lt_le_trans; [|done]. apply (Hi h key n). exists e, l. by rewrite <- Hmap.
  - intros h e' key l He' Hl. destruct (Hback h e' key He') as (e & He & Hmap). rewrite Hmap in Hl. by eapply Hn.
  - intros ptr s. rewrite Hsub. intros Hptr%Hs. lia.
  - intros ptr s id key it [Hptr Hset] HD. rewrite Hsub in Hptr.
    destruct (Hh ptr s id key it (conj Hptr Hset) HD) as (n & (e & l & He & Hl & Hin) & Hrest).
    destruct (Hforth _ e He) as (e' & He' & Hmap). exists n. split; [|done]. exists e', l. by rewrite Hmap.
Qed.

Lemma wf_fresh D w : wf_except D w → wf_except D (fresh w).2.
Proof. apply wf_same; [by intros ? e' ? ?; exists e'|by intros ? e ?; exists e|done|cbn; lia]. Qed.

Lemma new_engine_empty key : en_subscribers_map SubscriptionEngine_new !! key = None.
Proof. apply lookup_empty. Qed.

Lemma wf_getEngine D h w : wf_except D w → wf_except D (getEngine h w).
Proof.
  unfold getEngine. destruct (sm_engines w !! h) as [e|] eqn:Hh; [done|]. intros [Hi Hn Hs Hheld].
  assert (Hlisted : ∀ h' key n, listed (set_engines (<[h := SubscriptionEngine_new]> (sm_engines w)) w) h' key n ↔ listed w h' key n).
  { intros h' key n. unfold listed. cbn. split.
    - intros (e & l & [[<- <-]|[Hne He]]%lookup_insert_Some & Hl & Hin); [by rewrite new_engine_empty in Hl|by exists e, l].
    - intros (e & l & He & Hl & Hin). exists e, l. rewrite lookup_insert_ne; [done|]. intros ->. by rewrite Hh in He. }
  split.
  - intros h' key n Hl%Hlisted. by eapply Hi.
  - cbn. intros h' e key l [[<- <-]|[Hne He]]%lookup_insert_Some Hl; [by rewrite new_engine_empty in Hl|by eapply Hn].
  - done.
  - intros ptr s id key it Hh' HD. destruct (Hheld ptr s id key it Hh' HD) as (n & Hl & Hrest).
    exists n. by rewrite Hlisted.
Qed.

Lemma wf_create D h w : wf_except D w → wf_except D (subscriber_create h w).2.
Proof.
  intros Hwf. cbn. apply (wf_put_subscriber D D _ _ (fresh w).2); [by apply wf_fresh|cbn; lia|done|].
  cbn. intros id key it set Hset. by rewrite lookup_empty in Hset.
Qed.

Lemma wf_destroy D ptr w : wf_except D w → wf_except D (subscriber_destroy ptr w).
Proof.
  intros [Hi Hn Hs Hh]. split; [done|done|..].
  - cbn. intros ptr' s [_ Hptr]%lookup_delete_Some. by eapply Hs.
  - intros ptr' s id key it [Hptr Hset]. apply (Hh ptr' s id key it). split; [|done].
    cbn in Hptr. by apply lookup_delete_Some in Hptr as [_ ?].
Qed.

Lemma fresh_nodup w h e key it : manager_wf w → sm_engines w !! h = Some e → it = sm_next w →
  ∀ n, sb_it n = it →
  NoDup (sb_it <$> (default [] (en_subscribers_map e !! key) ++ [n])).
Proof.
  intros Hwf He -> n Hn. rewrite fmap_app. apply NoDup_app. destruct (en_subscribers_map e !! key) as [l|] eqn:Hl; cbn.
  - split; [by eapply mw_nodup|]. split; [|apply NoDup_singleton].
    intros it Hin ->%list_elem_of_singleton. apply list_elem_of_fmap in Hin as (n' & Heq & Hin).
    pose proof (mw_iter _ _ Hwf h key n') as Hlt. rewrite <- Heq, Hn in Hlt. apply (N.lt_irrefl (sm_next w)), Hlt. by exists e, l.
  - split; [constructor|]. split; [|apply NoDup_singleton]. intros it Hin. by apply not_elem_of_nil in Hin.
Qed.

Lemma wf_subscribe ptr id key tid w : manager_wf w → manager_wf (subscribe ptr id key tid w).
Proof.
  intros Hwf. unfold subscribe. destruct (sm_subscribers w !! ptr) as [s|] eqn:Hptr; [|done].
  destruct (sm_engines w !! su_engine s) as [e|] eqn:He; [|done].
  destruct (default ∅ (su_subscriptions_sets s !! id) !! key) as [it|] eqn:Hkey; [done|]. cbn [fresh].
  set (n := mkSubscribed (sm_next w) tid id ptr). set (l := default [] (en_subscribers_map e !! key) ++ [n]).
  set (w1 := (fresh w).2).
  assert (Hwf1 : manager_wf (put_list (su_engine s) e key l w1)).
  { apply (wf_put_list (λ _ _ _, False)); [by apply wf_fresh|done|by eapply (fresh_nodup w _ _ _ (sm_next w))| |done|].
    - intros n' [Hin| ->%list_elem_of_singleton]%elem_of_app; [left|right; cbn; lia].
      destruct (en_subscribers_map e !! key) as [l0|] eqn:Hl0; [|by apply not_elem_of_nil in Hin]. by exists e, l0.
    - intros n' ptr' s' id' it' _ _ _ (e' & l' & He' & Hl' & Hin') _ _ _. cbn in He'. rewrite He in He'. injection He' as <-.
      apply elem_of_app. left. by rewrite Hl'. }
  apply (wf_put_subscriber (λ _ _ _, False) _ ptr _ (put_list (su_engine s) e key l w1)); [done| |done|].
  - cbn. pose proof (mw_subs _ _ Hwf ptr s Hptr). lia.
  - cbn. intros id' key' it set Hset Hit _. apply lookup_insert_Some in Hset as [[<- <-]|[Hne Hset]].
    + apply lookup_insert_Some in Hit as [[<- <-]|[Hne Hit]].
      * exists n. split; [|done]. rewrite listed_put by done. left. split; [done|]. split; [done|].
        apply elem_of_app. right. by apply list_elem_of_singleton.
      * destruct (su_subscriptions_sets s !! id) as [set0|] eqn:Hset0; [|cbn in Hit; by rewrite lookup_empty in Hit].
        apply (mw_held _ _ Hwf1 ptr s id key' it); [|by intros []]. split; [done|]. by exists set0.
    + apply (mw_held _ _ Hwf1 ptr s id' key' it); [|by intros []]. split; [done|]. by exists set.
Qed.

(** An element is determined by its iterator. *)
Lemma iterator_inj (l : list Subscribed) n n' : NoDup (sb_it <$> l) → n ∈ l → n' ∈ l → sb_it n = sb_it n' → n = n'.
Proof.
  intros Hnd Hn Hn' Heq. apply list_elem_of_lookup in Hn as [i Hi]. apply list_elem_of_lookup in Hn' as [j Hj].
  assert (i = j) as ->; [|congruence].
  eapply NoDup_lookup; [exact Hnd|rewrite list_lookup_fmap, Hi; done|rewrite list_lookup_fmap, Hj; cbn; by rewrite Heq].
Qed.

Lemma filter_empty_single (l : list Subscribed) n :
  NoDup (sb_it <$> l) → n ∈ l → filter (λ m, sb_it m ≠ sb_it n) l = [] → l = [n].
Proof.
  intros Hnd Hn Hf. assert (Hall : ∀ m, m ∈ l → m = n).
  { intros m Hm. apply (iterator_inj l); [done..|]. destruct (decide (sb_it m = sb_it n)) as [|Hne]; [done|].
    assert (Hin : m ∈ filter (λ m, sb_it m ≠ sb_it n) l) by (by apply list_elem_of_filter).
    rewrite Hf in Hin. by apply not_elem_of_nil in Hin. }
  destruct l as [|a [|b l]]; [by apply not_elem_of_nil in Hn|f_equal; apply Hall; by left|].
  exfalso. cbn in Hnd. apply NoDup_cons in Hnd as [Hnin _]. apply Hnin.
  rewrite (Hall a), (Hall b) by set_solver. by left.
Qed.

(** Unsubscribing with an iterator that is held: undefined when it is the last subscription
    for the key, otherwise the element goes. *)
Lemma unsubscribe_at_spec D w ptr s id key it :
  wf_except D w → holds w ptr s id key it → ¬ D ptr id key →
  ∃ e l n, sm_engines w !! su_engine s = Some e ∧ en_subscribers_map e !! key = Some l ∧ n ∈ l ∧
    sb_it n = it ∧ sb_subscriber n = ptr ∧ sb_set_id n = id ∧
    ((l = [n] ∧ unsubscribe_at (su_engine s) key it w = Throw UndefinedBehaviour) ∨
     (l ≠ [n] ∧
      let w' := put_list (su_engine s) e key (filter (λ m, sb_it m ≠ it) l) w in
      unsubscribe_at (su_engine s) key it w = Ok w' ∧
      wf_except (λ p i k, D p i k ∨ (p = ptr ∧ i = id ∧ k = key)) w')).
Proof.
  intros Hwf Hheld HD. destruct (mw_held _ _ Hwf _ _ _ _ _ Hheld HD) as (n & (e & l & He & Hl & Hn) & Hit & Hsub & Hid).
  pose proof (mw_nodup _ _ Hwf _ _ _ _ He Hl) as Hnd.
  exists e, l, n. do 6 (split; [done|]). unfold unsubscribe_at, engine_unsubscribe. rewrite He, Hl.
  rewrite bool_decide_eq_true_2 by (rewrite <- Hit; by apply list_elem_of_fmap_2). cbv zeta.
  destruct (decide (l = [n])) as [->|Hne]; [left|right]; (split; [done|]).
  - rewrite filter_cons_False by (intros Hc; by apply Hc). by rewrite filter_nil.
  - rewrite bool_decide_eq_false_2 by (intros Hf; apply Hne; subst it; by apply filter_empty_single).
    split; [done|]. apply (wf_put_list D); [done|done| | | |].
    + eapply sublist_NoDup; [exact Hnd|]. apply fmap_sublist, sublist_filter.
    + intros m [_ Hm]%list_elem_of_filter. left. by exists e, l.
    + by left.
    + intros m ptr' s' id' it' _ _ HD' (e' & l' & He' & Hl' & Hm) Hit' Hsub' Hid'.
      rewrite He in He'. injection He' as <-. rewrite Hl in Hl'. injection Hl' as <-. apply list_elem_of_filter.
      split; [|done]. intros Heq. apply HD'. right. assert (m = n) as -> by (apply (iterator_inj l); congruence).
      split; [congruence|]. split; [congruence|done].
Qed.

Lemma wf_unsubscribe_key ptr id key w b w' :
  manager_wf w → unsubscribe_key ptr id key w = Ok (b, w') → manager_wf w'.
Proof.
  intros Hwf. unfold unsubscribe_key. destruct (sm_subscribers w !! ptr) as [s|] eqn:Hptr; [|by intros [= _ <-]].
  destruct (su_subscriptions_sets s !! id) as [set|] eqn:Hset; [|by intros [= _ <-]].
  destruct (set !! key) as [it|] eqn:Hkey; [|by intros [= _ <-]].
  destruct (unsubscribe_at_spec _ w ptr s id key it Hwf) as (e & l & n & He & Hl & Hn & Hit & Hsub & Hid & [[_ ->]|(Hne & -> & Hwf')]);
    [by split; [|exists set]|by intros []|done|]. cbn [mbind outcome_bind]. intros [= <- <-].
  apply (wf_put_subscriber _ _ ptr _ _ Hwf').
  - cbn. by eapply (mw_subs _ _ Hwf).
  - intros ptr' id' key' Hp [[]|(-> & _)]; done.
  - cbn. intros id' key' it' set' Hset' Hit' _.
    assert (Hheld : ∃ set0, su_subscriptions_sets s !! id' = Some set0 ∧ set0 !! key' = Some it' ∧ ¬ (id' = id ∧ key' = key)).
    { apply lookup_insert_Some in Hset' as [[<- <-]|[Hne' Hset']].
      - apply lookup_delete_Some in Hit' as [Hne' Hit']. exists set. split; [done|]. split; [done|]. by intros [_ ->].
      - exists set'. split; [done|]. split; [done|]. by intros [-> _]. }
    destruct Hheld as (set0 & Hset0 & Hit0 & Hno).
    apply (mw_held _ _ Hwf' ptr s id' key' it'); [by split; [|exists set0]|]. by intros [[]|(_ & -> & ->)]; apply Hno.
Qed.

(** The loop over the subscriptions of a set. *)
Lemma unsubscribe_loop ptr s id l D w w' :
  wf_except D w → (∀ x, x ∈ l → holds w ptr s id x.1 x.2 ∧ ¬ D ptr id x.1) → NoDup l.*1 →
  oc_foldl (λ w x, unsubscribe_at (su_engine s) x.1 x.2 w) w l = Ok w' →
  wf_except (λ p i k, D p i k ∨ (p = ptr ∧ i = id ∧ k ∈ l.*1)) w' ∧
  sm_subscribers w' = sm_subscribers w ∧ sm_next w' = sm_next w.
Proof.
  revert D w. induction l as [|[key it] l IH]; intros D w Hwf Hheld Hnd; cbn [oc_foldl fst snd].
  - intros [= <-]. split; [|done]. destruct Hwf as [Hi Hn Hs Hh]. split; [done..|].
    intros p s' i k it Hk HD. apply (Hh p s' i k it Hk). intros HD'. apply HD. by left.
  - cbn in Hnd. apply NoDup_cons in Hnd as [Hnin Hnd]. destruct (Hheld (key, it) ltac:(by left)) as [Hh HD]. cbn in Hh, HD.
    destruct (unsubscribe_at_spec D w ptr s id key it Hwf Hh HD)
      as (e & l0 & n & He & Hl & Hn & Hit & Hsub & Hid & [[_ ->]|(Hne & Hw & Hwf')]); [done|].
    rewrite Hw. cbn [mbind outcome_bind]. intros Hrun.
    edestruct (IH _ _ Hwf') as (Hwf2 & Hs2 & Hn2); [|done|exact Hrun|].
    + intros x Hx. destruct (Hheld x ltac:(by right)) as [Hhx HDx]. split; [done|].
      intros [?|(_ & _ & Heq)]; [done|]. apply Hnin. rewrite <- Heq. by apply list_elem_of_fmap_2.
    + split; [|done]. destruct Hwf2 as [Hi2 Hn2' Hs2' Hh2]. split; [done..|].
      intros p s' i k it' Hk HD'. apply (Hh2 p s' i k it' Hk). cbn in HD'. rewrite elem_of_cons in HD'. tauto.
Qed.

Lemma wf_unsubscribe_set ptr id w b w' :
  manager_wf w → unsubscribe_set ptr id w = Ok (b, w') → manager_wf w'.
Proof.
  intros Hwf. unfold unsubscribe_set. destruct (sm_subscribers w !! ptr) as [s|] eqn:Hptr; [|by intros [= _ <-]].
  destruct (su_subscriptions_sets s !! id) as [set|] eqn:Hset; [|by intros [= _ <-]].
  destruct (oc_foldl _ _ _) as [w1| |] eqn:Hloop; cbn [mbind outcome_bind]; [|done..]. intros [= _ <-].
  edestruct (unsubscribe_loop ptr s id (map_to_list set) _ w w1 Hwf) as (Hwf1 & Hs1 & Hn1); [|apply NoDup_fst_map_to_list|exact Hloop|].
  { intros [key it] Hin%elem_of_map_to_list. split; [|by intros []]. by split; [|exists set]. }
  apply (wf_put_subscriber _ _ ptr _ _ Hwf1).
  - rewrite Hn1. by eapply (mw_subs _ _ Hwf).
  - intros ptr' id' key' Hp [[]|(-> & _)]; done.
  - cbn. intros id' key' it' set' [Hne Hset']%lookup_delete_Some Hit' _.
    apply (mw_held _ _ Hwf1 ptr s id' key' it'); [split; [by rewrite Hs1|by exists set']|]. by intros [[]|(_ & -> & _)].
Qed.

Lemma unsubscribe_sets_loop ptr s sets D w w' :
  wf_except D w → (∀ x key it, x ∈ sets → x.2 !! key = Some it → holds w ptr s x.1 key it ∧ ¬ D ptr x.1 key) →
  NoDup sets.*1 →
  oc_foldl (λ w x, oc_foldl (λ w y, unsubscribe_at (su_engine s) y.1 y.2 w) w (map_to_list x.2)) w sets = Ok w' →
  wf_except (λ p i k, D p i k ∨ p = ptr) w' ∧ sm_subscribers w' = sm_subscribers w ∧ sm_next w' = sm_next w.
Proof.
  revert D w. induction sets as [|[id set] sets IH]; intros D w Hwf Hheld Hnd; cbn [oc_foldl fst snd].
  - intros [= <-]. split; [|done]. destruct Hwf as [Hi Hn Hs Hh]. split; [done..|].
    intros p s' i k it Hk HD. apply (Hh p s' i k it Hk). tauto.
  - cbn in Hnd. apply NoDup_cons in Hnd as [Hnin Hnd].
    destruct (oc_foldl _ w (map_to_list set)) as [w1| |] eqn:Hloop; cbn [mbind outcome_bind]; [|done..]. intros Hrun.
    edestruct (unsubscribe_loop ptr s id (map_to_list set) _ w w1 Hwf) as (Hwf1 & Hs1 & Hn1); [|apply NoDup_fst_map_to_list|exact Hloop|].
    { intros [key it] Hin%elem_of_map_to_list. apply (Hheld (id, set) key it); [by left|done]. }
    edestruct (IH _ _ Hwf1) as (Hwf2 & Hs2 & Hn2); [|done|exact Hrun|].
    + intros x key it Hx Hit. destruct (Hheld x key it ltac:(by right) Hit) as [[Hp Hset] HD].
      split; [by split; [rewrite Hs1|]|]. intros [?|(_ & Heq & _)]; [done|]. apply Hnin. rewrite <- Heq. by apply list_elem_of_fmap_2.
    + split; [|by rewrite Hs2, Hn2]. destruct Hwf2 as [Hi2 Hn2' Hs2' Hh2]. split; [done..|].
      intros p s' i k it' Hk HD'. apply (Hh2 p s' i k it' Hk). tauto.
Qed.

Lemma wf_unsubscribe_all ptr w w' : manager_wf w → unsubscribe_all ptr w = Ok w' → manager_wf w'.
Proof.
  intros Hwf. unfold unsubscribe_all. destruct (sm_subscribers w !! ptr) as [s|] eqn:Hptr; [|by intros [= <-]].
  destruct (oc_foldl _ _ _) as [w1| |] eqn:Hloop; cbn [mbind outcome_bind]; [|done..]. intros [= <-].
  edestruct (unsubscribe_sets_loop ptr s (map_to_list (su_subscriptions_sets s)) _ w w1 Hwf) as (Hwf1 & Hs1 & Hn1); [|apply NoDup_fst_map_to_list|exact Hloop|].
  { intros [id set] key it Hin%elem_of_map_to_list Hit. split; [|by intros []]. by split; [|exists set]. }
  apply (wf_put_subscriber _ _ ptr _ _ Hwf1).
  - rewrite Hn1. by eapply (mw_subs _ _ Hwf).
  - by intros ptr' id' key' Hp [[]| ->].
  - cbn. intros id' key' it' set' Hset'. by rewrite lookup_empty in Hset'.
Qed.

(** ** What notifications send *)

Definition sent_by (now timeout : N) (h : EngineHash) (key : EventKey) (args : A) w : list (Tid * Task) :=
  match sm_engines w !! h with
  | Some e =>
      if en_attached e && negb (ad_is_disposed (sm_dispatcher w))
      then sends now timeout key args (alive w) (default [] (en_subscribers_map e !! key)) else []
  | None => []
  end.

(** The handlers of the dispatcher after sending. *)
Definition handlers_sent (sent : list (Tid * Task)) d d' : Prop :=
  ad_is_disposed d' = ad_is_disposed d ∧
  ∀ i, ad_handlers d' !! i = add_all (tasks_of i sent) <$> ad_handlers d !! i.

Lemma upload_none now tid timeout (dl : Delivery A) d d' i :
  dispatch_addDelayed now tid timeout dl d = Ok d' → ad_handlers d !! i = None → ad_handlers d' !! i = None.
Proof.
  unfold dispatch_addDelayed, uploadToHandler.
  rewrite bool_decide_eq_true_2, orb_true_r, boost_assert_true by done. cbn [mbind outcome_bind].
  destruct (ad_is_disposed d); [by intros [= <-]|]. destruct (_ <? _).
  - intros [= <-]. cbn. rewrite !lookup_ge_None, length_alter. done.
  - destruct (ad_contexts d !! tid); [by intros [= <-]|]. destruct (upload_to_pool _ _ _ _) as [[]?]; by intros [= <-].
Qed.

Lemma notify_list_none now timeout key args live l d r i :
  notify_list now timeout key args live l d = Ok r → ad_handlers d !! i = None → ad_handlers r.2 !! i = None.
Proof.
  revert d r. induction l as [|n l IH]; intros d r; cbn [notify_list]; [by intros [= <-]|].
  destruct (live (sb_subscriber n)); [|apply IH].
  destruct (dispatch_addDelayed _ _ _ _ d) as [d1| |] eqn:Hd1; cbn [mbind outcome_bind]; [|done..].
  destruct (notify_list _ _ _ _ _ l d1) as [r1| |] eqn:Hr1; cbn [mbind outcome_bind]; [|done..].
  intros [= <-] Hi. cbn. by eapply (IH d1), upload_none.
Qed.

Lemma notify_spec now timeout h key args w :
  ∃ w', notifyDelayed now timeout h key args w = Ok w' ∧
    handlers_sent (sent_by now timeout h key args w) (sm_dispatcher w) (sm_dispatcher w') ∧
    sm_subscribers w' = sm_subscribers w ∧ sm_next w' = sm_next w ∧ sm_delivered w' = sm_delivered w ∧
    sm_engines w' = match sm_engines w !! h with
                    | Some e =>
                        if en_attached e then
                          match en_subscribers_map e !! key with
                          | Some l => <[h := set_subscribers (<[key := filter (λ n, alive w (sb_subscriber n)) l]> (en_subscribers_map e)) e]> (sm_engines w)
                          | None => sm_engines w
                          end
                        else sm_engines w
                    | None => sm_engines w
                    end.
Proof.
  unfold notifyDelayed, sent_by. destruct (sm_engines w !! h) as [e|] eqn:He; cycle 1.
  { exists w. split; [done|]. split; [|done]. split; [done|]. intros i. cbn. by rewrite option_fmap_id. }
  unfold engine_notifyDelayed. destruct (en_attached e) eqn:Ha; cbn [negb andb]; cycle 1.
  { eexists. split; [done|]. cbn. rewrite insert_id by done. split; [|done]. split; [done|]. intros i. by rewrite option_fmap_id. }
  destruct (en_subscribers_map e !! key) as [l|] eqn:Hl; cbn [default]; cycle 1.
  { eexists. split; [done|]. cbn. rewrite insert_id by done. split; [|done]. split; [done|].
    intros i. destruct (negb _); by rewrite option_fmap_id. }
  destruct (ad_is_disposed (sm_dispatcher w)) eqn:Hdis; cbn [negb].
  - rewrite notify_list_disposed by done. cbn [mbind outcome_bind]. eexists. split; [done|]. cbn. split; [|done].
    split; [done|]. intros i. by rewrite option_fmap_id.
  - destruct (notify_list_sends now timeout key args (alive w) l (sm_dispatcher w) Hdis) as (d' & Hrun & Hd' & Hh).
    rewrite Hrun. cbn [mbind outcome_bind]. eexists. split; [done|]. cbn. split; [|done]. split; [by rewrite Hd', Hdis|].
    intros i. destruct (ad_handlers (sm_dispatcher w) !! i) as [hd|] eqn:Hi; [by apply Hh|].
    by apply (notify_list_none _ _ _ _ _ _ _ _ _ Hrun).
Qed.

Lemma wf_notify now timeout h key args w w' :
  manager_wf w → notifyDelayed now timeout h key args w = Ok w' → manager_wf w'.
Proof.
  intros Hwf Hrun. destruct (notify_spec now timeout h key args w) as (w2 & Hrun2 & _ & Hs & Hn & _ & He).
  rewrite Hrun in Hrun2. injection Hrun2 as <-.
  assert (Hsame : sm_engines w' = sm_engines w → manager_wf w').
  { intros Heq. apply (wf_same _ w); rewrite ?Heq; [by intros ? e' ? ?; exists e'|by intros ? e ?; exists e|done|lia|done]. }
  destruct (sm_engines w !! h) as [e|] eqn:Heng; [|by apply Hsame].
  destruct (en_attached e); [|by apply Hsame]. destruct (en_subscribers_map e !! key) as [l|] eqn:Hl; [|by apply Hsame].
  assert (Hput : manager_wf (put_list h e key (filter (λ n, alive w (sb_subscriber n)) l) w)).
  { apply (wf_put_list (λ _ _ _, False)); [done|done| | |done|].
    - eapply sublist_NoDup; [by eapply (mw_nodup _ _ Hwf)|]. apply fmap_sublist, sublist_filter.
    - intros n [_ Hin]%list_elem_of_filter. left. by exists e, l.
    - intros n ptr s id it [Hptr _] _ _ (e' & l' & He' & Hl' & Hin) _ Hsub _.
      rewrite Heng in He'. injection He' as <-. rewrite Hl in Hl'. injection Hl' as <-.
      apply list_elem_of_filter. split; [|done]. unfold alive. rewrite Hsub, Hptr. by rewrite bool_decide_eq_true_2. }
  eapply (wf_same _ _ w'); [| | | |exact Hput]; cbn; rewrite ?He; [by intros ? e' ? ?; exists e'|by intros ? e' ?; exists e'|done|lia].
Qed.

(** ** Reachable states *)

Inductive op :=
| OGetEngine (h : EngineHash)
| OCreate (h : EngineHash)
| ODestroy (ptr : SubscriberId)
| OSubscribe (ptr : SubscriberId) (id : SubscriptionSetId) (key : EventKey) (tid : Tid)
| OUnsubscribeKey (ptr : SubscriberId) (id : SubscriptionSetId) (key : EventKey)
| OUnsubscribeSet (ptr : SubscriberId) (id : SubscriptionSetId)
| OUnsubscribeAll (ptr : SubscriberId)
| ODispose.

Definition do_op (o : op) w : result SubscriptionManager :=
  match o with
  | OGetEngine h => Ok (getEngine h w)
  | OCreate h => Ok (subscriber_create h w).2
  | ODestroy ptr => Ok (subscriber_destroy ptr w)
  | OSubscribe ptr id key tid => Ok (subscribe ptr id key tid w)
  | OUnsubscribeKey ptr id key => r ← unsubscribe_key ptr id key w; Ok r.2
  | OUnsubscribeSet ptr id => r ← unsubscribe_set ptr id w; Ok r.2
  | OUnsubscribeAll ptr => unsubscribe_all ptr w
  | ODispose => Ok (manager_dispose w)
  end.

(** [reach now w sent]: [w] is reachable at [now], and [sent] are the tasks that the
    notifications made for the subscriptions alive at the time, in order. *)
Inductive reach : N → SubscriptionManager → list (Tid * Task) → Prop :=
| reach_manager now handlers pool : reach now (SubscriptionManager_new handlers pool) []
| reach_op now now' o w w' sent :
    reach now w sent → now ≤ now' → do_op o w = Ok w' → reach now' w' sent
| reach_notify now now' timeout h key args w w' sent :
    reach now w sent → now ≤ now' → notifyDelayed now' timeout h key args w = Ok w' →
    reach now' w' (sent ++ sent_by now' timeout h key args w)
| reach_worker now now' i r w w' sent :
    reach now w sent → now ≤ now' → handler_step now' i r w = Some w' → reach now' w' sent.

Lemma unsubscribe_at_dispatcher h key it w w' :
  unsubscribe_at h key it w = Ok w' → sm_dispatcher w' = sm_dispatcher w ∧ sm_delivered w' = sm_delivered w.
Proof.
  unfold unsubscribe_at. destruct (sm_engines w !! h) as [e|]; [|by intros [= <-]].
  destruct (engine_unsubscribe key it e); cbn [mbind outcome_bind]; [|done..]. by intros [= <-].
Qed.

Lemma do_op_dispatcher o w w' :
  do_op o w = Ok w' →
  sm_delivered w' = sm_delivered w ∧
  (sm_dispatcher w' = sm_dispatcher w ∨ sm_dispatcher w' = dispatcher_dispose (sm_dispatcher w)).
Proof.
  set (P := λ v : SubscriptionManager, sm_dispatcher v = sm_dispatcher w ∧ sm_delivered v = sm_delivered w).
  assert (Hat : ∀ h key it v v', P v → unsubscribe_at h key it v = Ok v' → P v').
  { intros h key it v v' [Hd Hl] [Hd' Hl']%unsubscribe_at_dispatcher. split; congruence. }
  assert (Hset : ∀ h l v v', P v → oc_foldl (λ w x, unsubscribe_at h x.1 x.2 w) v l = Ok v' → P v').
  { intros h l v v' Hv. apply (oc_foldl_inv P); [done|]. intros. by eapply Hat. }
  assert (HP : P w) by done. destruct o; cbn.
  - unfold getEngine. destruct (sm_engines w !! h); intros [= <-]; auto.
  - intros [= <-]. auto.
  - intros [= <-]. auto.
  - unfold subscribe. cbn [fresh]. repeat case_match; intros [= <-]; auto.
  - unfold unsubscribe_key. repeat case_match; cbn; try (intros [= <-]; auto).
    destruct (unsubscribe_at _ _ _ w) as [w1| |] eqn:Hw1; cbn; [|done..]. intros [= <-].
    destruct (Hat _ _ _ _ _ HP Hw1). auto.
  - unfold unsubscribe_set. repeat case_match; cbn; try (intros [= <-]; auto).
    destruct (oc_foldl _ w _) as [w1| |] eqn:Hw1; cbn; [|done..]. intros [= <-].
    destruct (Hset _ _ _ _ HP Hw1). auto.
  - unfold unsubscribe_all. case_match; [|intros [= <-]; auto].
    destruct (oc_foldl _ w _) as [w1| |] eqn:Hw1; cbn; [|done..]. intros [= <-].
    apply (oc_foldl_inv P) in Hw1 as [Hd Hl]; [auto|done|]. intros. by eapply Hset.
  - intros [= <-]. unfold manager_dispose. destruct (sm_disposed w); auto.
Qed.

Lemma do_op_wf o w w' : manager_wf w → do_op o w = Ok w' → manager_wf w'.
Proof.
  intros Hwf. destruct o; cbn.
  - intros [= <-]. by apply wf_getEngine.
  - intros [= <-]. by apply wf_create.
  - intros [= <-]. by apply wf_destroy.
  - intros [= <-]. by apply wf_subscribe.
  - destruct (unsubscribe_key _ _ _ _) as [[b w1]| |] eqn:Hw1; cbn; [|done..]. intros [= <-]. by eapply wf_unsubscribe_key.
  - destruct (unsubscribe_set _ _ _) as [[b w1]| |] eqn:Hw1; cbn; [|done..]. intros [= <-]. by eapply wf_unsubscribe_set.
  - by apply wf_unsubscribe_all.
  - intros [= <-]. unfold manager_dispose. destruct (sm_disposed w); [done|].
    apply (wf_same _ w); cbn; [| |done|lia|done].
    + intros h e' key. rewrite lookup_fmap. destruct (sm_engines w !! h) as [e|]; [|done]. intros [= <-]. by exists e.
    + intros h e Hh. exists (engine_dispose e). by rewrite lookup_fmap, Hh.
Qed.

(** Adding one-shot tasks is a sequence of steps of the scheduler. *)
Lemma add_all_reachable now (l : list Task) h :
  Forall (λ t, ∃ timeout task, t = mkTimedTask now timeout None (Some task)) l →
  reachable_at now h → reachable_at now (add_all l h) ∧ sc_added (add_all l h) = sc_added h ++ l.
Proof.
  intros Hl. revert h. induction Hl as [|t l (timeout & task & ->) _ IH]; intros h Hh.
  - cbn. by rewrite app_nil_r.
  - change (add_all (?t :: l) h) with (add_all l (add t h)).
    destruct (IH (add (mkTimedTask now timeout None (Some task)) h)) as [Hr Ha].
    + by apply (reach_step now now (EAddDelayed timeout task) h).
    + split; [done|]. rewrite Ha. cbn. by rewrite <- app_assoc.
Qed.

Lemma tasks_of_sent now timeout h key args w i :
  Forall (λ t, ∃ timeout task, t = mkTimedTask now timeout None (Some task)) (tasks_of i (sent_by now timeout h key args w)).
Proof.
  apply Forall_forall. intros t. unfold tasks_of. intros (x & -> & [_ Hx]%list_elem_of_filter)%list_elem_of_fmap.
  unfold sent_by in Hx. destruct (sm_engines w !! h) as [e|]; [|by apply not_elem_of_nil in Hx].
  destruct (_ && _); [|by apply not_elem_of_nil in Hx].
  apply list_elem_of_fmap in Hx as (n & -> & _). cbn. by eexists _, _.
Qed.

Lemma reach_handlers now w sent :
  reach now w sent →
  manager_wf w ∧
  (∀ i, Forall (λ t, tt_predic t = None) (tasks_of i sent)) ∧
  ∀ i h, ad_handlers (sm_dispatcher w) !! i = Some h → reachable_at now h ∧ sc_added h = tasks_of i sent.
Proof.
  induction 1 as [now handlers pool|now now' o w w' sent _ (Hwf & Hone & IH) Hle Ho
                 |now now' timeout h key args w w' sent _ (Hwf & Hone & IH) Hle Hn
                 |now now' i r w w' sent _ (Hwf & Hone & IH) Hle Hs].
  - split_and!.
    + split; [by intros h key n (e & l & He & _)|done|done|by intros ptr s id key it [Hs _]].
    + constructor.
    + intros i h [-> _]%lookup_replicate. split; [apply reach_new|done].
  - split; [by eapply do_op_wf|]. split; [done|]. intros i h Hi.
    destruct (do_op_dispatcher _ _ _ Ho) as [_ [Hd|Hd]]; rewrite Hd in Hi.
    + destruct (IH i h Hi). split; [by eapply reach_time|done].
    + cbn in Hi. rewrite list_lookup_fmap in Hi. apply fmap_Some in Hi as (h0 & Hi & ->).
      destruct (IH i h0 Hi) as [Hr Ha]. split; [|done]. by eapply (reach_step now now' EDispose).
  - split; [by eapply wf_notify|]. split.
    { intros i. rewrite tasks_of_app. apply Forall_app. split; [done|].
      eapply Forall_impl; [apply tasks_of_sent|]. by intros t (? & ? & ->). }
    intros i hd Hi.
    destruct (notify_spec now' timeout h key args w) as (w2 & Hn2 & [_ Hh] & _). rewrite Hn in Hn2. injection Hn2 as <-.
    rewrite Hh in Hi. apply fmap_Some in Hi as (h0 & Hi & ->). destruct (IH i h0 Hi) as [Hr Ha].
    destruct (add_all_reachable now' (tasks_of i (sent_by now' timeout h key args w)) h0) as [Hr' Ha'];
      [apply tasks_of_sent|by eapply reach_time|]. split; [done|]. by rewrite Ha', Ha, tasks_of_app.
  - unfold handler_step in Hs. destruct (ad_handlers (sm_dispatcher w) !! i) as [h|] eqn:Hi; [|done]. cbn in Hs.
    destruct (worker now' r h) as [h'|] eqn:Hw; [|done]. injection Hs as <-. split_and!; [|done|].
    + apply (wf_same _ w); cbn; [by intros ? e' ? ?; exists e'|by intros ? e ?; exists e|done|lia|done].
    + cbn. intros j hj Hj. destruct (IH i h Hi) as [Hr Ha].
      apply list_lookup_insert_Some in Hj as [(<- & <- & _)|[Hne Hj]].
      * split; [by eapply (reach_step now now' (EWorker r))|]. rewrite <- Ha.
        eapply worker_added; [done|]. intros t Hpc. destruct (running_logged _ _ _ Hr Hpc) as [n Hlog].
        apply (proj1 (Forall_forall _ _) (Hone i)). rewrite <- Ha. by eapply logged_added.
      * destruct (IH j hj Hj). split; [by eapply reach_time|done].
Qed.

(** ** The theorems *)

(** A notification never fails and reaches every live subscriber: for an attached engine
    with the subscriptions [l] to the event, each handler thread gets, in the order of
    subscription, one task for each of its subscriptions whose subscriber is alive, due
    after the delay; subscriptions of destroyed subscribers are dropped, and nothing else
    changes. *)
Theorem notify_reaches_subscribers now timeout h key args w e l :
  sm_engines w !! h = Some e → en_attached e = true → en_subscribers_map e !! key = Some l →
  ad_is_disposed (sm_dispatcher w) = false →
  ∃ w', notifyDelayed now timeout h key args w = Ok w' ∧
    (∀ i, ad_handlers (sm_dispatcher w') !! i
          = add_all (tasks_of i (notification now timeout key args <$> filter (λ n, alive w (sb_subscriber n)) l))
            <$> ad_handlers (sm_dispatcher w) !! i) ∧
    sm_engines w' = <[h := set_subscribers (<[key := filter (λ n, alive w (sb_subscriber n)) l]> (en_subscribers_map e)) e]>
                      (sm_engines w) ∧
    sm_subscribers w' = sm_subscribers w ∧ sm_delivered w' = sm_delivered w.
Proof.
  intros He Ha Hl Hd. destruct (notify_spec now timeout h key args w) as (w' & Hrun & [_ Hh] & Hs & _ & Hdel & Heng).
  exists w'. unfold sent_by in Hh. rewrite He, Ha, Hd, Hl in Hh. rewrite He, Ha, Hl in Heng. done.
Qed.

(** Events are delivered in order: in every reachable state of the subscription system,
    on every handler thread, the tasks due at one instant that were started, followed by
    those still queued, are the tasks that the notifications made for the subscriptions of
    that thread, in the order of the notifications and of the subscriptions; none is
    started before its time. *)
Theorem events_in_order now w sent i h :
  reach now w sent → ad_handlers (sm_dispatcher w) !! i = Some h →
  StronglySorted by_deadline (sc_tasks h) ∧
  (∀ at_, due_at at_ (tasks_of i sent) = due_at at_ ((sc_log h).*2 ++ sc_tasks h)) ∧
  Forall (λ x, deadline x.2 ≤ x.1 ∧ x.1 ≤ now) (sc_log h).
Proof.
  intros (_ & _ & Hall)%reach_handlers Hi. destruct (Hall i h Hi) as [Hr Ha].
  apply sched_reachable_wf in Hr as [Hs Hf Hl _]. rewrite <- Ha. done.
Qed.

(** In every reachable state each iterator a live subscriber holds points to its own
    element of the engine's list.  Unsubscribing from an event is undefined exactly when
    the subscription is the last one for that event; otherwise it succeeds and removes
    that element alone. *)
Theorem unsubscribe_iterators_valid now w sent ptr s id key it :
  reach now w sent → holds w ptr s id key it →
  ∃ e l n, sm_engines w !! su_engine s = Some e ∧ en_subscribers_map e !! key = Some l ∧ n ∈ l ∧
    sb_it n = it ∧ sb_subscriber n = ptr ∧ sb_set_id n = id ∧
    if decide (l = [n]) then unsubscribe_key ptr id key w = Throw UndefinedBehaviour
    else ∃ w', unsubscribe_key ptr id key w = Ok (true, w') ∧
      (∀ h' key' m, listed w' h' key' m ↔ listed w h' key' m ∧ ¬ (h' = su_engine s ∧ key' = key ∧ m = n)).
Proof.
  intros (Hwf & _ & _)%reach_handlers Hheld.
  destruct (unsubscribe_at_spec _ w ptr s id key it Hwf Hheld) as (e & l & n & He & Hl & Hn & Hit & Hsub & Hid & Hcase);
    [by intros []|].
  pose proof (mw_nodup _ _ Hwf _ _ _ _ He Hl) as Hnd.
  exists e, l, n. do 6 (split; [done|]). destruct Hheld as (Hptr & set & Hset & Hkey).
  unfold unsubscribe_key. rewrite Hptr, Hset, Hkey.
  destruct Hcase as [[-> ->]|(Hne & -> & _)]; [by rewrite decide_True|]. rewrite decide_False by done.
  eexists. split; [done|]. intros h' key' m.
  assert (Hput : listed (put_list (su_engine s) e key (filter (λ m, sb_it m ≠ it) l) w) h' key' m
    ↔ listed w h' key' m ∧ ¬ (h' = su_engine s ∧ key' = key ∧ m = n)); [|exact Hput].
  rewrite listed_put by done. rewrite list_elem_of_filter. split.
  - intros [(-> & -> & Hmit & Hm)|[Hno Hm]].
    + split; [by exists e, l|]. intros (_ & _ & ->). done.
    + split; [done|]. intros (-> & -> & _). by apply Hno.
  - intros [Hm Hno]. destruct (decide (h' = su_engine s ∧ key' = key)) as [[-> ->]|Hne2]; [left|by right].
    destruct Hm as (e' & l' & He' & Hl' & Hm). rewrite He in He'. injection He' as <-. rewrite Hl in Hl'. injection Hl' as <-.
    split; [done|]. split; [done|]. split; [|done]. intros Heq. apply Hno. split; [done|]. split; [done|].
    apply (iterator_inj l); congruence.
Qed.
End theorems.

(** One handler thread; two subscribers to event 5, of which the second is destroyed, and
    one notification. *)
Module SubEx.
#[local] Instance build : BuildMode := DebugBuild.

Fixpoint do_ops (os : list op) (w : SubscriptionManager N) : option (SubscriptionManager N) :=
  match os with
  | [] => Some w
  | o :: os => match do_op o w with Ok w => do_ops os w | _ => None end
  end.

Lemma do_ops_reach os now w sent w' : reach now w sent → do_ops os w = Some w' → reach now w' sent.
Proof.
  revert w. induction os as [|o os IH]; intros w Hw; cbn; [by intros [= <-]|].
  destruct (do_op o w) as [w1| |] eqn:Ho; [|done..]. apply IH. by eapply reach_op.
Qed.

Definition setup : list op :=
  [OGetEngine 9; OCreate 9; OCreate 9; OSubscribe 0 0 5 0; OSubscribe 1 0 5 0; OSubscribe 0 0 6 0].
Definition w1 : SubscriptionManager N := default (SubscriptionManager_new 1 3) (do_ops setup (SubscriptionManager_new 1 3)).
Definition w2 : SubscriptionManager N := subscriber_destroy 1 w1.
Definition w3 : SubscriptionManager N :=
  match notifyDelayed 100 7 9 5 42 w2 with Ok w => w | _ => w2 end.

Lemma w1_reach : reach 0 w1 [].
Proof. eapply (do_ops_reach setup 0 (SubscriptionManager_new 1 3)); [apply reach_manager|by vm_compute]. Qed.

Lemma w2_reach : reach 0 w2 [].
Proof. eapply (reach_op 0 0 (ODestroy 1)); [exact w1_reach|done|done]. Qed.

Lemma w3_reach : reach 100 w3 ([] ++ sent_by 100 7 9 5 42 w2).
Proof. eapply (reach_notify 0 100 7 9 5 42 w2); [exact w2_reach|done|by vm_compute]. Qed.

Definition task : TimedTask (Dispatched N) N := mkTimedTask 100 7 None (Some (Plain (mkDelivery 0 0 5 42))).

Lemma notify_reaches_subscribers_witness :
  ∃ w', notifyDelayed 100 7 9 5 42 w2 = Ok w' ∧ (sc_tasks <$> ad_handlers (sm_dispatcher w') !! 0%nat) = Some [task].
Proof.
  destruct (notify_reaches_subscribers 100 7 9 5 42 w2
              (mkSubscriptionEngine true {[5 := [mkSubscribed 2 0 0 0; mkSubscribed 3 0 0 1]; 6 := [mkSubscribed 4 0 0 0]]})
              [mkSubscribed 2 0 0 0; mkSubscribed 3 0 0 1]) as (w' & Hrun & Hh & _);
    [by vm_compute|done|by vm_compute|by vm_compute|].
  exists w'. split; [exact Hrun|]. rewrite Hh. by vm_compute.
Defined.

Lemma events_in_order_witness :
  ∃ h, ad_handlers (sm_dispatcher w3) !! 0%nat = Some h ∧ due_at 7100 [task] = due_at 7100 ((sc_log h).*2 ++ sc_tasks h).
Proof.
  destruct (ad_handlers (sm_dispatcher w3) !! 0%nat) as [h|] eqn:Hh; [|by vm_compute in Hh].
  exists h. split; [done|]. rewrite <- (proj1 (proj2 (events_in_order 100 w3 _ 0%nat h w3_reach Hh)) 7100). by vm_compute.
Defined.

Lemma unsubscribe_iterators_valid_witness :
  unsubscribe_key 0 0 6 w1 = Throw UndefinedBehaviour.
Proof.
  destruct (unsubscribe_iterators_valid 0 w1 [] 0 (mkSubscriberImpl 0 9 {[0 := {[5 := 2; 6 := 4]}]}) 0 6 4 w1_reach)
    as (e & l & n & He & Hl & Hn & _ & _ & _ & Hcase).
  - split; [by vm_compute|]. exists {[5 := 2; 6 := 4]}. by vm_compute.
  - assert (l = [mkSubscribed 4 0 0 0]) as ->.
    { vm_compute in He. injection He as <-. vm_compute in Hl. by injection Hl as <-. }
    apply list_elem_of_singleton in Hn as ->. by rewrite decide_True in Hcase.
Defined.
End SubEx.
