(* ===== verification/StateManager.v ===== *)
(** * Life cycle of the application (src/src/app/state_manager.hpp,
    src/src/app/impl/state_manager_impl.cpp)

    Components register callbacks for the stages prepare, launch and shutdown; [run]
    executes the stages on the main thread while any thread may ask for a shutdown.  The
    state is atomic, so the main thread is a machine that makes one access to it per step,
    at the position [sg_pc]; the queues are guarded by a recursive mutex, which the main
    thread holds during a stage, so that only its callbacks can register then.  A callback
    returns or throws; its exception leaves the stage, which releases the mutex, and [run].
    Signal handlers and logging are left out. *)

From S2P Require Import Prelude Errors.

Inductive State := Init | Prepare | ReadyToStart | Starting | Works | ShuttingDown | ReadyToStop.
#[global] Instance State_eq_dec : EqDecision State.
Proof. solve_decision. Defined.

(** The values of the enum, by which states are compared *)
Definition state_index (s : State) : N :=
  match s with
  | Init => 0 | Prepare => 1 | ReadyToStart => 2 | Starting => 3 | Works => 4
  | ShuttingDown => 5 | ReadyToStop => 6
  end.

Inductive Stage := SPrepare | SLaunch | SShutdown.
#[global] Instance Stage_eq_dec : EqDecision Stage.
Proof. solve_decision. Defined.

Section state_manager.
Context {Action : Type}.

(** How a callback ends *)
Inductive CallbackResult :=
| Returned (success : bool)
| Raised (x : exn).

(** Where the main thread stands: at the start of [run]; before a stage, at the head of its
    loop, in a callback, behind the loop; before the test for Works, in the wait, before the
    last test; returned, left with an exception of [run] itself or with one of a callback. *)
Inductive Pc :=
| Entry
| Begin (st : Stage)
| Head (st : Stage)
| Running (st : Stage) (cb : Action)
| End_ (st : Stage)
| TestWorks
| Waiting
| LastTest
| Finished
| Threw (x : exn)
| Escaped (st : Stage) (cb : Action) (x : exn).

(** [sg_shared]: the manager is owned by a shared pointer.  [sg_log] records the callbacks that returned, with their result, [sg_registered] those
    that were registered; [sg_passed1] and [sg_passed2] count the calls of shutdown that
    have passed the first, or both, of its tests. *)
Record StateManagerImpl := mkStateManagerImpl {
  sg_shared : bool;
  sg_state : State;
  sg_prepare : list Action;
  sg_launch : list Action;
  sg_shutdown : list Action;
  sg_pc : Pc;
  sg_log : list (Stage * Action * bool);
  sg_registered : list (Stage * Action);
  sg_passed1 : N;
  sg_passed2 : N;
}.

Definition StateManagerImpl_new (shared : bool) : StateManagerImpl :=
  mkStateManagerImpl shared Init [] [] [] Entry [] [] 0 0.

Definition queue_of (st : Stage) (s : StateManagerImpl) : list Action :=
  match st with SPrepare => sg_prepare s | SLaunch => sg_launch s | SShutdown => sg_shutdown s end.

Definition set_queue (st : Stage) (q : list Action) (s : StateManagerImpl) : StateManagerImpl :=
  mkStateManagerImpl (sg_shared s) (sg_state s)
    (match st with SPrepare => q | _ => sg_prepare s end)
    (match st with SLaunch => q | _ => sg_launch s end)
    (match st with SShutdown => q | _ => sg_shutdown s end)
    (sg_pc s) (sg_log s) (sg_registered s) (sg_passed1 s) (sg_passed2 s).
Definition set_state (x : State) (s : StateManagerImpl) : StateManagerImpl :=
  mkStateManagerImpl (sg_shared s) x (sg_prepare s) (sg_launch s) (sg_shutdown s) (sg_pc s) (sg_log s) (sg_registered s)
    (sg_passed1 s) (sg_passed2 s).
Definition goto (pc : Pc) (s : StateManagerImpl) : StateManagerImpl :=
  mkStateManagerImpl (sg_shared s) (sg_state s) (sg_prepare s) (sg_launch s) (sg_shutdown s) pc (sg_log s) (sg_registered s)
    (sg_passed1 s) (sg_passed2 s).
Definition record_run (x : Stage * Action * bool) (s : StateManagerImpl) : StateManagerImpl :=
  mkStateManagerImpl (sg_shared s) (sg_state s) (sg_prepare s) (sg_launch s) (sg_shutdown s) (sg_pc s) (sg_log s ++ [x])
    (sg_registered s) (sg_passed1 s) (sg_passed2 s).
Definition record_registered (x : Stage * Action) (s : StateManagerImpl) : StateManagerImpl :=
  mkStateManagerImpl (sg_shared s) (sg_state s) (sg_prepare s) (sg_launch s) (sg_shutdown s) (sg_pc s) (sg_log s)
    (sg_registered s ++ [x]) (sg_passed1 s) (sg_passed2 s).
Definition set_passed (n1 n2 : N) (s : StateManagerImpl) : StateManagerImpl :=
  mkStateManagerImpl (sg_shared s) (sg_state s) (sg_prepare s) (sg_launch s) (sg_shutdown s) (sg_pc s) (sg_log s) (sg_registered s)
    n1 n2.

(** state_.compare_exchange_strong *)
Definition compare_exchange (expected desired : State) (s : StateManagerImpl) : bool * StateManagerImpl :=
  if decide (sg_state s = expected) then (true, set_state desired s) else (false, s).

(** ** Registration *)

(** The last state in which a callback for the stage may be added *)
Definition last_state (st : Stage) : State :=
  match st with SPrepare => Prepare | SLaunch => Starting | SShutdown => ShuttingDown end.

Definition register (st : Stage) (cb : Action) (s : StateManagerImpl) : result StateManagerImpl :=
  if state_index (last_state st) <? state_index (sg_state s) then Throw RuntimeError
  else Ok (record_registered (st, cb) (set_queue st (queue_of st s ++ [cb]) s)).

Definition atPrepare : Action → StateManagerImpl → result StateManagerImpl := register SPrepare.
Definition atLaunch : Action → StateManagerImpl → result StateManagerImpl := register SLaunch.
Definition atShutdown : Action → StateManagerImpl → result StateManagerImpl := register SShutdown.

(** The methods that the entity has *)
Definition takeControl (prepare start stop : option Action) (s : StateManagerImpl) : result StateManagerImpl :=
  s ← match prepare with Some cb => atPrepare cb s | None => Ok s end;
  s ← match start with Some cb => atLaunch cb s | None => Ok s end;
  match stop with Some cb => atShutdown cb s | None => Ok s end.

Definition reset (s : StateManagerImpl) : StateManagerImpl :=
  set_state Init (set_queue SPrepare [] (set_queue SLaunch [] (set_queue SShutdown [] s))).

(** ** The main thread *)

(** The states before, during and after the stages prepare and launch *)
Definition state_before (st : Stage) : State :=
  match st with SPrepare => Init | SLaunch => ReadyToStart | SShutdown => Works end.
Definition state_during (st : Stage) : State :=
  match st with SPrepare => Prepare | SLaunch => Starting | SShutdown => ShuttingDown end.
Definition state_after (st : Stage) : State :=
  match st with SPrepare => ReadyToStart | SLaunch => Works | SShutdown => ReadyToStop end.
Definition next_pc (st : Stage) : Pc :=
  match st with SPrepare => Begin SLaunch | SLaunch => TestWorks | SShutdown => LastTest end.

(** The start of doPrepare, doLaunch and doShutdown; the last clears the other queues. *)
Definition stage_begin (st : Stage) (s : StateManagerImpl) : StateManagerImpl :=
  let '(exchanged, s) := compare_exchange (state_before st) (state_during st) s in
  if negb exchanged && negb (bool_decide (sg_state s = ShuttingDown)) then goto (Threw RuntimeError) s
  else goto (Head st) (match st with SShutdown => set_queue SPrepare [] (set_queue SLaunch [] s) | _ => s end).

(** The loop: a callback of prepare or launch runs only while the state is that of its
    stage; otherwise it is dropped. *)
Definition stage_head (st : Stage) (s : StateManagerImpl) : StateManagerImpl :=
  match queue_of st s with
  | [] => goto (End_ st) s
  | cb :: q =>
      if bool_decide (st = SShutdown ∨ sg_state s = state_during st) then goto (Running st cb) s
      else set_queue st q s
  end.

(** A callback ends: it leaves its queue when it returns; its exception leaves the queue and
    the state as they are. *)
Definition stage_result (st : Stage) (cb : Action) (r : CallbackResult) (s : StateManagerImpl) : StateManagerImpl :=
  match r with
  | Raised x => goto (Escaped st cb x) s
  | Returned success =>
      let s := record_run (st, cb, success) s in
      let s := if negb success && negb (bool_decide (st = SShutdown))
               then (compare_exchange (state_during st) ShuttingDown s).2 else s in
      goto (Head st) (set_queue st (tail (queue_of st s)) s)
  end.

Definition stage_end (st : Stage) (s : StateManagerImpl) : StateManagerImpl :=
  goto (next_pc st) (compare_exchange (state_during st) (state_after st) s).2.

(** A step of [run]; [r] is the result of the callback that ends in it.  [None]: the main
    thread waits, or has left. *)
Definition run_step (r : CallbackResult) (s : StateManagerImpl) : option StateManagerImpl :=
  match sg_pc s with
  | Entry => Some (goto (if sg_shared s then Begin SPrepare else Threw LogicError) s)
  | Begin st => Some (stage_begin st s)
  | Head st => Some (stage_head st s)
  | Running st cb => Some (stage_result st cb r s)
  | End_ st => Some (stage_end st s)
  | TestWorks => Some (goto (if decide (sg_state s = Works) then Waiting else Begin SShutdown) s)
  | Waiting => if decide (sg_state s = ShuttingDown) then Some (goto (Begin SShutdown) s) else None
  | LastTest => Some (goto (if decide (sg_state s = ReadyToStop) then Finished else Threw LogicError) s)
  | Finished | Threw _ | Escaped _ _ _ => None
  end.

(** ** Requests to shut down *)

(** shutdown() when nothing happens between its tests and its store *)
Definition shutdown (s : StateManagerImpl) : StateManagerImpl :=
  if decide (sg_state s = ReadyToStop) then s
  else if decide (sg_state s = ShuttingDown) then s
  else set_state ShuttingDown s.

(** Its three accesses one by one *)
Definition shutdown_test1 (s : StateManagerImpl) : option StateManagerImpl :=
  if decide (sg_state s = ReadyToStop) then None else Some (set_passed (sg_passed1 s + 1) (sg_passed2 s) s).
Definition shutdown_test2 (s : StateManagerImpl) : option StateManagerImpl :=
  if sg_passed1 s =? 0 then None
  else Some (set_passed (sg_passed1 s - 1)
               (if decide (sg_state s = ShuttingDown) then sg_passed2 s else sg_passed2 s + 1) s).
Definition shutdown_store (s : StateManagerImpl) : option StateManagerImpl :=
  if sg_passed2 s =? 0 then None
  else Some (set_state ShuttingDown (set_passed (sg_passed1 s) (sg_passed2 s - 1) s)).

(** ** Interleavings *)

(** Whether a callback can be registered: the mutex is free, or a callback runs on the main
    thread, which holds it. *)
Definition may_register (pc : Pc) : bool :=
  match pc with Head _ | End_ _ => false | _ => true end.

Inductive event :=
| EMain (r : CallbackResult)
| ERegister (st : Stage) (cb : Action)
| EShutdown
| EShutdownTest1
| EShutdownTest2
| EShutdownStore.

(** A failed registration changes nothing. *)
Definition perform (e : event) (s : StateManagerImpl) : option StateManagerImpl :=
  match e with
  | EMain r => run_step r s
  | ERegister st cb =>
      if may_register (sg_pc s) then match register st cb s with Ok s => Some s | _ => Some s end else None
  | EShutdown => Some (shutdown s)
  | EShutdownTest1 => shutdown_test1 s
  | EShutdownTest2 => shutdown_test2 s
  | EShutdownStore => shutdown_store s
  end.

(** Requests to shut down are not interrupted. *)
Definition uninterrupted (e : event) : bool :=
  match e with EMain _ | ERegister _ _ | EShutdown => true | _ => false end.

Inductive reachable : StateManagerImpl → Prop :=
| reachable_new shared : reachable (StateManagerImpl_new shared)
| reachable_step e s s' : reachable s → uninterrupted e = true → perform e s = Some s' → reachable s'.

Fixpoint perform_all (es : list event) (s : StateManagerImpl) : option StateManagerImpl :=
  match es with
  | [] => Some s
  | e :: es => perform e s ≫= perform_all es
  end.
End state_manager.
Arguments StateManagerImpl : clear implicits.
Arguments Pc : clear implicits.
Arguments event : clear implicits.
