(* ===== verification/StateManagerTheorems.v ===== *)
(** * Life cycle of the application: order of the callbacks, termination, and a race *)

From S2P Require Import Prelude Errors StateManager.

Section theorems.
Context {Action : Type}.
Notation StateManagerImpl := (StateManagerImpl Action).
Implicit Types (s : StateManagerImpl) (st : Stage).

(** ** What ran and what was registered for a stage *)

Notation Log := (list (Stage * Action * bool)).
Notation Registered := (list (Stage * Action)).
Implicit Types (log : Log) (reg : Registered).

Definition log_of st log : Log := filter (λ x, x.1.1 = st) log.
Definition ran st log : list Action := (λ x, x.1.2) <$> log_of st log.
Definition registered st reg : list Action := snd <$> filter (λ x, x.1 = st) reg.
Definition all_succeeded st log : Prop := Forall (λ x, x.2 = true) (log_of st log).

(** Every callback registered for the stage ran and succeeded. *)
Definition completed st reg log : Prop := registered st reg = ran st log ∧ all_succeeded st log.

#[local] Arguments log_of : simpl never.
#[local] Arguments ran : simpl never.
#[local] Arguments registered : simpl never.
#[local] Arguments all_succeeded : simpl never.
#[local] Arguments completed : simpl never.

Lemma log_of_snoc st log st' cb b :
  log_of st (log ++ [(st', cb, b)]) = log_of st log ++ (if decide (st' = st) then [(st', cb, b)] else []).
Proof.
  unfold log_of. rewrite filter_app. destruct (decide (st' = st)).
  - by rewrite filter_cons_True.
  - by rewrite filter_cons_False.
Qed.

Lemma ran_snoc st log st' cb b :
  ran st (log ++ [(st', cb, b)]) = ran st log ++ (if decide (st' = st) then [cb] else []).
Proof. unfold ran. rewrite log_of_snoc, fmap_app. by case_decide. Qed.

Lemma registered_snoc st reg st' cb :
  registered st (reg ++ [(st', cb)]) = registered st reg ++ (if decide (st' = st) then [cb] else []).
Proof.
  unfold registered. rewrite filter_app, fmap_app. destruct (decide (st' = st)).
  - by rewrite filter_cons_True.
  - by rewrite filter_cons_False.
Qed.

Lemma succeeded_snoc st log st' cb b :
  all_succeeded st log → (st' = st → b = true) → all_succeeded st (log ++ [(st', cb, b)]).
Proof.
  unfold all_succeeded. rewrite log_of_snoc, Forall_app. intros Hall Hb. split; [done|].
  case_decide; [|done]. constructor; [by apply Hb|done].
Qed.

(** The states in which the main thread can be at a position. *)
Definition pc_state (pc : Pc Action) (x : State) : Prop :=
  match pc with
  | Entry | Threw _ => x = Init ∨ x = ShuttingDown
  | Begin st => x = state_before st ∨ x = ShuttingDown
  | Head st | Running st _ | End_ st | Escaped st _ _ => x = state_during st ∨ x = ShuttingDown
  | TestWorks | Waiting => x = Works ∨ x = ShuttingDown
  | LastTest | Finished => x = ReadyToStop
  end.

(** The stage of a position; nothing of a later stage ran. *)
Definition pc_stage (pc : Pc Action) : Stage :=
  match pc with
  | Entry | Threw _ => SPrepare
  | Begin st | Head st | Running st _ | End_ st | Escaped st _ _ => st
  | TestWorks | Waiting => SLaunch
  | LastTest | Finished => SShutdown
  end.
(** The callback that runs or has thrown. *)
Definition at_callback (pc : Pc Action) : option (Stage * Action) :=
  match pc with Running st cb | Escaped st cb _ => Some (st, cb) | _ => None end.
Definition stage_index st : N := match st with SPrepare => 0 | SLaunch => 1 | SShutdown => 2 end.

(** The stage is in progress or before, and no shutdown was requested. *)
Definition undisturbed (x : State) : Prop := x ≠ ShuttingDown ∧ x ≠ ReadyToStop.

Record lifecycle_wf s : Prop := {
  lw_state : pc_state (sg_pc s) (sg_state s);
  lw_later st : stage_index (pc_stage (sg_pc s)) < stage_index st → log_of st (sg_log s) = [];
  lw_sorted : sg_log s = log_of SPrepare (sg_log s) ++ log_of SLaunch (sg_log s) ++ log_of SShutdown (sg_log s);
  lw_prefix st : ran st (sg_log s) `prefix_of` registered st (sg_registered s);
  lw_early : match sg_pc s with
             | Entry => sg_log s = []
             | Threw x => x = LogicError ∧ sg_shared s = false ∧ sg_log s = []
             | _ => True
             end;
  lw_running st cb : at_callback (sg_pc s) = Some (st, cb) →
    registered st (sg_registered s) = ran st (sg_log s) ++ queue_of st s ∧ ∃ q, queue_of st s = cb :: q;
  lw_queue st : undisturbed (sg_state s) →
    registered st (sg_registered s) = ran st (sg_log s) ++ queue_of st s ∧ all_succeeded st (sg_log s);
  lw_shutdown : registered SShutdown (sg_registered s) = ran SShutdown (sg_log s) ++ sg_shutdown s;
  lw_end st : sg_pc s = End_ st → queue_of st s = [];
  lw_last : match sg_pc s with LastTest | Finished => sg_shutdown s = [] | _ => True end;
  lw_prepared :
    (state_index Prepare < state_index (sg_state s) ∧ undisturbed (sg_state s)) ∨
    log_of SLaunch (sg_log s) ≠ [] ∨ (∃ cb, at_callback (sg_pc s) = Some (SLaunch, cb)) →
    completed SPrepare (sg_registered s) (sg_log s);
  lw_launched : sg_state s = Works → completed SLaunch (sg_registered s) (sg_log s);
}.

Lemma lifecycle_wf_new shared : lifecycle_wf (StateManagerImpl_new shared).
Proof.
  split; try done; cbn.
  - by left.
  - intros st _. split; [by destruct st|constructor].
  - intros [[Hlt _]|[Hne|[cb Heq]]]; [lia|by destruct Hne|done].
Qed.

(** Moves of the main thread that change neither the queues nor what was recorded. *)
Lemma lifecycle_wf_move pc x s :
  lifecycle_wf s → pc_state pc x →
  stage_index (pc_stage (sg_pc s)) ≤ stage_index (pc_stage pc) →
  (undisturbed x → undisturbed (sg_state s)) →
  (state_index Prepare < state_index x → undisturbed x → completed SPrepare (sg_registered s) (sg_log s)) →
  (x = Works → completed SLaunch (sg_registered s) (sg_log s)) →
  match pc with
  | Entry => sg_log s = []
  | Threw x' => x' = LogicError ∧ sg_shared s = false ∧ sg_log s = []
  | _ => True
  end →
  (∀ st cb, at_callback pc = Some (st, cb) →
     registered st (sg_registered s) = ran st (sg_log s) ++ queue_of st s ∧ (∃ q, queue_of st s = cb :: q) ∧
     (st = SLaunch → completed SPrepare (sg_registered s) (sg_log s))) →
  (∀ st, pc = End_ st → queue_of st s = []) →
  match pc with LastTest | Finished => sg_shutdown s = [] | _ => True end →
  lifecycle_wf (goto pc (set_state x s)).
Proof.
  intros [Hst Hlater Hsort Hpre Hearly Hrun Hq Hsh Hend Hlast Hprep Hlaunch] Hpc Hstage Hund Hp Hw Hearly' Hrun' Hend' Hlast'.
  split; cbn; try done.
  - intros st Hlt. apply Hlater. lia.
  - intros st cb Heq. by destruct (Hrun' st cb Heq) as (? & ? & _).
  - intros st Hx. by apply Hq, Hund.
  - intros [[Hidx Hx]|[Hlog|[cb Heq]]]; [by apply Hp|by apply Hprep; auto|by apply (Hrun' SLaunch cb)].
Qed.

(** Dropping callbacks of the first stages once a shutdown was requested. *)
Lemma lifecycle_wf_drop st q s :
  lifecycle_wf s → st ≠ SShutdown → sg_state s = ShuttingDown →
  at_callback (sg_pc s) = None → (∀ st, sg_pc s ≠ End_ st) →
  lifecycle_wf (set_queue st q s).
Proof.
  intros [Hst Hlater Hsort Hpre Hearly Hrun Hq Hsh Hend Hlast Hprep Hlaunch] Hne Hsd Hnrun Hnend.
  split; cbn; try done.
  - intros st' cb Heq. by rewrite Hnrun in Heq.
  - intros st'. rewrite Hsd. by intros [].
  - by destruct st.
  - intros st' Heq. by destruct (Hnend st').
  - by destruct st.
Qed.

Lemma lifecycle_wf_clear s :
  lifecycle_wf (goto (Head SShutdown) s) → sg_state s = ShuttingDown →
  lifecycle_wf (goto (Head SShutdown) (set_queue SPrepare [] (set_queue SLaunch [] s))).
Proof.
  intros Hwf Hsd.
  change (lifecycle_wf (set_queue SPrepare [] (set_queue SLaunch [] (goto (Head SShutdown) s)))).
  apply lifecycle_wf_drop; [|done..]. by apply lifecycle_wf_drop.
Qed.

Lemma wf_stage_begin st s : lifecycle_wf s → sg_pc s = Begin st → lifecycle_wf (stage_begin st s).
Proof.
  intros Hwf Hpc. pose proof (lw_state _ Hwf) as Hst. rewrite Hpc in Hst. cbn in Hst.
  unfold stage_begin, compare_exchange.
  assert (Hhead : ∀ x, (x = state_during st ∨ x = ShuttingDown) → (undisturbed x → sg_state s = state_before st) →
            lifecycle_wf (goto (Head st) (set_state x s))).
  { intros x Hx Hund. apply lifecycle_wf_move; try done.
    - by rewrite Hpc.
    - intros Hu. rewrite (Hund Hu). destruct st; [done|done|]. by destruct Hx as [->| ->]; destruct Hu.
    - intros Hidx Hu. apply (lw_prepared _ Hwf). left. rewrite (Hund Hu). destruct st; cbn.
      + destruct Hx as [->| ->]; [cbn in Hidx; lia|by destruct Hu].
      + by split.
      + by destruct Hx as [->| ->]; destruct Hu.
    - intros ->. by destruct st; destruct Hx. }
  destruct (decide (sg_state s = state_before st)) as [Heq|Hne]; cbn [negb andb].
  - destruct st; [apply Hhead; [by left|done]..|].
    apply lifecycle_wf_clear; [|done]. by apply Hhead; [left|].
  - destruct Hst as [?|Hsd]; [done|]. rewrite bool_decide_eq_true_2 by done. cbn [negb].
    assert (Hs : lifecycle_wf (goto (Head st) (set_state (sg_state s) s))).
    { apply Hhead; [by right|]. rewrite Hsd. by intros []. }
    destruct st; [exact Hs..|].
    by apply lifecycle_wf_clear.
Qed.

Lemma wf_stage_head st s : lifecycle_wf s → sg_pc s = Head st → lifecycle_wf (stage_head st s).
Proof.
  intros Hwf Hpc. pose proof (lw_state _ Hwf) as Hst. rewrite Hpc in Hst. cbn in Hst.
  unfold stage_head. destruct (queue_of st s) as [|cb q] eqn:Hq.
  - change (goto (End_ st) s) with (goto (End_ st) (set_state (sg_state s) s)).
    apply lifecycle_wf_move; try done.
    + by rewrite Hpc.
    + intros ??. apply (lw_prepared _ Hwf). by left.
    + apply (lw_launched _ Hwf).
    + by intros st' [= <-].
  - case_bool_decide as Hrun.
    + change (goto (Running st cb) s) with (goto (Running st cb) (set_state (sg_state s) s)).
      apply lifecycle_wf_move; try done.
      * by rewrite Hpc.
      * intros ??. apply (lw_prepared _ Hwf). by left.
      * apply (lw_launched _ Hwf).
      * intros st' cb' [= <- <-]. split_and!.
        -- destruct (decide (st = SShutdown)) as [->|Hne]; [apply (lw_shutdown _ Hwf)|].
           destruct Hrun as [?|Heq]; [done|]. apply (lw_queue _ Hwf). rewrite Heq. by destruct st.
        -- by exists q.
        -- intros ->. apply (lw_prepared _ Hwf). left. destruct Hrun as [?| ->]; [done|]. by split.
    + apply Decidable.not_or in Hrun as [Hne Hstate]. destruct Hst as [?|Hsd]; [done|].
      apply lifecycle_wf_drop; try done; intros; by rewrite Hpc.
Qed.

Lemma completed_snoc st reg log st' cb b :
  completed st reg log → st' ≠ st → completed st reg (log ++ [(st', cb, b)]).
Proof.
  intros [Hr Hs] Hne. split; [rewrite ran_snoc, decide_False, app_nil_r by done; done|]. by apply succeeded_snoc.
Qed.

Lemma completed_registered st reg log st' cb :
  completed st reg log → st' ≠ st → completed st (reg ++ [(st', cb)]) log.
Proof. intros [Hr Hs] Hne. split; [|done]. rewrite registered_snoc, decide_False, app_nil_r by done. done. Qed.

Lemma queue_set_queue st st' q s : queue_of st (set_queue st' q s) = if decide (st' = st) then q else queue_of st s.
Proof. by destruct st, st'. Qed.

(** A callback returned: it is recorded and leaves its queue. *)
Lemma wf_record_run st cb b x s :
  lifecycle_wf s → sg_pc s = Running st cb → pc_state (Head st) x →
  (undisturbed x → x = sg_state s ∧ st ≠ SShutdown ∧ b = true) →
  lifecycle_wf (goto (Head st) (set_queue st (tail (queue_of st s)) (set_state x (record_run (st, cb, b) s)))).
Proof.
  intros [Hst Hlater Hsort Hpre Hearly Hrun Hq Hsh Hend Hlast Hprep Hlaunch] Hpc Hx Hund.
  assert (Hcb : at_callback (sg_pc s) = Some (st, cb)) by (by rewrite Hpc).
  destruct (Hrun st cb Hcb) as (Hreg & q & Hqueue). rewrite Hpc in Hst, Hlater. cbn in Hst, Hlater.
  assert (Hreg' : ∀ st', registered st' (sg_registered s) = ran st' (sg_log s) ++ queue_of st' s →
    registered st' (sg_registered s) = ran st' (sg_log s ++ [(st, cb, b)]) ++
      (if decide (st = st') then tail (queue_of st s) else queue_of st' s)).
  { intros st' Hr. rewrite ran_snoc. case_decide as Heq; [|by rewrite app_nil_r]. subst st'.
    rewrite Hr, Hqueue, <- app_assoc. done. }
  split; cbn [sg_pc sg_state sg_log sg_registered sg_shutdown goto set_queue set_state record_run]; try done.
  - intros st' Hlt. rewrite log_of_snoc, (Hlater st' Hlt), decide_False; [done|]. intros <-. cbn in Hlt. lia.
  - rewrite !log_of_snoc. rewrite Hsort at 1. destruct st; cbn [pc_stage] in Hlater; repeat case_decide; try done.
    + rewrite (Hlater SLaunch), (Hlater SShutdown), !app_nil_r by done. done.
    + rewrite (Hlater SShutdown), !app_nil_r, <- app_assoc by done. done.
    + rewrite !app_nil_r, <- !app_assoc. done.
  - intros st'. rewrite ran_snoc. case_decide as Heq; [|by rewrite app_nil_r]. subst st'. rewrite Hreg, Hqueue.
    exists q. by rewrite <- app_assoc.
  - intros st' Hx'. destruct (Hund Hx') as (-> & Hne & ->). destruct (Hq st' Hx') as [Hr Hs].
    split; [|by apply succeeded_snoc]. etrans; [exact (Hreg' st' Hr)|]. f_equal.
    symmetry. apply (queue_set_queue st' st _ (set_state (sg_state s) (record_run (st, cb, true) s))).
  - etrans; [exact (Hreg' SShutdown Hsh)|]. by destruct st.
  - intros [[Hidx Hx']|[Hlog|[cb' [=]]]].
    + destruct (Hund Hx') as (-> & _ & _). destruct (decide (st = SPrepare)) as [->|Hne].
      * destruct Hx as [Heq|Heq]; rewrite Heq in Hidx, Hx'; [cbn in Hidx; lia|by destruct Hx'].
      * apply completed_snoc; [|done]. apply Hprep. by left.
    + rewrite log_of_snoc in Hlog. destruct st; cbn in Hlog.
      * by rewrite (Hlater SLaunch) in Hlog.
      * apply completed_snoc; [|done]. apply Hprep. right. right. by exists cb.
      * apply completed_snoc; [|done]. apply Hprep. right. left. by rewrite app_nil_r in Hlog.
  - intros ->. by destruct Hx as [Hx|]; destruct st.
Qed.

Lemma wf_stage_returned st cb b s :
  lifecycle_wf s → sg_pc s = Running st cb → lifecycle_wf (stage_result st cb (Returned b) s).
Proof.
  intros Hwf Hpc. pose proof (lw_state _ Hwf) as Hst. rewrite Hpc in Hst. cbn in Hst. unfold stage_result.
  assert (Hsame : (undisturbed (sg_state s) → st ≠ SShutdown ∧ b = true) →
    lifecycle_wf (goto (Head st) (set_queue st (tail (queue_of st s)) (record_run (st, cb, b) s)))).
  { intros Hu. apply (wf_record_run st cb b (sg_state s)); [done|done|done|]. intros Hx. by destruct (Hu Hx). }
  destruct b; cbn [negb andb].
  - change (queue_of st (record_run (st, cb, true) s)) with (queue_of st s). apply Hsame. intros Hu. split; [|done]. intros ->.
    destruct Hst as [Heq|Heq]; rewrite Heq in Hu; by destruct Hu.
  - case_bool_decide as Hsh; cbn [negb].
    + apply Hsame. subst st. intros Hu. destruct Hst as [Heq|Heq]; rewrite Heq in Hu; by destruct Hu.
    + unfold compare_exchange. cbn [sg_state record_run]. case_decide as Hd; cbn [snd].
      * change (queue_of st (set_state _ _)) with (queue_of st s).
        apply (wf_record_run st cb false ShuttingDown); [done|done|by right|by intros []].
      * apply Hsame. destruct Hst as [?|Heq]; [done|]. rewrite Heq. by intros [].
Qed.

Lemma wf_stage_result st cb r s :
  lifecycle_wf s → sg_pc s = Running st cb → lifecycle_wf (stage_result st cb r s).
Proof.
  intros Hwf Hpc. destruct r as [b|x]; [by apply wf_stage_returned|]. cbn [stage_result].
  assert (Hcb : at_callback (sg_pc s) = Some (st, cb)) by (by rewrite Hpc).
  change (goto (Escaped st cb x) s) with (goto (Escaped st cb x) (set_state (sg_state s) s)).
  apply lifecycle_wf_move; try done.
  - pose proof (lw_state _ Hwf) as Hst. by rewrite Hpc in Hst.
  - by rewrite Hpc.
  - intros ??. apply (lw_prepared _ Hwf). by left.
  - apply (lw_launched _ Hwf).
  - intros st' cb' [= <- <-]. destruct (lw_running _ Hwf st cb Hcb) as [Hreg Hq]. split_and!; [done|done|].
    intros ->. apply (lw_prepared _ Hwf). right. right. by exists cb.
Qed.

Lemma wf_stage_end st s : lifecycle_wf s → sg_pc s = End_ st → lifecycle_wf (stage_end st s).
Proof.
  intros Hwf Hpc. pose proof (lw_state _ Hwf) as Hst. rewrite Hpc in Hst. cbn in Hst.
  pose proof (lw_end _ Hwf st Hpc) as Hempty. unfold stage_end, compare_exchange.
  assert (Hdone : undisturbed (sg_state s) → completed st (sg_registered s) (sg_log s)).
  { intros Hu. destruct (lw_queue _ Hwf st Hu) as [Hr Hs]. split; [|done]. by rewrite Hr, Hempty, app_nil_r. }
  case_decide as Hd; cbn [snd].
  - apply lifecycle_wf_move; try done.
    + destruct st; cbn; auto.
    + rewrite Hpc. by destruct st.
    + rewrite Hd. intros Hu. by destruct st; [split|split|destruct Hu].
    + destruct st; cbn; intros Hidx Hu.
      * apply Hdone. by rewrite Hd.
      * apply (lw_prepared _ Hwf). left. by rewrite Hd.
      * by destruct Hu.
    + destruct st; [done| |done]. intros _. apply Hdone. by rewrite Hd.
    + by destruct st.
    + by destruct st.
    + by destruct st.
    + by destruct st.
  - destruct Hst as [?|Hsd]; [done|]. assert (st ≠ SShutdown) by (intros ->; by apply Hd).
    change (goto (next_pc st) s) with (goto (next_pc st) (set_state (sg_state s) s)).
    rewrite Hsd. apply lifecycle_wf_move; try done.
    + by destruct st; cbn; auto.
    + rewrite Hpc. by destruct st.
    + by intros [].
    + by intros _ [].
    + by destruct st.
    + by destruct st.
    + by destruct st.
    + by destruct st.
Qed.

Lemma wf_run_step r s s' : lifecycle_wf s → run_step r s = Some s' → lifecycle_wf s'.
Proof.
  intros Hwf. pose proof (lw_state _ Hwf) as Hst. unfold run_step.
  assert (Hstay : ∀ pc, pc_state pc (sg_state s) → stage_index (pc_stage (sg_pc s)) ≤ stage_index (pc_stage pc) →
    at_callback pc = None → (∀ st, pc ≠ End_ st) →
    match pc with
    | Entry => False
    | Threw x' => x' = LogicError ∧ sg_shared s = false ∧ sg_log s = []
    | LastTest | Finished => sg_shutdown s = []
    | _ => True
    end → lifecycle_wf (goto pc s)).
  { intros pc Hpc Hstage Hnr Hne Hl. change (goto pc s) with (goto pc (set_state (sg_state s) s)).
    apply lifecycle_wf_move; try done.
    - intros ??. apply (lw_prepared _ Hwf). by left.
    - apply (lw_launched _ Hwf).
    - by destruct pc.
    - intros st cb Heq. by rewrite Hnr in Heq.
    - intros st Heq. by destruct (Hne st).
    - by destruct pc. }
  destruct (sg_pc s) as [|st|st|st cb|st| | | | |x|st cb x] eqn:Hpc; cbn in Hst.
  - intros [= <-]. pose proof (lw_early _ Hwf) as He. rewrite Hpc in He. destruct (sg_shared s) eqn:Hsh; by apply Hstay.
  - intros [= <-]. by apply wf_stage_begin.
  - intros [= <-]. by apply wf_stage_head.
  - intros [= <-]. by apply wf_stage_result.
  - intros [= <-]. by apply wf_stage_end.
  - intros [= <-]. case_decide; by apply Hstay.
  - case_decide as Hsd; [|done]. intros [= <-]. apply Hstay; done.
  - intros [= <-]. rewrite decide_True by done. apply Hstay; try done. pose proof (lw_last _ Hwf) as Hl. by rewrite Hpc in Hl.
  - done.
  - done.
  - done.
Qed.

(** With nothing of the launch stage begun, nothing of it ran. *)
Lemma launch_needs_state s :
  lifecycle_wf s → state_index (sg_state s) ≤ state_index Prepare →
  log_of SLaunch (sg_log s) = [] ∧ ∀ cb, at_callback (sg_pc s) ≠ Some (SLaunch, cb).
Proof.
  intros Hwf Hidx. pose proof (lw_state _ Hwf) as Hst. split.
  - apply (lw_later _ Hwf). destruct (sg_pc s) as [|[]|[]|[] cb|[]| | | | |x|[] cb x]; cbn in *; try done;
      try (destruct Hst as [Hst|Hst]; rewrite Hst in Hidx; cbn in Hidx; lia); rewrite Hst in Hidx; cbn in Hidx; lia.
  - intros cb Hcb. destruct (sg_pc s); try done; injection Hcb as -> ->;
      destruct Hst as [Hst|Hst]; rewrite Hst in Hidx; cbn in Hidx; lia.
Qed.

Lemma wf_register st cb s s' :
  lifecycle_wf s → may_register (sg_pc s) = true → register st cb s = Ok s' → lifecycle_wf s'.
Proof.
  intros Hwf Hmay. unfold register. destruct (N.ltb_spec (state_index (last_state st)) (state_index (sg_state s))) as [|Hidx]; [done|].
  intros [= <-]. pose proof (launch_needs_state s Hwf) as Hneeds.
  destruct Hwf as [Hst Hlater Hsort Hpre Hearly Hrun Hq Hsh Hend Hlast Hprep Hlaunch].
  assert (Hreg : ∀ st', registered st' (sg_registered s) = ran st' (sg_log s) ++ queue_of st' s →
    registered st' (sg_registered s ++ [(st, cb)]) =
    ran st' (sg_log s) ++ queue_of st' (set_queue st (queue_of st s ++ [cb]) s)).
  { intros st' Hr. rewrite registered_snoc, Hr, queue_set_queue. case_decide as Heq; [subst st'|by rewrite app_nil_r].
    by rewrite <- app_assoc. }
  split; cbn [sg_pc sg_state sg_log sg_registered record_registered set_queue]; try done.
  - intros st'. rewrite registered_snoc. by apply prefix_app_r.
  - intros st' cb' Hpc. destruct (Hrun st' cb' Hpc) as (Hr & q & Hqueue). split; [by apply Hreg|].
    change (∃ q, queue_of st' (set_queue st (queue_of st s ++ [cb]) s) = cb' :: q).
    rewrite queue_set_queue. case_decide as Heq; [subst st'; rewrite Hqueue; by eexists|by exists q].
  - intros st' Hu. destruct (Hq st' Hu) as [Hr Hs]. split; [by apply Hreg|done].
  - apply (Hreg SShutdown Hsh).
  - intros st' Hpc. rewrite Hpc in Hmay. done.
  - destruct (sg_pc s); try done; cbn in Hst; rewrite Hst in Hidx; destruct st; cbn in Hidx; lia.
  - intros Hcond. destruct (decide (st = SPrepare)) as [->|Hne]; [exfalso|by apply completed_registered; [apply Hprep|]].
    destruct (Hneeds Hidx) as [Hno Hnr]. destruct Hcond as [[Hlt _]|[Hlog|[cb' Hpc]]]; [cbn in *; lia|done|by eapply Hnr].
  - intros Hw. apply completed_registered; [by apply Hlaunch|]. intros ->. rewrite Hw in Hidx. cbn in Hidx. lia.
Qed.

Lemma wf_request s : lifecycle_wf s → lifecycle_wf (shutdown s).
Proof.
  intros Hwf. unfold shutdown. case_decide as Hr; [done|]. case_decide as Hsd; [done|].
  change (lifecycle_wf (goto (sg_pc s) (set_state ShuttingDown s))). apply lifecycle_wf_move; try done.
  - pose proof (lw_state _ Hwf) as Hst. destruct (sg_pc s); cbn in *; try done; auto.
  - by intros _ [].
  - apply (lw_early _ Hwf).
  - intros st cb Hpc. destruct (lw_running _ Hwf st cb Hpc) as [Hreg Hq]. split_and!; [done|done|].
    intros ->. apply (lw_prepared _ Hwf). right. right. by exists cb.
  - apply (lw_end _ Hwf).
  - apply (lw_last _ Hwf).
Qed.

Lemma lifecycle_reachable_wf s : reachable s → lifecycle_wf s.
Proof.
  induction 1 as [|e s s' _ IH Hun Hstep]; [apply lifecycle_wf_new|].
  destruct e as [b|st cb| | | |]; try done; cbn in Hstep.
  - by eapply wf_run_step.
  - destruct (may_register (sg_pc s)) eqn:Hmay; [|done].
    destruct (register st cb s) as [s1| |] eqn:Hreg; injection Hstep as <-; [by eapply wf_register|done..].
  - injection Hstep as <-. by apply wf_request.
Qed.

(** ** Termination after a request *)

(** The main thread alone; the list gives the results of the callbacks. *)
Fixpoint run_main (bs : list CallbackResult) s : option StateManagerImpl :=
  match bs with
  | [] => Some s
  | b :: bs => run_step b s ≫= run_main bs
  end.

(** An upper bound of the steps left once a shutdown was requested. *)
Definition steps_left s : nat :=
  let h := (2 * length (sg_shutdown s))%nat in
  let l := length (sg_launch s) in
  let p := length (sg_prepare s) in
  match sg_pc s with
  | Entry => p + l + h + 13
  | Begin SPrepare => p + l + h + 12
  | Head SPrepare => p + l + h + 11
  | Running SPrepare _ => p + l + h + 12
  | End_ SPrepare => l + h + 10
  | Begin SLaunch => l + h + 9
  | Head SLaunch => l + h + 8
  | Running SLaunch _ => l + h + 9
  | End_ SLaunch => h + 7
  | TestWorks => h + 6
  | Waiting => h + 6
  | Begin SShutdown => h + 5
  | Head SShutdown => h + 4
  | Running SShutdown _ => h + 3
  | End_ SShutdown => 2
  | LastTest => 1
  | Finished | Threw _ | Escaped _ _ _ => 0
  end%nat.

(** The request is there, or the shutdown stage is over. *)
Definition stopping s : Prop :=
  match sg_pc s with LastTest | Finished => True | _ => sg_state s = ShuttingDown end.

(** The main thread has left [run]. *)
Definition left_run (pc : Pc Action) : bool :=
  match pc with Finished | Threw _ | Escaped _ _ _ => true | _ => false end.

Lemma stage_result_stopping st cb b s :
  sg_state s = ShuttingDown →
  stage_result st cb (Returned b) s = goto (Head st) (set_queue st (tail (queue_of st s)) (record_run (st, cb, b) s)).
Proof.
  intros Hsd. unfold stage_result, compare_exchange. cbn [sg_state record_run]. rewrite Hsd.
  by destruct b, st.
Qed.

Lemma stopping_step b s :
  lifecycle_wf s → stopping s → left_run (sg_pc s) = false →
  ∃ s', run_step b s = Some s' ∧ lifecycle_wf s' ∧ stopping s' ∧ (steps_left s' < steps_left s)%nat.
Proof.
  intros Hwf Hstop Hfin. pose proof (lw_state _ Hwf) as Hst.
  assert (Hstep : ∃ s', run_step b s = Some s' ∧ stopping s' ∧ (steps_left s' < steps_left s)%nat).
  { pose proof (lw_running _ Hwf) as Hrun. unfold stopping, steps_left in *. unfold run_step.
    destruct (sg_pc s) as [|st|st|st cb|st| | | | |x|st cb x] eqn:Hpc; cbn in Hst; try done.
    - eexists. split; [done|]. destruct (sg_shared s); cbn; (split; [done|lia]).
    - eexists. split; [done|]. unfold stage_begin, compare_exchange.
      rewrite decide_False by (rewrite Hstop; by destruct st). rewrite bool_decide_eq_true_2 by done.
      destruct st; cbn; (split; [done|lia]).
    - eexists. split; [done|]. unfold stage_head. destruct (queue_of st s) as [|cb q] eqn:Hq.
      { destruct st; cbn in *; rewrite ?Hq; cbn; (split; [done|lia]). }
      destruct (decide (st = SShutdown)) as [->|Hne].
      { rewrite bool_decide_eq_true_2 by auto. cbn in *. rewrite Hq. cbn. split; [done|lia]. }
      rewrite bool_decide_eq_false_2 by (rewrite Hstop; intros [?|?]; [done|by destruct st]).
      destruct st; cbn in *; rewrite Hq, Hpc; cbn; (split; [done|lia]).
    - destruct (Hrun st cb eq_refl) as (_ & q & Hq). eexists. split; [done|].
      destruct b as [b|x]; [|destruct st; cbn; (split; [done|lia])].
      rewrite stage_result_stopping by done. destruct st; cbn in *; rewrite ?Hq; cbn; (split; [done|lia]).
    - eexists. split; [done|]. unfold stage_end, compare_exchange. rewrite Hstop.
      destruct st; case_decide; try done; cbn; (split; [done|lia]).
    - rewrite decide_False by (by rewrite Hstop). eexists. split; [done|]. cbn. split; [done|lia].
    - rewrite decide_True by done. eexists. split; [done|]. cbn. split; [done|lia].
    - rewrite decide_True by done. eexists. split; [done|]. cbn. split; [done|lia]. }
  destruct Hstep as (s' & Hs' & ? & ?). exists s'. split; [done|]. split; [by eapply wf_run_step|done].
Qed.

Lemma stopping_finishes n bs s :
  lifecycle_wf s → stopping s → (steps_left s ≤ n)%nat → length bs = n →
  ∃ m s', (m ≤ n)%nat ∧ run_main (take m bs) s = Some s' ∧ lifecycle_wf s' ∧ left_run (sg_pc s') = true.
Proof.
  revert bs s. induction n as [|n IH]; intros bs s Hwf Hstop Hle Hlen; destruct (left_run (sg_pc s)) eqn:Hfin.
  1, 3: exists 0%nat, s; rewrite take_0; split; [lia|done].
  - destruct (stopping_step (Returned true) s Hwf Hstop Hfin) as (s' & _ & _ & _ & Hlt). lia.
  - destruct bs as [|b bs]; [done|]. destruct (stopping_step b s Hwf Hstop Hfin) as (s1 & Hs1 & Hwf1 & Hstop1 & Hlt).
    destruct (IH bs s1 Hwf1 Hstop1) as (m & s' & Hm & Hrun & Hrest); [lia|by injection Hlen|].
    exists (S m), s'. split; [lia|]. cbn. by rewrite Hs1.
Qed.

(** ** The theorems *)

(** C28: the order of the life cycle, in every state reachable with requests to shut down that
    are not interrupted: [run] throws an exception of its own only at its start, when the
    manager is not owned by a shared pointer; all callbacks of prepare ran before those of
    launch and these before those of shutdown, each stage in the order of registration;
    something is launched only when every registered preparation ran and succeeded; the
    application works only when every launch succeeded too; when [run] has returned, every
    registered shutdown callback ran, once; and when the exception of a callback has left
    [run], it is that of the next registered callback of its stage, and no callback of a
    later stage has run. *)
Theorem lifecycle_order s :
  reachable s →
  (∀ x, sg_pc s = Threw x → x = LogicError ∧ sg_shared s = false ∧ sg_log s = []) ∧
  sg_log s = log_of SPrepare (sg_log s) ++ log_of SLaunch (sg_log s) ++ log_of SShutdown (sg_log s) ∧
  (∀ st, ran st (sg_log s) `prefix_of` registered st (sg_registered s)) ∧
  (log_of SLaunch (sg_log s) ≠ [] → completed SPrepare (sg_registered s) (sg_log s)) ∧
  (sg_state s = Works → completed SLaunch (sg_registered s) (sg_log s)) ∧
  (sg_pc s = Finished → sg_state s = ReadyToStop ∧ ran SShutdown (sg_log s) = registered SShutdown (sg_registered s)) ∧
  (∀ st cb x, sg_pc s = Escaped st cb x →
     (∃ q, registered st (sg_registered s) = ran st (sg_log s) ++ cb :: q) ∧
     ∀ st', stage_index st < stage_index st' → log_of st' (sg_log s) = []).
Proof.
  intros Hwf%lifecycle_reachable_wf. pose proof (lw_state _ Hwf) as Hst. split_and!.
  - intros x Hpc. pose proof (lw_early _ Hwf) as He. by rewrite Hpc in He.
  - apply (lw_sorted _ Hwf).
  - apply (lw_prefix _ Hwf).
  - intros Hl. apply (lw_prepared _ Hwf). auto.
  - apply (lw_launched _ Hwf).
  - intros Hpc. rewrite Hpc in Hst. split; [done|]. pose proof (lw_last _ Hwf) as Hl. rewrite Hpc in Hl.
    by rewrite (lw_shutdown _ Hwf), Hl, app_nil_r.
  - intros st cb x Hpc. pose proof (lw_running _ Hwf st cb) as Hrun. pose proof (lw_later _ Hwf) as Hlater.
    rewrite Hpc in Hrun, Hlater. destruct (Hrun eq_refl) as (Hreg & q & Hq). split; [|exact Hlater].
    exists q. by rewrite Hreg, Hq.
Qed.

(** A request to shut down is honoured: from every reachable state in which [run] has not
    passed its last stage, after [shutdown] the main thread leaves [run] within the steps
    that the queues allow, whatever the callbacks do.  When it returns, every registered
    shutdown callback has run. *)
Theorem shutdown_is_honoured s bs :
  reachable s → sg_state s ≠ ReadyToStop → length bs = steps_left (shutdown s) →
  ∃ m s', run_main (take m bs) (shutdown s) = Some s' ∧
    match sg_pc s' with
    | Finished => sg_state s' = ReadyToStop ∧ ran SShutdown (sg_log s') = registered SShutdown (sg_registered s')
    | Threw _ => sg_shared s' = false
    | Escaped _ _ _ => True
    | _ => False
    end.
Proof.
  intros Hwf%lifecycle_reachable_wf Hne Hlen. pose proof (wf_request _ Hwf) as Hwf1.
  assert (Hsd : sg_state (shutdown s) = ShuttingDown).
  { unfold shutdown. rewrite decide_False by done. by case_decide. }
  destruct (stopping_finishes (steps_left (shutdown s)) bs (shutdown s)) as (m & s' & _ & Hrun & Hwf' & Hpc); try done.
  { unfold stopping. by destruct (sg_pc (shutdown s)). }
  exists m, s'. split; [done|]. pose proof (lw_state _ Hwf') as Hst. pose proof (lw_last _ Hwf') as Hl.
  pose proof (lw_early _ Hwf') as He. destruct (sg_pc s'); try done; [|by destruct He as (_ & ? & _)].
  split; [done|]. by rewrite (lw_shutdown _ Hwf'), Hl, app_nil_r.
Qed.
End theorems.

Module LifeEx.
(** One component with a preparation, a launch and a shutdown callback *)
Definition set_up : list (event N) := [ERegister SPrepare 1; ERegister SLaunch 2; ERegister SShutdown 3].
Definition fresh : StateManagerImpl N := StateManagerImpl_new true.
Definition ready : StateManagerImpl N := default fresh (perform_all set_up fresh).
Definition ok : CallbackResult := Returned true.
(** Eleven steps reach the wait for a request. *)
Definition working : StateManagerImpl N := default ready (run_main (replicate 11 ok) ready).
(** The launch callback throws. *)
Definition launch_fails : list (event N) := set_up ++ replicate 8 (EMain ok) ++ [EMain (Raised SystemError)].
Definition thrown : StateManagerImpl N := default fresh (perform_all launch_fails fresh).

Lemma perform_all_reachable es (s s' : StateManagerImpl N) :
  reachable s → Forall (λ e, uninterrupted e = true) es → perform_all es s = Some s' → reachable s'.
Proof.
  intros Hs Hes. revert s Hs. induction Hes as [|e es He _ IH]; intros s Hs; cbn; [by intros [= <-]|].
  destruct (perform e s) as [s1|] eqn:Hp; [|done]. apply IH. by eapply reachable_step.
Qed.

Lemma working_reachable : reachable working.
Proof.
  eapply (perform_all_reachable (set_up ++ replicate 11 (EMain ok)) fresh);
    [apply reachable_new|by repeat constructor|by vm_compute].
Qed.
Lemma thrown_reachable : reachable thrown.
Proof.
  eapply (perform_all_reachable launch_fails fresh); [apply reachable_new|by repeat constructor|by vm_compute].
Qed.

Lemma lifecycle_order_witness :
  (sg_state working = Works ∧ completed SLaunch (sg_registered working) (sg_log working)) ∧
  sg_pc thrown = Escaped SLaunch 2 SystemError ∧ log_of SShutdown (sg_log thrown) = [].
Proof.
  split.
  - split; [by vm_compute|]. destruct (lifecycle_order working working_reachable) as (_ & _ & _ & _ & Hw & _).
    apply Hw. by vm_compute.
  - assert (Hpc : sg_pc thrown = Escaped SLaunch 2 SystemError) by (by vm_compute). split; [exact Hpc|].
    destruct (lifecycle_order thrown thrown_reachable) as (_ & _ & _ & _ & _ & _ & Hesc).
    apply (Hesc _ _ _ Hpc). by vm_compute.
Defined.

Lemma shutdown_is_honoured_witness :
  ∃ m s', run_main (take m (replicate 8 ok)) (shutdown working) = Some s' ∧
    match sg_pc s' with
    | Finished => sg_state s' = ReadyToStop ∧ ran SShutdown (sg_log s') = registered SShutdown (sg_registered s')
    | Threw _ => sg_shared s' = false
    | Escaped _ _ _ => True
    | _ => False
    end.
Proof.
  apply (shutdown_is_honoured working (replicate 8 ok) working_reachable); [by vm_compute|by vm_compute].
Defined.

(** A request that is interrupted between its tests and its store by a failing preparation
    and the whole shutdown: the state is moved back and [run] throws. *)
Definition race : list (event N) :=
  [ERegister SPrepare 1; EMain ok; EMain ok; EMain ok; EShutdownTest1; EShutdownTest2] ++
  replicate 10 (EMain (Returned false)) ++ [EShutdownStore; EMain ok].

Lemma shutdown_race : sg_pc <$> perform_all race fresh = Some (Threw LogicError).
Proof. by vm_compute. Qed.
End LifeEx.
