(* ===== verification/Watchdog.v ===== *)
(** * The watchdog and the run of the application (src/src/app/impl/watchdog.hpp,
    src/src/app/impl/application_impl.cpp)

    A thread registers and gets a Ping, whose calls advance a shared counter.  check, which the
    watchdog's own thread calls periodically, aborts the process when a counter has not moved for
    longer than the timeout.  Counters are atomic and everything else is under the mutex, so
    registering, a call of a Ping, the end of a Ping and the visit of one entry by check are the
    steps.  Times are nanoseconds of the steady clock. *)

From Stdlib Require Import Relations.
From S2P Require Import Prelude Errors Types CachedTree.

(** Thread; the counter belongs to the entry and to the Pings, [th_pings] of them
    (use_count is one more).  The platform id and the name only appear in the log. *)
Record Thread := mkThread {
  th_last_time : N;
  th_last_count : N;
  th_count : N;
  th_pings : N;
}.
(** threads_ and stopped_ *)
Record Watchdog := mkWatchdog {
  wd_threads : gmap N Thread;
  wd_stopped : bool;
}.
Definition Watchdog_new : Watchdog := mkWatchdog ∅ false.
Definition set_threads (m : gmap N Thread) (w : Watchdog) : Watchdog := mkWatchdog m (wd_stopped w).

(** kWatchdogDefaultTimeout: 15 minutes *)
Definition kWatchdogDefaultTimeout : N := 15 * 60 * 1000000000.

(** add, by the thread [id]: its entry, and one more Ping *)
Definition wd_add (now : N) (id : N) (w : Watchdog) : Watchdog :=
  let thread :=
    match wd_threads w !! id with
    | Some thread => thread
    | None => mkThread now 0 0 0
    end in
  set_threads (<[id := mkThread (th_last_time thread) (th_last_count thread) (th_count thread) (th_pings thread + 1)]>
                 (wd_threads w)) w.
(** Ping::operator(): fetch_add on a uint32_t *)
Definition wd_ping (id : N) (w : Watchdog) : Watchdog :=
  set_threads (alter (λ th, mkThread (th_last_time th) (th_last_count th) ((th_count th + 1) mod 2 ^ 32) (th_pings th)) id
                 (wd_threads w)) w.
(** The end of a Ping. *)
Definition wd_drop (id : N) (w : Watchdog) : Watchdog :=
  set_threads (alter (λ th, mkThread (th_last_time th) (th_last_count th) (th_count th) (th_pings th - 1)) id
                 (wd_threads w)) w.
Definition wd_stop (w : Watchdog) : Watchdog := mkWatchdog (wd_threads w) true.

Section watchdog.
Context `{!UnorderedMap}.
Local Abbreviation M := (SM Watchdog error).

(** The body of the loop of check. *)
Definition check_thread (now timeout : N) (id : N) : M () :=
  w ← sm_get;
  match wd_threads w !! id with
  | None => mret ()
  | Some th =>
      if th_pings th =? 0 then sm_put (set_threads (delete id (wd_threads w)) w)
      else if negb (th_last_count th =? th_count th) then
        sm_put (set_threads (<[id := mkThread now (th_count th) (th_count th) (th_pings th)]> (wd_threads w)) w)
      else if timeout <? now - th_last_time th then sm_throw Fatal
      else mret ()
  end.
Definition check (now timeout : N) : M () :=
  w ← sm_get;
  sm_iter (check_thread now timeout) (iteration (wd_threads w)).*1.

(** The loop of checkLoop, over the times at which it wakes up after its sleep; before each sleep
    it reads stopped_, which [stopped] says. *)
Fixpoint checkLoop (timeout : N) (turns : list (bool * N)) : M () :=
  match turns with
  | [] => mret ()
  | (stopped, now) :: turns =>
      if stopped : bool then mret ()
      else check now timeout ≫= λ _, checkLoop timeout turns
  end.

(** run: the thread registers and calls its Ping after every turn of the io_context, as long as
    [go] (not stopped, and someone else holds the context). *)
Fixpoint run_turns (id : N) (go : list bool) (w : Watchdog) : Watchdog :=
  match go with
  | true :: go => run_turns id go (wd_ping id w)
  | _ => w
  end.
Definition run (now : N) (id : N) (go : list bool) (w : Watchdog) : Watchdog :=
  wd_drop id (run_turns id go (wd_add now id w)).
End watchdog.

(** ** ApplicationImpl::run

    The main thread and the watchdog's thread; the state manager's run is given: it has called
    the shutdown handlers, among them the one that stops the watchdog, when it returns. *)
Inductive MainThread := MainStart | MainRunning | MainReturned | MainJoining | MainDone.
Inductive WatchThread := WatchNone | WatchTest | WatchSleep | WatchDone.
Record Application := mkApplication {
  ap_main : MainThread;
  ap_watch : WatchThread;
  ap_watchdog : Watchdog;
  ap_checks : N;                        (* checks since stopped_ was set *)
}.

Section application.
Context `{!UnorderedMap}.
Inductive app_step : Application → Application → Prop :=
(** std::thread watchdog_thread; atShutdown registers the stop *)
| app_spawn w n : app_step (mkApplication MainStart WatchNone w n) (mkApplication MainRunning WatchTest w n)
(** state_manager_->run(): a request to shut down makes it run the shutdown handlers.  An exception that
    leaves it destroys a thread that was not joined, which ends the process: no step *)
| app_shutdown t w n : app_step (mkApplication MainRunning t w n) (mkApplication MainRunning t (wd_stop w) n)
| app_returned t w n : app_step (mkApplication MainRunning t w n) (mkApplication MainReturned t w n)
(** watchdog_->stop() *)
| app_stop t w n : app_step (mkApplication MainReturned t w n) (mkApplication MainJoining t (wd_stop w) n)
(** watchdog_thread.join() *)
| app_join w n : app_step (mkApplication MainJoining WatchDone w n) (mkApplication MainDone WatchDone w n)
(** checkLoop *)
| app_test_go m w n : wd_stopped w = false →
    app_step (mkApplication m WatchTest w n) (mkApplication m WatchSleep w n)
| app_test_stop m w n : wd_stopped w = true →
    app_step (mkApplication m WatchTest w n) (mkApplication m WatchDone w n)
| app_check m now w w' n : check now kWatchdogDefaultTimeout w = (Ok (), w') →
    app_step (mkApplication m WatchSleep w n)
      (mkApplication m WatchTest w' (if wd_stopped w then n + 1 else n)).
Definition app_init : Application := mkApplication MainStart WatchNone Watchdog_new 0.
End application.

(** * The watchdog: no false alarm, no missed stall, and the end of the application *)

Section proofs.
Context `{!UnorderedMap}.

(** What check does with an entry, and when it aborts. *)
Definition refresh (now : N) (th : Thread) : option Thread :=
  if th_pings th =? 0 then None
  else if th_last_count th =? th_count th then Some th
  else Some (mkThread now (th_count th) (th_count th) (th_pings th)).
Definition alarm (now timeout : N) (th : Thread) : Prop :=
  th_pings th ≠ 0 ∧ th_last_count th = th_count th ∧ timeout < now - th_last_time th.
#[local] Instance alarm_dec now timeout th : Decision (alarm now timeout th).
Proof. unfold alarm. apply _. Defined.

Lemma check_thread_run now timeout id w :
  (∀ th, wd_threads w !! id = Some th → ¬ alarm now timeout th) →
  check_thread now timeout id w
  = (Ok (), set_threads (partial_alter (λ o, o ≫= refresh now) id (wd_threads w)) w).
Proof.
  intros Hno. unfold check_thread. rewrite (sm_bind_ok _ _ w w w) by done.
  assert (Hid : ∀ m : gmap N Thread, m !! id ≫= refresh now = m !! id → partial_alter (λ o, o ≫= refresh now) id m = m).
  { intros m Hm. apply map_eq. intros i. destruct (decide (i = id)) as [->|Hne].
    - by rewrite lookup_partial_alter_eq.
    - by rewrite lookup_partial_alter_ne. }
  destruct (wd_threads w !! id) as [th|] eqn:Hth.
  2:{ rewrite Hid by (by rewrite Hth). by destruct w. }
  specialize (Hno th eq_refl). unfold alarm in Hno.
  destruct (N.eqb_spec (th_pings th) 0) as [Hp|Hp].
  { unfold sm_put. do 2 f_equal. apply map_eq. intros i. destruct (decide (i = id)) as [->|Hne].
    - rewrite lookup_delete_eq, lookup_partial_alter_eq, Hth. cbn. unfold refresh. by rewrite (proj2 (N.eqb_eq _ _)).
    - by rewrite lookup_delete_ne, lookup_partial_alter_ne by done. }
  destruct (N.eqb_spec (th_last_count th) (th_count th)) as [Hc|Hc]; cbn [negb].
  - destruct (N.ltb_spec timeout (now - th_last_time th)); [naive_solver|].
    rewrite Hid; [by destruct w|]. rewrite Hth. cbn. unfold refresh. by rewrite (proj2 (N.eqb_neq _ _)), (proj2 (N.eqb_eq _ _)).
  - unfold sm_put. do 2 f_equal. apply map_eq. intros i. destruct (decide (i = id)) as [->|Hne].
    + rewrite lookup_insert_eq, lookup_partial_alter_eq, Hth. cbn. unfold refresh. by rewrite !(proj2 (N.eqb_neq _ _)).
    + by rewrite lookup_insert_ne, lookup_partial_alter_ne by done.
Qed.

Lemma check_thread_alarm now timeout id w th :
  wd_threads w !! id = Some th → alarm now timeout th → check_thread now timeout id w = (Throw Fatal, w).
Proof.
  intros Hth (Hp & Hc & Ht). unfold check_thread. rewrite (sm_bind_ok _ _ w w w), Hth by done.
  by rewrite (proj2 (N.eqb_neq _ 0) Hp), (proj2 (N.eqb_eq _ _) Hc), (proj2 (N.ltb_lt _ _) Ht).
Qed.

Lemma check_iter now timeout l w :
  NoDup l → (∀ id th, id ∈ l → wd_threads w !! id = Some th → ¬ alarm now timeout th) →
  ∃ w', sm_iter (check_thread now timeout) l w = (Ok (), w') ∧ wd_stopped w' = wd_stopped w ∧
    ∀ id, wd_threads w' !! id = if decide (id ∈ l) then wd_threads w !! id ≫= refresh now else wd_threads w !! id.
Proof.
  revert w. induction l as [|x l IH]; intros w Hnd Hno.
  { exists w. split; [done|]. split; [done|]. intros id. by rewrite decide_False by apply not_elem_of_nil. }
  apply NoDup_cons in Hnd as [Hx Hnd]. cbn [sm_iter].
  rewrite (sm_bind_ok _ _ _ _ _ (check_thread_run now timeout x w (λ th, Hno x th ltac:(by left)))).
  set (w1 := set_threads _ w).
  assert (Hw1 : ∀ id, id ≠ x → wd_threads w1 !! id = wd_threads w !! id).
  { intros id Hne. unfold w1. cbn [wd_threads set_threads]. by rewrite lookup_partial_alter_ne. }
  destruct (IH w1 Hnd) as (w' & Hrun & Hs & Hl).
  { intros id th Hid. rewrite Hw1 by (by intros ->). apply Hno. by right. }
  exists w'. split; [done|]. split; [done|]. intros id. rewrite Hl. destruct (decide (id = x)) as [->|Hne].
  - rewrite decide_False by done. rewrite decide_True by (by left). unfold w1. cbn [wd_threads set_threads].
    by rewrite lookup_partial_alter_eq.
  - rewrite Hw1 by done. destruct (decide (id ∈ l)).
    + by rewrite decide_True by (by right).
    + by rewrite decide_False by (rewrite elem_of_cons; naive_solver).
Qed.

Lemma check_iter_alarm now timeout l w id th :
  NoDup l → id ∈ l → wd_threads w !! id = Some th → alarm now timeout th →
  ∃ w', sm_iter (check_thread now timeout) l w = (Throw Fatal, w').
Proof.
  revert w. induction l as [|x l IH]; intros w Hnd Hid Hth Hal; [by apply elem_of_nil in Hid|].
  apply NoDup_cons in Hnd as [Hx Hnd]. cbn [sm_iter].
  assert ((∃ thx, wd_threads w !! x = Some thx ∧ alarm now timeout thx) ∨
          ¬ ∃ thx, wd_threads w !! x = Some thx ∧ alarm now timeout thx) as [(thx & Hthx & Halx)|Hno].
  { destruct (wd_threads w !! x) as [thx|]; [|right; naive_solver]. destruct (decide (alarm now timeout thx)); naive_solver. }
  { exists w. apply sm_bind_throw. by eapply check_thread_alarm. }
  assert (Hne : id ≠ x) by (intros ->; eauto).
  erewrite sm_bind_ok by (apply check_thread_run; naive_solver). apply IH; [done|set_solver| |done].
  cbn [wd_threads set_threads]. by rewrite lookup_partial_alter_ne.
Qed.

Lemma ids_nodup w : NoDup (iteration (wd_threads w)).*1.
Proof. rewrite iteration_perm. apply NoDup_fst_map_to_list. Qed.
Lemma ids_elem w id th : wd_threads w !! id = Some th → id ∈ (iteration (wd_threads w)).*1.
Proof.
  intros Hth. apply list_elem_of_fmap. exists (id, th). split; [done|]. rewrite iteration_perm. by apply elem_of_map_to_list.
Qed.

Lemma check_ok now timeout w :
  (∀ id th, wd_threads w !! id = Some th → ¬ alarm now timeout th) →
  ∃ w', check now timeout w = (Ok (), w') ∧ wd_stopped w' = wd_stopped w ∧ wd_threads w' = omap (refresh now) (wd_threads w).
Proof.
  intros Hno. destruct (check_iter now timeout (iteration (wd_threads w)).*1 w (ids_nodup w)) as (w' & Hrun & Hs & Hl); [naive_solver|].
  exists w'. split; [exact Hrun|]. split; [done|]. apply map_eq. intros id. rewrite Hl, lookup_omap.
  destruct (wd_threads w !! id) as [th|] eqn:Hth; [|by case_decide]. by rewrite decide_True by (by eapply ids_elem).
Qed.
Lemma check_aborts now timeout w id th :
  wd_threads w !! id = Some th → alarm now timeout th → ∃ w', check now timeout w = (Throw Fatal, w').
Proof. intros Hth Hal. eapply check_iter_alarm; [apply ids_nodup|by eapply ids_elem|done|done]. Qed.
Lemma check_ok_inv now timeout w w' :
  check now timeout w = (Ok (), w') → wd_stopped w' = wd_stopped w ∧ wd_threads w' = omap (refresh now) (wd_threads w).
Proof.
  intros Hrun. destruct (check_ok now timeout w) as (w2 & Hrun' & Hrest).
  - intros id th Hth Hal. destruct (check_aborts now timeout w id th Hth Hal) as [w2 Hab]. congruence.
  - rewrite Hrun' in Hrun. by injection Hrun as <-.
Qed.

(** ** Executions

    [watched t w beats k]: the watchdog [w] at time [t], with the time of the last beat of every
    thread, its registration or a call of its Ping, and [k] calls in total. *)
Inductive watched : N → Watchdog → gmap N N → N → Prop :=
| watched_new t : watched t Watchdog_new ∅ 0
| watched_add t now id w beats k :
    watched t w beats k → t ≤ now →
    watched now (wd_add now id w) (match wd_threads w !! id with Some _ => beats | None => <[id := now]> beats end) k
| watched_ping t now id w beats k :
    watched t w beats k → t ≤ now → watched now (wd_ping id w) (<[id := now]> beats) (k + 1)
| watched_drop t now id w beats k : watched t w beats k → t ≤ now → watched now (wd_drop id w) beats k
| watched_stop t now w beats k : watched t w beats k → t ≤ now → watched now (wd_stop w) beats k
| watched_check t now timeout w w' beats k :
    watched t w beats k → t ≤ now → check now timeout w = (Ok (), w') → watched now w' beats k.

(** The counters of an entry: [n] calls, of which the last check that saw a change saw [m]. *)
Definition entry_ok (t : N) (beats : gmap N N) (k : N) (id : N) (th : Thread) : Prop :=
  th_last_time th ≤ t ∧ ∃ n m p, m ≤ n ∧ n ≤ k ∧ th_count th = n mod 2 ^ 32 ∧ th_last_count th = m mod 2 ^ 32 ∧
    beats !! id = Some p ∧ p ≤ t ∧ (n = m → p ≤ th_last_time th).

Lemma entry_ok_later t now beats k k' id th :
  t ≤ now → k ≤ k' → entry_ok t beats k id th → entry_ok now beats k' id th.
Proof. intros Ht Hk (Hl & n & m & p & Hrest). split; [lia|]. exists n, m, p. naive_solver lia. Qed.
Lemma entry_ok_pings t beats k id th x :
  entry_ok t beats k id th → entry_ok t beats k id (mkThread (th_last_time th) (th_last_count th) (th_count th) x).
Proof. done. Qed.
Lemma entry_ok_beats t beats k id id' th x :
  id ≠ id' → entry_ok t beats k id th → entry_ok t (<[id' := x]> beats) k id th.
Proof. intros Hne (Hl & n & m & p & Hrest). split; [done|]. exists n, m, p. rewrite lookup_insert_ne by done. done. Qed.

Lemma watched_ok t w beats k : watched t w beats k → ∀ id th, wd_threads w !! id = Some th → entry_ok t beats k id th.
Proof.
  induction 1 as [t|t now id' w beats k _ IH Ht|t now id' w beats k _ IH Ht|t now id' w beats k _ IH Ht|
    t now w beats k _ IH Ht|t now timeout w w' beats k _ IH Ht Hrun]; intros id th Hth.
  - cbn [Watchdog_new wd_threads] in Hth. by rewrite lookup_empty in Hth.
  - cbn [wd_add set_threads wd_threads] in Hth. apply lookup_insert_Some in Hth as [[-> <-]|[Hne Hth]].
    + apply entry_ok_pings. destruct (wd_threads w !! id) as [th0|] eqn:Hold.
      * eapply entry_ok_later; [done|done|by apply IH].
      * split; [done|]. exists 0, 0, now. rewrite lookup_insert_eq. naive_solver lia.
    + apply (entry_ok_later t now _ k k); [done|done|]. destruct (wd_threads w !! id') eqn:Hold; [by apply IH|].
      apply entry_ok_beats; [done|by apply IH].
  - cbn [wd_ping set_threads wd_threads] in Hth. apply lookup_alter_Some in Hth as [(-> & th0 & Hth0 & ->)|[Hne Hth]].
    + destruct (IH id th0 Hth0) as (Hl & n & m & p & Hmn & Hnk & Hc & Hlc & _). split; [cbn; lia|].
      exists (n + 1), m, now. rewrite lookup_insert_eq. cbn [th_count th_last_count th_last_time].
      split; [lia|]. split; [lia|]. split; [by rewrite Hc, N.Div0.add_mod_idemp_l|]. split; [done|]. split; [done|]. lia.
    + apply entry_ok_beats; [done|]. apply (entry_ok_later t now _ k (k + 1)); [done|lia|by apply IH].
  - cbn [wd_drop set_threads wd_threads] in Hth. apply lookup_alter_Some in Hth as [(-> & th0 & Hth0 & ->)|[Hne Hth]].
    + apply entry_ok_pings. eapply entry_ok_later; [done|done|by apply IH].
    + eapply entry_ok_later; [done|done|by apply IH].
  - eapply entry_ok_later; [done|done|by apply IH].
  - apply check_ok_inv in Hrun as [_ Hthreads]. rewrite Hthreads, lookup_omap in Hth.
    destruct (wd_threads w !! id) as [th0|] eqn:Hth0; [|done]. cbn in Hth. unfold refresh in Hth.
    destruct (IH id th0 Hth0) as (Hl & n & m & p & Hmn & Hnk & Hc & Hlc & Hb & Hp & Hnm).
    destruct (_ =? 0); [done|]. destruct (_ =? _); injection Hth as <-.
    + apply (entry_ok_later t now beats k k); [done|done|by apply IH].
    + split; [done|]. exists n, n, p. cbn [th_count th_last_count th_last_time]. split_and!; try done; lia.
Qed.

(** Steps in which the thread [id] neither calls nor gives up its Ping. *)
Inductive silent (id : N) : N → Watchdog → N → Watchdog → Prop :=
| silent_refl t w : silent id t w t w
| silent_add t w t1 w1 now id' : silent id t w t1 w1 → t1 ≤ now → silent id t w now (wd_add now id' w1)
| silent_ping t w t1 w1 now id' : silent id t w t1 w1 → t1 ≤ now → id' ≠ id → silent id t w now (wd_ping id' w1)
| silent_drop t w t1 w1 now id' : silent id t w t1 w1 → t1 ≤ now → id' ≠ id → silent id t w now (wd_drop id' w1)
| silent_stop t w t1 w1 now : silent id t w t1 w1 → t1 ≤ now → silent id t w now (wd_stop w1)
| silent_check t w t1 w1 now timeout w2 :
    silent id t w t1 w1 → t1 ≤ now → check now timeout w1 = (Ok (), w2) → silent id t w now w2.

(** An entry whose counter has not moved since the check at [c] or before. *)
Definition stalled (c : N) (o : option Thread) : Prop :=
  ∃ th, o = Some th ∧ th_pings th ≠ 0 ∧ th_last_count th = th_count th ∧ th_last_time th ≤ c.

Lemma refresh_stalled c now th : th_pings th ≠ 0 → th_last_time th ≤ c → c ≤ now → stalled now (refresh now th).
Proof.
  intros Hp Hl Hc. unfold refresh. rewrite (proj2 (N.eqb_neq _ 0)) by done.
  destruct (N.eqb_spec (th_last_count th) (th_count th)); eexists; (split; [done|]); cbn; split_and!; try done; lia.
Qed.
Lemma silent_stalled id c t w t1 w1 :
  silent id t w t1 w1 → stalled c (wd_threads w !! id) → stalled c (wd_threads w1 !! id).
Proof.
  intros Hs H0. induction Hs as [|t w t1 w1 now id' _ IH _|t w t1 w1 now id' _ IH _ Hne|t w t1 w1 now id' _ IH _ Hne|
    t w t1 w1 now _ IH _|t w t1 w1 now timeout w2 _ IH _ Hrun]; try (specialize (IH H0) as (th & Hth & Hp & Hc & Hl)); [done|..].
  - cbn [wd_add set_threads wd_threads]. destruct (decide (id' = id)) as [->|Hne].
    + rewrite Hth, lookup_insert_eq. eexists. split; [done|]. cbn. split; [lia|done].
    + rewrite lookup_insert_ne by done. by exists th.
  - cbn [wd_ping set_threads wd_threads]. rewrite lookup_alter_ne by done. by exists th.
  - cbn [wd_drop set_threads wd_threads]. rewrite lookup_alter_ne by done. by exists th.
  - by exists th.
  - apply check_ok_inv in Hrun as [_ ->]. rewrite lookup_omap, Hth. cbn. unfold refresh.
    rewrite (proj2 (N.eqb_neq _ 0) Hp), (proj2 (N.eqb_eq _ _) Hc). by exists th.
Qed.

(** C38: the watchdog is right about every thread it watches.  It does not abort the process when each thread that
    holds a Ping has registered or called it within the timeout (and fewer than 2^32 calls were made in
    all, since the counter wraps).  And a thread that holds a Ping and does not call it is noticed: when
    a check has passed at time [c], a check more than the timeout later aborts the process, whatever
    the other threads do in between. *)
Theorem watchdog_correct t w beats k now timeout :
  watched t w beats k → t ≤ now →
  (k < 2 ^ 32 →
   (∀ id th, wd_threads w !! id = Some th → th_pings th ≠ 0 →
      ∃ p, beats !! id = Some p ∧ now - p ≤ timeout) →
   ∃ w', check now timeout w = (Ok (), w') ∧ wd_threads w' = omap (refresh now) (wd_threads w)) ∧
  (∀ id th w1 later w2 last,
     wd_threads w !! id = Some th → th_pings th ≠ 0 →
     check now timeout w = (Ok (), w1) → silent id now w1 later w2 → now + timeout < last →
     ∃ w3, check last timeout w2 = (Throw Fatal, w3)).
Proof.
  intros Hw Ht. split.
  - intros Hk Hbeats. destruct (check_ok now timeout w) as (w' & Hrun & _ & Hthreads); [|by exists w'].
    intros id th Hth (Hp & Hc & Hlag). destruct (Hbeats id th Hth Hp) as (p & Hb & Hnow).
    destruct (watched_ok t w beats k Hw id th Hth) as (_ & n & m & p' & Hmn & Hnk & Hcn & Hcm & Hb' & _ & Hle).
    rewrite Hb in Hb'. injection Hb' as <-.
    assert (n = m) as Hnm by (rewrite Hcn, Hcm in Hc; rewrite !N.mod_small in Hc by lia; done).
    specialize (Hle Hnm). lia.
  - intros id th w1 later w2 final Hth Hp Hrun Hsil Hlate.
    destruct (watched_ok t w beats k Hw id th Hth) as (Hl & _).
    apply check_ok_inv in Hrun as [_ Hthreads].
    assert (Hst : stalled now (wd_threads w2 !! id)).
    { eapply silent_stalled; [exact Hsil|]. rewrite Hthreads, lookup_omap, Hth. cbn. by eapply (refresh_stalled t). }
    destruct Hst as (th2 & Hth2 & Hp2 & Hc2 & Hl2). eapply check_aborts; [exact Hth2|]. split_and!; [done|done|lia].
Qed.

(** ** The application *)
Definition app_reachable : Application → Prop := rtc app_step app_init.

Record app_ok (s : Application) : Prop := {
  ao_start : ap_watch s = WatchNone ↔ ap_main s = MainStart;
  ao_stopped : ap_main s = MainJoining ∨ ap_main s = MainDone → wd_stopped (ap_watchdog s) = true;
  ao_done : ap_main s = MainDone → ap_watch s = WatchDone;
  ao_none : wd_stopped (ap_watchdog s) = false → ap_checks s = 0;
  ao_sleep : ap_watch s = WatchSleep → ap_checks s = 0;
  ao_checks : ap_checks s ≤ 1;
  ao_threads : wd_threads (ap_watchdog s) = ∅;
}.

Lemma app_step_ok s s' : app_ok s → app_step s s' → app_ok s'.
Proof.
  intros [H1 H2 H3 H4 H5 H6 H7] Hstep.
  destruct Hstep as [w n|t w n|t w n|t w n|w n|m w n Hs|m w n Hs|m now w w' n Hrun]; cbn in *.
  1-7: constructor; cbn; naive_solver.
  apply check_ok_inv in Hrun as [Hs Hth]. rewrite H7, omap_empty in Hth. specialize (H5 eq_refl) as ->.
  constructor; cbn; rewrite ?Hs.
  - split; [done|]. by intros Hm%H1.
  - done.
  - by intros Hm%H3.
  - by intros ->.
  - done.
  - destruct (wd_stopped w); lia.
  - done.
Qed.
Lemma app_reachable_ok s : app_reachable s → app_ok s.
Proof.
  intros Hr. assert (Hgen : ∀ s1 s2, rtc app_step s1 s2 → app_ok s1 → app_ok s2).
  { intros s1 s2. induction 1; [done|]. eauto using app_step_ok. }
  apply (Hgen _ _ Hr). constructor; cbn; naive_solver lia.
Qed.

(** The steps left once the main thread waits for the watchdog's thread. *)
Definition steps_left (s : Application) : nat :=
  match ap_main s with
  | MainDone => 0
  | _ => match ap_watch s with WatchNone => 4 | WatchSleep => 3 | WatchTest => 2 | WatchDone => 1 end
  end.

(** ApplicationImpl::run returns.  Once the state manager has returned and the watchdog is stopped, the main
    thread waits for the watchdog's thread, which makes at most one more check and ends: every step brings
    the end nearer, a step is always possible until the end, and there the thread has ended.  No thread
    is registered with the watchdog, so it never aborts the node. *)
Theorem application_ends s :
  app_reachable s →
  ap_checks s ≤ 1 ∧ (ap_main s = MainDone → ap_watch s = WatchDone) ∧
  (∀ now, ∃ w', check now kWatchdogDefaultTimeout (ap_watchdog s) = (Ok (), w')) ∧
  (ap_main s = MainJoining →
   (∀ s', app_step s s' → (steps_left s' < steps_left s)%nat) ∧ (∃ s', app_step s s') ∧ (steps_left s ≤ 3)%nat).
Proof.
  intros Hr. apply app_reachable_ok in Hr as Hok. destruct Hok as [H1 H2 H3 H4 H5 H6 H7].
  assert (Hcheck : ∀ now, ∃ w', check now kWatchdogDefaultTimeout (ap_watchdog s) = (Ok (), w')).
  { intros now. destruct (check_ok now kWatchdogDefaultTimeout (ap_watchdog s)) as (w' & Hrun & _); [|by exists w'].
    intros id th. by rewrite H7, lookup_empty. }
  split; [done|]. split; [done|]. split; [done|]. intros Hm.
  destruct s as [m t w n]. cbn in *. subst m. specialize (H2 (or_introl eq_refl)). split; [|split].
  - intros s' Hstep. inv Hstep; cbn; try lia; congruence.
  - destruct t.
    + by destruct H1 as [H1 _]; specialize (H1 eq_refl).
    + eexists. by apply app_test_stop.
    + destruct (Hcheck 0) as [w' Hw']. eexists. by eapply (app_check _ 0).
    + eexists. apply app_join.
  - cbn. destruct t; try lia. by destruct H1 as [H1 _]; specialize (H1 eq_refl).
Qed.
End proofs.

Module WatchEx.
#[local] Existing Instance CanonicalOrder.

(** A thread registers at time 0, calls its Ping at 3 and then stops. *)
Definition w0 : Watchdog := wd_ping 7 (wd_add 0 7 Watchdog_new).
Lemma w0_watched : watched 3 w0 {[7 := 3]} 1.
Proof.
  exact (watched_ping 0 3 7 _ _ 0 (watched_add 0 0 7 _ _ 0 (watched_new 0) (N.le_refl 0)) ltac:(lia)).
Qed.
Lemma watchdog_correct_witness :
  (∃ w', check 12 10 w0 = (Ok (), w')) ∧
  (∃ w1 w3, check 12 10 w0 = (Ok (), w1) ∧ check 23 10 (wd_add 20 8 w1) = (Throw Fatal, w3)).
Proof.
  destruct (watchdog_correct 3 w0 _ 1 12 10 w0_watched ltac:(lia)) as [Hno Hyes].
  destruct Hno as (w1 & Hrun & _).
  - done.
  - intros id th Hth Hp. exists 3. assert (id = 7) as ->; [|split; [done|lia]].
    destruct (decide (id = 7)) as [->|Hne]; [done|]. unfold w0 in Hth. cbn in Hth.
    by rewrite lookup_alter_ne, lookup_insert_ne, lookup_empty in Hth by done.
  - split; [exists w1; exact Hrun|].
    destruct (Hyes 7 (mkThread 0 0 1 1) w1 20 (wd_add 20 8 w1) 23) as (w3 & H3); [by vm_compute|done|exact Hrun| |lia|].
    + eapply silent_add; [apply silent_refl|lia].
    + exists w1, w3. exact (conj Hrun H3).
Defined.

Lemma application_ends_witness :
  (ap_checks (mkApplication MainJoining WatchTest (wd_stop Watchdog_new) 0) ≤ 1) ∧
  ∃ s', app_step (mkApplication MainJoining WatchTest (wd_stop Watchdog_new) 0) s'.
Proof.
  destruct (application_ends (mkApplication MainJoining WatchTest (wd_stop Watchdog_new) 0)) as (H1 & _ & _ & Hj).
  - eapply rtc_l; [apply app_spawn|]. eapply rtc_l; [apply app_returned|]. eapply rtc_once, app_stop.
  - split; [exact H1|]. apply Hj. exact eq_refl.
Defined.
End WatchEx.
