(* ===== verification/Production.v ===== *)
(** * Timeline and block production (src/src/app/impl/timeline_impl.cpp,
    src/src/modules/production/production.cpp)

    The timeline announces each interval by a delayed event to itself and to the production
    module, which advances the fork choice store to the current time and sends what it
    produced.  Times are milliseconds of the system clock, delays microseconds.  printSlot
    and the log messages are left out. *)

From S2P Require Import Prelude Errors Types Stf CachedTree CachedTreeProofs CachedTreeOps.
From S2P Require Import CachedTreeTheorems Storage BlockStorage BlockStorageSpec BlockTree BlockTreeProofs.
From S2P Require Import LruCache ForkChoice ForkChoiceBlocks ToyHash ToyStore ToyForkChoice.

(** ** Timeline *)

Notation Interval := Interval.Interval.

(** The delay of the event and the interval it announces; notifyDelayed takes
    microseconds. *)
Definition waitNextInterval (config : Config) (now : N) (interval : option Interval) : N * Interval :=
  let next_interval :=
    Interval.mkInterval (match interval with Some i => u64_add (Interval.interval i) 1 | None => 0 end) in
  let time_to_next_slot := (Z.of_N (Interval.time next_interval config) - Z.of_N now)%Z in
  (1000 * Z.to_N (Z.max 0 time_to_next_slot), next_interval).

Definition start (config : Config) (now : N) : N * Interval :=
  waitNextInterval config now (Interval.fromTime now config).

(** The handler of the timeline for the event [msg]; [None]: no further event *)
Definition timeline_on_slot_interval_started (config : Config) (stopped : bool) (now : N) (msg : Interval)
    : option (N * Interval) :=
  if stopped then None else Some (waitNextInterval config now (Some msg)).

(** [timeline_run config t0 announced pending]: started at [t0], the timeline has handled
    the events [announced], each with the time at which its handler read the clock, and
    waits for the event [pending], due at a time in microseconds.  An event is not handled
    before it is due. *)
Inductive timeline_run (config : Config) (t0 : N) : list (N * Interval) → option (N * Interval) → Prop :=
| run_start :
    timeline_run config t0 [] (Some (1000 * t0 + (start config t0).1, (start config t0).2))
| run_event announced due i t stopped :
    timeline_run config t0 announced (Some (due, i)) → due ≤ 1000 * t →
    timeline_run config t0 (announced ++ [(t, i)])
      ((λ x, (1000 * t + x.1, x.2)) <$> timeline_on_slot_interval_started config stopped t i).

(** ** Production *)

Section production.
Context {S : Type} `{BlockStorage S} `{BuildMode} `{SszHash} `{UnorderedMap}.
Context `{XmssProvider} `{NodeKeys} `{LoopFuel}.

(** The visitor: every action is dispatched; a block is also added to the tree, and an error
    of that is logged. *)
Definition dispatch_action (vote_or_block : OnTickAction) : SM (ForkChoiceStore S) error () :=
  match vote_or_block with
  | ActAttestation _ | ActAggregated _ => mret ()
  | ActBlock v => log_error (block_tree (addBlock v))
  end.

(** The handler of the production module; its result are the messages dispatched. *)
Definition on_slot_interval_started (now : N) : SM (ForkChoiceStore S) error (list OnTickAction) :=
  res ← onTick now;
  sm_iter dispatch_action res ≫= λ _, mret res.
End production.

(** ** Proofs *)

Section timeline.
Context (config : Config).

Lemma wait_due now interval :
  let '(delay, i) := waitNextInterval config now interval in
  1000 * now + delay = 1000 * N.max now (Interval.time i config).
Proof. cbn. lia. Qed.

(** The first interval announced *)
Definition first_interval (t0 : N) : N :=
  match Interval.fromTime t0 config with Some i => Interval.interval i + 1 | None => 0 end.

(** What the timeline waits for. *)
Definition pending_ok (t0 k : N) (pending : option (N * Interval)) : Prop :=
  match pending with
  | None => True
  | Some (due, i) => Interval.interval i = first_interval t0 + k ∧ 1000 * Interval.time i config ≤ due
  end.

(** The timeline announces every interval: started at any time, it announces first
    interval 0 before genesis and the interval after the current one later, then the
    following ones without a gap or a repetition, and none before it begins. *)
Theorem timeline_announces_all t0 announced pending :
  timeline_run config t0 announced pending →
  first_interval t0 + lengthN announced < two64 →
  (λ x, Interval.interval x.2) <$> announced = seqN (first_interval t0) (lengthN announced) ∧
  Forall (λ x, Interval.time x.2 config ≤ x.1) announced ∧
  pending_ok t0 (lengthN announced) pending.
Proof.
  induction 1 as [|announced due i t stopped Hrun IH Hdue]; intros Hb.
  - split; [done|]. split; [constructor|]. unfold start, pending_ok. pose proof (wait_due t0 (Interval.fromTime t0 config)) as Hd.
    destruct (waitNextInterval config t0 (Interval.fromTime t0 config)) as [delay j] eqn:Hw. cbn. split; [|lia].
    unfold waitNextInterval in Hw. injection Hw as _ <-. unfold first_interval, lengthN in *. cbn [length Interval.interval] in *.
    destruct (Interval.fromTime t0 config) as [i0|]; [rewrite u64_add_small by lia|]; lia.
  - assert (Hlen : lengthN (announced ++ [(t, i)]) = lengthN announced + 1) by (unfold lengthN; rewrite length_app; cbn; lia).
    rewrite Hlen in Hb |- *. destruct IH as (Hmap & Hall & Hi & Hd); [lia|].
    split_and!.
    + by rewrite N.add_1_r, fmap_app, Hmap, seqN_snoc, <- Hi.
    + apply Forall_app. split; [done|]. constructor; [cbn; lia|constructor].
    + unfold timeline_on_slot_interval_started. destruct stopped; [done|]. cbn -[waitNextInterval].
      pose proof (wait_due t (Some i)) as Hw. destruct (waitNextInterval config t (Some i)) as [delay j] eqn:Heq.
      cbn. split; [|lia]. unfold waitNextInterval in Heq. injection Heq as _ <-. cbn. rewrite u64_add_small; lia.
Qed.
End timeline.

Section production_theorems.
Context {S : Type} `{!SszHash} `{!BlockStorage S} `{!BlockStorageLaws S} `{!BuildMode} `{!UnorderedMap}.
Context `{!XmssProvider} `{!NodeKeys} `{!LoopFuel}.
Implicit Types s : ForkChoiceStore S.

Lemma keeps_dispatch a : keeps_frame (S := S) (dispatch_action a).
Proof. unfold dispatch_action, log_error. keeps. Qed.

(** When an interval is announced the fork choice store catches up with it: if the handler
    of the production module, called at or after the beginning of interval [i], returns,
    the clock of the store shows at least [i], the messages it dispatched are the actions
    of onTick, and adding the produced blocks again changed neither the clock nor the
    configuration. *)
Theorem production_follows_timeline now i s msgs s' :
  Interval.interval (fc_time s) < two64 → Interval.time i (fc_config s) ≤ now →
  now < Interval.genesisTimeMs (fc_config s) + two64 * INTERVAL_DURATION_MS →
  on_slot_interval_started now s = (Ok msgs, s') →
  Interval.interval i ≤ Interval.interval (fc_time s') ∧ fc_config s' = fc_config s ∧
  ∃ s1, onTick now s = (Ok msgs, s1) ∧ frame s1 s'.
Proof.
  intros Hb Hi Hnow Hrun. unfold on_slot_interval_started in Hrun.
  pose proof (onTick_time now s Hb) as Htime. unfold mbind, sm_bind in Hrun.
  destruct (onTick now s) as [[acts|e|x] s1]; [|done..].
  pose proof (keeps_iter dispatch_action acts keeps_dispatch s1) as Hk.
  destruct (sm_iter dispatch_action acts s1) as [[[]|e|x] s2]; [|done..]. cbn in Hk, Hrun.
  injection Hrun as <- <-. unfold Interval.fromTime in Htime.
  destruct (N.ltb_spec now (Interval.genesisTimeMs (fc_config s))) as [Hlt|Hge].
  { unfold Interval.time in Hi. lia. }
  destruct Htime as (_ & _ & Hfr & Hmax). rewrite (fr_time _ _ Hk). cbn in Hmax. split_and!.
  - rewrite Hmax. etrans; [|apply N.le_max_r]. rewrite u64_small.
    + apply N.div_le_lower_bound; [done|]. unfold Interval.time in Hi. lia.
    + apply N.Div0.div_lt_upper_bound. lia.
  - rewrite (fr_config _ _ Hk), (fr_config _ _ Hfr). done.
  - by exists s1.
Qed.

(** A produced block is added twice, by onTick and again by the production module: adding
    a block that the tree has, with its parent, succeeds, leaves the tree and every stored
    block as they were, and tells the subscribers a second time that the block was added. *)
Theorem produced_block_added_again sb n pn p t g ev a :
  at_state t g ev p a → bt_wf t a →
  ct_nodes t !! block_hash (sb_block sb) = Some n → tn_index n = block_index (sb_block sb) →
  ct_nodes t !! b_parent_root (sb_block sb) = Some pn → b_slot (sb_block sb) < two64 →
  a_header a (block_hash (sb_block sb)) = Some (getHeader (sb_block sb)) →
  a_body a (block_hash (sb_block sb)) = Some (b_body (sb_block sb)) →
  a_signatures a (block_hash (sb_block sb)) = Some (sb_signature sb) →
  ∃ a', bt_runs (addBlock sb) p (Ok ()) t g
      (ev ++ [BlockAdded (getHeader (sb_block sb)) (bool_decide (block_index (sb_block sb) = ct_best t))]) a' ∧
    bt_wf t a' ∧
    ∀ x, a_header a' x = a_header a x ∧ a_body a' x = a_body a x ∧ a_signatures a' x = a_signatures a x ∧
      a_state a' x = a_state a x.
Proof.
  intros Hp Hwf Hn Hidx Hpn Hfit Hh Hb Hs. set (block := sb_block sb) in *.
  pose proof (nw_key _ _ (tw_nodes _ (bw_tree _ _ Hwf)) _ _ Hpn) as Hkey.
  set (a1 := abs_put_block (getHeader block) (signed_block_data sb) a).
  set (a2 := abs_set_leaves (sort_hashes (leafHashes t)) a1).
  assert (Hupd : ∀ {V} (m : BlockHash → option V) v x, m (block_hash block) = Some v → upd (block_hash block) (Some v) m x = m x).
  { intros V m v x Hm. unfold upd. case_decide as Heq; [by subst|done]. }
  assert (Hsame : ∀ x, a_header a2 x = a_header a x ∧ a_body a2 x = a_body a x ∧ a_signatures a2 x = a_signatures a x ∧
      a_state a2 x = a_state a x).
  { intros x. unfold a2, a1, abs_put_block, signed_block_data. cbn. fold block. fold (block_hash block). by rewrite !Hupd. }
  exists a2. split_and!; [|..|done].
  - unfold addBlock. eapply bt_bind; [by apply bt_get_tree|]. intros p1 Hp1. unfold find. fold block. rewrite Hpn. simpl.
    fold (signed_block_data sb).
    eapply bt_bind; [eapply bt_storage_op; [done|]; apply (law_putBlock _ a _ (getHeader block)); [apply Hp1|done|done]|].
    intros p2 Hp2. rewrite N.eqb_refl, boost_assert_true. eapply bt_bind; [by apply bt_lift|]. intros p3 Hp3.
    eapply (bt_bind _ _ _ ()) with (a := a2).
    { unfold add_node. eapply bt_bind; [by apply bt_get_tree|]. intros p4 Hp4. unfold deref. rewrite Hkey, Hpn.
      eapply bt_bind; [by apply bt_lift|]. intros p5 Hp5.
      eapply bt_bind; [eapply bt_on_tree; [done|]; by eapply add_existing|]. intros p6 Hp6.
      by apply (bt_reorgAndPrune (mkReorgAndPrune None [])). }
    intros p4 Hp4. eapply (bt_bind _ _ _ (ct_best t)).
    { eapply bt_bind; [by apply bt_get_tree|]. intros p5 Hp5. by apply bt_ret. }
    intros p5 Hp5. by apply bt_notify.
  - constructor; [apply (bw_tree _ _ Hwf)|]. intros q Hq. destruct (bw_headers _ _ Hwf q Hq) as (hd & Hhd & Hrest).
    exists hd. by rewrite (proj1 (Hsame (bi_hash q))).
Qed.
End production_theorems.

Module ProdEx.
Import FcStore.
#[local] Existing Instance ReleaseBuild.
#[local] Existing Instance CanonicalOrder.
#[local] Existing Instance ToyXmss.
#[local] Existing Instance ToyKeys.
#[local] Existing Instance ToyFuel.

(** Genesis is at 1000 s: started half a second before, two events. *)
Lemma example_run :
  timeline_run Ex.config 999500 [(1000003, Interval.mkInterval 0); (1000810, Interval.mkInterval 1)]
    (Some (1001600000, Interval.mkInterval 2)).
Proof.
  apply (run_event Ex.config 999500 [(1000003, Interval.mkInterval 0)] 1000800000 (Interval.mkInterval 1) 1000810 false);
    [|by vm_compute].
  apply (run_event Ex.config 999500 [] 1000000000 (Interval.mkInterval 0) 1000003 false); [|by vm_compute].
  apply run_start.
Qed.

Lemma timeline_announces_all_witness :
  Forall (λ x, Interval.time x.2 Ex.config ≤ x.1) [(1000003, Interval.mkInterval 0); (1000810, Interval.mkInterval 1)].
Proof. exact (proj1 (proj2 (timeline_announces_all Ex.config _ _ _ example_run eq_refl))). Defined.

Lemma production_follows_timeline_witness :
  ∃ msgs s', on_slot_interval_started 1018000 s_ex = (Ok msgs, s') ∧ 22 ≤ Interval.interval (fc_time s').
Proof.
  destruct (on_slot_interval_started 1018000 s_ex) as [[msgs|e|x] s'] eqn:Hrun.
  - exists msgs, s'. split; [reflexivity|].
    exact (proj1 (production_follows_timeline 1018000 (Interval.mkInterval 22) s_ex msgs s' eq_refl
                    ltac:(by vm_compute) ltac:(by vm_compute) Hrun)).
  - by vm_compute in Hrun.
  - by vm_compute in Hrun.
Defined.

Lemma produced_block_added_again_witness : ∃ p', addBlock child p1 = (Ok (), p').
Proof.
  destruct (addBlock_spec child (TreeNode_root genesis_index) (root_data genesis) _ _ _ _
    (root_at genesis eq_refl) (root_wf genesis))
    as (t & a & (p & Hrun & Hp) & Hwf & Hroot & _ & Hval & Hpar & Hh & Hb & Hs & _); [by vm_compute..|].
  assert (Hv : valid (ct_nodes t) child_index) by (apply Hval; left; reflexivity).
  assert (Hg : valid (ct_nodes t) genesis_index).
  { change genesis_index with (ct_root (CachedTree_new genesis_index)). rewrite <- Hroot.
    destruct (nw_root _ _ (tw_nodes _ (bw_tree _ _ Hwf))) as (r & Hr & Hri & _). exists r. split; [exact Hr|exact Hri]. }
  destruct Hv as (n & Hn & Hi), Hg as (pn & Hpn & _).
  destruct (produced_block_added_again child n pn p1 t None (bt_events p1) a) as (a' & (p' & Hrun' & _) & _).
  - unfold p1. rewrite Hrun. cbn [snd]. destruct Hp as [Hr Ht Hg0 He]. constructor; [exact Hr|exact Ht|exact Hg0|exact eq_refl].
  - exact Hwf.
  - exact Hn.
  - exact Hi.
  - exact Hpn.
  - by vm_compute.
  - rewrite Hh. unfold upd. by rewrite decide_True.
  - rewrite Hb. unfold upd. by rewrite decide_True.
  - rewrite Hs. unfold upd. by rewrite decide_True.
  - exists p'. exact Hrun'.
Defined.
End ProdEx.
