(* ===== verification/Parsers.v ===== *)
(** * Quantities of the configuration (src/src/utils/parsers.hpp)

    Byte sizes and durations such as "10MB" or "2 hours".  A string is the list of its
    bytes; std::isdigit, std::isspace and std::tolower are those of the C locale. *)

From Stdlib Require Import Ascii String.
From S2P Require Import Prelude.

Abbreviation bytes := (list N).
Definition chars (s : string) : bytes := N_of_ascii <$> list_ascii_of_string s.
#[global] Arguments chars : simpl never.

Definition isdigit (c : N) : bool := (48 <=? c) && (c <=? 57).
Definition isspace (c : N) : bool := (c =? 32) || ((9 <=? c) && (c <=? 13)).
Definition tolower (c : N) : N := if (65 <=? c) && (c <=? 90) then c + 32 else c.

(** std::format of an unsigned 64-bit number *)
Fixpoint decimal_digits (fuel : nat) (n : N) : bytes :=
  match fuel with
  | O => []
  | S fuel => (if n <? 10 then [] else decimal_digits fuel (n / 10)) ++ [48 + n mod 10]
  end.
Definition decimal (n : N) : bytes := decimal_digits 20 n.

Fixpoint iequals (lhs rhs : bytes) : bool :=
  match lhs, rhs with
  | [], [] => true
  | l :: lhs, r :: rhs => (tolower l =? tolower r) && iequals lhs rhs
  | _, _ => false
  end.

(** The set " \t\n\r" *)
Definition whitespace : bytes := [32; 9; 10; 13].

Fixpoint find_first_not_of (set input : bytes) : option nat :=
  match input with
  | [] => None
  | c :: input => if bool_decide (c ∈ set) then S <$> find_first_not_of set input else Some O
  end.
Definition find_last_not_of (set input : bytes) : option nat :=
  (λ i : nat, (length input - 1 - i)%nat) <$> find_first_not_of set (rev input).

Definition substr (pos count : nat) (input : bytes) : bytes := take count (drop pos input).

(** The number of leading characters that satisfy [p] *)
Fixpoint count_while (p : N → bool) (input : bytes) : nat :=
  match input with
  | c :: input => if p c then S (count_while p input) else O
  | [] => O
  end.

(** std::from_chars of a uint64_t on digits *)
Definition digits_value (number_part : bytes) : N := foldl (λ v c, 10 * v + (c - 48)) 0 number_part.
Definition from_chars (number_part : bytes) : option N :=
  let v := digits_value number_part in if v <? two64 then Some v else None.

(** The common first part of the two parsers: the number and the suffix *)
Definition split_quantity (input : bytes) : option (N * bytes) :=
  first ← find_first_not_of whitespace input;
  last ← find_last_not_of whitespace input;
  let input := substr first (last - first + 1) input in
  let i := count_while isdigit input in
  if (i =? 0)%nat then None
  else
    let number_part := take i input in
    let input := drop i input in
    let suffix := drop (count_while isspace input) input in
    number ← from_chars number_part;
    Some (number, suffix).

(** The common last part: the loop over the table; UINT64_MAX / multiplier bounds the
    number *)
Fixpoint find_unit (units : list (bytes * N)) (number : N) (suffix : bytes) : option N :=
  match units with
  | [] => None
  | (table_suffix, multiplier) :: units =>
      if iequals table_suffix suffix then
        if (two64 - 1) / multiplier <? number then None else Some (u64_mul number multiplier)
      else find_unit units number suffix
  end.

Definition parse_quantity (units : list (bytes * N)) (input : bytes) : option N :=
  r ← split_quantity input;
  if bool_decide (r.2 = []) then Some r.1 else find_unit units r.1 r.2.

Definition byte_units : list (bytes * N) :=
  [(chars "b", 1);
   (chars "k", N.shiftl 1 10); (chars "kib", N.shiftl 1 10); (chars "kb", 1000);
   (chars "m", N.shiftl 1 20); (chars "mib", N.shiftl 1 20); (chars "mb", 1000 * 1000);
   (chars "g", N.shiftl 1 30); (chars "gib", N.shiftl 1 30); (chars "gb", 1000 * 1000 * 1000);
   (chars "t", N.shiftl 1 40); (chars "tib", N.shiftl 1 40); (chars "tb", 1000 * 1000 * 1000 * 1000)].

Definition parseByteQuantity (input : bytes) : option N := parse_quantity byte_units input.

Definition time_units : list (bytes * N) :=
  [(chars "s", 1); (chars "sec", 1); (chars "secs", 1); (chars "second", 1); (chars "seconds", 1);
   (chars "m", 60); (chars "min", 60); (chars "mins", 60); (chars "minute", 60); (chars "minutes", 60);
   (chars "h", 3600); (chars "hr", 3600); (chars "hrs", 3600); (chars "hour", 3600); (chars "hours", 3600);
   (chars "d", 86400); (chars "day", 86400); (chars "days", 86400);
   (chars "w", 604800); (chars "week", 604800); (chars "weeks", 604800)].

Definition parseTimeDuration (input : bytes) : option N := parse_quantity time_units input.

(** ** What the parsers accept *)

Definition is_ws (l : bytes) : Prop := Forall (λ c, c ∈ whitespace) l.

(** [input] reads as blanks, digits, spaces, a unit of the table (or none) and blanks, and
    [value] is the number in that unit. *)
Definition quantity (units : list (bytes * N)) (input : bytes) (value : N) : Prop :=
  ∃ ws1 ds sp suffix ws2 multiplier,
    input = ws1 ++ ds ++ sp ++ suffix ++ ws2 ∧
    is_ws ws1 ∧ is_ws ws2 ∧ ds ≠ [] ∧ Forall (λ c, isdigit c = true) ds ∧ Forall (λ c, isspace c = true) sp ∧
    ((suffix = [] ∧ multiplier = 1) ∨ ∃ name, (name, multiplier) ∈ units ∧ iequals name suffix = true) ∧
    value = digits_value ds * multiplier ∧ value < two64.

(** ** Splitting *)

Lemma find_first_spec set input i :
  find_first_not_of set input = Some i ↔
  ∃ pre c post, input = pre ++ c :: post ∧ i = length pre ∧ Forall (λ c, c ∈ set) pre ∧ c ∉ set.
Proof.
  revert i. induction input as [|x input IH]; intros i; cbn.
  - split; [done|]. by intros ([|] & ? & ? & ? & _).
  - case_bool_decide as Hx.
    + rewrite fmap_Some. split.
      * intros (j & (pre & c & post & -> & -> & Hpre & Hc)%IH & ->). exists (x :: pre), c, post. by repeat constructor.
      * intros (pre & c & post & Heq & -> & Hpre & Hc). destruct pre as [|y pre]; cbn in Heq; [by injection Heq as -> _|].
        injection Heq as -> ->. exists (length pre). split; [|done]. apply IH. inversion Hpre; subst. by exists pre, c, post.
    + split.
      * intros [= <-]. by exists [], x, input.
      * intros (pre & c & post & Heq & -> & Hpre & Hc). destruct pre as [|y pre]; [done|]. injection Heq as -> ->.
        inversion Hpre; by subst.
Qed.

Lemma find_first_none set input : find_first_not_of set input = None → Forall (λ c, c ∈ set) input.
Proof.
  induction input as [|x input IH]; cbn; [constructor|]. case_bool_decide; [|done].
  intros Hn. constructor; [done|]. apply IH. by destruct (find_first_not_of set input).
Qed.

(** The text between the blanks. *)
Definition trimmed (m : bytes) : Prop :=
  ∃ c c', (c ∉ whitespace) ∧ (c' ∉ whitespace) ∧ (∃ q, m = c :: q) ∧ (∃ q, m = q ++ [c']).

Lemma trim_spec input ws1 m ws2 :
  input = ws1 ++ m ++ ws2 → is_ws ws1 → is_ws ws2 → trimmed m →
  ∃ first last, find_first_not_of whitespace input = Some first ∧ find_last_not_of whitespace input = Some last ∧
    substr first (last - first + 1) input = m.
Proof.
  intros -> H1 H2 (c & c' & Hc & Hc' & [q Hq] & [q' Hq']).
  exists (length ws1), (length ws1 + length m - 1)%nat. split_and!.
  - apply find_first_spec. exists ws1, c, (q ++ ws2). by rewrite Hq.
  - unfold find_last_not_of. assert (Hrev : find_first_not_of whitespace (rev (ws1 ++ m ++ ws2)) = Some (length ws2)).
    { apply find_first_spec. exists (rev ws2), c', (rev q' ++ rev ws1). split_and!.
      - rewrite !rev_app_distr, Hq', rev_app_distr. cbn. by rewrite <- app_assoc.
      - by rewrite length_rev.
      - apply Forall_rev. exact H2.
      - done. }
    rewrite Hrev. cbn. f_equal. rewrite !length_app, Hq. cbn. lia.
  - unfold substr. replace (length ws1 + length m - 1 - length ws1 + 1)%nat with (length m) by (rewrite Hq; cbn; lia).
    by rewrite drop_app_length, take_app_length.
Qed.

Lemma trim_exists input : is_ws input ∨ ∃ ws1 m ws2, input = ws1 ++ m ++ ws2 ∧ is_ws ws1 ∧ is_ws ws2 ∧ trimmed m.
Proof.
  destruct (find_first_not_of whitespace input) as [i|] eqn:Hf; [|left; by apply find_first_none].
  right. apply find_first_spec in Hf as (ws1 & c & post & -> & _ & H1 & Hc). exists ws1.
  destruct (find_first_not_of whitespace (rev (c :: post))) as [j|] eqn:Hl.
  - apply find_first_spec in Hl as (pre & c' & q & Heq & _ & H2 & Hc').
    apply (f_equal (@rev _)) in Heq. rewrite rev_involutive, rev_app_distr in Heq. cbn [rev] in Heq.
    exists (rev q ++ [c']), (rev pre). split_and!; [by rewrite Heq|done|by apply Forall_rev|].
    exists c, c'. split_and!; [done..| |by exists (rev q)]. destruct (rev q); cbn in Heq |- *; injection Heq as -> _; eauto.
  - apply find_first_none in Hl. rewrite Forall_forall in Hl. exfalso. apply Hc, Hl. apply list_elem_of_In, in_rev.
    rewrite rev_involutive. by left.
Qed.

Lemma count_while_app (p : N → bool) a b :
  Forall (λ c, p c = true) a → (∀ c q, b = c :: q → p c = false) → count_while p (a ++ b) = length a.
Proof.
  induction 1 as [|x a Hx _ IH]; intros Hb; cbn.
  - destruct b as [|c q]; [done|]. cbn. by rewrite (Hb _ _ eq_refl).
  - rewrite Hx. by rewrite IH.
Qed.

Lemma count_while_split (p : N → bool) l :
  ∃ a b, l = a ++ b ∧ Forall (λ c, p c = true) a ∧ (∀ c q, b = c :: q → p c = false).
Proof.
  induction l as [|x l (a & b & -> & Ha & Hb)]; [by exists [], []|].
  destruct (p x) eqn:Hx; [exists (x :: a), b; by repeat constructor|].
  exists [], (x :: a ++ b). split_and!; [done|constructor|]. by intros ? ? [= <- _].
Qed.

Lemma digit_not_ws c : isdigit c = true → (c ∉ whitespace) ∧ isspace c = false.
Proof.
  unfold isdigit, isspace, whitespace. rewrite andb_true_iff, !N.leb_le. intros [? ?].
  split; [set_unfold; lia|]. destruct (N.eqb_spec c 32), (N.leb_spec 9 c), (N.leb_spec c 13); cbn; lia || done.
Qed.

Lemma ws_space c : c ∈ whitespace → isspace c = true.
Proof. unfold whitespace. set_unfold. intros Hc. repeat destruct Hc as [->|Hc]; done. Qed.

Lemma space_not_digit c : isspace c = true → isdigit c = false.
Proof. intros Hs. destruct (isdigit c) eqn:Hd; [|done]. apply digit_not_ws in Hd as [_ ?]. congruence. Qed.

(** The split of a text in its three parts. *)
Lemma split_quantity_ok ws1 ds sp suffix ws2 :
  is_ws ws1 → is_ws ws2 → ds ≠ [] → Forall (λ c, isdigit c = true) ds → Forall (λ c, isspace c = true) sp →
  (∀ c q, suffix = c :: q → isspace c = false ∧ isdigit c = false) → trimmed (ds ++ sp ++ suffix) →
  split_quantity (ws1 ++ (ds ++ sp ++ suffix) ++ ws2) = number ← from_chars ds; Some (number, suffix).
Proof.
  intros H1 H2 Hne Hd Hs Hx Ht. unfold split_quantity.
  edestruct trim_spec as (first & last & -> & -> & Hsub); [reflexivity|done|done|exact Ht|]. cbn [mbind option_bind]. rewrite Hsub.
  rewrite count_while_app; [|done|].
  - rewrite take_app_length, drop_app_length, count_while_app; [|done|naive_solver].
    rewrite drop_app_length. by destruct ds.
  - intros c q Heq. destruct sp as [|x sp]; cbn in Heq; [naive_solver|]. injection Heq as -> _. inversion Hs; subst.
    by apply space_not_digit.
Qed.

(** ** Units *)

Lemma iequals_spec a b : iequals a b = true ↔ tolower <$> a = tolower <$> b.
Proof.
  revert b. induction a as [|x a IH]; intros [|y b]; cbn; [done..|]. rewrite andb_true_iff, N.eqb_eq, IH.
  split; [by intros [-> ->]|by intros [= -> ->]].
Qed.

Definition isletter (c : N) : bool := (97 <=? tolower c) && (tolower c <=? 122).

(** What the parsers need of a table: names of letters, positive multipliers, no name with
    two multipliers. *)
Definition unit_ok (units : list (bytes * N)) (u : bytes * N) : bool :=
  negb (bool_decide (u.1 = [])) && forallb isletter u.1 && (1 <=? u.2) &&
  forallb (λ u', implb (iequals u.1 u'.1) (u.2 =? u'.2)) units.
Definition units_ok (units : list (bytes * N)) : bool := forallb (unit_ok units) units.

Lemma units_ok_in units name m :
  units_ok units = true → (name, m) ∈ units →
  name ≠ [] ∧ Forall (λ c, isletter c = true) name ∧ 1 <= m ∧
  ∀ name' m', (name', m') ∈ units → iequals name name' = true → m = m'.
Proof.
  unfold units_ok. rewrite forallb_forall. intros H Hin. apply list_elem_of_In in Hin.
  specialize (H _ Hin). unfold unit_ok in H. cbn in H. rewrite !andb_true_iff, negb_true_iff, bool_decide_eq_false, N.leb_le in H.
  destruct H as [[[? Hl] ?] Hu]. rewrite forallb_forall in Hl, Hu. split_and!; [done| |done|].
  - apply Forall_forall. intros c Hc. by apply Hl, list_elem_of_In.
  - intros name' m' Hin' He. specialize (Hu (name', m')). cbn in Hu. rewrite He in Hu. apply N.eqb_eq, Hu. by apply list_elem_of_In.
Qed.

Lemma iequals_letters name suffix :
  iequals name suffix = true → Forall (λ c, isletter c = true) name → Forall (λ c, isletter c = true) suffix.
Proof.
  rewrite iequals_spec. revert suffix. induction name as [|x name IH]; intros [|y suffix] Heq Hl; cbn in Heq; try done.
  injection Heq as Hxy Heq. inversion Hl; subst. constructor; [|by apply IH]. unfold isletter in *. by rewrite <- Hxy.
Qed.

Lemma letter_plain c : isletter c = true → isspace c = false ∧ isdigit c = false ∧ c ∉ whitespace.
Proof.
  intros Hl. assert (Hs : isspace c = false ∧ isdigit c = false).
  { unfold isletter, tolower, isspace, isdigit in *. revert Hl.
    destruct (N.leb_spec 65 c), (N.leb_spec c 90); cbn; rewrite andb_true_iff, !N.leb_le; intros Hl;
      destruct (N.eqb_spec c 32), (N.leb_spec 9 c), (N.leb_spec c 13), (N.leb_spec 48 c), (N.leb_spec c 57); cbn; done || lia. }
  destruct Hs as [Hs ?]. split_and!; [done..|]. intros Hw%ws_space. congruence.
Qed.

(** The loop over a good table. *)
Lemma find_unit_spec units number suffix v :
  units_ok units = true →
  find_unit units number suffix = Some v ↔
  ∃ name m, (name, m) ∈ units ∧ iequals name suffix = true ∧ v = number * m ∧ v < two64.
Proof.
  intros Hok. assert (Hin : ∀ name m, (name, m) ∈ units → 1 <= m ∧ ∀ name' m', (name', m') ∈ units →
    iequals name suffix = true → iequals name' suffix = true → m = m').
  { intros name m Hin. destruct (units_ok_in _ _ _ Hok Hin) as (_ & _ & ? & Hu). split; [done|]. intros name' m' Hin' H1 H2.
    eapply Hu; [exact Hin'|]. rewrite iequals_spec in *. congruence. }
  clear Hok. induction units as [|[name m] units IH]; cbn.
  - split; [done|]. intros (? & ? & ?%elem_of_nil & _). done.
  - destruct (iequals name suffix) eqn:He.
    + destruct (Hin name m ltac:(left)) as [Hm Hu].
      assert (Hov : (two64 - 1) / m < number ↔ two64 <= number * m).
      { assert (0 < two64) by done. split.
        - intros Hlt. apply N.le_succ_l in Hlt. pose proof (N.mul_succ_div_gt (two64 - 1) m ltac:(lia)). nia.
        - intros Hle. apply N.nle_gt. intros Hnum. pose proof (N.Div0.mul_div_le (two64 - 1) m). nia. }
      split.
      * case_match eqn:Hg; [done|]. apply N.ltb_ge in Hg. intros [= <-]. exists name, m. split_and!; [left|done|..].
        all: unfold u64_mul; rewrite ?u64_small; lia.
      * intros (name' & m' & Hin' & He' & -> & Hlt). rewrite <- (Hu _ _ Hin' He He') in Hlt |- *.
        case_match eqn:Hg; [apply N.ltb_lt in Hg; lia|]. unfold u64_mul. by rewrite u64_small.
    + rewrite IH by (intros name' m' Hin'; destruct (Hin name' m' ltac:(by right)) as [? Hu]; split; [done|];
        intros; eapply Hu; [by right|done..]).
      split; intros (name' & m' & Hin' & He' & Hr); exists name', m'; split_and!; try tauto; [by right|].
      apply elem_of_cons in Hin' as [[= -> ->]|?]; [congruence|done].
Qed.

(** ** The parsers *)

Lemma trimmed_digits ds rest :
  ds ≠ [] → Forall (λ c, isdigit c = true) ds →
  rest = [] ∨ (∃ q c, rest = q ++ [c] ∧ c ∉ whitespace) → trimmed (ds ++ rest).
Proof.
  intros Hne Hd Hr. destruct ds as [|d ds]; [done|]. inversion Hd as [|?? Hd0 _]; subst. destruct Hr as [->|(q & c & -> & Hc)].
  - destruct (exists_last (l := d :: ds)) as (q & c & Heq); [done|]. rewrite app_nil_r, Heq. exists d, c. split_and!.
    + by apply digit_not_ws.
    + rewrite Heq in Hd. apply Forall_app in Hd as [_ Hd]. inversion Hd; subst. by apply digit_not_ws.
    + rewrite <- Heq. by exists ds.
    + by exists q.
  - exists d, c. split_and!; [by apply digit_not_ws|done|by eexists|]. exists (d :: ds ++ q). cbn. by rewrite app_assoc.
Qed.

(** Trailing blanks belong to the text only up to the last one that the trim does not
    remove. *)
Lemma trailing_split sp :
  ∃ a b, sp = a ++ b ∧ is_ws b ∧ (a = [] ∨ ∃ q c, a = q ++ [c] ∧ c ∉ whitespace).
Proof.
  induction sp as [|x sp IH] using rev_ind; [by exists [], []; split_and!; [|constructor|left]|].
  destruct (decide (x ∈ whitespace)) as [Hx|Hx].
  - destruct IH as (a & b & -> & Hb & Ha). exists a, (b ++ [x]). split_and!; [by rewrite app_assoc| |done].
    apply Forall_app. split; [done|]. constructor; [done|constructor].
  - exists (sp ++ [x]), []. split_and!; [by rewrite app_nil_r|constructor|]. right. by exists sp, x.
Qed.

Section parse.
Context (units : list (bytes * N)) (Hok : units_ok units = true).

Lemma parse_quantity_sound input v : parse_quantity units input = Some v → quantity units input v.
Proof.
  unfold parse_quantity. intros ([number suffix] & Hsplit & Hr)%bind_Some. cbn [fst snd] in Hr.
  destruct (trim_exists input) as [Hall|(ws1 & m & ws2 & -> & H1 & H2 & Ht)].
  { unfold split_quantity in Hsplit. apply bind_Some in Hsplit as (i & Hf & _).
    apply find_first_spec in Hf as (pre & c & post & -> & _ & _ & Hc). apply Forall_app in Hall as [_ Hall]. by inversion Hall. }
  destruct (count_while_split isdigit m) as (ds & rest & -> & Hd & Hrest).
  destruct (count_while_split isspace rest) as (sp & sf & -> & Hs & Hsf).
  assert (Hsplit' : ds ≠ [] ∧ from_chars ds = Some number ∧ suffix = sf).
  { unfold split_quantity in Hsplit. edestruct trim_spec as (f & l & Hf & Hl & Hsub); [reflexivity|exact H1|exact H2|exact Ht|].
    rewrite Hf, Hl in Hsplit. cbn [mbind option_bind] in Hsplit. rewrite Hsub, count_while_app in Hsplit by done.
    destruct (Nat.eqb_spec (length ds) 0) as [|Hne]; [done|]. rewrite take_app_length, drop_app_length, count_while_app, drop_app_length in Hsplit by done.
    apply bind_Some in Hsplit as (n & Hn & [= <- <-]). split_and!; [by intros ->|done..]. }
  destruct Hsplit' as (Hne & Hn & ->). unfold from_chars in Hn. case_match eqn:Hlt; [|done]. apply N.ltb_lt in Hlt.
  injection Hn as <-. case_bool_decide as Hsfx.
  - subst sf. injection Hr as <-. exists ws1, ds, sp, [], ws2, 1. split_and!; try done; [|by left|lia].
    by rewrite app_nil_r, <- !app_assoc.
  - apply find_unit_spec in Hr as (name & mult & Hin & He & -> & Hv); [|exact Hok].
    exists ws1, ds, sp, sf, ws2, mult. split_and!; try done; [by rewrite <- !app_assoc|right; by exists name].
Qed.

Lemma parse_quantity_complete input v : quantity units input v → parse_quantity units input = Some v.
Proof.
  intros (ws1 & ds & sp & suffix & ws2 & mult & -> & H1 & H2 & Hne & Hd & Hs & Hu & -> & Hlt).
  unfold parse_quantity. destruct Hu as [[-> ->]|(name & Hin & He)].
  - rewrite N.mul_1_r in Hlt |- *. cbn [app].
    destruct (trailing_split (sp ++ ws2)) as (a & b & Hab & Hb & Ha). rewrite Hab.
    assert (Hsa : Forall (λ c, isspace c = true) a).
    { assert (Hall : Forall (λ c, isspace c = true) (sp ++ ws2)).
      { apply Forall_app. split; [done|]. eapply Forall_impl; [exact H2|]. exact ws_space. }
      rewrite Hab in Hall. by apply Forall_app in Hall as [? _]. }
    replace (ws1 ++ ds ++ a ++ b) with (ws1 ++ (ds ++ a ++ []) ++ b) by (by rewrite app_nil_r, <- !app_assoc).
    rewrite split_quantity_ok; [|done|done|done|done|done|by intros|rewrite app_nil_r; by apply trimmed_digits].
    unfold from_chars. by rewrite (proj2 (N.ltb_lt _ _) Hlt).
  - destruct (units_ok_in _ _ _ Hok Hin) as (Hnn & Hlet & Hm & _). pose proof (iequals_letters _ _ He Hlet) as Hsl.
    assert (suffix ≠ []) by (intros ->; by destruct name).
    replace (ws1 ++ ds ++ sp ++ suffix ++ ws2) with (ws1 ++ (ds ++ sp ++ suffix) ++ ws2) by (by rewrite <- !app_assoc).
    rewrite split_quantity_ok; [|done|done|done|done|done|..].
    + unfold from_chars. rewrite (proj2 (N.ltb_lt _ _)) by nia. cbn [mbind option_bind fst snd]. rewrite bool_decide_false by done.
      apply find_unit_spec; [exact Hok|]. by exists name, mult.
    + intros c q ->. inversion Hsl as [|?? Hc _]; subst. apply letter_plain in Hc as (? & ? & _). done.
    + apply trimmed_digits; [done..|]. right. destruct (exists_last (l := suffix)) as (q & c & ->); [done|].
      exists (sp ++ q), c. split; [by rewrite app_assoc|]. apply Forall_app in Hsl as [_ Hc]. inversion Hc as [|?? Hc0 _]; subst.
      by apply letter_plain in Hc0 as (_ & _ & ?).
Qed.
End parse.

(** The two quantity parsers of the command line accept exactly the texts they document:
    blanks, a decimal number, optional spaces, an optional unit of the table in any case, blanks;
    the value they return is the number times the unit, never truncated: a product (or a number)
    that does not fit 64 bits is refused. *)
Theorem parse_quantity_correct input v :
  (parseByteQuantity input = Some v ↔ quantity byte_units input v) ∧
  (parseTimeDuration input = Some v ↔ quantity time_units input v).
Proof.
  split; (split; [apply parse_quantity_sound|apply parse_quantity_complete]); vm_compute; reflexivity.
Qed.

Example quantity_examples :
  parseByteQuantity (chars " 10MB ") = Some 10000000 ∧ parseByteQuantity (chars "4 KiB") = Some 4096 ∧
  parseByteQuantity (chars "18446744073709551615") = Some (two64 - 1) ∧
  parseByteQuantity (chars "18446744073709551616") = None ∧ parseByteQuantity (chars "16777216 TiB") = None ∧
  parseByteQuantity (chars "-1") = None ∧ parseTimeDuration (chars "2 Hours") = Some 7200 ∧
  parseTimeDuration (chars "2 fortnights") = None.
Proof. by vm_compute. Qed.
