(* ===== verification/Configurator.v ===== *)
(** * Configuration (src/src/app/configurator.cpp, configuration.{hpp,cpp},
    modules/networking/get_node_key.hpp)

    The settings of the node come from defaults, a YAML file and the command line.
    The command line and the file are parsed by boost and yaml-cpp: [CliValues] holds the
    options that were given explicitly, [Yaml] the document.  Log messages are left out, so
    is the text of [file_errors_], which is only logged. *)

From Stdlib Require Import String.
From S2P Require Import Prelude Errors Parsers Yaml.

(** ** Paths (std::filesystem::path on POSIX) *)

Abbreviation path := bytes.

Definition is_absolute (p : path) : bool := match p with c :: _ => c =? 47 | [] => false end.

(** operator/ *)
Definition path_append (a b : path) : path :=
  if is_absolute b then b
  else match last a with
  | None => b
  | Some c => if c =? 47 then a ++ b else a ++ 47 :: b
  end.

Definition drop_while (p : N → bool) (l : bytes) : bytes := drop (count_while p l) l.

(** The last element goes, with the separators before it that are not the root. *)
Definition parent_path (p : path) : path :=
  let root := take (count_while (N.eqb 47) p) p in
  let relative := drop_while (N.eqb 47) p in
  root ++ rev (drop_while (N.eqb 47) (drop_while (λ c, negb (47 =? c)) (rev relative))).

(** boost::trim *)
Definition trim (s : bytes) : bytes := rev (drop_while isspace (rev (drop_while isspace s))).

(** ** Libraries and the file system *)

(** [unhex0x] reads a private key, [derive] completes it to a key pair; [address_any] and
    [address_local] are 0.0.0.0 and 127.0.0.1; [defaultConfigYaml] is the document that the
    build embeds. *)
Class ConfigLibraries := {
  KeyPair : Type;
  Multiaddress : Type;
  Address : Type;
  unhex0x : bytes → option bytes;
  derive : bytes → option KeyPair;
  generate : KeyPair;
  Multiaddress_create : bytes → option Multiaddress;
  make_address : bytes → option Address;
  address_any : Address;
  address_local : Address;
  as_ssize : bytes → option Z;
  yaml_load : bytes → option Yaml;
  defaultConfigYaml : bytes;
}.

(** Queries of the file system; [None] is an error. *)
Class Filesystem (FS : Type) := {
  fs_exists : FS → path → option bool;
  fs_create_directories : path → FS → option bool * FS;
  fs_is_directory : FS → path → option bool;
  fs_is_regular_file : FS → path → option bool;
  fs_weakly_canonical : FS → path → option path;
  fs_current_path : FS → option path;
  fs_read : FS → path → option bytes;
}.

(** QLEAN_ENABLE_SHADOW *)
Class ShadowBuild := shadow_enabled : bool.

(** Configurator::Error, and the error of an address that cannot be parsed *)
Inductive config_error :=
| CliArgsParseFailed
| ConfigFileParseFailed
| InvalidValue
| AddressError.

Section configurator.
Context `{ConfigLibraries} {FS : Type} `{Filesystem FS} `{ShadowBuild}.

(** ** Data *)

Record Endpoint := mkEndpoint { ep_address : Address; ep_port : N }.
Record DatabaseConfig := mkDatabaseConfig { db_directory : path; db_cache_size : N }.
Record MetricsConfig := mkMetricsConfig { me_endpoint : Endpoint; me_enabled : option bool }.

Record Configuration := mkConfiguration {
  cf_name : bytes;
  cf_node_id : bytes;
  cf_base_path : path;
  cf_bootnodes_file : path;
  cf_genesis_dir : path;
  cf_listen_multiaddr : option Multiaddress;
  cf_node_key : option KeyPair;
  cf_max_bootnodes : option N;
  cf_state_sync_url : option bytes;
  cf_is_aggregator : bool;
  cf_subnet_count : N;
  cf_database : DatabaseConfig;
  cf_metrics : MetricsConfig;
  cf_api_endpoint : Endpoint;
}.

Definition set_name (v : bytes) (c : Configuration) : Configuration :=
  mkConfiguration v (cf_node_id c) (cf_base_path c) (cf_bootnodes_file c) (cf_genesis_dir c)
    (cf_listen_multiaddr c) (cf_node_key c) (cf_max_bootnodes c) (cf_state_sync_url c) (cf_is_aggregator c)
    (cf_subnet_count c) (cf_database c) (cf_metrics c) (cf_api_endpoint c).
Definition set_node_id (v : bytes) (c : Configuration) : Configuration :=
  mkConfiguration (cf_name c) v (cf_base_path c) (cf_bootnodes_file c) (cf_genesis_dir c)
    (cf_listen_multiaddr c) (cf_node_key c) (cf_max_bootnodes c) (cf_state_sync_url c) (cf_is_aggregator c)
    (cf_subnet_count c) (cf_database c) (cf_metrics c) (cf_api_endpoint c).
Definition set_base_path (v : path) (c : Configuration) : Configuration :=
  mkConfiguration (cf_name c) (cf_node_id c) v (cf_bootnodes_file c) (cf_genesis_dir c)
    (cf_listen_multiaddr c) (cf_node_key c) (cf_max_bootnodes c) (cf_state_sync_url c) (cf_is_aggregator c)
    (cf_subnet_count c) (cf_database c) (cf_metrics c) (cf_api_endpoint c).
Definition set_bootnodes_file (v : path) (c : Configuration) : Configuration :=
  mkConfiguration (cf_name c) (cf_node_id c) (cf_base_path c) v (cf_genesis_dir c) (cf_listen_multiaddr c)
    (cf_node_key c) (cf_max_bootnodes c) (cf_state_sync_url c) (cf_is_aggregator c) (cf_subnet_count c)
    (cf_database c) (cf_metrics c) (cf_api_endpoint c).
Definition set_genesis_dir (v : path) (c : Configuration) : Configuration :=
  mkConfiguration (cf_name c) (cf_node_id c) (cf_base_path c) (cf_bootnodes_file c) v (cf_listen_multiaddr c)
    (cf_node_key c) (cf_max_bootnodes c) (cf_state_sync_url c) (cf_is_aggregator c) (cf_subnet_count c)
    (cf_database c) (cf_metrics c) (cf_api_endpoint c).
Definition set_listen_multiaddr (v : option Multiaddress) (c : Configuration) : Configuration :=
  mkConfiguration (cf_name c) (cf_node_id c) (cf_base_path c) (cf_bootnodes_file c) (cf_genesis_dir c) v
    (cf_node_key c) (cf_max_bootnodes c) (cf_state_sync_url c) (cf_is_aggregator c) (cf_subnet_count c)
    (cf_database c) (cf_metrics c) (cf_api_endpoint c).
Definition set_node_key (v : option KeyPair) (c : Configuration) : Configuration :=
  mkConfiguration (cf_name c) (cf_node_id c) (cf_base_path c) (cf_bootnodes_file c) (cf_genesis_dir c)
    (cf_listen_multiaddr c) v (cf_max_bootnodes c) (cf_state_sync_url c) (cf_is_aggregator c)
    (cf_subnet_count c) (cf_database c) (cf_metrics c) (cf_api_endpoint c).
Definition set_max_bootnodes (v : option N) (c : Configuration) : Configuration :=
  mkConfiguration (cf_name c) (cf_node_id c) (cf_base_path c) (cf_bootnodes_file c) (cf_genesis_dir c)
    (cf_listen_multiaddr c) (cf_node_key c) v (cf_state_sync_url c) (cf_is_aggregator c) (cf_subnet_count c)
    (cf_database c) (cf_metrics c) (cf_api_endpoint c).
Definition set_state_sync_url (v : option bytes) (c : Configuration) : Configuration :=
  mkConfiguration (cf_name c) (cf_node_id c) (cf_base_path c) (cf_bootnodes_file c) (cf_genesis_dir c)
    (cf_listen_multiaddr c) (cf_node_key c) (cf_max_bootnodes c) v (cf_is_aggregator c) (cf_subnet_count c)
    (cf_database c) (cf_metrics c) (cf_api_endpoint c).
Definition set_is_aggregator (v : bool) (c : Configuration) : Configuration :=
  mkConfiguration (cf_name c) (cf_node_id c) (cf_base_path c) (cf_bootnodes_file c) (cf_genesis_dir c)
    (cf_listen_multiaddr c) (cf_node_key c) (cf_max_bootnodes c) (cf_state_sync_url c) v (cf_subnet_count c)
    (cf_database c) (cf_metrics c) (cf_api_endpoint c).
Definition set_subnet_count (v : N) (c : Configuration) : Configuration :=
  mkConfiguration (cf_name c) (cf_node_id c) (cf_base_path c) (cf_bootnodes_file c) (cf_genesis_dir c)
    (cf_listen_multiaddr c) (cf_node_key c) (cf_max_bootnodes c) (cf_state_sync_url c) (cf_is_aggregator c) v
    (cf_database c) (cf_metrics c) (cf_api_endpoint c).
Definition set_database (v : DatabaseConfig) (c : Configuration) : Configuration :=
  mkConfiguration (cf_name c) (cf_node_id c) (cf_base_path c) (cf_bootnodes_file c) (cf_genesis_dir c)
    (cf_listen_multiaddr c) (cf_node_key c) (cf_max_bootnodes c) (cf_state_sync_url c) (cf_is_aggregator c)
    (cf_subnet_count c) v (cf_metrics c) (cf_api_endpoint c).
Definition set_metrics (v : MetricsConfig) (c : Configuration) : Configuration :=
  mkConfiguration (cf_name c) (cf_node_id c) (cf_base_path c) (cf_bootnodes_file c) (cf_genesis_dir c)
    (cf_listen_multiaddr c) (cf_node_key c) (cf_max_bootnodes c) (cf_state_sync_url c) (cf_is_aggregator c)
    (cf_subnet_count c) (cf_database c) v (cf_api_endpoint c).
Definition set_api_endpoint (v : Endpoint) (c : Configuration) : Configuration :=
  mkConfiguration (cf_name c) (cf_node_id c) (cf_base_path c) (cf_bootnodes_file c) (cf_genesis_dir c)
    (cf_listen_multiaddr c) (cf_node_key c) (cf_max_bootnodes c) (cf_state_sync_url c) (cf_is_aggregator c)
    (cf_subnet_count c) (cf_database c) (cf_metrics c) v.

(** The options of the command line that were given; a flag is given or not. *)
Record CliValues := mkCliValues {
  cli_base_path : option bytes;
  cli_data_dir : option bytes;
  cli_config : option bytes;
  cli_genesis_dir : option bytes;
  cli_listen_addr : option bytes;
  cli_bootnodes : option bytes;
  cli_checkpoint_sync_url : option bytes;
  cli_name : option bytes;
  cli_node_id : option bytes;
  cli_node_key : option bytes;
  cli_is_aggregator : bool;
  cli_attestation_committee_count : option N;
  cli_max_bootnodes : option N;
  cli_shadow_rates : bool * bool;
  cli_db_path : option bytes;
  cli_db_cache_size : option N;
  cli_metrics_disable : bool;
  cli_metrics_host : option bytes;
  cli_metrics_port : option N;
  cli_api_host : option bytes;
  cli_api_port : option N;
}.

(** The options that the first pass looks for *)
Record Step1Values := mkStep1Values {
  st_help : bool;
  st_version : bool;
  st_config : option bytes;
  st_log : option (list bytes);
}.

Record Configurator := mkConfigurator {
  co_config : Configuration;
  co_config_file : option Yaml;
  co_file_has_error : bool;
  co_cli : CliValues;
  co_fs : FS;
  co_logger_cli_args : list bytes;
}.

Definition set_config (f : Configuration → Configuration) (s : Configurator) : Configurator :=
  mkConfigurator (f (co_config s)) (co_config_file s) (co_file_has_error s) (co_cli s) (co_fs s) (co_logger_cli_args s).
Definition set_file_error (b : bool) (s : Configurator) : Configurator :=
  mkConfigurator (co_config s) (co_config_file s) b (co_cli s) (co_fs s) (co_logger_cli_args s).
Definition set_config_file (file : Yaml) (s : Configurator) : Configurator :=
  mkConfigurator (co_config s) (Some file) (co_file_has_error s) (co_cli s) (co_fs s) (co_logger_cli_args s).
Definition set_cli (cli : CliValues) (s : Configurator) : Configurator :=
  mkConfigurator (co_config s) (co_config_file s) (co_file_has_error s) cli (co_fs s) (co_logger_cli_args s).
Definition set_logger_cli_args (l : list bytes) (s : Configurator) : Configurator :=
  mkConfigurator (co_config s) (co_config_file s) (co_file_has_error s) (co_cli s) (co_fs s) l.
Definition set_fs (fs : FS) (s : Configurator) : Configurator :=
  mkConfigurator (co_config s) (co_config_file s) (co_file_has_error s) (co_cli s) fs (co_logger_cli_args s).

(** The constructors of Configuration and Configurator *)
Definition CliValues_new : CliValues :=
  mkCliValues None None None None None None None None None None false None None (false, false) None None false
    None None None None.
Definition Configuration_new : Configuration :=
  mkConfiguration (chars "noname") [] [] [] [] None None None None false 1
    (mkDatabaseConfig (chars "db") (N.shiftl 512 20))
    (mkMetricsConfig (mkEndpoint address_any 9615) None)
    (mkEndpoint address_local 9667).
Definition Configurator_new (fs : FS) : Configurator :=
  mkConfigurator Configuration_new None false CliValues_new fs [].

Notation M := (SM Configurator config_error).

(** ** Helpers *)

Definition find_argument {A} (o : option A) (f : A → M ()) : M () :=
  match o with Some v => f v | None => mret () end.

Definition assign (f : Configuration → Configuration) : M () := sm_modify (set_config f).

Definition file_error : M () := sm_modify (set_file_error true).

(** The entry [key] of the document; a scalar document has no subscripts. *)
Definition section_of (key : string) (root : Yaml) : M Yaml :=
  match root with
  | Map entries => mret (yaml_lookup (chars key) entries)
  | Scalar _ => sm_throw RuntimeError
  | _ => mret Undefined
  end.

(** An entry of a section that must be a scalar *)
Definition scalar_entry (key : string) (entries : list (bytes * Yaml)) (f : bytes → M ()) : M () :=
  match yaml_lookup (chars key) entries with
  | Undefined => mret ()
  | Scalar value => f value
  | _ => file_error
  end.

(** A section of the file, if there is a file that has it *)
Definition file_section (key : string) (f : list (bytes * Yaml) → M ()) : M () :=
  s ← sm_get;
  match co_config_file s with
  | None => mret ()
  | Some root =>
      section ← section_of key root;
      match section with
      | Undefined => mret ()
      | Map entries => f entries
      | _ => file_error
      end
  end.

Definition report_file_errors : M () :=
  s ← sm_get;
  if co_file_has_error s then sm_err ConfigFileParseFailed else mret ().

(** A query of the file system that throws on errors *)
Definition fs_query {A} (q : FS → option A) : M A :=
  s ← sm_get;
  match q (co_fs s) with Some a => mret a | None => sm_throw SystemError end.

(** ** Keys *)

(** keyPairFromPrivateKeyHex: the key itself or the path of a file with it; [None] is an
    error of the result, the existence test may throw. *)
Definition keyPairFromPrivateKeyHex (hex_or_path : bytes) : M (option KeyPair) :=
  key ← match unhex0x (trim hex_or_path) with
        | Some key => mret (Some key)
        | None =>
            found ← fs_query (λ fs, fs_exists fs hex_or_path);
            if (found : bool) then
              s ← sm_get;
              mret (text ← fs_read (co_fs s) hex_or_path; unhex0x (trim text))
            else mret None
        end;
  mret (key ≫= derive).

(** ** General section *)

Definition general_file (entries : list (bytes * Yaml)) : M () :=
  _ ← scalar_entry "name" entries (λ value, assign (set_name value));
  _ ← scalar_entry "node-id" entries (λ value, assign (set_node_id value));
  _ ← scalar_entry "node-key" entries (λ value,
        r ← keyPairFromPrivateKeyHex (trim value);
        match r with Some key => assign (set_node_key (Some key)) | None => file_error end);
  _ ← scalar_entry "base-path" entries (λ value, assign (set_base_path value));
  _ ← scalar_entry "listen-addr" entries (λ value,
        match Multiaddress_create (trim value) with
        | Some a => assign (set_listen_multiaddr (Some a))
        | None => file_error
        end);
  scalar_entry "bootnodes" entries (λ value, assign (set_bootnodes_file value)).

(** The arguments of the command line *)
Definition general_cli (cli : CliValues) : M () :=
  _ ← find_argument (cli_name cli) (λ value, assign (set_name value));
  _ ← find_argument (cli_node_id cli) (λ value, assign (set_node_id value));
  fail_key ← match cli_node_key cli with
             | Some value =>
                 r ← keyPairFromPrivateKeyHex (trim value);
                 match r with
                 | Some key => assign (set_node_key (Some key)) ≫= λ _, mret false
                 | None => mret true
                 end
             | None => mret false
             end;
  _ ← find_argument (cli_max_bootnodes cli) (λ value, assign (set_max_bootnodes (Some value)));
  _ ← find_argument (cli_base_path cli) (λ value, assign (set_base_path value));
  _ ← find_argument (cli_data_dir cli) (λ value, assign (set_base_path value));
  fail_addr ← match cli_listen_addr cli with
              | Some value =>
                  match Multiaddress_create (trim value) with
                  | Some a => assign (set_listen_multiaddr (Some a)) ≫= λ _, mret false
                  | None => mret true
                  end
              | None => mret false
              end;
  _ ← match cli_genesis_dir cli with
      | Some value => assign (set_genesis_dir value)
      | None => sm_throw Fatal
      end;
  _ ← assign (λ c, set_bootnodes_file
                     (match cli_bootnodes cli with
                      | Some value => value
                      | None => path_append (cf_genesis_dir c) (chars "nodes.yaml")
                      end) c);
  _ ← find_argument (cli_checkpoint_sync_url cli) (λ value, assign (set_state_sync_url (Some value)));
  _ ← (if cli_is_aggregator cli then assign (set_is_aggregator true) else mret ());
  _ ← find_argument (cli_attestation_committee_count cli) (λ value,
        if value =? 0 then sm_err CliArgsParseFailed else assign (set_subnet_count value));
  if fail_key || fail_addr then sm_err CliArgsParseFailed else mret ().

(** base_path_ becomes absolute: relative to the directory of the configuration file, or to
    the current directory. *)
Definition resolve_base_path (cli : CliValues) : M () :=
  s ← sm_get;
  let resolved := cf_base_path (co_config s) in
  resolved ← (if is_absolute resolved then fs_query (λ fs, fs_weakly_canonical fs resolved)
              else match cli_config cli with
              | Some cfg => fs_query (λ fs, fs_weakly_canonical fs (path_append (parent_path cfg) resolved))
              | None =>
                  current ← fs_query fs_current_path;
                  fs_query (λ fs, fs_weakly_canonical fs (path_append current resolved))
              end);
  assign (set_base_path resolved).

(** The directory is created if it does not exist. *)
Definition ensure_base_path : M () :=
  s ← sm_get;
  let base_path := cf_base_path (co_config s) in
  _ ← match fs_exists (co_fs s) base_path with
      | None => sm_err InvalidValue
      | Some true => mret ()
      | Some false =>
          let '(created, fs) := fs_create_directories base_path (co_fs s) in
          _ ← sm_modify (set_fs fs);
          match created with None => sm_err InvalidValue | Some _ => mret () end
      end;
  s ← sm_get;
  match fs_is_directory (co_fs s) base_path with
  | Some true => mret ()
  | _ => sm_err InvalidValue
  end.

(** [given] tells whether the option of this path was on the command line. *)
Definition resolve_relative (cli : CliValues) (p : path) (given : bool) : M path :=
  if is_absolute p then fs_query (λ fs, fs_weakly_canonical fs p)
  else
    let from_current :=
      current ← fs_query fs_current_path;
      fs_query (λ fs, fs_weakly_canonical fs (path_append current p)) in
    if given then from_current
    else match cli_config cli with
    | Some cfg => fs_query (λ fs, fs_weakly_canonical fs (path_append (parent_path cfg) p))
    | None => from_current
    end.

Definition resolve_bootnodes (cli : CliValues) : M () :=
  s ← sm_get;
  match cf_bootnodes_file (co_config s) with
  | [] => mret ()
  | p =>
      p ← resolve_relative cli p (bool_decide (is_Some (cli_bootnodes cli)));
      _ ← assign (set_bootnodes_file p);
      regular ← fs_query (λ fs, fs_is_regular_file fs p);
      if (regular : bool) then mret () else sm_err InvalidValue
  end.

(** The options of a shadow build take no value, so reading one as a double throws
    boost::bad_any_cast. *)
Definition shadow_rates (cli : CliValues) : M () :=
  if shadow_enabled && ((cli_shadow_rates cli).1 || (cli_shadow_rates cli).2) then sm_throw BadVariantAccess
  else mret ().

Definition initGeneralConfig : M () :=
  _ ← file_section "general" general_file;
  _ ← report_file_errors;
  s ← sm_get;
  _ ← general_cli (co_cli s);
  _ ← resolve_base_path (co_cli s);
  _ ← ensure_base_path;
  _ ← resolve_bootnodes (co_cli s);
  shadow_rates (co_cli s).

(** ** Database section *)

Definition set_db_directory (v : path) (c : Configuration) : Configuration :=
  set_database (mkDatabaseConfig v (db_cache_size (cf_database c))) c.
Definition set_db_cache_size (v : N) (c : Configuration) : Configuration :=
  set_database (mkDatabaseConfig (db_directory (cf_database c)) v) c.

(** A bad cache_size adds to the messages only. *)
Definition database_file (entries : list (bytes * Yaml)) : M () :=
  _ ← scalar_entry "path" entries (λ value, assign (set_db_directory value));
  scalar_entry "cache_size" entries (λ value,
    match parseByteQuantity value with
    | Some n => assign (set_db_cache_size n)
    | None => mret ()
    end).

Definition initDatabaseConfig : M () :=
  _ ← file_section "database" database_file;
  _ ← report_file_errors;
  s ← sm_get;
  _ ← find_argument (cli_db_path (co_cli s)) (λ value, assign (set_db_directory value));
  _ ← find_argument (cli_db_cache_size (co_cli s)) (λ value, assign (set_db_cache_size value));
  s ← sm_get;
  let directory := db_directory (cf_database (co_config s)) in
  p ← fs_query (λ fs, fs_weakly_canonical fs
                        (if is_absolute directory then directory
                         else path_append (cf_base_path (co_config s)) directory));
  assign (set_db_directory p).

(** ** Metrics section *)

Definition set_me_endpoint (v : Endpoint) (c : Configuration) : Configuration :=
  set_metrics (mkMetricsConfig v (me_enabled (cf_metrics c))) c.
Definition set_me_enabled (v : bool) (c : Configuration) : Configuration :=
  set_metrics (mkMetricsConfig (me_endpoint (cf_metrics c)) (Some v)) c.
(** if (not enabled.has_value()) enabled = v *)
Definition default_me_enabled (v : bool) (c : Configuration) : Configuration :=
  match me_enabled (cf_metrics c) with None => set_me_enabled v c | Some _ => c end.

Definition metrics_file (entries : list (bytes * Yaml)) : M () :=
  _ ← scalar_entry "enabled" entries (λ value,
        if bool_decide (value = chars "true") then assign (set_me_enabled true)
        else if bool_decide (value = chars "false") then assign (set_me_enabled false)
        else file_error);
  _ ← scalar_entry "host" entries (λ value,
        match make_address value with
        | Some address =>
            assign (λ c, default_me_enabled true
                           (set_me_endpoint (mkEndpoint address (ep_port (me_endpoint (cf_metrics c)))) c))
        | None => mret ()
        end);
  scalar_entry "port" entries (λ value,
    match as_ssize value with
    | None => sm_throw RuntimeError
    | Some v =>
        if ((0 <? v) && (v <=? 65535))%Z then
          assign (λ c, default_me_enabled true
                         (set_me_endpoint (mkEndpoint (ep_address (me_endpoint (cf_metrics c))) (Z.to_N v)) c))
        else file_error
    end).

Definition parseEndpoint (endpoint : Endpoint) (host : option bytes) (port : option N)
    : outcome config_error (bool * Endpoint) :=
  r ← match host with
      | Some host_str =>
          match make_address host_str with
          | None => Err AddressError
          | Some host => Ok (true, mkEndpoint host (ep_port endpoint))
          end
      | None => Ok (false, endpoint)
      end;
  Ok (match port with
      | Some port => (true, mkEndpoint (ep_address r.2) port)
      | None => r
      end).

(** The host is assigned before a later failure; nothing reads the configuration then. *)
Definition initOpenMetricsConfig : M () :=
  _ ← file_section "metrics" metrics_file;
  s ← sm_get;
  let cli := co_cli s in
  r ← sm_lift (parseEndpoint (me_endpoint (cf_metrics (co_config s))) (cli_metrics_host cli) (cli_metrics_port cli));
  _ ← assign (set_me_endpoint r.2);
  _ ← (if (r.1 : bool) then assign (default_me_enabled true) else mret ());
  _ ← (if cli_metrics_disable cli then assign (set_me_enabled false) else mret ());
  _ ← assign (default_me_enabled false);
  s ← sm_get;
  r ← sm_lift (parseEndpoint (cf_api_endpoint (co_config s)) (cli_api_host cli) (cli_api_port cli));
  _ ← assign (set_api_endpoint r.2);
  assign (λ c, match cf_node_key c with None => set_node_key (Some generate) c | Some _ => c end).

Definition calculateConfig : M () :=
  _ ← initGeneralConfig;
  _ ← initDatabaseConfig;
  initOpenMetricsConfig.

(** ** The passes over the command line *)

(** [vm] is what the parser read, [None] when it threw; [true]: the program is done. *)
Definition step1 (vm : option Step1Values) : M bool :=
  match vm with
  | None => sm_err CliArgsParseFailed
  | Some vm =>
      if st_help vm then mret true
      else if st_version vm then mret true
      else
        _ ← find_argument (st_config vm) (λ path,
              s ← sm_get;
              match text ← fs_read (co_fs s) path; yaml_load text with
              | Some file => sm_modify (set_config_file file)
              | None => sm_err ConfigFileParseFailed
              end);
        _ ← find_argument (st_log vm) (λ l, sm_modify (set_logger_cli_args l));
        mret false
  end.

Definition step2 (vm : option CliValues) : M bool :=
  match vm with
  | None => sm_err CliArgsParseFailed
  | Some cli => _ ← sm_modify (set_cli cli); mret false
  end.

Definition getLoggingConfig : M Yaml :=
  let load_default : M Yaml :=
    match yaml_load defaultConfigYaml with
    | None | Some (Scalar _) => sm_err ConfigFileParseFailed
    | Some root => section_of "logging" root
    end in
  s ← sm_get;
  match co_config_file s with
  | None => load_default
  | Some file =>
      logging ← section_of "logging" file;
      match logging with Undefined => load_default | _ => mret logging end
  end.

(** The sequence in main; setting up the logging system between the passes is left out. *)
Definition configure (vm1 : option Step1Values) (vm2 : option CliValues) : M bool :=
  done1 ← step1 vm1;
  if (done1 : bool) then mret true
  else
    _ ← getLoggingConfig;
    done2 ← step2 vm2;
    if (done2 : bool) then mret true
    else _ ← calculateConfig; mret false.
End configurator.
