(* ===== verification/ConfiguratorTheorems.v ===== *)
(** * Configuration: which source a setting comes from *)

From Stdlib Require Import String.
From S2P Require Import Prelude Errors Parsers Yaml Configurator.

#[local] Open Scope string_scope.
#[local] Open Scope list_scope.
#[local] Open Scope N_scope.

Section spec.
Context `{ConfigLibraries} {FS : Type} `{Filesystem FS} `{ShadowBuild}.

(** ** The settings of the file *)

(** The section of a document, and an entry of it *)
Definition section_entry (file : option Yaml) (section : string) : Yaml :=
  match file with Some (Map root) => yaml_lookup (chars section) root | _ => Undefined end.
Definition entry (file : option Yaml) (section key : string) : Yaml :=
  match section_entry file section with Map entries => yaml_lookup (chars key) entries | _ => Undefined end.

Definition text (y : Yaml) : option bytes := match y with Scalar t => Some t | _ => None end.
Definition setting (file : option Yaml) (section key : string) : option bytes := text (entry file section key).

(** An entry that is there and is not a text that [ok] accepts *)
Definition defect (ok : bytes → bool) (y : Yaml) : bool :=
  match y with Undefined => false | Scalar t => negb (ok t) | _ => true end.
Definition section_defect (y : Yaml) : bool := match y with Undefined | Map _ => false | _ => true end.

(** keyPairFromPrivateKeyHex as a function of the file system *)
Definition read_key (fs : FS) (v : bytes) : outcome config_error (option KeyPair) :=
  match unhex0x (trim v) with
  | Some key => Ok (derive key)
  | None =>
      match fs_exists fs v with
      | None => Throw SystemError
      | Some false => Ok None
      | Some true => Ok ((text ← fs_read fs v; unhex0x (trim text)) ≫= derive)
      end
  end.
Definition key_ok (fs : FS) (v : bytes) : bool :=
  match read_key fs (trim v) with Ok (Some _) => true | _ => false end.
Definition key_of (fs : FS) (v : bytes) : option KeyPair :=
  match read_key fs (trim v) with Ok o => o | _ => None end.

(** The defects for which the configuration is refused *)
Definition general_defects (fs : FS) (file : option Yaml) : bool :=
  section_defect (section_entry file "general") ||
  defect (λ _, true) (entry file "general" "name") || defect (λ _, true) (entry file "general" "node-id") ||
  defect (key_ok fs) (entry file "general" "node-key") || defect (λ _, true) (entry file "general" "base-path") ||
  defect (λ t, bool_decide (is_Some (Multiaddress_create (trim t)))) (entry file "general" "listen-addr") ||
  defect (λ _, true) (entry file "general" "bootnodes").
Definition database_defects (file : option Yaml) : bool :=
  section_defect (section_entry file "database") ||
  defect (λ _, true) (entry file "database" "path") || defect (λ _, true) (entry file "database" "cache_size").

(** ** Steps *)

Notation M := (SM (Configurator (FS := FS)) config_error).

Lemma keyPair_eq v s : keyPairFromPrivateKeyHex v s = (read_key (co_fs s) v, s).
Proof.
  unfold keyPairFromPrivateKeyHex, read_key, fs_query, mbind, sm_bind, mret, sm_ret, sm_get, sm_throw. cbn.
  destruct (unhex0x (trim v)); [done|]. cbn. destruct (fs_exists (co_fs s) v) as [[]|]; done.
Qed.

Lemma find_argument_eq {A B} (o : option A) (inj : A → B) (set : B → Configuration → Configuration)
    (get : Configuration → B) (s : Configurator (FS := FS)) :
  (∀ c, set (get c) c = c) →
  find_argument o (λ v, assign (set (inj v))) s = (Ok (), set_config (λ c, set (default (get c) (inj <$> o)) c) s).
Proof.
  intros Hset. destruct o; [done|]. cbn. unfold set_config. destruct s; cbn. by rewrite Hset.
Qed.

Lemma scalar_entry_eq {A B} key entries (conv : bytes → option A) (inj : A → B)
    (set : B → Configuration → Configuration) (get : Configuration → B) (s : Configurator (FS := FS)) :
  (∀ c, set (get c) c = c) →
  scalar_entry key entries (λ v, match conv v with Some a => assign (set (inj a)) | None => file_error end) s =
  (Ok (), set_config (λ c, set (default (get c) (inj <$> (text (yaml_lookup (chars key) entries) ≫= conv))) c)
            (set_file_error (co_file_has_error s ||
               defect (λ t, bool_decide (is_Some (conv t))) (yaml_lookup (chars key) entries)) s)).
Proof.
  intros Hset. unfold scalar_entry. destruct s as [c file e cli fs l].
  destruct (yaml_lookup (chars key) entries) as [|t|items|es|]; cbn.
  1,3,4: unfold file_error, sm_modify, set_config, set_file_error; cbn; by rewrite orb_true_r, Hset.
  - destruct (conv t); cbn; unfold set_config, set_file_error; cbn; by rewrite ?orb_false_r, ?orb_true_r, ?Hset.
  - unfold set_config, set_file_error; cbn. by rewrite orb_false_r, Hset.
Qed.

Lemma scalar_entry_plain {B} key entries (inj : bytes → B) (set : B → Configuration → Configuration)
    (get : Configuration → B) (s : Configurator (FS := FS)) :
  (∀ c, set (get c) c = c) →
  scalar_entry key entries (λ v, assign (set (inj v))) s =
  (Ok (), set_config (λ c, set (default (get c) (inj <$> text (yaml_lookup (chars key) entries))) c)
            (set_file_error (co_file_has_error s || defect (λ _, true) (yaml_lookup (chars key) entries)) s)).
Proof.
  intros Hset. pose proof (scalar_entry_eq key entries Some inj set get s Hset) as E. cbn in E. rewrite E.
  by destruct (yaml_lookup (chars key) entries).
Qed.

(** The key of the file; the existence test of its path may throw. *)
Lemma node_key_entry_ok entries (s s' : Configurator (FS := FS)) u :
  scalar_entry "node-key" entries (λ value,
    r ← keyPairFromPrivateKeyHex (trim value);
    match r with Some key => assign (set_node_key (Some key)) | None => file_error end) s = (Ok u, s') →
  s' = set_config (λ c, set_node_key (match text (yaml_lookup (chars "node-key") entries) ≫= key_of (co_fs s) with
                                      | Some k => Some k | None => cf_node_key c end) c)
         (set_file_error (co_file_has_error s || defect (key_ok (co_fs s)) (yaml_lookup (chars "node-key") entries)) s).
Proof.
  unfold scalar_entry. destruct s as [c file e cli fs l].
  assert (Hset : ∀ c : Configuration, set_node_key (cf_node_key c) c = c) by (by intros []).
  destruct (yaml_lookup (chars "node-key") entries) as [|t|items|es|]; cbn.
  1,3,4: intros [= _ <-]; unfold set_config, set_file_error; cbn; by rewrite orb_true_r, Hset.
  - unfold mbind, sm_bind. rewrite keyPair_eq. cbn. unfold key_of, key_ok. destruct (read_key fs (trim t)) as [[k|]|e'|x]; cbn; [| |done..].
    all: intros [= _ <-]; unfold set_config, set_file_error; cbn; by rewrite ?orb_false_r, ?orb_true_r, ?Hset.
  - intros [= _ <-]. unfold set_config, set_file_error; cbn. by rewrite orb_false_r, Hset.
Qed.

Lemma file_section_ok key f (s s' : Configurator (FS := FS)) u :
  file_section key f s = (Ok u, s') →
  match section_entry (co_config_file s) key with
  | Map entries => f entries s = (Ok u, s')
  | Undefined => s' = s
  | _ => s' = set_file_error true s
  end.
Proof.
  unfold file_section, section_entry, mbind, sm_bind, sm_get. cbn. destruct (co_config_file s) as [[| | | |]|]; cbn; try (by intros [= _ <-]); try done.
  destruct (yaml_lookup (chars key) _); cbn; try (by intros [= _ <-]); done.
Qed.

Lemma report_ok (s s' : Configurator (FS := FS)) u :
  report_file_errors s = (Ok u, s') → s' = s ∧ co_file_has_error s = false.
Proof.
  unfold report_file_errors, mbind, sm_bind, sm_get. cbn. destruct (co_file_has_error s) eqn:E; [done|]. by intros [= _ <-].
Qed.

Lemma fs_query_ok {A} (q : FS → option A) (s s' : Configurator (FS := FS)) a :
  fs_query q s = (Ok a, s') → s' = s ∧ q (co_fs s) = Some a.
Proof.
  unfold fs_query, mbind, sm_bind, sm_get. cbn. destruct (q (co_fs s)); [|done]. by intros [= <- <-].
Qed.

(** ** The sections *)

(** What a phase leaves alone *)
Definition same_input (s s' : Configurator (FS := FS)) : Prop :=
  co_config_file s' = co_config_file s ∧ co_cli s' = co_cli s ∧ co_fs s' = co_fs s.

Lemma general_file_ok entries (s s' : Configurator (FS := FS)) u :
  general_file entries s = (Ok u, s') →
  let L (key : string) := yaml_lookup (chars key) entries in
  let c := co_config s in
  same_input s s' ∧
  co_file_has_error s' = co_file_has_error s || defect (λ _, true) (L "name") || defect (λ _, true) (L "node-id") ||
    defect (key_ok (co_fs s)) (L "node-key") || defect (λ _, true) (L "base-path") ||
    defect (λ t, bool_decide (is_Some (Multiaddress_create (trim t)))) (L "listen-addr") ||
    defect (λ _, true) (L "bootnodes") ∧
  co_config s' =
    mkConfiguration (default (cf_name c) (text (L "name"))) (default (cf_node_id c) (text (L "node-id")))
      (default (cf_base_path c) (text (L "base-path"))) (default (cf_bootnodes_file c) (text (L "bootnodes")))
      (cf_genesis_dir c)
      (default (cf_listen_multiaddr c) (Some <$> (text (L "listen-addr") ≫= λ t, Multiaddress_create (trim t))))
      (match text (L "node-key") ≫= key_of (co_fs s) with Some k => Some k | None => cf_node_key c end)
      (cf_max_bootnodes c) (cf_state_sync_url c) (cf_is_aggregator c) (cf_subnet_count c) (cf_database c)
      (cf_metrics c) (cf_api_endpoint c).
Proof.
  unfold general_file. intros Hrun. cbn zeta.
  rewrite (sm_bind_ok _ _ _ _ _ (scalar_entry_plain "name" entries id set_name cf_name s ltac:(by intros []))) in Hrun.
  erewrite sm_bind_ok in Hrun; [|exact (scalar_entry_plain "node-id" entries id set_node_id cf_node_id _ ltac:(by intros []))].
  apply sm_bind_ok_inv in Hrun as ([] & s1 & Hkey & Hrun). apply node_key_entry_ok in Hkey.
  erewrite sm_bind_ok in Hrun; [|exact (scalar_entry_plain "base-path" entries id set_base_path cf_base_path _ ltac:(by intros []))].
  erewrite sm_bind_ok in Hrun;
    [|exact (scalar_entry_eq "listen-addr" entries (λ t, Multiaddress_create (trim t)) Some set_listen_multiaddr cf_listen_multiaddr _ ltac:(by intros []))].
  rewrite (scalar_entry_plain "bootnodes" entries id set_bootnodes_file cf_bootnodes_file _ ltac:(by intros [])) in Hrun.
  injection Hrun as _ <-. rewrite Hkey. destruct s as [[] file e cli fs l]. cbn. rewrite !option_fmap_id. done.
Qed.

Definition multiaddr_of (t : bytes) : option Multiaddress := Multiaddress_create (trim t).

(** An argument that is validated: when no argument failed it was accepted. *)
Lemma cli_key_ok (o : option bytes) (s s' : Configurator (FS := FS)) fail :
  (match o with
   | Some value =>
       r ← keyPairFromPrivateKeyHex (trim value);
       match r with
       | Some key => assign (set_node_key (Some key)) ≫= λ _, mret false
       | None => mret true
       end
   | None => mret false
   end : M bool) s = (Ok fail, s') →
  s' = set_config (λ c, set_node_key (match o ≫= key_of (co_fs s) with Some k => Some k | None => cf_node_key c end) c) s ∧
  (fail = false → ∀ v, o = Some v → is_Some (key_of (co_fs s) v)).
Proof.
  destruct s as [[] file e cli fs l]. destruct o as [v|]; cbn; [|by intros [= <- <-]].
  unfold mbind, sm_bind. rewrite keyPair_eq. cbn. unfold key_of at 1 2. destruct (read_key fs (trim v)) as [[k|]|e'|x] eqn:Hk; cbn; [| |done..].
  all: intros [= <- <-]; split; [done|]; intros ? w [= <-]; unfold key_of; rewrite Hk; done.
Qed.

Lemma cli_addr_ok (o : option bytes) (s s' : Configurator (FS := FS)) fail :
  (match o with
   | Some value =>
       match Multiaddress_create (trim value) with
       | Some a => assign (set_listen_multiaddr (Some a)) ≫= λ _, mret false
       | None => mret true
       end
   | None => mret false
   end : M bool) s = (Ok fail, s') →
  s' = set_config (λ c, set_listen_multiaddr (match o ≫= multiaddr_of with Some a => Some a | None => cf_listen_multiaddr c end) c) s ∧
  (fail = false → ∀ v, o = Some v → is_Some (multiaddr_of v)).
Proof.
  destruct s as [[] file e cli fs l]. destruct o as [v|]; cbn; [|by intros [= <- <-]].
  unfold multiaddr_of. destruct (Multiaddress_create (trim v)) as [a|] eqn:Ha; cbn; intros [= <- <-]; split; try done.
  all: intros ? w [= <-]; by rewrite Ha.
Qed.

Lemma general_cli_ok cli (s s' : Configurator (FS := FS)) u :
  general_cli cli s = (Ok u, s') →
  let c := co_config s in
  same_input s s' ∧ co_file_has_error s' = co_file_has_error s ∧
  (∀ v, cli_node_key cli = Some v → is_Some (key_of (co_fs s) v)) ∧
  (∀ v, cli_listen_addr cli = Some v → is_Some (multiaddr_of v)) ∧
  cli_attestation_committee_count cli ≠ Some 0 ∧
  ∃ genesis, cli_genesis_dir cli = Some genesis ∧
  co_config s' =
    mkConfiguration (default (cf_name c) (cli_name cli)) (default (cf_node_id c) (cli_node_id cli))
      (default (cf_base_path c) (cli_data_dir cli ∪ cli_base_path cli))
      (default (path_append genesis (chars "nodes.yaml")) (cli_bootnodes cli))
      genesis
      (match cli_listen_addr cli ≫= multiaddr_of with Some a => Some a | None => cf_listen_multiaddr c end)
      (match cli_node_key cli ≫= key_of (co_fs s) with Some k => Some k | None => cf_node_key c end)
      (default (cf_max_bootnodes c) (Some <$> cli_max_bootnodes cli))
      (default (cf_state_sync_url c) (Some <$> cli_checkpoint_sync_url cli))
      (cli_is_aggregator cli || cf_is_aggregator c)
      (default (cf_subnet_count c) (cli_attestation_committee_count cli)) (cf_database c)
      (cf_metrics c) (cf_api_endpoint c).
Proof.
  unfold general_cli. intros Hrun. cbn zeta.
  rewrite (sm_bind_ok _ _ _ _ _ (find_argument_eq (cli_name cli) id set_name cf_name s ltac:(by intros []))) in Hrun.
  erewrite sm_bind_ok in Hrun; [|exact (find_argument_eq (cli_node_id cli) id set_node_id cf_node_id _ ltac:(by intros []))].
  apply sm_bind_ok_inv in Hrun as (fail_key & s1 & [Hs1 Hkey]%cli_key_ok & Hrun).
  erewrite sm_bind_ok in Hrun; [|exact (find_argument_eq (cli_max_bootnodes cli) Some set_max_bootnodes cf_max_bootnodes _ ltac:(by intros []))].
  erewrite sm_bind_ok in Hrun; [|exact (find_argument_eq (cli_base_path cli) id set_base_path cf_base_path _ ltac:(by intros []))].
  erewrite sm_bind_ok in Hrun; [|exact (find_argument_eq (cli_data_dir cli) id set_base_path cf_base_path _ ltac:(by intros []))].
  apply sm_bind_ok_inv in Hrun as (fail_addr & s2 & [Hs2 Haddr]%cli_addr_ok & Hrun).
  apply sm_bind_ok_inv in Hrun as ([] & s3 & Hgen & Hrun). destruct (cli_genesis_dir cli) as [genesis|]; [|done]. injection Hgen as <-.
  erewrite sm_bind_ok in Hrun; [|reflexivity].
  erewrite sm_bind_ok in Hrun; [|exact (find_argument_eq (cli_checkpoint_sync_url cli) Some set_state_sync_url cf_state_sync_url _ ltac:(by intros []))].
  apply sm_bind_ok_inv in Hrun as ([] & s4 & Hagg & Hrun). apply sm_bind_ok_inv in Hrun as ([] & s5 & Hcom & Hrun).
  destruct (fail_key || fail_addr) eqn:Hfail; [done|]. injection Hrun as _ <-. apply orb_false_iff in Hfail as [-> ->].
  assert (Hc : cli_attestation_committee_count cli ≠ Some 0).
  { intros Hc. rewrite Hc in Hcom. done. }
  assert (Hs5 : s5 = set_config (λ c, set_subnet_count (default (cf_subnet_count c) (cli_attestation_committee_count cli)) c) s4).
  { destruct (cli_attestation_committee_count cli) as [n|]; cbn in Hcom; [|injection Hcom as <-; by destruct s4 as [[]]].
    destruct (N.eqb_spec n 0); [done|]. by injection Hcom as <-. }
  match type of Hagg with _ ?s3 = _ =>
    assert (Hs4 : s4 = set_config (λ c, set_is_aggregator (cli_is_aggregator cli || cf_is_aggregator c) c) s3) end.
  { destruct (cli_is_aggregator cli); injection Hagg as <-; [done|]. unfold set_config. cbn. by f_equal. }
  clear Hagg Hcom. subst s5 s4 s2 s1. destruct s as [c file e cl fs l]. cbn in *.
  split_and!; [done|done|by intros v; apply Hkey|by intros v; apply Haddr|done|]. exists genesis. split; [done|].
  destruct c. cbn. rewrite !option_fmap_id.
  by destruct (cli_data_dir cli), (cli_base_path cli), (cli_bootnodes cli).
Qed.

(** Where a relative path is resolved *)
Definition against (fs : FS) (from_current : bool) (cfg : option bytes) (p : path) : option path :=
  if is_absolute p then fs_weakly_canonical fs p
  else match (if from_current then None else cfg) with
  | Some cfg => fs_weakly_canonical fs (path_append (parent_path cfg) p)
  | None => current ← fs_current_path fs; fs_weakly_canonical fs (path_append current p)
  end.

Lemma from_current_ok p (s s' : Configurator (FS := FS)) r :
  (current ← fs_query fs_current_path; fs_query (λ fs, fs_weakly_canonical fs (path_append current p))) s = (Ok r, s') →
  s' = s ∧ (current ← fs_current_path (co_fs s); fs_weakly_canonical (co_fs s) (path_append current p)) = Some r.
Proof.
  intros (cur & s1 & [-> Hc]%fs_query_ok & [-> Hr]%fs_query_ok)%sm_bind_ok_inv. split; [done|]. by rewrite Hc.
Qed.

Lemma resolve_base_path_ok cli (s s' : Configurator (FS := FS)) u :
  resolve_base_path cli s = (Ok u, s') →
  ∃ p, against (co_fs s) false (cli_config cli) (cf_base_path (co_config s)) = Some p ∧
    s' = set_config (set_base_path p) s.
Proof.
  unfold resolve_base_path. intros Hrun. erewrite sm_bind_ok in Hrun by done.
  apply sm_bind_ok_inv in Hrun as (p & s1 & Hp & [= _ <-]). exists p.
  enough (s1 = s ∧ against (co_fs s) false (cli_config cli) (cf_base_path (co_config s)) = Some p) as [-> ?] by done.
  unfold against. case_match; [by apply fs_query_ok in Hp as [-> ->]|].
  destruct (cli_config cli); [by apply fs_query_ok in Hp as [-> ->]|by apply from_current_ok in Hp].
Qed.

Lemma ensure_base_path_ok (s s' : Configurator (FS := FS)) u :
  ensure_base_path s = (Ok u, s') →
  ∃ fs', s' = set_fs fs' s ∧ fs_is_directory fs' (cf_base_path (co_config s)) = Some true ∧
    (fs' = co_fs s ∨ ∃ created, fs_create_directories (cf_base_path (co_config s)) (co_fs s) = (Some created, fs')).
Proof.
  unfold ensure_base_path. intros Hrun. erewrite sm_bind_ok in Hrun by done. cbn zeta in Hrun.
  apply sm_bind_ok_inv in Hrun as ([] & s1 & Hex & Hrun). erewrite sm_bind_ok in Hrun by done.
  assert (∃ fs', s1 = set_fs fs' s ∧ (fs' = co_fs s ∨ ∃ created,
    fs_create_directories (cf_base_path (co_config s)) (co_fs s) = (Some created, fs'))) as (fs' & -> & Hor).
  { destruct (fs_exists (co_fs s) (cf_base_path (co_config s))) as [[]|]; [| |done].
    - injection Hex as <-. exists (co_fs s). split; [by destruct s|by left].
    - destruct (fs_create_directories (cf_base_path (co_config s)) (co_fs s)) as [[created|] fs'] eqn:Hc; [|done].
      injection Hex as <-. exists fs'. split; [done|right; by exists created]. }
  exists fs'. cbn in Hrun. destruct (fs_is_directory fs' (cf_base_path (co_config s))) as [[]|]; [|done..]. by injection Hrun as _ <-.
Qed.

Lemma path_append_nonempty a b : b ≠ [] → path_append a b ≠ [].
Proof.
  intros Hb. unfold path_append. destruct (is_absolute b); [done|]. destruct (last a); [|done].
  case_match; destruct a; done.
Qed.

Lemma resolve_bootnodes_ok cli (s s' : Configurator (FS := FS)) u :
  resolve_bootnodes cli s = (Ok u, s') →
  (cf_bootnodes_file (co_config s) = [] ∧ s' = s) ∨
  ∃ p, against (co_fs s) (bool_decide (is_Some (cli_bootnodes cli))) (cli_config cli) (cf_bootnodes_file (co_config s)) = Some p ∧
    fs_is_regular_file (co_fs s) p = Some true ∧ s' = set_config (set_bootnodes_file p) s.
Proof.
  unfold resolve_bootnodes. intros Hrun. erewrite sm_bind_ok in Hrun by done.
  destruct (cf_bootnodes_file (co_config s)) as [|x q]; [injection Hrun as _ <-; by left|right].
  apply sm_bind_ok_inv in Hrun as (p & s1 & Hp & Hrun). erewrite sm_bind_ok in Hrun by done.
  apply sm_bind_ok_inv in Hrun as (regular & s2 & [-> Hreg]%fs_query_ok & Hrun). destruct regular; [|done]. injection Hrun as _ <-.
  exists p. enough (s1 = s ∧ against (co_fs s) (bool_decide (is_Some (cli_bootnodes cli))) (cli_config cli) (x :: q) = Some p)
    as [-> ?] by done.
  unfold resolve_relative in Hp. unfold against. destruct (is_absolute (x :: q)); [by apply fs_query_ok in Hp as [-> ->]|].
  cbn zeta in Hp. case_bool_decide; [by apply from_current_ok in Hp|].
  destruct (cli_config cli); [by apply fs_query_ok in Hp as [-> ->]|by apply from_current_ok in Hp].
Qed.

Lemma general_section_ok (s s' : Configurator (FS := FS)) u :
  file_section "general" general_file s = (Ok u, s') →
  let S := setting (co_config_file s) "general" in
  let c := co_config s in
  same_input s s' ∧
  co_file_has_error s' = co_file_has_error s || general_defects (co_fs s) (co_config_file s) ∧
  co_config s' =
    mkConfiguration (default (cf_name c) (S "name")) (default (cf_node_id c) (S "node-id"))
      (default (cf_base_path c) (S "base-path")) (default (cf_bootnodes_file c) (S "bootnodes"))
      (cf_genesis_dir c)
      (match S "listen-addr" ≫= multiaddr_of with Some a => Some a | None => cf_listen_multiaddr c end)
      (match S "node-key" ≫= key_of (co_fs s) with Some k => Some k | None => cf_node_key c end)
      (cf_max_bootnodes c) (cf_state_sync_url c) (cf_is_aggregator c) (cf_subnet_count c) (cf_database c)
      (cf_metrics c) (cf_api_endpoint c).
Proof.
  intros Hrun%file_section_ok. cbn zeta. unfold general_defects, setting, entry.
  destruct (section_entry (co_config_file s) "general") as [|t|items|entries|].
  1,2,3,5: subst s'; split_and!; try done; [by cbn; rewrite ?orb_true_r, ?orb_false_r|by destruct s as [[]]].
  apply general_file_ok in Hrun as (Hin & -> & ->). split_and!; [done| |].
  - cbn [section_defect]. by rewrite !orb_assoc, orb_false_r.
  - f_equal. unfold multiaddr_of. destruct (text _) as [t|]; [cbn|done]. by destruct (Multiaddress_create (trim t)).
Qed.

Lemma database_section_ok (s s' : Configurator (FS := FS)) u :
  file_section "database" database_file s = (Ok u, s') →
  let S := setting (co_config_file s) "database" in
  same_input s s' ∧
  co_file_has_error s' = co_file_has_error s || database_defects (co_config_file s) ∧
  co_config s' =
    set_database (mkDatabaseConfig (default (db_directory (cf_database (co_config s))) (S "path"))
                    (default (db_cache_size (cf_database (co_config s))) (S "cache_size" ≫= parseByteQuantity))) (co_config s).
Proof.
  intros Hrun%file_section_ok. cbn zeta. unfold database_defects, setting, entry.
  destruct (section_entry (co_config_file s) "database") as [|t|items|entries|].
  1,2,3,5: subst s'; split_and!; try done; [by cbn; rewrite ?orb_true_r, ?orb_false_r|by destruct s as [[???????????[]]]].
  unfold database_file in Hrun.
  rewrite (sm_bind_ok _ _ _ _ _ (scalar_entry_plain "path" entries id set_db_directory (λ c, db_directory (cf_database c)) s
             ltac:(by intros [???????????[]]))) in Hrun.
  unfold scalar_entry in Hrun. rewrite option_fmap_id in Hrun. destruct s as [c file e cli fs l]. cbn in *.
  destruct (yaml_lookup (chars "cache_size") entries) as [|t|items|es|]; cbn [text defect] in *.
  2: cbn [mbind option_bind]; destruct (parseByteQuantity t).
  all: unfold file_error, assign, sm_modify, mret, sm_ret in Hrun; injection Hrun as _ <-; cbn; split_and!; try done; by rewrite ?orb_assoc, ?orb_false_r, ?orb_true_r.
Qed.

Lemma database_ok (s s' : Configurator (FS := FS)) u :
  initDatabaseConfig s = (Ok u, s') → co_file_has_error s = false →
  let S := setting (co_config_file s) "database" in
  let directory := default (db_directory (cf_database (co_config s))) (cli_db_path (co_cli s) ∪ S "path") in
  same_input s s' ∧ co_file_has_error s' = false ∧ database_defects (co_config_file s) = false ∧
  ∃ p, fs_weakly_canonical (co_fs s)
         (if is_absolute directory then directory else path_append (cf_base_path (co_config s)) directory) = Some p ∧
  co_config s' =
    set_database (mkDatabaseConfig p
      (default (db_cache_size (cf_database (co_config s))) (cli_db_cache_size (co_cli s) ∪ (S "cache_size" ≫= parseByteQuantity))))
      (co_config s).
Proof.
  unfold initDatabaseConfig. intros Hrun He. cbn zeta.
  apply sm_bind_ok_inv in Hrun as ([] & s1 & (Hin & Herr & Hc)%database_section_ok & Hrun).
  apply sm_bind_ok_inv in Hrun as ([] & s2 & [-> Hrep]%report_ok & Hrun). rewrite Herr, He in Hrep. cbn in Hrep.
  erewrite sm_bind_ok in Hrun by done.
  erewrite sm_bind_ok in Hrun;
    [|exact (find_argument_eq (cli_db_path (co_cli s1)) id set_db_directory (λ c, db_directory (cf_database c)) _ ltac:(by intros [???????????[]]))].
  erewrite sm_bind_ok in Hrun;
    [|exact (find_argument_eq (cli_db_cache_size (co_cli s1)) id set_db_cache_size (λ c, db_cache_size (cf_database c)) _ ltac:(by intros [???????????[]]))].
  erewrite sm_bind_ok in Hrun by done.
  apply sm_bind_ok_inv in Hrun as (p & s2 & [-> Hp]%fs_query_ok & [= _ <-]). rewrite !option_fmap_id in *.
  destruct Hin as (Hf & Hcli & Hfs). cbn in *. rewrite Hc, Hcli, Hfs in *. cbn in *.
  assert (Hd : ∀ (o1 o2 : option path) d, default (default d o2) o1 = default d (o1 ∪ o2)) by (by intros [] []).
  assert (Hd' : ∀ (o1 o2 : option N) d, default (default d o2) o1 = default d (o1 ∪ o2)) by (by intros [] []).
  rewrite Hd in Hp. split_and!; try done; [by rewrite Herr, He|].
  exists p. split; [done|]. rewrite Hd'. by destruct (co_config s).
Qed.

(** ** Metrics *)

(** What the metrics section says: invalid values are passed over. *)
Definition flag_of (t : bytes) : option bool :=
  if bool_decide (t = chars "true") then Some true
  else if bool_decide (t = chars "false") then Some false else None.
Definition port_of (t : bytes) : option N :=
  v ← as_ssize t; if ((0 <? v) && (v <=? 65535))%Z then Some (Z.to_N v) else None.

(** An endpoint of which the host and the port may be replaced *)
Definition endpoint_with (e : Endpoint) (host : option Address) (port : option N) : Endpoint :=
  mkEndpoint (default (ep_address e) host) (default (ep_port e) port).

Lemma default_me_enabled_eq v c :
  default_me_enabled v c = set_metrics (mkMetricsConfig (me_endpoint (cf_metrics c))
    (Some (default v (me_enabled (cf_metrics c))))) c.
Proof. by destruct c as [????????????[? []]]. Qed.

(** A step that replaces the metrics and perhaps notes an error *)
Definition metrics_step (m : M ()) (f : MetricsConfig → MetricsConfig) : Prop :=
  ∀ (s s' : Configurator (FS := FS)) u, m s = (Ok u, s') →
    ∃ e, s' = set_config (λ c, set_metrics (f (cf_metrics c)) c) (set_file_error e s).

Lemma metrics_keep (s : Configurator (FS := FS)) e :
  set_file_error e s = set_config (λ c, set_metrics (cf_metrics c) c) (set_file_error e s).
Proof. by destruct s as [[]]. Qed.

Lemma scalar_metrics_step key entries f g :
  (∀ t, metrics_step (f t) (g (Some t))) → (∀ m, g None m = m) →
  metrics_step (scalar_entry key entries f) (g (text (yaml_lookup (chars key) entries))).
Proof.
  intros Hf Hg s s' u. unfold scalar_entry. destruct (yaml_lookup (chars key) entries) as [|t|items|es|]; cbn [text].
  2: apply Hf.
  1,2,3: intros [= _ <-]; exists true.
  4: intros [= _ <-]; exists (co_file_has_error s).
  all: unfold set_config; rewrite Hg; by destruct s as [[]].
Qed.

Definition file_enabled (t : option bytes) (m : MetricsConfig) : MetricsConfig :=
  mkMetricsConfig (me_endpoint m) ((t ≫= flag_of) ∪ me_enabled m).
Definition file_host (t : option bytes) (m : MetricsConfig) : MetricsConfig :=
  match t ≫= make_address with
  | Some a => mkMetricsConfig (mkEndpoint a (ep_port (me_endpoint m))) (Some (default true (me_enabled m)))
  | None => m
  end.
Definition file_port (t : option bytes) (m : MetricsConfig) : MetricsConfig :=
  match t ≫= port_of with
  | Some p => mkMetricsConfig (mkEndpoint (ep_address (me_endpoint m)) p) (Some (default true (me_enabled m)))
  | None => m
  end.

Lemma metrics_assign (g : Configuration → Configuration) f :
  (∀ c, g c = set_metrics (f (cf_metrics c)) c) → metrics_step (assign g) f.
Proof.
  intros Hg s s' u [= _ <-]. exists (co_file_has_error s). unfold set_config. rewrite Hg. by destruct s.
Qed.
Lemma metrics_none f : (∀ m, f m = m) → metrics_step (mret ()) f.
Proof.
  intros Hf s s' u [= _ <-]. exists (co_file_has_error s). unfold set_config. rewrite Hf. by destruct s as [[]].
Qed.
Lemma metrics_error f : (∀ m, f m = m) → metrics_step file_error f.
Proof. intros Hf s s' u [= _ <-]. exists true. unfold set_config. rewrite Hf. by destruct s as [[]]. Qed.

Lemma metrics_file_ok entries :
  let L (key : string) := text (yaml_lookup (chars key) entries) in
  metrics_step (metrics_file entries) (λ m, file_port (L "port") (file_host (L "host") (file_enabled (L "enabled") m))).
Proof.
  intros L s s' u. unfold metrics_file.
  intros ([] & s1 & Hen & ([] & s2 & Hho & Hpo)%sm_bind_ok_inv)%sm_bind_ok_inv.
  eapply (scalar_metrics_step _ _ _ file_enabled) in Hen as [e1 ->]; [|intros t|by intros [? []]].
  eapply (scalar_metrics_step _ _ _ file_host) in Hho as [e2 ->]; [|intros t|done].
  eapply (scalar_metrics_step _ _ _ file_port) in Hpo as [e3 ->]; [|intros t|done].
  - by exists e3.
  - unfold file_port, port_of. cbn. destruct (as_ssize t) as [v|]; [|by intros ???]. cbn.
    destruct ((0 <? v) && (v <=? 65535))%Z; cbn; [|by apply metrics_error]. apply metrics_assign. intros c. by rewrite default_me_enabled_eq.
  - unfold file_host. cbn. destruct (make_address t) as [v|]; cbn; [|by apply metrics_none]. apply metrics_assign. intros c. by rewrite default_me_enabled_eq.
  - unfold file_enabled, flag_of. cbn. case_bool_decide; [|case_bool_decide]; [apply metrics_assign..|apply metrics_error]; try done.
    + intros c. cbn. by destruct (me_enabled (cf_metrics c)).
    + intros c. cbn. by destruct (me_enabled (cf_metrics c)).
    + by intros [? []].
Qed.

Lemma metrics_section_ok (s s' : Configurator (FS := FS)) u :
  file_section "metrics" metrics_file s = (Ok u, s') →
  let S := setting (co_config_file s) "metrics" in
  let m := cf_metrics (co_config s) in
  let host := S "host" ≫= make_address in
  let port := S "port" ≫= port_of in
  same_input s s' ∧
  co_config s' =
    set_metrics (mkMetricsConfig (endpoint_with (me_endpoint m) host port)
      ((S "enabled" ≫= flag_of) ∪ me_enabled m ∪ (if bool_decide (is_Some host ∨ is_Some port) then Some true else None)))
      (co_config s).
Proof.
  intros Hrun%file_section_ok. cbn zeta. unfold setting, entry.
  destruct (section_entry (co_config_file s) "metrics") as [|t|items|entries|].
  1,2,3,5: subst s'; split; [done|]; by destruct s as [[????????????[[][[]|]]]].
  apply metrics_file_ok in Hrun as [e ->]. split; [done|]. destruct s as [c file e0 cli fs l]. cbn. f_equal.
  unfold file_port, file_host, file_enabled, endpoint_with. destruct (cf_metrics c) as [[a p] en]. cbn.
  destruct (text (yaml_lookup (chars "host") entries) ≫= make_address) as [h|], (text (yaml_lookup (chars "port") entries) ≫= port_of) as [q|].
  all: destruct (text (yaml_lookup (chars "enabled") entries) ≫= flag_of), en; try done.
Qed.

Lemma parseEndpoint_ok endpoint host port r :
  parseEndpoint endpoint host port = Ok r →
  r = (bool_decide (is_Some host ∨ is_Some port), endpoint_with endpoint (host ≫= make_address) port) ∧
  (∀ v, host = Some v → is_Some (make_address v)).
Proof.
  unfold parseEndpoint, endpoint_with. destruct endpoint as [a p], host as [h|], port as [q|]; cbn.
  1,2: destruct (make_address h) as [b|] eqn:Hb; cbn; [|done].
  all: intros [= <-]; split; [done|]; intros v [= <-]; by rewrite Hb.
Qed.

(** Whether the metrics are served *)
Definition metrics_served (enabled : option bool) (given disable : bool) : bool :=
  negb disable && default given enabled.

Lemma metrics_ok (s s' : Configurator (FS := FS)) u :
  initOpenMetricsConfig s = (Ok u, s') →
  let S := setting (co_config_file s) "metrics" in
  let cli := co_cli s in
  let c := co_config s in
  let host := S "host" ≫= make_address in
  let port := S "port" ≫= port_of in
  let given := bool_decide (is_Some (cli_metrics_host cli) ∨ is_Some (cli_metrics_port cli)) in
  let enabled := (S "enabled" ≫= flag_of) ∪ me_enabled (cf_metrics c) ∪
                 (if bool_decide (is_Some host ∨ is_Some port) then Some true else None) in
  (∀ v, cli_metrics_host cli = Some v → is_Some (make_address v)) ∧
  (∀ v, cli_api_host cli = Some v → is_Some (make_address v)) ∧
  co_fs s' = co_fs s ∧
  co_config s' =
    set_node_key (Some (default generate (cf_node_key c)))
      (set_api_endpoint (endpoint_with (cf_api_endpoint c) (cli_api_host cli ≫= make_address) (cli_api_port cli))
        (set_metrics (mkMetricsConfig
             (endpoint_with (endpoint_with (me_endpoint (cf_metrics c)) host port) (cli_metrics_host cli ≫= make_address) (cli_metrics_port cli))
             (Some (metrics_served enabled given (cli_metrics_disable cli)))) c)).
Proof.
  unfold initOpenMetricsConfig. intros Hrun. cbn zeta.
  apply sm_bind_ok_inv in Hrun as ([] & s1 & ((_ & Hcli & Hfs) & Hc)%metrics_section_ok & Hrun).
  erewrite sm_bind_ok in Hrun by done. cbn zeta in Hrun.
  apply sm_bind_ok_inv in Hrun as (r & s2 & [= Hr <-] & Hrun). apply parseEndpoint_ok in Hr as [-> Hmh].
  erewrite sm_bind_ok in Hrun by done. cbn [fst snd] in Hrun.
  apply sm_bind_ok_inv in Hrun as ([] & s3 & H3 & Hrun). apply sm_bind_ok_inv in Hrun as ([] & s4 & H4 & Hrun).
  erewrite sm_bind_ok in Hrun by done. erewrite sm_bind_ok in Hrun by done.
  apply sm_bind_ok_inv in Hrun as (r & s5 & [= Hr <-] & Hrun). apply parseEndpoint_ok in Hr as [-> Hah].
  erewrite sm_bind_ok in Hrun by done. injection Hrun as _ <-. cbn [fst snd] in *.
  rewrite Hc, Hcli in *. destruct s as [c file e cli fs l], s1 as [c1 file1 e1 cli1 fs1 l1]. cbn in *. subst c1 cli1 fs1.
  destruct (bool_decide (is_Some (cli_metrics_host cli) ∨ is_Some (cli_metrics_port cli))); injection H3 as <-;
    (destruct (cli_metrics_disable cli); injection H4 as <-); cbn; rewrite ?default_me_enabled_eq; cbn.
  all: split_and!; [done..|].
  all: match goal with |- context [?x ∪ ?y ∪ ?z] => generalize (x ∪ y ∪ z); intros en end.
  all: destruct c; cbn; rewrite ?default_me_enabled_eq; cbn; destruct cf_node_key, en as [[]|]; done.
Qed.

(** ** The whole configuration *)

Lemma shadow_rates_ok cli (s s' : Configurator (FS := FS)) u : shadow_rates cli s = (Ok u, s') → s' = s.
Proof. unfold shadow_rates. case_match; [done|]. by intros [= _ <-]. Qed.

Lemma default_union {A} (o1 o2 : option A) d : default (default d o2) o1 = default d (o1 ∪ o2).
Proof. by destruct o1, o2. Qed.
Lemma first_accepted {A} (o1 o2 : option bytes) (f : bytes → option A) :
  (∀ v, o1 = Some v → is_Some (f v)) → (o1 ≫= f) ∪ (o2 ≫= f) = (o1 ∪ o2) ≫= f.
Proof.
  destruct o1 as [v|]; [|by destruct o2 as [w|]; [cbn; destruct (f w)|]]. intros Hv. destruct (Hv v eq_refl) as [a Ha].
  destruct o2 as [w|]; cbn; rewrite Ha; [by destruct (f w)|done].
Qed.
Lemma match_union {A} (o1 o2 : option A) : (match o1 with Some a => Some a | None => o2 end) = o1 ∪ o2.
Proof. by destruct o1, o2. Qed.

Lemma union_none {A} (o : option A) : o ∪ None = o.
Proof. by destruct o. Qed.

Lemma step1_ok vm fs (s : Configurator (FS := FS)) :
  step1 (Some vm) (Configurator_new fs) = (Ok false, s) →
  co_config s = Configuration_new ∧ co_file_has_error s = false ∧ co_fs s = fs ∧
  co_config_file s = (st_config vm ≫= λ p, text ← fs_read fs p; yaml_load text).
Proof.
  unfold step1. destruct (st_help vm); [done|]. destruct (st_version vm); [done|].
  intros ([] & s1 & Hf & ([] & s2 & Hl & [= <-])%sm_bind_ok_inv)%sm_bind_ok_inv.
  assert (Hs1 : co_config s1 = Configuration_new ∧ co_file_has_error s1 = false ∧ co_fs s1 = fs ∧
    co_config_file s1 = (st_config vm ≫= λ p, text ← fs_read fs p; yaml_load text)).
  { destruct (st_config vm) as [p|]; cbn in Hf; [|by injection Hf as <-].
    unfold mbind, sm_bind, sm_get in Hf. cbn in Hf |- *. destruct (fs_read fs p ≫= λ text, yaml_load text) as [y|] eqn:Hy;
      unfold mbind in Hy; rewrite Hy in Hf; [|done]. by injection Hf as <-. }
  destruct (st_log vm); injection Hl as <-; done.
Qed.

Lemma logging_ok (s s' : Configurator (FS := FS)) y : getLoggingConfig s = (Ok y, s') → s' = s.
Proof.
  unfold getLoggingConfig, section_of. intros Hrun. erewrite sm_bind_ok in Hrun by done.
  assert (Hdef : ∀ r z z', (match yaml_load defaultConfigYaml with
    | None | Some (Scalar _) => sm_err ConfigFileParseFailed
    | Some root => section_of (FS := FS) "logging" root end) z = (Ok r, z') → z' = z).
  { unfold section_of. destruct (yaml_load defaultConfigYaml) as [[]|]; try done; by intros ??? [= _ <-]. }
  destruct (co_config_file s) as [[| | |es|]|]; try done; try (by apply Hdef in Hrun).
  erewrite sm_bind_ok in Hrun by done. destruct (yaml_lookup (chars "logging") es); try (by injection Hrun as _ <-). by apply Hdef in Hrun.
Qed.

(** The file of bootnodes: an empty argument means none. *)
Definition bootnodes_resolved (fs : FS) (cli : CliValues) (genesis boot : path) : Prop :=
  let p := default (path_append genesis (chars "nodes.yaml")) (cli_bootnodes cli) in
  (p = [] ∧ boot = []) ∨
  (against fs (bool_decide (is_Some (cli_bootnodes cli))) (cli_config cli) p = Some boot ∧
   fs_is_regular_file fs boot = Some true).

Lemma general_ok (s s' : Configurator (FS := FS)) u :
  initGeneralConfig s = (Ok u, s') → co_config s = Configuration_new → co_file_has_error s = false →
  let cli := co_cli s in
  let fs := co_fs s in
  let F := setting (co_config_file s) "general" in
  general_defects fs (co_config_file s) = false ∧ co_config_file s' = co_config_file s ∧ co_cli s' = cli ∧
  co_file_has_error s' = false ∧ cli_attestation_committee_count cli ≠ Some 0 ∧
  ∃ genesis base boot,
    cli_genesis_dir cli = Some genesis ∧
    against fs false (cli_config cli) (default [] (cli_data_dir cli ∪ cli_base_path cli ∪ F "base-path")) = Some base ∧
    fs_is_directory (co_fs s') base = Some true ∧ bootnodes_resolved (co_fs s') cli genesis boot ∧
    co_config s' =
      mkConfiguration (default (chars "noname") (cli_name cli ∪ F "name")) (default [] (cli_node_id cli ∪ F "node-id"))
        base boot genesis ((cli_listen_addr cli ∪ F "listen-addr") ≫= multiaddr_of)
        ((cli_node_key cli ∪ F "node-key") ≫= key_of fs) (cli_max_bootnodes cli) (cli_checkpoint_sync_url cli)
        (cli_is_aggregator cli) (default 1 (cli_attestation_committee_count cli))
        (cf_database Configuration_new) (cf_metrics Configuration_new) (cf_api_endpoint Configuration_new).
Proof.
  unfold initGeneralConfig. intros Hrun Hnew He. cbn zeta.
  apply sm_bind_ok_inv in Hrun as ([] & s1 & ((Hf1 & Hcli1 & Hfs1) & Herr & Hc1)%general_section_ok & Hrun).
  apply sm_bind_ok_inv in Hrun as ([] & s1' & [-> Hrep]%report_ok & Hrun). rewrite Hrep, He in Herr. cbn in Herr.
  erewrite sm_bind_ok in Hrun by done. rewrite Hcli1 in Hrun.
  apply sm_bind_ok_inv in Hrun as ([] & s2 & Hg & Hrun).
  apply general_cli_ok in Hg as ((Hf2 & Hcli2 & Hfs2) & He2 & Hkey & Haddr & Hcom & genesis & Hgen & Hc2).
  apply sm_bind_ok_inv in Hrun as ([] & s3 & (base & Hbase & ->)%resolve_base_path_ok & Hrun).
  apply sm_bind_ok_inv in Hrun as ([] & s4 & (fs' & -> & Hdir & _)%ensure_base_path_ok & Hrun).
  apply sm_bind_ok_inv in Hrun as ([] & s5 & Hboot & ->%shadow_rates_ok).
  rewrite Hfs1 in *. rewrite Hfs2, Hc2 in Hbase. rewrite Hc1, Hnew in *. cbn in Hbase, Hdir.
  rewrite default_union in Hbase.
  cbn [cf_name cf_node_id cf_base_path cf_listen_multiaddr cf_node_key cf_max_bootnodes cf_state_sync_url cf_is_aggregator
       cf_subnet_count cf_database cf_metrics cf_api_endpoint Configuration_new] in Hc2.
  rewrite !match_union, !union_none, (first_accepted _ _ _ Hkey), (first_accepted _ _ _ Haddr) in Hc2.
  apply resolve_bootnodes_ok in Hboot as [[Hb ->]|(boot & Hb & Hreg & ->)]; cbn in Hb; rewrite Hc2 in Hb; cbn in Hb.
  all: cbn; rewrite Hf2, Hf1, Hcli2, Hcli1, He2, Hrep, Hc2; cbn; split_and!; try done.
  1: exists genesis, base, []. 2: exists genesis, base, boot.
  all: split_and!; try done; [by left + by right|].
  all: rewrite ?Hb, ?default_union; cbn; by destruct (cli_max_bootnodes (co_cli s)), (cli_checkpoint_sync_url (co_cli s)), (cli_is_aggregator (co_cli s)).
Qed.

(** The precedence of the settings.  When the configuration is accepted, neither the general
    nor the database section of the file has a defect; every setting is the argument of the
    command line if it was given, else the value of the file, else the default; the node key,
    addresses and paths were valid; a key is generated only when none was given; metrics are
    served when they are enabled, or an address or a port for them is given, and not disabled.
    The bootnodes of the file and invalid values of its metrics section play no role. *)
Theorem configuration_precedence vm1 cli fs (s : Configurator (FS := FS)) :
  configure (Some vm1) (Some cli) (Configurator_new fs) = (Ok false, s) →
  let file := st_config vm1 ≫= λ p, text ← fs_read fs p; yaml_load text in
  let F := setting file in
  let c := co_config s in
  let directory := default (chars "db") (cli_db_path cli ∪ F "database" "path") in
  let host := F "metrics" "host" ≫= make_address in
  let port := F "metrics" "port" ≫= port_of in
  general_defects fs file = false ∧ database_defects file = false ∧
  cf_name c = default (chars "noname") (cli_name cli ∪ F "general" "name") ∧
  cf_node_id c = default [] (cli_node_id cli ∪ F "general" "node-id") ∧
  cf_node_key c = Some (default generate ((cli_node_key cli ∪ F "general" "node-key") ≫= key_of fs)) ∧
  cf_listen_multiaddr c = (cli_listen_addr cli ∪ F "general" "listen-addr") ≫= multiaddr_of ∧
  against fs false (cli_config cli) (default [] (cli_data_dir cli ∪ cli_base_path cli ∪ F "general" "base-path"))
    = Some (cf_base_path c) ∧
  fs_is_directory (co_fs s) (cf_base_path c) = Some true ∧
  cli_genesis_dir cli = Some (cf_genesis_dir c) ∧
  bootnodes_resolved (co_fs s) cli (cf_genesis_dir c) (cf_bootnodes_file c) ∧
  cf_max_bootnodes c = cli_max_bootnodes cli ∧ cf_state_sync_url c = cli_checkpoint_sync_url cli ∧
  cf_is_aggregator c = cli_is_aggregator cli ∧
  cf_subnet_count c = default 1 (cli_attestation_committee_count cli) ∧ cf_subnet_count c ≠ 0 ∧
  fs_weakly_canonical (co_fs s) (if is_absolute directory then directory else path_append (cf_base_path c) directory)
    = Some (db_directory (cf_database c)) ∧
  db_cache_size (cf_database c)
    = default (N.shiftl 512 20) (cli_db_cache_size cli ∪ (F "database" "cache_size" ≫= parseByteQuantity)) ∧
  cf_metrics c =
    mkMetricsConfig
      (endpoint_with (endpoint_with (mkEndpoint address_any 9615) host port) (cli_metrics_host cli ≫= make_address) (cli_metrics_port cli))
      (Some (metrics_served
               ((F "metrics" "enabled" ≫= flag_of) ∪ (if bool_decide (is_Some host ∨ is_Some port) then Some true else None))
               (bool_decide (is_Some (cli_metrics_host cli) ∨ is_Some (cli_metrics_port cli))) (cli_metrics_disable cli))) ∧
  cf_api_endpoint c = endpoint_with (mkEndpoint address_local 9667) (cli_api_host cli ≫= make_address) (cli_api_port cli).
Proof.
  unfold configure. intros Hrun. apply sm_bind_ok_inv in Hrun as ([] & s1 & Hs1 & Hrun); [done|].
  apply step1_ok in Hs1 as (Hnew & He & Hfs & Hfile). cbn zeta. rewrite <- Hfile.
  apply sm_bind_ok_inv in Hrun as (y & s1' & ->%logging_ok & Hrun). erewrite sm_bind_ok in Hrun by done.
  apply sm_bind_ok_inv in Hrun as ([] & s2 & Hcalc & [= <-]). unfold calculateConfig in Hcalc.
  apply sm_bind_ok_inv in Hcalc as ([] & s3 & Hg & Hcalc). apply general_ok in Hg; [|done..]. cbn in Hg.
  destruct Hg as (Hgd & Hf3 & Hcli3 & He3 & Hcom & genesis & base & boot & Hgen & Hbase & Hdir & Hboot & Hc3).
  apply sm_bind_ok_inv in Hcalc as ([] & s4 & Hd & Hm). apply database_ok in Hd; [|done]. cbn in Hd.
  destruct Hd as ((Hf4 & Hcli4 & Hfs4) & _ & Hdd & p & Hp & Hc4). apply metrics_ok in Hm as (_ & _ & Hfs5 & Hc5).
  rewrite Hf3, Hcli3, Hc3 in Hc4. rewrite Hf4, Hf3, Hcli4, Hcli3, Hc4 in Hc5. rewrite Hf3 in Hdd. rewrite Hf3, Hcli3, Hc3 in Hp. cbn in Hp.
  rewrite Hc5, Hfs5, Hfs4, Hfs in *.
  assert (default 1 (cli_attestation_committee_count cli) ≠ 0) by (destruct (cli_attestation_committee_count cli); cbn; congruence).
  split_and!; try done. cbn. by destruct (setting (co_config_file s1) "metrics" "enabled" ≫= flag_of).
Qed.
End spec.

(** ** An example *)

Module ConfigEx.

(** Every text is a key, an address and a path; the file system has one file of settings. *)
#[export] Instance libraries : ConfigLibraries := {|
  KeyPair := bytes; Multiaddress := bytes; Address := bytes;
  unhex0x := λ t, if bool_decide (t = []) then None else Some t;
  derive := Some; generate := chars "random"; Multiaddress_create := λ t, if bool_decide (t = []) then None else Some t;
  make_address := λ t, if bool_decide (t = []) then None else Some t;
  address_any := chars "0.0.0.0"; address_local := chars "127.0.0.1";
  as_ssize := λ t, Some (Z.of_N (digits_value t));
  yaml_load := λ t, if bool_decide (t = chars "config") then
    Some (Map [(chars "general", Map [(chars "name", Scalar (chars "file-name")); (chars "node-id", Scalar (chars "node-1"));
                                     (chars "bootnodes", Scalar (chars "my-nodes.yaml"))]);
               (chars "database", Map [(chars "cache_size", Scalar (chars "lots"))]);
               (chars "metrics", Map [(chars "enabled", Scalar (chars "perhaps")); (chars "port", Scalar (chars "99999"))]);
               (chars "logging", Sequence [])])
    else None;
  defaultConfigYaml := [];
|}.
#[export] Instance files : Filesystem unit := {|
  fs_exists := λ _ _, Some false; fs_create_directories := λ _ fs, (Some true, fs);
  fs_is_directory := λ _ _, Some true; fs_is_regular_file := λ _ _, Some true;
  fs_weakly_canonical := λ _ p, Some p; fs_current_path := λ _, Some (chars "/home");
  fs_read := λ _ p, if bool_decide (p = chars "/etc/node.yaml") then Some (chars "config") else None;
|}.
#[export] Instance no_shadow : ShadowBuild := false.

Definition vm1 : Step1Values := mkStep1Values false false (Some (chars "/etc/node.yaml")) None.
Definition cli : CliValues :=
  mkCliValues None None (Some (chars "/etc/node.yaml")) (Some (chars "genesis")) None None None (Some (chars "cli-name"))
    None None true None None (false, false) None None false None None None (Some 8080).

Definition final : Configurator := Eval vm_compute in (configure (Some vm1) (Some cli) (Configurator_new ())).2.

Lemma configuration_precedence_witness :
  configure (Some vm1) (Some cli) (Configurator_new ()) = (Ok false, final) ∧
  cf_name (co_config final) = chars "cli-name" ∧ cf_node_id (co_config final) = chars "node-1" ∧
  cf_bootnodes_file (co_config final) = chars "/etc/genesis/nodes.yaml" ∧
  db_cache_size (cf_database (co_config final)) = N.shiftl 512 20 ∧ me_enabled (cf_metrics (co_config final)) = Some false.
Proof.
  assert (Hrun : configure (Some vm1) (Some cli) (Configurator_new ()) = (Ok false, final)) by (vm_compute; reflexivity).
  split; [exact Hrun|]. pose proof (configuration_precedence vm1 cli () final Hrun) as Hp. cbv zeta in Hp.
  destruct Hp as (_ & _ & Hname & Hid & _). split; [rewrite Hname; vm_compute; reflexivity|].
  split; [rewrite Hid; vm_compute; reflexivity|]. vm_compute. repeat split.
Defined.

(** The general section must be a map; the metrics section may be anything. *)
Lemma metrics_errors_ignored :
  let with_file y := @configure {|
    KeyPair := bytes; Multiaddress := bytes; Address := bytes; unhex0x := Some; derive := Some; generate := [];
    Multiaddress_create := Some; make_address := Some; address_any := []; address_local := [];
    as_ssize := λ _, None; yaml_load := λ _, Some y; defaultConfigYaml := [] |} unit files no_shadow
    (Some vm1) (Some cli) (Configurator_new ()) in
  (with_file (Map [(chars "metrics", Scalar (chars "on"))])).1 = Ok false ∧
  (with_file (Map [(chars "metrics", Map [(chars "enabled", Sequence [])])])).1 = Ok false ∧
  (with_file (Map [(chars "general", Scalar (chars "on"))])).1 = Err ConfigFileParseFailed.
Proof. by vm_compute. Qed.
End ConfigEx.
