(* ===== verification/FdLimit.v ===== *)
(** * The limit of open files (src/src/utils/fd_limit.cpp)

    setFdLimit raises the soft limit as far as the system allows: when the wanted limit is refused
    it searches for the largest limit that is accepted, and the comparison of the search is the
    attempt to set the limit.  The state is the soft limit of the process. *)

From S2P Require Import Prelude Errors.

(** getrlimit and setrlimit: whether the call works, and which soft limits are accepted. *)
Class OsLimits := {
  os_getrlimit : bool;
  os_accepts : N → bool;
}.

Section fd_limit.
Context `{OsLimits}.
Local Abbreviation M := (SM N error).

(** getFdLimit: the soft limit, or nothing when getrlimit fails *)
Definition getFdLimit : M (option N) := λ cur, (Ok (if os_getrlimit then Some cur else None), cur).
(** setrlimit(RLIMIT_NOFILE, &r) == 0 *)
Definition set_rlim (limit : N) : M bool := λ cur,
  if os_accepts limit then (Ok true, limit) else (Ok false, cur).

(** std::upper_bound over the numbers [first], ..., [first + len - 1]; [comp x] says whether the
    value is before [x]. *)
Fixpoint upper_bound (fuel : nat) (comp : N → M bool) (first len : N) : M N :=
  if len =? 0 then mret first
  else
    match fuel with
    | O => sm_throw OutOfFuel
    | S fuel =>
        let half := len / 2 in
        let mid := first + half in
        before ← comp mid;
        if (before : bool) then upper_bound fuel comp first half
        else upper_bound fuel comp (mid + 1) (len - half - 1)
    end.

(** Every turn at least halves the length. *)
Definition search_fuel (len : N) : nat := N.size_nat len.

Definition setFdLimit (limit : N) : M () :=
  r ← getFdLimit;
  match r with
  | None => mret ()
  | Some current =>
      if limit =? current then mret ()
      else
        (if limit <? current then set_rlim limit ≫= λ _, mret ()
         else
           ok ← set_rlim limit;
           if (ok : bool) then mret ()
           else
             upper_bound (search_fuel (limit - current))
               (λ new_current, ok ← set_rlim new_current; mret (negb ok)) current (limit - current) ≫= λ _,
             mret ()) ≫= λ _,
        getFdLimit ≫= λ _, mret ()
  end.
End fd_limit.

(** ** The search sets the largest limit that is accepted *)
Section theorems.
Context `{OsLimits}.

Definition probe (n : N) : SM N error bool := ok ← set_rlim n; mret (negb ok).
Lemma probe_run n cur : probe n cur = (Ok (negb (os_accepts n)), if os_accepts n then n else cur).
Proof. unfold probe, set_rlim, mbind, sm_bind. by destruct (os_accepts n). Qed.

Lemma size_half n : n ≠ 0 → (N.size_nat (n / 2) < N.size_nat n)%nat.
Proof. intros Hn. destruct n as [|[p|p|]]; [done|..]; rewrite <- N.div2_div; cbn; lia. Qed.
Lemma size_mono m n : m ≤ n → (N.size_nat m ≤ N.size_nat n)%nat.
Proof.
  intros Hle. destruct m as [|p]; [cbn; lia|]. destruct n as [|q]; [lia|]. cbn.
  revert q Hle. induction p as [p IH|p IH|]; intros [q|q|] Hle; cbn; try lia;
    apply le_n_S, IH; lia.
Qed.

(** [best] is the limit the search has reached: everything from [start] up to it is accepted, and
    what lies beyond the range is refused. *)
Lemma upper_bound_finds fuel start first len cur :
  (N.size_nat len ≤ fuel)%nat → start ≤ first →
  (∀ m n, start ≤ m → m ≤ n → os_accepts n = true → os_accepts m = true) →
  cur = (if first =? start then start else first - 1) →
  (∀ n, start ≤ n < first → os_accepts n = true) →
  ∃ top, upper_bound fuel probe first len cur = (Ok top, if top =? start then start else top - 1) ∧
    first ≤ top ≤ first + len ∧ (∀ n, start ≤ n < top → os_accepts n = true) ∧
    (top < first + len → os_accepts top = false).
Proof.
  intros Hfuel Hstart Hmono. revert first len cur Hfuel Hstart.
  induction fuel as [|fuel IH]; intros first len cur Hfuel Hstart Hcur Hacc.
  { assert (len = 0) as -> by (destruct len as [|[]]; cbn in Hfuel; lia).
    exists first. cbn [upper_bound]. rewrite N.eqb_refl, Hcur. split; [done|]. split; [lia|]. split; [done|lia]. }
  cbn [upper_bound]. destruct (N.eqb_spec len 0) as [->|Hne].
  { exists first. rewrite Hcur. split; [done|]. split; [lia|]. split; [done|lia]. }
  assert (Hhalf : len / 2 < len) by (apply N.div_lt; lia).
  pose proof (size_half len Hne) as Hsize.
  assert (Hrest : len - len / 2 - 1 ≤ len / 2).
  { pose proof (N.div_mod len 2 ltac:(lia)). pose proof (N.mod_lt len 2 ltac:(lia)). lia. }
  generalize dependent (len / 2). intros half Hhalf Hsize Hrest.
  unfold mbind at 1, sm_bind at 1. rewrite probe_run. destruct (os_accepts (first + half)) eqn:Hmid; cbn [negb].
  - destruct (IH (first + half + 1) (len - half - 1) (first + half)) as (top & Hrun & Hrange & Hlow & Hhigh).
    + transitivity (N.size_nat (half)); [by apply size_mono|lia].
    + lia.
    + rewrite (proj2 (N.eqb_neq _ _)) by lia. lia.
    + intros n Hn. destruct (decide (n < first)); [apply Hacc; lia|]. eapply Hmono; [| |exact Hmid]; lia.
    + exists top. split; [exact Hrun|]. split; [lia|]. split; [done|]. intros. apply Hhigh. lia.
  - destruct (IH first (half) cur) as (top & Hrun & Hrange & Hlow & Hhigh); [lia|done|done|done|].
    exists top. split; [exact Hrun|]. split; [lia|]. split; [done|]. intros Hlt.
    destruct (decide (top < first + half)); [by apply Hhigh|].
    assert (top = first + half) as -> by lia. done.
Qed.

(** C39: setFdLimit always ends.  When the system accepts every limit below an accepted one, raising the limit
    ends with the largest limit up to the wanted one that the system accepts, or with the old one;
    lowering it sets the wanted limit when that is accepted; and when the limit cannot be read
    nothing changes. *)
Theorem setFdLimit_largest limit current :
  (∀ m n, m ≤ n → os_accepts n = true → os_accepts m = true) →
  ∃ cur, setFdLimit limit current = (Ok (), cur) ∧
    (os_getrlimit = false → cur = current) ∧
    (os_getrlimit = true → limit < current → cur = if os_accepts limit then limit else current) ∧
    (os_getrlimit = true → current ≤ limit →
       current ≤ cur ≤ limit ∧ (cur = current ∨ os_accepts cur = true) ∧
       ∀ n, cur < n ≤ limit → os_accepts n = false).
Proof.
  intros Hmono. unfold setFdLimit. rewrite (sm_bind_ok _ _ current (if os_getrlimit then Some current else None) current) by done.
  destruct os_getrlimit eqn:Hget.
  2:{ exists current. split_and!; done. }
  destruct (N.eqb_spec limit current) as [->|Hne].
  { exists current. split; [done|]. split; [done|]. split; [lia|]. intros _ _. split; [lia|]. split; [by left|lia]. }
  destruct (N.ltb_spec limit current) as [Hlt|Hge].
  { exists (if os_accepts limit then limit else current). split; [|split; [done|split; [done|lia]]].
    unfold mbind, sm_bind, set_rlim. by destruct (os_accepts limit). }
  destruct (os_accepts limit) eqn:Hlim.
  { exists limit. split; [|split; [done|split; [lia|]]].
    - unfold mbind, sm_bind, set_rlim. by rewrite Hlim.
    - intros _ _. split; [lia|]. split; [by right|lia]. }
  destruct (upper_bound_finds (search_fuel (limit - current)) current current (limit - current) current)
    as (top & Hrun & Hrange & Hlow & Hhigh).
  { done. } { lia. } { eauto. } { by rewrite N.eqb_refl. } { lia. }
  exists (if top =? current then current else top - 1). split.
  { unfold mbind at 1, sm_bind at 1. unfold mbind at 1, sm_bind at 1. unfold set_rlim at 1. rewrite Hlim.
    unfold mbind at 1, sm_bind at 1. change (λ new_current, ok ← set_rlim new_current; mret (negb ok)) with probe.
    rewrite Hrun. done. }
  split; [done|]. split; [lia|]. intros _ _. destruct (N.eqb_spec top current) as [Heq|Hl].
  - split; [lia|]. split; [by left|]. intros n Hn. apply not_true_iff_false. intros Ha.
    assert (os_accepts current = false) by (rewrite <- Heq; apply Hhigh; lia). assert (os_accepts current = true) by (eapply Hmono; [|exact Ha]; lia).
    congruence.
  - split; [lia|]. split; [right; apply Hlow; lia|]. intros n Hn. apply not_true_iff_false. intros Ha.
    destruct (decide (top < current + (limit - current))) as [Hlt|Hnlt].
    + assert (os_accepts top = true) as Hlast by (eapply Hmono; [|exact Ha]; lia). by rewrite (Hhigh Hlt) in Hlast.
    + assert (n = limit) as -> by lia. congruence.
Qed.
End theorems.

Module FdEx.
(** A system that accepts up to 4096. *)
#[local] Instance Os : OsLimits := {| os_getrlimit := true; os_accepts n := n <=? 4096 |}.
Lemma setFdLimit_largest_witness : ∃ cur, setFdLimit 16384 1024 = (Ok (), cur) ∧ 1024 ≤ cur ≤ 16384 ∧ cur = 4096.
Proof.
  destruct (setFdLimit_largest 16384 1024) as (cur & Hrun & _ & _ & Hup).
  - cbn. intros m n Hle Hn%N.leb_le. apply N.leb_le. lia.
  - exists cur. split; [exact Hrun|]. split; [apply Hup; done|]. vm_compute in Hrun. by injection Hrun as <-.
Defined.
End FdEx.
