(* ===== verification/Xmss.v ===== *)
(** * XMSS signatures (src/src/crypto/xmss/: ffi.hpp, xmss_provider_impl.cpp, xmss_provider_fake.cpp,
    xmss_util.cpp; src/src/app/impl/validator_keys_manifest_impl.cpp)

    The signature library is called through C functions that hand out objects which the caller has
    to free.  [HashSig] holds what the functions compute; the objects live in [ff_heap], every
    access to an object that is not there is undefined behaviour, and unique_ptr is [with_ptr],
    which frees its object on every way out. *)

From Stdlib Require Import String.
From S2P Require Import Prelude Errors Types ToyHash CachedTree BlockStorage BlockStorageSpec ToyStore BlockTree.
From S2P Require Import BlockTreeProofs LruCache LruProofs ForkChoice ForkChoiceProofs ForkChoiceVotes ForkChoiceBlocks.
From S2P Require Import ToyForkChoice ForkChoiceTheorems Rlp Enr Yaml Parsers Configurator.

(** c_hash_sig: a call gives a value or a code that is not success.  Public keys, signatures and
    messages as arrays of bytes are numbers; [pq_key_gen] draws from its first argument. *)
Class HashSig := {
  PQPublicKey : Type;
  PQSecretKey : Type;
  PQSignature : Type;
  pq_get_lifetime : N;
  pq_key_gen : N → N → N → (PQPublicKey * PQSecretKey) + N;
  pq_sign : PQSecretKey → N → N → PQSignature + N;
  pq_verify : PQPublicKey → N → N → PQSignature → Z;
  pq_public_key_to_bytes : PQPublicKey → XmssPublicKey;
  pq_public_key_from_bytes : XmssPublicKey → PQPublicKey + N;
  pq_signature_to_bytes : PQSignature → Signature;
  pq_signature_from_bytes : Signature → PQSignature + N;
  pq_secret_key_to_bytes : PQSecretKey → bytes;
  pq_secret_key_from_bytes : bytes → PQSecretKey + N;
  pq_secret_key_to_json : PQSecretKey → bytes;
  pq_secret_key_from_json : bytes → PQSecretKey + N;
  pq_public_key_to_json : PQPublicKey → bytes;
  pq_public_key_from_json : bytes → PQPublicKey + N;
  pq_aggregate_signatures : list (list XmssPublicKey * LeanAggregatedSignature) → list XmssPublicKey →
    list Signature → N → N → N → bytes;
  pq_verify_aggregated_signatures : list XmssPublicKey → N → N → LeanAggregatedSignature → bool;
  (* XmssPublicKey::fromSpan and fromHex *)
  key_fromSpan : bytes → option XmssPublicKey;
  key_fromHex : bytes → option XmssPublicKey;
}.

(** What the library documents: what it wrote it reads, and a signature it returns for an active
    epoch verifies.  Signing may fail. *)
Class HashSigLaws `{HashSig} := {
  pq_public_bytes pk : pq_public_key_from_bytes (pq_public_key_to_bytes pk) = inl pk;
  pq_public_json pk : pq_public_key_from_json (pq_public_key_to_json pk) = inl pk;
  pq_signature_bytes g : pq_signature_from_bytes (pq_signature_to_bytes g) = inl g;
  pq_secret_bytes sk : pq_secret_key_from_bytes (pq_secret_key_to_bytes sk) = inl sk;
  pq_secret_json sk : pq_secret_key_from_json (pq_secret_key_to_json sk) = inl sk;
  pq_correct r activation n pk sk epoch message g :
    pq_key_gen r activation n = inl (pk, sk) → activation ≤ epoch < activation + n →
    pq_sign sk epoch message = inl g → pq_verify pk epoch message g = 1%Z;
}.

Section xmss.
Context `{HashSig}.

(** ** Objects *)
Inductive Object :=
| OPublicKey (k : PQPublicKey)
| OSecretKey (k : PQSecretKey)
| OSignature (g : PQSignature)
| OByteVec (b : bytes).

(** The metrics of the provider: the observations of its timers and the increments of its counters. *)
Inductive XmssMetric :=
| attestation_signing_time
| attestation_verification_time
| aggregated_signatures_building_time
| aggregated_signatures_verification_time
| attestations_in_aggregated_signatures_total (n : N)
| aggregated_signatures_total
| aggregated_signatures_valid_total
| aggregated_signatures_invalid_total.

Record Ffi := mkFfi {
  ff_heap : gmap N Object;
  ff_prover : bool;               (* pq_setup_prover, pq_setup_verifier were called *)
  ff_verifier : bool;
  ff_metrics : list XmssMetric;
}.
Definition set_heap (h : gmap N Object) (s : Ffi) : Ffi := mkFfi h (ff_prover s) (ff_verifier s) (ff_metrics s).
Definition add_metrics (l : list XmssMetric) (s : Ffi) : Ffi :=
  mkFfi (ff_heap s) (ff_prover s) (ff_verifier s) (ff_metrics s ++ l).
Local Abbreviation M := (SM Ffi error).

(** An address that is not in use, not null *)
Definition new_address (h : gmap N Object) : N := fresh ({[0]} ∪ dom h).
Definition alloc (o : Object) : M N := λ s,
  let p := new_address (ff_heap s) in (Ok p, set_heap (<[p := o]> (ff_heap s)) s).
Definition get_object (p : N) : M Object := λ s,
  (of_option UndefinedBehaviour (ff_heap s !! p), s).
Definition get_public (p : N) : M PQPublicKey :=
  o ← get_object p; match o with OPublicKey k => mret k | _ => sm_throw UndefinedBehaviour end.
Definition get_secret (p : N) : M PQSecretKey :=
  o ← get_object p; match o with OSecretKey k => mret k | _ => sm_throw UndefinedBehaviour end.
Definition get_signature (p : N) : M PQSignature :=
  o ← get_object p; match o with OSignature g => mret g | _ => sm_throw UndefinedBehaviour end.

(** FfiPtrDeleter *)
Definition free (p : N) : M () :=
  if p =? 0 then mret ()
  else get_object p ≫= λ _, sm_modify (λ s, set_heap (delete p (ff_heap s)) s).
(** FfiPtr: the object is freed when the scope is left, also by an error or an exception. *)
Definition with_ptr {A} (p : N) (m : M A) : M A := λ s,
  let '(r, s) := m s in
  match free p s with
  | (Ok _, s) => (r, s)
  | (Err e, s) => (Err e, s)
  | (Throw x, s) => (Throw x, s)
  end.
(** ffi::ByteVec: copied and dropped.  aggregateSignatures drops the vector by hand after the copy,
    which differs only when the copy runs out of memory. *)
Definition take_bytes (b : bytes) : M bytes :=
  p ← alloc (OByteVec b); with_ptr p (mret b).

(** asOutcome; and with .value(), which throws *)
Definition asOutcome {A} (r : A + N) : result A :=
  match r with inl a => Ok a | inr code => Err (E_Library (PQ_SIGNING_ERROR code)) end.
Definition or_throw {A} (r : result A) : result A :=
  match r with Err _ => Throw SystemError | _ => r end.

(** HistogramTimer: observes when its scope is left *)
Definition with_timer {A} (use_metrics : bool) (t : XmssMetric) (m : M A) : M A := λ s,
  let '(r, s) := m s in (r, if use_metrics then add_metrics [t] s else s).

(** ** XmssProviderImpl *)
Definition LOG_INV_RATE_PROD : N := 2.

Record XmssKeypair := mkXmssKeypair {
  kp_private : N;                 (* the pointer of the shared_ptr *)
  kp_public : XmssPublicKey;
}.

Definition generateKeypair (random activation_epoch num_active_epochs : N) : M XmssKeypair :=
  if num_active_epochs =? 0 then sm_throw RuntimeError
  else if pq_get_lifetime <? num_active_epochs then sm_throw RuntimeError
  else
    keys ← sm_lift (or_throw (asOutcome (pq_key_gen random activation_epoch num_active_epochs)));
    public_key ← alloc (OPublicKey keys.1);
    secret_key ← alloc (OSecretKey keys.2);
    with_ptr public_key (
      k ← get_public public_key;
      mret (mkXmssKeypair secret_key (pq_public_key_to_bytes k))).

Definition sign (use_metrics : bool) (xmss_private_key epoch message : N) : M Signature :=
  with_timer use_metrics attestation_signing_time (
    key ← get_secret xmss_private_key;
    g ← sm_lift (or_throw (asOutcome (pq_sign key epoch message)));
    signature ← alloc (OSignature g);
    with_ptr signature (
      g ← get_signature signature;
      mret (pq_signature_to_bytes g))).

Definition verify (use_metrics : bool) (xmss_public_key : XmssPublicKey) (message epoch : N)
    (xmss_signature : Signature) : M bool :=
  with_timer use_metrics attestation_verification_time (
    k ← sm_lift (or_throw (asOutcome (pq_public_key_from_bytes xmss_public_key)));
    public_key ← alloc (OPublicKey k);
    with_ptr public_key (
      g ← sm_lift (or_throw (asOutcome (pq_signature_from_bytes xmss_signature)));
      signature ← alloc (OSignature g);
      with_ptr signature (
        k ← get_public public_key;
        g ← get_signature signature;
        let verify_result := pq_verify k epoch message g in
        if (verify_result <? 0)%Z then sm_throw RuntimeError
        else mret (verify_result =? 1)%Z))).

Definition count_metrics (use_metrics : bool) (l : list XmssMetric) : M () :=
  if use_metrics then sm_modify (add_metrics l) else mret ().

Definition aggregateSignatures (use_metrics : bool) (child_public_keys : list (list XmssPublicKey))
    (child_proofs : list LeanAggregatedSignature) (public_keys : list XmssPublicKey) (signatures : list Signature)
    (epoch message : N) : M LeanAggregatedSignature :=
  sm_modify (λ s, mkFfi (ff_heap s) true (ff_verifier s) (ff_metrics s)) ≫= λ _,
  with_timer use_metrics aggregated_signatures_building_time (
    if negb (lengthN child_public_keys =? lengthN child_proofs) then sm_throw LogicError
    else if negb (lengthN public_keys =? lengthN signatures) then sm_throw LogicError
    else
      aggregated_signature ← take_bytes (pq_aggregate_signatures (zip child_public_keys child_proofs) public_keys
                                           signatures epoch message LOG_INV_RATE_PROD);
      count_metrics use_metrics
        [attestations_in_aggregated_signatures_total (lengthN signatures); aggregated_signatures_total] ≫= λ _,
      mret aggregated_signature).

Definition verifyAggregatedSignatures (use_metrics : bool) (public_keys : list XmssPublicKey) (epoch message : N)
    (aggregated_signature : LeanAggregatedSignature) : M bool :=
  sm_modify (λ s, mkFfi (ff_heap s) (ff_prover s) true (ff_metrics s)) ≫= λ _,
  with_timer use_metrics aggregated_signatures_verification_time (
    let is_valid := pq_verify_aggregated_signatures public_keys epoch message aggregated_signature in
    count_metrics use_metrics
      [if is_valid then aggregated_signatures_valid_total else aggregated_signatures_invalid_total] ≫= λ _,
    mret is_valid).

(** ** xmss_util.cpp *)

(** std::filesystem::path::extension: from the last dot of the file name; none when that dot is
    its first character, or for a name of two dots *)
Definition filename (p : path) : bytes := rev (take (count_while (λ c, negb (47 =? c)) (rev p)) (rev p)).
Definition extension (p : path) : bytes :=
  let name := filename p in
  let tail := rev (take (count_while (λ c, negb (46 =? c)) (rev name)) (rev name)) in
  if bool_decide (length name ≤ S (length tail) ∨ name = chars "..")%nat then [] else 46 :: tail.

(** qtils::readBytes *)
Definition readBytes (files : gmap path bytes) (p : path) : result bytes :=
  match files !! p with Some b => Ok b | None => Err (E_Library READ_FILE_ERROR) end.

Definition loadPublicKey (files : gmap path bytes) (p : path) : M XmssPublicKey :=
  b ← sm_lift (readBytes files p);
  if bool_decide (extension p ≠ chars ".json")
  then sm_lift (match key_fromSpan b with Some k => Ok k | None => Err (E_Library SPAN_SIZE_ERROR) end)
  else
    k ← sm_lift (asOutcome (pq_public_key_from_json b));
    public_key ← alloc (OPublicKey k);
    with_ptr public_key (
      k ← get_public public_key;
      mret (pq_public_key_to_bytes k)).

Definition loadSecretKey (files : gmap path bytes) (p : path) : M N :=
  b ← sm_lift (readBytes files p);
  k ← sm_lift (asOutcome (if bool_decide (extension p ≠ chars ".json")
                          then pq_secret_key_from_bytes b else pq_secret_key_from_json b));
  alloc (OSecretKey k).

(** loadKeypair with a given public key, and with two paths *)
Definition loadKeypair_of (files : gmap path bytes) (public_key : XmssPublicKey) (secret_key_path : path)
    : M XmssKeypair :=
  private_key ← loadSecretKey files secret_key_path;
  mret (mkXmssKeypair private_key public_key).
Definition loadKeypair (files : gmap path bytes) (secret_key_path public_key_path : path) : M XmssKeypair :=
  public_key ← loadPublicKey files public_key_path;
  loadKeypair_of files public_key secret_key_path.

Definition toJson_private (secret_key : N) : M bytes :=
  k ← get_secret secret_key; take_bytes (pq_secret_key_to_json k).
Definition toJson_public (public_key_bytes : XmssPublicKey) : M bytes :=
  k ← sm_lift (or_throw (asOutcome (pq_public_key_from_bytes public_key_bytes)));
  public_key ← alloc (OPublicKey k);
  with_ptr public_key (
    k ← get_public public_key;
    take_bytes (pq_public_key_to_json k)).
Definition toBytes (secret_key : N) : M bytes :=
  k ← get_secret secret_key; take_bytes (pq_secret_key_to_bytes k).

(** ** ValidatorKeysManifestImpl

    [shadow]: QLEAN_ENABLE_SHADOW, where the pointer of a private key is a hash of its path and
    is never freed. *)
Context (path_hash : bytes → N) (shadow : bool).

Abbreviation ValidatorKeys := (gmap XmssPublicKey XmssKeypair).

(** The end of a shared_ptr that is the only one *)
Definition release (keypair : XmssKeypair) : M () := if shadow then mret () else free (kp_private keypair).

Definition load_entry (files : gmap path bytes) (genesis_dir : path) (validator_keys : ValidatorKeys) (yaml_item : Yaml)
    : M ValidatorKeys :=
  yaml_pubkey_hex ← sm_lift (yaml_key (str2byte "pubkey_hex") yaml_item);
  hex ← sm_lift (yaml_str yaml_pubkey_hex);
  public_key ← sm_lift (of_option SystemError (key_fromHex hex));
  yaml_privkey_file ← sm_lift (yaml_key (str2byte "privkey_file") yaml_item);
  privkey_file ← sm_lift (yaml_str yaml_privkey_file);
  keypair ← (if shadow then mret (mkXmssKeypair (path_hash privkey_file) public_key)
             else
               r ← sm_try (loadKeypair_of files public_key
                      (path_append (path_append genesis_dir (chars "hash-sig-keys")) privkey_file));
               match r with inl k => mret k | inr _ => sm_throw SystemError end);
  (* emplace keeps an entry that is there; then the keypair ends here *)
  match validator_keys !! public_key with
  | None => mret (<[public_key := keypair]> validator_keys)
  | Some _ => release keypair ≫= λ _, mret validator_keys
  end.

(** The loop of the constructor; when it throws the keys loaded so far are released. *)
Fixpoint load_entries (files : gmap path bytes) (genesis_dir : path) (validator_keys : ValidatorKeys) (items : list Yaml)
    : M ValidatorKeys :=
  match items with
  | [] => mret validator_keys
  | yaml_item :: items => λ s,
      match load_entry files genesis_dir validator_keys yaml_item s with
      | (Ok validator_keys, s) => load_entries files genesis_dir validator_keys items s
      | (r, s) =>
          match sm_iter release (snd <$> map_to_list validator_keys) s with
          | (Ok _, s) => (r, s)
          | (Err e, s) => (Err e, s)
          | (Throw x, s) => (Throw x, s)
          end
      end
  end.
Definition ValidatorKeysManifestImpl (files : gmap path bytes) (genesis_dir node_id : bytes) (yaml : Yaml)
    : M ValidatorKeys :=
  yaml_items ← sm_lift (yaml_key node_id yaml);
  items ← sm_lift (yaml_list yaml_items);
  load_entries files genesis_dir ∅ items.

Definition getKeypair (validator_keys : ValidatorKeys) (public_key : XmssPublicKey) : option XmssKeypair :=
  validator_keys !! public_key.
Definition getAllXmssPubkeys `{!UnorderedMap} (validator_keys : ValidatorKeys) : list XmssPublicKey :=
  (iteration validator_keys).*1.
End xmss.

(** ** The providers as the fork choice sees them *)

(** XmssProviderImpl over the keys that are loaded *)
Definition XmssProviderImpl `{HashSig} (heap : gmap N Object) : XmssProvider := {|
  xmss_sign key epoch message :=
    match heap !! key with
    | Some (OSecretKey k) => pq_signature_to_bytes <$> or_throw (asOutcome (pq_sign k epoch message))
    | _ => Throw UndefinedBehaviour
    end;
  xmss_verify public_key message epoch signature :=
    k ← or_throw (asOutcome (pq_public_key_from_bytes public_key));
    g ← or_throw (asOutcome (pq_signature_from_bytes signature));
    let verify_result := pq_verify k epoch message g in
    if (verify_result <? 0)%Z then Throw RuntimeError else Ok (verify_result =? 1)%Z;
  xmss_aggregateSignatures child_public_keys child_proofs public_keys signatures epoch message :=
    if negb (lengthN child_public_keys =? lengthN child_proofs) then Throw LogicError
    else if negb (lengthN public_keys =? lengthN signatures) then Throw LogicError
    else Ok (pq_aggregate_signatures (zip child_public_keys child_proofs) public_keys signatures epoch message
               LOG_INV_RATE_PROD);
  xmss_verifyAggregatedSignatures public_keys epoch message aggregated_signature :=
    Ok (pq_verify_aggregated_signatures public_keys epoch message aggregated_signature);
|}.

(** XmssProviderFake; [fake_signature] and [fake_aggregate] are the random bytes seeded by the
    combined hash of the arguments *)
Class FakeBytes := {
  fake_signature : N → N → N → Signature;
  fake_aggregate : list (list XmssPublicKey) → list LeanAggregatedSignature → list XmssPublicKey →
    list Signature → N → N → LeanAggregatedSignature;
}.
Definition XmssProviderFake `{FakeBytes} : XmssProvider := {|
  xmss_sign key epoch message := Ok (fake_signature key epoch message);
  xmss_verify _ _ _ _ := Ok true;
  xmss_aggregateSignatures child_public_keys child_proofs public_keys signatures epoch message :=
    Ok (fake_aggregate child_public_keys child_proofs public_keys signatures epoch message);
  xmss_verifyAggregatedSignatures _ _ _ _ := Ok true;
|}.

(** The keys of the node as the fork choice sees them. *)
Definition ManifestKeys (indices : list ValidatorIndex) (validator_keys : gmap XmssPublicKey XmssKeypair) : NodeKeys := {|
  currentValidatorIndices := indices;
  ForkChoice.getKeypair k := kp_private <$> getKeypair validator_keys k;
|}.

(** * The XMSS provider implements the interface of the fork choice, and leaks nothing *)

Section proofs.
Context `{HashSig}.
Implicit Types s : Ffi.

(** ** Objects that live for a scope *)
Lemma new_address_spec (h : gmap N Object) : new_address h ≠ 0 ∧ h !! new_address h = None.
Proof.
  unfold new_address. pose proof (is_fresh ({[0]} ∪ dom h)) as Hf.
  rewrite not_elem_of_union, not_elem_of_singleton, not_elem_of_dom in Hf. exact Hf.
Qed.

Lemma free_run p o s : p ≠ 0 → ff_heap s !! p = Some o → free p s = (Ok (), set_heap (delete p (ff_heap s)) s).
Proof.
  intros Hp Ho. unfold free. rewrite (proj2 (N.eqb_neq p 0)) by done.
  rewrite (sm_bind_ok _ _ s o s); [done|]. unfold get_object. by rewrite Ho.
Qed.

(** An object that a scope allocates and that its body keeps is gone behind it. *)
Lemma scoped {A} (o : Object) (m : N → SM Ffi error A) s r s' :
  (∀ p, p ≠ 0 → ff_heap s !! p = None →
    m p (set_heap (<[p := o]> (ff_heap s)) s) = (r, set_heap (<[p := o]> (ff_heap s)) s')) →
  (p ← alloc o; with_ptr p (m p)) s = (r, set_heap (ff_heap s) s').
Proof.
  intros Hm. destruct (new_address_spec (ff_heap s)) as [Hnz Hnew]. set (p := new_address (ff_heap s)) in *.
  rewrite (sm_bind_ok _ _ s p (set_heap (<[p := o]> (ff_heap s)) s)) by done.
  unfold with_ptr. rewrite (Hm p Hnz Hnew). cbn iota beta.
  rewrite (free_run p o); [|done|cbn [set_heap ff_heap]; by rewrite lookup_insert_eq].
  cbn [set_heap ff_heap]. by rewrite delete_insert_eq, delete_id.
Qed.

Lemma set_heap_id s : set_heap (ff_heap s) s = s.
Proof. by destruct s. Qed.
Lemma set_heap_twice h h' s : set_heap h (set_heap h' s) = set_heap h s.
Proof. done. Qed.

Lemma get_inserted p o s : get_object p (set_heap (<[p := o]> (ff_heap s)) s) = (Ok o, set_heap (<[p := o]> (ff_heap s)) s).
Proof. unfold get_object. cbn [set_heap ff_heap]. by rewrite lookup_insert_eq. Qed.

Lemma take_bytes_run b s : take_bytes b s = (Ok b, s).
Proof.
  unfold take_bytes. rewrite (scoped (OByteVec b) (λ _, mret b) s (Ok b) s) by done. by rewrite set_heap_id.
Qed.

(** The timers and counters of a call *)
Definition observed (use_metrics : bool) (l : list XmssMetric) s : Ffi :=
  if use_metrics then add_metrics l s else s.
Lemma with_timer_run {A} u t (m : SM Ffi error A) s r s' :
  m s = (r, s') → with_timer u t m s = (r, observed u [t] s').
Proof. intros Hm. unfold with_timer. by rewrite Hm. Qed.

Lemma lift_bind {A B} (r : result A) (f : A → SM Ffi error B) s :
  (x ← sm_lift r; f x) s = match r with Ok x => f x s | Err e => (Err e, s) | Throw x => (Throw x, s) end.
Proof. by destruct r. Qed.
Lemma get_secret_run p s :
  get_secret p s = (match ff_heap s !! p with Some (OSecretKey k) => Ok k | _ => Throw UndefinedBehaviour end, s).
Proof. unfold get_secret, get_object, mbind, sm_bind. by destruct (ff_heap s !! p) as [[| | |]|]. Qed.
Lemma get_public_run p s :
  get_public p s = (match ff_heap s !! p with Some (OPublicKey k) => Ok k | _ => Throw UndefinedBehaviour end, s).
Proof. unfold get_public, get_object, mbind, sm_bind. by destruct (ff_heap s !! p) as [[| | |]|]. Qed.
Lemma get_signature_run p s :
  get_signature p s = (match ff_heap s !! p with Some (OSignature k) => Ok k | _ => Throw UndefinedBehaviour end, s).
Proof. unfold get_signature, get_object, mbind, sm_bind. by destruct (ff_heap s !! p) as [[| | |]|]. Qed.

(** A body that only looks at its object. *)
Lemma scoped_public {A} (k : PQPublicKey) (f : PQPublicKey → SM Ffi error A) s r s' :
  (∀ p, p ≠ 0 → ff_heap s !! p = None →
    f k (set_heap (<[p := OPublicKey k]> (ff_heap s)) s) = (r, set_heap (<[p := OPublicKey k]> (ff_heap s)) s')) →
  (p ← alloc (OPublicKey k); with_ptr p (x ← get_public p; f x)) s = (r, set_heap (ff_heap s) s').
Proof.
  intros Hf. apply (scoped _ (λ p, x ← get_public p; f x)). intros p Hp Hn.
  erewrite sm_bind_ok; [by apply Hf|]. rewrite get_public_run. cbn [set_heap ff_heap]. by rewrite lookup_insert_eq.
Qed.
Lemma scoped_signature {A} (g : PQSignature) (f : PQSignature → SM Ffi error A) s r s' :
  (∀ p, p ≠ 0 → ff_heap s !! p = None →
    f g (set_heap (<[p := OSignature g]> (ff_heap s)) s) = (r, set_heap (<[p := OSignature g]> (ff_heap s)) s')) →
  (p ← alloc (OSignature g); with_ptr p (x ← get_signature p; f x)) s = (r, set_heap (ff_heap s) s').
Proof.
  intros Hf. apply (scoped _ (λ p, x ← get_signature p; f x)). intros p Hp Hn.
  erewrite sm_bind_ok; [by apply Hf|]. rewrite get_signature_run. cbn [set_heap ff_heap]. by rewrite lookup_insert_eq.
Qed.

(** ** The operations of the provider *)
Lemma sign_run u key e msg s :
  sign u key e msg s
  = (@xmss_sign (XmssProviderImpl (ff_heap s)) key e msg, observed u [attestation_signing_time] s).
Proof.
  unfold sign. apply with_timer_run. cbn [xmss_sign XmssProviderImpl].
  destruct (ff_heap s !! key) as [[k|k|g|b]|] eqn:Hk;
    try (apply sm_bind_throw; rewrite get_secret_run; by rewrite Hk).
  erewrite sm_bind_ok by (rewrite get_secret_run; by rewrite Hk). rewrite lift_bind.
  destruct (pq_sign k e msg) as [g|code]; [|done]. cbn [asOutcome or_throw].
  rewrite (scoped_signature g (λ g, mret (pq_signature_to_bytes g)) s (Ok (pq_signature_to_bytes g)) s) by done.
  by rewrite set_heap_id.
Qed.

Lemma verify_run u pk msg e sg s :
  verify u pk msg e sg s
  = (@xmss_verify (XmssProviderImpl (ff_heap s)) pk msg e sg, observed u [attestation_verification_time] s).
Proof.
  unfold verify. apply with_timer_run. cbn [xmss_verify XmssProviderImpl]. rewrite lift_bind.
  destruct (pq_public_key_from_bytes pk) as [k|code]; [|done]. cbn [asOutcome or_throw].
  rewrite <- (set_heap_id s) at 2. apply (scoped (OPublicKey k)
    (λ public_key, g ← sm_lift (or_throw (asOutcome (pq_signature_from_bytes sg)));
       signature ← alloc (OSignature g);
       with_ptr signature (
         k ← get_public public_key;
         g ← get_signature signature;
         let verify_result := pq_verify k e msg g in
         if (verify_result <? 0)%Z then sm_throw RuntimeError else mret (verify_result =? 1)%Z))).
  intros p Hp Hn. rewrite lift_bind. destruct (pq_signature_from_bytes sg) as [g|code]; [|done].
  cbn [asOutcome or_throw]. set (s1 := set_heap _ s).
  rewrite <- (set_heap_id s1) at 2. change (set_heap (<[p := OPublicKey k]> (ff_heap s)) s) with s1.
  apply (scoped (OSignature g) (λ signature,
         k ← get_public p;
         g ← get_signature signature;
         let verify_result := pq_verify k e msg g in
         if (verify_result <? 0)%Z then sm_throw RuntimeError else mret (verify_result =? 1)%Z)).
  intros q Hq Hqn.
  assert (p ≠ q) by (intros <-; unfold s1 in Hqn; cbn [set_heap ff_heap] in Hqn; by rewrite lookup_insert_eq in Hqn).
  erewrite sm_bind_ok; [|rewrite get_public_run; cbn [set_heap ff_heap];
    rewrite lookup_insert_ne by done; unfold s1; cbn [set_heap ff_heap]; by rewrite lookup_insert_eq].
  erewrite sm_bind_ok; [|rewrite get_signature_run; cbn [set_heap ff_heap]; by rewrite lookup_insert_eq].
  cbn [mbind outcome_bind]. by destruct (pq_verify k e msg g <? 0)%Z.
Qed.

(** The metrics of an aggregation: the counters only when it is made. *)
Definition aggregation_metrics {A} (r : result A) (n : N) : list XmssMetric :=
  match r with
  | Ok _ => [attestations_in_aggregated_signatures_total n; aggregated_signatures_total]
  | _ => []
  end ++ [aggregated_signatures_building_time].

Lemma observed_app u l l' s : observed u l' (observed u l s) = observed u (l ++ l') s.
Proof. destruct u; [|done]. cbn. unfold add_metrics. cbn. by rewrite <- app_assoc. Qed.

Lemma aggregate_run u cpk cp pks sgs e msg s :
  let r := @xmss_aggregateSignatures (XmssProviderImpl (ff_heap s)) cpk cp pks sgs e msg in
  aggregateSignatures u cpk cp pks sgs e msg s
  = (r, observed u (aggregation_metrics r (lengthN sgs)) (mkFfi (ff_heap s) true (ff_verifier s) (ff_metrics s))).
Proof.
  cbv zeta. unfold aggregateSignatures. rewrite (sm_bind_ok _ _ s () (mkFfi (ff_heap s) true (ff_verifier s) (ff_metrics s))) by done.
  set (s1 := mkFfi _ _ _ _). cbn [xmss_aggregateSignatures XmssProviderImpl].
  destruct (negb (lengthN cpk =? lengthN cp)); [by apply with_timer_run|].
  destruct (negb (lengthN pks =? lengthN sgs)); [by apply with_timer_run|].
  erewrite with_timer_run; [|erewrite sm_bind_ok by apply take_bytes_run;
    rewrite (sm_bind_ok _ _ s1 () (observed u [attestations_in_aggregated_signatures_total (lengthN sgs); aggregated_signatures_total] s1))
      by (by destruct u); reflexivity].
  by rewrite observed_app.
Qed.

Lemma verifyAggregated_run u pks e msg sg s :
  let valid := pq_verify_aggregated_signatures pks e msg sg in
  verifyAggregatedSignatures u pks e msg sg s
  = (@xmss_verifyAggregatedSignatures (XmssProviderImpl (ff_heap s)) pks e msg sg,
     observed u [if valid then aggregated_signatures_valid_total else aggregated_signatures_invalid_total;
                 aggregated_signatures_verification_time] (mkFfi (ff_heap s) (ff_prover s) true (ff_metrics s))).
Proof.
  cbv zeta. unfold verifyAggregatedSignatures.
  rewrite (sm_bind_ok _ _ s () (mkFfi (ff_heap s) (ff_prover s) true (ff_metrics s))) by done.
  set (s1 := mkFfi _ _ _ _). set (l := [if pq_verify_aggregated_signatures pks e msg sg then _ else _]).
  erewrite with_timer_run; [|rewrite (sm_bind_ok _ _ s1 () (observed u l s1)) by (by destruct u); reflexivity].
  by rewrite observed_app.
Qed.

Lemma observed_heap u l s : ff_heap (observed u l s) = ff_heap s.
Proof. by destruct u. Qed.

(** C14: The provider implements the interface that the fork choice is verified against: every operation gives, in any
    state of the signature library, the result of [XmssProviderImpl] over the loaded keys, exceptions included; it
    leaves exactly the objects it found (nothing leaks, nothing is freed twice or used after it was freed, on every
    way out), observes its timer once whether it returns or throws, and counts an aggregate only when it is made. *)
Theorem xmss_provider_refines u s :
  let P := XmssProviderImpl (ff_heap s) in
  (∀ key e msg, sign u key e msg s = (@xmss_sign P key e msg, observed u [attestation_signing_time] s)) ∧
  (∀ pk msg e sg, verify u pk msg e sg s = (@xmss_verify P pk msg e sg, observed u [attestation_verification_time] s)) ∧
  (∀ cpk cp pks sgs e msg, let '(r, s') := aggregateSignatures u cpk cp pks sgs e msg s in
    r = @xmss_aggregateSignatures P cpk cp pks sgs e msg ∧ ff_heap s' = ff_heap s ∧ ff_prover s' = true ∧
    ff_metrics s' = ff_metrics s ++ if u then aggregation_metrics r (lengthN sgs) else []) ∧
  (∀ pks e msg sg, let '(r, s') := verifyAggregatedSignatures u pks e msg sg s in
    r = @xmss_verifyAggregatedSignatures P pks e msg sg ∧ ff_heap s' = ff_heap s ∧ ff_verifier s' = true ∧
    ff_metrics s' = ff_metrics s ++ if u then
      [if pq_verify_aggregated_signatures pks e msg sg then aggregated_signatures_valid_total
       else aggregated_signatures_invalid_total; aggregated_signatures_verification_time] else []).
Proof.
  cbv zeta. split; [intros; apply sign_run|]. split; [intros; apply verify_run|]. split.
  - intros. rewrite aggregate_run. cbv zeta. destruct u; cbn [observed add_metrics ff_heap ff_prover ff_metrics];
      by rewrite ?app_nil_r.
  - intros. rewrite verifyAggregated_run. cbv zeta. destruct u; cbn [observed add_metrics ff_heap ff_verifier ff_metrics];
      by rewrite ?app_nil_r.
Qed.

(** ** Keys *)
Lemma generate_run random a n s :
  n ≠ 0 → n ≤ pq_get_lifetime →
  match pq_key_gen random a n with
  | inl (pk, sk) => ∃ p, p ≠ 0 ∧ ff_heap s !! p = None ∧
      generateKeypair random a n s
      = (Ok (mkXmssKeypair p (pq_public_key_to_bytes pk)), set_heap (<[p := OSecretKey sk]> (ff_heap s)) s)
  | inr _ => generateKeypair random a n s = (Throw SystemError, s)
  end.
Proof.
  intros Hn Hl. unfold generateKeypair. rewrite (proj2 (N.eqb_neq n 0)), (proj2 (N.ltb_ge _ _)) by done.
  rewrite lift_bind. destruct (pq_key_gen random a n) as [[pk sk]|code]; [|done]. cbn [asOutcome or_throw fst snd].
  destruct (new_address_spec (ff_heap s)) as [Hp Hpn]. set (p := new_address (ff_heap s)) in *.
  rewrite (sm_bind_ok _ _ s p (set_heap (<[p := OPublicKey pk]> (ff_heap s)) s)) by done. set (s1 := set_heap _ s).
  destruct (new_address_spec (ff_heap s1)) as [Hq Hqn]. set (q := new_address (ff_heap s1)) in *.
  rewrite (sm_bind_ok _ _ s1 q (set_heap (<[q := OSecretKey sk]> (ff_heap s1)) s1)) by done. set (s2 := set_heap _ s1).
  unfold s1 in Hqn. cbn [set_heap ff_heap] in Hqn. rewrite lookup_insert_None in Hqn. destruct Hqn as [Hqn Hpq].
  exists q. split; [done|]. split; [done|].
  assert (Hlook : ff_heap s2 !! p = Some (OPublicKey pk)).
  { unfold s2, s1. cbn [set_heap ff_heap]. by rewrite lookup_insert_ne, lookup_insert_eq. }
  unfold with_ptr. erewrite sm_bind_ok by (rewrite get_public_run; by rewrite Hlook).
  cbn [mret sm_ret]. rewrite (free_run p (OPublicKey pk)) by done. unfold s2, s1. cbn [set_heap ff_heap ff_prover ff_verifier ff_metrics].
  by rewrite delete_insert_ne, delete_insert_eq, (delete_id (ff_heap s) p).
Qed.

Lemma loadSecretKey_run files p s :
  match readBytes files p ≫= (λ b, asOutcome (if bool_decide (extension p ≠ chars ".json")
                                              then pq_secret_key_from_bytes b else pq_secret_key_from_json b)) with
  | Ok sk => ∃ q, q ≠ 0 ∧ ff_heap s !! q = None ∧
      loadSecretKey files p s = (Ok q, set_heap (<[q := OSecretKey sk]> (ff_heap s)) s)
  | Err e => loadSecretKey files p s = (Err e, s)
  | Throw x => loadSecretKey files p s = (Throw x, s)
  end.
Proof.
  unfold loadSecretKey. rewrite lift_bind. destruct (readBytes files p) as [b|e|x]; cbn [mbind outcome_bind]; [|done..].
  rewrite lift_bind. destruct (asOutcome _) as [sk|e|x]; [|done..].
  destruct (new_address_spec (ff_heap s)) as [Hp Hpn]. by exists (new_address (ff_heap s)).
Qed.

Lemma toBytes_run p sk s : ff_heap s !! p = Some (OSecretKey sk) → toBytes p s = (Ok (pq_secret_key_to_bytes sk), s).
Proof.
  intros Hp. unfold toBytes. erewrite sm_bind_ok by (rewrite get_secret_run; by rewrite Hp). apply take_bytes_run.
Qed.
Lemma toJson_run p sk s : ff_heap s !! p = Some (OSecretKey sk) → toJson_private p s = (Ok (pq_secret_key_to_json sk), s).
Proof.
  intros Hp. unfold toJson_private. erewrite sm_bind_ok by (rewrite get_secret_run; by rewrite Hp). apply take_bytes_run.
Qed.

(** Writing a loaded key to a file and reading the file gives an object with the same key. *)
Lemma secret_key_file `{!HashSigLaws} file (json : bool) p sk s :
  ff_heap s !! p = Some (OSecretKey sk) → (extension file = chars ".json" ↔ json = true) →
  ∃ b q, (if json then toJson_private else toBytes) p s = (Ok b, s) ∧ ff_heap s !! q = None ∧
    loadSecretKey {[file := b]} file s = (Ok q, set_heap (<[q := OSecretKey sk]> (ff_heap s)) s).
Proof.
  intros Hs Hext. set (b := if json then pq_secret_key_to_json sk else pq_secret_key_to_bytes sk).
  pose proof (loadSecretKey_run {[file := b]} file s) as Hload. unfold readBytes in Hload.
  rewrite lookup_singleton_eq in Hload. cbn [mbind outcome_bind] in Hload.
  assert (Hsk : asOutcome (if bool_decide (extension file ≠ chars ".json")
                           then pq_secret_key_from_bytes b else pq_secret_key_from_json b) = Ok sk).
  { case_bool_decide as Hx; unfold b; destruct json.
    - by destruct Hx; apply Hext.
    - by rewrite pq_secret_bytes.
    - by rewrite pq_secret_json.
    - by apply Hext in Hx. }
  rewrite Hsk in Hload. destruct Hload as (q & _ & Hq & Hload). exists b, q.
  split; [|split; [done|exact Hload]]. unfold b. destruct json; [by apply toJson_run|by apply toBytes_run].
Qed.

(** What signing with the object at [key] does in [s]: it throws when the library does not sign;
    otherwise it returns a signature that verify accepts under [public] in the epochs from [a] on. *)
Definition signs_for (u : bool) (public : XmssPublicKey) (sk : PQSecretKey) (a n key : N) (s : Ffi) : Prop :=
  ∀ e msg, match pq_sign sk e msg with
           | inr _ => ∃ s', sign u key e msg s = (Throw SystemError, s') ∧ ff_heap s' = ff_heap s
           | inl g => ∃ sg s', sign u key e msg s = (Ok sg, s') ∧ ff_heap s' = ff_heap s ∧
               (a ≤ e < a + n → ∀ s2, (verify u public msg e sg s2).1 = Ok true)
           end.

Lemma generated_signs `{!HashSigLaws} u random a n pk sk key s :
  pq_key_gen random a n = inl (pk, sk) → ff_heap s !! key = Some (OSecretKey sk) →
  signs_for u (pq_public_key_to_bytes pk) sk a n key s.
Proof.
  intros Hgen Hs e msg. pose proof (sign_run u key e msg s) as Hrun. cbn [xmss_sign XmssProviderImpl] in Hrun.
  rewrite Hs in Hrun. assert (Hh : ff_heap (observed u [attestation_signing_time] s) = ff_heap s) by (by destruct u).
  destruct (pq_sign sk e msg) as [g|code] eqn:Hsign; [|eexists; split; [exact Hrun|done]].
  do 2 eexists. split; [exact Hrun|]. split; [done|]. intros He s2. rewrite verify_run.
  cbn [xmss_verify XmssProviderImpl fst]. rewrite pq_public_bytes.
  cbn [asOutcome or_throw mbind outcome_bind]. rewrite pq_signature_bytes. cbn [asOutcome or_throw mbind outcome_bind].
  by rewrite (pq_correct _ _ _ _ _ _ _ _ Hgen He Hsign).
Qed.

(** C23: generateKeypair throws exactly for a number of epochs that is zero or beyond the lifetime
    or when the library fails, and then leaves nothing behind; otherwise it leaves exactly the
    secret key of the pair.  That key, written with toBytes or toJson to a file of the matching
    extension, is read back as a new object.  Signing with either object throws when the library
    does not sign the message; a signature that is returned for an active epoch is accepted by
    verify under the public key of the pair, and no call leaves an object behind. *)
Theorem generated_keys_work `{!HashSigLaws} u random a n s :
  let ok := n ≠ 0 ∧ n ≤ pq_get_lifetime ∧ ∃ keys, pq_key_gen random a n = inl keys in
  (¬ ok → ∃ x, generateKeypair random a n s = (Throw x, s)) ∧
  (ok → ∃ kp sk, let h := <[kp_private kp := OSecretKey sk]> (ff_heap s) in
    generateKeypair random a n s = (Ok kp, set_heap h s) ∧ ff_heap s !! kp_private kp = None ∧
    ∀ s' file (json : bool), ff_heap s' !! kp_private kp = Some (OSecretKey sk) →
      (extension file = chars ".json" ↔ json = true) →
      ∃ b q, let s1 := set_heap (<[q := OSecretKey sk]> (ff_heap s')) s' in
        (if json then toJson_private else toBytes) (kp_private kp) s' = (Ok b, s') ∧
        ff_heap s' !! q = None ∧ loadSecretKey {[file := b]} file s' = (Ok q, s1) ∧
        signs_for u (kp_public kp) sk a n (kp_private kp) s1 ∧ signs_for u (kp_public kp) sk a n q s1).
Proof.
  cbv zeta. split.
  - intros Hno. unfold generateKeypair. destruct (N.eqb_spec n 0) as [->|Hn]; [by eexists|].
    destruct (N.ltb_spec pq_get_lifetime n) as [|Hl]; [by eexists|]. rewrite lift_bind.
    destruct (pq_key_gen random a n) as [keys|code]; [exfalso; naive_solver|by eexists].
  - intros (Hn & Hl & [pk sk] & Hgen). pose proof (generate_run random a n s Hn Hl) as Hrun. rewrite Hgen in Hrun.
    destruct Hrun as (p & Hp & Hfree & Hrun). eexists _, sk. split; [exact Hrun|]. cbn [kp_private kp_public].
    split; [done|]. intros s' file json Hs' Hext.
    destruct (secret_key_file file json p sk s' Hs' Hext) as (b & q & Hw & Hq & Hload).
    exists b, q. split_and!; [done..| |]; apply (generated_signs u random a n pk sk); try done; cbn [set_heap ff_heap].
    + rewrite lookup_insert_ne; [done|]. intros ->. congruence.
    + apply lookup_insert_eq.
Qed.

(** ** The keys of the node *)
Context (path_hash : bytes → N) (shadow : bool).

(** The secret keys at the addresses [l] are all that [h] has more than [h0]. *)
Definition owned (l : list N) (h0 h : gmap N Object) : Prop :=
  NoDup l ∧ (∀ p, p ∈ l → p ≠ 0 ∧ h0 !! p = None ∧ ∃ k, h !! p = Some (OSecretKey k)) ∧ ∀ p, p ∉ l → h !! p = h0 !! p.
#[global] Instance owned_perm : Proper ((≡ₚ) ==> (=) ==> (=) ==> iff) owned.
Proof. intros l l' Hl ? h0 -> ? h ->. unfold owned. by setoid_rewrite Hl. Qed.

Lemma owned_nil h0 h : owned [] h0 h ↔ h = h0.
Proof.
  split.
  - intros (_ & _ & He). apply map_eq. intros p. apply He. apply not_elem_of_nil.
  - intros ->. split; [apply NoDup_nil_2|]. split; [|done]. intros p []%elem_of_nil.
Qed.
Lemma owned_insert p k l h0 h :
  p ≠ 0 → h !! p = None → owned l h0 h → owned (p :: l) h0 (<[p := OSecretKey k]> h).
Proof.
  intros Hp Hn (Hnd & Hin & Hout).
  assert (Hpl : p ∉ l) by (intros Hpl; destruct (Hin p Hpl) as (_ & _ & k' & Hk); congruence).
  split; [by apply NoDup_cons|]. split.
  - intros q [->|Hq]%elem_of_cons.
    + split; [done|]. split; [by rewrite <- Hout|]. exists k. by rewrite lookup_insert_eq.
    + destruct (Hin q Hq) as (? & ? & k' & Hk). split; [done|]. split; [done|]. exists k'.
      rewrite lookup_insert_ne; [done|]. intros ->. contradiction.
  - intros q Hq. apply not_elem_of_cons in Hq as [Hqp Hq]. rewrite lookup_insert_ne by done. by apply Hout.
Qed.
Lemma owned_delete p l h0 h : owned (p :: l) h0 h → owned l h0 (delete p h).
Proof.
  intros (Hnd & Hin & Hout). apply NoDup_cons in Hnd as [Hpl Hnd]. split; [done|]. split.
  - intros q Hq. destruct (Hin q) as (? & ? & k' & Hk); [by right|]. split; [done|]. split; [done|]. exists k'.
    rewrite lookup_delete_ne; [done|]. intros ->. contradiction.
  - intros q Hq. destruct (decide (q = p)) as [->|Hne].
    + rewrite lookup_delete_eq. symmetry. apply Hin. by left.
    + rewrite lookup_delete_ne by done. apply Hout. apply not_elem_of_cons. done.
Qed.
Lemma release_all l h0 s :
  (if shadow then ff_heap s = h0 else owned (kp_private <$> l) h0 (ff_heap s)) →
  sm_iter (release shadow) l s = (Ok (), set_heap h0 s).
Proof.
  revert s. induction l as [|kp l IH]; intros s Hs.
  { assert (ff_heap s = h0) as <- by (destruct shadow; [done|by apply owned_nil]). cbn. by rewrite set_heap_id. }
  cbn [sm_iter]. unfold release at 1. destruct shadow; [by apply IH|].
  cbn [fmap list_fmap] in Hs. pose proof Hs as (_ & Hin & _). destruct (Hin (kp_private kp)) as (Hp & _ & k & Hk); [by left|].
  rewrite (sm_bind_ok _ _ s () (set_heap (delete (kp_private kp) (ff_heap s)) s)) by (by eapply free_run).
  rewrite IH; [done|]. by apply owned_delete.
Qed.

(** The keys of the manifest are those that its constructor has loaded. *)
Definition manifest_wf (keys : gmap XmssPublicKey XmssKeypair) (h0 h : gmap N Object) : Prop :=
  (∀ pk kp, keys !! pk = Some kp → kp_public kp = pk) ∧
  if shadow then h = h0 else owned (kp_private <$> (map_to_list keys).*2) h0 h.

Lemma yaml_key_cases key y : (∃ v, yaml_key key y = Ok v) ∨ yaml_key key y = Throw RuntimeError.
Proof. destruct y; [by right..|left; by eexists|by right]. Qed.
Lemma yaml_str_cases y : (∃ v, yaml_str y = Ok v) ∨ yaml_str y = Throw RuntimeError.
Proof. destruct y; [by right|left; by eexists|by right..]. Qed.

(** The key pair of an entry, before it is put into the map *)
Definition entry_key (files : gmap path bytes) (dir : path) (public_key : XmssPublicKey) (privkey_file : bytes)
    : SM Ffi error XmssKeypair :=
  if shadow then mret (mkXmssKeypair (path_hash privkey_file) public_key)
  else
    r ← sm_try (loadKeypair_of files public_key
           (path_append (path_append dir (chars "hash-sig-keys")) privkey_file));
    match r with inl k => mret k | inr _ => sm_throw SystemError end.

Lemma entry_key_run files dir pk file s :
  match entry_key files dir pk file s with
  | (Ok kp, s') => kp_public kp = pk ∧
      if shadow then s' = s
      else kp_private kp ≠ 0 ∧ ff_heap s !! kp_private kp = None ∧
           ∃ k, s' = set_heap (<[kp_private kp := OSecretKey k]> (ff_heap s)) s
  | (Err _, _) => False
  | (Throw x, s') => s' = s ∧ x = SystemError
  end.
Proof.
  unfold entry_key. destruct shadow; [done|].
  set (p := path_append _ file). pose proof (loadSecretKey_run files p s) as Hl. unfold mbind at 1, sm_bind, sm_try, loadKeypair_of.
  unfold readBytes in Hl. destruct (files !! p) as [b|]; cbn [mbind outcome_bind] in Hl.
  - destruct (if bool_decide _ then _ else _) as [sk|code]; cbn [asOutcome] in Hl.
    + destruct Hl as (q & Hq & Hn & Hl). rewrite (sm_bind_ok _ _ _ _ _ Hl). cbn. by eauto.
    + rewrite (sm_bind_err _ _ _ _ _ Hl). done.
  - rewrite (sm_bind_err _ _ _ _ _ Hl). done.
Qed.

Lemma load_entry_run files dir keys item h0 s :
  manifest_wf keys h0 (ff_heap s) →
  match load_entry path_hash shadow files dir keys item s with
  | (Ok keys', s') => manifest_wf keys' h0 (ff_heap s') ∧ keys ⊆ keys' ∧ s' = set_heap (ff_heap s') s
  | (Err _, _) => False
  | (Throw x, s') => s' = s ∧ x ≠ UndefinedBehaviour
  end.
Proof.
  intros [Hpub Hown]. unfold load_entry. rewrite lift_bind.
  destruct (yaml_key_cases (str2byte "pubkey_hex") item) as [[y1 ->]| ->]; [|done]. rewrite lift_bind.
  destruct (yaml_str_cases y1) as [[hex ->]| ->]; [|done]. rewrite lift_bind.
  destruct (key_fromHex hex) as [pk|]; [|done]. cbn [of_option]. rewrite lift_bind.
  destruct (yaml_key_cases (str2byte "privkey_file") item) as [[y2 ->]| ->]; [|done]. rewrite lift_bind.
  destruct (yaml_str_cases y2) as [[file ->]| ->]; [|done]. fold (entry_key files dir pk file).
  pose proof (entry_key_run files dir pk file s) as Hk. destruct (entry_key files dir pk file s) as [[kp|e|x] s1] eqn:Hrun;
    [|done|rewrite (sm_bind_throw _ _ _ _ _ Hrun); by destruct Hk as [-> ->]].
  rewrite (sm_bind_ok _ _ _ _ _ Hrun). destruct Hk as [Hkp Hs1]. destruct (keys !! pk) as [old|] eqn:Hold.
  - assert (release shadow kp s1 = (Ok (), s)) as Hrel.
    { unfold release. destruct shadow; [by subst s1|]. destruct Hs1 as (Hp & Hn & k & ->).
      rewrite (free_run (kp_private kp) (OSecretKey k)); [|done|cbn [set_heap ff_heap]; by rewrite lookup_insert_eq].
      cbn [set_heap ff_heap]. rewrite delete_insert_eq, delete_id by done. by destruct s. }
    rewrite (sm_bind_ok _ _ _ _ _ Hrel). cbn. split; [done|]. split; [done|]. by rewrite set_heap_id.
  - cbn. split; [|split; [by apply insert_subseteq|destruct shadow; [subst s1; by rewrite set_heap_id|by destruct Hs1 as (_ & _ & k & ->)]]].
    split.
    + intros pk' kp'. rewrite lookup_insert_Some. intros [[<- <-]|[_ Hk']]; [done|by eapply Hpub].
    + destruct shadow; [by subst s1|]. destruct Hs1 as (Hp & Hn & k & ->). cbn [set_heap ff_heap].
      rewrite (map_to_list_insert keys pk kp) by done. cbn [fmap list_fmap]. by apply owned_insert.
Qed.

Lemma load_entries_run files dir items keys h0 s :
  manifest_wf keys h0 (ff_heap s) →
  match load_entries path_hash shadow files dir keys items s with
  | (Ok keys', s') => manifest_wf keys' h0 (ff_heap s') ∧ keys ⊆ keys' ∧ s' = set_heap (ff_heap s') s
  | (Err _, _) => False
  | (Throw x, s') => s' = set_heap h0 s ∧ x ≠ UndefinedBehaviour
  end.
Proof.
  revert keys s. induction items as [|item items IH]; intros keys s Hw; cbn [load_entries].
  { cbn. by rewrite set_heap_id. }
  pose proof (load_entry_run files dir keys item h0 s Hw) as He.
  destruct (load_entry path_hash shadow files dir keys item s) as [[keys1|e|x] s1]; [|done|].
  - destruct He as (Hw1 & Hsub & Hs1). specialize (IH keys1 _ Hw1).
    assert (Hset : ∀ h, set_heap h s1 = set_heap h s) by (intros h; by rewrite Hs1).
    destruct (load_entries path_hash shadow files dir keys1 items s1) as [[keys2|e|x] s2]; [|done|].
    + destruct IH as (Hw2 & Hsub2 & Hs2). split; [done|]. split; [by etrans|]. by rewrite <- Hset.
    + by rewrite <- Hset.
  - destruct He as [-> Hx]. rewrite (release_all _ h0); [done|]. exact (proj2 Hw).
Qed.

(** C24: Loading the keys of the node never touches freed memory and never leaks: when the constructor throws, for a
    malformed table, a key that is no hexadecimal or a file that cannot be read, every key loaded before has been
    freed; otherwise every entry of the map has the key pair of its public key, and the secret keys of the map, at
    different addresses, are exactly the objects that are there in addition, also when the table lists a key twice. *)
Theorem manifest_owns_its_keys files dir node_id yaml s :
  match ValidatorKeysManifestImpl path_hash shadow files dir node_id yaml s with
  | (Ok keys, s') =>
      (∀ pk kp, getKeypair keys pk = Some kp → kp_public kp = pk) ∧ s' = set_heap (ff_heap s') s ∧
      if shadow then ff_heap s' = ff_heap s
      else owned (kp_private <$> (map_to_list keys).*2) (ff_heap s) (ff_heap s')
  | (Err _, _) => False
  | (Throw x, s') => s' = s ∧ x ≠ UndefinedBehaviour
  end.
Proof.
  unfold ValidatorKeysManifestImpl. rewrite lift_bind.
  destruct (yaml_key_cases node_id yaml) as [[y ->]| ->]; [|done]. rewrite lift_bind.
  destruct y as [|t|items|es|]; cbn [yaml_list]; [done|done| |done..].
  pose proof (load_entries_run files dir items ∅ (ff_heap s) s) as Hl.
  destruct (load_entries path_hash shadow files dir ∅ items s) as [[keys|e|x] s'].
  - destruct Hl as ([Hpub Hown] & _ & Hs); [|by split_and!]. split; [done|]. destruct shadow; [done|].
    rewrite map_to_list_empty. by apply owned_nil.
  - apply Hl. split; [done|]. destruct shadow; [done|]. rewrite map_to_list_empty. by apply owned_nil.
  - rewrite set_heap_id in Hl. apply Hl. split; [done|]. destruct shadow; [done|]. rewrite map_to_list_empty. by apply owned_nil.
Qed.
End proofs.

(** ** The provider under the fork choice *)
Section gossip.
Context `{HashSig} {S : Type} `{!SszHash} `{!BlockStorage S} `{!BlockStorageLaws S} `{!BuildMode} `{!UnorderedMap}.
Context `{!NodeKeys} `{!LoopFuel} (heap : gmap N Object).
#[local] Instance provider : XmssProvider := XmssProviderImpl heap.

(** What the checks say about the signature of an attestation on known blocks; [None]: it verifies. *)
Definition gossip_verdict (state : State) (sa : SignedAttestation) : option (result ()) :=
  match st_validators state !! N.to_nat (sa_validator_id sa) with
  | None => Some (Err (E_ForkChoice INVALID_ATTESTATION))
  | Some v =>
      match pq_public_key_from_bytes (v_attestation_pubkey v), pq_signature_from_bytes (sa_signature sa) with
      | inl k, inl g =>
          let z := pq_verify k (u32 (ad_slot (sa_data sa))) (attestationPayload (sa_data sa)) g in
          if (z <? 0)%Z then Some (Throw RuntimeError)
          else if (z =? 1)%Z then None else Some (Err (E_ForkChoice INVALID_ATTESTATION))
      | _, _ => Some (Throw SystemError)
      end
  end.

(** The aggregator of the subnet of the validator collects the signature. *)
Definition collects (sa : SignedAttestation) (s : ForkChoiceStore S) : bool :=
  fc_is_aggregator s && (sa_validator_id sa mod fc_subnet_count s =? fc_validator_id s mod fc_subnet_count s).

(** The outcome once the attestation was validated and the state of its target was looked up. *)
Definition gossip_outcome (sa : SignedAttestation) (r : result State) (s : ForkChoiceStore S) : result () * ForkChoiceStore S :=
  match r with
  | Ok state =>
      match gossip_verdict state sa with
      | Some refused => (refused, s)
      | None => if collects sa s then addSignatureToAggregate (sa_data sa) (sa_validator_id sa) (sa_signature sa) s
                else (Ok (), s)
      end
  | Err e => (Err e, s)
  | Throw x => (Throw x, s)
  end.

(** C22: A gossiped attestation that validateAttestation refuses is refused with the same error.  Otherwise the state
    of its target is taken from the cache or, when it is not cached, from the storage; without one the attestation
    is refused with STATE_NOT_FOUND, and storing a loaded state in a full cache that holds an equal one is undefined.
    The attestation is then accepted only with a signature that verifies under the attestation key of its validator
    in that state for its slot and data, and the aggregator of its subnet collects the signature.  A signature that
    does not verify and a validator that is unknown are refused with INVALID_ATTESTATION; a key or signature whose
    bytes the library cannot read is not refused but leaves onGossipAttestation as an exception.  Whatever is
    refused or thrown, the votes, the signatures collected and the blocks stay as they were. *)
Theorem gossip_attestation_checked sa (s : ForkChoiceStore S) t g ev a :
  at_state t g ev (fc_block_tree s) a → (fc_is_aggregator s = true → fc_subnet_count s ≠ 0) →
  ∃ p c, at_state t g ev p a ∧ let s' := set_states c (set_block_tree p s) in
    match (validateAttestation (mkAttestation (sa_validator_id sa) (sa_data sa)) s).1 with
    | Ok _ => ∃ r, state_lookup a s (cp_root (ad_target (sa_data sa))) r ∧
        onGossipAttestation sa s = gossip_outcome sa r s'
    | Err e => onGossipAttestation sa s = (Err e, s')
    | Throw _ => False
    end.
Proof.
  intros Hp Hn.
  destruct (validateAttestation_spec t g ev a s (mkAttestation (sa_validator_id sa) (sa_data sa)) Hp)
    as (r & (p & Hr & Hp') & HQ). rewrite Hr. cbn [fst]. unfold onGossipAttestation.
  destruct r as [[]|e|x]; [|exists p, (fc_states s); unfold mbind, sm_bind; rewrite Hr; by destruct s|exfalso; naive_solver].
  destruct (getState_total (set_block_tree p s) (cp_root (ad_target (sa_data sa))) t g ev a Hp')
    as (r & p' & c & Hget & Hp'' & Hl). exists p', c. split; [done|]. cbv zeta. exists r. split; [exact Hl|].
  rewrite (sm_bind_ok _ _ _ _ _ Hr). unfold mbind at 1, sm_bind at 1. rewrite Hget. unfold gossip_outcome.
  destruct r as [state|e|x]; [|done..]. unfold gossip_verdict. set (s' := set_states c _).
  destruct (st_validators state !! _) as [v|]; [|done].
  unfold mbind at 1, sm_bind at 1, sm_lift at 1. cbn [xmss_verify provider XmssProviderImpl].
  destruct (pq_public_key_from_bytes (v_attestation_pubkey v)) as [k|code]; [|done]. cbn [asOutcome or_throw mbind outcome_bind].
  destruct (pq_signature_from_bytes (sa_signature sa)) as [gs|code]; [|done]. cbn [asOutcome or_throw mbind outcome_bind].
  destruct (pq_verify _ _ _ _ <? 0)%Z; [done|]. destruct (pq_verify _ _ _ _ =? 1)%Z; [|done]. cbn [negb].
  rewrite (sm_bind_ok _ _ s' s' s') by done. unfold collects. change (fc_is_aggregator s') with (fc_is_aggregator s).
  change (fc_subnet_count s') with (fc_subnet_count s). change (fc_validator_id s') with (fc_validator_id s).
  destruct (fc_is_aggregator s); [|done]. cbn [negb andb]. unfold validatorSubnet.
  rewrite (proj2 (N.eqb_neq _ _) (Hn eq_refl)). unfold mbind, sm_bind, sm_lift. by destruct (_ =? _).
Qed.
End gossip.

(** ** Examples *)
Module XmssEx.
(** A library in which a signature is the number of the message and the epoch, which does not sign
    message 13; the bytes 0 are no key and no signature. *)
Definition ToyHashSig : HashSig := {|
  PQPublicKey := N; PQSecretKey := N; PQSignature := N * N;
  pq_get_lifetime := 2 ^ 20;
  pq_key_gen r _ _ := inl (r, r);
  pq_sign _ e m := if m =? 13 then inr 6 else inl (e, m);
  pq_verify _ e m g := if bool_decide (g = (e, m)) then 1%Z else 0%Z;
  pq_public_key_to_bytes k := k + 1;
  pq_public_key_from_bytes b := if b =? 0 then inr 7 else inl (b - 1);
  pq_signature_to_bytes g := N.pos (countable.encode g);
  pq_signature_from_bytes b :=
    match b with N0 => inr 8 | Npos p => match countable.decode p with Some g => inl g | None => inr 8 end end;
  pq_secret_key_to_bytes k := [k];
  pq_secret_key_from_bytes b := match b with [k] => inl k | _ => inr 9 end;
  pq_secret_key_to_json k := [123; k; 125];
  pq_secret_key_from_json b := match b with [123; k; 125] => inl k | _ => inr 9 end;
  pq_public_key_to_json k := [123; k; 125];
  pq_public_key_from_json b := match b with [123; k; 125] => inl k | _ => inr 9 end;
  pq_aggregate_signatures _ pks _ _ _ _ := pks;
  pq_verify_aggregated_signatures pks _ _ b := bool_decide (b = pks);
  key_fromSpan b := match b with [k] => Some k | _ => None end;
  key_fromHex b := match b with [k] => Some k | _ => None end;
|}.
#[local] Existing Instance ToyHashSig.
Lemma ToyHashSig_laws : HashSigLaws.
Proof.
  split; cbn; intros; try done.
  - destruct (N.eqb_spec (pk + 1) 0); [lia|]. by rewrite N.add_sub.
  - by rewrite decode_encode.
  - case_match; [done|]. simplify_eq. by rewrite bool_decide_eq_true_2.
Qed.

Definition ff0 : Ffi := mkFfi ∅ false false [].

(** A key for the epochs 5 to 14, saved and read back; message 13 is not signed. *)
Lemma generated_keys_work_witness :
  ∃ kp s1 b q s2, generateKeypair 3 5 10 ff0 = (Ok kp, s1) ∧
    toJson_private (kp_private kp) s1 = (Ok b, s1) ∧
    loadSecretKey {[chars "k.json" := b]} (chars "k.json") s1 = (Ok q, s2) ∧ q ≠ kp_private kp ∧
    (∃ sg s3, sign true q 7 99 s2 = (Ok sg, s3) ∧ (verify true (kp_public kp) 99 7 sg s3).1 = Ok true) ∧
    ∃ s3, sign true q 7 13 s2 = (Throw SystemError, s3).
Proof.
  destruct (generated_keys_work (H0 := ToyHashSig_laws) true 3 5 10 ff0) as [_ Hok].
  destruct Hok as (kp & sk & Hrun & _ & Huse).
  { split; [done|]. split; [by vm_compute|]. by eexists. }
  set (s1 := set_heap (<[kp_private kp := OSecretKey sk]> (ff_heap ff0)) ff0) in Hrun.
  assert (Hin : ff_heap s1 !! kp_private kp = Some (OSecretKey sk)) by apply lookup_insert_eq.
  destruct (Huse s1 (chars "k.json") true Hin) as (b & q & Hw & Hq & Hl & _ & Hs).
  { split; intros _; vm_compute; reflexivity. }
  exists kp, s1, b, q. eexists. split; [exact Hrun|]. split; [exact Hw|]. split; [exact Hl|].
  split; [intros ->; rewrite Hin in Hq; discriminate Hq|].
  destruct (Hs 7 99) as (sg & s3 & Hsg & _ & Hv). destruct (Hs 7 13) as (s4 & Hno & _). split.
  - exists sg, s3. split; [exact Hsg|]. apply Hv. lia.
  - exists s4. exact Hno.
Defined.

(** A table with two keys, the second listed twice, and one whose second file is missing. *)
Definition item (hex file : bytes) : Yaml :=
  Map [(str2byte "pubkey_hex", Scalar hex); (str2byte "privkey_file", Scalar file)].
Definition key_files : gmap path bytes := {[chars "/g/hash-sig-keys/a" := [1]; chars "/g/hash-sig-keys/b" := [2]]}.
Definition table : Yaml :=
  Map [(chars "node", Sequence [item [1] (chars "a"); item [2] (chars "b"); item [2] (chars "a")]);
       (chars "broken", Sequence [item [1] (chars "a"); item [2] (chars "c")])].
Lemma manifest_example :
  (∃ keys s, ValidatorKeysManifestImpl lengthN false key_files (chars "/g") (chars "node") table ff0 = (Ok keys, s) ∧
     size keys = 2%nat ∧ size (ff_heap s) = 2%nat ∧ is_Some (getKeypair keys 2)) ∧
  ValidatorKeysManifestImpl lengthN false key_files (chars "/g") (chars "broken") table ff0 = (Throw SystemError, ff0).
Proof. split; [do 2 eexists; split; [vm_compute; reflexivity|]; vm_compute; split_and!; try done; by eexists|vm_compute; reflexivity]. Qed.

Section gossip.
Import FcStore ForkChoiceTheorems.FcEx.
#[local] Existing Instance ReleaseBuild.
#[local] Existing Instance CanonicalOrder.
#[local] Existing Instance ToyKeys.
#[local] Existing Instance ToyFuel.

Definition ToyProvider : XmssProvider := XmssProviderImpl ∅.
#[local] Existing Instance ToyProvider.

(** An attestation for genesis whose signature is no signature, in a store that has the state of
    genesis cached and in one that has just been started and has it stored. *)
Definition malformed : SignedAttestation :=
  mkSignedAttestation 0 (mkAttestationData 2 (cp_of child_index) (cp_of genesis_index) (cp_of genesis_index)) 0.
Definition put_genesis : result () * BlockTreeData ToyS :=
  storage (bs_putState (bi_hash genesis_index) Ex.s0) (fc_block_tree s_ex).
Definition cold : ForkChoiceStore ToyS := set_states (mkLruCache 16 1 []) (set_block_tree put_genesis.2 s_ex).
Lemma cold_empty : pairs (fc_states cold) = [].
Proof. reflexivity. Qed.
Lemma cold_facts : ∃ t ev a, at_state t None ev (fc_block_tree s_ex) a ∧
  at_state t None ev (fc_block_tree cold) (abs_set_state (bi_hash genesis_index) (Some Ex.s0) a).
Proof.
  destruct (store_facts (cp_of genesis_index) votes ∅) as (t & ev & a & Hp & _). exists t, ev, a. split; [exact Hp|].
  destruct (bt_storage_op _ _ _ _ _ _ _ _ Hp (law_putState _ _ (bi_hash genesis_index) Ex.s0 (as_storage _ _ _ _ _ Hp)))
    as (p & Hrun & Hp').
  unfold cold, put_genesis. cbn [fc_block_tree set_states set_block_tree]. fold s_ex in Hrun. by rewrite Hrun.
Qed.
Definition malformed_vote : Attestation := mkAttestation (sa_validator_id malformed) (sa_data malformed).
Lemma malformed_valid : (validateAttestation malformed_vote s_ex).1 = Ok () ∧ (validateAttestation malformed_vote cold).1 = Ok ().
Proof. split; vm_compute; reflexivity. Qed.
Lemma malformed_throws :
  (onGossipAttestation malformed s_ex).1 = Throw SystemError ∧ (onGossipAttestation malformed cold).1 = Throw SystemError.
Proof. split; vm_compute; reflexivity. Qed.
(** An exception other than undefined behaviour is the verdict on the signature. *)
Lemma outcome_verdict a (s : ForkChoiceStore ToyS) h r (s' : ForkChoiceStore ToyS) :
  state_lookup a s h r → (gossip_outcome malformed r s').1 = Throw SystemError →
  ∃ state, r = Ok state ∧ gossip_verdict state malformed = Some (Throw SystemError) ∧
    gossip_outcome malformed r s' = (Throw SystemError, s').
Proof.
  intros Hl Hx. destruct r as [state|e|x]; [|discriminate Hx|destruct Hl as [-> _]; discriminate Hx].
  exists state. split; [done|]. unfold gossip_outcome in *. destruct (gossip_verdict state malformed) as [v|] eqn:Hv.
  - simpl in Hx. by subst v.
  - destruct (collects malformed s'); [|discriminate Hx]. exfalso. revert Hv. unfold gossip_verdict.
    destruct (st_validators state !! _); [|done]. by destruct (pq_public_key_from_bytes _).
Qed.

Lemma gossip_attestation_checked_witness :
  (∃ state s', (bi_hash genesis_index, state) ∈ pairs (fc_states s_ex) ∧
    gossip_verdict state malformed = Some (Throw SystemError) ∧
    onGossipAttestation malformed s_ex = (Throw SystemError, s')) ∧
  ∃ t ev a state s', at_state t None ev (fc_block_tree cold) a ∧
    a_state a (bi_hash genesis_index) = Some state ∧
    gossip_verdict state malformed = Some (Throw SystemError) ∧
    onGossipAttestation malformed cold = (Throw SystemError, s').
Proof.
  destruct cold_facts as (t & ev & a & Hp & Hp').
  destruct malformed_valid as [Hv1 Hv2]. destruct malformed_throws as [Hx1 Hx2].
  unfold malformed_vote in Hv1, Hv2. split.
  - destruct (gossip_attestation_checked ∅ malformed s_ex t None ev a Hp) as (p & c & _ & Hrun); [done|].
    rewrite Hv1 in Hrun. destruct Hrun as (r & Hl & Hrun). pose proof (eq_trans (f_equal fst (eq_sym Hrun)) Hx1) as Hx.
    destruct (outcome_verdict _ _ _ _ _ Hl Hx) as (state & -> & Hg & Ho). rewrite Ho in Hrun.
    destruct Hl as [Hl|[Hl _]]; [|exfalso; eapply Hl; left; reflexivity].
    eexists state, _. split; [exact Hl|]. split; [exact Hg|exact Hrun].
  - destruct (gossip_attestation_checked ∅ malformed cold t None ev _ Hp') as (p & c & _ & Hrun); [done|].
    rewrite Hv2 in Hrun. destruct Hrun as (r & Hl & Hrun). pose proof (eq_trans (f_equal fst (eq_sym Hrun)) Hx2) as Hx.
    destruct (outcome_verdict _ _ _ _ _ Hl Hx) as (state & -> & Hg & Ho). rewrite Ho in Hrun.
    destruct Hl as [Hl|[_ Hl]]; [rewrite cold_empty in Hl; apply elem_of_nil in Hl; destruct Hl|].
    eexists t, ev, _, state, _. split; [exact Hp'|]. split; [exact Hl|]. split; [exact Hg|exact Hrun].
Defined.
End gossip.
End XmssEx.
