(* ===== verification/Json.v ===== *)
(** * JSON (src/src/serde/json.hpp, json_fwd.hpp)

    The templates [encode] and [decode] are overloaded on C++ types.  Here a type is a
    description [ty], a C++ value of it a [value], and the overloads are the cases of two
    functions on descriptions.  Parsing and printing the text is the rapidjson library:
    [Value] is its document. *)

From Stdlib Require Import String.
From S2P Require Import Prelude Errors Parsers.

(** ** Names *)

Inductive NameCase := SNAKE | CAMEL.

Definition toupper (c : N) : N := if (97 <=? c) && (c <=? 122) then c - 32 else c.

(** The loop of toCamelCase *)
Fixpoint camel (capitalize : bool) (name : bytes) : bytes :=
  match name with
  | [] => []
  | c :: name =>
      if c =? 95 then camel true name
      else (if capitalize then toupper c else c) :: camel false name
  end.
Definition toCamelCase (name : bytes) : bytes := camel false name.

(** FieldName, by its name in snake case *)
Definition FieldName := bytes.
Definition field_name (name_case : NameCase) (f : FieldName) : bytes :=
  match name_case with SNAKE => f | CAMEL => toCamelCase f end.

(** ** Documents *)

(** An integer of a document fits 64 bits; [JDouble] stands for the other numbers. *)
Inductive Value :=
| JNull
| JBool (b : bool)
| JInt (z : Z)
| JDouble
| JString (s : bytes)
| JArray (items : list Value)
| JObject (members : list (bytes * Value)).

(** ** Types and their values *)

(** [ty_fields] is a type with JSON_FIELDS, [ty_discriminator] one with JSON_DISCRIMINATOR,
    [ty_enum] one with JSON_ENUM, [ty_wrapper] one with JSON_WRAPPER; a width is in bits. *)
Inductive ty :=
| ty_bool
| ty_unsigned (width : N)
| ty_signed (width : N)
| ty_string
| ty_byte_vec
| ty_byte_arr (n : N)
| ty_vector (t : ty)
| ty_optional (t : ty)
| ty_map (t : ty)
| ty_ssz_list (t : ty) (limit : N)
| ty_ssz_bytes (limit : N)
| ty_fields (fields : list (FieldName * ty))
| ty_discriminator (type_field_name : FieldName) (alternatives : list (bytes * ty))
| ty_enum (names : list bytes)
| ty_wrapper (t : ty).

Inductive value :=
| VBool (b : bool)
| VInt (z : Z)
| VBytes (b : bytes)
| VList (l : list value)
| VOptional (o : option value)
| VMap (l : list (bytes * value))
| VFields (l : list value)
| VVariant (i : nat) (v : value)
| VEnum (i : nat).

(** qtils: hex digits with the prefix 0x *)
Class Hex := {
  hex0x : bytes → bytes;
  unhex0x : bytes → option bytes;
}.

Section json.
Context `{Hex} (name_case : NameCase).

(** ** Encoding *)

(** The fields of an object, one after the other *)
Definition add_member (f : FieldName) (o : option Value) (rest : option (list (bytes * Value)))
    : option (list (bytes * Value)) :=
  v ← o; members ← rest; Some ((field_name name_case f, v) :: members).

(** [None]: no overload takes a value of this type. *)
Fixpoint encode (t : ty) (v : value) {struct t} : option Value :=
  match t, v with
  | ty_bool, VBool b => Some (JBool b)
  | ty_unsigned _, VInt z | ty_signed _, VInt z => Some (JInt z)
  | ty_string, VBytes s => Some (JString s)
  | ty_byte_arr _, VBytes b => Some (JString (hex0x b))
  | ty_vector t, VList l => JArray <$> mapM (encode t) l
  | ty_fields fields, VFields l =>
      JObject <$>
        (fix encodeFields (fields : list (FieldName * ty)) (l : list value) :=
           match fields, l with
           | [], [] => Some []
           | (f, t) :: fields, v :: l => add_member f (encode t v) (encodeFields fields l)
           | _, _ => None
           end) fields l
  | _, _ => None
  end.

(** ** Decoding *)

Definition json_error {A} : result A := Throw RuntimeError.

(** JSON_ASSERT *)
Definition json_assert (b : bool) : result () := if b then Ok () else json_error.

Definition overflow (lo hi v : Z) : result Z := if ((lo <=? v) && (v <=? hi))%Z then Ok v else json_error.

(** IsUint64 and IsInt64 *)
Definition GetUint64 (j : Value) : result Z :=
  match j with JInt z => if ((0 <=? z) && (z <? 2 ^ 64))%Z then Ok z else json_error | _ => json_error end.
Definition GetInt64 (j : Value) : result Z :=
  match j with JInt z => if ((- 2 ^ 63 <=? z) && (z <? 2 ^ 63))%Z then Ok z else json_error | _ => json_error end.

Definition decodeStr (j : Value) : result bytes :=
  match j with JString s => Ok s | _ => json_error end.

(** unhex0x(...).value() and ByteArr<N>::fromHexWithPrefix(...).value() *)
Definition decode_byte_vec (j : Value) : result bytes :=
  s ← decodeStr j; of_option SystemError (unhex0x s).
Definition decode_byte_arr (n : N) (j : Value) : result bytes :=
  b ← decode_byte_vec j; if lengthN b =? n then Ok b else Throw SystemError.

(** The loop over an array *)
Fixpoint decode_items (d : Value → result value) (items : list Value) : result (list value) :=
  match items with
  | [] => Ok []
  | j :: items => v ← d j; l ← decode_items d items; Ok (v :: l)
  end.
Definition decode_vector (d : Value → result value) (j : Value) : result (list value) :=
  match j with JArray items => decode_items d items | _ => json_error end.

(** The loop over the members; emplace keeps the value that a key already has. *)
Fixpoint decode_members (d : Value → result value) (members : list (bytes * Value)) (l : list (bytes * value))
    : result (list (bytes * value)) :=
  match members with
  | [] => Ok l
  | (key, j) :: members =>
      v ← d j;
      decode_members d members (if bool_decide (key ∈ l.*1) then l else l ++ [(key, v)])
  end.

(** FindMember; a missing member is null. *)
Definition find_member (name : bytes) (members : list (bytes * Value)) : Value :=
  match list_find (λ m, m.1 = name) members with Some (_, m) => m.2 | None => JNull end.

(** One field of decodeFields *)
Definition decodeField {A} (f : FieldName) (d : Value → result A) (j : Value) : result A :=
  match j with
  | JObject members => d (find_member (field_name name_case f) members)
  | _ => json_error
  end.

Definition key_data : FieldName := chars "data".

Fixpoint decode (t : ty) (j : Value) {struct t} : result value :=
  match t with
  | ty_bool => match j with JBool b => Ok (VBool b) | _ => json_error end
  | ty_unsigned w => z ← GetUint64 j; z ← overflow 0 (2 ^ Z.of_N w - 1) z; Ok (VInt z)
  | ty_signed w => z ← GetInt64 j; z ← overflow (- 2 ^ (Z.of_N w - 1)) (2 ^ (Z.of_N w - 1) - 1) z; Ok (VInt z)
  | ty_string => s ← decodeStr j; Ok (VBytes s)
  | ty_byte_vec => b ← decode_byte_vec j; Ok (VBytes b)
  | ty_byte_arr n => b ← decode_byte_arr n j; Ok (VBytes b)
  | ty_vector t => l ← decode_vector (decode t) j; Ok (VList l)
  | ty_optional t =>
      match j with
      | JNull => Ok (VOptional None)
      | _ => v ← decode t j; Ok (VOptional (Some v))
      end
  | ty_map t =>
      match j with
      | JObject members => l ← decode_members (decode t) members []; Ok (VMap l)
      | _ => json_error
      end
  | ty_ssz_list t _ => l ← decodeField key_data (decode_vector (decode t)) j; Ok (VList l)
  | ty_ssz_bytes _ => b ← decodeField key_data decode_byte_vec j; Ok (VBytes b)
  | ty_fields fields =>
      l ← (fix decodeFields (fields : list (FieldName * ty)) : result (list value) :=
             match fields with
             | [] => Ok []
             | (f, t) :: fields => v ← decodeField f (decode t) j; l ← decodeFields fields; Ok (v :: l)
             end) fields;
      Ok (VFields l)
  | ty_discriminator type_field_name alternatives =>
      type_field_value ← decodeField type_field_name decodeStr j;
      (fix decodeDiscriminator (i : nat) (alternatives : list (bytes * ty)) : result value :=
         match alternatives with
         | [] => json_error
         | (tag, t) :: alternatives =>
             if bool_decide (type_field_value = tag) then v ← decode t j; Ok (VVariant i v)
             else decodeDiscriminator (S i) alternatives
         end) O alternatives
  | ty_enum names =>
      str ← decodeStr j;
      match list_find (λ n, n = str) names with Some (i, _) => Ok (VEnum i) | None => json_error end
  | ty_wrapper t => decode t j
  end.
End json.

(** ** The types of the HTTP interface (types/fork_choice_api_json.hpp, checkpoint.hpp,
    app/impl/http_server.cpp) *)

Definition ty_hash : ty := ty_byte_arr 32.
Definition ty_u64 : ty := ty_unsigned 64.

Definition Checkpoint_ty : ty := ty_fields [(chars "root", ty_hash); (chars "slot", ty_u64)].

Definition ForkChoiceNodeApiJson_ty : ty :=
  ty_fields [(chars "root", ty_hash); (chars "slot", ty_u64); (chars "parent_root", ty_hash);
             (chars "proposer_index", ty_u64); (chars "weight", ty_u64)].

Definition ForkChoiceApiJson_ty : ty :=
  ty_fields [(chars "nodes", ty_vector ForkChoiceNodeApiJson_ty); (chars "head", ty_hash);
             (chars "justified", Checkpoint_ty); (chars "finalized", Checkpoint_ty);
             (chars "safe_target", ty_hash); (chars "validator_count", ty_u64)].

Definition Enabled_ty : ty := ty_fields [(chars "enabled", ty_bool)].
