(* ===== verification/JsonTheorems.v ===== *)
(** * JSON: decoded values have their type, and what is written is read back *)

From Stdlib Require Import String.
From S2P Require Import Prelude Errors Parsers Types ForkChoice Json.

(** ** Values of a type *)

Fixpoint has_type (t : ty) (v : value) {struct t} : Prop :=
  match t, v with
  | ty_bool, VBool _ => True
  | ty_unsigned w, VInt z => (0 ≤ z < 2 ^ Z.of_N w)%Z
  | ty_signed w, VInt z => (- 2 ^ (Z.of_N w - 1) ≤ z < 2 ^ (Z.of_N w - 1))%Z
  | ty_string, VBytes _ | ty_byte_vec, VBytes _ | ty_ssz_bytes _, VBytes _ => True
  | ty_byte_arr n, VBytes b => lengthN b = n
  | ty_vector t, VList l | ty_ssz_list t _, VList l => Forall (has_type t) l
  | ty_optional t, VOptional o => ∀ v, o = Some v → has_type t v
  | ty_map t, VMap l => NoDup l.*1 ∧ Forall (λ x, has_type t x.2) l
  | ty_fields fields, VFields l =>
      (fix go (fields : list (FieldName * ty)) (l : list value) : Prop :=
         match fields, l with
         | [], [] => True
         | (_, t) :: fields, v :: l => has_type t v ∧ go fields l
         | _, _ => False
         end) fields l
  | ty_discriminator _ alternatives, VVariant i v =>
      (fix go (i : nat) (alternatives : list (bytes * ty)) {struct alternatives} : Prop :=
         match alternatives, i with
         | (_, t) :: _, O => has_type t v
         | _ :: alternatives, S i => go i alternatives
         | [], _ => False
         end) i alternatives
  | ty_enum names, VEnum i => (i < length names)%nat
  | ty_wrapper t, _ => has_type t v
  | _, _ => False
  end.

(** The induction principle for nested types *)
Section ty_induction.
Context (P : ty → Prop).
Context (Hbool : P ty_bool) (Hunsigned : ∀ w, P (ty_unsigned w)) (Hsigned : ∀ w, P (ty_signed w)).
Context (Hstring : P ty_string) (Hbv : P ty_byte_vec) (Hba : ∀ n, P (ty_byte_arr n)).
Context (Hvector : ∀ t, P t → P (ty_vector t)) (Hoptional : ∀ t, P t → P (ty_optional t)) (Hmap : ∀ t, P t → P (ty_map t)).
Context (Hlist : ∀ t n, P t → P (ty_ssz_list t n)) (Hbytes : ∀ n, P (ty_ssz_bytes n)).
Context (Hfields : ∀ fields, Forall (λ f, P f.2) fields → P (ty_fields fields)).
Context (Hdisc : ∀ f alternatives, Forall (λ a, P a.2) alternatives → P (ty_discriminator f alternatives)).
Context (Henum : ∀ names, P (ty_enum names)) (Hwrapper : ∀ t, P t → P (ty_wrapper t)).

Fixpoint ty_nested_ind (t : ty) : P t :=
  let go := fix go (l : list (bytes * ty)) : Forall (λ f, P f.2) l :=
    match l with [] => Forall_nil_2 _ | x :: l => Forall_cons_2 _ _ _ (ty_nested_ind x.2) (go l) end in
  match t with
  | ty_bool => Hbool
  | ty_unsigned w => Hunsigned w
  | ty_signed w => Hsigned w
  | ty_string => Hstring
  | ty_byte_vec => Hbv
  | ty_byte_arr n => Hba n
  | ty_vector t => Hvector t (ty_nested_ind t)
  | ty_optional t => Hoptional t (ty_nested_ind t)
  | ty_map t => Hmap t (ty_nested_ind t)
  | ty_ssz_list t n => Hlist t n (ty_nested_ind t)
  | ty_ssz_bytes n => Hbytes n
  | ty_fields fields => Hfields fields (go fields)
  | ty_discriminator f alternatives => Hdisc f alternatives (go alternatives)
  | ty_enum names => Henum names
  | ty_wrapper t => Hwrapper t (ty_nested_ind t)
  end.
End ty_induction.

Section json.
Context `{Hex} (name_case : NameCase).

(** ** Decoded values are typed *)

Lemma overflow_ok lo hi z z' : overflow lo hi z = Ok z' → z' = z ∧ (lo ≤ z ≤ hi)%Z.
Proof. unfold overflow. destruct (_ && _) eqn:E; [|done]. intros [= <-]. apply andb_true_iff in E as [?%Z.leb_le ?%Z.leb_le]. done. Qed.

Lemma decode_items_typed (d : Value → result value) (P : value → Prop) items l :
  (∀ j v, d j = Ok v → P v) → decode_items d items = Ok l → Forall P l.
Proof.
  intros Hd. revert l. induction items as [|j items IH]; intros l; cbn; [by intros [= <-]; constructor|].
  intros (v & Hv & (l' & Hl & [= <-])%outcome_bind_ok)%outcome_bind_ok. constructor; eauto.
Qed.

Lemma decode_vector_typed (d : Value → result value) (P : value → Prop) j l :
  (∀ j v, d j = Ok v → P v) → decode_vector d j = Ok l → Forall P l.
Proof. intros Hd. destruct j; try done. by apply decode_items_typed. Qed.

Lemma decode_members_typed (d : Value → result value) (P : value → Prop) members l l' :
  (∀ j v, d j = Ok v → P v) → NoDup l.*1 → Forall (λ x, P x.2) l →
  decode_members d members l = Ok l' → NoDup l'.*1 ∧ Forall (λ x, P x.2) l'.
Proof.
  intros Hd. revert l. induction members as [|[k j] members IH]; intros l Hnd Hl; cbn; [by intros [= <-]|].
  intros (v & Hv & Hrun)%outcome_bind_ok. apply IH in Hrun; [done|..]; case_bool_decide; try done.
  - rewrite fmap_app. apply NoDup_app. split_and!; [done|set_solver|apply NoDup_singleton].
  - apply Forall_app. split; [done|]. constructor; [|constructor]. by eapply Hd.
Qed.

Lemma decodeField_ok {A} f (d : Value → result A) j a :
  decodeField name_case f d j = Ok a → ∃ members, j = JObject members ∧ d (find_member (field_name name_case f) members) = Ok a.
Proof. destruct j; try done. cbn. eauto. Qed.

(** Decoding is type safe: whatever the document and the type, decoding either throws or gives
    a value of the type: integers within the width of their type (a number that does not fit is
    refused, never truncated), byte arrays of their length, maps without duplicate keys, variants
    and enums within their alternatives. *)
Theorem json_decode_typed t j v : decode name_case t j = Ok v → has_type t v.
Proof.
  revert j v. induction t as [|w|w| | |n|t IH|t IH|t IH|t n IH|n|fields IH|f alternatives IH|names|t IH] using ty_nested_ind;
    intros j v; cbn [decode].
  - destruct j; try done. by intros [= <-].
  - intros (z & _ & (z' & [-> ?]%overflow_ok & [= <-])%outcome_bind_ok)%outcome_bind_ok. cbn. lia.
  - intros (z & _ & (z' & [-> ?]%overflow_ok & [= <-])%outcome_bind_ok)%outcome_bind_ok. cbn. lia.
  - by intros (s & _ & [= <-])%outcome_bind_ok.
  - by intros (s & _ & [= <-])%outcome_bind_ok.
  - intros (b & Hb & [= <-])%outcome_bind_ok. apply outcome_bind_ok in Hb as (b' & _ & Hn).
    destruct (N.eqb_spec (lengthN b') n); [|done]. by injection Hn as <-.
  - intros (l & Hl & [= <-])%outcome_bind_ok. by eapply decode_vector_typed.
  - destruct j; try (by intros [= <-]); (intros (x & Hx & [= <-])%outcome_bind_ok; intros y [= <-]; by eapply IH).
  - destruct j; try done. intros (l & Hl & [= <-])%outcome_bind_ok. eapply decode_members_typed in Hl; [done|exact IH|constructor|constructor].
  - intros (l & Hl & [= <-])%outcome_bind_ok. apply decodeField_ok in Hl as (members & -> & Hl). by eapply decode_vector_typed.
  - by intros (b & _ & [= <-])%outcome_bind_ok.
  - intros (l & Hl & [= <-])%outcome_bind_ok. cbn. revert l Hl. induction IH as [|[f t] fields IHt _ IH]; intros l; [by intros [= <-]|].
    intros (x & Hx & (l' & Hl' & [= <-])%outcome_bind_ok)%outcome_bind_ok. split; [|by apply IH].
    apply decodeField_ok in Hx as (members & _ & Hx). by eapply IHt.
  - intros (tag & _ & Hv)%outcome_bind_ok. cut (∃ i x, v = VVariant i x ∧
      (fix go (i : nat) (alternatives : list (bytes * ty)) {struct alternatives} : Prop :=
         match alternatives, i with
         | (_, t) :: _, O => has_type t x
         | _ :: alternatives, S i => go i alternatives
         | [], _ => False
         end) (i - 0)%nat alternatives ∧ (0 ≤ i)%nat); [intros (i & x & -> & Hgo & _); by rewrite Nat.sub_0_r in Hgo|].
    revert Hv. generalize 0%nat. induction IH as [|[g t] alternatives IHt _ IH]; intros i; [done|].
    case_bool_decide.
    + intros (x & Hx & [= <-])%outcome_bind_ok. exists i, x. rewrite Nat.sub_diag. split_and!; [done|by eapply IHt|lia].
    + intros (k & x & -> & Hgo & Hk)%IH. exists k, x. split_and!; [done| |lia]. by replace (k - i)%nat with (S (k - S i)) by lia.
  - intros (s & _ & Hs)%outcome_bind_ok. destruct (list_find _ names) as [[i n]|] eqn:Hf; [|done]. injection Hs as <-.
    apply list_find_Some in Hf as (Hi & _). by eapply lookup_lt_Some.
  - apply IH.
Qed.

(** ** Round trip *)

(** The types that both directions support, with field names that stay distinct *)
Fixpoint encodable (t : ty) : Prop :=
  match t with
  | ty_bool | ty_string | ty_byte_arr _ => True
  | ty_unsigned w => w ≤ 64
  | ty_signed w => 1 ≤ w ≤ 64
  | ty_vector t => encodable t
  | ty_fields fields =>
      NoDup (field_name name_case <$> fields.*1) ∧
      (fix go (fields : list (FieldName * ty)) : Prop :=
         match fields with [] => True | (_, t) :: fields => encodable t ∧ go fields end) fields
  | _ => False
  end.

Definition encode_fields := fix encodeFields (fields : list (FieldName * ty)) (l : list value) :=
  match fields, l with
  | [], [] => Some []
  | (f, t) :: fields, v :: l => add_member name_case f (encode name_case t v) (encodeFields fields l)
  | _, _ => None
  end.
Definition decode_fields (j : Value) := fix decodeFields (fields : list (FieldName * ty)) : result (list value) :=
  match fields with
  | [] => Ok []
  | (f, t) :: fields => v ← decodeField name_case f (decode name_case t) j; l ← decodeFields fields; Ok (v :: l)
  end.

Definition roundtrips (t : ty) (v : value) : Prop := ∃ j, encode name_case t v = Some j ∧ decode name_case t j = Ok v.

Lemma find_member_mid name j pre post :
  name ∉ pre.*1 → find_member name (pre ++ (name, j) :: post) = j.
Proof.
  intros Hn. unfold find_member. induction pre as [|[k x] pre IH]; cbn.
  - by rewrite decide_True.
  - cbn in Hn. rewrite decide_False by (intros ->; apply Hn; by left).
    rewrite not_elem_of_cons in Hn. destruct Hn as [_ Hn]. specialize (IH Hn).
    destruct (list_find (λ m, m.1 = name) (pre ++ (name, j) :: post)) as [[? ?]|]; [exact IH|]. cbn. exact IH.
Qed.

Lemma fields_roundtrip fields l pre :
  Forall (λ f, ∀ v, encodable f.2 → has_type f.2 v → roundtrips f.2 v) fields →
  encodable (ty_fields fields) → has_type (ty_fields fields) (VFields l) →
  (∀ f, f ∈ fields.*1 → field_name name_case f ∉ pre.*1) →
  ∃ members, encode_fields fields l = Some members ∧ decode_fields (JObject (pre ++ members)) fields = Ok l.
Proof.
  intros Hall. revert l pre. induction Hall as [|[f t] fields Ht _ IH]; intros [|v l] pre [Hnd Henc] Hl Hpre; try done.
  { by exists []. }
  cbn in Hl, Henc, Hnd. destruct Hl as [Hv Hl], Henc as [Hte Henc]. apply NoDup_cons in Hnd as [Hf Hnd].
  destruct (Ht v Hte Hv) as (j & Hj & Hd). cbn in Hj, Hd.
  destruct (IH l (pre ++ [(field_name name_case f, j)])) as (members & Hm & Hdm); [done|done|..].
  { intros g Hg. rewrite fmap_app. cbn. rewrite elem_of_app, list_elem_of_singleton. intros [Hin|Heq].
    - eapply Hpre; [right; exact Hg|done].
    - apply Hf. rewrite <- Heq. by apply list_elem_of_fmap_2. }
  exists ((field_name name_case f, j) :: members). rewrite <- app_assoc in Hdm. cbn in Hdm. split.
  - cbn. unfold add_member. rewrite Hj. cbn. by rewrite Hm.
  - cbn. rewrite find_member_mid by (apply Hpre; by left). rewrite Hd. cbn. by rewrite Hdm.
Qed.

Lemma vector_roundtrip t l :
  (∀ v, encodable t → has_type t v → roundtrips t v) → encodable t → Forall (has_type t) l →
  ∃ items, mapM (encode name_case t) l = Some items ∧ decode_items (decode name_case t) items = Ok l.
Proof.
  intros Ht He. induction 1 as [|v l Hv _ (items & Hm & Hd)]; [by exists []|].
  destruct (Ht v He Hv) as (j & Hj & Hdj). exists (j :: items). cbn. rewrite Hj, Hdj. cbn. rewrite Hm, Hd. done.
Qed.

Lemma unsigned_roundtrip w z : w ≤ 64 → (0 ≤ z < 2 ^ Z.of_N w)%Z → decode name_case (ty_unsigned w) (JInt z) = Ok (VInt z).
Proof.
  intros Hw Hz. assert (2 ^ Z.of_N w ≤ 2 ^ 64)%Z by (apply Z.pow_le_mono_r; lia). unfold decode, GetUint64, overflow.
  rewrite (proj2 (Z.leb_le 0 z)), (proj2 (Z.ltb_lt z _)) by lia. cbn. by rewrite (proj2 (Z.leb_le 0 z)), (proj2 (Z.leb_le z _)) by lia.
Qed.
Lemma signed_roundtrip w z :
  1 ≤ w ≤ 64 → (- 2 ^ (Z.of_N w - 1) ≤ z < 2 ^ (Z.of_N w - 1))%Z → decode name_case (ty_signed w) (JInt z) = Ok (VInt z).
Proof.
  intros Hw Hz. assert (2 ^ (Z.of_N w - 1) ≤ 2 ^ 63)%Z by (apply Z.pow_le_mono_r; lia). unfold decode, GetInt64, overflow.
  rewrite (proj2 (Z.leb_le (- 2 ^ 63) z)), (proj2 (Z.ltb_lt z _)) by lia. cbn.
  by rewrite (proj2 (Z.leb_le _ z)), (proj2 (Z.leb_le z _)) by lia.
Qed.

Context (hex_law : ∀ b, unhex0x (hex0x b) = Some b).

(** C34: what is written is read back: for every type that can be encoded, with any nesting of
    vectors and fields whose names stay distinct in the chosen case, encoding a value of the type
    succeeds and decoding the document gives the value. *)
Theorem json_roundtrip t v :
  encodable t → has_type t v → ∃ j, encode name_case t v = Some j ∧ decode name_case t j = Ok v.
Proof.
  revert v. induction t as [|w|w| | |n|t IH|t IH|t IH|t n IH|n|fields IH|f alternatives IH|names|t IH] using ty_nested_ind;
    intros v He Hv; try done; destruct v; try done.
  - by eexists.
  - eexists. split; [done|]. by apply unsigned_roundtrip.
  - eexists. split; [done|]. by apply signed_roundtrip.
  - by eexists.
  - eexists. split; [done|]. cbn. rewrite hex_law. cbn. cbn in Hv. by rewrite (proj2 (N.eqb_eq _ _) Hv).
  - destruct (vector_roundtrip t l IH He Hv) as (items & Hm & Hd). exists (JArray items). cbn. rewrite Hm, Hd. done.
  - destruct (fields_roundtrip fields l [] IH He Hv) as (members & Hm & Hd); [set_solver|]. cbn [app] in Hd. exists (JObject members).
    change (JObject <$> encode_fields fields l = Some (JObject members) ∧
      (l ← decode_fields (JObject members) fields; Ok (VFields l)) = Ok (VFields l)). rewrite Hm. by rewrite Hd.
Qed.
End json.

(** ** Examples *)
Module JsonEx.
#[local] Instance plain_hex : Hex := {| hex0x b := b; unhex0x := Some |}.

Definition node : value :=
  VFields [VBytes (replicate 32 1); VInt 7; VBytes (replicate 32 2); VInt 0; VInt (2 ^ 64 - 1)].
Definition checkpoint : value := VFields [VBytes (replicate 32 3); VInt 5].
Definition response : value :=
  VFields [VList [node; node]; VBytes (replicate 32 1); checkpoint; checkpoint; VBytes (replicate 32 1); VInt 4].

Lemma json_roundtrip_witness :
  ∃ j, encode CAMEL ForkChoiceApiJson_ty response = Some j ∧ decode CAMEL ForkChoiceApiJson_ty j = Ok response.
Proof.
  apply (@json_roundtrip plain_hex CAMEL (λ b, eq_refl) ForkChoiceApiJson_ty response).
  - repeat split; try (by vm_compute); apply (bool_decide_unpack _); by vm_compute.
  - cbn. repeat (split || constructor); by vm_compute.
Defined.

Lemma json_decode_typed_witness :
  decode SNAKE (ty_unsigned 8) (JInt 255) = Ok (VInt 255) ∧ has_type (ty_unsigned 8) (VInt 255) ∧
  decode SNAKE (ty_unsigned 8) (JInt 256) = Throw RuntimeError.
Proof.
  split; [by vm_compute|]. split; [|by vm_compute]. apply (json_decode_typed SNAKE _ (JInt 255)). by vm_compute.
Defined.

(** The bound of a list is not checked, and names that differ in snake case can agree in camel
    case. *)
Lemma ssz_limit_ignored :
  decode SNAKE (ty_ssz_list ty_bool 1) (JObject [(chars "data", JArray [JBool true; JBool true])])
  = Ok (VList [VBool true; VBool true]).
Proof. by vm_compute. Qed.
Lemma camel_case_collides : toCamelCase (chars "a_b") = toCamelCase (chars "aB").
Proof. by vm_compute. Qed.
End JsonEx.
