(* ===== verification/Genesis.v ===== *)
(** * Genesis files, chain specification and state download
    (src/src/modules/production/read_config_yaml.hpp, modules/networking/read_nodes_yaml.hpp,
    modules/networking/state_sync_client.cpp, app/impl/chain_spec_impl.cpp,
    blockchain/impl/anchor_state_impl.cpp)

    What a node reads before it starts: the genesis state, the bootnodes, or the state of
    another node.  Files are parsed documents; an HTTP exchange is the sequence of the
    results of its operations.  Logging and metrics are left out. *)

From Stdlib Require Import String.
From S2P Require Import Prelude Errors Types Stf Rlp Yaml Enr CachedTree Networking Peers.

(** StateSyncError *)
Inductive StateSyncError :=
| Busy
| Timeout
| ShuttingDown
| InvalidUrl
| UnsupportedScheme
| UserInfoIsNotSupported
| Network
| HttpBadStatus
| DeserializeFailed
| ValidationFailed.

(** The errors of the readers: ConfigYamlError::INVALID, NodesYamlError::INVALID,
    ChainSpecImpl::Error::PARSER_ERROR, StateSyncError, and those of a key *)
Inductive genesis_error :=
| CONFIG_YAML_INVALID
| NODES_YAML_INVALID
| PARSER_ERROR
| E_StateSync (e : StateSyncError)
| E_Key (e : error).

(** boost::urls::url_view *)
Record UrlView := mkUrlView {
  uv_scheme : bytes;
  uv_has_authority : bool;
  uv_userinfo : bytes;
  uv_host : bytes;
  uv_port : option bytes;
  uv_encoded_path : bytes;
  uv_encoded_query : option bytes;
}.

(** libp2p's peer ids and addresses, keys in hexadecimal, boost's URLs, SSZ states *)
Class GenesisLibraries := {
  fromHex : bytes → outcome genesis_error XmssPublicKey;
  peerIdFromSecp256k1 : bytes → result PeerId;
  quic_address : bytes → N → PeerId → result N;
  parse_uri : bytes → option UrlView;
  decode_state : bytes → option State;
}.

Section genesis.
Context `{EnrLibraries} `{YamlNumber} `{SszHash} `{GenesisLibraries}.

Definition is_scalar (y : Yaml) : option bytes := match y with Scalar t => Some t | _ => None end.
Definition is_sequence (y : Yaml) : option (list Yaml) := match y with Sequence l => Some l | _ => None end.

(** A result that is tested for an error: exceptions pass. *)
Definition as_option {E A} (r : outcome E A) : outcome genesis_error (option A) :=
  match r with Ok a => Ok (Some a) | Err _ => Ok None | Throw x => Throw x end.

(** ** readConfigYaml *)

Definition read_pubkey (key : string) (entries : list (bytes * Yaml)) : outcome genesis_error XmssPublicKey :=
  match is_scalar (yaml_lookup (str2byte key) entries) with
  | Some text => fromHex text
  | None => Err CONFIG_YAML_INVALID
  end.

Definition read_validator (i : N) (yaml_validator : Yaml) : outcome genesis_error Validator :=
  match yaml_validator with
  | Map entries =>
      attestation_pubkey ← read_pubkey "attestation_pubkey" entries;
      proposal_pubkey ← read_pubkey "proposal_pubkey" entries;
      Ok (mkValidator attestation_pubkey proposal_pubkey i)
  | _ => Err CONFIG_YAML_INVALID
  end.

Fixpoint read_validators (i : N) (items : list Yaml) : outcome genesis_error (list Validator) :=
  match items with
  | [] => Ok []
  | item :: items => v ← read_validator i item; l ← read_validators (i + 1) items; Ok (v :: l)
  end.

(** as<uint64_t>() throws. *)
Definition read_number (text : bytes) : outcome genesis_error N :=
  match as_number text with Ok n => Ok n | Err _ => Throw RuntimeError | Throw x => Throw x end.

Definition readConfigYaml (yaml : Yaml) : outcome genesis_error State :=
  match yaml with
  | Map entries =>
      match is_scalar (yaml_lookup (str2byte "GENESIS_TIME") entries) with
      | None => Err CONFIG_YAML_INVALID
      | Some yaml_genesis_time =>
          let validators :=
            match is_sequence (yaml_lookup (str2byte "VALIDATORS") entries) with
            | Some l => Some l
            | None => is_sequence (yaml_lookup (str2byte "GENESIS_VALIDATORS") entries)
            end in
          match validators with
          | None => Err CONFIG_YAML_INVALID
          | Some items =>
              validators ← read_validators 0 items;
              genesis_time ← read_number yaml_genesis_time;
              Ok (generateGenesisState (mkConfig genesis_time) validators)
          end
      end
  | _ => Err CONFIG_YAML_INVALID
  end.

(** ** readNodesYaml *)

Record ParsedEnr := mkParsedEnr { pe_raw : bytes; pe_enr : Enr }.
Record NodesYamlParseResult := mkNodesYamlParseResult {
  ny_parsed : list ParsedEnr;
  ny_invalid_entries : list bytes;
}.

Fixpoint read_enrs (items : list Yaml) (result : NodesYamlParseResult) : outcome genesis_error NodesYamlParseResult :=
  match items with
  | [] => Ok result
  | Scalar enr_str :: items =>
      let invalid := mkNodesYamlParseResult (ny_parsed result) (ny_invalid_entries result ++ [enr_str]) in
      if bool_decide (enr_str = []) then read_enrs items invalid
      else
        enr_res ← as_option (decode enr_str);
        match enr_res with
        | None => read_enrs items invalid
        | Some enr => read_enrs items (mkNodesYamlParseResult (ny_parsed result ++ [mkParsedEnr enr_str enr]) (ny_invalid_entries result))
        end
  | _ :: _ => Err NODES_YAML_INVALID
  end.

Definition readNodesYaml (yaml : Yaml) : outcome genesis_error NodesYamlParseResult :=
  match yaml with
  | Sequence items => read_enrs items (mkNodesYamlParseResult [] [])
  | _ => Err NODES_YAML_INVALID
  end.

(** ** ChainSpecImpl *)

Record ChainSpecImpl := mkChainSpecImpl {
  cs_bootnodes : list BootnodeInfo;
  cs_is_aggregator : bool;
}.

(** The value before *)
Definition setIsAggregator (is_aggregator : bool) (c : ChainSpecImpl) : bool * ChainSpecImpl :=
  (cs_is_aggregator c, mkChainSpecImpl (cs_bootnodes c) is_aggregator).

(** Enr::peerId, Enr::connectAddress: value() throws on an empty optional. *)
Definition connectAddress (enr : Enr) : result N :=
  ip ← of_option BadOptionalAccess (enr_ip enr);
  port ← of_option BadOptionalAccess (enr_port enr);
  peer_id ← peerIdFromSecp256k1 (enr_public_key enr);
  value_of (quic_address ip port peer_id).

(** One turn of the loop over the records; every exception is caught. *)
Definition bootnode_of (enr : Enr) : option BootnodeInfo :=
  match (peer_id ← peerIdFromSecp256k1 (enr_public_key enr); address ← connectAddress enr;
         Ok (mkBootnodeInfo address peer_id (isAggregator enr))) with
  | Ok info => Some info
  | _ => None
  end.

(** [file] is the document that LoadFile gives, [None] when it throws; there is no file when
    [bootnodes_file] is empty. *)
Definition loadBootNodes (bootnodes_file : bytes) (file : option Yaml) (c : ChainSpecImpl)
    : outcome genesis_error ChainSpecImpl :=
  if bool_decide (bootnodes_file = []) then Ok c
  else
    yaml ← of_option RuntimeError file;
    parsed_res ← as_option (readNodesYaml yaml);
    match parsed_res with
    | None => Err PARSER_ERROR
    | Some parsed_nodes =>
        Ok (mkChainSpecImpl (omap (λ e, bootnode_of (pe_enr e)) (ny_parsed parsed_nodes)) (cs_is_aggregator c))
    end.

Definition ChainSpecImpl_load (bootnodes_file : bytes) (file : option Yaml) (peer_id : PeerId) (cli_is_aggregator : bool)
    : outcome genesis_error ChainSpecImpl :=
  c ← loadBootNodes bootnodes_file file (mkChainSpecImpl [] false);
  let c := match list_find (λ info, bn_peer_id info = peer_id) (cs_bootnodes c) with
           | Some (_, info) => (setIsAggregator (bn_is_aggregator info) c).2
           | None => c
           end in
  Ok (if cli_is_aggregator then (setIsAggregator true c).2 else c).

(** ** StateSyncClient *)

Record UrlParts := mkUrlParts {
  up_scheme : bytes;
  up_host : bytes;
  up_port : bytes;
  up_target : bytes;
}.

Definition parse_url (url : bytes) : outcome genesis_error UrlParts :=
  match parse_uri url with
  | None => Err (E_StateSync InvalidUrl)
  | Some uv =>
      if negb (bool_decide (uv_scheme uv = str2byte "http")) && negb (bool_decide (uv_scheme uv = str2byte "https"))
      then Err (E_StateSync UnsupportedScheme)
      else if negb (uv_has_authority uv) then Err (E_StateSync InvalidUrl)
      else if negb (bool_decide (uv_userinfo uv = [])) then Err (E_StateSync UserInfoIsNotSupported)
      else if bool_decide (uv_host uv = []) then Err (E_StateSync InvalidUrl)
      else
        let port := match uv_port uv with
                    | Some port => port
                    | None => if bool_decide (uv_scheme uv = str2byte "https") then str2byte "443" else str2byte "80"
                    end in
        let target := match uv_encoded_path uv with [] => str2byte "/" | path => path end in
        let target := match uv_encoded_query uv with Some query => target ++ str2byte "?" ++ query | None => target end in
        Ok (mkUrlParts (uv_scheme uv) (uv_host uv) port target)
  end.

(** CancelReason, and how an asynchronous operation ends *)
Inductive CancelReason := NoReason | ReasonTimeout | ReasonShuttingDown.
Inductive ErrorCode := Success | OperationAborted (reason : CancelReason) | OtherError.

(** One exchange: the host name is resolved and [tr_sni] set for a TLS stream; an operation
    that is aborted sees the reason that was set first; [tr_throws]: the coroutine threw. *)
Record HttpTrace := mkHttpTrace {
  tr_throws : bool;
  tr_sni : bool;
  tr_shutting_down : bool;
  tr_resolve : ErrorCode;
  tr_connect : ErrorCode;
  tr_handshake : ErrorCode;
  tr_write : ErrorCode;
  tr_read : ErrorCode;
  tr_status : N;
  tr_body : bytes;
}.

Definition map_aborted (reason : CancelReason) : StateSyncError :=
  match reason with ReasonTimeout => Timeout | ReasonShuttingDown => ShuttingDown | NoReason => Network end.

Definition http_operation (ec : ErrorCode) : outcome genesis_error () :=
  match ec with
  | Success => Ok ()
  | OperationAborted reason => Err (E_StateSync (map_aborted reason))
  | OtherError => Err (E_StateSync Network)
  end.

Definition do_http_flow (do_tls_handshake : bool) (tr : HttpTrace) : outcome genesis_error State :=
  if tr_shutting_down tr then Err (E_StateSync ShuttingDown)
  else
    _ ← match tr_resolve tr with Success => Ok () | _ => Err (E_StateSync Network) end;
    _ ← http_operation (tr_connect tr);
    _ ← (if do_tls_handshake then http_operation (tr_handshake tr) else Ok ());
    _ ← http_operation (tr_write tr);
    _ ← http_operation (tr_read tr);
    if negb (tr_status tr =? 200) then Err (E_StateSync HttpBadStatus)
    else match decode_state (tr_body tr) with
    | Some st => Ok st
    | None => Err (E_StateSync DeserializeFailed)
    end.

(** fetch_http_async and fetch_https_async, run to their end *)
Definition fetch_async (scheme : bytes) (tr : HttpTrace) : outcome genesis_error State :=
  if tr_throws tr then Err (E_StateSync Network)
  else if bool_decide (scheme = str2byte "https") then
    if negb (tr_sni tr) then Err (E_StateSync Network) else do_http_flow true tr
  else if bool_decide (scheme = str2byte "http") then do_http_flow false tr
  else Err (E_StateSync UnsupportedScheme).

Record StateSyncClient := mkStateSyncClient { sy_busy : bool; sy_is_shutting_down : bool }.

Definition StateSyncClient_stop (c : StateSyncClient) : StateSyncClient := mkStateSyncClient (sy_busy c) true.

(** The flag is released when fetch returns; [while_busy] is what happens to the client in
    the meantime. *)
Definition fetch (url : bytes) (tr : HttpTrace) (while_busy : StateSyncClient → StateSyncClient)
    (c : StateSyncClient) : outcome genesis_error State * StateSyncClient :=
  if sy_busy c then (Err (E_StateSync Busy), c)
  else
    let c := mkStateSyncClient true (sy_is_shutting_down c) in
    if sy_is_shutting_down c then (Err (E_StateSync ShuttingDown), mkStateSyncClient false true)
    else
      let r := url_parts ← parse_url url; fetch_async (up_scheme url_parts) tr in
      (r, mkStateSyncClient false (sy_is_shutting_down (while_busy c))).

(** ** AnchorStateImpl *)

(** The loop over the attempts: [traces] are the exchanges of attempt [attempt] and later *)
Fixpoint fetch_attempts (attempts_left : nat) (url : bytes) (traces : list (HttpTrace * (StateSyncClient → StateSyncClient)))
    (c : StateSyncClient) : option (outcome genesis_error State) :=
  match attempts_left, traces with
  | S remaining, (tr, while_busy) :: traces =>
      match fetch url tr while_busy c with
      | (Ok st, _) => Some (Ok st)
      | (Err e, c) => if (remaining =? 0)%nat then Some (Throw SystemError) else fetch_attempts remaining url traces c
      | (Throw x, _) => Some (Throw x)
      end
  | _, _ => None
  end.

(** [None]: the exchanges given do not suffice. *)
Definition AnchorStateImpl (stateSyncUrl : option bytes) (traces : list (HttpTrace * (StateSyncClient → StateSyncClient)))
    (config_yaml : option Yaml) : option (outcome genesis_error State) :=
  match stateSyncUrl with
  | Some url => fetch_attempts 3 url traces (mkStateSyncClient false false)
  | None =>
      Some (yaml ← of_option RuntimeError config_yaml;
            match readConfigYaml yaml with Err _ => Throw SystemError | r => r end)
  end.
End genesis.
