(* ===== verification/GenesisTheorems.v ===== *)
(** * Genesis files and state download: where the anchor state and the bootnodes come from *)

From Stdlib Require Import String.
From S2P Require Import Prelude Errors Types Stf StfQuorum Rlp Yaml Enr EnrTheorems CachedTree Networking Peers Genesis ToyHash.

#[local] Arguments str2byte : simpl never.

Section genesis.
Context `{EnrLibraries} `{YamlNumber} `{SszHash} `{GenesisLibraries} `{BuildMode}.

(** ** The genesis state *)

(** The validator that an item of the list describes *)
Definition describes (item : Yaml) (v : Validator) : Prop :=
  ∃ entries t1 t2, item = Map entries ∧
    yaml_lookup (str2byte "attestation_pubkey") entries = Scalar t1 ∧ fromHex t1 = Ok (v_attestation_pubkey v) ∧
    yaml_lookup (str2byte "proposal_pubkey") entries = Scalar t2 ∧ fromHex t2 = Ok (v_proposal_pubkey v).

Lemma read_pubkey_ok key entries k :
  read_pubkey key entries = Ok k → ∃ t, yaml_lookup (str2byte key) entries = Scalar t ∧ fromHex t = Ok k.
Proof. unfold read_pubkey, is_scalar. destruct (yaml_lookup (str2byte key) entries); try done. eauto. Qed.

Lemma read_validators_ok i items l :
  read_validators i items = Ok l → Forall2 describes items l ∧ v_index <$> l = seqN i (lengthN items).
Proof.
  revert i l. induction items as [|item items IH]; intros i l; cbn; [by intros [= <-]|].
  intros (v & Hv & (l' & [Hf Hi]%IH & [= <-])%outcome_bind_ok)%outcome_bind_ok. unfold read_validator in Hv. destruct item as [| | |entries|]; try done.
  apply outcome_bind_ok in Hv as (k1 & (t1 & Ht1 & Hk1)%read_pubkey_ok & Hv).
  apply outcome_bind_ok in Hv as (k2 & (t2 & Ht2 & Hk2)%read_pubkey_ok & [= <-]).
  split; [constructor; [|done]; by exists entries, t1, t2|]. cbn. rewrite Hi. unfold seqN, lengthN. rewrite !Nat2N.id. cbn.
  rewrite N.add_0_r. f_equal. rewrite <- fmap_S_seq, <- list_fmap_compose. apply list_fmap_ext. intros ? k _. cbn. lia.
Qed.

Lemma readConfigYaml_ok yaml st :
  readConfigYaml yaml = Ok st →
  ∃ entries items t time, yaml = Map entries ∧
    (yaml_lookup (str2byte "VALIDATORS") entries = Sequence items ∨
     yaml_lookup (str2byte "GENESIS_VALIDATORS") entries = Sequence items) ∧
    yaml_lookup (str2byte "GENESIS_TIME") entries = Scalar t ∧ as_number t = Ok time ∧
    Forall2 describes items (st_validators st) ∧ v_index <$> st_validators st = seqN 0 (lengthN items) ∧
    st = generateGenesisState (mkConfig time) (st_validators st).
Proof.
  unfold readConfigYaml. destruct yaml as [| | |entries|]; try done.
  destruct (yaml_lookup (str2byte "GENESIS_TIME") entries) as [|t| | |] eqn:Ht; try done. cbn [is_scalar].
  intros Hrun. assert (Hseq : ∃ items, (match is_sequence (yaml_lookup (str2byte "VALIDATORS") entries) with
      | Some l => Some l | None => is_sequence (yaml_lookup (str2byte "GENESIS_VALIDATORS") entries) end) = Some items ∧
    (yaml_lookup (str2byte "VALIDATORS") entries = Sequence items ∨
     yaml_lookup (str2byte "GENESIS_VALIDATORS") entries = Sequence items)).
  { destruct (yaml_lookup (str2byte "VALIDATORS") entries) as [| |items| |]; cbn in Hrun |- *.
    3: exists items; by eauto.
    all: destruct (yaml_lookup (str2byte "GENESIS_VALIDATORS") entries) as [| |items| |]; cbn in Hrun; [done|done| |done|done]; exists items; by eauto. }
  destruct Hseq as (items & Heq & Hor). cbn zeta in Hrun. rewrite Heq in Hrun.
  apply outcome_bind_ok in Hrun as (l & [Hf Hi]%read_validators_ok & (time & Htime & [= <-])%outcome_bind_ok).
  exists entries, items, t, time. cbn. split_and!; try done. unfold read_number in Htime. by destruct (as_number t); naive_solver.
Qed.

(** ** The download *)

(** The attempt with the exchange [tr] succeeded with [st]. *)
Definition downloaded (url : bytes) (tr : HttpTrace) (st : State) : Prop :=
  ∃ parts, parse_url url = Ok parts ∧ fetch_async (up_scheme parts) tr = Ok st ∧
    tr_status tr = 200 ∧ decode_state (tr_body tr) = Some st.

Lemma do_http_flow_ok tls tr st :
  do_http_flow tls tr = Ok st → tr_status tr = 200 ∧ decode_state (tr_body tr) = Some st.
Proof.
  unfold do_http_flow. destruct (tr_shutting_down tr); [done|].
  intros (? & _ & (? & _ & (? & _ & (? & _ & (? & _ & Hrun)%outcome_bind_ok)%outcome_bind_ok)%outcome_bind_ok)%outcome_bind_ok)%outcome_bind_ok.
  destruct (N.eqb_spec (tr_status tr) 200); [|done]. cbn in Hrun. destruct (decode_state (tr_body tr)); [|done]. by injection Hrun as <-.
Qed.

Lemma fetch_ok url tr wb c st c' :
  fetch url tr wb c = (Ok st, c') → downloaded url tr st.
Proof.
  unfold fetch. destruct (sy_busy c); [done|]. cbn. destruct (sy_is_shutting_down c); [done|].
  intros [= Hr _]. apply outcome_bind_ok in Hr as (parts & Hp & Hf). exists parts. split_and!; [done|done|..].
  all: unfold fetch_async in Hf; destruct (tr_throws tr); [done|]; case_bool_decide; [destruct (tr_sni tr); [|done]; cbn in Hf|case_bool_decide; [|done]].
  all: by apply do_http_flow_ok in Hf as [? ?].
Qed.

(** Neither an exception nor the error of a busy client *)
Definition calm {A} (r : outcome genesis_error A) : Prop :=
  match r with Ok _ => True | Err e => e ≠ E_StateSync Busy | Throw _ => False end.

Lemma calm_bind {A B} (r : outcome genesis_error A) (f : A → outcome genesis_error B) :
  calm r → (∀ a, calm (f a)) → calm (r ≫= f).
Proof. by destruct r; cbn. Qed.

Lemma http_operation_calm ec : calm (http_operation ec).
Proof. by destruct ec as [|[]|]. Qed.

Lemma parse_url_calm url : calm (parse_url url).
Proof. unfold parse_url. destruct (parse_uri url) as [uv|]; [|done]. repeat (destruct (negb _ && _) || destruct (negb _) || case_bool_decide); done. Qed.

Lemma do_http_flow_calm tls tr : calm (do_http_flow tls tr).
Proof.
  unfold do_http_flow. destruct (tr_shutting_down tr); [done|]. apply calm_bind; [by destruct (tr_resolve tr)|intros _].
  apply calm_bind; [apply http_operation_calm|intros _].
  apply calm_bind; [destruct tls; [apply http_operation_calm|done]|intros _].
  do 2 (apply calm_bind; [apply http_operation_calm|intros _]). destruct (negb _); [done|]. by destruct (decode_state _).
Qed.

Lemma fetch_async_calm scheme tr : calm (fetch_async scheme tr).
Proof.
  unfold fetch_async. destruct (tr_throws tr); [done|]. case_bool_decide; [destruct (negb _); [done|]|case_bool_decide; [|done]].
  all: apply do_http_flow_calm.
Qed.

(** The client is free after each attempt, and fetch does not throw. *)
Lemma fetch_calm url tr wb c r c' : sy_busy c = false → fetch url tr wb c = (r, c') → sy_busy c' = false ∧ calm r.
Proof.
  intros Hb. unfold fetch. rewrite Hb. cbn. destruct (sy_is_shutting_down c); intros [= <- <-]; [done|]. split; [done|].
  apply calm_bind; [apply parse_url_calm|]. intros parts. apply fetch_async_calm.
Qed.

Lemma fetch_attempts_spec n url traces c :
  sy_busy c = false → (0 < n)%nat → (n ≤ length traces)%nat →
  (∃ k tr wb st, (k < n)%nat ∧ traces !! k = Some (tr, wb) ∧ downloaded url tr st ∧ fetch_attempts n url traces c = Some (Ok st)) ∨
  fetch_attempts n url traces c = Some (Throw SystemError).
Proof.
  revert traces c. induction n as [|n IH]; intros traces c Hb Hn Hl; [lia|]. destruct traces as [|[tr wb] traces]; [cbn in Hl; lia|]. cbn.
  destruct (fetch url tr wb c) as [r c'] eqn:Hf. pose proof (fetch_calm _ _ _ _ _ _ Hb Hf) as [Hb' Hcalm]. destruct r as [st|e|x].
  - left. exists 0%nat, tr, wb, st. split_and!; [lia|done|by eapply fetch_ok|done].
  - destruct n as [|n]; [by right|]. cbn [Nat.eqb]. cbn in Hl. destruct (IH traces c' Hb' ltac:(lia) ltac:(lia)) as [(k & tr' & wb' & st & Hk & Htr & Hd & Hrun)|Hrun]; [left|by right].
    exists (S k), tr', wb', st. split_and!; [lia|done..].
  - done.
Qed.

(** The anchor state has one of two sources.  With a URL, three exchanges suffice to decide:
    the state is the decoded body of a response with status 200 of one of them, or the node stops
    with the error of the third; an attempt never finds the client busy.  Without a URL it is the
    genesis state of the file: the validators of the list in its order, numbered from 0, with the
    keys of their entries; it starts a chain when their number is within the limit. *)
Theorem anchor_state_sources stateSyncUrl traces config_yaml r :
  (3 ≤ length traces)%nat → AnchorStateImpl stateSyncUrl traces config_yaml = r →
  match stateSyncUrl with
  | Some url =>
      (∃ k tr wb st, (k < 3)%nat ∧ traces !! k = Some (tr, wb) ∧ downloaded url tr st ∧ r = Some (Ok st)) ∨
      r = Some (Throw SystemError)
  | None =>
      (∃ entries items time st, config_yaml = Some (Map entries) ∧ r = Some (Ok st) ∧
        Forall2 describes items (st_validators st) ∧ v_index <$> st_validators st = seqN 0 (lengthN items) ∧
        st = generateGenesisState (mkConfig time) (st_validators st) ∧
        (0 < lengthN items ≤ VALIDATOR_REGISTRY_LIMIT → StfQuorum.chain (mkConfig time) (st_validators st) [] st)) ∨
      ∃ x, r = Some (Throw x)
  end.
Proof.
  intros Hl <-. unfold AnchorStateImpl. destruct stateSyncUrl as [url|]; [apply fetch_attempts_spec; [done|lia|done]|].
  destruct config_yaml as [yaml|]; cbn; [|right; by eexists]. destruct (readConfigYaml yaml) as [st|e|x] eqn:Hr; [left|right; by eexists..].
  apply readConfigYaml_ok in Hr as (entries & items & t & time & -> & _ & _ & _ & Hf & Hi & Hst).
  exists entries, items, time, st. split_and!; try done. intros Hn. rewrite Hst. cbn. apply chain_genesis.
  apply Forall2_length in Hf. unfold lengthN in *. by rewrite <- Hf.
Qed.

(** ** The bootnodes *)

Definition decoded (t : bytes) : option Enr := match decode t with Ok e => Some e | _ => None end.

Lemma decode_empty : decode [] = Err (E_Enr INVALID_PREFIX).
Proof. reflexivity. Qed.

Lemma read_enrs_ok texts r :
  (∀ t x, t ∈ texts → decode t ≠ Throw x) →
  read_enrs (Scalar <$> texts) r =
  Ok (mkNodesYamlParseResult (ny_parsed r ++ omap (λ t, mkParsedEnr t <$> decoded t) texts)
        (ny_invalid_entries r ++ filter (λ t, decoded t = None) texts)).
Proof.
  revert r. induction texts as [|t texts IH]; intros r Hnt; [cbn; rewrite !app_nil_r; by destruct r|].
  assert (Hnt' : ∀ t x, t ∈ texts → decode t ≠ Throw x) by (intros; apply Hnt; by right).
  assert (Hne : ∀ x, decode t ≠ Throw x) by (intros x; apply Hnt; by left).
  rewrite fmap_cons, filter_cons. cbn [read_enrs omap list_omap].
  assert (Hdec : decoded t = match decode t with Ok e => Some e | _ => None end) by done. case_bool_decide as He.
  - subst t. rewrite decode_empty in Hdec. rewrite Hdec, decide_True, IH by done. cbn. by rewrite <- app_assoc.
  - destruct (decode t) as [e|e|x]; [| |by destruct (Hne x)]; rewrite Hdec; cbn; rewrite IH by done; cbn; by rewrite <- app_assoc.
Qed.

(** The bootnodes are the records of the file that decode and have an address, in the order
    of the file; the others are skipped.  The node is an aggregator when its own record says so
    or the command line does. *)
Theorem bootnodes_loaded file texts peer_id cli_is_aggregator :
  file ≠ [] → (∀ t x, t ∈ texts → decode t ≠ Throw x) →
  ∃ c, ChainSpecImpl_load file (Some (Sequence (Scalar <$> texts))) peer_id cli_is_aggregator = Ok c ∧
    cs_bootnodes c = omap (λ t, decoded t ≫= bootnode_of) texts ∧
    cs_is_aggregator c = cli_is_aggregator ||
      match list_find (λ info, bn_peer_id info = peer_id) (cs_bootnodes c) with
      | Some (_, info) => bn_is_aggregator info
      | None => false
      end.
Proof.
  intros Hf Hnt. unfold ChainSpecImpl_load, loadBootNodes. rewrite bool_decide_false by done. cbn.
  rewrite read_enrs_ok by done. cbn. set (l := omap (λ e, bootnode_of (pe_enr e)) _).
  assert (Hl : l = omap (λ t, decoded t ≫= bootnode_of) texts).
  { unfold l. clear. induction texts as [|t texts IH]; [done|]. cbn. destruct (decoded t); cbn; [|exact IH]. by destruct (bootnode_of e); cbn; rewrite IH. }
  eexists. split; [done|]. rewrite <- Hl. clearbody l. destruct (list_find _ l) as [[i info]|] eqn:Hfind, cli_is_aggregator; cbn; rewrite ?Hfind; done.
Qed.
End genesis.

(** ** Examples *)
Module GenEx.
#[local] Existing Instances DebugBuild AppendOrder.
#[local] Instance enr_libraries : EnrLibraries := {|
  base64_encode b := b;
  base64_decode b := Ok b;
  keccak b := b;
  signCompact _ sk := Ok (sk ++ sk);
  verifyCompact _ sig pk := Ok (bool_decide (sig = drop 1 pk ++ drop 1 pk));
|}.
#[local] Instance numbers : YamlNumber := λ t, Ok (foldl (λ v c, 10 * v + (c - 48)) 0 t).

Definition genesis_item : Yaml :=
  Map [(str2byte "attestation_pubkey", Scalar [7]); (str2byte "proposal_pubkey", Scalar [8])].
Definition config_yaml : Yaml :=
  Map [(str2byte "GENESIS_TIME", Scalar (str2byte "1700")); (str2byte "VALIDATORS", Sequence [genesis_item; genesis_item])].

#[local] Instance libraries : GenesisLibraries := {|
  fromHex t := match t with c :: _ => Ok c | [] => Err CONFIG_YAML_INVALID end;
  peerIdFromSecp256k1 pk := of_option SystemError (pk !! 1%nat);
  quic_address _ port _ := Ok port;
  parse_uri url := Some (mkUrlView (str2byte "https") true [] url None [] None);
  decode_state body := if bool_decide (body = []) then None
                       else Some (generateGenesisState (mkConfig 5) [mkValidator 1 2 0]);
|}.

(** The first attempt times out, the second succeeds. *)
Definition failing : HttpTrace :=
  mkHttpTrace false true false Success (OperationAborted ReasonTimeout) Success Success Success 0 [].
Definition working : HttpTrace := mkHttpTrace false true false Success Success Success Success Success 200 [1].
Definition traces := [(failing, id : StateSyncClient → StateSyncClient); (working, id); (failing, id)].

Lemma anchor_state_sources_witness :
  (3 ≤ length traces)%nat ∧
  AnchorStateImpl (Some (str2byte "host")) traces None = Some (Ok (generateGenesisState (mkConfig 5) [mkValidator 1 2 0])) ∧
  ∃ st, AnchorStateImpl None traces (Some config_yaml) = Some (Ok st) ∧ validatorCount st = 2.
Proof.
  split; [done|]. split; [by vm_compute|].
  destruct (anchor_state_sources None traces (Some config_yaml) _ ltac:(cbn; lia) eq_refl)
    as [(entries & items & time & st & _ & Hst & _)|[x Hx]]; [|by vm_compute in Hx].
  exists st. split; [exact Hst|]. vm_compute in Hst. injection Hst as <-. by vm_compute.
Defined.

(** The texts of three bootnodes, two of them aggregators *)
Definition enr_text (k : N) (aggregator : bool) : bytes :=
  match encode (mkKeyPair true (replicate 32 k) true (2 :: replicate 32 k)) [127; 0; 0; 1] 9000 (Some aggregator) with
  | Ok t => t
  | _ => []
  end.

Lemma bootnodes_loaded_witness :
  ∃ c, ChainSpecImpl_load [1] (Some (Sequence (Scalar <$> [enr_text 11 true; [1; 2; 3]; enr_text 13 false]))) 13 false = Ok c ∧
    bn_peer_id <$> cs_bootnodes c = [11; 13] ∧ cs_is_aggregator c = false.
Proof.
  destruct (bootnodes_loaded [1] [enr_text 11 true; [1; 2; 3]; enr_text 13 false] 13 false) as (c & Hc & Hb & Ha); [done| |].
  { intros t x Ht. rewrite !elem_of_cons, elem_of_nil in Ht. destruct Ht as [->|[->|[->|[]]]]; by vm_compute. }
  exists c. split; [exact Hc|]. rewrite Ha, Hb. split; by vm_compute.
Defined.

(** The position of a bootnode counts as its validator index.  With four subnets and the node in
    subnet 2, the aggregator in the third line is connected as one when the second line is a
    record, and is an ordinary peer when the second line does not decode. *)
Lemma skipped_record_shifts_validators :
  let aggregators texts :=
    c ← ChainSpecImpl_load [1] (Some (Sequence (Scalar <$> texts))) 99 false;
    match load_bootnodes 99 {[2]} 4 4 (cs_bootnodes c) 0 with Ok p => Ok (pr_aggregators p) | _ => Throw LogicError end in
  aggregators [enr_text 11 false; enr_text 12 false; enr_text 13 true] = Ok [13] ∧
  aggregators [enr_text 11 false; [1; 2; 3]; enr_text 13 true] = Ok [].
Proof. by vm_compute. Qed.
End GenEx.
