(* ===== verification/HttpServer.v ===== *)
(** * HTTP interface (src/src/app/impl/http_server.cpp)

    The two request handlers and what requests can change.  The aggregator flag belongs to
    the chain specification; the fork choice store reads it at every use, so it is
    [fc_is_aggregator] here.  Sockets and the thread of the server are left out. *)

From Stdlib Require Import String.
From S2P Require Import Prelude Errors Types Stf CachedTree CachedTreeProofs CachedTreeOps Storage BlockStorage BlockStorageSpec.
From S2P Require Import BlockTree LruCache Parsers ForkChoice Json JsonTheorems ToyHash ToyStore ToyForkChoice.

Inductive Method := Get | Post | OtherMethod.
Record Request := mkRequest { rq_method : Method; rq_target : bytes; rq_body : bytes }.
Record Response := mkResponse { rs_status : N; rs_content_type : option bytes; rs_body : bytes }.

(** rapidjson's reader (null for a text that is not JSON) and writer, hexadecimal digits, SSZ
    states, the text of an exception, and the metrics *)
Class HttpLibraries := {
  parse_json : bytes → Value;
  write_json : Value → bytes;
  toHex : bytes → bytes;
  ssz_state : State → bytes;
  what : exn → bytes;
  metrics_collect : bytes;
}.

(** ** Texts *)

Definition quoted (s : string) : bytes := 34 :: chars s ++ [34].

(** std::format of a bool *)
Definition bool_text (b : bool) : bytes := chars (if b then "true" else "false").

Definition kContentTypeJson : bytes := chars "application/json; charset=utf-8".

(** The 32 bytes of a hash *)
Fixpoint be_bytes (n : nat) (v : N) : bytes :=
  match n with O => [] | S n => be_bytes n (v / 256) ++ [v mod 256] end.
Definition hash_bytes (h : BlockHash) : bytes := be_bytes 32 h.

(** fields() of the two structs *)
Definition Checkpoint_value (c : Checkpoint) : value := VFields [VBytes (hash_bytes (cp_root c)); VInt (Z.of_N (cp_slot c))].
Definition ForkChoiceNodeApiJson_value (n : ForkChoiceNodeApiJson) : value :=
  VFields [VBytes (hash_bytes (fn_root n)); VInt (Z.of_N (fn_slot n)); VBytes (hash_bytes (fn_parent_root n));
           VInt (Z.of_N (fn_proposer_index n)); VInt (Z.of_N (fn_weight n))].
Definition ForkChoiceApiJson_value (r : ForkChoiceApiJson) : value :=
  VFields [VList (ForkChoiceNodeApiJson_value <$> fj_nodes r); VBytes (hash_bytes (fj_head r));
           Checkpoint_value (fj_justified r); Checkpoint_value (fj_finalized r);
           VBytes (hash_bytes (fj_safe_target r)); VInt (Z.of_N (fj_validator_count r))].

Section http.
Context {S : Type} `{BlockStorage S} `{BuildMode} `{SszHash} `{UnorderedMap}.
Context `{XmssProvider} `{NodeKeys} `{LoopFuel} `{Hex} `{HttpLibraries}.
Notation M := (SM (ForkChoiceStore S) error).

(** ChainSpecImpl::setIsAggregator *)
Definition set_is_aggregator (b : bool) (s : ForkChoiceStore S) : ForkChoiceStore S :=
  mkForkChoiceStore (fc_block_tree s) (fc_time s) (fc_config s) (fc_head s) (fc_safe_target s)
    (fc_states s) (fc_latest_known_attestations s) (fc_latest_new_attestations s)
    (fc_attestations_by_data s)
    (fc_validator_id s) b (fc_subnet_count s) (fc_dont_propose s) (fc_anchor_block_slots s).

Definition status_only (status : N) : Response := mkResponse status None [].
Definition json_response (body : bytes) : Response := mkResponse 200 (Some kContentTypeJson) body.

Definition url_health : bytes := chars "/lean/v0/health".
Definition url_finalized : bytes := chars "/lean/v0/states/finalized".
Definition url_justified : bytes := chars "/lean/v0/checkpoints/justified".
Definition url_fork_choice : bytes := chars "/lean/v0/fork_choice".
Definition url_aggregator : bytes := chars "/lean/v0/admin/aggregator".

(** Enabled, read from the body of a request *)
Definition decode_enabled (body : bytes) : outcome error bool :=
  match decode SNAKE Enabled_ty (parse_json body) with
  | Ok (VFields [VBool b]) => Ok b
  | Ok _ => Throw LogicError
  | Err e => Err e
  | Throw x => Throw x
  end.

Definition post_aggregator (body : bytes) : M Response :=
  match decode_enabled body with
  | Ok enabled =>
      s ← sm_get;
      let previous := fc_is_aggregator s in
      sm_put (set_is_aggregator enabled s) ≫= λ _,
      mret (json_response (chars "{" ++ quoted "is_aggregator" ++ chars ":" ++ bool_text enabled ++ chars "," ++
                           quoted "previous" ++ chars ":" ++ bool_text previous ++ chars "}"))
  | Throw x => mret (mkResponse 400 None (what x))
  | Err e => sm_err e
  end.

(** config_api.on_request; [alive]: the server object still exists. *)
Definition on_request_api (alive : bool) (request : Request) : M Response :=
  let url := rq_target request in
  if negb alive then mret (status_only 502)
  else if bool_decide (url = url_health) then
    mret (json_response (chars "{" ++ quoted "status" ++ chars ":" ++ quoted "healthy" ++ chars "," ++
                         quoted "service" ++ chars ":" ++ quoted "lean-rpc-api" ++ chars "}"))
  else if bool_decide (url = url_finalized) then
    finalized ← getLatestFinalized;
    state_res ← sm_try (getState (cp_root finalized));
    mret (match state_res with
          | inl state => mkResponse 200 (Some (chars "application/octet-stream")) (ssz_state state)
          | inr _ => status_only 500
          end)
  else if bool_decide (url = url_justified) then
    justified ← getLatestJustified;
    mret (json_response (chars "{" ++ quoted "root" ++ chars ":" ++ [34] ++ chars "0x" ++ toHex (hash_bytes (cp_root justified)) ++ [34] ++
                         chars "," ++ quoted "slot" ++ chars ":" ++ decimal (cp_slot justified) ++ chars "}"))
  else if bool_decide (url = url_fork_choice) then
    result_res ← sm_try apiForkChoice;
    match result_res with
    | inl result =>
        match encode SNAKE ForkChoiceApiJson_ty (ForkChoiceApiJson_value result) with
        | Some document => mret (json_response (write_json document))
        | None => sm_throw LogicError
        end
    | inr _ => mret (status_only 500)
    end
  else if bool_decide (url = url_aggregator) then
    match rq_method request with
    | Get =>
        s ← sm_get;
        mret (json_response (chars "{" ++ quoted "is_aggregator" ++ chars ":" ++ bool_text (fc_is_aggregator s) ++ chars "}"))
    | Post => post_aggregator (rq_body request)
    | OtherMethod => mret (status_only 404)
    end
  else mret (status_only 404).

(** config_metrics.on_request *)
Definition on_request_metrics (alive : bool) (request : Request) : Response :=
  if negb alive then status_only 502
  else if bool_decide (rq_target request = chars "/metrics") then
    mkResponse 200 (Some (chars "text/plain; charset=utf-8")) metrics_collect
  else status_only 404.
End http.

(** ** What requests can change *)

(** The same store but for the state cache and the storage behind the tree *)
Record same_view {S} (s s' : ForkChoiceStore S) : Prop := {
  sv_tree : bt_tree (fc_block_tree s') = bt_tree (fc_block_tree s);
  sv_events : bt_events (fc_block_tree s') = bt_events (fc_block_tree s);
  sv_time : fc_time s' = fc_time s;
  sv_config : fc_config s' = fc_config s;
  sv_head : fc_head s' = fc_head s;
  sv_safe_target : fc_safe_target s' = fc_safe_target s;
  sv_known : fc_latest_known_attestations s' = fc_latest_known_attestations s;
  sv_new : fc_latest_new_attestations s' = fc_latest_new_attestations s;
  sv_by_data : fc_attestations_by_data s' = fc_attestations_by_data s;
  sv_dont_propose : fc_dont_propose s' = fc_dont_propose s;
}.
#[global] Instance same_view_refl {S} : Reflexive (@same_view S).
Proof. by constructor. Qed.
#[global] Instance same_view_trans {S} : Transitive (@same_view S).
Proof. intros x y z [] []. constructor; congruence. Qed.

Section effects.
Context {S : Type} `{BlockStorage S} `{BuildMode} `{SszHash} `{UnorderedMap}.
Context `{XmssProvider} `{NodeKeys} `{LoopFuel} `{Hex} `{HttpLibraries}.
Notation M := (SM (ForkChoiceStore S) error).

(** A computation that only reads *)
Definition reads {A} (m : M A) : Prop :=
  ∀ s, same_view s (m s).2 ∧ fc_is_aggregator (m s).2 = fc_is_aggregator s.

Lemma reads_ret {A} (r : outcome error A) : reads (λ s, (r, s)).
Proof. done. Qed.
Lemma reads_bind {A B} (m : M A) (f : A → M B) : reads m → (∀ a, reads (f a)) → reads (m ≫= f).
Proof.
  intros Hm Hf s. destruct (Hm s) as [Hs Ha]. unfold mbind, sm_bind. destruct (m s) as [[a|e|x] s1]; cbn in *; [|done..].
  destruct (Hf a s1) as [Hs1 Ha1]. split; [by etrans|congruence].
Qed.
Lemma reads_try {A} (m : M A) : reads m → reads (sm_try m).
Proof. intros Hm s. specialize (Hm s). unfold sm_try. by destruct (m s) as [[] ?]. Qed.
Lemma reads_get_bind {B} (f : ForkChoiceStore S → M B) :
  (∀ s, same_view s (f s s).2 ∧ fc_is_aggregator (f s s).2 = fc_is_aggregator s) → reads (sm_get ≫= f).
Proof. intros Hf s. apply Hf. Qed.

Definition reads_tree {A} (m : SM (BlockTreeData S) error A) : Prop :=
  ∀ p, bt_tree (m p).2 = bt_tree p ∧ bt_events (m p).2 = bt_events p.
Lemma reads_block_tree {A} (m : SM (BlockTreeData S) error A) : reads_tree m → reads (block_tree m).
Proof.
  intros Hm s. specialize (Hm (fc_block_tree s)). unfold block_tree. destruct (m (fc_block_tree s)) as [r p]. cbn in Hm.
  destruct Hm. split; [|done]. by constructor.
Qed.
Lemma reads_storage {A} (m : SM S error A) : reads_tree (storage m).
Proof. intros p. unfold storage. by destruct (m (bt_storage p)). Qed.

Lemma reads_tryGetBlockHeader h : reads (block_tree (tryGetBlockHeader h)).
Proof.
  apply reads_block_tree. intros p. unfold tryGetBlockHeader, mbind, sm_bind, sm_try.
  destruct (reads_storage (bs_getBlockHeader h) p) as [Ht He].
  destruct (storage (bs_getBlockHeader h) p) as [[|e|] p']; cbn in *; [done| |done]. by case_bool_decide.
Qed.

Lemma reads_getState h : reads (getState h).
Proof.
  apply reads_get_bind. intros s. destruct (lru_get h (fc_states s)) as [cached c].
  set (s1 := set_states c s). rewrite (sm_bind_ok _ _ s () s1) by done.
  enough (Hr : reads (match cached with Some state => mret state | None =>
    state_opt ← block_storage (bs_getState h);
    match state_opt with
    | None => sm_err (E_ForkChoice STATE_NOT_FOUND)
    | Some state => s ← sm_get; r ← sm_lift (lru_put h state (fc_states s)); sm_put (set_states r.2 s) ≫= λ _, mret r.1
    end end)) by (destruct (Hr s1) as [Hv Ha]; split; [etrans; [|exact Hv]; by constructor|exact Ha]).
  destruct cached as [state|]; [apply (reads_ret (Ok _))|]. apply reads_bind; [apply reads_block_tree, reads_storage|]. intros [state|]; [|apply (reads_ret (Err _))].
  apply reads_get_bind. intros s2. unfold mbind, sm_bind, sm_lift. destruct (lru_put h state (fc_states s2)); cbn; done.
Qed.

Lemma reads_finalized : reads (getLatestFinalized (S := S)).
Proof. done. Qed.
Lemma reads_justified : reads (getLatestJustified (S := S)).
Proof. done. Qed.

Lemma reads_api_nodes fuel slot queue nodes : reads (api_nodes (S := S) fuel slot queue nodes).
Proof.
  revert queue nodes. induction fuel as [|fuel IH]; intros [|h queue] nodes; cbn; try apply (reads_ret (Ok _)); try apply (reads_ret (Throw _)).
  apply reads_bind; [apply reads_tryGetBlockHeader|]. intros [header|]; [|apply IH]. case_match; apply IH.
Qed.

Lemma reads_apiForkChoice : reads (apiForkChoice (S := S)).
Proof.
  unfold apiForkChoice. apply reads_bind; [apply reads_finalized|]. intros finalized.
  apply reads_bind; [by intros s|]. intros s. apply reads_bind; [apply reads_getState|]. intros head_state.
  apply reads_bind; [by intros s'|]. intros leaves. apply reads_bind; [apply reads_api_nodes|]. intros nodes.
  apply reads_bind; [by intros s'|]. intros nodes'. apply reads_bind; [apply reads_justified|]. intros justified. apply (reads_ret (Ok _)).
Qed.

(** ** The aggregator flag *)

(** The value that a request sets, if it sets one *)
Definition sets_aggregator (request : Request) : option bool :=
  if bool_decide (rq_target request = url_aggregator) then
    match rq_method request, decode_enabled (rq_body request) with Post, Ok b => Some b | _, _ => None end
  else None.

Lemma api_reads request : sets_aggregator request = None → reads (on_request_api (S := S) true request).
Proof.
  unfold sets_aggregator, on_request_api. intros Hset. cbn [negb].
  destruct (bool_decide (_ = url_health)); [apply (reads_ret (Ok _))|].
  destruct (bool_decide (_ = url_finalized)).
  { apply reads_bind; [apply reads_finalized|]. intros finalized. apply reads_bind; [apply reads_try, reads_getState|]. intros r. apply (reads_ret (Ok _)). }
  destruct (bool_decide (_ = url_justified)); [apply reads_bind; [apply reads_justified|]; intros j; apply (reads_ret (Ok _))|].
  destruct (bool_decide (_ = url_fork_choice)).
  { apply reads_bind; [apply reads_try, reads_apiForkChoice|]. intros [r|e]; [|apply (reads_ret (Ok _))].
    destruct (encode _ _ _); [apply (reads_ret (Ok _))|apply (reads_ret (Throw _))]. }
  destruct (bool_decide (_ = url_aggregator)); [|apply (reads_ret (Ok _))]. destruct (rq_method request).
  - by intros s.
  - unfold post_aggregator. destruct (decode_enabled (rq_body request)); [done|apply (reads_ret (Err _))|apply (reads_ret (Ok _))].
  - apply (reads_ret (Ok _)).
Qed.

(** The answer to a request that sets the flag *)
Definition aggregator_answer (enabled previous : bool) : Response :=
  json_response (chars "{" ++ quoted "is_aggregator" ++ chars ":" ++ bool_text enabled ++ chars "," ++
                 quoted "previous" ++ chars ":" ++ bool_text previous ++ chars "}").

Lemma api_sets request b s :
  sets_aggregator request = Some b →
  on_request_api (S := S) true request s = (Ok (aggregator_answer b (fc_is_aggregator s)), set_is_aggregator b s).
Proof.
  unfold sets_aggregator, on_request_api. intros Hset. case_bool_decide as Hu; [|done]. destruct (rq_method request) eqn:Hm; try done.
  destruct (decode_enabled (rq_body request)) as [e| |] eqn:Hd; try done. injection Hset as ->.
  cbn [negb]. rewrite Hu, !bool_decide_false by (by vm_compute).
  unfold post_aggregator. by rewrite Hd.
Qed.

(** A sequence of requests, each with its answer *)
Fixpoint serve (requests : list Request) (s : ForkChoiceStore S) : list (outcome error Response) * ForkChoiceStore S :=
  match requests with
  | [] => ([], s)
  | request :: requests =>
      let '(r, s) := on_request_api true request s in
      let '(rs, s) := serve requests s in
      (r :: rs, s)
  end.

(** The flag after some requests *)
Definition flag_after (b : bool) (requests : list Request) : bool :=
  foldl (λ b request, default b (sets_aggregator request)) b requests.

(** Requests cannot harm consensus: whatever is requested, in any order, the tree, the clock,
    the head, the safe target and the votes stay as they are.  The aggregator flag is a register:
    it has the value of the last request that set it, and such a request is answered with its
    value and the value before it. *)
Theorem http_requests_effect requests s :
  let '(answers, s') := serve requests s in
  same_view s s' ∧ fc_is_aggregator s' = flag_after (fc_is_aggregator s) requests ∧
  ∀ i request b, requests !! i = Some request → sets_aggregator request = Some b →
    answers !! i = Some (Ok (aggregator_answer b (flag_after (fc_is_aggregator s) (take i requests)))).
Proof.
  revert s. induction requests as [|request requests IH]; intros s; [done|]. cbn [serve].
  assert (Hstep : same_view s (on_request_api true request s).2 ∧
    fc_is_aggregator (on_request_api true request s).2 = default (fc_is_aggregator s) (sets_aggregator request)).
  { destruct (sets_aggregator request) as [b|] eqn:Hset; [|by apply api_reads].
    rewrite (api_sets _ _ _ Hset). split; [by constructor|done]. }
  destruct (on_request_api true request s) as [r s1] eqn:Hr. cbn in Hstep. destruct Hstep as [Hv Ha].
  specialize (IH s1). destruct (serve requests s1) as [answers s2]. destruct IH as (Hv2 & Ha2 & Hans).
  rewrite Ha in Ha2, Hans.
  split_and!; [by transitivity s1|exact Ha2|]. intros [|i] q b; cbn.
  - intros [= ->] Hset. rewrite (api_sets _ _ _ Hset) in Hr. by injection Hr as <- _.
  - apply Hans.
Qed.
End effects.

(** ** A run *)

Module HttpEx.
Import FcStore.
#[local] Existing Instance ReleaseBuild.
#[local] Existing Instance CanonicalOrder.
#[local] Existing Instance ToyXmss.
#[local] Existing Instance ToyKeys.
#[local] Existing Instance ToyFuel.
#[local] Instance plain_hex : Hex := {| hex0x b := b; unhex0x := Some |}.
#[local] Instance toy_http : HttpLibraries := {|
  parse_json body :=
    if bool_decide (body = chars "on") then JObject [(chars "enabled", JBool true)]
    else if bool_decide (body = chars "off") then JObject [(chars "enabled", JBool false)] else JNull;
  write_json _ := [];
  toHex b := b;
  ssz_state _ := [];
  what _ := chars "bad";
  metrics_collect := [];
|}.

Definition post (body : string) : Request := mkRequest Post url_aggregator (chars body).
Definition requests : list Request :=
  [post "on"; mkRequest Get url_fork_choice []; post "garbage"; post "off"; mkRequest Get (chars "/lean/v0/x") []].

Lemma http_requests_effect_witness :
  fc_is_aggregator (serve requests s_ex).2 = false ∧
  (serve requests s_ex).1 !! 3%nat = Some (Ok (aggregator_answer false true)).
Proof.
  pose proof (http_requests_effect requests s_ex) as Hrun. destruct (serve requests s_ex) as [answers s'].
  destruct Hrun as (_ & Hflag & Hans). cbn [fst snd]. split; [by rewrite Hflag; vm_compute|].
  by rewrite (Hans 3%nat (post "off") false) by (by vm_compute).
Defined.

(** A body that is not the expected object is refused and changes nothing. *)
Lemma bad_body_refused : (serve [post "garbage"] s_ex).1 = [Ok (mkResponse 400 None (chars "bad"))].
Proof. by vm_compute. Qed.
End HttpEx.
