(* ===== verification/GenerateGenesis.v ===== *)
(** * The command generate-genesis (src/src/commands/generate_genesis.hpp, utils/sample_peer.hpp)

    It writes the files from which a test network starts.  The file system is a map from
    paths to contents; messages on the terminal are left out. *)

From Stdlib Require Import String.
From S2P Require Import Prelude Errors Types Parsers Rlp Yaml Enr Configurator Xmss.

(** The bytes of an XmssPublicKey, libp2p::SamplePeer, qtils' hexadecimal, yaml-cpp's output, and
    what the file system accepts. *)
Class GenesisTools := {
  public_key_bytes : XmssPublicKey → bytes;
  sample_keypair : N → Enr.KeyPair;
  samplePort : N → N;
  to_hex : bytes → bytes;
  yaml_emit : Yaml → bytes;
  can_create : path → bool;
  writable : path → bool;
}.

(** std::stoul: leading spaces, a sign, digits; the rest is ignored. *)
Definition stoul (input : bytes) : result N :=
  let input := drop (count_while isspace input) input in
  let '(negative, input) :=
    match input with
    | 43 :: input => (false, input)
    | 45 :: input => (true, input)
    | _ => (false, input)
    end in
  match take (count_while isdigit input) input with
  | [] => Throw LogicError
  | digits =>
      match from_chars digits with
      | None => Throw OutOfRange
      | Some n => Ok (if negative then u64_sub 0 n else n)
      end
  end.

(** 10.0.0.0 and 127.0.0.1 *)
Definition base_shadow : N := 167772160.
Definition base_local : N := 2130706433.

(** makeIp of a base address; uint32_t wraps. *)
Definition makeIp_from (base i : N) : bytes := makeIp ((base + i mod 2 ^ 32) mod 2 ^ 32).

(** enr::toString *)
Definition ip_text (ip : bytes) : bytes :=
  match ip with
  | [a; b; c; d] => decimal a ++ chars "." ++ decimal b ++ chars "." ++ decimal c ++ chars "." ++ decimal d
  | _ => []
  end.

Record SamplePeer := mkSamplePeer {
  sp_index : N;
  sp_keypair : Enr.KeyPair;
  sp_port : N;
  sp_enr_ip : bytes;
  sp_is_aggregator : bool;
  sp_enr : bytes;
}.

Section generate.
Context `{EnrLibraries} `{GenesisTools} `{HashSig}.
Abbreviation files := (gmap path bytes).
Notation M := (SM files error).

(** SamplePeer::makeIp and the constructor; value() throws. *)
Definition sample_ip (index : N) (shadow : bool) : bytes :=
  if shadow then makeIp_from base_shadow index else makeIp_from base_local 0.
Definition SamplePeer_new (index : N) (is_aggregator shadow : bool) : result SamplePeer :=
  let keypair := sample_keypair index in
  let enr_ip := sample_ip index shadow in
  let port := samplePort index in
  enr ← value_of (encode keypair enr_ip port (Some is_aggregator));
  Ok (mkSamplePeer index keypair port enr_ip is_aggregator enr).

(** A stream that does not open writes nothing. *)
Definition write (p : path) (content : bytes) : M () :=
  sm_modify (λ fs, if writable p then <[p := content]> fs else fs).
Definition build_yaml (p : path) (yaml : Yaml) : M () := write p (yaml_emit yaml ++ [10]).

Definition xmss_public_key_name (index : N) : bytes := chars "validator_" ++ decimal index ++ chars "_pk.ssz".
Definition xmss_private_key_name (index : N) : bytes := chars "validator_" ++ decimal index ++ chars "_sk.ssz".
Definition node_id (index : N) : bytes := chars "node_" ++ decimal index.

(** std::filesystem::create_directories throws. *)
Definition create_directories (p : path) : M () := if can_create p then mret () else sm_throw SystemError.

(** A call into the signature library: no objects are alive when an iteration starts. *)
Definition xmss {A} (m : SM Ffi error A) : result A := (m (mkFfi ∅ false false [])).1.

(** The key of one validator: read if both files are there, otherwise made; [None]: the
    command ends with EXIT_FAILURE. *)
Definition validator_key (hashsig_directory : path) (index : N) : M (option XmssPublicKey) :=
  let public_path := path_append hashsig_directory (xmss_public_key_name index) in
  let private_path := path_append hashsig_directory (xmss_private_key_name index) in
  fs ← sm_get;
  match fs !! public_path, fs !! private_path with
  | Some _, Some _ =>
      match xmss (loadKeypair fs private_path public_path) with
      | Ok keypair => mret (Some (kp_public keypair))
      | Err _ => mret None
      | Throw x => sm_throw x
      end
  | _, _ =>
      keys ← sm_lift (xmss (keypair ← generateKeypair index 0 (2 ^ 18);
                            private ← toBytes (kp_private keypair);
                            mret (private, kp_public keypair)));
      write private_path keys.1 ≫= λ _, write public_path (public_key_bytes keys.2) ≫= λ _, mret (Some keys.2)
  end.

Fixpoint validator_keys (hashsig_directory : path) (indices : list N) : M (option (list XmssPublicKey)) :=
  match indices with
  | [] => mret (Some [])
  | index :: indices =>
      key ← validator_key hashsig_directory index;
      match key with
      | None => mret None
      | Some key => keys ← validator_keys hashsig_directory indices; mret (cons key <$> keys)
      end
  end.

Definition num (n : N) : Yaml := Scalar (decimal n).
Definition text (s : string) : Yaml := Scalar (chars s).
Definition entry (key : string) (y : Yaml) : bytes * Yaml := (chars key, y).

Definition manifest_yaml (validator_count : N) (keys : list XmssPublicKey) : Yaml :=
  Map [entry "key_scheme" (text "SIGTopLevelTargetSumLifetime32Dim64Base8"); entry "hash_function" (text "Poseidon2");
       entry "encoding" (text "TargetSum"); entry "lifetime" (num 4294967296); entry "log_num_active_epochs" (num 18);
       entry "num_active_epochs" (num (2 ^ 18)); entry "num_validators" (num validator_count);
       entry "validators" (Sequence (imap (λ i key,
         Map [entry "index" (num (N.of_nat i)); entry "pubkey_hex" (Scalar (chars "0x" ++ to_hex (public_key_bytes key)));
              entry "privkey_file" (Scalar (xmss_private_key_name (N.of_nat i)))]) keys))].

Definition config_yaml (genesis_time validator_count : N) (keys : list XmssPublicKey) : Yaml :=
  Map [entry "GENESIS_TIME" (num genesis_time); entry "VALIDATOR_COUNT" (num validator_count);
       entry "GENESIS_VALIDATORS" (Sequence ((λ key, Scalar (to_hex (public_key_bytes key))) <$> keys))].

Definition nodes_yaml (peers : list SamplePeer) : Yaml := Sequence ((λ peer, Scalar (sp_enr peer)) <$> peers).

Definition validators_yaml (peers : list SamplePeer) : Yaml :=
  Map ((λ peer, (node_id (sp_index peer), Sequence [num (sp_index peer)])) <$> peers).

Definition bool_yaml (b : bool) : Yaml := text (if b then "true" else "false").
Definition validator_config_yaml (peers : list SamplePeer) : Yaml :=
  Map [entry "shuffle" (text "roundrobin");
       entry "config" (Map [entry "activeEpoch" (num 18); entry "keyType" (text "hash-sig")]);
       entry "validators" (Sequence ((λ peer,
         Map [entry "name" (Scalar (node_id (sp_index peer)));
              entry "privkey" (Scalar (to_hex (kp_private_key (sp_keypair peer))));
              entry "enrFields" (Map [entry "ip" (Scalar (ip_text (sp_enr_ip peer))); entry "quic" (num (sp_port peer));
                                      entry "is_aggregator" (bool_yaml (sp_is_aggregator peer))]);
              entry "count" (num 1); entry "metricsPort" (num (8080 + sp_index peer))]) <$> peers))].

(** The peers; the first [subnet_count] are aggregators. *)
Fixpoint sample_peers (subnet_count : N) (shadow : bool) (indices : list N) : result (list SamplePeer) :=
  match indices with
  | [] => Ok []
  | index :: indices =>
      peer ← SamplePeer_new index (index <? subnet_count) shadow;
      peers ← sample_peers subnet_count shadow indices;
      Ok (peer :: peers)
  end.

Fixpoint write_node_keys (directory : path) (peers : list SamplePeer) : M () :=
  match peers with
  | [] => mret ()
  | peer :: peers =>
      write (path_append directory (node_id (sp_index peer) ++ chars ".key")) (to_hex (kp_private_key (sp_keypair peer)) ++ [10])
        ≫= λ _, write_node_keys directory peers
  end.

(** The lambda cmd; [true] is EXIT_SUCCESS, [now] the system clock in seconds. *)
Definition cmd (now : N) (genesis_directory : path) (validator_count subnet_count : N) (shadow : bool) : M bool :=
  if validator_count <? subnet_count then mret false
  else
    let genesis_time := (if shadow then 946684800 else now) + 3 in
    create_directories genesis_directory ≫= λ _,
    let hashsig_directory := path_append genesis_directory (chars "hash-sig-keys") in
    create_directories hashsig_directory ≫= λ _,
    keys ← (if shadow then mret (Some (replicate (N.to_nat validator_count) 0))
            else validator_keys hashsig_directory (seqN 0 validator_count));
    match keys with
    | None => mret false
    | Some keys =>
        build_yaml (path_append hashsig_directory (chars "validator-keys-manifest.yaml")) (manifest_yaml validator_count keys) ≫= λ _,
        build_yaml (path_append genesis_directory (chars "config.yaml")) (config_yaml genesis_time validator_count keys) ≫= λ _,
        peers ← sm_lift (sample_peers subnet_count shadow (seqN 0 validator_count));
        write_node_keys genesis_directory peers ≫= λ _,
        build_yaml (path_append genesis_directory (chars "nodes.yaml")) (nodes_yaml peers) ≫= λ _,
        build_yaml (path_append genesis_directory (chars "validators.yaml")) (validators_yaml peers) ≫= λ _,
        build_yaml (path_append genesis_directory (chars "validator-config.yaml")) (validator_config_yaml peers) ≫= λ _,
        mret true
    end.

(** cmdGenerateGenesis; [args] are the arguments of the program, help is EXIT_FAILURE. *)
Definition cmdGenerateGenesis (now : N) (args : list bytes) : M bool :=
  match args !! 2%nat, args !! 3%nat with
  | Some genesis_directory, Some arg_3 =>
      validator_count ← sm_lift (stoul arg_3);
      if validator_count =? 0 then mret false
      else match args !! 4%nat with
      | None => mret false
      | Some arg_4 =>
          subnet_count ← sm_lift (stoul arg_4);
          if subnet_count =? 0 then mret false
          else
            let arg_5 := args !! 5%nat in
            let shadow := bool_decide (arg_5 = Some (chars "shadow")) in
            if bool_decide (is_Some arg_5) && negb shadow then mret false
            else cmd now genesis_directory validator_count subnet_count shadow
      end
  | _, _ => mret false
  end.
End generate.
