(* ===== verification/GenerateGenesisTheorems.v ===== *)
(** * generate-genesis: which of its files the node can read *)

From Stdlib Require Import String.
From S2P Require Import Prelude Errors Types Stf StfQuorum Parsers Rlp RlpProofs Yaml Enr EnrTheorems Registry Configurator CachedTree Networking Peers Genesis GenesisTheorems Xmss GenerateGenesis ToyHash.

#[local] Arguments str2byte : simpl never.
#[local] Arguments path_append : simpl never.

(** ** Paths *)

Lemma path_append_inj d a b :
  is_absolute a = false → is_absolute b = false → path_append d a = path_append d b → a = b.
Proof. unfold path_append. intros -> ->. destruct (last d); [|done]. destruct (_ =? _); intros ?%(inj (app _)); naive_solver. Qed.

(** ** What the command leaves behind *)

Section generate.
Context `{EnrLibraries} `{GenesisTools} `{HashSig}.
Abbreviation files := (gmap path bytes).
Context (all_writable : ∀ p, writable p = true).

Lemma write_run (p : path) (c : bytes) (fs : files) : write p c fs = (Ok (), <[p := c]> fs).
Proof. unfold write, sm_modify. by rewrite all_writable. Qed.

Lemma write_node_keys_run (d : path) (peers : list SamplePeer) (fs : files) :
  ∃ fs', write_node_keys d peers fs = (Ok (), fs') ∧
    ∀ p, (∀ i, p ≠ path_append d (node_id i ++ chars ".key")) → fs' !! p = fs !! p.
Proof.
  revert fs. induction peers as [|peer peers IH]; intros fs; [by exists fs|]. cbn [write_node_keys].
  rewrite (sm_bind_ok _ _ _ _ _ (write_run _ _ _)). edestruct IH as (fs' & Hrun & Hp). exists fs'. split; [exact Hrun|].
  intros p Hne. rewrite Hp by done. by rewrite lookup_insert_ne.
Qed.

Lemma validator_keys_length (d : path) (indices : list N) (keys : list N) (fs fs' : files) :
  validator_keys d indices fs = (Ok (Some keys), fs') → length keys = length indices.
Proof.
  revert keys fs fs'. induction indices as [|i indices IH]; intros keys fs fs'; cbn; [by intros [= <- _]|].
  intros ([k|] & fs1 & _ & Hrun)%sm_bind_ok_inv; [|done].
  apply sm_bind_ok_inv in Hrun as ([ks|] & fs2 & Hks & Hret); [|done]. injection Hret as <- _. cbn. by rewrite (IH _ _ _ Hks).
Qed.

Lemma sample_peers_spec k shadow indices peers :
  sample_peers k shadow indices = Ok peers →
  Forall2 (λ i peer, SamplePeer_new i (i <? k) shadow = Ok peer) indices peers.
Proof.
  revert peers. induction indices as [|i indices IH]; intros peers; cbn; [intros [= <-]; constructor|].
  intros (peer & Hp & (l & Hl & [= <-])%outcome_bind_ok)%outcome_bind_ok. constructor; [done|by apply IH].
Qed.

Lemma cmd_files (now : N) (d : path) (n k : N) (shadow : bool) (fs fs' : files) :
  cmd now d n k shadow fs = (Ok true, fs') →
  ∃ time keys peers, lengthN keys = n ∧ sample_peers k shadow (seqN 0 n) = Ok peers ∧ k ≤ n ∧
    fs' !! path_append d (chars "config.yaml") = Some (yaml_emit (config_yaml time n keys) ++ [10]) ∧
    fs' !! path_append d (chars "nodes.yaml") = Some (yaml_emit (nodes_yaml peers) ++ [10]) ∧
    fs' !! path_append d (chars "validators.yaml") = Some (yaml_emit (validators_yaml peers) ++ [10]).
Proof.
  unfold cmd. destruct (N.ltb_spec n k) as [|Hk]; [done|]. cbn zeta.
  intros ([] & fs1 & _ & Hrun)%sm_bind_ok_inv. apply sm_bind_ok_inv in Hrun as ([] & fs2 & _ & Hrun).
  apply sm_bind_ok_inv in Hrun as (okeys & fs3 & Hkeys & Hrun). destruct okeys as [keys|]; [|done].
  exists ((if shadow then 946684800 else now) + 3), keys.
  assert (Hlen : lengthN keys = n).
  { destruct shadow; [injection Hkeys as <- _; unfold lengthN; rewrite length_replicate; lia|].
    apply validator_keys_length in Hkeys. unfold lengthN. rewrite Hkeys. by rewrite <- (length_seqN 0 n) at 2. }
  unfold build_yaml in Hrun. do 2 rewrite (sm_bind_ok _ _ _ _ _ (write_run _ _ _)) in Hrun.
  set (fs4 := <[path_append d (chars "config.yaml") := _]> _) in Hrun.
  apply sm_bind_ok_inv in Hrun as (peers & fs4' & Hp & Hrun). injection Hp as Hp <-. exists peers.
  destruct (write_node_keys_run d peers fs4) as (fs5 & Hw & Hother). rewrite (sm_bind_ok _ _ _ _ _ Hw) in Hrun.
  do 3 rewrite (sm_bind_ok _ _ _ _ _ (write_run _ _ _)) in Hrun. injection Hrun as <-.
  assert (Hne : ∀ a b, is_absolute a = false → is_absolute b = false → a ≠ b → path_append d a ≠ path_append d b).
  { intros a b Ha Hb Hab ?%path_append_inj; done. }
  split_and!; try done; repeat (rewrite lookup_insert_ne by (by apply Hne)); try apply lookup_insert_eq.
  rewrite Hother; [apply lookup_insert_eq|]. intros i. by apply Hne.
Qed.

(** ** Reading the files *)

Context (yaml_parse : bytes → option Yaml).
Context (yaml_law : ∀ y, yaml_parse (yaml_emit y ++ [10]) = Some y).
Context `{YamlNumber} `{SszHash} `{GenesisLibraries} `{BuildMode}.

(** The node cannot start from the genesis that the command writes: config.yaml lists keys
    where the reader expects a map with two keys for each validator, and validators.yaml lists
    numbers where the registry expects maps with an index.  Reading the first is an error, which
    the construction of the anchor state raises; reading the second throws. *)
Theorem generated_genesis_unreadable (now : N) (d : path) (n k : N) (shadow : bool) (fs fs' : files) traces (current : bytes) :
  0 < n → cmd now d n k shadow fs = (Ok true, fs') →
  ∃ config validators,
    fs' !! path_append d (chars "config.yaml") = Some config ∧
    fs' !! path_append d (chars "validators.yaml") = Some validators ∧
    AnchorStateImpl None traces (yaml_parse config) = Some (Throw SystemError) ∧
    (yaml_parse validators ≫= λ y, Some (ValidatorRegistryImpl_new y current)) = Some (Throw RuntimeError).
Proof.
  intros Hn (time & keys & peers & Hlen & Hpeers & _ & Hconfig & _ & Hvalidators)%cmd_files.
  eexists _, _. split; [exact Hconfig|]. split; [exact Hvalidators|]. rewrite !yaml_law. split.
  - destruct keys as [|key keys]; [unfold lengthN in Hlen; cbn in Hlen; lia|]. reflexivity.
  - apply sample_peers_spec, Forall2_length in Hpeers. destruct peers as [|peer peers]; [|reflexivity].
    pose proof (length_seqN 0 n). unfold lengthN in *. cbn in Hpeers. lia.
Qed.

(** The key pairs and addresses of sample peers are usable. *)
Context `{!EnrLaws} (pid : N → PeerId).
Context (sample_keys : ∀ i, ∃ sk pk, sample_keypair i = mkKeyPair true sk true pk ∧ matching sk pk ∧
  lengthN sk = 32 ∧ lengthN pk = 33 ∧ Forall is_byte pk ∧ peerIdFromSecp256k1 pk = Ok (pid i)).
Context (sample_ports : ∀ i, samplePort i < 2 ^ 16).
Context (addresses : ∀ ip port id, ∃ a, quic_address ip port id = Ok a).

Lemma sample_ip_ok i shadow : lengthN (sample_ip i shadow) = 4 ∧ Forall is_byte (sample_ip i shadow).
Proof. unfold sample_ip, makeIp_from, makeIp. destruct shadow; (split; [apply length_be_bytes|apply be_bytes_byte]). Qed.

Lemma sample_bootnode i agg shadow peer :
  SamplePeer_new i agg shadow = Ok peer →
  ∃ e info, decode (sp_enr peer) = Ok e ∧ bootnode_of e = Some info ∧ bn_peer_id info = pid i ∧ bn_is_aggregator info = agg.
Proof.
  unfold SamplePeer_new. destruct (sample_keys i) as (sk & pk & -> & Hm & Hsk & Hpk & Hb & Hid).
  destruct (sample_ip_ok i shadow) as [Hip Hipb].
  destruct (encode_decode sk pk _ _ (Some agg) Hm Hsk Hpk Hb Hip Hipb (sample_ports i)) as (str & sig & -> & Hdec).
  cbn. intros [= <-]. destruct (addresses (sample_ip i shadow) (samplePort i) (pid i)) as [a Ha].
  eexists _, (mkBootnodeInfo a (pid i) agg). split; [exact Hdec|]. unfold bootnode_of, connectAddress. cbn. rewrite Hid. cbn. rewrite Ha. cbn.
  by destruct agg.
Qed.

Lemma sample_bootnodes k shadow indices peers :
  Forall2 (λ i peer, SamplePeer_new i (i <? k) shadow = Ok peer) indices peers →
  Forall2 (λ i info, bn_peer_id info = pid i ∧ bn_is_aggregator info = (i <? k)) indices
    (omap (λ t, decoded t ≫= bootnode_of) (sp_enr <$> peers)) ∧
  ∀ t x, t ∈ sp_enr <$> peers → decode t ≠ Throw x.
Proof.
  induction 1 as [|i peer indices peers (e & info & Hdec & Hb & Hid & Hagg)%sample_bootnode _ [IH1 IH2]]; [split; [constructor|set_solver]|].
  cbn. unfold decoded at 1. rewrite Hdec. cbn. rewrite Hb. split; [by constructor|].
  intros t x [->|Ht]%elem_of_cons; [by rewrite Hdec|by apply IH2].
Qed.

(** The bootnodes that the command writes are read back: the node that loads nodes.yaml knows
    one bootnode for each validator, in the order of their indices, with the identity of the
    generated key; exactly the first [subnet_count] are aggregators, one for each subnet. *)
Theorem generated_bootnodes_load (now : N) (d : path) (n k : N) (shadow : bool) (fs fs' : files) (self : PeerId) (cli : bool) :
  0 < k → cmd now d n k shadow fs = (Ok true, fs') →
  ∃ nodes c,
    fs' !! path_append d (chars "nodes.yaml") = Some nodes ∧
    ChainSpecImpl_load (path_append d (chars "nodes.yaml")) (yaml_parse nodes) self cli = Ok c ∧
    Forall2 (λ i info, bn_peer_id info = pid i ∧ bn_is_aggregator info = (i <? k)) (seqN 0 n) (cs_bootnodes c) ∧
    ∀ s, s < k → ∃ info, cs_bootnodes c !! N.to_nat s = Some info ∧ bn_is_aggregator info = true ∧ validatorSubnet s k = Ok s.
Proof.
  intros Hk (time & keys & peers & _ & [Hf Hnt]%sample_peers_spec%sample_bootnodes & Hkn & _ & Hnodes & _)%cmd_files.
  eexists _. destruct (bootnodes_loaded (path_append d (chars "nodes.yaml")) (sp_enr <$> peers) self cli) as (c & Hload & Hb & _).
  { unfold path_append. cbn [is_absolute chars]. destruct (last d) as [c|]; [|done]. destruct (c =? 47); by destruct d. }
  { exact Hnt. }
  exists c. split; [exact Hnodes|]. rewrite yaml_law. unfold nodes_yaml. rewrite <- list_fmap_compose in Hload. split; [exact Hload|].
  rewrite Hb. split; [exact Hf|]. intros s Hs.
  destruct (Forall2_lookup_l _ _ _ (N.to_nat s) s Hf) as (info & Hinfo & _ & Hagg).
  { rewrite lookup_seqN by lia. f_equal. lia. }
  exists info. split; [exact Hinfo|]. rewrite Hagg. split; [by apply N.ltb_lt|].
  unfold validatorSubnet. rewrite (proj2 (N.eqb_neq k 0)) by lia. by rewrite N.mod_small.
Qed.
End generate.

(** ** A small network *)
Module GenerateEx.

(** A text form of documents: the tokens of the tree *)
Fixpoint to_tree (y : Yaml) : gen_tree bytes :=
  match y with
  | Null => GenNode 0 []
  | Scalar t => GenLeaf t
  | Sequence l => GenNode 1 (to_tree <$> l)
  | Map l => GenNode 2 ((λ e, GenNode 0 [GenLeaf e.1; to_tree e.2]) <$> l)
  | Undefined => GenNode 3 []
  end.
Fixpoint of_tree (t : gen_tree bytes) : Yaml :=
  match t with
  | GenLeaf b => Scalar b
  | GenNode 0 _ => Null
  | GenNode 1 l => Sequence (of_tree <$> l)
  | GenNode 2 l => Map ((λ e, match e with GenNode _ [GenLeaf k; v] => (k, of_tree v) | _ => ([], Null) end) <$> l)
  | GenNode _ _ => Undefined
  end.
Fixpoint of_to_tree (y : Yaml) : of_tree (to_tree y) = y.
Proof.
  destruct y as [|t|l|l|]; cbn; [done|done| | |done]; f_equal.
  - induction l as [|y l IH]; [done|]. cbn. f_equal; [apply of_to_tree|exact IH].
  - induction l as [|[k v] l IH]; [done|]. cbn. f_equal; [f_equal; apply of_to_tree|exact IH].
Defined.
Definition token_text (t : nat * nat + bytes) : bytes :=
  match t with inl (len, n) => [0; N.of_nat len; N.of_nat n] | inr b => 1 :: lengthN b :: b end.
Fixpoint read_tokens (fuel : nat) (b : bytes) : list (nat * nat + bytes) :=
  match fuel, b with
  | S fuel, 0 :: len :: n :: b => inl (N.to_nat len, N.to_nat n) :: read_tokens fuel b
  | S fuel, 1 :: n :: b => inr (take (N.to_nat n) b) :: read_tokens fuel (drop (N.to_nat n) b)
  | _, _ => []
  end.
Lemma read_token_texts fuel l : (length l ≤ fuel)%nat → read_tokens fuel ((l ≫= token_text) ++ [10]) = l.
Proof.
  revert fuel. induction l as [|[[len n]|b] l IH]; intros [|fuel] Hf; cbn in Hf; try lia; cbn; [done..| |].
  - rewrite !Nat2N.id, IH by lia. done.
  - unfold lengthN. rewrite Nat2N.id, <- app_assoc, take_app_length, drop_app_length, IH by lia. done.
Qed.

Definition emit (y : Yaml) : bytes :=
  let l := gen_tree_to_list (to_tree y) in lengthN l :: (l ≫= token_text).
Definition parse (b : bytes) : option Yaml :=
  match b with n :: b => of_tree <$> gen_tree_of_list [] (read_tokens (N.to_nat n) b) | [] => None end.
Lemma parse_emit y : parse (emit y ++ [10]) = Some y.
Proof.
  unfold parse, emit. cbn zeta. cbn [app]. unfold lengthN. rewrite Nat2N.id, read_token_texts by done.
  rewrite <- (app_nil_r (gen_tree_to_list _)), gen_tree_of_to_list. cbn. by rewrite of_to_tree.
Qed.

#[local] Existing Instances DebugBuild AppendOrder.
#[local] Existing Instances EnrEx.ToyLibraries EnrEx.ToyLaws GenEx.numbers GenEx.libraries XmssEx.ToyHashSig.
#[local] Instance tools : GenesisTools := {|
  public_key_bytes k := [k];
  sample_keypair i := mkKeyPair true (replicate 32 (i mod 256)) true (2 :: replicate 32 (i mod 256));
  samplePort i := (9000 + i) mod 2 ^ 16;
  to_hex b := b;
  yaml_emit := emit;
  can_create _ := true;
  writable _ := true;
|}.

Definition run : outcome error bool * gmap path bytes := cmd 1000 (chars "genesis") 3 2 false ∅.
Lemma run_succeeds : run = (Ok true, run.2).
Proof. assert (Hr : run.1 = Ok true) by (vm_compute; reflexivity). by rewrite <- Hr, <- surjective_pairing. Qed.

Lemma generated_genesis_unreadable_witness :
  0 < 3 ∧ ∃ config validators,
    run.2 !! path_append (chars "genesis") (chars "config.yaml") = Some config ∧
    run.2 !! path_append (chars "genesis") (chars "validators.yaml") = Some validators ∧
    AnchorStateImpl None [] (parse config) = Some (Throw SystemError) ∧
    (parse validators ≫= λ y, Some (ValidatorRegistryImpl_new y (node_id 0))) = Some (Throw RuntimeError).
Proof.
  split; [done|].
  exact (generated_genesis_unreadable (λ _, eq_refl) parse parse_emit 1000 (chars "genesis") 3 2 false ∅ run.2 []
           (node_id 0) eq_refl run_succeeds).
Defined.

Lemma sample_keys i : ∃ sk pk, sample_keypair i = mkKeyPair true sk true pk ∧ matching sk pk ∧
  lengthN sk = 32 ∧ lengthN pk = 33 ∧ Forall is_byte pk ∧ peerIdFromSecp256k1 pk = Ok (i mod 256).
Proof.
  assert (Hb : Forall is_byte (replicate 32 (i mod 256))) by (apply Forall_replicate; by apply N.mod_lt).
  exists (replicate 32 (i mod 256)), (2 :: replicate 32 (i mod 256)).
  split_and!; [done|by split|done|done|by constructor|done].
Qed.

Lemma ports i : samplePort i < 2 ^ 16.
Proof. by apply N.mod_lt. Qed.
Lemma addresses ip port id : ∃ a, quic_address ip port id = Ok a.
Proof. by exists port. Qed.
Lemma all_writable p : writable p = true.
Proof. done. Qed.

Lemma generated_bootnodes_load_witness :
  0 < 2 ∧ ∃ nodes c, run.2 !! path_append (chars "genesis") (chars "nodes.yaml") = Some nodes ∧
    ChainSpecImpl_load (path_append (chars "genesis") (chars "nodes.yaml")) (parse nodes) 1 false = Ok c ∧
    Forall2 (λ i info, bn_peer_id info = i mod 256 ∧ bn_is_aggregator info = (i <? 2)) (seqN 0 3) (cs_bootnodes c).
Proof.
  split; [done|].
  destruct (generated_bootnodes_load all_writable parse parse_emit (λ i, i mod 256) sample_keys ports addresses
    1000 (chars "genesis") 3 2 false ∅ run.2 1 false eq_refl run_succeeds) as (nodes & c & Hn & Hl & Hf & _).
  exists nodes, c. split_and!; [exact Hn|exact Hl|exact Hf].
Defined.
End GenerateEx.
