(* ===== verification/RocksDb.v ===== *)
(** * RocksDB storage (src/src/storage/rocksdb)

    The wrapper that gives the node its persistent key-value store.  A space is a column
    family; its handles lie in a vector, and a space object holds a reference to an element
    of the vector, so it is the position of the element here.  The RocksDB library and the
    file system are parameters.  Options that tune caches and tables, and the sizes that the
    constructor prints, are left out. *)

From Stdlib Require Import String.
From S2P Require Import Prelude Errors Types Parsers Storage.

(** ** Spaces (rocksdb_spaces.cpp) *)

Definition kNames : list bytes :=
  [chars "lookup_key"; chars "header"; chars "attestation"; chars "signature"; chars "extrinsic"; chars "state"].
Definition kDefaultColumnFamilyName : bytes := chars "default".

(** The values of the enumeration *)
Definition all_spaces : list Space :=
  [Default; SlotToHashes; Header; AttestationSpace; SignatureSpace; Body; StateSpace].
Definition space_number (sp : Space) : nat :=
  match sp with
  | Default => 0 | SlotToHashes => 1 | Header => 2 | AttestationSpace => 3 | SignatureSpace => 4 | Body => 5 | StateSpace => 6
  end.

Definition spaceName (sp : Space) : bytes :=
  if bool_decide (sp ≠ Default) then default [] (kNames !! (space_number sp - 1)%nat)
  else kDefaultColumnFamilyName.

Definition spaceFromString (s : bytes) : option Space :=
  match list_find (λ n, n = s) kNames with
  | Some (i, _) => all_spaces !! i
  | None => None
  end.

(** ** Statuses (rocksdb_util.hpp) *)

Inductive Code := kOk | kNotFound | kCorruption | kNotSupported | kInvalidArgument | kIOError | kOtherCode.
#[global] Instance Code_eq_dec : EqDecision Code.
Proof. solve_decision. Defined.

(** [st_path_not_found]: the subcode is kPathNotFound. *)
Record Status := mkStatus { st_code : Code; st_path_not_found : bool }.
Definition ok (s : Status) : bool := bool_decide (st_code s = kOk).
Definition IsNotFound (s : Status) : bool := bool_decide (st_code s = kNotFound).
Definition IsPathNotFound (s : Status) : bool :=
  bool_decide (st_code s = kIOError ∨ st_code s = kNotFound) && st_path_not_found s.

Definition status_as_error (s : Status) : StorageError :=
  match st_code s with
  | kNotFound => NOT_FOUND
  | kIOError => IO_ERROR
  | kInvalidArgument => INVALID_ARGUMENT
  | kCorruption => CORRUPTION
  | kNotSupported => NOT_SUPPORTED
  | _ => UNKNOWN
  end.

(** ** The library *)

(** An entry of a rocksdb::WriteBatch: [None] deletes. *)
Record WriteEntry (Handle : Type) := mkWriteEntry { we_column : Handle; we_key : bytes; we_value : option bytes }.
Arguments mkWriteEntry {Handle}.
Arguments we_column {Handle}.
Arguments we_key {Handle}.
Arguments we_value {Handle}.

(** [D] is an open database, [Disk] the directory of a closed one; a handle that is not [live]
    must not be used. *)
Class RocksLibrary (D Handle Disk : Type) := {
  live : D → Handle → bool;
  GetName : Handle → bytes;
  db_Get : Handle → bytes → D → Status * bytes;
  db_Put : Handle → bytes → bytes → D → Status * D;
  db_Delete : Handle → bytes → D → Status * D;
  db_Write : list (WriteEntry Handle) → D → Status * D;
  db_DropColumnFamily : Handle → D → Status * D;
  db_DestroyColumnFamilyHandle : Handle → D → Status * D;
  db_CreateColumnFamily : bytes → D → Status * option Handle * D;
  db_GetProperty : D → option bytes;
  ListColumnFamilies : Disk → Status * list bytes;
  db_Open : list bytes → Disk → Status * option (list Handle * D);
  db_delete : D → Disk;
}.

(** getrlimit, create_directories, create_directory and is_directory on the path *)
Class RocksFiles (Disk : Type) := {
  fd_limit : option N;
  fs_create_directories : Disk → option Disk;
  fs_create_directory_ok : Disk → bool;
  fs_is_directory : Disk → bool;
}.

(** The order in which a std::unordered_set of names is iterated: some permutation of its elements *)
Class UnorderedSet := {
  set_order : list bytes → list bytes;
  set_order_perm l : set_order l ≡ₚ l;
}.
Definition InsertionOrder : UnorderedSet := {| set_order l := l; set_order_perm l := Permutation_refl l |}.

Section rocksdb.
Context {D Handle Disk : Type} `{RocksLibrary D Handle Disk} `{RocksFiles Disk} `{UnorderedSet}.

Record RocksDb := mkRocksDb {
  db_ : D;
  column_family_handles_ : list Handle;
  spaces_ : gmap Space nat;
}.
Definition set_db (d : D) (r : RocksDb) : RocksDb := mkRocksDb d (column_family_handles_ r) (spaces_ r).

(** ** RocksDb *)

Definition createDirectory (disk : Disk) : result () :=
  if negb (fs_create_directory_ok disk) then Err (E_Storage IO_ERROR)
  else if negb (fs_is_directory disk) then Err (E_Storage IO_ERROR)
  else Ok ().

Definition openDatabase (names : list bytes) (disk : Disk) : result RocksDb :=
  let '(status, opened) := db_Open names disk in
  if negb (ok status) then Err (E_Storage (status_as_error status))
  else match opened with
  | Some (handles, d) => Ok (mkRocksDb d handles ∅)
  | None => Throw UndefinedBehaviour
  end.

(** The set of all families: those of the spaces and those that exist *)
Definition insert_family (all : list bytes) (name : bytes) : list bytes :=
  if bool_decide (name ∈ all) then all else all ++ [name].
Definition all_families (existing : list bytes) : list bytes :=
  set_order (foldl insert_family (spaceName <$> all_spaces) existing).

(** The constructor; qtils::raise throws. *)
Definition RocksDb_new (disk : Disk) : result RocksDb :=
  match fd_limit with
  | None => Throw SystemError
  | Some _ =>
      match fs_create_directories disk with
      | None => Throw SystemError
      | Some disk =>
          match createDirectory disk with
          | Ok () =>
              let '(res, existing) := ListColumnFamilies disk in
              if negb (ok res) && negb (IsPathNotFound res) then Throw SystemError
              else match openDatabase (all_families existing) disk with
              | Err _ => Throw SystemError
              | r => r
              end
          | _ => Throw SystemError
          end
      end
  end.

(** The destructor *)
Definition destroy (r : RocksDb) : Disk :=
  db_delete (foldl (λ d h, (db_DestroyColumnFamilyHandle h d).2) (db_ r) (column_family_handles_ r)).

Definition find_column (name : bytes) (r : RocksDb) : option nat :=
  fst <$> list_find (λ h, GetName h = name) (column_family_handles_ r).

Definition RocksDb_getSpace (space : Space) : SM RocksDb error nat :=
  r ← sm_get;
  match spaces_ r !! space with
  | Some column => mret column
  | None =>
      match find_column (spaceName space) r with
      | None => sm_throw ErrorEnumThrown
      | Some column =>
          sm_put (mkRocksDb (db_ r) (column_family_handles_ r) (<[space := column]> (spaces_ r))) ≫= λ _, mret column
      end
  end.

(** One step of dropColumn: a failure throws, after the step. *)
Definition checked {A} (step : D → Status * A * D) : SM RocksDb error A :=
  r ← sm_get;
  let '(status, a, d) := step (db_ r) in
  sm_put (set_db d r) ≫= λ _,
  if ok status then mret a else sm_throw ErrorEnumThrown.

Definition dropColumn (space : Space) : SM RocksDb error () :=
  r ← sm_get;
  match find_column (spaceName space) r with
  | None => sm_throw ErrorEnumThrown
  | Some column =>
      handle ← sm_lift (of_option UndefinedBehaviour (column_family_handles_ r !! column));
      checked (λ d, let '(s, d) := db_DropColumnFamily handle d in (s, (), d)) ≫= λ _,
      checked (λ d, let '(s, d) := db_DestroyColumnFamilyHandle handle d in (s, (), d)) ≫= λ _,
      created ← checked (db_CreateColumnFamily (spaceName space));
      match created with
      | Some handle => sm_modify (λ r, mkRocksDb (db_ r) (<[column := handle]> (column_family_handles_ r)) (spaces_ r))
      | None => sm_throw UndefinedBehaviour
      end
  end.

(** ** RocksDbSpace: the owner is held weakly, [None] when it is gone. *)

Notation M := (SM (option RocksDb) error).

Definition use : M RocksDb :=
  rocks ← sm_get;
  match rocks with Some r => mret r | None => sm_err (E_Storage STORAGE_GONE) end.

(** The handle that the reference [column_] names *)
Definition deref (column : nat) (r : RocksDb) : result Handle :=
  match column_family_handles_ r !! column with
  | Some h => if live (db_ r) h then Ok h else Throw UndefinedBehaviour
  | None => Throw UndefinedBehaviour
  end.

Definition failed {A} (s : Status) : M A := sm_err (E_Storage (status_as_error s)).

Definition RocksDbSpace_contains (column : nat) (key : bytes) : M bool :=
  rocks ← use;
  h ← sm_lift (deref column rocks);
  let '(status, _) := db_Get h key (db_ rocks) in
  if ok status then mret true else if IsNotFound status then mret false else failed status.

Definition RocksDbSpace_get (column : nat) (key : bytes) : M bytes :=
  rocks ← use;
  h ← sm_lift (deref column rocks);
  let '(status, value) := db_Get h key (db_ rocks) in
  if ok status then mret value else failed status.

Definition RocksDbSpace_tryGet (column : nat) (key : bytes) : M (option bytes) :=
  rocks ← use;
  h ← sm_lift (deref column rocks);
  let '(status, value) := db_Get h key (db_ rocks) in
  if ok status then mret (Some value) else if IsNotFound status then mret None else failed status.

(** A write, whose status is the result *)
Definition written (rocks : RocksDb) (outcome : Status * D) : M () :=
  let '(status, d) := outcome in
  sm_put (Some (set_db d rocks)) ≫= λ _, if ok status then mret () else failed status.

Definition RocksDbSpace_put (column : nat) (key value : bytes) : M () :=
  rocks ← use;
  h ← sm_lift (deref column rocks);
  written rocks (db_Put h key value (db_ rocks)).

Definition RocksDbSpace_remove (column : nat) (key : bytes) : M () :=
  rocks ← use;
  h ← sm_lift (deref column rocks);
  written rocks (db_Delete h key (db_ rocks)).

(** [None] for a text that std::stoul does not take *)
Definition RocksDbSpace_byteSizeHint (stoul : bytes → option N) : M (option N) :=
  rocks ← sm_get;
  mret (Some (match rocks with
              | None => 0
              | Some r => match db_GetProperty (db_ r) with Some usage => default 0 (stoul usage) | None => 0 end
              end)).

(** ** RocksDbBatch: the entries so far *)

Abbreviation RocksDbBatch := (list (WriteEntry Handle)).

(** The reference is read without locking the owner. *)
Definition batch_add (column : nat) (key : bytes) (value : option bytes) (b : RocksDbBatch) : M RocksDbBatch :=
  rocks ← sm_get;
  match rocks with
  | None => sm_throw UndefinedBehaviour
  | Some r => h ← sm_lift (deref column r); mret (b ++ [mkWriteEntry h key value])
  end.
Definition RocksDbBatch_put (column : nat) (key value : bytes) (b : RocksDbBatch) : M RocksDbBatch :=
  batch_add column key (Some value) b.
Definition RocksDbBatch_remove (column : nat) (key : bytes) (b : RocksDbBatch) : M RocksDbBatch :=
  batch_add column key None b.
Definition RocksDbBatch_commit (b : RocksDbBatch) : M () :=
  rocks ← use;
  written rocks (db_Write b (db_ rocks)).
Definition RocksDbBatch_clear (b : RocksDbBatch) : RocksDbBatch := [].

(** ** The interface, for an owner that exists *)

Definition with_owner {A} (m : M A) : SM RocksDb error A := λ r,
  let '(x, r') := m (Some r) in (x, default r r').
Definition in_space {A} (space : Space) (f : nat → M A) : SM RocksDb error A :=
  column ← RocksDb_getSpace space; with_owner (f column).

#[global] Instance RocksDb_SpacedStorage : SpacedStorage bytes RocksDb := {|
  ss_tryGet sp k := in_space sp (λ c, RocksDbSpace_tryGet c k);
  ss_contains sp k := in_space sp (λ c, RocksDbSpace_contains c k);
  ss_put sp k v := in_space sp (λ c, RocksDbSpace_put c k v);
  ss_remove sp k := in_space sp (λ c, RocksDbSpace_remove c k);
|}.
End rocksdb.

Arguments RocksDb D Handle : clear implicits.
