(* ===== verification/RocksDbTheorems.v ===== *)
(** * RocksDB storage: a map for each space, which survives closing *)

From Stdlib Require Import String.
From S2P Require Import Prelude Errors Types Stf Parsers Storage BlockStorage BlockStorageSpec RocksDb ToyHash ToyStore.

Abbreviation Column := (gmap bytes bytes).
Abbreviation Families := (gmap bytes (gmap bytes bytes)).

(** One entry of a batch, applied to the families *)
Definition apply_entry {Handle} (name : Handle → bytes) (f : Families) (e : WriteEntry Handle) : Families :=
  let column := default ∅ (f !! name (we_column e)) in
  <[name (we_column e) := match we_value e with Some v => <[we_key e := v]> column | None => delete (we_key e) column end]> f.

(** ** What the library documents

    Faults may occur: a call that fails changes nothing that a later call sees. *)
Class RocksLaws (D Handle Disk : Type) `{RocksLibrary D Handle Disk} := {
  families : D → Families;
  disk_families : Disk → Families;
  Get_law d h k m : live d h = true → families d !! GetName h = Some m →
    let '(s, v) := db_Get h k d in
    (st_code s = kOk → m !! k = Some v) ∧ (st_code s = kNotFound → m !! k = None);
  Put_law d h k v m : live d h = true → families d !! GetName h = Some m →
    let '(s, d') := db_Put h k v d in st_code s ≠ kNotFound ∧ live d' = live d ∧
    families d' = if ok s then <[GetName h := <[k := v]> m]> (families d) else families d;
  Delete_law d h k m : live d h = true → families d !! GetName h = Some m →
    let '(s, d') := db_Delete h k d in st_code s ≠ kNotFound ∧ live d' = live d ∧
    families d' = if ok s then <[GetName h := delete k m]> (families d) else families d;
  Write_law d b : Forall (λ e, live d (we_column e) = true ∧ is_Some (families d !! GetName (we_column e))) b →
    let '(s, d') := db_Write b d in st_code s ≠ kNotFound ∧ live d' = live d ∧
    families d' = if ok s then foldl (apply_entry GetName) (families d) b else families d;
  Drop_law d h : live d h = true →
    let '(s, d') := db_DropColumnFamily h d in live d' = live d ∧
    families d' = if ok s then delete (GetName h) (families d) else families d;
  Destroy_law d h : live d h = true →
    let '(s, d') := db_DestroyColumnFamilyHandle h d in families d' = families d ∧
    ∀ h', live d' h' = true ↔ live d h' = true ∧ (ok s = true → h' ≠ h);
  Create_law d name :
    let '(s, o, d') := db_CreateColumnFamily name d in
    if ok s then ∃ h, o = Some h ∧ GetName h = name ∧ live d h = false ∧
      (∀ h', live d' h' = true ↔ h' = h ∨ live d h' = true) ∧ families d' = <[name := ∅]> (families d)
    else live d' = live d ∧ families d' = families d;
  Open_law names disk : NoDup names →
    let '(s, o) := db_Open names disk in
    ok s = true → ∃ hs d, o = Some (hs, d) ∧ GetName <$> hs = names ∧ NoDup hs ∧ Forall (λ h, live d h = true) hs ∧
      ∀ name, families d !! name =
        if bool_decide (name ∈ names) then Some (default ∅ (disk_families disk !! name)) else disk_families disk !! name;
  delete_law d : disk_families (db_delete d) = families d;
}.

(** A device without faults: calls succeed, and a database opens when all its families are
    listed. *)
Class FaultFree (D Handle Disk : Type) `{RocksLaws D Handle Disk} `{RocksFiles Disk} := {
  Get_ok d h k : ok (db_Get h k d).1 || IsNotFound (db_Get h k d).1 = true;
  Put_ok d h k v : ok (db_Put h k v d).1 = true;
  Delete_ok d h k : ok (db_Delete h k d).1 = true;
  Write_ok d b : ok (db_Write b d).1 = true;
  Destroy_ok d h : ok (db_DestroyColumnFamilyHandle h d).1 = true;
  List_ok disk : let '(s, l) := ListColumnFamilies disk in
    (ok s || IsPathNotFound s = true) ∧ NoDup l ∧ ∀ name, name ∈ l ↔ is_Some (disk_families disk !! name);
  Open_ok names disk : NoDup names → kDefaultColumnFamilyName ∈ names →
    (∀ name, is_Some (disk_families disk !! name) → name ∈ names) → ok (db_Open names disk).1 = true;
  files_ok disk : is_Some (fd_limit (Disk := Disk)) ∧
    ∃ disk', fs_create_directories disk = Some disk' ∧ fs_create_directory_ok disk' = true ∧
      fs_is_directory disk' = true ∧ disk_families disk' = disk_families disk;
}.

(** ** Names *)

Lemma spaceName_inj sp sp' : spaceName sp = spaceName sp' → sp = sp'.
Proof. destruct sp, sp'; by vm_compute. Qed.
Lemma elem_of_all_spaces sp : sp ∈ all_spaces.
Proof. destruct sp; apply (bool_decide_unpack _); by vm_compute. Qed.
Lemma space_names_NoDup : NoDup (spaceName <$> all_spaces).
Proof. apply (bool_decide_unpack _). by vm_compute. Qed.

(** The names of the spaces do not read back: the table of names has no entry for the default
    space, so every other name gives the space before. *)
Lemma spaceFromString_shifted sp :
  spaceFromString (spaceName sp) = match space_number sp with O => None | S n => all_spaces !! n end.
Proof. destruct sp; by vm_compute. Qed.

Lemma insert_family_spec all name : NoDup all → NoDup (insert_family all name) ∧ ∀ x, x ∈ insert_family all name ↔ x ∈ all ∨ x = name.
Proof.
  intros Hnd. unfold insert_family. case_bool_decide; [split; [done|naive_solver]|]. split; [|set_solver].
  apply NoDup_app. split_and!; [done|set_solver|apply NoDup_singleton].
Qed.
Lemma all_families_spec `{UnorderedSet} existing :
  NoDup (all_families existing) ∧ ∀ x, x ∈ all_families existing ↔ x ∈ spaceName <$> all_spaces ∨ x ∈ existing.
Proof.
  unfold all_families. setoid_rewrite set_order_perm. generalize space_names_NoDup. generalize (spaceName <$> all_spaces).
  induction existing as [|name existing IH]; intros l Hnd; [split; [done|set_solver]|]. cbn.
  destruct (insert_family_spec l name Hnd) as [Hnd' Hin]. destruct (IH _ Hnd') as [Hnd'' Hin']. split; [done|].
  intros x. rewrite Hin', Hin, elem_of_cons. tauto.
Qed.

Section refinement.
Context {D Handle Disk : Type} `{EqDecision Handle} `{RocksLaws D Handle Disk} `{RocksFiles Disk} `{UnorderedSet}.
Abbreviation RocksDb := (RocksDb D Handle).

(** ** The abstraction: a map for each space *)

(** The column of a space: the position of the handle with its name *)
Record has_column (r : RocksDb) (sp : Space) (c : nat) (h : Handle) : Prop := {
  hc_find : find_column (spaceName sp) r = Some c;
  hc_handle : column_family_handles_ r !! c = Some h;
  hc_name : GetName h = spaceName sp;
  hc_live : live (db_ r) h = true;
}.
Record holds (r : RocksDb) (a : Space → Column) : Prop := {
  rp_column sp : ∃ c h, has_column r sp c h ∧ (∀ c', spaces_ r !! sp = Some c' → c' = c) ∧
    families (db_ r) !! spaceName sp = Some (a sp);
  rp_nodup : NoDup (column_family_handles_ r);
  rp_live : Forall (λ h, live (db_ r) h = true) (column_family_handles_ r);
}.

Definition set_column (sp : Space) (m : Column) (a : Space → Column) : Space → Column :=
  λ sp', if decide (sp' = sp) then m else a sp'.

(** Looking up a space changes nothing but the table of spaces. *)
Lemma getSpace_run r a sp :
  holds r a → ∃ c h r', RocksDb_getSpace sp r = (Ok c, r') ∧ holds r' a ∧ has_column r' sp c h ∧
    families (db_ r') !! spaceName sp = Some (a sp).
Proof.
  intros Hr. destruct (rp_column _ _ Hr sp) as (c & h & Hc & Hs & Hf). unfold RocksDb_getSpace, mbind, sm_bind, sm_get.
  destruct (spaces_ r !! sp) as [c'|] eqn:Hsp.
  - rewrite (Hs _ eq_refl). by exists c, h, r.
  - rewrite (hc_find _ _ _ _ Hc). cbn. eexists c, h, _. split; [done|]. destruct Hc. split_and!; [|by constructor|done].
    constructor; [|apply Hr|apply Hr]. intros sp'. destruct (rp_column _ _ Hr sp') as (c1 & h1 & [] & Hs1 & Hf1). exists c1, h1. split_and!; [by constructor| |done].
    cbn. intros c2. destruct (decide (sp = sp')) as [<-|Hne]; [rewrite lookup_insert_eq|rewrite lookup_insert_ne by done; apply Hs1]. congruence.
Qed.

Lemma deref_column r sp c h : has_column r sp c h → deref c r = Ok h.
Proof. intros [_ Hh _ Hl]. unfold deref. by rewrite Hh, Hl. Qed.

(** A write to one column *)
Lemma holds_write r a sp d m :
  holds r a → live d = live (db_ r) → families d = <[spaceName sp := m]> (families (db_ r)) →
  holds (set_db d r) (set_column sp m a).
Proof.
  intros Hr Hl Hf. constructor; [|apply Hr|cbn; rewrite Hl; apply Hr]. intros sp'. destruct (rp_column _ _ Hr sp') as (c & h & [] & Hs & Hc). exists c, h.
  split_and!; [constructor; try done; cbn; by rewrite Hl|done|]. cbn. rewrite Hf. unfold set_column. case_decide as Hd.
  - subst. apply lookup_insert_eq.
  - rewrite lookup_insert_ne; [done|]. by intros ?%spaceName_inj.
Qed.
Lemma holds_same r a d : holds r a → live d = live (db_ r) → families d = families (db_ r) → holds (set_db d r) a.
Proof.
  intros Hr Hl Hf. constructor; [|apply Hr|cbn; rewrite Hl; apply Hr]. intros sp'. destruct (rp_column _ _ Hr sp') as (c & h & [] & Hs & Hc). exists c, h.
  split_and!; [constructor; try done; cbn; by rewrite Hl|done|]. cbn. by rewrite Hf.
Qed.

(** ** Operations on spaces and what they mean *)

Inductive op :=
| OContains (key : bytes)
| OGet (key : bytes)
| OTryGet (key : bytes)
| OPut (key value : bytes)
| ORemove (key : bytes)
| OCommit (entries : list (bytes * option bytes)).   (* a batch, filled and committed *)
Inductive answer := ABool (b : bool) | ABytes (b : bytes) | AOption (o : option bytes) | AUnit.

Fixpoint fill (c : nat) (entries : list (bytes * option bytes)) (b : list (WriteEntry Handle))
    : SM (option RocksDb) error (list (WriteEntry Handle)) :=
  match entries with
  | [] => mret b
  | (k, Some v) :: entries => b ← RocksDbBatch_put c k v b; fill c entries b
  | (k, None) :: entries => b ← RocksDbBatch_remove c k b; fill c entries b
  end.

Definition exec (sp : Space) (o : op) : SM RocksDb error answer :=
  in_space sp (λ c,
    match o with
    | OContains k => b ← RocksDbSpace_contains c k; mret (ABool b)
    | OGet k => v ← RocksDbSpace_get c k; mret (ABytes v)
    | OTryGet k => v ← RocksDbSpace_tryGet c k; mret (AOption v)
    | OPut k v => RocksDbSpace_put c k v ≫= λ _, mret AUnit
    | ORemove k => RocksDbSpace_remove c k ≫= λ _, mret AUnit
    | OCommit entries => b ← fill c entries []; RocksDbBatch_commit b ≫= λ _, mret AUnit
    end).

Definition write_entry (m : Column) (e : bytes * option bytes) : Column :=
  match e.2 with Some v => <[e.1 := v]> m | None => delete e.1 m end.

Definition spec (sp : Space) (o : op) (a : Space → Column) : outcome error answer * (Space → Column) :=
  match o with
  | OContains k => (Ok (ABool (bool_decide (is_Some (a sp !! k)))), a)
  | OGet k => (match a sp !! k with Some v => Ok (ABytes v) | None => Err (E_Storage NOT_FOUND) end, a)
  | OTryGet k => (Ok (AOption (a sp !! k)), a)
  | OPut k v => (Ok AUnit, set_column sp (<[k := v]> (a sp)) a)
  | ORemove k => (Ok AUnit, set_column sp (delete k (a sp)) a)
  | OCommit entries => (Ok AUnit, set_column sp (foldl write_entry (a sp) entries) a)
  end.

(** A fault of the device: neither success nor a missing key *)
Definition fault (r : outcome error answer) : Prop :=
  ∃ s, st_code s ≠ kOk ∧ st_code s ≠ kNotFound ∧ r = Err (E_Storage (status_as_error s)).

Definition allowed (sp : Space) (o : op) (a : Space → Column) (r : outcome error answer) (a' : Space → Column) : Prop :=
  (r, a') = spec sp o a ∨ (fault r ∧ a' = a).

Lemma fill_run c entries b (r : RocksDb) h :
  deref c r = Ok h →
  fill c entries b (Some r) = (Ok (b ++ ((λ e, mkWriteEntry h e.1 e.2) <$> entries)), Some r).
Proof.
  intros Hd. revert b. induction entries as [|[k [v|]] entries IH]; intros b; cbn; [by rewrite app_nil_r| |].
  all: unfold RocksDbBatch_put, RocksDbBatch_remove, batch_add, mbind, sm_bind, sm_get, sm_lift; rewrite Hd; cbn.
  all: rewrite IH, <- app_assoc; done.
Qed.

Lemma apply_entries (h : Handle) (entries : list (bytes * option bytes)) (f : Families) (m : Column) :
  f !! GetName h = Some m →
  foldl (apply_entry GetName) f ((λ e, mkWriteEntry h e.1 e.2) <$> entries) = <[GetName h := foldl write_entry m entries]> f.
Proof.
  revert f m. induction entries as [|e entries IH]; intros f m Hm; cbn; [by rewrite insert_id|].
  unfold apply_entry at 2. cbn. rewrite Hm. cbn. erewrite IH by apply lookup_insert_eq. rewrite insert_insert_eq. done.
Qed.

(** The owner exists, so [use] gives it. *)
Lemma use_run (r : RocksDb) : use (Some r) = (Ok r, Some r).
Proof. done. Qed.

Lemma with_owner_run {A} (m : SM (option RocksDb) error A) r x r' : m (Some r) = (x, Some r') → with_owner m r = (x, r').
Proof. unfold with_owner. by intros ->. Qed.

(** A write: its status decides whether the column changes. *)
Lemma write_step (r : RocksDb) a sp o s d m (access : SM (option RocksDb) error ()) :
  holds r a → spec sp o a = (Ok AUnit, set_column sp m a) →
  st_code s ≠ kNotFound ∧ live d = live (db_ r) ∧
    families d = (if ok s then <[spaceName sp := m]> (families (db_ r)) else families (db_ r)) →
  access (Some r) = written r (s, d) (Some r) →
  ∃ res r' a', with_owner (access ≫= λ _, mret AUnit) r = (res, r') ∧ holds r' a' ∧ allowed sp o a res a'.
Proof.
  intros Hr Hspec (Hnf & Hl & Hf) Hrun. unfold with_owner, mbind, sm_bind. rewrite Hrun.
  unfold written, mbind, sm_bind, sm_put, ok, allowed in *. rewrite Hspec. case_bool_decide as Hs; cbn.
  - eexists _, _, _. split; [done|]. split; [by apply holds_write|by left].
  - eexists _, _, a. split; [done|]. split; [by apply holds_same|]. right. split; [|done]. by exists s.
Qed.

(** A read or a write of the handle [h], unfolded *)
Ltac unfold_access Hderef :=
  unfold RocksDbSpace_contains, RocksDbSpace_get, RocksDbSpace_tryGet, RocksDbSpace_put, RocksDbSpace_remove, RocksDbBatch_commit;
  unfold mbind, sm_bind, sm_lift; rewrite ?use_run, ?Hderef.

Lemma exec_step r a sp o :
  holds r a → ∃ res r' a', exec sp o r = (res, r') ∧ holds r' a' ∧ allowed sp o a res a'.
Proof.
  intros (c & h & r1 & Hspace & Hr & Hc & Hf)%(getSpace_run r a sp). unfold exec, in_space. rewrite (sm_bind_ok _ _ _ _ _ Hspace).
  pose proof (deref_column _ _ _ _ Hc) as Hd. pose proof (hc_live _ _ _ _ Hc) as Hl. pose proof (hc_name _ _ _ _ Hc) as Hn.
  assert (Hm : families (db_ r1) !! GetName h = Some (a sp)) by (by rewrite Hn).
  destruct o as [k|k|k|k v|k|entries].
  1-3: pose proof (Get_law (db_ r1) h k (a sp) Hl Hm) as Hg; unfold with_owner; unfold_access Hd; destruct (db_Get h k (db_ r1)) as [s v];
       destruct Hg as [Hfound Hnone]; unfold ok, IsNotFound, failed; cbn; case_bool_decide as Hok; cbn; [|try (case_bool_decide as Hmissing; cbn)].
  all: try (eexists _, r1, a; split; [reflexivity|]; split; [exact Hr|]; unfold allowed; cbn).
  - left. by rewrite (Hfound Hok).
  - left. by rewrite (Hnone Hmissing).
  - right. split; [by exists s|done].
  - left. by rewrite (Hfound Hok).
  - destruct (decide (st_code s = kNotFound)) as [Hmissing|]; [left|right; split; [by exists s|done]].
    rewrite (Hnone Hmissing). unfold status_as_error. by rewrite Hmissing.
  - left. by rewrite (Hfound Hok).
  - left. by rewrite (Hnone Hmissing).
  - right. split; [by exists s|done].
  - pose proof (Put_law (db_ r1) h k v (a sp) Hl Hm) as Hp. destruct (db_Put h k v (db_ r1)) as [s d] eqn:Hw. rewrite Hn in Hp.
    apply (write_step r1 a sp (OPut k v) s d (<[k := v]> (a sp))); [done|done|exact Hp|]. unfold_access Hd. by rewrite Hw.
  - pose proof (Delete_law (db_ r1) h k (a sp) Hl Hm) as Hp. destruct (db_Delete h k (db_ r1)) as [s d] eqn:Hw. rewrite Hn in Hp.
    apply (write_step r1 a sp (ORemove k) s d (delete k (a sp))); [done|done|exact Hp|]. unfold_access Hd. by rewrite Hw.
  - set (b := (λ e : bytes * option bytes, mkWriteEntry h e.1 e.2) <$> entries).
    assert (Hb : Forall (λ e, live (db_ r1) (we_column e) = true ∧ is_Some (families (db_ r1) !! GetName (we_column e))) b).
    { apply Forall_fmap, Forall_true. intros e. cbn. by rewrite Hm. }
    pose proof (Write_law (db_ r1) b Hb) as Hp. destruct (db_Write b (db_ r1)) as [s d] eqn:Hw.
    unfold b in Hp. rewrite (apply_entries h entries _ _ Hm), Hn in Hp.
    destruct (write_step r1 a sp (OCommit entries) s d (foldl write_entry (a sp) entries) (RocksDbBatch_commit b) Hr eq_refl Hp) as (res & r' & a' & Hrun & Hres).
    { unfold_access Hd. by rewrite Hw. }
    exists res, r', a'. split; [|exact Hres]. rewrite <- Hrun. unfold with_owner.
    by rewrite (sm_bind_ok _ _ _ _ _ (fill_run c entries [] r1 h Hd)).
Qed.

(** A sequence of operations, with their results *)
Fixpoint exec_all (ops : list (Space * op)) (r : RocksDb) : list (outcome error answer) * RocksDb :=
  match ops with
  | [] => ([], r)
  | (sp, o) :: ops =>
      let '(res, r) := exec sp o r in
      let '(rs, r) := exec_all ops r in
      (res :: rs, r)
  end.

(** What a map for each space answers; a fault is reported and changes nothing. *)
Inductive runs_to : (Space → Column) → list (Space * op) → list (outcome error answer) → (Space → Column) → Prop :=
| runs_nil a : runs_to a [] [] a
| runs_cons a sp o res a1 ops rs a' :
    allowed sp o a res a1 → runs_to a1 ops rs a' → runs_to a ((sp, o) :: ops) (res :: rs) a'.

Lemma exec_all_runs ops r a :
  holds r a → ∃ a', runs_to a ops (exec_all ops r).1 a' ∧ holds (exec_all ops r).2 a'.
Proof.
  revert r a. induction ops as [|[sp o] ops IH]; intros r a Hr; cbn; [exists a; split; [constructor|done]|].
  destruct (exec_step r a sp o Hr) as (res & r1 & a1 & -> & Hr1 & Hres). destruct (IH r1 a1 Hr1) as (a' & Hruns & Hr').
  destruct (exec_all ops r1) as [rs r2]. exists a'. split; [by econstructor|done].
Qed.

(** ** Opening and closing *)

(** A database just opened *)
Lemma opened_represents names hs d disk :
  GetName <$> hs = names → NoDup hs → Forall (λ h, live d h = true) hs →
  (∀ sp, spaceName sp ∈ names) →
  (∀ name, families d !! name = if bool_decide (name ∈ names) then Some (default ∅ (disk_families disk !! name)) else disk_families disk !! name) →
  holds (mkRocksDb d hs ∅) (λ sp, default ∅ (disk_families disk !! spaceName sp)).
Proof.
  intros Hnames Hnd Hlive Hin Hfam. constructor; [|done|done]. intros sp.
  assert (Hex : ∃ c h, list_find (λ h, GetName h = spaceName sp) hs = Some (c, h)).
  { specialize (Hin sp). rewrite <- Hnames in Hin. apply list_elem_of_fmap in Hin as (h & Hh & Hhs).
    destruct (list_find_elem_of (λ h, GetName h = spaceName sp) hs h Hhs) as [[c h'] Hfind]; [done|by exists c, h']. }
  destruct Hex as (c & h & Hfind). pose proof Hfind as (Hh & Hn & _)%list_find_Some. exists c, h. split_and!.
  - constructor; [|done|done|]; [unfold find_column; cbn; by rewrite Hfind|]. eapply Forall_lookup_1 in Hlive; done.
  - done.
  - cbn. rewrite Hfam. by rewrite bool_decide_true.
Qed.

(** Closing destroys the handles and keeps the families. *)
Lemma destroy_handles hs d :
  NoDup hs → Forall (λ h, live d h = true) hs →
  families (foldl (λ d h, (db_DestroyColumnFamilyHandle h d).2) d hs) = families d.
Proof.
  revert d. induction hs as [|h hs IH]; intros d; cbn; [done|]. intros [Hni Hnd]%NoDup_cons [Hl Hls]%Forall_cons.
  pose proof (Destroy_law d h Hl) as Hd. destruct (db_DestroyColumnFamilyHandle h d) as [s d']. destruct Hd as [Hf Hl'].
  cbn. rewrite IH; [done|done|]. rewrite Forall_forall in Hls |- *. intros h' Hh'. apply Hl'. split; [by apply Hls|set_solver].
Qed.

Lemma destroy_families (r : RocksDb) a : holds r a → disk_families (destroy r) = families (db_ r).
Proof. intros Hr. unfold destroy. rewrite delete_law. apply destroy_handles; apply Hr. Qed.

(** ** Dropping a column *)

Lemma checked_run {A} (step : D → Status * A * D) (r : RocksDb) x r' :
  checked step r = (Ok x, r') → ∃ s d, step (db_ r) = (s, x, d) ∧ ok s = true ∧ r' = set_db d r.
Proof.
  unfold checked, mbind, sm_bind, sm_get, sm_put. destruct (step (db_ r)) as [[s a] d]. cbn. destruct (ok s) eqn:Hs; [|done].
  intros [= <- <-]. by exists s, d.
Qed.

(** The position of a name depends on the names alone. *)
Lemma find_by_name (hs hs' : list Handle) name :
  GetName <$> hs = GetName <$> hs' →
  fst <$> list_find (λ h, GetName h = name) hs = fst <$> list_find (λ h, GetName h = name) hs'.
Proof.
  revert hs'. induction hs as [|h hs IH]; intros [|h' hs'] Heq; try done. cbn in *. injection Heq as Hh Heq. rewrite <- Hh.
  case_decide; [done|]. rewrite <- !option_fmap_compose. specialize (IH hs' Heq).
  destruct (list_find _ hs) as [[]|], (list_find _ hs') as [[]|]; cbn in *; congruence.
Qed.

(** A column that is dropped is empty afterwards and the others are as before; spaces handed
    out earlier stay valid, because the new handle takes the place of the old one. *)
Lemma dropColumn_empties r a sp r' : holds r a → dropColumn sp r = (Ok (), r') → holds r' (set_column sp ∅ a).
Proof.
  intros Hr. destruct (rp_column _ _ Hr sp) as (c & h & [Hfind Hh Hn Hl] & _ & _). unfold dropColumn. rewrite (sm_bind_ok sm_get _ r r r eq_refl), Hfind.
  rewrite (sm_bind_ok _ _ _ h r) by (unfold sm_lift; by rewrite Hh).
  intros ([] & r1 & (s1 & d1 & Hdrop & Hs1 & ->)%checked_run & Hrun)%sm_bind_ok_inv.
  apply sm_bind_ok_inv in Hrun as ([] & r2 & (s2 & d2 & Hdestroy & Hs2 & ->)%checked_run & Hrun).
  apply sm_bind_ok_inv in Hrun as (o & r3 & (s3 & d3 & Hcreate & Hs3 & ->)%checked_run & Hrun). cbn in Hdestroy, Hcreate.
  pose proof (Drop_law (db_ r) h Hl) as Hd. destruct (db_DropColumnFamily h (db_ r)) as [s d]. injection Hdrop as <- <-. destruct Hd as [Hl1 Hf1].
  rewrite Hs1 in Hf1. assert (Hlh : live d h = true) by (by rewrite Hl1).
  pose proof (Destroy_law d h Hlh) as Hd. destruct (db_DestroyColumnFamilyHandle h d) as [s' d']. injection Hdestroy as <- <-. destruct Hd as [Hf2 Hl2].
  pose proof (Create_law d' (spaceName sp)) as Hc. rewrite Hcreate, Hs3 in Hc. destruct Hc as (h' & -> & Hn' & Hfresh & Hl3 & Hf3).
  injection Hrun as <-. cbn. assert (Hnames : GetName <$> <[c := h']> (column_family_handles_ r) = GetName <$> column_family_handles_ r).
  { rewrite list_fmap_insert. apply list_insert_id. rewrite list_lookup_fmap, Hh. cbn. by rewrite Hn', Hn. }
  assert (Hlive' : ∀ x, x ∈ column_family_handles_ r → x ≠ h → live d3 x = true).
  { intros x Hx Hne. apply Hl3. right. apply Hl2. rewrite Hl1. split; [|done]. pose proof (rp_live _ _ Hr) as Hall. rewrite Forall_forall in Hall. by apply Hall. }
  assert (Hnew : h' ∉ column_family_handles_ r ∨ h' = h).
  { destruct (decide (h' = h)); [by right|left]. intros Hin. assert (live d' h' = true); [|congruence]. apply Hl2. split; [|done].
    rewrite Hl1. pose proof (rp_live _ _ Hr) as Hall. rewrite Forall_forall in Hall. by apply Hall. }
  constructor; cbn.
  - intros sp'. destruct (rp_column _ _ Hr sp') as (c1 & h1 & [Hfind1 Hh1 Hn1 Hl1'] & Hs & Hf).
    unfold find_column in *. exists c1, (if decide (c1 = c) then h' else h1). split_and!; [|done|].
    + constructor; cbn.
      * unfold find_column. cbn. rewrite (find_by_name _ _ _ Hnames). exact Hfind1.
      * case_decide; [subst; apply list_lookup_insert_eq; by eapply lookup_lt_Some|by rewrite list_lookup_insert_ne].
      * case_decide; [|done]. subst. rewrite Hn', <- Hn. congruence.
      * case_decide; [apply Hl3; by left|]. apply Hlive'; [by eapply list_elem_of_lookup_2|].
        intros ->. assert (c1 = c); [|done]. eapply NoDup_lookup; [apply Hr|done|done].
    + rewrite Hf3, Hf2, Hf1, Hn. unfold set_column. case_decide as Hd; [subst; apply lookup_insert_eq|].
      rewrite lookup_insert_ne, lookup_delete_ne by (by intros ?%spaceName_inj). done.
  - destruct Hnew as [Hnew|Heq]; [|subst h'; rewrite list_insert_id by done; apply Hr]. apply NoDup_alt. intros i j x. 
    rewrite !list_lookup_insert_Some. intros [(<- & <- & _)|[Hi Hx]] [(<- & ? & _)|[Hj Hx']]; try done.
    + exfalso. apply Hnew. subst. by eapply list_elem_of_lookup_2.
    + exfalso. apply Hnew. subst. by eapply list_elem_of_lookup_2.
    + eapply NoDup_lookup; [apply Hr|done|done].
  - apply Forall_lookup. intros i x. rewrite list_lookup_insert_Some. intros [(<- & <- & _)|[Hi Hx]]; [apply Hl3; by left|].
    apply Hlive'; [by eapply list_elem_of_lookup_2|]. intros ->. apply Hi. eapply NoDup_lookup; [apply Hr|done|done].
Qed.

(** ** Without faults *)

Context `{!FaultFree D Handle Disk}.

(** The constructor opens every directory: an empty one, and one whose database has families
    that the node does not know. *)
Lemma RocksDb_new_opens disk :
  ∃ r, RocksDb_new disk = Ok r ∧ holds r (λ sp, default ∅ (disk_families disk !! spaceName sp)) ∧
    ∀ name m, disk_families disk !! name = Some m → families (db_ r) !! name = Some m.
Proof.
  destruct (files_ok disk) as ([limit Hfd] & disk' & Hdir & Hcreate & Hisdir & Hdisk). unfold RocksDb_new. rewrite Hfd, Hdir.
  unfold createDirectory. rewrite Hcreate, Hisdir. cbn [negb]. pose proof (List_ok disk') as Hlist.
  destruct (ListColumnFamilies disk') as [s existing]. destruct Hlist as (Hs & _ & Hex).
  assert (Hs' : negb (ok s) && negb (IsPathNotFound s) = false) by (destruct (ok s), (IsPathNotFound s); done). rewrite Hs'.
  destruct (all_families_spec existing) as [Hnd Hin].
  assert (Hspaces : ∀ sp, spaceName sp ∈ all_families existing).
  { intros sp. apply Hin. left. apply list_elem_of_fmap. exists sp. split; [done|apply elem_of_all_spaces]. }
  assert (Hcover : ∀ name, is_Some (disk_families disk' !! name) → name ∈ all_families existing).
  { intros name ?%Hex. apply Hin. by right. }
  pose proof (Open_ok _ disk' Hnd (Hspaces Default) Hcover) as Hok. pose proof (Open_law _ disk' Hnd) as Hopen. unfold openDatabase.
  destruct (db_Open (all_families existing) disk') as [so o]. cbn in Hok. rewrite Hok.
  destruct (Hopen Hok) as (hs & d & -> & Hnames & Hndh & Hlive & Hfam). cbn [negb]. eexists. split; [done|]. rewrite <- Hdisk.
  split; [by eapply opened_represents|]. intros name m Hm. cbn. rewrite Hfam, Hm. by case_bool_decide.
Qed.

Lemma exec_faultless r a sp o : holds r a → ¬ fault (exec sp o r).1.
Proof.
  intros (c & h & r1 & Hspace & Hr & Hc & Hf)%(getSpace_run r a sp). unfold exec, in_space. rewrite (sm_bind_ok _ _ _ _ _ Hspace).
  pose proof (deref_column _ _ _ _ Hc) as Hd. unfold with_owner.
  destruct o as [k|k|k|k v|k|entries]; [..|rewrite (sm_bind_ok _ _ _ _ _ (fill_run c entries [] r1 h Hd))]; unfold_access Hd.
  1-3: pose proof (Get_ok (db_ r1) h k) as Hok; destruct (db_Get h k (db_ r1)) as [s v]; unfold ok, IsNotFound in *; cbn in Hok |- *;
       case_bool_decide; cbn; [by intros (s' & _ & _ & ?)|]; case_bool_decide as Hnf; cbn in Hok |- *; try done.
  - by intros (s' & _ & _ & ?).
  - intros (s' & Hs1 & Hs2 & Heq). unfold status_as_error in Heq. rewrite Hnf in Heq. by destruct (st_code s').
  - by intros (s' & _ & _ & ?).
  - pose proof (Put_ok (db_ r1) h k v) as Hok. destruct (db_Put h k v (db_ r1)) as [s d]. cbn in Hok |- *. unfold written, mbind, sm_bind. rewrite Hok. by intros (s' & _ & _ & ?).
  - pose proof (Delete_ok (db_ r1) h k) as Hok. destruct (db_Delete h k (db_ r1)) as [s d]. cbn in Hok |- *. unfold written, mbind, sm_bind. rewrite Hok. by intros (s' & _ & _ & ?).
  - set (b := [] ++ _). pose proof (Write_ok (db_ r1) b) as Hok. destruct (db_Write b (db_ r1)) as [s d]. cbn in Hok |- *. unfold written, mbind, sm_bind. rewrite Hok. by intros (s' & _ & _ & ?).
Qed.

Lemma exec_exact r a sp o :
  holds r a → ∃ r', exec sp o r = ((spec sp o a).1, r') ∧ holds r' (spec sp o a).2.
Proof.
  intros Hr. destruct (exec_step r a sp o Hr) as (res & r' & a' & Hrun & Hr' & [Hs|[Hfault _]]).
  - exists r'. by rewrite <- Hs.
  - destruct (exec_faultless r a sp o Hr). by rewrite Hrun.
Qed.

(** The value of a key, read from the families *)
Definition rocks_view (r : RocksDb) (sp : Space) (k : bytes) : option bytes :=
  families (db_ r) !! spaceName sp ≫= λ m, m !! k.
Lemma view_represents r a sp k : holds r a → rocks_view r sp k = a sp !! k.
Proof. intros Hr. destruct (rp_column _ _ Hr sp) as (c & h & _ & _ & Hf). unfold rocks_view. by rewrite Hf. Qed.

Definition rocks_wf (r : RocksDb) : Prop := ∃ a, holds r a.

(** An operation of the interface is the one of the language, with its answer injected. *)
Lemma in_space_answer {A} (f : A → answer) `{!Inj (=) (=) f} (m : nat → SM (option RocksDb) error A) sp (r r' : RocksDb) x :
  in_space sp (λ c, v ← m c; mret (f v)) r = (Ok (f x), r') → in_space sp m r = (Ok x, r').
Proof.
  unfold in_space, mbind, sm_bind, with_owner. destruct (RocksDb_getSpace sp r) as [[c|e|y] r1]; [|done|done].
  destruct (m c (Some r1)) as [[v|e|y] r2]; [|done|done]. cbn. by intros [= ->%(inj _) ->].
Qed.
Lemma exec_interface {A} (f : A → answer) `{!Inj (=) (=) f} (m : nat → SM (option RocksDb) error A) sp o r a x :
  holds r a → exec sp o = in_space sp (λ c, v ← m c; mret (f v)) → (spec sp o a).1 = Ok (f x) →
  ∃ r', in_space sp m r = (Ok x, r') ∧ rocks_wf r' ∧ ∀ sp' k', rocks_view r' sp' k' = (spec sp o a).2 sp' !! k'.
Proof.
  intros Hr He Hs. destruct (exec_exact r a sp o Hr) as (r' & Hrun & Hr'). rewrite He, Hs in Hrun.
  exists r'. split; [by eapply in_space_answer|]. split; [by exists (spec sp o a).2|]. intros. by apply view_represents.
Qed.

#[local] Instance unit_answer_inj : Inj (=) (=) (λ _ : (), AUnit).
Proof. by intros [] [] _. Qed.
#[local] Instance bool_answer_inj : Inj (=) (=) ABool.
Proof. by intros x y [= ->]. Qed.
#[local] Instance option_answer_inj : Inj (=) (=) AOption.
Proof. by intros x y [= ->]. Qed.

#[global] Program Instance RocksDb_laws : SpacedStorageLaws bytes RocksDb := {|
  ss_view := rocks_view;
  ss_wf := rocks_wf;
|}.
Next Obligation.
  intros r sp k [a Hr]. rewrite (view_represents r a) by done.
  destruct (exec_interface AOption (λ c, RocksDbSpace_tryGet c k) sp (OTryGet k) r a (a sp !! k) Hr eq_refl eq_refl) as (r' & Hrun & Hwf & Hv).
  exists r'. split_and!; [done|done|]. intros. by rewrite Hv, (view_represents r a).
Qed.
Next Obligation.
  intros r sp k [a Hr]. rewrite (view_represents r a) by done.
  destruct (exec_interface ABool (λ c, RocksDbSpace_contains c k) sp (OContains k) r a _ Hr eq_refl eq_refl) as (r' & Hrun & Hwf & Hv).
  exists r'. split_and!; [done|done|]. intros. by rewrite Hv, (view_represents r a).
Qed.
Next Obligation.
  intros r sp k v [a Hr].
  destruct (exec_interface (λ _ : (), AUnit) (λ c, RocksDbSpace_put c k v) sp (OPut k v) r a () Hr eq_refl eq_refl) as (r' & Hrun & Hwf & Hv).
  exists r'. split_and!; [done|done|]. intros sp' k'. rewrite Hv, (view_represents r a) by done. cbn. unfold set_column.
  destruct (decide (sp' = sp)) as [->|]; [|by rewrite decide_False by naive_solver].
  rewrite lookup_insert. repeat case_decide; naive_solver.
Qed.
Next Obligation.
  intros r sp k [a Hr].
  destruct (exec_interface (λ _ : (), AUnit) (λ c, RocksDbSpace_remove c k) sp (ORemove k) r a () Hr eq_refl eq_refl) as (r' & Hrun & Hwf & Hv).
  exists r'. split_and!; [done|done|]. intros sp' k'. rewrite Hv, (view_represents r a) by done. cbn. unfold set_column.
  destruct (decide (sp' = sp)) as [->|]; [|by rewrite decide_False by naive_solver].
  rewrite lookup_delete. repeat case_decide; naive_solver.
Qed.

(** What the spaces answer to a sequence of operations, and what they hold then *)
Fixpoint spec_all (ops : list (Space * op)) (a : Space → Column) : list (outcome error answer) * (Space → Column) :=
  match ops with
  | [] => ([], a)
  | (sp, o) :: ops =>
      let '(res, a) := spec sp o a in
      let '(rs, a) := spec_all ops a in
      (res :: rs, a)
  end.

Lemma exec_all_exact ops r a :
  holds r a → (exec_all ops r).1 = (spec_all ops a).1 ∧ holds (exec_all ops r).2 (spec_all ops a).2.
Proof.
  revert r a. induction ops as [|[sp o] ops IH]; intros r a Hr; cbn; [done|].
  destruct (exec_exact r a sp o Hr) as (r1 & -> & Hr1). destruct (spec sp o a) as [res a1]. cbn in *.
  destruct (IH r1 a1 Hr1) as [Hrs Hr']. destruct (exec_all ops r1), (spec_all ops a1). cbn in *. by subst.
Qed.

(** Closing and opening again *)
Lemma reopened r a : holds r a → ∃ r', RocksDb_new (destroy r) = Ok r' ∧ holds r' a.
Proof.
  intros Hr. destruct (RocksDb_new_opens (destroy r)) as (r' & Hnew & Hr' & _). exists r'. split; [done|].
  rewrite (destroy_families r a Hr) in Hr'. destruct Hr' as [Hcol Hnd Hlive]. constructor; [|done|done].
  intros sp. destruct (Hcol sp) as (c & h & Hc & Hs & Hf). exists c, h. split_and!; [done|done|].
  destruct (rp_column _ _ Hr sp) as (c1 & h1 & _ & _ & Ha). rewrite Hf. by rewrite Ha.
Qed.

(** The contents of a closed database *)
Definition stored (disk : Disk) : Space → Column := λ sp, default ∅ (disk_families disk !! spaceName sp).

(** C15: without faults of the device the database is a map for each space that survives being
    closed.  Any directory opens, also an empty one or one with families that the node does not
    know; reads, writes, removals and batches, in any order and over any spaces, answer as maps
    would; and when the database is closed and opened again every space holds what the operations
    left in it. *)
Theorem database_survives_restart disk ops :
  ∃ r r', RocksDb_new disk = Ok r ∧ (exec_all ops r).1 = (spec_all ops (stored disk)).1 ∧
    RocksDb_new (destroy (exec_all ops r).2) = Ok r' ∧ holds r' (spec_all ops (stored disk)).2.
Proof.
  destruct (RocksDb_new_opens disk) as (r & Hnew & Hr & _). destruct (exec_all_exact ops r _ Hr) as [Hrs Hr2].
  destruct (reopened _ _ Hr2) as (r' & Hnew' & Hr'). by exists r, r'.
Qed.

End refinement.

(** ** A database in memory *)
Module RocksEx.

Record ToyDb := mkToyDb { toy_families : Families; toy_live : gset (bytes * N) }.
Definition success : Status := mkStatus kOk false.
Definition toy_insert (h : bytes * N) (m : Column) (d : ToyDb) : ToyDb := mkToyDb (<[h.1 := m]> (toy_families d)) (toy_live d).
Definition toy_column (h : bytes * N) (d : ToyDb) : Column := default ∅ (toy_families d !! h.1).
Definition toy_fresh (d : ToyDb) : N := fresh (set_map snd (toy_live d) : gset N).
Definition toy_open (names : list bytes) (disk : Families) : ToyDb :=
  mkToyDb (list_to_map ((λ n, (n, default ∅ (disk !! n))) <$> names) ∪ disk) (list_to_set ((λ n, (n, 0)) <$> names)).

(** [creates]: whether a column family can be created *)
Definition toy_library (creates : bool) : RocksLibrary ToyDb (bytes * N) Families := {|
  live d h := bool_decide (h ∈ toy_live d);
  GetName := fst;
  db_Get h k d := match toy_column h d !! k with Some v => (success, v) | None => (mkStatus kNotFound false, []) end;
  db_Put h k v d := (success, toy_insert h (<[k := v]> (toy_column h d)) d);
  db_Delete h k d := (success, toy_insert h (delete k (toy_column h d)) d);
  db_Write b d := (success, mkToyDb (foldl (apply_entry fst) (toy_families d) b) (toy_live d));
  db_DropColumnFamily h d := (success, mkToyDb (delete h.1 (toy_families d)) (toy_live d));
  db_DestroyColumnFamilyHandle h d := (success, mkToyDb (toy_families d) (toy_live d ∖ {[h]}));
  db_CreateColumnFamily name d :=
    if creates then let h := (name, toy_fresh d) in (success, Some h, mkToyDb (<[name := ∅]> (toy_families d)) ({[h]} ∪ toy_live d))
    else (mkStatus kIOError false, None, d);
  db_GetProperty _ := None;
  ListColumnFamilies disk := (success, elements (dom disk));
  db_Open names disk := (success, Some ((λ n, (n, 0)) <$> names, toy_open names disk));
  db_delete d := toy_families d;
|}.
#[local] Instance ToyLibrary : RocksLibrary ToyDb (bytes * N) Families := toy_library true.

Lemma toy_open_families (names : list bytes) (disk : Families) (name : bytes) :
  NoDup names →
  toy_families (toy_open names disk) !! name = if bool_decide (name ∈ names) then Some (default ∅ (disk !! name)) else disk !! name.
Proof.
  intros Hnd. cbn. rewrite lookup_union. case_bool_decide as Hin.
  - rewrite (elem_of_list_to_map_1 _ name (default ∅ (disk !! name))); [by destruct (disk !! name)| |].
    + by rewrite <- list_fmap_compose, (list_fmap_ext _ id), list_fmap_id.
    + apply list_elem_of_fmap. by exists name.
  - rewrite (not_elem_of_list_to_map_1 _ name); [by rewrite (left_id _ _)|].
    by rewrite <- list_fmap_compose, (list_fmap_ext _ id), list_fmap_id.
Qed.

#[local] Instance toy_laws : RocksLaws ToyDb (bytes * N) Families.
Proof.
  refine {| families := toy_families; disk_families := id |}; cbn; unfold toy_insert, toy_column; intros.
  - match goal with H : _ !! _ = Some _ |- _ => rewrite H end. cbn. destruct (m !! k); by split.
  - match goal with H : _ !! _ = Some _ |- _ => rewrite H end. done.
  - match goal with H : _ !! _ = Some _ |- _ => rewrite H end. done.
  - done.
  - done.
  - split; [done|]. intros h'. rewrite !bool_decide_eq_true. set_solver.
  - eexists. split_and!; [done|done| | |done].
    + apply bool_decide_eq_false. intros Hin. apply (is_fresh (set_map snd (toy_live d) : gset N)).
      apply elem_of_map. eexists. split; [|exact Hin]. done.
    + intros h'. rewrite !bool_decide_eq_true. set_solver.
  - eexists _, _. split_and!; [done| | | |].
    + by rewrite <- list_fmap_compose, (list_fmap_ext _ id), list_fmap_id.
    + apply NoDup_fmap_2; [by intros x y [= ->]|done].
    + apply Forall_forall. intros h Hh. apply bool_decide_eq_true. cbn. by apply elem_of_list_to_set.
    + intros name. by apply toy_open_families.
  - done.
Defined.

#[local] Existing Instance InsertionOrder.
#[local] Instance toy_files : RocksFiles Families := {|
  fd_limit := Some 1024; fs_create_directories := Some; fs_create_directory_ok _ := true; fs_is_directory _ := true;
|}.

#[local] Instance toy_faultless : FaultFree ToyDb (bytes * N) Families.
Proof.
  constructor; cbn; try done.
  - intros d h k. destruct (toy_column h d !! k); by vm_compute.
  - intros disk. split_and!; [done|apply NoDup_elements|]. intros name. by rewrite elem_of_elements, elem_of_dom.
  - intros disk. split; [by eexists|]. by exists disk.
Qed.

(** A directory with a family of another program *)
Definition disk : Families := {[ chars "obsolete" := {[ [1] := [2] ]} ]}.
Definition ops : list (Space * op) :=
  [(Header, OPut [1] [10]); (Body, OCommit [([1], Some [11]); ([2], Some [12]); ([1], None)]);
   (Header, OGet [1]); (Body, OContains [1]); (StateSpace, OGet [1]); (Body, OTryGet [2])].

Lemma database_survives_restart_witness :
  ∃ r r' : RocksDb ToyDb (bytes * N), RocksDb_new disk = Ok r ∧
    (exec_all ops r).1 = [Ok AUnit; Ok AUnit; Ok (ABytes [10]); Ok (ABool false); Err (E_Storage NOT_FOUND); Ok (AOption (Some [12]))] ∧
    RocksDb_new (destroy (exec_all ops r).2) = Ok r' ∧ rocks_view r' Header [1] = Some [10].
Proof.
  destruct (database_survives_restart disk ops) as (r & r' & Hnew & Hrs & Hnew' & Hr'). exists r, r'.
  split; [exact Hnew|]. split; [rewrite Hrs; vm_compute; reflexivity|]. split; [exact Hnew'|].
  rewrite (view_represents r' _ _ _ Hr'). vm_compute. reflexivity.
Defined.

(** When the new column cannot be created the vector keeps a destroyed handle: the next use of
    the space is undefined. *)
Definition drop_without_creation : outcome error () * outcome error (option bytes) :=
  let lib := toy_library false in
  match @RocksDb_new _ _ _ lib _ _ disk with
  | Ok r => let '(x, r) := @dropColumn _ _ _ lib Header r in (x, (@RocksDbSpace_tryGet _ _ _ lib 2 [1] (Some r)).1)
  | _ => (Ok (), Ok None)
  end.
Lemma failed_drop_leaves_dangling_handle : drop_without_creation = (Throw ErrorEnumThrown, Throw UndefinedBehaviour).
Proof. vm_compute. reflexivity. Qed.

(** A batch reads the reference to its column without locking the owner. *)
Lemma batch_after_owner_is_gone :
  RocksDbBatch_put (D := ToyDb) 0 [1] [2] [] None = (Throw UndefinedBehaviour, None).
Proof. done. Qed.
End RocksEx.
