(* ===== verification/Cursor.v ===== *)
(** * Cursors (src/src/storage/face/map_cursor.hpp, in_memory/cursor.hpp,
    rocksdb/rocksdb_cursor.cpp, blockchain/block_storage.hpp)

    Walking through the keys of a space in their order.  The in-memory store orders its keys
    by their hexadecimal form, which is the order of the bytes. *)

From Stdlib Require Import String.
From S2P Require Import Prelude Errors Types Storage Parsers RocksDb RocksDbTheorems.

(** ** The order of keys *)

Fixpoint bytes_ltb (a b : bytes) : bool :=
  match a, b with
  | [], _ :: _ => true
  | x :: a, y :: b => (x <? y) || ((x =? y) && bytes_ltb a b)
  | _, _ => false
  end.
Definition bytes_lt (a b : bytes) : Prop := bytes_ltb a b = true.
#[global] Instance bytes_lt_dec a b : Decision (bytes_lt a b).
Proof. unfold bytes_lt. apply _. Defined.

Lemma bytes_lt_irrefl a : ¬ bytes_lt a a.
Proof. unfold bytes_lt. induction a as [|x a IH]; [done|]. cbn. by rewrite N.ltb_irrefl, N.eqb_refl. Qed.
Lemma bytes_lt_trans a b c : bytes_lt a b → bytes_lt b c → bytes_lt a c.
Proof.
  unfold bytes_lt. revert b c. induction a as [|x a IH]; intros [|y b] [|z c]; cbn; try done.
  rewrite !orb_true_iff, !andb_true_iff, !N.ltb_lt, !N.eqb_eq. intros [?|[-> ?]] [?|[-> ?]]; [left; lia|by left|by left|].
  right. split; [done|by eapply IH].
Qed.
Lemma bytes_lt_total a b : bytes_lt a b ∨ a = b ∨ bytes_lt b a.
Proof.
  unfold bytes_lt. revert b. induction a as [|x a IH]; intros [|y b]; cbn; try tauto.
  rewrite !orb_true_iff, !andb_true_iff, !N.ltb_lt, !N.eqb_eq.
  destruct (N.lt_total x y) as [?|[->|?]]; [tauto| |tauto]. destruct (IH b) as [?|[->|?]]; tauto.
Qed.
Lemma bytes_lt_asym a b : bytes_lt a b → ¬ bytes_lt b a.
Proof. intros H1 H2. eapply bytes_lt_irrefl, bytes_lt_trans; [exact H1|exact H2]. Qed.
#[global] Hint Resolve bytes_lt_irrefl : core.

(** The least and the greatest key of a map that satisfies a predicate *)
Definition is_least (m : Column) (P : bytes → Prop) (o : option bytes) : Prop :=
  match o with
  | None => ∀ k, k ∈ dom m → ¬ P k
  | Some k => k ∈ dom m ∧ P k ∧ ∀ k', k' ∈ dom m → P k' → ¬ bytes_lt k' k
  end.
Definition is_greatest (m : Column) (P : bytes → Prop) (o : option bytes) : Prop :=
  match o with
  | None => ∀ k, k ∈ dom m → ¬ P k
  | Some k => k ∈ dom m ∧ P k ∧ ∀ k', k' ∈ dom m → P k' → ¬ bytes_lt k k'
  end.

(** ** The interface *)

Class MapCursor (C : Type) := {
  seekFirst : SM C error bool;
  seek : bytes → SM C error bool;
  seekLast : SM C error bool;
  isValid : C → bool;
  next : SM C error ();
  prev : SM C error ();
  key : C → option bytes;
  value : C → option bytes;
}.

(** [stands c m o]: [c] walks over [m] and points to the key [o], if any. *)
Class MapCursorLaws (C : Type) `{MapCursor C} := {
  stands : C → Column → option bytes → Prop;
  stands_at c m o : stands c m o →
    isValid c = bool_decide (is_Some o) ∧ key c = o ∧ value c = (o ≫= λ k, m !! k) ∧ (∀ k, o = Some k → k ∈ dom m);
  seekFirst_law c m o : stands c m o →
    ∃ o' c', seekFirst c = (Ok (bool_decide (is_Some o')), c') ∧ stands c' m o' ∧ is_least m (λ _, True) o';
  seek_law c m o k : stands c m o →
    ∃ o' c', seek k c = (Ok (bool_decide (is_Some o')), c') ∧ stands c' m o' ∧ is_least m (λ x, ¬ bytes_lt x k) o';
  seekLast_law c m o : stands c m o →
    ∃ o' c', seekLast c = (Ok (bool_decide (is_Some o')), c') ∧ stands c' m o' ∧ is_greatest m (λ _, True) o';
  next_law c m k : stands c m (Some k) →
    ∃ o' c', next c = (Ok (), c') ∧ stands c' m o' ∧ is_least m (λ x, bytes_lt k x) o';
  prev_law c m k : stands c m (Some k) →
    ∃ o' c', prev c = (Ok (), c') ∧ stands c' m o' ∧ is_greatest m (λ x, bytes_lt x k) o';
}.

Section generic.
Context {C : Type} `{MapCursor C}.

(** MapCursor::seekReverse *)
Definition seekReverse (prefix : bytes) : SM C error bool :=
  found ← seek prefix;
  if negb (found : bool) then seekLast
  else
    c ← sm_get;
    k ← sm_lift (of_option UndefinedBehaviour (key c));
    if bytes_ltb prefix k then prev ≫= λ _, c ← sm_get; mret (isValid c)
    else mret true.

(** BlockStorage::SlotIterator: a cursor over the slots; [decode_slot] and [decode_hashes] are
    decode().value(). *)
Definition SlotIterator_create : SM C error () := seekLast ≫= λ _, mret ().
Definition SlotIterator_incr : SM C error () := sm_try next ≫= λ _, mret ().
Definition SlotIterator_decr : SM C error () := sm_try prev ≫= λ _, mret ().
Definition SlotIterator_slot (decode_slot : bytes → result N) (c : C) : result N :=
  k ← of_option BadOptionalAccess (key c); decode_slot k.
Definition SlotIterator_hashes (decode_hashes : bytes → result (list BlockHash)) (c : C) : result (list BlockHash) :=
  v ← of_option BadOptionalAccess (value c); decode_hashes v.

(** The loop of the initializer that visits every record, last first; it prints the slots, the
    keys are collected here. *)
Fixpoint walk_back (fuel : nat) (visited : list bytes) : SM C error (list bytes) :=
  c ← sm_get;
  if negb (isValid c) then mret visited
  else match fuel with
  | O => sm_throw OutOfFuel
  | S fuel => SlotIterator_decr ≫= λ _, walk_back fuel (visited ++ option_list (key c))
  end.
End generic.

(** ** InMemoryCursor: the store it refers to, and a copy of the entry it points to *)

(** The keys in order; std::map::begin, lower_bound, upper_bound and std::prev as keys, [None]
    for end *)
Definition pick (better : bytes → bytes → bool) (l : list bytes) : option bytes :=
  foldr (λ k o, match o with Some k' => if better k' k then o else Some k | None => Some k end) None l.
Definition least (P : bytes → bool) (m : Column) : option bytes := pick bytes_ltb (filter P (elements (dom m))).
Definition greatest (P : bytes → bool) (m : Column) : option bytes := pick (λ a b, bytes_ltb b a) (filter P (elements (dom m))).

Definition map_begin (m : Column) : option bytes := least (λ _, true) m.
Definition lower_bound (k : bytes) (m : Column) : option bytes := least (λ x, negb (bytes_ltb x k)) m.
Definition upper_bound (k : bytes) (m : Column) : option bytes := least (λ x, bytes_ltb k x) m.
Definition std_prev (it : option bytes) (m : Column) : option bytes :=
  match it with None => greatest (λ _, true) m | Some k => greatest (λ x, bytes_ltb x k) m end.

Record InMemoryCursor := mkInMemoryCursor { cu_db : Column; cu_kv : option (bytes * bytes) }.
Definition cu_isValid (c : InMemoryCursor) : bool := bool_decide (is_Some (cu_kv c)).

Definition cu_seek (it : option bytes) : SM InMemoryCursor error bool := λ c,
  let c' := mkInMemoryCursor (cu_db c) (k ← it; v ← cu_db c !! k; Some (k, v)) in
  (Ok (cu_isValid c'), c').

(** kv-> of an empty optional is undefined. *)
Definition cu_current : SM InMemoryCursor error bytes := λ c,
  match cu_kv c with Some (k, _) => (Ok k, c) | None => (Throw UndefinedBehaviour, c) end.

Definition InMemoryCursor_seekFirst : SM InMemoryCursor error bool :=
  c ← sm_get; cu_seek (map_begin (cu_db c)).
Definition InMemoryCursor_seek (k : bytes) : SM InMemoryCursor error bool :=
  c ← sm_get; cu_seek (lower_bound k (cu_db c)).
Definition InMemoryCursor_seekLast : SM InMemoryCursor error bool :=
  c ← sm_get; cu_seek (if bool_decide (cu_db c = ∅) then None else std_prev None (cu_db c)).
Definition InMemoryCursor_next : SM InMemoryCursor error () :=
  k ← cu_current; c ← sm_get; cu_seek (upper_bound k (cu_db c)) ≫= λ _, mret ().
Definition InMemoryCursor_prev : SM InMemoryCursor error () :=
  k ← cu_current; c ← sm_get;
  let it := lower_bound k (cu_db c) in
  cu_seek (if bool_decide (it = map_begin (cu_db c)) then None else std_prev it (cu_db c)) ≫= λ _, mret ().

#[global] Instance InMemoryCursor_cursor : MapCursor InMemoryCursor := {|
  seekFirst := InMemoryCursor_seekFirst; seek := InMemoryCursor_seek; seekLast := InMemoryCursor_seekLast;
  isValid := cu_isValid; next := InMemoryCursor_next; prev := InMemoryCursor_prev;
  key c := fst <$> cu_kv c; value c := snd <$> cu_kv c;
|}.

(** ** RocksDBCursor: an iterator of the library; Next and Prev require that it is valid. *)

Class RocksIterator (It : Type) := {
  it_SeekToFirst : It → It;
  it_Seek : bytes → It → It;
  it_SeekToLast : It → It;
  it_Next : It → It;
  it_Prev : It → It;
  it_Valid : It → bool;
  it_key : It → bytes;
  it_value : It → bytes;
}.

Section rocksdb_cursor.
Context {It : Type} `{RocksIterator It}.

(** i_ moves, then its validity is the result. *)
Definition moved (f : It → It) : SM It error bool := sm_modify f ≫= λ _, i ← sm_get; mret (it_Valid i).
Definition RocksDBCursor_seekFirst : SM It error bool := moved it_SeekToFirst.
Definition RocksDBCursor_seek (k : bytes) : SM It error bool := moved (it_Seek k).
Definition RocksDBCursor_seekLast : SM It error bool := moved it_SeekToLast.
Definition RocksDBCursor_next : SM It error () :=
  i ← sm_get; if it_Valid i then sm_put (it_Next i) else sm_throw UndefinedBehaviour.
Definition RocksDBCursor_prev : SM It error () :=
  i ← sm_get; if it_Valid i then sm_put (it_Prev i) else sm_throw UndefinedBehaviour.
Definition RocksDBCursor_key (i : It) : option bytes := if it_Valid i then Some (it_key i) else None.
Definition RocksDBCursor_value (i : It) : option bytes := if it_Valid i then Some (it_value i) else None.

#[global] Instance RocksDBCursor_cursor : MapCursor It := {|
  seekFirst := RocksDBCursor_seekFirst; seek := RocksDBCursor_seek; seekLast := RocksDBCursor_seekLast;
  isValid := it_Valid; next := RocksDBCursor_next; prev := RocksDBCursor_prev;
  key := RocksDBCursor_key; value := RocksDBCursor_value;
|}.
End rocksdb_cursor.

(** RocksDbSpace::cursor: throws when the owner is gone. *)
Definition RocksDbSpace_cursor {D Handle Disk It : Type} `{RocksLibrary D Handle Disk} (NewIterator : Handle → D → It)
    (column : nat) : SM (option (RocksDb D Handle)) error It :=
  rocks ← sm_get;
  match rocks with
  | None => sm_throw ErrorEnumThrown
  | Some r => h ← sm_lift (deref column r); mret (NewIterator h (db_ r))
  end.

(** RocksDbSpace::compact: the range that is compacted, [None] when the owner is gone; the key of
    an iterator that is not valid is undefined. *)
Definition RocksDbSpace_compact {D Handle Disk It : Type} `{RocksLibrary D Handle Disk} `{RocksIterator It}
    (NewIterator : Handle → D → It) (column : nat) (first last : bytes)
    : SM (option (RocksDb D Handle)) error (option (bytes * bytes)) :=
  rocks ← sm_get;
  match rocks with
  | None => mret None
  | Some r =>
      h ← sm_lift (deref column r);
      let at_key (i : It) : result bytes := if it_Valid i then Ok (it_key i) else Throw UndefinedBehaviour in
      let i := NewIterator h (db_ r) in
      bk ← sm_lift (at_key (match first with [] => it_SeekToFirst i | _ => it_Seek first i end));
      ek ← sm_lift (at_key (match last with [] => it_SeekToLast i | _ => it_Seek last i end));
      mret (Some (bk, ek))
  end.

(** * Cursors: both implementations, the reverse search and the backward walk *)

(** ** Least and greatest keys *)

Lemma pick_spec (better : bytes → bytes → bool) (l : list bytes) :
  (∀ a b c, better a b = true → better b c = true → better a c = true) →
  (∀ a b, better a b = true ∨ a = b ∨ better b a = true) → (∀ a, better a a = false) →
  match pick better l with
  | None => l = []
  | Some k => k ∈ l ∧ ∀ k', k' ∈ l → better k' k = false
  end.
Proof.
  intros Htrans Htotal Hirr. induction l as [|k l IH]; [done|]. unfold pick in *. cbn. destruct (foldr _ None l) as [k'|].
  - destruct IH as [Hin Hbest]. destruct (better k' k) eqn:Hb.
    + split; [by right|]. intros x [->|Hx]%elem_of_cons; [|by apply Hbest].
      destruct (better k k') eqn:E; [|done]. by rewrite <- (Hirr k), (Htrans k k' k).
    + split; [by left|]. intros x [->|Hx]%elem_of_cons; [apply Hirr|]. destruct (better x k) eqn:E; [|done].
      destruct (Htotal k' k) as [?|[->|Hk]]; [congruence| |]; rewrite <- (Hbest x Hx); [done|symmetry; by eapply Htrans].
  - subst l. split; [by left|]. intros x ->%list_elem_of_singleton. apply Hirr.
Qed.

Lemma bytes_ltb_false a : bytes_ltb a a = false.
Proof. apply not_true_is_false, bytes_lt_irrefl. Qed.

Section bounds.
Context (m : Column) (P : bytes → bool).
Lemma in_candidates k : k ∈ filter P (elements (dom m)) ↔ k ∈ dom m ∧ P k = true.
Proof. rewrite list_elem_of_filter, elem_of_elements. rewrite Is_true_true. tauto. Qed.

Lemma least_spec : is_least m (λ k, P k = true) (least P m).
Proof.
  pose proof (pick_spec bytes_ltb (filter P (elements (dom m))) bytes_lt_trans bytes_lt_total bytes_ltb_false) as Hp.
  unfold least, is_least. destruct (pick _ _) as [k|].
  - destruct Hp as [[Hin Hk]%in_candidates Hbest]. split_and!; [done..|]. intros k' Hin' Hk' Hlt. unfold bytes_lt in Hlt.
    rewrite Hbest in Hlt; [done|]. by apply in_candidates.
  - intros k Hin Hk. apply (not_elem_of_nil k). rewrite <- Hp. by apply in_candidates.
Qed.

Lemma greatest_spec : is_greatest m (λ k, P k = true) (greatest P m).
Proof.
  assert (Htrans : ∀ a b c, bytes_ltb b a = true → bytes_ltb c b = true → bytes_ltb c a = true) by (intros a b c ? ?; by apply (bytes_lt_trans c b a)).
  assert (Htotal : ∀ a b, bytes_ltb b a = true ∨ a = b ∨ bytes_ltb a b = true) by (intros a b; destruct (bytes_lt_total a b) as [?|[?|?]]; auto).
  pose proof (pick_spec (λ a b, bytes_ltb b a) (filter P (elements (dom m))) Htrans Htotal bytes_ltb_false) as Hp.
  unfold greatest, is_greatest. destruct (pick _ _) as [k|].
  - destruct Hp as [[Hin Hk]%in_candidates Hbest]. split_and!; [done..|]. intros k' Hin' Hk' Hlt. unfold bytes_lt in Hlt.
    rewrite Hbest in Hlt; [done|]. by apply in_candidates.
  - intros k Hin Hk. apply (not_elem_of_nil k). rewrite <- Hp. by apply in_candidates.
Qed.
End bounds.

Lemma is_least_ext m (P Q : bytes → Prop) o : (∀ k, P k ↔ Q k) → is_least m P o → is_least m Q o.
Proof. intros Heq. destruct o as [k|]; cbn; [intros (? & ? & Hb)|intros Hb]; [split_and!; [done|by apply Heq|]|]; intros k' Hk' Hq%Heq; by eapply Hb. Qed.
Lemma is_greatest_ext m (P Q : bytes → Prop) o : (∀ k, P k ↔ Q k) → is_greatest m P o → is_greatest m Q o.
Proof. intros Heq. destruct o as [k|]; cbn; [intros (? & ? & Hb)|intros Hb]; [split_and!; [done|by apply Heq|]|]; intros k' Hk' Hq%Heq; by eapply Hb. Qed.

Lemma is_least_unique m P o o' : is_least m P o → is_least m P o' → o = o'.
Proof.
  destruct o as [k|], o' as [k'|]; cbn; [| |..|done].
  - intros (Hin & Hk & Hb) (Hin' & Hk' & Hb'). destruct (bytes_lt_total k k') as [Hlt|[->|Hlt]]; [|done|]; exfalso; naive_solver.
  - intros (Hin & Hk & _) Hn. by destruct (Hn k).
  - intros Hn (Hin & Hk & _). by destruct (Hn k').
Qed.

(** ** The in-memory cursor *)

Definition im_stands (c : InMemoryCursor) (m : Column) (o : option bytes) : Prop :=
  cu_db c = m ∧ cu_kv c = (k ← o; v ← m !! k; Some (k, v)) ∧ ∀ k, o = Some k → k ∈ dom m.

Lemma cu_seek_run (c : InMemoryCursor) (m : Column) (it : option bytes) :
  cu_db c = m → (∀ k, it = Some k → k ∈ dom m) →
  ∃ c', cu_seek it c = (Ok (bool_decide (is_Some it)), c') ∧ im_stands c' m it.
Proof.
  intros <- Hin. exists (mkInMemoryCursor (cu_db c) (k ← it; v ← cu_db c !! k; Some (k, v))).
  split; [|by split_and!]. unfold cu_seek, cu_isValid. cbn. f_equal. f_equal.
  destruct it as [k|]; [|done]. destruct (elem_of_dom (cu_db c) k) as [Hd _]. destruct (Hd (Hin k eq_refl)) as [v Hv]. cbn. by rewrite Hv.
Qed.

Lemma is_least_in m P o k : is_least m P o → o = Some k → k ∈ dom m.
Proof. intros Hl ->. apply Hl. Qed.
Lemma is_greatest_in m P o k : is_greatest m P o → o = Some k → k ∈ dom m.
Proof. intros Hl ->. apply Hl. Qed.
#[local] Hint Resolve is_least_in is_greatest_in : core.

Lemma ltb_negb a b : negb (bytes_ltb a b) = true ↔ ¬ bytes_lt a b.
Proof. unfold bytes_lt. by destruct (bytes_ltb a b). Qed.

Lemma lower_bound_self (m : Column) (k : bytes) : k ∈ dom m → lower_bound k m = Some k.
Proof.
  intros Hin. eapply is_least_unique; [apply least_spec|]. split_and!; [done|by apply ltb_negb|]. intros k' _ Hk'. by apply ltb_negb.
Qed.

(** A call of cu_seek under a bind *)
Ltac run_seek it Hin :=
  edestruct (cu_seek_run _ _ it eq_refl Hin) as (c' & Hrun & Hst);
  exists it, c'; split; [first [exact Hrun | exact (sm_bind_ok (cu_seek it) (λ _, mret ()) _ _ _ Hrun)]|]; split; [exact Hst|].

#[global] Program Instance InMemoryCursor_laws : MapCursorLaws InMemoryCursor := {| stands := im_stands |}.
Next Obligation.
  intros c m o (<- & Hkv & Hin). cbn. unfold cu_isValid. rewrite Hkv. destruct o as [k|]; [|done]. cbn.
  destruct (proj1 (elem_of_dom _ _) (Hin k eq_refl)) as [v Hv]. rewrite Hv. done.
Qed.
Next Obligation.
  intros c m o (<- & _). pose proof (least_spec (cu_db c) (λ _, true)) as Hl. cbn. unfold InMemoryCursor_seekFirst.
  run_seek (map_begin (cu_db c)) (λ k, is_least_in _ _ _ k Hl). by eapply is_least_ext, Hl.
Qed.
Next Obligation.
  intros c m o k (<- & _). pose proof (least_spec (cu_db c) (λ x, negb (bytes_ltb x k))) as Hl. cbn. unfold InMemoryCursor_seek.
  run_seek (lower_bound k (cu_db c)) (λ k, is_least_in _ _ _ k Hl). eapply is_least_ext, Hl. intros x. apply ltb_negb.
Qed.
Next Obligation.
  intros c m o (<- & _). cbn. unfold InMemoryCursor_seekLast.
  assert (Hg : is_greatest (cu_db c) (λ _, True) (if bool_decide (cu_db c = ∅) then None else std_prev None (cu_db c))).
  { case_bool_decide as He; [rewrite He; cbn; set_solver|]. eapply is_greatest_ext, greatest_spec. done. }
  run_seek (if bool_decide (cu_db c = ∅) then None else std_prev None (cu_db c)) (λ k, is_greatest_in _ _ _ k Hg). exact Hg.
Qed.
Next Obligation.
  intros c m k (<- & Hkv & Hin). cbn. unfold InMemoryCursor_next, cu_current, mbind at 1, sm_bind at 1.
  destruct (proj1 (elem_of_dom _ _) (Hin k eq_refl)) as [v Hv]. cbn in Hkv. rewrite Hv in Hkv. cbn in Hkv. rewrite Hkv.
  pose proof (least_spec (cu_db c) (λ x, bytes_ltb k x)) as Hl.
  run_seek (upper_bound k (cu_db c)) (λ k, is_least_in _ _ _ k Hl). exact Hl.
Qed.
Next Obligation.
  intros c m k (<- & Hkv & Hin). cbn. unfold InMemoryCursor_prev, cu_current, mbind at 1, sm_bind at 1.
  destruct (proj1 (elem_of_dom _ _) (Hin k eq_refl)) as [v Hv]. cbn in Hkv. rewrite Hv in Hkv. cbn in Hkv. rewrite Hkv.
  set (it := if bool_decide (lower_bound k (cu_db c) = map_begin (cu_db c)) then None else std_prev (lower_bound k (cu_db c)) (cu_db c)).
  assert (Hg : is_greatest (cu_db c) (λ x, bytes_lt x k) it).
  { unfold it. rewrite lower_bound_self by (by apply Hin). case_bool_decide as Hb; [|apply greatest_spec].
    intros x Hx Hlt. pose proof (least_spec (cu_db c) (λ _, true)) as Hl. fold (map_begin (cu_db c)) in Hl. rewrite <- Hb in Hl.
    destruct Hl as (_ & _ & Hl). by apply (Hl x). }
  run_seek it (λ k, is_greatest_in _ _ _ k Hg). exact Hg.
Qed.

(** ** The cursor of the database *)

(** What the library documents of its iterators, over the contents when they were made *)
Class RocksIteratorLaws (It : Type) `{RocksIterator It} := {
  it_stands : It → Column → option bytes → Prop;
  it_stands_at i m o : it_stands i m o →
    it_Valid i = bool_decide (is_Some o) ∧ ∀ k, o = Some k → it_key i = k ∧ m !! k = Some (it_value i);
  SeekToFirst_law i m o : it_stands i m o → ∃ o', it_stands (it_SeekToFirst i) m o' ∧ is_least m (λ _, True) o';
  Seek_law i m o k : it_stands i m o → ∃ o', it_stands (it_Seek k i) m o' ∧ is_least m (λ x, ¬ bytes_lt x k) o';
  SeekToLast_law i m o : it_stands i m o → ∃ o', it_stands (it_SeekToLast i) m o' ∧ is_greatest m (λ _, True) o';
  Next_law i m k : it_stands i m (Some k) → ∃ o', it_stands (it_Next i) m o' ∧ is_least m (λ x, bytes_lt k x) o';
  Prev_law i m k : it_stands i m (Some k) → ∃ o', it_stands (it_Prev i) m o' ∧ is_greatest m (λ x, bytes_lt x k) o';
}.

Section rocksdb_laws.
Context {It : Type} `{RocksIteratorLaws It}.

Lemma moved_run f (i : It) m o : it_stands (f i) m o → moved f i = (Ok (bool_decide (is_Some o)), f i).
Proof. intros [Hv _]%it_stands_at. unfold moved, mbind, sm_bind, sm_modify, sm_get. cbn. by rewrite Hv. Qed.

#[global] Program Instance RocksDBCursor_laws : MapCursorLaws It := {| stands := it_stands |}.
Next Obligation.
  intros i m o Hst. destruct (it_stands_at i m o Hst) as [Hv Hk]. cbn. unfold RocksDBCursor_key, RocksDBCursor_value. rewrite Hv.
  destruct o as [k|]; [|done]. destruct (Hk k eq_refl) as [-> Hm]. cbn. split_and!; try done. intros k' [= <-]. by apply elem_of_dom.
Qed.
Next Obligation. intros i m o (o' & Hst & Hl)%SeekToFirst_law. eexists o', _. split; [by apply (moved_run _ _ m)|done]. Qed.
Next Obligation. intros i m o k (o' & Hst & Hl)%(Seek_law _ _ _ k). eexists o', _. split; [by apply (moved_run _ _ m)|done]. Qed.
Next Obligation. intros i m o (o' & Hst & Hl)%SeekToLast_law. eexists o', _. split; [by apply (moved_run _ _ m)|done]. Qed.
Next Obligation.
  intros i m k Hst. destruct (it_stands_at _ _ _ Hst) as [Hv _]. destruct (Next_law _ _ _ Hst) as (o' & Hst' & Hl).
  exists o', (it_Next i). split; [|done]. cbn. unfold RocksDBCursor_next, mbind, sm_bind, sm_get. by rewrite Hv.
Qed.
Next Obligation.
  intros i m k Hst. destruct (it_stands_at _ _ _ Hst) as [Hv _]. destruct (Prev_law _ _ _ Hst) as (o' & Hst' & Hl).
  exists o', (it_Prev i). split; [|done]. cbn. unfold RocksDBCursor_prev, mbind, sm_bind, sm_get. by rewrite Hv.
Qed.
End rocksdb_laws.

(** ** Any cursor *)

Section generic.
Context {C : Type} `{MapCursorLaws C}.

(** seekReverse stands at the greatest key that is not above the prefix. *)
Lemma seekReverse_correct (c : C) (m : Column) (o : option bytes) (prefix : bytes) :
  stands c m o → ∃ o' c', seekReverse prefix c = (Ok (bool_decide (is_Some o')), c') ∧ stands c' m o' ∧
    is_greatest m (λ x, ¬ bytes_lt prefix x) o'.
Proof.
  intros (o1 & c1 & Hseek & Hst1 & Hl)%(seek_law _ _ _ prefix). unfold seekReverse. rewrite (sm_bind_ok _ _ _ _ _ Hseek).
  destruct o1 as [k|]; cbn [negb].
  - rewrite bool_decide_true by done. cbn [negb]. destruct (stands_at _ _ _ Hst1) as (_ & Hk & _ & _). destruct Hl as (Hin & Hge & Hleast).
    rewrite (sm_bind_ok sm_get _ c1 c1 c1 eq_refl), (sm_bind_ok _ _ _ k c1) by (unfold sm_lift; by rewrite Hk).
    destruct (bytes_ltb prefix k) eqn:Hlt.
    + destruct (prev_law _ _ _ Hst1) as (o' & c2 & Hprev & Hst2 & Hg). rewrite (sm_bind_ok _ _ _ _ _ Hprev).
      exists o', c2. destruct (stands_at _ _ _ Hst2) as (Hv & _). split; [unfold mbind, sm_bind, sm_get; cbn; by rewrite Hv|]. split; [done|].
      assert (Heq : ∀ x, x ∈ dom m → bytes_lt x k ↔ ¬ bytes_lt prefix x).
      { intros x Hx. split.
        - intros Hxk Hpx. apply (Hleast x Hx); [|done]. by apply bytes_lt_asym.
        - intros Hnp. destruct (bytes_lt_total x prefix) as [Hxp|[->|?]]; [by eapply bytes_lt_trans|done|done]. }
      destruct o' as [k'|]; cbn in Hg |- *.
      * destruct Hg as (Hin' & Hk' & Hb). split_and!; [done|by apply Heq|]. intros x Hx Hnp. apply Hb; [done|by apply Heq].
      * intros x Hx. rewrite <- Heq by done. by apply Hg.
    + exists (Some k), c1. split; [done|]. split; [done|]. split_and!; [done|unfold bytes_lt; by rewrite Hlt|].
      intros x Hx Hnp Hkx. apply Hnp. destruct (bytes_lt_total k prefix) as [?|[<-|?]]; [done|done|]. by eapply bytes_lt_trans.
  - rewrite bool_decide_false by (by intros []). cbn [negb]. destruct (seekLast_law _ _ _ Hst1) as (o' & c2 & Hlast & Hst2 & Hg).
    exists o', c2. split_and!; [done|done|]. assert (Hall : ∀ x, x ∈ dom m → ¬ bytes_lt prefix x).
    { intros x Hx Hpx. apply (Hl x Hx). by apply bytes_lt_asym. }
    destruct o' as [k|]; cbn in Hg |- *; [|intros x Hx _; by apply (Hg x)].
    destruct Hg as (Hin & _ & Hb). split_and!; [done|by apply Hall|]. intros x Hx _. by apply Hb.
Qed.

(** The keys from the current one down *)
Definition from (m : Column) (o : option bytes) : gset bytes :=
  match o with None => ∅ | Some k => filter (λ x, ¬ bytes_lt k x) (dom m) end.

Lemma from_step (m : Column) (k : bytes) (o : option bytes) : k ∈ dom m → is_greatest m (λ x, bytes_lt x k) o → from m (Some k) = {[k]} ∪ from m o ∧ ∀ x, x ∈ from m o → bytes_lt x k.
Proof.
  intros Hin Hg. assert (Ho : ∀ x, x ∈ from m o ↔ x ∈ dom m ∧ bytes_lt x k).
  { intros x. destruct o as [k'|]; cbn in *.
    - destruct Hg as (Hin' & Hk' & Hb). rewrite elem_of_filter. split.
      + intros [Hx ?]. split; [done|]. destruct (bytes_lt_total x k') as [?|[->|?]]; [by eapply bytes_lt_trans|done|done].
      + intros [? Hx]. split; [|done]. by apply Hb.
    - split; [set_solver|]. intros [Hx Hlt]. by destruct (Hg x). }
  split; [|intros x [_ ?]%Ho; done]. apply set_eq. intros x. rewrite elem_of_union, elem_of_singleton, Ho. cbn. rewrite elem_of_filter.
  split; [intros [Hx ?]; destruct (bytes_lt_total x k) as [?|[->|?]]; [by right|by left|done]|].
  intros [->|[? ?]]; [by split|]. split; [by apply bytes_lt_asym|done].
Qed.

Lemma walk_back_run (fuel : nat) (c : C) (m : Column) (o : option bytes) (visited : list bytes) :
  stands c m o → (size (from m o) ≤ fuel)%nat →
  ∃ l c', walk_back fuel visited c = (Ok (visited ++ l), c') ∧ l ≡ₚ elements (from m o) ∧ StronglySorted (λ a b, bytes_lt b a) l.
Proof.
  revert c o visited. induction fuel as [|fuel IH]; intros c o visited Hst Hsize; destruct (stands_at _ _ _ Hst) as (Hv & Hk & _ & Hin);
    cbn [walk_back]; rewrite (sm_bind_ok sm_get _ c c c eq_refl), Hv, ?Hk; destruct o as [k|].
  1: { exfalso. assert (Hk' : k ∈ from m (Some k)) by (cbn; rewrite elem_of_filter; split; [done|by apply Hin]).
       assert (from m (Some k) = ∅) by (apply leibniz_equiv, size_empty_inv; lia). set_solver. }
  1, 3: exists [], c; change (negb (bool_decide (is_Some None))) with true; cbn; rewrite app_nil_r, elements_empty; split_and!; [done|done|apply SSorted_nil].
  change (negb (bool_decide (is_Some (Some k)))) with false; change (option_list (Some k)) with [k]; cbn [negb].
  destruct (prev_law _ _ _ Hst) as (o' & c' & Hprev & Hst' & Hg). destruct (from_step m k o' (Hin k eq_refl) Hg) as [Hfrom Hlt].
  assert (Hni : k ∉ from m o') by (intros ?%Hlt; by eapply bytes_lt_irrefl).
  rewrite (sm_bind_ok SlotIterator_decr _ c () c') by (unfold SlotIterator_decr, mbind, sm_bind, sm_try; by rewrite Hprev).
  destruct (IH c' o' (visited ++ [k]) Hst') as (l & c2 & Hrun & Hperm & Hsorted).
  { rewrite Hfrom, size_union, size_singleton in Hsize by set_solver. lia. }
  exists (k :: l), c2. split_and!; [by rewrite Hrun, <- app_assoc| |].
  - rewrite Hfrom, elements_union_singleton by done. by rewrite Hperm.
  - constructor; [done|]. apply Forall_forall. intros x Hx. apply Hlt. rewrite Hperm, elem_of_elements in Hx. done.
Qed.

(** The walk over the slot index ends and misses nothing: with either cursor, from the last
    record backwards, it visits every key once, in descending order, in as many steps as there
    are records. *)
Theorem walk_back_visits_all (c : C) (m : Column) (o : option bytes) :
  stands c m o →
  ∃ visited c', (SlotIterator_create ≫= λ _, walk_back (size m) []) c = (Ok visited, c') ∧
    visited ≡ₚ elements (dom m) ∧ StronglySorted (λ a b, bytes_lt b a) visited.
Proof.
  intros (o' & c' & Hlast & Hst & Hg)%seekLast_law.
  rewrite (sm_bind_ok SlotIterator_create _ c () c') by (unfold SlotIterator_create, mbind, sm_bind; by rewrite Hlast).
  assert (Hfrom : from m o' = dom m).
  { apply set_eq. intros x. destruct o' as [k|]; cbn in Hg |- *; [|split; [set_solver|intros Hx; by destruct (Hg x)]].
    destruct Hg as (_ & _ & Hb). rewrite elem_of_filter. split; [by intros []|intros Hx; split; [by apply Hb|done]]. }
  destruct (walk_back_run (size m) c' m o' [] Hst) as (l & c2 & Hrun & Hperm & Hsorted); [by rewrite Hfrom, size_dom|].
  exists l, c2. rewrite <- Hfrom. done.
Qed.
End generic.

(** ** The slots are not in order *)
Module CursorEx.

(** slotToHashLookupKey: the eight bytes of the number, the lowest first *)
Fixpoint le_bytes (n : nat) (v : N) : bytes := match n with O => [] | S n => v mod 256 :: le_bytes n (v / 256) end.
Definition le_value (b : bytes) : N := foldr (λ x v, x + 256 * v) 0 b.
Definition slot_index : Column := {[ le_bytes 8 255 := [1]; le_bytes 8 256 := [2] ]}.
Definition cursor : InMemoryCursor := mkInMemoryCursor slot_index None.

Lemma walk_back_visits_all_witness :
  stands cursor slot_index None ∧
  ∃ visited c', (SlotIterator_create ≫= λ _, walk_back (size slot_index) []) cursor = (Ok visited, c') ∧
    visited ≡ₚ elements (dom slot_index).
Proof.
  assert (Hst : stands cursor slot_index None) by done. split; [exact Hst|].
  destruct (walk_back_visits_all cursor slot_index None Hst) as (visited & c' & Hrun & Hperm & _). exists visited, c'. split; [exact Hrun|exact Hperm].
Defined.

(** With records for the slots 255 and 256 the last one found is 255. *)
Lemma last_slot_is_bytewise :
  SlotIterator_slot (λ k, Ok (le_value k)) (SlotIterator_create cursor).2 = Ok 255.
Proof. vm_compute. reflexivity. Qed.

(** seek finds the next key, not only the key itself. *)
Lemma seek_accepts_larger_key : (seek (le_bytes 8 1) cursor).1 = Ok true ∧ slot_index !! le_bytes 8 1 = None.
Proof. by vm_compute. Qed.

(** The in-memory cursor as an iterator of the library: its laws can hold. *)
#[local] Instance ToyIterator : RocksIterator InMemoryCursor := {|
  it_SeekToFirst c := (InMemoryCursor_seekFirst c).2; it_Seek k c := (InMemoryCursor_seek k c).2;
  it_SeekToLast c := (InMemoryCursor_seekLast c).2; it_Next c := (InMemoryCursor_next c).2; it_Prev c := (InMemoryCursor_prev c).2;
  it_Valid := cu_isValid; it_key c := default [] (fst <$> cu_kv c); it_value c := default [] (snd <$> cu_kv c);
|}.
Lemma toy_iterator_laws : RocksIteratorLaws InMemoryCursor.
Proof.
  refine {| it_stands := im_stands |}; cbn [it_Valid it_key it_value it_SeekToFirst it_Seek it_SeekToLast it_Next it_Prev ToyIterator].
  - intros c m o Hst. destruct (@stands_at _ _ InMemoryCursor_laws c m o Hst) as (Hv & Hk & Hval & Hin). split; [exact Hv|]. intros k ->. cbn in Hk, Hval.
    rewrite Hk, Hval. split; [done|]. destruct (proj1 (elem_of_dom m k) (Hin k eq_refl)) as [v Hm]. by rewrite Hm.
  - intros c m o (o' & c' & Hrun & Hst & Hl)%(@seekFirst_law _ _ InMemoryCursor_laws). cbn in Hrun. rewrite Hrun. by exists o'.
  - intros c m o k (o' & c' & Hrun & Hst & Hl)%(λ c m o, @seek_law _ _ InMemoryCursor_laws c m o k). cbn in Hrun. rewrite Hrun. by exists o'.
  - intros c m o (o' & c' & Hrun & Hst & Hl)%(@seekLast_law _ _ InMemoryCursor_laws). cbn in Hrun. rewrite Hrun. by exists o'.
  - intros c m k (o' & c' & Hrun & Hst & Hl)%(@next_law _ _ InMemoryCursor_laws). cbn in Hrun. rewrite Hrun. by exists o'.
  - intros c m k (o' & c' & Hrun & Hst & Hl)%(@prev_law _ _ InMemoryCursor_laws). cbn in Hrun. rewrite Hrun. by exists o'.
Qed.
End CursorEx.
