(* ===== verification/Blake2.v ===== *)
(** * BLAKE2b and BLAKE2s (src/src/crypto/blake2/blake2b.cpp, blake2b.h, blake2s.cpp, blake2s.h)

    The two files are the same program at two widths; [Blake2] collects in what they differ, and
    every function is defined once.  A context is filled by any number of updates; bytes wait in a
    buffer that is compressed when the next byte arrives.  [Rfc7693] is the function of RFC 7693,
    written from its sections 2 and 3: constants from square roots of primes, vectors as functions,
    message words as sums.  It shares no definition with the program. *)

From S2P Require Import Prelude Errors.

Abbreviation bytes := (list N).

(** ** RFC 7693 *)
Module Rfc7693.
(** Section 2.1: bits of a word, rounds and rotations *)
Record variant := mkVariant { w : N; r : nat; R1 : N; R2 : N; R3 : N; R4 : N }.
Definition BLAKE2b : variant := mkVariant 64 12 32 24 16 63.
Definition BLAKE2s : variant := mkVariant 32 10 16 12 8 7.

Section variant.
Context (V : variant).
(** Bytes of a word and of a block *)
Definition wb : nat := N.to_nat (w V / 8).
Definition bb : nat := 16 * wb.

(** Section 2.6: IV[i] = floor(2**w * frac(sqrt(prime(i+1)))) *)
Definition prime (i : nat) : N := nth i [2; 3; 5; 7; 11; 13; 17; 19] 0.
Definition IV (i : nat) : N := N.sqrt (prime i * 2 ^ (2 * w V)) mod 2 ^ w V.

(** Section 2.7 *)
Definition SIGMA (i : nat) : list nat :=
  match i with
  | 0 => [0; 1; 2; 3; 4; 5; 6; 7; 8; 9; 10; 11; 12; 13; 14; 15]
  | 1 => [14; 10; 4; 8; 9; 15; 13; 6; 1; 12; 0; 2; 11; 7; 5; 3]
  | 2 => [11; 8; 12; 0; 5; 2; 15; 13; 10; 14; 3; 6; 7; 1; 9; 4]
  | 3 => [7; 9; 3; 1; 13; 12; 11; 14; 2; 6; 5; 10; 4; 0; 15; 8]
  | 4 => [9; 0; 5; 7; 2; 4; 10; 15; 14; 1; 11; 12; 6; 8; 3; 13]
  | 5 => [2; 12; 6; 10; 0; 11; 8; 3; 4; 13; 7; 5; 15; 14; 1; 9]
  | 6 => [12; 5; 1; 15; 14; 13; 4; 10; 0; 7; 6; 3; 9; 2; 8; 11]
  | 7 => [13; 11; 7; 14; 12; 1; 3; 9; 5; 0; 15; 4; 8; 6; 2; 10]
  | 8 => [6; 15; 14; 9; 11; 3; 0; 8; 12; 2; 13; 7; 1; 4; 10; 5]
  | _ => [10; 2; 8; 4; 7; 6; 1; 5; 15; 11; 9; 14; 3; 12; 13; 0]
  end%nat.

(** Section 2.3: x >>> n = (x >> n) ^ (x << (w - n)) *)
Definition rotr (x n : N) : N := N.lxor (x / 2 ^ n) (x * 2 ^ (w V - n) mod 2 ^ w V).

(** Section 3.1: the mixing function G on a vector of 16 words *)
Definition vector : Type := nat → N.
Definition set (v : vector) (i : nat) (x : N) : vector := λ j, if Nat.eqb j i then x else v j.
Definition MIX_G (v : vector) (a b c d : nat) (x y : N) : vector :=
  let v := set v a ((v a + v b + x) mod 2 ^ w V) in
  let v := set v d (rotr (N.lxor (v d) (v a)) (R1 V)) in
  let v := set v c ((v c + v d) mod 2 ^ w V) in
  let v := set v b (rotr (N.lxor (v b) (v c)) (R2 V)) in
  let v := set v a ((v a + v b + y) mod 2 ^ w V) in
  let v := set v d (rotr (N.lxor (v d) (v a)) (R3 V)) in
  let v := set v c ((v c + v d) mod 2 ^ w V) in
  set v b (rotr (N.lxor (v b) (v c)) (R4 V)).

(** Section 3.2: the compression function F *)
Definition ROUND (m : nat → N) (v : vector) (i : nat) : vector :=
  let s j := nth j (SIGMA (i mod 10)) 0%nat in
  let v := MIX_G v 0 4 8 12 (m (s 0%nat)) (m (s 1%nat)) in
  let v := MIX_G v 1 5 9 13 (m (s 2%nat)) (m (s 3%nat)) in
  let v := MIX_G v 2 6 10 14 (m (s 4%nat)) (m (s 5%nat)) in
  let v := MIX_G v 3 7 11 15 (m (s 6%nat)) (m (s 7%nat)) in
  let v := MIX_G v 0 5 10 15 (m (s 8%nat)) (m (s 9%nat)) in
  let v := MIX_G v 1 6 11 12 (m (s 10%nat)) (m (s 11%nat)) in
  let v := MIX_G v 2 7 8 13 (m (s 12%nat)) (m (s 13%nat)) in
  MIX_G v 3 4 9 14 (m (s 14%nat)) (m (s 15%nat)).
Definition F (h : vector) (m : nat → N) (t : N) (f : bool) : vector :=
  let v : vector := λ i, if (i <? 8)%nat then h i else IV (i - 8) in
  let v := set v 12 (N.lxor (v 12%nat) (t mod 2 ^ w V)) in
  let v := set v 13 (N.lxor (v 13%nat) (t / 2 ^ w V mod 2 ^ w V)) in
  let v := if f then set v 14 (N.lxor (v 14%nat) (2 ^ w V - 1)) else v in
  let v := foldl (ROUND m) v (seq 0 (r V)) in
  λ i, N.lxor (N.lxor (h i) (v i)) (v (i + 8)%nat).

(** Section 3.3: padding to whole blocks, little-endian words, and the hash *)
Definition ceil_div (a b : nat) : nat := (a + b - 1) / b.
Definition padded (d : bytes) : bytes := d ++ replicate (ceil_div (length d) bb * bb - length d) 0.
(** The key block and the data blocks, or one block of zeros when there is neither *)
Definition blocks (key data : bytes) : bytes :=
  match padded key ++ padded data with
  | [] => replicate bb 0
  | d => d
  end.
Definition le_word (l : bytes) : N := foldr (λ b acc, b + 256 * acc) 0 l.
Definition block (d : bytes) (i j : nat) : N := le_word (take wb (drop (i * bb + j * wb) d)).
Definition BLAKE2 (key data : bytes) (nn : N) : bytes :=
  let kk := length key in
  let ll := length data in
  let d := blocks key data in
  let dd := Nat.max 1 (ceil_div kk bb + ceil_div ll bb) in
  let h := set IV 0 (N.lxor (IV 0) (N.lxor (N.lxor 0x01010000 (N.of_nat kk * 2 ^ 8)) nn)) in
  let h := foldl (λ h i, F h (block d i) (N.of_nat ((i + 1) * bb)) false) h (seq 0 (dd - 1)) in
  let h := F h (block d (dd - 1)) (N.of_nat (if (kk =? 0)%nat then ll else ll + bb)) true in
  take (N.to_nat nn) (mjoin ((λ i, (λ k, h i / 2 ^ (8 * N.of_nat k) mod 256) <$> seq 0 wb) <$> seq 0 8)).
End variant.

(** Appendix A and B *)
Lemma vectors :
  take 8 (BLAKE2 BLAKE2b [] [97; 98; 99] 64) = [0xBA; 0x80; 0xA5; 0x3F; 0x98; 0x1C; 0x4D; 0x0D] ∧
  BLAKE2 BLAKE2s [] [97; 98; 99] 32
  = [0x50; 0x8C; 0x5E; 0x8C; 0x32; 0x7C; 0x14; 0xE2; 0xE1; 0xA7; 0x2B; 0xA3; 0x4E; 0xEB; 0x45; 0x2F;
     0x37; 0x45; 0x8B; 0x20; 0x9E; 0xD6; 0x3A; 0x29; 0x4D; 0x99; 0x9B; 0x4C; 0x86; 0x67; 0x59; 0x82].
Proof. split; vm_compute; reflexivity. Qed.
End Rfc7693.

Class Blake2 := {
  bl_bits : N;                     (* bits of a word *)
  bl_word : nat;                   (* bytes of a word *)
  bl_word_shift : N;               (* i >> 3 or i >> 2: the word of an output byte *)
  bl_max : N;                      (* bytes of the longest digest and key *)
  bl_iv : list N;
  bl_sigma : list (list nat);      (* one row for each round *)
  bl_R1 : N; bl_R2 : N; bl_R3 : N; bl_R4 : N;
}.

Section blake2.
Context `{Blake2}.

Definition bl_block : nat := 16 * bl_word.
Definition wrap (x : N) : N := x mod 2 ^ bl_bits.

(** ROTR64, ROTR32 *)
Definition ROTR (x y : N) : N := N.lxor (N.shiftr x y) (wrap (N.shiftl x (bl_bits - y))).

(** B2B_GET64, B2S_GET32: little-endian bytes, joined by exclusive or *)
Fixpoint GET (p : bytes) : N :=
  match p with
  | [] => 0
  | x :: p => N.lxor x (N.shiftl (GET p) 8)
  end.

Definition word (v : list N) (i : nat) : N := nth i v 0.

(** B2B_G, B2S_G *)
Definition G (a b c d : nat) (x y : N) (v : list N) : list N :=
  let v := <[a := wrap (wrap (word v a + word v b) + x)]> v in
  let v := <[d := ROTR (N.lxor (word v d) (word v a)) bl_R1]> v in
  let v := <[c := wrap (word v c + word v d)]> v in
  let v := <[b := ROTR (N.lxor (word v b) (word v c)) bl_R2]> v in
  let v := <[a := wrap (wrap (word v a + word v b) + y)]> v in
  let v := <[d := ROTR (N.lxor (word v d) (word v a)) bl_R3]> v in
  let v := <[c := wrap (word v c + word v d)]> v in
  <[b := ROTR (N.lxor (word v b) (word v c)) bl_R4]> v.

(** One turn of the loop over the rounds; [s] is a row of sigma. *)
Definition round (m : list N) (v : list N) (s : list nat) : list N :=
  let x i := word m (nth i s 0%nat) in
  let v := G 0 4 8 12 (x 0%nat) (x 1%nat) v in
  let v := G 1 5 9 13 (x 2%nat) (x 3%nat) v in
  let v := G 2 6 10 14 (x 4%nat) (x 5%nat) v in
  let v := G 3 7 11 15 (x 6%nat) (x 7%nat) v in
  let v := G 0 5 10 15 (x 8%nat) (x 9%nat) v in
  let v := G 1 6 11 12 (x 10%nat) (x 11%nat) v in
  let v := G 2 7 8 13 (x 12%nat) (x 13%nat) v in
  G 3 4 9 14 (x 14%nat) (x 15%nat) v.

(** blake2b_ctx, blake2s_ctx_full *)
Record ctx := mkCtx {
  cx_b : bytes;
  cx_h : list N;
  cx_t0 : N;
  cx_t1 : N;
  cx_c : nat;
  cx_outlen : N;
}.

(** The chained state after the compression of a block. *)
Definition compress_words (h : list N) (t0 t1 : N) (b : bytes) (last : bool) : list N :=
  let v := h ++ bl_iv in
  let v := <[12%nat := N.lxor (word v 12) t0]> v in
  let v := <[13%nat := N.lxor (word v 13) t1]> v in
  let v := if last then <[14%nat := N.lxor (word v 14) (2 ^ bl_bits - 1)]> v else v in
  let m := (λ i, GET (take bl_word (drop (bl_word * i) b))) <$> seq 0 16 in
  let v := foldl (round m) v bl_sigma in
  (λ i, N.lxor (word h i) (N.lxor (word v i) (word v (i + 8)))) <$> seq 0 8.
(** blake2b_compress, blake2s_compress *)
Definition compress (last : bool) (x : ctx) : ctx :=
  mkCtx (cx_b x) (compress_words (cx_h x) (cx_t0 x) (cx_t1 x) (cx_b x) last) (cx_t0 x) (cx_t1 x) (cx_c x) (cx_outlen x).

(** t[0] += c, and the carry into t[1] *)
Definition count (x : ctx) : ctx :=
  let c := N.of_nat (cx_c x) in
  let t0 := wrap (cx_t0 x + c) in
  mkCtx (cx_b x) (cx_h x) t0 (if t0 <? c then wrap (cx_t1 x + 1) else cx_t1 x) (cx_c x) (cx_outlen x).

Definition set_c (c : nat) (x : ctx) : ctx := mkCtx (cx_b x) (cx_h x) (cx_t0 x) (cx_t1 x) c (cx_outlen x).
(** b[c++] = byte *)
Definition put_byte (byte : N) (x : ctx) : ctx :=
  mkCtx (<[cx_c x := byte]> (cx_b x)) (cx_h x) (cx_t0 x) (cx_t1 x) (S (cx_c x)) (cx_outlen x).

(** The loop of blake2b_update, blake2s_update *)
Definition update_byte (x : ctx) (byte : N) : ctx :=
  let x := if decide (cx_c x = bl_block) then set_c 0 (compress false (count x)) else x in
  put_byte byte x.
Definition update (x : ctx) (data : bytes) : ctx := foldl update_byte x data.

(** while (c < block) b[c++] = 0 *)
Fixpoint fill (n : nat) (x : ctx) : ctx :=
  match n with
  | O => x
  | S n => fill n (put_byte 0 x)
  end.

(** blake2b_final, blake2s_final *)
Definition final (x : ctx) : bytes :=
  let x := count x in
  let x := fill (bl_block - cx_c x) x in
  let x := compress true x in
  (λ i, N.land (N.shiftr (word (cx_h x) (N.to_nat (N.shiftr i bl_word_shift)))
                  (8 * N.land i (N.of_nat bl_word - 1))) 255)
    <$> seqN 0 (cx_outlen x).

(** blake2b_init, blake2s_init; [junk] is what the buffer holds before, [None] the result -1. *)
Definition init (junk : bytes) (outlen : N) (key : bytes) : option ctx :=
  let keylen := lengthN key in
  if (outlen =? 0) || (bl_max <? outlen) || (bl_max <? keylen) then None
  else
    let h := <[0%nat := N.lxor (word bl_iv 0) (wrap (N.lxor (N.lxor 16842752 (N.shiftl keylen 8)) outlen))]> bl_iv in
    let b := take (length key) junk ++ replicate (bl_block - length key) 0 in
    let x := mkCtx b h 0 0 0 outlen in
    Some (if 0 <? keylen then set_c bl_block (update x key) else x).

(** blake2b, blake2s *)
Definition hash (junk : bytes) (outlen : N) (key data : bytes) : option bytes :=
  match init junk outlen key with
  | None => None
  | Some x => Some (final (update x data))
  end.

(** ** The whole message at once, with the program's compression function *)

(** The compression of a block at an offset *)
Definition F (h : list N) (block : bytes) (t : N) (last : bool) : list N :=
  compress_words h (wrap t) (wrap (t / 2 ^ bl_bits)) block last.
(** The first [k] blocks of the data. *)
Fixpoint chain (k : nat) (h : list N) (t : N) (data : bytes) : list N :=
  match k with
  | O => h
  | S k => chain k (F h (take bl_block data) (t + N.of_nat bl_block) false) (t + N.of_nat bl_block) (drop bl_block data)
  end.
Definition pad (block : bytes) : bytes := block ++ replicate (bl_block - length block) 0.
Definition blake2_whole (outlen : N) (key data : bytes) : bytes :=
  let d := (match key with [] => [] | _ => pad key end) ++ data in
  let h := <[0%nat := N.lxor (word bl_iv 0) (16842752 + 256 * lengthN key + outlen)]> bl_iv in
  (* all blocks but the last *)
  let k := Nat.div (length d - 1) bl_block in
  let h := chain k h 0 d in
  let h := F h (pad (drop (k * bl_block) d)) (lengthN d) true in
  (* the first bytes of the words, little-endian *)
  take (N.to_nat outlen) (mjoin ((λ x, (λ j, N.shiftr x (8 * N.of_nat j) mod 256) <$> seq 0 bl_word) <$> h)).
End blake2.

(** ** The two widths *)
Definition sigma10 : list (list nat) :=
  [[0; 1; 2; 3; 4; 5; 6; 7; 8; 9; 10; 11; 12; 13; 14; 15];
   [14; 10; 4; 8; 9; 15; 13; 6; 1; 12; 0; 2; 11; 7; 5; 3];
   [11; 8; 12; 0; 5; 2; 15; 13; 10; 14; 3; 6; 7; 1; 9; 4];
   [7; 9; 3; 1; 13; 12; 11; 14; 2; 6; 5; 10; 4; 0; 15; 8];
   [9; 0; 5; 7; 2; 4; 10; 15; 14; 1; 11; 12; 6; 8; 3; 13];
   [2; 12; 6; 10; 0; 11; 8; 3; 4; 13; 7; 5; 15; 14; 1; 9];
   [12; 5; 1; 15; 14; 13; 4; 10; 0; 7; 6; 3; 9; 2; 8; 11];
   [13; 11; 7; 14; 12; 1; 3; 9; 5; 0; 15; 4; 8; 6; 2; 10];
   [6; 15; 14; 9; 11; 3; 0; 8; 12; 2; 13; 7; 1; 4; 10; 5];
   [10; 2; 8; 4; 7; 6; 1; 5; 15; 11; 9; 14; 3; 12; 13; 0]]%nat.

Definition Blake2b : Blake2 := {|
  bl_bits := 64; bl_word := 8; bl_word_shift := 3; bl_max := 64;
  bl_iv := [0x6A09E667F3BCC908; 0xBB67AE8584CAA73B; 0x3C6EF372FE94F82B; 0xA54FF53A5F1D36F1;
            0x510E527FADE682D1; 0x9B05688C2B3E6C1F; 0x1F83D9ABFB41BD6B; 0x5BE0CD19137E2179];
  bl_sigma := sigma10 ++
    [[0; 1; 2; 3; 4; 5; 6; 7; 8; 9; 10; 11; 12; 13; 14; 15];
     [14; 10; 4; 8; 9; 15; 13; 6; 1; 12; 0; 2; 11; 7; 5; 3]]%nat;
  bl_R1 := 32; bl_R2 := 24; bl_R3 := 16; bl_R4 := 63;
|}.
Definition Blake2s : Blake2 := {|
  bl_bits := 32; bl_word := 4; bl_word_shift := 2; bl_max := 32;
  bl_iv := [0x6A09E667; 0xBB67AE85; 0x3C6EF372; 0xA54FF53A; 0x510E527F; 0x9B05688C; 0x1F83D9AB; 0x5BE0CD19];
  bl_sigma := sigma10;
  bl_R1 := 16; bl_R2 := 12; bl_R3 := 8; bl_R4 := 7;
|}.

Definition blake2b_compress (last : bool) (x : ctx) : ctx := @compress Blake2b last x.
Definition blake2b_init : bytes → N → bytes → option ctx := @init Blake2b.
Definition blake2b_update : ctx → bytes → ctx := @update Blake2b.
Definition blake2b_final : ctx → bytes := @final Blake2b.
Definition blake2b : bytes → N → bytes → bytes → option bytes := @hash Blake2b.
Definition blake2s_compress (last : bool) (x : ctx) : ctx := @compress Blake2s last x.
Definition blake2s_init : bytes → N → bytes → option ctx := @init Blake2s.
Definition blake2s_update : ctx → bytes → ctx := @update Blake2s.
Definition blake2s_final : ctx → bytes := @final Blake2s.
Definition blake2s : bytes → N → bytes → bytes → option bytes := @hash Blake2s.

(** The wrappers: blake2b<N> with its BOOST_VERIFY, blake2s_256_init, blake2s_256 *)
Definition blake2b_N `{BuildMode} (n : N) (junk buf : bytes) : result bytes :=
  match blake2b junk n [] buf with
  | Some out => Ok out
  | None => if asserts_enabled then Throw AssertFailed else Throw UndefinedBehaviour
  end.
Definition blake2s_256_init (junk : bytes) : option ctx := blake2s_init junk 32 [].
Definition blake2s_256 (junk data : bytes) : option bytes := blake2s junk 32 [] data.

(** * BLAKE2: any sequence of updates computes the function of RFC 7693 *)

(** What the two parameter sets have in common. *)
Class Blake2Laws `{Blake2} := {
  blw_word : (0 < bl_word)%nat;
  blw_bits : bl_bits = 8 * N.of_nat bl_word;
  blw_shift : N.of_nat bl_word = 2 ^ bl_word_shift;
  blw_iv : length bl_iv = 8%nat;
  blw_max : (N.to_nat bl_max ≤ bl_block)%nat;
  blw_out : bl_max ≤ 8 * N.of_nat bl_word;
  blw_small : bl_max < 256;
  blw_param : 2 ^ 25 ≤ 2 ^ bl_bits;
  blw_count : N.of_nat bl_block < 2 ^ bl_bits;
}.
#[global] Instance Blake2b_laws : @Blake2Laws Blake2b.
Proof. split; try done; cbn; lia. Qed.
#[global] Instance Blake2s_laws : @Blake2Laws Blake2s.
Proof. split; try done; cbn; lia. Qed.

Section proofs.
Context `{Blake2Laws}.

Lemma block_pos : (0 < bl_block)%nat.
Proof. unfold bl_block. pose proof blw_word. lia. Qed.

(** ** The counter *)
Definition counter (x : ctx) (t : N) : Prop := cx_t0 x = wrap t ∧ cx_t1 x = wrap (t / 2 ^ bl_bits).

Lemma count_counter x t : counter x t → (cx_c x ≤ bl_block)%nat → counter (count x) (t + N.of_nat (cx_c x)).
Proof.
  intros [H0' H1'] Hc. pose proof blw_count as Hb. unfold counter, count. cbn [cx_t0 cx_t1]. rewrite H0', H1'.
  unfold wrap. set (W := 2 ^ bl_bits) in *. set (c := N.of_nat (cx_c x)). assert (c < W) as HcW by (unfold c; lia).
  rewrite N.Div0.add_mod_idemp_l. split; [done|].
  pose proof (N.div_mod t W ltac:(lia)) as Ht. pose proof (N.mod_lt t W ltac:(lia)) as Hlt.
  set (q := t / W) in *. set (r := t mod W) in *.
  destruct (decide (r + c < W)) as [Hs|Hs].
  - assert ((t + c) / W = q) as -> by (symmetry; apply (N.div_unique _ _ _ (r + c)); lia).
    assert ((t + c) mod W = r + c) as -> by (symmetry; apply (N.mod_unique _ _ q); lia).
    by rewrite (proj2 (N.ltb_ge _ _)) by lia.
  - assert ((t + c) / W = q + 1) as -> by (symmetry; apply (N.div_unique _ _ _ (r + c - W)); lia).
    assert ((t + c) mod W = r + c - W) as -> by (symmetry; apply (N.mod_unique _ _ (q + 1)); lia).
    rewrite (proj2 (N.ltb_lt _ _)) by lia. by rewrite N.Div0.add_mod_idemp_l.
Qed.

(** ** Blocks *)
Lemma chain_snoc k h t data :
  chain (S k) h t data
  = F (chain k h t data) (take bl_block (drop (k * bl_block) data)) (t + N.of_nat (S k * bl_block)) false.
Proof.
  revert h t data. induction k as [|k IH]; intros h t data.
  { cbn [chain]. cbn [Nat.mul]. rewrite drop_0. do 2 f_equal. lia. }
  change (chain (S (S k)) h t data) with
    (chain (S k) (F h (take bl_block data) (t + N.of_nat bl_block) false) (t + N.of_nat bl_block) (drop bl_block data)).
  rewrite IH. change (chain (S k) h t data) with
    (chain k (F h (take bl_block data) (t + N.of_nat bl_block) false) (t + N.of_nat bl_block) (drop bl_block data)).
  rewrite drop_drop. f_equal. lia.
Qed.

Lemma chain_app k h t data more :
  (k * bl_block ≤ length data)%nat → chain k h t (data ++ more) = chain k h t data.
Proof.
  revert h t data. induction k as [|k IH]; intros h t data Hk; [done|]. cbn [chain].
  rewrite take_app_le, drop_app_le by lia. apply IH. rewrite length_drop. lia.
Qed.

(** The number of blocks compressed after [n] bytes: the last block waits. *)
Definition full (n : nat) : nat := (n - 1) / bl_block.

Lemma full_spec n : (full n * bl_block ≤ n ∧ n - full n * bl_block ≤ bl_block ∧ (n ≠ 0 → full n * bl_block < n))%nat.
Proof.
  unfold full. pose proof block_pos as Hb. pose proof (Nat.div_mod (n - 1) bl_block ltac:(lia)) as Hd.
  pose proof (Nat.mod_upper_bound (n - 1) bl_block ltac:(lia)). nia.
Qed.
Lemma full_unique n k : (k * bl_block < n → n ≤ k * bl_block + bl_block → full n = k)%nat.
Proof. intros H1' H2'. unfold full. symmetry. apply (Nat.div_unique _ _ _ (n - 1 - k * bl_block)); nia. Qed.

(** The context holds the data [p] it was given, after the initial words [h0]. *)
Record holds (h0 : list N) (p : bytes) (x : ctx) : Prop := {
  ho_h : cx_h x = chain (full (length p)) h0 0 p;
  ho_t : counter x (N.of_nat (full (length p) * bl_block));
  ho_c : cx_c x = (length p - full (length p) * bl_block)%nat;
  ho_b : length (cx_b x) = bl_block;
  ho_buffer : take (cx_c x) (cx_b x) = drop (full (length p) * bl_block) p;
}.

Lemma take_insert_snoc (l : bytes) i x : (i < length l)%nat → take (S i) (<[i := x]> l) = take i l ++ [x].
Proof.
  intros Hi. rewrite (take_S_r _ i x) by (by rewrite list_lookup_insert_eq). by rewrite take_insert_ge.
Qed.

Lemma put_byte_holds h0 p x byte :
  holds h0 p x → (cx_c x < bl_block)%nat → full (S (length p)) = full (length p) → holds h0 (p ++ [byte]) (put_byte byte x).
Proof.
  intros [Hh Ht Hc Hb Hbuf] Hlt Hfull.
  destruct (full_spec (length p)) as (Hle & _ & _).
  assert (length (p ++ [byte]) = S (length p)) as Hlen by (rewrite length_app; cbn; lia).
  constructor; cbn [put_byte cx_h cx_c cx_b]; rewrite ?Hlen, ?Hfull.
  - by rewrite chain_app.
  - exact Ht.
  - lia.
  - by rewrite length_insert.
  - rewrite take_insert_snoc, Hbuf, drop_app_le by lia. done.
Qed.

Lemma update_byte_holds h0 p x byte : holds h0 p x → holds h0 (p ++ [byte]) (update_byte x byte).
Proof.
  intros Hx. pose proof Hx as [Hh Ht Hc Hb Hbuf]. destruct (full_spec (length p)) as (Hle & Hrest & Hlast).
  pose proof block_pos as Hpos. unfold update_byte. case_decide as Hfull.
  - assert (Hnz : length p ≠ 0%nat) by (intros Hz; rewrite Hz in *; cbn in Hc; lia).
    assert (Hnext : full (S (length p)) = S (full (length p))) by (apply full_unique; lia).
    set (x1 := set_c 0 _).
    assert (Hlen : length (p ++ [byte]) = S (length p)) by (rewrite length_app; cbn; lia).
    pose proof (count_counter x _ Ht ltac:(lia)) as Hcount. rewrite Hfull in Hcount.
    replace (N.of_nat (full (length p) * bl_block) + N.of_nat bl_block) with (N.of_nat (S (full (length p)) * bl_block))
      in Hcount by lia.
    constructor; cbn [put_byte cx_h cx_c cx_b]; rewrite ?Hlen, ?Hnext.
    + rewrite chain_app, chain_snoc, <- Hh by lia.
      change (cx_h x1) with (compress_words (cx_h x) (cx_t0 (count x)) (cx_t1 (count x)) (cx_b x) false).
      destruct Hcount as [-> ->]. unfold F. by rewrite <- Hbuf, Hfull, take_take, Nat.min_id, take_ge, N.add_0_l by lia.
    + exact Hcount.
    + unfold x1. cbn [set_c cx_c]. lia.
    + unfold x1. cbn [set_c compress count cx_b]. by rewrite length_insert.
    + unfold x1. cbn [set_c compress count cx_b cx_c]. rewrite take_insert_snoc by lia. cbn [take app].
      rewrite drop_app_le, drop_ge by lia. done.
  - apply put_byte_holds; [done|lia|]. apply full_unique; [lia|lia].
Qed.

Lemma update_holds h0 p x data : holds h0 p x → holds h0 (p ++ data) (update x data).
Proof.
  revert p x. induction data as [|byte data IH]; intros p x Hx; [by rewrite app_nil_r|].
  replace (p ++ byte :: data) with ((p ++ [byte]) ++ data) by (by rewrite <- app_assoc).
  apply IH. by apply update_byte_holds.
Qed.

(** ** The end of a message *)
Lemma fill_spec n x :
  (cx_c x + n ≤ length (cx_b x))%nat →
  cx_b (fill n x) = take (cx_c x) (cx_b x) ++ replicate n 0 ++ drop (cx_c x + n) (cx_b x) ∧ cx_h (fill n x) = cx_h x ∧
  cx_t0 (fill n x) = cx_t0 x ∧ cx_t1 (fill n x) = cx_t1 x ∧ cx_outlen (fill n x) = cx_outlen x.
Proof.
  revert x. induction n as [|n IH]; intros x Hn; cbn [fill].
  - cbn [replicate app]. by rewrite Nat.add_0_r, take_drop.
  - destruct (IH (put_byte 0 x)) as (Hb & Hrest); [cbn [put_byte cx_c cx_b]; rewrite length_insert; lia|].
    split; [|exact Hrest]. rewrite Hb. cbn [put_byte cx_c cx_b].
    rewrite take_insert_snoc, drop_insert_lt, <- app_assoc by lia. cbn [replicate app]. do 4 f_equal. lia.
Qed.

(** The output bytes are the bytes of the words, in little-endian order. *)
Definition word_bytes (x : N) : bytes := (λ j, N.shiftr x (8 * N.of_nat j) mod 256) <$> seq 0 bl_word.
Lemma length_word_bytes x : length (word_bytes x) = bl_word.
Proof. unfold word_bytes. by rewrite length_fmap, length_seq. Qed.
Lemma words_lookup (h : list N) (i : nat) :
  (i < length h * bl_word)%nat →
  mjoin (word_bytes <$> h) !! i
  = Some (N.shiftr (word h (i / bl_word)) (8 * N.of_nat (i mod bl_word)) mod 256).
Proof.
  pose proof blw_word as Hw. revert i. induction h as [|x h IH]; intros i Hi; [cbn in Hi; lia|].
  assert (mjoin (word_bytes <$> x :: h) = word_bytes x ++ mjoin (word_bytes <$> h)) as -> by done.
  destruct (decide (i < bl_word)%nat) as [Hlt|Hge].
  - rewrite lookup_app_l by (by rewrite length_word_bytes). rewrite Nat.div_small, Nat.mod_small by done.
    unfold word_bytes. by rewrite list_lookup_fmap, lookup_seq_lt.
  - assert (∃ j, i = j + bl_word)%nat as [j ->] by (exists (i - bl_word)%nat; lia).
    rewrite lookup_app_r by (rewrite length_word_bytes; lia). rewrite length_word_bytes, Nat.add_sub.
    assert ((j + bl_word) / bl_word = S (j / bl_word))%nat as ->.
    { pose proof (Nat.div_add j 1 bl_word ltac:(lia)) as Hd. rewrite Nat.mul_1_l in Hd. lia. }
    assert ((j + bl_word) mod bl_word = j mod bl_word)%nat as ->.
    { pose proof (Nat.Div0.mod_add j 1 bl_word) as Hd. by rewrite Nat.mul_1_l in Hd. }
    rewrite IH by (cbn [length] in Hi; lia). done.
Qed.
Lemma output_bytes (h : list N) outlen :
  length h = 8%nat → outlen ≤ 8 * N.of_nat bl_word →
  (λ i, N.land (N.shiftr (word h (N.to_nat (N.shiftr i bl_word_shift))) (8 * N.land i (N.of_nat bl_word - 1))) 255)
    <$> seqN 0 outlen
  = take (N.to_nat outlen) (mjoin (word_bytes <$> h)).
Proof.
  intros Hh Ho. apply list_eq. intros i. destruct (decide (i < N.to_nat outlen)%nat) as [Hi|Hi].
  - rewrite list_lookup_fmap, lookup_seqN by lia. rewrite lookup_take, decide_True by done. rewrite words_lookup by lia. cbn [fmap option_fmap option_map].
    rewrite N.add_0_l. f_equal. change 255 with (N.ones 8). rewrite N.land_ones.
    assert (N.shiftr (N.of_nat i) bl_word_shift = N.of_nat (i / bl_word)) as ->.
    { by rewrite N.shiftr_div_pow2, <- blw_shift, Nat2N.inj_div. }
    assert (N.land (N.of_nat i) (N.of_nat bl_word - 1) = N.of_nat (i mod bl_word)) as ->.
    { rewrite blw_shift, N.sub_1_r, <- N.ones_equiv, N.land_ones, <- blw_shift. by rewrite Nat2N.inj_mod. }
    by rewrite Nat2N.id.
  - rewrite (proj2 (lookup_ge_None _ i)), (proj2 (lookup_ge_None _ i)); [done|..].
    + rewrite length_take. lia.
    + rewrite length_fmap. pose proof (length_seqN 0 outlen) as Hl. unfold lengthN in Hl. lia.
Qed.

Lemma length_compress_words h t0 t1 b l : length (compress_words h t0 t1 b l) = 8%nat.
Proof. unfold compress_words. cbv zeta. by rewrite length_fmap, length_seq. Qed.
#[local] Opaque compress_words.

Lemma final_spec h0 p x :
  holds h0 p x → cx_outlen x ≤ 8 * N.of_nat bl_word →
  final x = take (N.to_nat (cx_outlen x)) (mjoin (word_bytes <$>
    F (chain (full (length p)) h0 0 p) (pad (drop (full (length p) * bl_block) p)) (lengthN p) true)).
Proof.
  intros [Hh Ht Hc Hb Hbuf] Ho. destruct (full_spec (length p)) as (Hle & Hrest & _).
  pose proof (count_counter x _ Ht ltac:(lia)) as [Ht0 Ht1]. unfold final.
  destruct (fill_spec (bl_block - cx_c (count x)) (count x)) as (Fb & Fh & Ft0 & Ft1 & Fo).
  { cbn [count cx_c cx_b]. lia. }
  cbv zeta. set (y := fill _ _) in *. rewrite (drop_ge (cx_b (count x))), app_nil_r in Fb by (cbn [count cx_c cx_b]; lia).
  change (cx_outlen (compress true y)) with (cx_outlen y). rewrite Fo. change (cx_outlen (count x)) with (cx_outlen x).
  change (cx_h (compress true y)) with (compress_words (cx_h y) (cx_t0 y) (cx_t1 y) (cx_b y) true).
  rewrite (output_bytes _ _ (length_compress_words _ _ _ _ _) Ho). unfold F. rewrite Fb, Fh, Ft0, Ft1, Ht0, Ht1. change (cx_h (count x)) with (cx_h x). rewrite Hh.
  change (cx_c (count x)) with (cx_c x). change (cx_b (count x)) with (cx_b x). rewrite Hbuf.
  unfold pad. rewrite length_drop, <- Hc. unfold lengthN.
  replace (N.of_nat (full (length p) * bl_block) + N.of_nat (cx_c x)) with (N.of_nat (length p)) by lia. reflexivity.
Qed.

(** ** The start of a message *)
Lemma update_outlen x data : cx_outlen (update x data) = cx_outlen x.
Proof.
  revert x. induction data as [|b data IH]; intros x; [done|]. cbn [update foldl].
  change (foldl update_byte (update_byte x b) data) with (update (update_byte x b) data). rewrite IH.
  unfold update_byte. by case_decide.
Qed.

(** Bytes that fit in the buffer change nothing but the buffer. *)
Lemma update_within x data :
  (cx_c x + length data ≤ bl_block)%nat → length (cx_b x) = bl_block →
  update x data = mkCtx (take (cx_c x) (cx_b x) ++ data ++ drop (cx_c x + length data) (cx_b x)) (cx_h x) (cx_t0 x) (cx_t1 x)
                    (cx_c x + length data) (cx_outlen x).
Proof.
  revert x. induction data as [|b data IH]; intros x Hn Hb; cbn [update foldl length] in *.
  - rewrite Nat.add_0_r. cbn [app]. rewrite take_drop. by destruct x.
  - change (foldl update_byte (update_byte x b) data) with (update (update_byte x b) data).
    unfold update_byte. rewrite decide_False by lia.
    rewrite IH; cbn [put_byte cx_c cx_b cx_h cx_t0 cx_t1 cx_outlen]; rewrite ?length_insert; [|lia|done].
    rewrite take_insert_snoc, drop_insert_lt, <- app_assoc by lia. cbn [app].
    by replace (S (cx_c x) + length data)%nat with (cx_c x + S (length data))%nat by lia.
Qed.

(** The parameter block: the fields do not overlap. *)
Lemma parameter_xor k o :
  k < 256 → o < 256 → N.lxor (N.lxor 16842752 (N.shiftl k 8)) o = 16842752 + 256 * k + o.
Proof.
  intros Hk Ho. assert (Hk' : k * 256 = N.shiftl k 8) by (by rewrite N.shiftl_mul_pow2).
  rewrite <- Hk', <- (N.add_nocarry_lxor 16842752 (k * 256)).
  - rewrite <- N.add_nocarry_lxor; [lia|]. apply N.bits_inj_0. intros i. rewrite N.land_spec.
    destruct (decide (i < 8)).
    + replace (16842752 + k * 256) with (N.shiftl (65792 + k) 8) by (rewrite N.shiftl_mul_pow2; lia).
      by rewrite N.shiftl_spec_low.
    + rewrite andb_comm, (N.bits_above_log2 o); [done|]. destruct (decide (o = 0)) as [->|]; [cbn; lia|].
      apply N.lt_le_trans with 8; [|lia]. apply N.log2_lt_pow2; [lia|]. cbn. lia.
  - apply N.bits_inj_0. intros i. rewrite N.land_spec, Hk'. destruct (decide (i < 16)).
    + change 16842752 with (N.shiftl 257 16). by rewrite N.shiftl_spec_low.
    + rewrite N.shiftl_spec_high' by lia. rewrite andb_comm, (N.bits_above_log2 k); [done|].
      destruct (decide (k = 0)) as [->|]; [cbn; lia|]. apply N.lt_le_trans with 8; [|lia].
      apply N.log2_lt_pow2; [lia|]. cbn. lia.
Qed.
Lemma parameter_word k o :
  k < 256 → o < 256 → wrap (N.lxor (N.lxor 16842752 (N.shiftl k 8)) o) = 16842752 + 256 * k + o.
Proof.
  intros Hk Ho. rewrite parameter_xor by done. unfold wrap. apply N.mod_small. pose proof blw_param. cbn in *. lia.
Qed.

Definition legal (outlen : N) (key : bytes) : Prop := 1 ≤ outlen ≤ bl_max ∧ lengthN key ≤ bl_max.
#[export] Instance legal_dec outlen key : Decision (legal outlen key).
Proof. unfold legal. solve_decision. Defined.
Definition h_start (outlen : N) (key : bytes) : list N :=
  <[0%nat := N.lxor (word bl_iv 0) (16842752 + 256 * lengthN key + outlen)]> bl_iv.
Definition prefix (key : bytes) : bytes := match key with [] => [] | _ => pad key end.

Lemma init_illegal junk outlen key : ¬ legal outlen key → init junk outlen key = None.
Proof.
  unfold legal, init. intros Hn. cbv zeta.
  destruct (N.eqb_spec outlen 0), (N.ltb_spec bl_max outlen), (N.ltb_spec bl_max (lengthN key)); try done.
  exfalso. apply Hn. lia.
Qed.
Lemma init_holds junk outlen key :
  length junk = bl_block → legal outlen key →
  ∃ x, init junk outlen key = Some x ∧ holds (h_start outlen key) (prefix key) x ∧ cx_outlen x = outlen.
Proof.
  intros Hj [Ho Hk]. pose proof blw_small. pose proof blw_max as Hm. pose proof block_pos as Hpos. unfold init. cbv zeta.
  rewrite parameter_word by lia.
  rewrite (proj2 (N.eqb_neq outlen 0)), (proj2 (N.ltb_ge bl_max outlen)), (proj2 (N.ltb_ge bl_max (lengthN key))) by lia.
  cbn [orb]. eexists. split; [done|]. unfold lengthN in *.
  set (b := take _ _ ++ _). assert (Hb : length b = bl_block).
  { unfold b. rewrite length_app, length_take, length_replicate. lia. }
  destruct key as [|k0 key].
  - change (0 <? N.of_nat (length (A:=N) [])) with false. cbv iota. split; [|reflexivity].
    assert (Hf : full 0 = 0%nat) by (unfold full; apply Nat.div_small; lia).
    constructor; cbn [cx_h cx_c cx_b prefix length]; rewrite ?Hf; try done.
  - rewrite (proj2 (N.ltb_lt 0 _)) by (cbn [length]; lia). rewrite update_within by (cbn [cx_c cx_b]; first [exact Hb | lia]).
    cbn [cx_c cx_b cx_h cx_t0 cx_t1 cx_outlen set_c]. split; [|done].
    assert (Hp : length (pad (k0 :: key)) = bl_block).
    { unfold pad. rewrite length_app, length_replicate. lia. }
    assert (Hf : full bl_block = 0%nat) by (apply full_unique; lia).
    assert (Hd : take 0 b ++ (k0 :: key) ++ drop (0 + length (k0 :: key)) b = pad (k0 :: key)).
    { unfold b, pad. cbn [Nat.add]. rewrite drop_app_length'; [done|]. rewrite length_take. lia. }
    rewrite Hd. constructor; cbn [cx_h cx_c cx_b prefix]; rewrite ?Hp, ?Hf; try done.
    + cbn [set_c cx_c]. lia.
    + cbn [Nat.mul set_c cx_c cx_b]. rewrite drop_0. apply take_ge. lia.
Qed.

Definition cx_chunks (x : ctx) (chunks : list bytes) : ctx := foldl update x chunks.
Lemma chunks_holds h0 p x chunks : holds h0 p x → holds h0 (p ++ concat chunks) (cx_chunks x chunks).
Proof.
  revert p x. induction chunks as [|c chunks IH]; intros p x Hx; cbn [concat cx_chunks foldl]; [by rewrite app_nil_r|].
  rewrite app_assoc. apply IH. by apply update_holds.
Qed.
Lemma chunks_outlen x chunks : cx_outlen (cx_chunks x chunks) = cx_outlen x.
Proof.
  revert x. induction chunks as [|c chunks IH]; intros x; [done|].
  change (cx_chunks x (c :: chunks)) with (cx_chunks (update x c) chunks). rewrite IH. apply update_outlen.
Qed.

(** Any cut of a message gives the function of the whole message. *)
Lemma streaming_whole junk outlen key chunks :
  length junk = bl_block →
  (init junk outlen key = None ↔ ¬ legal outlen key) ∧
  (∀ x, init junk outlen key = Some x → final (cx_chunks x chunks) = blake2_whole outlen key (concat chunks)) ∧
  (∀ data, hash junk outlen key data = if decide (legal outlen key) then Some (blake2_whole outlen key data) else None).
Proof.
  intros Hj.
  assert (Hrun : ∀ x cs, legal outlen key → init junk outlen key = Some x →
                   final (cx_chunks x cs) = blake2_whole outlen key (concat cs)).
  { intros x cs Hl Hi. destruct (init_holds junk outlen key Hj Hl) as (x' & Hi' & Hx & Ho). simplify_eq.
    pose proof blw_out. destruct Hl as [Hl _].
    rewrite (final_spec _ _ _ (chunks_holds _ _ _ cs Hx)); rewrite chunks_outlen; [reflexivity|lia]. }
  assert (Hno : init junk outlen key = None ↔ ¬ legal outlen key).
  { split; [|apply init_illegal]. intros Hi Hl. destruct (init_holds junk outlen key Hj Hl) as (x & Hx & _). congruence. }
  split_and!; [exact Hno|..].
  - intros x Hi. apply Hrun; [|done]. destruct (decide (legal outlen key)); [done|]. rewrite init_illegal in Hi by done. done.
  - intros data. unfold hash. case_decide as Hl; [|by rewrite init_illegal].
    destruct (init_holds junk outlen key Hj Hl) as (x & Hi & _). rewrite Hi. f_equal.
    pose proof (Hrun x [data] Hl Hi) as Hd. cbn [concat] in Hd. rewrite app_nil_r in Hd. exact Hd.
Qed.
End proofs.

(** ** The program's compression function is the one of the RFC *)

(** [V] is the RFC's description of the parameters. *)
Class Blake2Rfc `{Blake2} (V : Rfc7693.variant) := {
  br_bits : bl_bits = Rfc7693.w V;
  br_word : bl_word = Rfc7693.wb V;
  br_iv i : (i < 8)%nat → word bl_iv i = Rfc7693.IV V i;
  br_sigma : bl_sigma = (λ i, Rfc7693.SIGMA (i mod 10)) <$> seq 0 (Rfc7693.r V);
  br_R1 : bl_R1 = Rfc7693.R1 V; br_R2 : bl_R2 = Rfc7693.R2 V;
  br_R3 : bl_R3 = Rfc7693.R3 V; br_R4 : bl_R4 = Rfc7693.R4 V;
}.
#[global] Instance Blake2b_rfc : @Blake2Rfc Blake2b Rfc7693.BLAKE2b.
Proof.
  split; try reflexivity. intros i Hi. do 8 (destruct i as [|i]; [vm_compute; reflexivity|]). lia.
Qed.
#[global] Instance Blake2s_rfc : @Blake2Rfc Blake2s Rfc7693.BLAKE2s.
Proof.
  split; try reflexivity. intros i Hi. do 8 (destruct i as [|i]; [vm_compute; reflexivity|]). lia.
Qed.

Section rfc.
Context `{Blake2Laws} (V : Rfc7693.variant) `{!Blake2Rfc V}.

(** The first [k] words of a list are those of a vector. *)
Definition sim (k : nat) (v : list N) (f : Rfc7693.vector) : Prop := length v = k ∧ ∀ i, (i < k)%nat → word v i = f i.

Lemma sim_set k v f i x y : sim k v f → (i < k)%nat → x = y → sim k (<[i := x]> v) (Rfc7693.set f i y).
Proof.
  intros [Hl Hv] Hi ->. split; [by rewrite length_insert|]. intros j Hj. unfold word, Rfc7693.set.
  rewrite nth_lookup, list_lookup_insert. destruct (Nat.eqb_spec j i) as [->|Hne].
  - by rewrite decide_True by lia.
  - rewrite decide_False by (intros [? _]; congruence). rewrite <- Hv by done. unfold word. by rewrite nth_lookup.
Qed.

Lemma rotr_rfc x n : ROTR x n = Rfc7693.rotr V x n.
Proof. unfold ROTR, Rfc7693.rotr, wrap. by rewrite br_bits, N.shiftr_div_pow2, N.shiftl_mul_pow2. Qed.

Lemma add3_rfc a b x : wrap (wrap (a + b) + x) = (a + b + x) mod 2 ^ Rfc7693.w V.
Proof. unfold wrap. by rewrite br_bits, N.Div0.add_mod_idemp_l. Qed.

(** The two kinds of assignment of G, on both sides *)
Lemma sim_add3 v f a b x :
  sim 16 v f → (a < 16)%nat → (b < 16)%nat →
  sim 16 (<[a := wrap (wrap (word v a + word v b) + x)]> v) (Rfc7693.set f a ((f a + f b + x) mod 2 ^ Rfc7693.w V)).
Proof. intros Hv Ha Hb. apply sim_set; [done..|]. by rewrite add3_rfc, !(proj2 Hv). Qed.
Lemma sim_add v f c d :
  sim 16 v f → (c < 16)%nat → (d < 16)%nat →
  sim 16 (<[c := wrap (word v c + word v d)]> v) (Rfc7693.set f c ((f c + f d) mod 2 ^ Rfc7693.w V)).
Proof. intros Hv Hc Hd. apply sim_set; [done..|]. unfold wrap. by rewrite br_bits, !(proj2 Hv). Qed.
Lemma sim_rotr v f d a r r' :
  sim 16 v f → (d < 16)%nat → (a < 16)%nat → r = r' →
  sim 16 (<[d := ROTR (N.lxor (word v d) (word v a)) r]> v) (Rfc7693.set f d (Rfc7693.rotr V (N.lxor (f d) (f a)) r')).
Proof. intros Hv Hd Ha ->. apply sim_set; [done..|]. by rewrite rotr_rfc, !(proj2 Hv). Qed.

Lemma G_rfc a b c d x y v f :
  sim 16 v f → (a < 16)%nat → (b < 16)%nat → (c < 16)%nat → (d < 16)%nat →
  sim 16 (G a b c d x y v) (Rfc7693.MIX_G V f a b c d x y).
Proof.
  intros Hv Ha Hb Hc Hd.
  pose proof (sim_add3 _ _ a b x Hv Ha Hb) as H1'. pose proof (sim_rotr _ _ d a _ _ H1' Hd Ha br_R1) as H2'.
  pose proof (sim_add _ _ c d H2' Hc Hd) as H3'. pose proof (sim_rotr _ _ b c _ _ H3' Hb Hc br_R2) as H4'.
  pose proof (sim_add3 _ _ a b y H4' Ha Hb) as H5'. pose proof (sim_rotr _ _ d a _ _ H5' Hd Ha br_R3) as H6'.
  pose proof (sim_add _ _ c d H6' Hc Hd) as H7'. exact (sim_rotr _ _ b c _ _ H7' Hb Hc br_R4).
Qed.

Lemma sigma_small i j : (nth j (Rfc7693.SIGMA i) 0 < 16)%nat.
Proof.
  assert (Hall : Forall (λ x, x < 16)%nat (Rfc7693.SIGMA i)).
  { do 9 (destruct i as [|i]; [repeat constructor|]). repeat constructor. }
  destruct (nth_in_or_default j (Rfc7693.SIGMA i) 0%nat) as [Hin| ->]; [|lia].
  rewrite Forall_forall in Hall. by apply Hall, list_elem_of_In.
Qed.

Lemma round_rfc m mf v f i :
  sim 16 m mf → sim 16 v f → sim 16 (round m v (Rfc7693.SIGMA (i mod 10))) (Rfc7693.ROUND V mf f i).
Proof.
  intros [_ Hm] Hv. unfold round, Rfc7693.ROUND. cbv zeta. rewrite !Hm by apply sigma_small.
  repeat (apply G_rfc; [|lia..]). exact Hv.
Qed.

Lemma rounds_rfc m mf l v f :
  sim 16 m mf → sim 16 v f →
  sim 16 (foldl (round m) v ((λ i, Rfc7693.SIGMA (i mod 10)) <$> l)) (foldl (Rfc7693.ROUND V mf) f l).
Proof.
  intros Hm. revert v f. induction l as [|i l IH]; intros v f Hv; [done|]. cbn. by apply IH, round_rfc.
Qed.

(** Message words of bytes *)
Lemma GET_le l : Forall (λ b, b < 256) l → GET l = Rfc7693.le_word l.
Proof.
  induction 1 as [|b l Hb _ IH]; [done|]. cbn [GET Rfc7693.le_word foldr].
  change (foldr _ 0 l) with (Rfc7693.le_word l). rewrite IH. set (r := Rfc7693.le_word l).
  rewrite <- N.add_nocarry_lxor; [rewrite N.shiftl_mul_pow2; change (2 ^ 8) with 256; lia|].
  apply N.bits_inj_0. intros i. rewrite N.land_spec. destruct (decide (i < 8)).
  - by rewrite N.shiftl_spec_low, andb_false_r.
  - rewrite (N.bits_above_log2 b); [done|]. destruct (decide (b = 0)) as [->|]; [cbn; lia|].
    apply N.lt_le_trans with 8; [|lia]. apply N.log2_lt_pow2; [lia|]. cbn. lia.
Qed.

Lemma bb_block : Rfc7693.bb V = bl_block.
Proof. unfold Rfc7693.bb, bl_block. by rewrite br_word. Qed.

Lemma words_rfc d i :
  Forall (λ b, b < 256) d →
  sim 16 ((λ j, GET (take bl_word (drop (bl_word * j) (take bl_block (drop (i * bl_block) d))))) <$> seq 0 16)
    (Rfc7693.block V d i).
Proof.
  intros Hd. split; [done|]. intros j Hj. unfold word. rewrite nth_lookup, list_lookup_fmap, lookup_seq_lt by done. cbn [default fmap option_fmap option_map].
  unfold Rfc7693.block. rewrite bb_block, <- br_word, GET_le.
  - rewrite Nat.add_0_l, (Nat.mul_comm bl_word), skipn_firstn_comm, drop_drop, take_take, Nat.min_l; [done|].
    unfold bl_block. nia.
  - by repeat first [apply Forall_take|apply Forall_drop].
Qed.

Lemma F_rfc h f d i t last :
  sim 8 h f → Forall (λ b, b < 256) d →
  sim 8 (F h (take bl_block (drop (i * bl_block) d)) t last) (Rfc7693.F V f (Rfc7693.block V d i) t last).
Proof.
  intros [Hl Hh] Hd. pose proof (words_rfc d i Hd) as Hm.
  unfold F, compress_words, Rfc7693.F. cbv zeta. rewrite br_sigma, br_bits. unfold wrap. rewrite br_bits.
  set (m := (λ j : nat, GET _) <$> seq 0 16) in *. set (v0 := h ++ bl_iv).
  set (f0 := λ i : nat, if (i <? 8)%nat then f i else Rfc7693.IV V (i - 8)).
  assert (Hv0 : sim 16 v0 f0).
  { unfold v0, f0. split; [rewrite length_app, Hl, blw_iv; done|]. intros j Hj. unfold word. rewrite nth_lookup.
    destruct (Nat.ltb_spec j 8).
    - rewrite lookup_app_l by lia. rewrite <- Hh by lia. unfold word. by rewrite nth_lookup.
    - rewrite lookup_app_r, Hl by lia. rewrite <- br_iv by lia. unfold word. by rewrite nth_lookup. }
  set (v1 := <[12%nat := _]> v0). set (f1 := Rfc7693.set f0 12 _).
  assert (Hv1 : sim 16 v1 f1) by (apply sim_set; [done|lia|by rewrite (proj2 Hv0) by lia]).
  set (v2 := <[13%nat := _]> v1). set (f2 := Rfc7693.set f1 13 _).
  assert (Hv2 : sim 16 v2 f2) by (apply sim_set; [done|lia|by rewrite (proj2 Hv1) by lia]).
  set (v3 := if last then _ else v2). set (f3 := if last then _ else f2).
  assert (Hv3 : sim 16 v3 f3).
  { unfold v3, f3. destruct last; [|done]. apply sim_set; [done|lia|by rewrite (proj2 Hv2) by lia]. }
  destruct (rounds_rfc _ _ (seq 0 (Rfc7693.r V)) _ _ Hm Hv3) as [_ Hr].
  split; [by rewrite length_fmap, length_seq|]. intros j Hj. unfold word at 1. rewrite nth_lookup, list_lookup_fmap, lookup_seq_lt by done.
  cbn [default fmap option_fmap option_map]. rewrite !Hr, Hh by (cbn; lia). by rewrite N.lxor_assoc.
Qed.

(** Blocks of the whole message *)
Lemma ceil_div_pos n : (0 < n)%nat → Rfc7693.ceil_div n bl_block = S ((n - 1) / bl_block).
Proof.
  intros Hn. pose proof block_pos as Hb. unfold Rfc7693.ceil_div.
  replace (n + bl_block - 1)%nat with ((n - 1) + 1 * bl_block)%nat by lia. rewrite Nat.div_add by lia. lia.
Qed.

Lemma padded_key key :
  (length key ≤ bl_block)%nat →
  Rfc7693.padded V key = prefix key ∧
  Rfc7693.ceil_div (length key) bl_block = (if (length key =? 0)%nat then 0%nat else 1%nat) ∧
  length (prefix key) = (if (length key =? 0)%nat then 0%nat else bl_block).
Proof.
  intros Hk. pose proof block_pos as Hb. unfold Rfc7693.padded. rewrite bb_block. destruct key as [|k0 key].
  { unfold Rfc7693.ceil_div. cbn [length]. rewrite Nat.div_small by lia. done. }
  rewrite ceil_div_pos by (cbn; lia). rewrite Nat.div_small by lia. cbn [Nat.eqb length]. split_and!; [|done|].
  - unfold prefix, pad. do 2 f_equal. cbn [length]. lia.
  - unfold prefix, pad. rewrite length_app, length_replicate. cbn [length] in *. lia.
Qed.

(** The padded data has whole blocks, one more than [full (length p)]. *)
Lemma padded_blocks key data :
  (length key ≤ bl_block)%nat →
  let p := prefix key ++ data in
  let dd := Nat.max 1 (Rfc7693.ceil_div (length key) bl_block + Rfc7693.ceil_div (length data) bl_block) in
  dd = S (full (length p)) ∧
  (∃ n, Rfc7693.blocks V key data = p ++ replicate n 0 ∧ (length p + n = dd * bl_block)%nat).
Proof.
  intros Hk p dd. destruct (padded_key key Hk) as (Hp & Hck & Hpl). pose proof block_pos as Hb.
  assert (Hlp : length p = (length (prefix key) + length data)%nat) by (unfold p; by rewrite length_app).
  assert (Hdd : dd = S (full (length p))).
  { unfold dd. rewrite Hck. rewrite Hlp, Hpl. unfold full.
    destruct (Nat.eqb_spec (length key) 0), (decide (length data = 0%nat)) as [Hz|Hz].
    - rewrite Hz. unfold Rfc7693.ceil_div. cbn [Nat.add Nat.sub]. rewrite !Nat.div_small by lia. done.
    - rewrite ceil_div_pos by lia. cbn [Nat.add]. lia.
    - rewrite Hz. unfold Rfc7693.ceil_div. cbn [Nat.add]. rewrite !Nat.div_small by lia. done.
    - rewrite ceil_div_pos by lia. replace (bl_block + length data - 1)%nat with ((length data - 1) + 1 * bl_block)%nat by lia.
      rewrite Nat.div_add by lia. lia. }
  split; [done|]. destruct (decide (length p = 0%nat)) as [Hz|Hz].
  { exists bl_block. rewrite Hdd, Hz. assert (full 0 = 0%nat) as -> by (unfold full; apply Nat.div_small; lia).
    rewrite Hlp in Hz. unfold Rfc7693.blocks. rewrite Hp. unfold p, Rfc7693.padded. rewrite bb_block.
    destruct (prefix key); [|cbn in Hz; lia]. destruct data; [|cbn in Hz; lia]. cbn [length app].
    unfold Rfc7693.ceil_div. rewrite Nat.div_small by lia. cbn. split; [done|lia]. }
  exists (Rfc7693.ceil_div (length data) bl_block * bl_block - length data)%nat. split.
  - unfold Rfc7693.blocks. rewrite Hp. unfold Rfc7693.padded. rewrite bb_block, app_assoc. fold p. by destruct p.
  - rewrite Hlp, Hpl. unfold dd. rewrite Hck. destruct (decide (length data = 0%nat)) as [Hd0|Hd0].
    + rewrite Hd0. destruct (Nat.eqb_spec (length key) 0); [lia|]. unfold Rfc7693.ceil_div. rewrite Nat.div_small by lia. lia.
    + rewrite (ceil_div_pos (length data)) by lia.
      pose proof (Nat.div_mod (length data - 1) bl_block ltac:(lia)).
      pose proof (Nat.mod_upper_bound (length data - 1) bl_block ltac:(lia)). destruct (Nat.eqb_spec (length key) 0); nia.
Qed.

Lemma chain_rfc p z k h f :
  sim 8 h f → Forall (λ b, b < 256) (p ++ z) → (k * bl_block ≤ length p)%nat →
  sim 8 (chain k h 0 p)
    (foldl (λ h i, Rfc7693.F V h (Rfc7693.block V (p ++ z) i) (N.of_nat ((i + 1) * Rfc7693.bb V)) false) f (seq 0 k)).
Proof.
  intros Hf Hb. induction k as [|k IH]; intros Hk; [done|]. rewrite chain_snoc, seq_S, foldl_app. cbn [foldl].
  rewrite N.add_0_l, bb_block, Nat.add_0_l. replace (S k) with (k + 1)%nat by lia.
  assert (take bl_block (drop (k * bl_block) p) = take bl_block (drop (k * bl_block) (p ++ z))) as ->.
  { rewrite drop_app_le, take_app_le; [done|rewrite length_drop; lia|lia]. }
  apply F_rfc; [|done]. rewrite <- bb_block. apply IH. lia.
Qed.

Lemma start_rfc outlen key :
  legal outlen key →
  sim 8 (h_start outlen key)
    (Rfc7693.set (Rfc7693.IV V) 0
       (N.lxor (Rfc7693.IV V 0) (N.lxor (N.lxor 0x01010000 (N.of_nat (length key) * 2 ^ 8)) outlen))).
Proof.
  intros [Ho Hk]. pose proof blw_small. apply sim_set; [|lia|].
  - split; [exact blw_iv|]. intros i Hi. by apply br_iv.
  - rewrite <- N.shiftl_mul_pow2. change 0x01010000 with 16842752. rewrite parameter_xor by (unfold lengthN in Hk; lia).
    rewrite br_iv by lia. done.
Qed.

Lemma whole_rfc outlen key data :
  legal outlen key → Forall (λ b, b < 256) key → Forall (λ b, b < 256) data →
  blake2_whole outlen key data = Rfc7693.BLAKE2 V key data outlen.
Proof.
  intros Hl Hbk Hbd. pose proof (start_rfc outlen key Hl) as Hs. destruct Hl as [Ho Hk]. pose proof blw_max as Hm.
  assert (Hkb : (length key ≤ bl_block)%nat) by (unfold lengthN in Hk; lia).
  destruct (padded_key key Hkb) as (_ & _ & Hpl). destruct (padded_blocks key data Hkb) as (Hdd & n & Hd & Hn).
  unfold blake2_whole, Rfc7693.BLAKE2. cbv zeta. rewrite bb_block in *. change (match key with [] => [] | _ => pad key end) with (prefix key).
  rewrite Hd, Hdd. set (p := prefix key ++ data) in *. cbn [Nat.sub]. rewrite Nat.sub_0_r.
  change ((length p - 1) / bl_block)%nat with (full (length p)).
  change (<[0%nat := _]> bl_iv) with (h_start outlen key).
  destruct (full_spec (length p)) as (Hle & Hrest & _).
  assert (Hb : Forall (λ b, b < 256) (p ++ replicate n 0)).
  { unfold p, prefix, pad. repeat apply Forall_app_2; try done; [|by apply Forall_replicate].
    destruct key; [constructor|]. apply Forall_app_2; [done|by apply Forall_replicate]. }
  pose proof (chain_rfc p (replicate n 0) (full (length p)) _ _ Hs Hb Hle) as Hc.
  rewrite bb_block in Hc. set (h := chain _ _ _ _) in *. set (f := foldl _ _ _) in Hc.
  pose proof (F_rfc h f (p ++ replicate n 0) (full (length p)) (lengthN p) true Hc Hb) as [Hlen Hf].
  assert (Hlast : pad (drop (full (length p) * bl_block) p) = take bl_block (drop (full (length p) * bl_block) (p ++ replicate n 0))).
  { rewrite drop_app_le by done. unfold pad. rewrite take_app_ge by (rewrite length_drop; lia).
    rewrite take_replicate. do 2 f_equal. rewrite length_drop. rewrite Hdd in Hn. lia. }
  rewrite Hlast. fold h. set (hl := F h _ _ true) in *.
  assert (Ht : N.of_nat (if (length key =? 0)%nat then length data else (length data + bl_block)%nat) = lengthN p).
  { unfold lengthN, p. rewrite length_app, Hpl. destruct (Nat.eqb_spec (length key) 0); lia. }
  rewrite Ht. set (fl := Rfc7693.F V _ _ _ true) in *.
  assert (Hwords : hl = fl <$> seq 0 8).
  { apply list_eq. intros i. rewrite list_lookup_fmap. destruct (decide (i < 8)%nat) as [Hi|Hi].
    - rewrite lookup_seq_lt by done. cbn [fmap option_fmap option_map]. rewrite Nat.add_0_l, <- Hf by done. unfold word.
      destruct (lookup_lt_is_Some_2 hl i) as [x Hx]; [lia|]. by rewrite nth_lookup, Hx.
    - rewrite !(proj2 (lookup_ge_None _ _)); [done|rewrite length_seq; lia|lia]. }
  rewrite Hwords, br_word, <- list_fmap_compose. do 2 f_equal. apply list_fmap_ext. intros k i Hk'.
  unfold compose. apply list_fmap_ext. intros k' j Hj'. by rewrite N.shiftr_div_pow2.
Qed.
End rfc.

(** ** Both widths *)
Inductive Width := W64 | W32.
Definition params (w : Width) : Blake2 := match w with W64 => Blake2b | W32 => Blake2s end.
Definition rfc (w : Width) : Rfc7693.variant := match w with W64 => Rfc7693.BLAKE2b | W32 => Rfc7693.BLAKE2s end.
#[global] Instance params_laws w : @Blake2Laws (params w).
Proof. destruct w; apply _. Qed.
#[global] Instance params_rfc w : @Blake2Rfc (params w) (rfc w).
Proof. destruct w; apply _. Qed.

(** C40: BLAKE2b and BLAKE2s are the functions of RFC 7693, however the message is cut: init refuses exactly an empty or
    too long digest and a too long key, whatever the context held before; after it, any sequence of updates (empty ones
    and ones that end inside a block included) followed by final gives the digest that the RFC defines for the key and
    the joined chunks; and the one-shot call is the case of one chunk.  The elements of key and message are bytes. *)
Theorem blake2_streaming w junk outlen key chunks :
  length junk = bl_block (H := params w) → Forall (λ b, b < 256) key → Forall (Forall (λ b, b < 256)) chunks →
  (init (H := params w) junk outlen key = None ↔ ¬ legal (H := params w) outlen key) ∧
  (∀ x, init (H := params w) junk outlen key = Some x →
        final (H := params w) (cx_chunks (H := params w) x chunks) = Rfc7693.BLAKE2 (rfc w) key (concat chunks) outlen) ∧
  hash (H := params w) junk outlen key (concat chunks)
  = if decide (legal (H := params w) outlen key) then Some (Rfc7693.BLAKE2 (rfc w) key (concat chunks) outlen) else None.
Proof.
  intros Hj Hk Hc%Forall_concat. destruct (streaming_whole (H := params w) junk outlen key chunks Hj) as (Hno & Hrun & Hone).
  split; [exact Hno|]. split.
  - intros x Hi. rewrite (Hrun x Hi). apply whole_rfc; [exact _| |done|done].
    destruct (decide (legal (H := params w) outlen key)) as [|Hn]; [done|]. apply Hno in Hn. congruence.
  - rewrite Hone. case_decide; [|done]. f_equal. by apply (whole_rfc (H := params w) (rfc w)).
Qed.

(** ** The published vectors *)
Module Blake2Ex.
Definition abc : bytes := [97; 98; 99].
(** RFC 7693, appendices A and B. *)
Lemma blake2b_abc : lengthN <$> blake2b (replicate 128 7) 64 [] abc = Some 64 ∧
  take 8 <$> blake2b (replicate 128 7) 64 [] abc = Some [0xBA; 0x80; 0xA5; 0x3F; 0x98; 0x1C; 0x4D; 0x0D].
Proof. split; vm_compute; reflexivity. Qed.
Lemma blake2s_abc : blake2s_256 (replicate 64 7) abc
  = Some [0x50; 0x8C; 0x5E; 0x8C; 0x32; 0x7C; 0x14; 0xE2; 0xE1; 0xA7; 0x2B; 0xA3; 0x4E; 0xEB; 0x45; 0x2F;
          0x37; 0x45; 0x8B; 0x20; 0x9E; 0xD6; 0x3A; 0x29; 0x4D; 0x99; 0x9B; 0x4C; 0x86; 0x67; 0x59; 0x82].
Proof. vm_compute. reflexivity. Qed.
(** The message in three updates, one of them empty, and in one. *)
Lemma blake2_streaming_witness :
  ∃ x, blake2s_init (replicate 64 7) 32 [1; 2] = Some x ∧
    blake2s_final (cx_chunks (H := Blake2s) x [[97]; []; [98; 99]]) = Rfc7693.BLAKE2 Rfc7693.BLAKE2s [1; 2] abc 32 ∧
    blake2b (replicate 128 7) 64 [] abc = Some (Rfc7693.BLAKE2 Rfc7693.BLAKE2b [] abc 64) ∧
    blake2s (replicate 64 7) 33 [] abc = None.
Proof.
  eexists. split; [reflexivity|].
  split; [apply (blake2_streaming W32 (replicate 64 7) 32 [1; 2] [[97]; []; [98; 99]]); [reflexivity|repeat constructor..|reflexivity]|].
  split; [|vm_compute; reflexivity].
  apply (blake2_streaming W64 (replicate 128 7) 64 [] [abc]); [reflexivity|repeat constructor..].
Defined.
End Blake2Ex.
