(* ===== verification/Metrics.v ===== *)
(** * Metrics (src/src/metrics/metrics.hpp, metrics/impl/prometheus/handler_impl.cpp,
    registry_impl.hpp)

    Timers that observe a histogram when they end, the registry of metrics and the handler that
    collects them.  Values and the text format are the Prometheus library. *)

From S2P Require Import Prelude Errors Rlp.

(** ** HistogramTimer

    A timer is an object at an address; moving hands the measurement to another object.  Times are
    nanoseconds of the steady clock. *)
Record HistogramTimer := mkHistogramTimer {
  ht_histogram : option N;        (* null for none *)
  ht_start_time : N;
  ht_running : bool;
}.
(** What happens to a measurement, with its histogram and start: the elapsed time is observed, or it is dropped. *)
Inductive TimerEvent :=
| Observed (h : option N) (start elapsed : N)
| Dropped (h : option N) (start : N).
Record Timers := mkTimers {
  tm_timers : gmap N HistogramTimer;
  tm_events : list TimerEvent;
}.
Definition set_timer (p : N) (t : HistogramTimer) (s : Timers) : Timers := mkTimers (<[p := t]> (tm_timers s)) (tm_events s).
Definition halt (t : HistogramTimer) : HistogramTimer := mkHistogramTimer (ht_histogram t) (ht_start_time t) false.

Section timers.
Local Abbreviation M := (SM Timers error).

Definition get_timer (p : N) : M HistogramTimer := λ s, (of_option UndefinedBehaviour (tm_timers s !! p), s).
Definition log_event (e : TimerEvent) : M () := sm_modify (λ s, mkTimers (tm_timers s) (tm_events s ++ [e])).

(** Histogram::timer and the constructor; the address is not in use. *)
Definition timer_new (p : N) (histogram : option N) (now : N) : M () := λ s,
  match tm_timers s !! p with
  | Some _ => (Throw UndefinedBehaviour, s)
  | None => (Ok (), set_timer p (mkHistogramTimer histogram now true) s)
  end.
Definition elapsed (p : N) (now : N) : M N := t ← get_timer p; mret (now - ht_start_time t).
Definition stop (p : N) (now : N) : M N :=
  t ← get_timer p;
  if negb (ht_running t) then mret 0
  else
    elapsed_time ← elapsed p now;
    sm_modify (set_timer p (halt t)) ≫= λ _,
    (* a null histogram is not called *)
    log_event (Observed (ht_histogram t) (ht_start_time t) elapsed_time) ≫= λ _,
    mret elapsed_time.
Definition stopWithoutObserving (p : N) (now : N) : M N :=
  t ← get_timer p;
  if negb (ht_running t) then mret 0
  else
    elapsed_time ← elapsed p now;
    sm_modify (set_timer p (halt t)) ≫= λ _,
    log_event (Dropped (ht_histogram t) (ht_start_time t)) ≫= λ _,
    mret elapsed_time.
(** The destructor *)
Definition timer_destroy (p : N) (now : N) : M () :=
  t ← get_timer p;
  (if ht_running t then stop p now ≫= λ _, mret () else mret ()) ≫= λ _,
  sm_modify (λ s, mkTimers (delete p (tm_timers s)) (tm_events s)).
(** The move constructor and move assignment *)
Definition timer_move (p other : N) : M () :=
  o ← get_timer other;
  (λ s, match tm_timers s !! p with
        | Some _ => (Throw UndefinedBehaviour, s)
        | None => (Ok (), set_timer p o s)
        end) ≫= λ _,
  sm_modify (set_timer other (halt o)).
Definition timer_assign (p other : N) (now : N) : M () :=
  if p =? other then mret ()
  else
    t ← get_timer p;
    (if ht_running t then stop p now ≫= λ _, mret () else mret ()) ≫= λ _,
    o ← get_timer other;
    sm_modify (set_timer p o) ≫= λ _,
    sm_modify (set_timer other (halt o)).

(** A program that uses timers. *)
Inductive TimerOp :=
| TNew (p : N) (histogram : option N)
| TStop (p : N)
| TStopWithoutObserving (p : N)
| TDestroy (p : N)
| TMove (p other : N)
| TAssign (p other : N).
Definition timer_op (op : TimerOp) (now : N) : M () :=
  match op with
  | TNew p h => timer_new p h now
  | TStop p => stop p now ≫= λ _, mret ()
  | TStopWithoutObserving p => stopWithoutObserving p now ≫= λ _, mret ()
  | TDestroy p => timer_destroy p now
  | TMove p q => timer_move p q
  | TAssign p q => timer_assign p q now
  end.
Definition timer_run (ops : list (TimerOp * N)) : M () := sm_iter (λ '(op, now), timer_op op now) ops.
End timers.

(** ** PrometheusRegistry *)
Inductive MetricKind := KCounter | KGauge | KHistogram | KSummary.
#[global] Instance MetricKind_eq_dec : EqDecision MetricKind.
Proof. solve_decision. Defined.
Abbreviation Labels := (list (bytes * bytes)).

(** The library: its state, registering a family (which can throw), adding a metric to a family *)
Class Prometheus := {
  PromState : Type;
  prom_register : MetricKind → bytes → bytes → Labels → PromState → outcome error N * PromState;
  prom_kind : PromState → N → MetricKind;
  prom_add : N → Labels → PromState → N * PromState;
}.

Section registry.
Context `{Prometheus}.
Record PrometheusRegistry := mkPrometheusRegistry {
  pr_library : PromState;
  pr_family : gmap bytes N;
  pr_metrics : MetricKind → list N;       (* the forward_lists of metrics_ *)
}.
Local Abbreviation M := (SM PrometheusRegistry error).
Definition push_metric (k : MetricKind) (m : N) (s : PrometheusRegistry) : PrometheusRegistry :=
  mkPrometheusRegistry (pr_library s) (pr_family s) (λ k', if decide (k' = k) then m :: pr_metrics s k' else pr_metrics s k').
Definition set_library (l : PromState) (s : PrometheusRegistry) : PrometheusRegistry :=
  mkPrometheusRegistry l (pr_family s) (pr_metrics s).

(** registerFamily: emplace keeps a family of that name *)
Definition registerFamily (k : MetricKind) (name help : bytes) (labels : Labels) : M () := λ s,
  let '(r, l) := prom_register k name help labels (pr_library s) in
  match r with
  | Ok f => (Ok (), mkPrometheusRegistry l (match pr_family s !! name with Some _ => pr_family s | None => <[name := f]> (pr_family s) end)
                      (pr_metrics s))
  | Err e => (Err e, set_library l s)
  | Throw x => (Throw x, set_library l s)
  end.
(** registerMetric: at and the cast of a reference throw; the position in the list is returned *)
Definition registerMetric (k : MetricKind) (name : bytes) (labels : Labels) : M N :=
  s ← sm_get;
  f ← sm_lift (of_option OutOfRange (pr_family s !! name));
  if decide (prom_kind (pr_library s) f = k) then
    let '(var, l) := prom_add f labels (pr_library s) in
    sm_modify (λ s, push_metric k var (set_library l s)) ≫= λ _, mret var
  else sm_throw BadCast.
End registry.

(** ** PrometheusHandler

    A weak pointer is the number of its object; [alive] are the objects that exist. *)
Section handler.
Context {Family : Type} (Collect : N → list Family).

(** std::remove_if and erase *)
Definition retain_if {A} (predicate : A → bool) (v : list A) : list A := List.filter predicate v.

Fixpoint CollectMetrics (alive : gset N) (collectables : list N) : list Family :=
  match collectables with
  | [] => []
  | c :: collectables =>
      (if decide (c ∈ alive) then Collect c else []) ++ CollectMetrics alive collectables
  end.
Definition cleanupStalePointers (alive : gset N) (collectables : list N) : list N :=
  retain_if (λ c, bool_decide (c ∈ alive)) collectables.
Definition registerCollectable (alive : gset N) (collectable : N) (collectables : list N) : list N :=
  cleanupStalePointers alive collectables ++ [collectable].
Definition removeCollectable (collectable : N) (collectables : list N) : list N :=
  retain_if (λ candidate, bool_decide (candidate = collectable)) collectables.
End handler.

(** * Every measurement ends once *)

(** The measurement of a running timer *)
Definition measuring (t : HistogramTimer) : list (option N * N) :=
  if ht_running t then [(ht_histogram t, ht_start_time t)] else [].
Definition running_of (m : gmap N HistogramTimer) : list (option N * N) := map_to_list m ≫= λ e, measuring e.2.
(** The measurement an event ends *)
Definition ended (e : TimerEvent) : option N * N :=
  match e with Observed h start _ => (h, start) | Dropped h start => (h, start) end.
Definition measurements (s : Timers) : list (option N * N) := running_of (tm_timers s) ++ (ended <$> tm_events s).
(** The measurements a program starts *)
Definition starts (op : TimerOp) (now : N) : list (option N * N) :=
  match op with TNew _ h => [(h, now)] | _ => [] end.

Lemma running_new m p t : m !! p = None → running_of (<[p := t]> m) ≡ₚ measuring t ++ running_of m.
Proof. intros Hp. unfold running_of. by rewrite map_to_list_insert. Qed.
Lemma running_delete m p t : m !! p = Some t → running_of m ≡ₚ measuring t ++ running_of (delete p m).
Proof. intros Hp. unfold running_of. by rewrite <- (map_to_list_delete m p t Hp). Qed.
Lemma running_update m p t t' :
  m !! p = Some t → measuring t ++ running_of (<[p := t']> m) ≡ₚ measuring t' ++ running_of m.
Proof.
  intros Hp. rewrite (running_delete m p t Hp), <- insert_delete_eq, running_new by apply lookup_delete_eq.
  by rewrite !app_assoc, (Permutation_app_comm (measuring t)).
Qed.
Lemma measuring_halt t : measuring (halt t) = [].
Proof. done. Qed.

Lemma stop_run p now s :
  stop p now s = match tm_timers s !! p with
    | None => (Throw UndefinedBehaviour, s)
    | Some t =>
        if ht_running t
        then (Ok (now - ht_start_time t),
              mkTimers (<[p := halt t]> (tm_timers s)) (tm_events s ++ [Observed (ht_histogram t) (ht_start_time t) (now - ht_start_time t)]))
        else (Ok 0, s)
    end.
Proof.
  unfold stop, elapsed, get_timer, mbind, sm_bind. destruct (tm_timers s !! p) as [t|] eqn:Hp; [|done]. cbn [of_option].
  destruct (ht_running t); cbn [negb]; [|done]. by rewrite Hp.
Qed.
Lemma drop_run p now s :
  stopWithoutObserving p now s = match tm_timers s !! p with
    | None => (Throw UndefinedBehaviour, s)
    | Some t =>
        if ht_running t
        then (Ok (now - ht_start_time t),
              mkTimers (<[p := halt t]> (tm_timers s)) (tm_events s ++ [Dropped (ht_histogram t) (ht_start_time t)]))
        else (Ok 0, s)
    end.
Proof.
  unfold stopWithoutObserving, elapsed, get_timer, mbind, sm_bind. destruct (tm_timers s !! p) as [t|] eqn:Hp; [|done]. cbn [of_option].
  destruct (ht_running t); cbn [negb]; [|done]. by rewrite Hp.
Qed.

(** Ending the measurement of a timer moves it to the events. *)
Lemma end_measurement m evs p t e :
  m !! p = Some t → ht_running t = true → ended e = (ht_histogram t, ht_start_time t) →
  measurements (mkTimers (<[p := halt t]> m) (evs ++ [e])) ≡ₚ measurements (mkTimers m evs).
Proof.
  intros Hp Hr He. unfold measurements. cbn [tm_timers tm_events]. rewrite fmap_app. cbn [fmap list_fmap]. rewrite He.
  pose proof (running_update m p t (halt t) Hp) as Hu. rewrite measuring_halt in Hu. unfold measuring in Hu. rewrite Hr in Hu.
  cbn [app] in Hu. rewrite <- Hu, app_assoc, (Permutation_app_comm _ [_]). done.
Qed.

(** stop keeps the measurements; afterwards the timer does not run. *)
Lemma stop_keeps p now s x s' :
  stop p now s = (Ok x, s') →
  measurements s' ≡ₚ measurements s ∧ (∃ t, tm_timers s' !! p = Some t ∧ ht_running t = false) ∧
  (∀ q, q ≠ p → tm_timers s' !! q = tm_timers s !! q) ∧
  ∀ h st e, Observed h st e ∈ tm_events s' → Observed h st e ∈ tm_events s ∨ e = now - st.
Proof.
  rewrite stop_run. destruct (tm_timers s !! p) as [t|] eqn:Hp; [|done].
  destruct (ht_running t) eqn:Hr; intros [= <- <-]; cbn [tm_timers tm_events].
  - split; [destruct s; by apply end_measurement|]. split; [eexists; by rewrite lookup_insert_eq|].
    split; [intros q Hq; by rewrite lookup_insert_ne|].
    intros h st e [He|He]%elem_of_app; [by left|]. apply list_elem_of_singleton in He as [= -> -> ->]. by right.
  - split; [done|]. split; [by exists t|]. split; [done|]. by left.
Qed.

(** A measurement that moves stays one measurement. *)
Lemma hand_over m p q o :
  p ≠ q → m !! q = Some o → running_of (<[p := o]> m) ≡ₚ measuring o ++ running_of m →
  running_of (<[q := halt o]> (<[p := o]> m)) ≡ₚ running_of m.
Proof.
  intros Hpq Hq Hp. assert (Hq' : <[p := o]> m !! q = Some o) by (by rewrite lookup_insert_ne).
  pose proof (running_update _ q o (halt o) Hq') as Hu. rewrite measuring_halt, Hp in Hu.
  cbn [app] in Hu. by apply Permutation_app_inv_l in Hu.
Qed.
(** The destructor and the assignment end what their timer measures. *)
Lemma settle p now t s s1 y :
  tm_timers s !! p = Some t → (if ht_running t then stop p now ≫= λ _, mret () else mret ()) s = (Ok y, s1) →
  measurements s1 ≡ₚ measurements s ∧ (∃ t, tm_timers s1 !! p = Some t ∧ ht_running t = false) ∧
  (∀ q, q ≠ p → tm_timers s1 !! q = tm_timers s !! q) ∧
  ∀ h st e, Observed h st e ∈ tm_events s1 → Observed h st e ∈ tm_events s ∨ e = now - st.
Proof.
  intros Hp. destruct (ht_running t) eqn:Hr.
  - intros (x & s2 & Hs & [= _ <-])%sm_bind_ok_inv. by apply stop_keeps in Hs.
  - intros [= _ <-]. split; [done|]. split; [by exists t|]. split; [done|]. by left.
Qed.

Lemma op_keeps op now s s' :
  timer_op op now s = (Ok (), s') →
  measurements s' ≡ₚ starts op now ++ measurements s ∧
  ∀ h st e, Observed h st e ∈ tm_events s' → Observed h st e ∈ tm_events s ∨ e = now - st.
Proof.
  destruct op as [p h|p|p|p|p q|p q]; cbn [timer_op starts app].
  - unfold timer_new. destruct (tm_timers s !! p) eqn:Hp; [done|]. intros [= <-]. split; [|by left].
    unfold measurements, set_timer. cbn [tm_timers tm_events]. by rewrite running_new.
  - intros (x & s1 & Hs & [= <-])%sm_bind_ok_inv. by apply stop_keeps in Hs as (? & _ & _ & ?).
  - intros (x & s1 & Hs & [= <-])%sm_bind_ok_inv. rewrite drop_run in Hs. destruct (tm_timers s !! p) as [t|] eqn:Hp; [|done].
    destruct (ht_running t) eqn:Hr; injection Hs as <- <-; [|split; [done|by left]]. split.
    + destruct s. by apply end_measurement.
    + cbn [tm_events]. intros h st e [He|He]%elem_of_app; [by left|]. by apply list_elem_of_singleton in He.
  - unfold timer_destroy. intros (t & s0 & Ht & Hrest)%sm_bind_ok_inv. unfold get_timer in Ht.
    destruct (tm_timers s !! p) as [t'|] eqn:Hp; [|done]. injection Ht as <- <-.
    apply sm_bind_ok_inv in Hrest as (y & s1 & Hs1 & [= <-]).
    destruct (settle _ _ _ _ _ _ Hp Hs1) as (Hm & (t1 & Ht1 & Hr1) & _ & He). split; [|exact He]. rewrite <- Hm.
    unfold measurements. cbn [tm_timers tm_events].
    rewrite (running_delete _ _ _ Ht1). unfold measuring. by rewrite Hr1.
  - unfold timer_move. intros (o & s0 & Ho & Hrest)%sm_bind_ok_inv. unfold get_timer in Ho.
    destruct (tm_timers s !! q) as [o'|] eqn:Hq; [|done]. injection Ho as <- <-.
    apply sm_bind_ok_inv in Hrest as (y & s1 & Hs1 & [= <-]). destruct (tm_timers s !! p) as [t|] eqn:Hp; [done|].
    injection Hs1 as _ <-. split; [|by left]. unfold measurements, set_timer. cbn [tm_timers tm_events].
    rewrite hand_over; [done|congruence|done|by apply running_new].
  - unfold timer_assign. destruct (N.eqb_spec p q) as [->|Hpq]; [intros [= <-]; split; [done|by left]|].
    intros (t & s0 & Ht & Hrest)%sm_bind_ok_inv. unfold get_timer in Ht.
    destruct (tm_timers s !! p) as [t'|] eqn:Hp; [|done]. injection Ht as <- <-.
    apply sm_bind_ok_inv in Hrest as (y & s1 & Hs1 & Hrest).
    destruct (settle _ _ _ _ _ _ Hp Hs1) as (Hm & (t1 & Ht1 & Hr1) & _ & He).
    apply sm_bind_ok_inv in Hrest as (o & s2 & Ho & Hrest). unfold get_timer in Ho.
    destruct (tm_timers s1 !! q) as [o'|] eqn:Hq; [|done]. injection Ho as <- <-. injection Hrest as <-. split; [|exact He].
    rewrite <- Hm. unfold measurements, set_timer. cbn [tm_timers tm_events]. rewrite hand_over; [done..|].
    pose proof (running_update _ _ _ o' Ht1) as Hu. unfold measuring at 1 in Hu. by rewrite Hr1 in Hu.
Qed.

(** Every measurement that a program starts ends exactly once: however timers are stopped, moved, assigned and
    destroyed, the measurements started are those of the timers that still run and those that were observed or
    dropped, each counted once; an observed time is the time from the start of its measurement to the operation that
    ended it; and when no timer is left every measurement that was not dropped has been observed once. *)
Theorem measurements_end_once ops s' :
  timer_run ops (mkTimers ∅ []) = (Ok (), s') →
  (ops ≫= λ '(op, now), starts op now) ≡ₚ measurements s' ∧
  (∀ h st e, Observed h st e ∈ tm_events s' → ∃ op now, (op, now) ∈ ops ∧ e = now - st) ∧
  (tm_timers s' = ∅ → (ops ≫= λ '(op, now), starts op now) ≡ₚ ended <$> tm_events s').
Proof.
  intros Hrun.
  assert (Hgen : ∀ ops s s', timer_run ops s = (Ok (), s') →
    (ops ≫= λ '(op, now), starts op now) ++ measurements s ≡ₚ measurements s' ∧
    ∀ h st e, Observed h st e ∈ tm_events s' → Observed h st e ∈ tm_events s ∨ ∃ op now, (op, now) ∈ ops ∧ e = now - st).
  { clear. induction ops as [|[op now] ops IH]; intros s s'; cbn [timer_run sm_iter].
    - intros [= <-]. split; [done|by left].
    - intros ([] & s1 & H1 & H2)%sm_bind_ok_inv. apply op_keeps in H1 as [Hm1 He1]. destruct (IH _ _ H2) as [Hm2 He2]. split.
      + rewrite <- Hm2, Hm1. cbn [mbind list_bind]. by rewrite <- app_assoc, !app_assoc, (Permutation_app_comm (starts op now)).
      + intros h st e He. destruct (He2 _ _ _ He) as [Hl|(op' & now' & Hin & ->)].
        * destruct (He1 _ _ _ Hl) as [| ->]; [by left|]. right. exists op, now. split; [by left|done].
        * right. exists op', now'. split; [by right|done]. }
  destruct (Hgen _ _ _ Hrun) as [Hm He].
  assert (Hm' : (ops ≫= λ '(op, now), starts op now) ≡ₚ measurements s').
  { rewrite <- Hm. unfold measurements, running_of. cbn [tm_timers tm_events]. by rewrite map_to_list_empty, app_nil_r. }
  split; [exact Hm'|]. split.
  - intros h st e Hin. destruct (He _ _ _ Hin) as [Hnil|Hop]; [by apply elem_of_nil in Hnil|exact Hop].
  - intros Hempty. rewrite Hm'. unfold measurements, running_of. by rewrite Hempty, map_to_list_empty.
Qed.

(** ** The registry *)
Section registry_proofs.
Context `{Prometheus}.
(** A metric is added to the list of its kind on every call, also when the library has it already. *)
Lemma registerMetric_grows k name labels (s : PrometheusRegistry) f :
  pr_family s !! name = Some f → prom_kind (pr_library s) f = k →
  ∃ m s', registerMetric k name labels s = (Ok m, s') ∧ pr_metrics s' k = m :: pr_metrics s k ∧ pr_family s' = pr_family s.
Proof.
  intros Hf Hk. unfold registerMetric, mbind, sm_bind, sm_get, sm_lift. rewrite Hf. cbn [of_option]. rewrite decide_True by done.
  destruct (prom_add f labels (pr_library s)) as [m l]. do 2 eexists. split; [reflexivity|]. cbn. by rewrite decide_True.
Qed.
(** An unknown name and a family of another kind throw and change nothing. *)
Lemma registerMetric_refuses k name labels (s : PrometheusRegistry) :
  match pr_family s !! name with
  | None => registerMetric k name labels s = (Throw OutOfRange, s)
  | Some f => prom_kind (pr_library s) f ≠ k → registerMetric k name labels s = (Throw BadCast, s)
  end.
Proof.
  unfold registerMetric, mbind, sm_bind, sm_get, sm_lift. destruct (pr_family s !! name) as [f|]; [|done]. cbn [of_option].
  intros Hk. by rewrite decide_False.
Qed.
End registry_proofs.

(** ** The handler *)
Section handler_proofs.
Context {Family : Type} (Collect : N → list Family).

(** Collecting gives the families of every object that is alive, in the order of registration;
    registering keeps what is alive and adds the new object. *)
Lemma collect_after_register alive c l :
  CollectMetrics Collect alive (registerCollectable alive c l) = CollectMetrics Collect alive l ++ CollectMetrics Collect alive [c].
Proof.
  unfold registerCollectable, cleanupStalePointers, retain_if. induction l as [|x l IH]; [done|].
  cbn [List.filter CollectMetrics]. case_bool_decide as Hx; [rewrite decide_True by done|rewrite decide_False by done; exact IH].
  cbn [app CollectMetrics]. rewrite decide_True by done. by rewrite IH, app_assoc.
Qed.
(** removeCollectable removes all the others. *)
Lemma remove_keeps_only c l x : x ∈ removeCollectable c l ↔ x ∈ l ∧ x = c.
Proof.
  unfold removeCollectable, retain_if. rewrite !list_elem_of_In, List.filter_In, bool_decide_eq_true. done.
Qed.
End handler_proofs.

Module MetricsEx.
(** A timer that is moved, one that is stopped twice and one that is dropped. *)
Definition program : list (TimerOp * N) :=
  [(TNew 1 (Some 7), 10); (TMove 2 1, 12); (TDestroy 1, 15); (TNew 3 (Some 8), 20); (TStop 3, 24); (TStop 3, 30);
   (TNew 4 (Some 9), 40); (TStopWithoutObserving 4, 41); (TAssign 4 2, 50); (TDestroy 2, 51); (TDestroy 3, 52); (TDestroy 4, 60)].
Lemma measurements_end_once_witness :
  ∃ s', timer_run program (mkTimers ∅ []) = (Ok (), s') ∧
    tm_events s' = [Observed (Some 8) 20 4; Dropped (Some 9) 40; Observed (Some 7) 10 50] ∧
    [(Some 7, 10); (Some 8, 20); (Some 9, 40)] ≡ₚ ended <$> tm_events s'.
Proof.
  eexists. split; [vm_compute; reflexivity|]. split; [reflexivity|].
  apply (measurements_end_once program); [vm_compute; reflexivity|reflexivity].
Defined.
End MetricsEx.
