(* ===== verification/Loaders.v ===== *)
(** * How the parts of the node are connected (src/src/se/subscription.hpp, subscription_fwd.hpp,
    src/src/se/impl/compile-time_murmur2.hpp, src/src/loaders/impl/, src/src/app/impl/timeline_impl.cpp, the notifications of
    block_tree_impl.cpp)

    The loaders and the timeline subscribe the handlers of the modules to events, over
    Subscription.v.  The engine that carries an event is chosen by the C++ types of its data, so an
    event reaches the subscribers of its key only when the types agree, qualifiers included.  The
    engine's number is MurmurHash2 of the name the compiler gives to a function of these types. *)

From Stdlib Require Import String Ascii.
From S2P Require Import Prelude Errors Types CachedTree Networking BlockTree Scheduler SchedulerTheorems Subscription.
From S2P Require Import SubscriptionTheorems NetworkingModule.

(** ** Hasher: MurmurHash2 with seed 0 on the characters of a literal *)
Module Hasher.
Definition u32 (x : N) : N := x mod 2 ^ 32.
(** A char, which is signed, as an operand of uint32_t *)
Definition char (c : N) : N := if c <? 128 then c else c + (2 ^ 32 - 2 ^ 8).
Definition at_ (data : list N) (offset : nat) : N := char (nth offset data 0).

Definition __init__ (len : N) : N := N.lxor 0 len.
Definition __mul__ (val1 val2 : N) : N := u32 (val1 * val2).
Definition __sl__ (value count : N) : N := u32 (N.shiftl value count).
Definition __sr__ (value count : N) : N := N.shiftr value count.
Definition __xor__ (h k : N) : N := N.lxor h k.
Definition __xor_with_sr__ (k r : N) : N := __xor__ k (__sr__ k r).
Definition __load__ (data : list N) (offset : nat) : N :=
  N.lor (N.lor (N.lor (at_ data (offset + 0)) (__sl__ (at_ data (offset + 1)) 8))
           (__sl__ (at_ data (offset + 2)) 16)) (__sl__ (at_ data (offset + 3)) 24).

Fixpoint __proc__ (data : list N) (len : nat) (offset : nat) (h m r : N) : N :=
  match len with
  | S (S (S (S len))) =>
      __proc__ data len (offset + 4)
        (__xor__ (__mul__ h m) (__mul__ (__xor_with_sr__ (__mul__ (__load__ data offset) m) r) m)) m r
  | S (S (S O) as len) => __proc__ data len offset (__xor__ h (__sl__ (at_ data (offset + 2)) 16)) m r
  | S (S O as len) => __proc__ data len offset (__xor__ h (__sl__ (at_ data (offset + 1)) 8)) m r
  | S (O as len) => __proc__ data len offset (__mul__ (__xor__ h (at_ data offset)) m) m r
  | O => __xor__ (__mul__ (__xor_with_sr__ h 13) m) (__sr__ (__mul__ (__xor_with_sr__ h 13) m) 15)
  end.

Definition murmur2 (data : list N) (len : nat) : N :=
  __proc__ data len 0 (__init__ (N.of_nat len)) 0x5bd1e995 24.
(** CT_MURMUR2, of the characters of a literal without the null *)
Definition CT_MURMUR2 (x : list N) : N := murmur2 x (length x).

(** *** The published algorithm, on the bytes that remain *)
Definition M : N := 0x5bd1e995.
Definition le_word (a b c d : N) : N := a + 2 ^ 8 * b + 2 ^ 16 * c + 2 ^ 24 * d.
Definition xorshift (n x : N) : N := N.lxor x (x / 2 ^ n).
Definition mix (h k : N) : N :=
  let k := k * M mod 2 ^ 32 in
  let k := xorshift 24 k in
  let k := k * M mod 2 ^ 32 in
  let h := h * M mod 2 ^ 32 in
  N.lxor h k.
Definition finish (h : N) : N :=
  let h := xorshift 13 h in
  let h := h * M mod 2 ^ 32 in
  xorshift 15 h.
Fixpoint rounds (h : N) (data : list N) : N :=
  match data with
  | a :: b :: c :: d :: data => rounds (mix h (le_word a b c d)) data
  | [a; b; c] => finish (N.lxor (N.lxor (N.lxor h (2 ^ 16 * c)) (2 ^ 8 * b)) a * M mod 2 ^ 32)
  | [a; b] => finish (N.lxor (N.lxor h (2 ^ 8 * b)) a * M mod 2 ^ 32)
  | [a] => finish (N.lxor h a * M mod 2 ^ 32)
  | [] => finish h
  end.
Definition MurmurHash2 (data : list N) : N := rounds (lengthN data) data.

Definition ascii_text : list N → Prop := Forall (λ c, c < 128).

Lemma char_ascii c : c < 128 → char c = c.
Proof. intros Hc. unfold char. by rewrite (proj2 (N.ltb_lt c 128) Hc). Qed.

Lemma at_drop data offset i l :
  drop offset data = l → Forall (λ c, c < 128) l → at_ data (offset + i) = nth i l 0.
Proof.
  intros <- Hl. unfold at_. rewrite <- nth_skipn. apply char_ascii.
  destruct (nth_in_or_default i (drop offset data) 0) as [Hin| ->]; [|lia].
  rewrite Forall_forall in Hl. by apply Hl, list_elem_of_In.
Qed.

Lemma sl_small c n : c < 128 → n ≤ 24 → __sl__ c n = 2 ^ n * c.
Proof.
  intros Hc Hn. unfold __sl__, u32. rewrite N.shiftl_mul_pow2, N.mul_comm. apply N.mod_small.
  assert (2 ^ n ≤ 2 ^ 24) by (apply N.pow_le_mono_r; lia). nia.
Qed.

Lemma lor_disjoint n x y : x < 2 ^ n → N.lor x (2 ^ n * y) = x + 2 ^ n * y.
Proof.
  intros Hx.
  assert (Hland : N.land x (2 ^ n * y) = 0).
  { apply N.bits_inj_0. intros i. rewrite N.land_spec, N.mul_comm, <- N.shiftl_mul_pow2.
    destruct (N.ltb_spec i n) as [Hi|Hi]; [by rewrite N.shiftl_spec_low, andb_false_r by done|].
    destruct (decide (x = 0)) as [->|Hx0]; [by rewrite N.bits_0|].
    rewrite N.bits_above_log2; [done|]. apply N.log2_lt_pow2; [lia|].
    eapply N.lt_le_trans; [exact Hx|]. apply N.pow_le_mono_r; lia. }
  by rewrite N.add_nocarry_lxor, N.lxor_lor.
Qed.

Lemma load_word data offset a b c d l :
  drop offset data = a :: b :: c :: d :: l → ascii_text (a :: b :: c :: d :: l) → __load__ data offset = le_word a b c d.
Proof.
  intros Hd Ht. unfold __load__. rewrite !(at_drop _ _ _ _ Hd Ht). cbn [nth].
  inversion_clear Ht as [|? ? Ha Ht1]. inversion_clear Ht1 as [|? ? Hb Ht2].
  inversion_clear Ht2 as [|? ? Hc Ht3]. inversion_clear Ht3 as [|? ? Hdd _].
  rewrite !sl_small by (done || lia). unfold le_word.
  rewrite (lor_disjoint 8 a), (lor_disjoint 16 (a + _)), (lor_disjoint 24 (a + _ + _)); [done|..];
    change (2 ^ 8) with 256; change (2 ^ 16) with 65536; change (2 ^ 24) with 16777216; lia.
Qed.

(** The end of the recursion and the bytes that are left over *)
Lemma finish_steps h : __xor__ (__mul__ (__xor_with_sr__ h 13) M) (__sr__ (__mul__ (__xor_with_sr__ h 13) M) 15) = finish h.
Proof.
  unfold finish, xorshift, __xor_with_sr__, __xor__, __sr__, __mul__, u32. cbn zeta. by rewrite !N.shiftr_div_pow2.
Qed.

Lemma proc_tail data l offset h :
  (length l < 4)%nat → drop offset data = l → ascii_text l → __proc__ data (length l) offset h M 24 = rounds h l.
Proof.
  intros Hlen Hd Ht. assert (Hat : ∀ i, at_ data (offset + i) = nth i l 0) by (intros; by apply at_drop).
  pose proof (Hat 0%nat) as H0. rewrite Nat.add_0_r in H0.
  destruct l as [|a [|b [|c [|d l]]]]; [| | | |cbn in Hlen; lia]; cbn [length __proc__ rounds];
    rewrite ?Hat, ?H0, finish_steps; cbn [nth]; [done|done|..]; repeat (inversion_clear Ht as [|? ? ? Ht'];
    try rename Ht' into Ht); rewrite !sl_small by (done || lia); done.
Qed.

Lemma proc_rounds data n l offset h :
  (length l ≤ n)%nat → drop offset data = l → ascii_text l → __proc__ data (length l) offset h M 24 = rounds h l.
Proof.
  revert l offset h. induction n as [|n IH]; intros l offset h Hn Hd Ht; [apply proc_tail; [lia|done|done]|].
  destruct l as [|a [|b [|c [|d l]]]]; [by apply proc_tail; [cbn; lia|..]..|].
  cbn [length __proc__ rounds]. rewrite (load_word _ _ _ _ _ _ _ Hd Ht), IH.
  - f_equal. unfold mix, xorshift, __xor_with_sr__, __xor__, __mul__, __sr__, u32. by rewrite N.shiftr_div_pow2.
  - cbn in Hn. lia.
  - by rewrite <- drop_drop, Hd.
  - by do 4 (apply Forall_inv_tail in Ht).
Qed.

Definition chars (s : string) : list N := N_of_ascii <$> list_ascii_of_string s.

(** The static assertions of the header *)
Lemma static_asserts :
  CT_MURMUR2 (chars "Called the One Ring, or the Ruling Ring."%string) = 1333588607 ∧
  CT_MURMUR2 (chars "Fashioned by Sauron a decade after the making of the Elven rings in the fires of Mount Doom in Mordor and which"%string)
  = 1319897327 ∧
  CT_MURMUR2 (chars "could only be destroyed in that same fire."%string) = 702138758.
Proof. by vm_compute. Qed.

(** The compile-time hash is MurmurHash2 with seed 0. *)
Theorem murmur2_correct x : ascii_text x → CT_MURMUR2 x = MurmurHash2 x.
Proof.
  intros Hx. unfold CT_MURMUR2, murmur2, MurmurHash2, __init__. rewrite N.lxor_0_l.
  by apply (proc_rounds x (length x) x 0).
Qed.
End Hasher.

Inductive EventTypes :=
| LoadingIsFinished
| ExampleModuleIsLoaded
| ExampleModuleIsUnloaded
| ExampleNotification
| ExampleRequest
| ExampleResponse
| NetworkingIsLoaded
| NetworkingIsUnloaded
| PeerConnected
| PeerDisconnected
| PeerCountsUpdated
| BlockRequest
| BlockResponse
| ProductionIsLoaded
| ProductionIsUnloaded
| BlockProduced
| SynchronizerIsLoaded
| SynchronizerIsUnloaded
| BlockAnnounceReceived
| BlockIndexDiscovered
| BlockAdded
| BlockFinalized
| SlotStarted
| SlotIntervalStarted
| Derive.
(** std::to_underlying *)
Definition to_underlying (e : EventTypes) : EventKey :=
  match e with
  | LoadingIsFinished => 0 | ExampleModuleIsLoaded => 1 | ExampleModuleIsUnloaded => 2 | ExampleNotification => 3
  | ExampleRequest => 4 | ExampleResponse => 5 | NetworkingIsLoaded => 6 | NetworkingIsUnloaded => 7 | PeerConnected => 8
  | PeerDisconnected => 9 | PeerCountsUpdated => 10 | BlockRequest => 11 | BlockResponse => 12 | ProductionIsLoaded => 13
  | ProductionIsUnloaded => 14 | BlockProduced => 15 | SynchronizerIsLoaded => 16 | SynchronizerIsUnloaded => 17
  | BlockAnnounceReceived => 18 | BlockIndexDiscovered => 19 | BlockAdded => 20 | BlockFinalized => 21 | SlotStarted => 22
  | SlotIntervalStarted => 23 | Derive => 24
  end.

(** The C++ types that events carry: none, or a shared_ptr to a const or non-const message *)
Inductive EventData :=
| NoData
| ConstSlotIntervalStarted
| ConstNewLeaf
| MutableBlockHeader
| ConstFinalized
| MutableFinalized
| ConstPeerConnectedMessage
| ConstPeerDisconnectedMessage
| ConstPeerCountsMessage
| ConstBlock
| ConstSendSignedBlock
| ConstSendSignedVote
| ConstSendSignedAggregatedAttestation
| ConstStatusMessageReceived
| ConstSignedVoteReceived.
#[global] Instance EventData_eq_dec : EqDecision EventData.
Proof. solve_decision. Defined.

(** The data themselves *)
Inductive Payload :=
| PNone
| PInterval (interval : Interval.Interval)
| PNewLeaf (header : BlockHeader) (best : bool)
| PHeader (header : BlockHeader)
| PFinalized (finalized : BlockIndex) (retired : list BlockIndex)
| PNet (message : NetDispatch)
| PBlock (block : Block)
| PSignedBlock (block : SignedBlock)
| PSignedVote (vote : SignedAttestation)
| PSignedAggregation (aggregation : SignedAggregatedAttestation)
| PStatus (message : StatusMessageReceived).

(** The handlers that are subscribed *)
Inductive Callback :=
| Networking_on_loaded_success
| Networking_on_loading_is_finished
| Networking_onSendSignedBlock
| Networking_onSendSignedVote
| Networking_onSendSignedAggregatedAttestation
| Production_on_loaded_success
| Production_on_loading_is_finished
| Production_on_slot_interval_started
| Production_on_leave_update
| Production_on_block_finalized
| Timeline_on_slot_interval_started
| Timeline_on_peers_total_count_updated.

(** [nd_derived] are the types that have got a number from DeriveEventType, in order;
    [nd_callbacks] the callbacks of the subscribers, which the loaders and the timeline own. *)
Record Node := mkNode {
  nd_manager : SubscriptionManager Payload;
  nd_derived : list EventData;
  nd_callbacks : gmap SubscriberId Callback;
}.

Definition kTest : Tid := 0.
Definition kThreadPoolSize : N := 3.
Definition kHandlersCount : N := 1.

(** [function_name] is what the compiler gives as FUNCTION_NAME for EventTypes and the types of an
    event. *)
Section loaders.
Context `{!BuildMode} (function_name : EventData → list N).

Definition getSubscriptionHash (d : EventData) : EngineHash := Hasher.CT_MURMUR2 (function_name d).

Definition Node_new : Node := mkNode (SubscriptionManager_new kHandlersCount kThreadPoolSize) [] ∅.
Definition set_manager (w : SubscriptionManager Payload) (n : Node) : Node := mkNode w (nd_derived n) (nd_callbacks n).

(** DeriveEventType::get *)
Definition DeriveEventType_get (d : EventData) (n : Node) : EventKey * Node :=
  match list_find (λ x, x = d) (nd_derived n) with
  | Some (i, _) => (to_underlying Derive + N.of_nat i, n)
  | None => (to_underlying Derive + lengthN (nd_derived n), mkNode (nd_manager n) (nd_derived n ++ [d]) (nd_callbacks n))
  end.

(** SubscriberCreator::create *)
Definition SubscriberCreator_create (d : EventData) (key : EventKey) (callback : Callback) (n : Node) : Node :=
  let '(id, w) := subscriber_create (getSubscriptionHash d) (getEngine (getSubscriptionHash d) (nd_manager n)) in
  mkNode (subscribe id 0 key kTest w) (nd_derived n) (<[id := callback]> (nd_callbacks n)).
(** SimpleSubscription::subscribe *)
Definition SimpleSubscription_subscribe (d : EventData) (callback : Callback) (n : Node) : Node :=
  let '(key, n) := DeriveEventType_get d n in SubscriberCreator_create d key callback n.

(** se_manager_->notifyDelayed, se_manager_->notify and dispatchDerive *)
Definition notify_event_delayed (now timeout : N) (d : EventData) (key : EventKey) (args : Payload) (n : Node) : result Node :=
  w ← notifyDelayed now timeout (getSubscriptionHash d) key args (nd_manager n); Ok (set_manager w n).
Definition notify_event (now : N) : EventData → EventKey → Payload → Node → result Node := notify_event_delayed now 0.
Definition dispatchDerive (now : N) (d : EventData) (args : Payload) (n : Node) : result Node :=
  let '(key, n) := DeriveEventType_get d n in notify_event now d key args n.

(** ** NetworkingLoader *)
Definition NetworkingLoader_start (now : N) (n : Node) : result Node :=
  let n := SubscriberCreator_create NoData (to_underlying NetworkingIsLoaded) Networking_on_loaded_success n in
  let n := SubscriberCreator_create NoData (to_underlying LoadingIsFinished) Networking_on_loading_is_finished n in
  let n := SimpleSubscription_subscribe ConstSendSignedBlock Networking_onSendSignedBlock n in
  let n := SimpleSubscription_subscribe ConstSendSignedVote Networking_onSendSignedVote n in
  let n := SimpleSubscription_subscribe ConstSendSignedAggregatedAttestation Networking_onSendSignedAggregatedAttestation n in
  notify_event now NoData (to_underlying NetworkingIsLoaded) PNone n.
Definition dispatch_peer_connected (now : N) (msg : NetDispatch) : Node → result Node :=
  notify_event now ConstPeerConnectedMessage (to_underlying PeerConnected) (PNet msg).
Definition dispatch_peer_disconnected (now : N) (msg : NetDispatch) : Node → result Node :=
  notify_event now ConstPeerDisconnectedMessage (to_underlying PeerDisconnected) (PNet msg).
Definition dispatch_peers_total_count_updated (now : N) (msg : NetDispatch) : Node → result Node :=
  notify_event now ConstPeerCountsMessage (to_underlying PeerCountsUpdated) (PNet msg).
Definition dispatchStatusMessageReceived (now : N) (message : StatusMessageReceived) : Node → result Node :=
  dispatchDerive now ConstStatusMessageReceived (PStatus message).
Definition dispatchSignedVoteReceived (now : N) (message : SignedAttestation) : Node → result Node :=
  dispatchDerive now ConstSignedVoteReceived (PSignedVote message).

(** ** ProductionLoader *)
Definition ProductionLoader_start (now : N) (n : Node) : result Node :=
  let n := SubscriberCreator_create NoData (to_underlying ProductionIsLoaded) Production_on_loaded_success n in
  let n := SubscriberCreator_create NoData (to_underlying LoadingIsFinished) Production_on_loading_is_finished n in
  let n := SubscriberCreator_create ConstSlotIntervalStarted (to_underlying SlotIntervalStarted) Production_on_slot_interval_started n in
  let n := SubscriberCreator_create ConstNewLeaf (to_underlying BlockAdded) Production_on_leave_update n in
  let n := SubscriberCreator_create ConstFinalized (to_underlying BlockFinalized) Production_on_block_finalized n in
  notify_event now NoData (to_underlying ProductionIsLoaded) PNone n.
Definition dispatch_block_produced (now : N) (msg : Block) : Node → result Node :=
  notify_event now ConstBlock (to_underlying BlockProduced) (PBlock msg).
Definition dispatchSendSignedBlock (now : N) (message : SignedBlock) : Node → result Node :=
  dispatchDerive now ConstSendSignedBlock (PSignedBlock message).
Definition dispatchSendSignedVote (now : N) (message : SignedAttestation) : Node → result Node :=
  dispatchDerive now ConstSendSignedVote (PSignedVote message).
Definition dispatchSendSignedAggregatedAttestation (now : N) (message : SignedAggregatedAttestation) : Node → result Node :=
  dispatchDerive now ConstSendSignedAggregatedAttestation (PSignedAggregation message).

(** ** TimelineImpl::prepare *)
Definition TimelineImpl_prepare (n : Node) : Node :=
  let n := SubscriberCreator_create ConstSlotIntervalStarted (to_underlying SlotIntervalStarted) Timeline_on_slot_interval_started n in
  SubscriberCreator_create ConstPeerCountsMessage (to_underlying PeerCountsUpdated) Timeline_on_peers_total_count_updated n.

(** The notification of TimelineImpl::waitNextInterval; its milliseconds become the microseconds
    that notifyDelayed takes. *)
Definition notify_interval (now time_to_next_slot : N) (next_interval : Interval.Interval) : Node → result Node :=
  notify_event_delayed now (1000 * time_to_next_slot) ConstSlotIntervalStarted (to_underlying SlotIntervalStarted) (PInterval next_interval).

(** ** The notifications of the block tree: addBlockHeader, addBlock and finalize *)
Definition notify_header_added (now : N) (header : BlockHeader) : Node → result Node :=
  notify_event now MutableBlockHeader (to_underlying BlockAdded) (PHeader header).
Definition notify_block_added (now : N) (header : BlockHeader) (best : bool) : Node → result Node :=
  notify_event now ConstNewLeaf (to_underlying BlockAdded) (PNewLeaf header best).
Definition notify_finalized (now : N) (finalized : BlockIndex) (retired : list BlockIndex) : Node → result Node :=
  notify_event now MutableFinalized (to_underlying BlockFinalized) (PFinalized finalized retired).

(** run_node: both loaders are started, then the state manager prepares the timeline. *)
Definition run_node (now : N) : result Node :=
  n ← NetworkingLoader_start now Node_new;
  n ← ProductionLoader_start now n;
  Ok (TimelineImpl_prepare n).
End loaders.

(** ** Who hears what *)

(** The events of a running node, with the function that emits each *)
Inductive NodeEvent :=
| EvPeerConnected (msg : NetDispatch)
| EvPeerDisconnected (msg : NetDispatch)
| EvPeerCounts (msg : NetDispatch)
| EvStatus (message : StatusMessageReceived)
| EvVoteReceived (message : SignedAttestation)
| EvBlockProduced (msg : Block)
| EvSendBlock (message : SignedBlock)
| EvSendVote (message : SignedAttestation)
| EvSendAggregation (message : SignedAggregatedAttestation)
| EvInterval (time_to_next_slot : N) (next_interval : Interval.Interval)
| EvHeaderAdded (header : BlockHeader)
| EvBlockAdded (header : BlockHeader) (best : bool)
| EvFinalized (finalized : BlockIndex) (retired : list BlockIndex).

Section routing.
Context `{!BuildMode} (function_name : EventData → list N) `{!Inj (=) (=) (getSubscriptionHash function_name)}.
Abbreviation hash := (getSubscriptionHash function_name).

Definition emit (now : N) (ev : NodeEvent) : Node → result Node :=
  match ev with
  | EvPeerConnected msg => dispatch_peer_connected function_name now msg
  | EvPeerDisconnected msg => dispatch_peer_disconnected function_name now msg
  | EvPeerCounts msg => dispatch_peers_total_count_updated function_name now msg
  | EvStatus m => dispatchStatusMessageReceived function_name now m
  | EvVoteReceived m => dispatchSignedVoteReceived function_name now m
  | EvBlockProduced msg => dispatch_block_produced function_name now msg
  | EvSendBlock m => dispatchSendSignedBlock function_name now m
  | EvSendVote m => dispatchSendSignedVote function_name now m
  | EvSendAggregation m => dispatchSendSignedAggregatedAttestation function_name now m
  | EvInterval wait i => notify_interval function_name now wait i
  | EvHeaderAdded h => notify_header_added function_name now h
  | EvBlockAdded h best => notify_block_added function_name now h best
  | EvFinalized b retired => notify_finalized function_name now b retired
  end.

(** A running node: started at some time, then events are emitted and its thread works. *)
Inductive node_run : N → Node → N → list (N * NodeEvent) → Prop :=
| run_started now n : run_node function_name now = Ok n → node_run now n now []
| run_emit now now' ev n n' start evs :
    node_run now n start evs → now ≤ now' → emit now' ev n = Ok n' → node_run now' n' start (evs ++ [(now', ev)])
| run_worker now now' r n w start evs :
    node_run now n start evs → now ≤ now' → handler_step now' 0 r (nd_manager n) = Some w →
    node_run now' (set_manager w n) start evs.

(** The specification: the handlers an event is for, its data, and how long it waits, in
    nanoseconds; the timeline gives milliseconds. *)
Definition audience (ev : NodeEvent) : list Callback :=
  match ev with
  | EvPeerCounts _ => [Timeline_on_peers_total_count_updated]
  | EvSendBlock _ => [Networking_onSendSignedBlock]
  | EvSendVote _ => [Networking_onSendSignedVote]
  | EvSendAggregation _ => [Networking_onSendSignedAggregatedAttestation]
  | EvInterval _ _ => [Production_on_slot_interval_started; Timeline_on_slot_interval_started]
  | EvBlockAdded _ _ => [Production_on_leave_update]
  | EvPeerConnected _ | EvPeerDisconnected _ | EvStatus _ | EvVoteReceived _ | EvBlockProduced _
  | EvHeaderAdded _ | EvFinalized _ _ => []
  end.
Definition payload (ev : NodeEvent) : Payload :=
  match ev with
  | EvPeerConnected msg | EvPeerDisconnected msg | EvPeerCounts msg => PNet msg
  | EvStatus m => PStatus m
  | EvVoteReceived m | EvSendVote m => PSignedVote m
  | EvBlockProduced b => PBlock b
  | EvSendBlock m => PSignedBlock m
  | EvSendAggregation m => PSignedAggregation m
  | EvInterval _ i => PInterval i
  | EvHeaderAdded h => PHeader h
  | EvBlockAdded h best => PNewLeaf h best
  | EvFinalized b retired => PFinalized b retired
  end.
Definition delay (ev : NodeEvent) : N := match ev with EvInterval wait _ => wait * 10 ^ 6 | _ => 0 end.

(** A call of a handler: which, with what, and when it is due *)
Definition Call : Type := Callback * Payload * N.
Definition calls_of (e : N * NodeEvent) : list Call :=
  (λ c, (c, payload e.2, e.1 + delay e.2)) <$> audience e.2.
Definition loaded_calls (start : N) : list Call :=
  [(Networking_on_loaded_success, PNone, start); (Production_on_loaded_success, PNone, start)].
Definition expected (start : N) (evs : list (N * NodeEvent)) : list Call :=
  loaded_calls start ++ (evs ≫= calls_of).

(** The task of thread kTest that makes a call *)
Definition makes_call (n : Node) (t : TimedTask (Dispatched Payload) N) (c : Call) : Prop :=
  deadline t = c.2 ∧
  ∃ dl, tt_task t = Some (Plain dl) ∧ nd_callbacks n !! dl_subscriber dl = Some c.1.1 ∧ dl_args dl = c.1.2.

(** ** The subscriptions of a node *)

Definition Registration : Type := EventData * EventKey * Callback.
Definition interested (d : EventData) (key : EventKey) (regs : list Registration) : list Callback :=
  (filter (λ r, r.1 = (d, key)) regs).*2.
Definition subs (d : EventData) (key : EventKey) (n : Node) : list Subscribed :=
  default [] (e ← sm_engines (nd_manager n) !! hash d; en_subscribers_map e !! key).
Definition serves (n : Node) (s : Subscribed) (c : Callback) : Prop :=
  nd_callbacks n !! sb_subscriber s = Some c ∧ alive (nd_manager n) (sb_subscriber s) = true ∧ sb_tid s = kTest.

Record node_wf (n : Node) (regs : list Registration) : Prop := {
  nw_live : ad_is_disposed (sm_dispatcher (nd_manager n)) = false;
  nw_thread : is_Some (ad_handlers (sm_dispatcher (nd_manager n)) !! 0%nat);
  nw_attached h e : sm_engines (nd_manager n) !! h = Some e → en_attached e = true;
  nw_subs d key : Forall2 (serves n) (subs d key n) (interested d key regs);
  nw_next id : is_Some (nd_callbacks n !! id) → id < sm_next (nd_manager n);
}.

(** [calls] are the calls that the tasks handed to thread kTest make, in order. *)
Definition node_inv (now : N) (n : Node) (regs : list Registration) (calls : list Call) : Prop :=
  node_wf n regs ∧ ∃ sent, reach now (nd_manager n) sent ∧ Forall2 (makes_call n) (tasks_of 0 sent) calls.

Lemma interested_app d key regs regs' :
  interested d key (regs ++ regs') = interested d key regs ++ interested d key regs'.
Proof. unfold interested. by rewrite filter_app, fmap_app. Qed.

(** What create leaves of the manager *)
Lemma create_manager d key callback n :
  let w := nd_manager n in
  let n' := SubscriberCreator_create function_name d key callback n in
  let e := default SubscriptionEngine_new (sm_engines w !! hash d) in
  sm_dispatcher (nd_manager n') = sm_dispatcher w ∧
  sm_engines (nd_manager n')
  = <[hash d := engine_subscribe (sm_next w + 1) kTest 0 key (sm_next w) e]> (sm_engines w) ∧
  (∀ id, alive (nd_manager n') id = bool_decide (id = sm_next w) || alive w id) ∧
  sm_next (nd_manager n') = sm_next w + 2 ∧
  nd_callbacks n' = <[sm_next w := callback]> (nd_callbacks n).
Proof.
  cbn zeta. unfold SubscriberCreator_create, subscriber_create, fresh, subscribe.
  assert (Halive : ∀ (m : gmap SubscriberId SubscriberImpl) i s s' id,
    bool_decide (is_Some (<[i := s]> (<[i := s']> m) !! id)) = bool_decide (id = i) || bool_decide (is_Some (m !! id))).
  { intros m i s s' id. rewrite insert_insert_eq. destruct (decide (id = i)) as [->|Hne].
    - rewrite lookup_insert_eq, !bool_decide_eq_true_2 by done. done.
    - rewrite lookup_insert_ne, (bool_decide_eq_false_2 (id = i)) by done. done. }
  unfold getEngine. destruct (sm_engines (nd_manager n) !! hash d) as [e|] eqn:He; cbn;
    rewrite lookup_insert_eq; cbn; rewrite ?He, ?lookup_insert_eq; cbn; rewrite lookup_empty; cbn; rewrite ?lookup_empty; cbn;
    (split_and!; [done|by rewrite ?insert_insert_eq|intros id; apply Halive|lia|done]).
Qed.

Lemma create_reach now sent d key callback n :
  reach now (nd_manager n) sent → reach now (nd_manager (SubscriberCreator_create function_name d key callback n)) sent.
Proof.
  intros Hr. unfold SubscriberCreator_create.
  set (w1 := getEngine (hash d) (nd_manager n)).
  assert (H1 : reach now w1 sent) by (by eapply (reach_op now now (OGetEngine (hash d)))).
  destruct (subscriber_create (hash d) w1) as [id w2] eqn:Hc. cbn.
  assert (H2 : reach now w2 sent).
  { eapply (reach_op now now (OCreate (hash d))); [done|done|]. cbn [do_op]. by rewrite Hc. }
  by eapply (reach_op now now (OSubscribe id 0 key kTest)).
Qed.

Lemma subs_create d key callback n d' key' :
  subs d' key' (SubscriberCreator_create function_name d key callback n)
  = subs d' key' n
    ++ (if decide ((d, key) = (d', key')) then [mkSubscribed (sm_next (nd_manager n) + 1) kTest 0 (sm_next (nd_manager n))] else []).
Proof.
  unfold subs. destruct (create_manager d key callback n) as (_ & -> & _).
  destruct (decide (d' = d)) as [->|Hd].
  - rewrite lookup_insert_eq. cbn. destruct (decide (key' = key)) as [->|Hk].
    + rewrite lookup_insert_eq, decide_True by done. cbn. by destruct (sm_engines _ !! _).
    + rewrite lookup_insert_ne, decide_False, app_nil_r by congruence. by destruct (sm_engines _ !! _).
  - rewrite lookup_insert_ne, decide_False, app_nil_r; [done|congruence|]. by intros ?%(inj _).
Qed.

Lemma inv_create now n regs calls d key callback :
  node_inv now n regs calls →
  node_inv now (SubscriberCreator_create function_name d key callback n) (regs ++ [(d, key, callback)]) calls.
Proof.
  intros [[Hlive Hth Hatt Hsubs Hnext] (sent & Hr & Hcalls)].
  destruct (create_manager d key callback n) as (Hd & He & Ha & Hn & Hc).
  assert (Hmono : ∀ id c, nd_callbacks n !! id = Some c →
    nd_callbacks (SubscriberCreator_create function_name d key callback n) !! id = Some c).
  { intros id c Hid. rewrite Hc, lookup_insert_ne; [done|]. intros Heq. rewrite <- Heq in Hid.
    assert (sm_next (nd_manager n) < sm_next (nd_manager n)); [eauto|lia]. }
  split; [split|].
  - by rewrite Hd.
  - by rewrite Hd.
  - intros h e. rewrite He. intros [[<- <-]|[_ Hh]]%lookup_insert_Some; [|by eapply Hatt]. cbn.
    destruct (sm_engines (nd_manager n) !! hash d) as [e|] eqn:Hed; [by eapply Hatt|done].
  - intros d' key'. rewrite subs_create, interested_app. apply Forall2_app.
    + eapply Forall2_impl; [apply Hsubs|]. intros s c (Hs & Hal & Ht). split_and!; [by apply Hmono| |done].
      by rewrite Ha, Hal, orb_true_r.
    + unfold interested. case_decide as Hk.
      * rewrite filter_cons_True by done. constructor; [|constructor]. unfold serves. cbn [sb_subscriber sb_tid].
        by rewrite Hc, lookup_insert_eq, Ha, bool_decide_eq_true_2.
      * rewrite filter_cons_False by done. constructor.
  - intros id. rewrite Hc, Hn. intros [c [[<- _]|[_ Hid]]%lookup_insert_Some]; [lia|].
    assert (id < sm_next (nd_manager n)) by eauto. lia.
  - exists sent. split; [by apply create_reach|]. eapply Forall2_impl; [exact Hcalls|].
    intros t c (Hdl & dl & Ht & Hid & Hargs). split; [done|]. exists dl. split_and!; auto.
Qed.

Lemma create_derived d key callback n :
  nd_derived (SubscriberCreator_create function_name d key callback n) = nd_derived n.
Proof. unfold SubscriberCreator_create. by destruct (subscriber_create _ _). Qed.

Definition create_all (l : list Registration) (n : Node) : Node :=
  foldl (λ n r, SubscriberCreator_create function_name r.1.1 r.1.2 r.2 n) n l.
Lemma inv_create_all now l n regs calls :
  node_inv now n regs calls →
  node_inv now (create_all l n) (regs ++ l) calls ∧ nd_derived (create_all l n) = nd_derived n.
Proof.
  revert n regs. induction l as [|[[d key] callback] l IH]; intros n regs Hinv; cbn; [by rewrite app_nil_r|].
  rewrite (cons_middle _ regs), app_assoc. rewrite <- (create_derived d key callback n). by apply IH, inv_create.
Qed.

(** A notification hands the thread the calls of the handlers registered for its key and type. *)
Lemma subs_sent now timeout d key args n regs :
  node_wf n regs →
  Forall2 (makes_call n) (tasks_of 0 (sent_by now timeout (hash d) key args (nd_manager n)))
    ((λ c, (c, args, now + 1000 * timeout)) <$> interested d key regs).
Proof.
  intros [Hlive _ Hatt Hsubs _]. specialize (Hsubs d key). unfold sent_by, subs in *. rewrite Hlive.
  destruct (sm_engines (nd_manager n) !! hash d) as [e|] eqn:He; cbn in Hsubs.
  - rewrite (Hatt _ _ He). cbn [andb negb]. unfold sends.
    induction Hsubs as [|s c l cs (Hs & Hal & Ht) _ IH]; [constructor|].
    rewrite filter_cons_True by (by rewrite Hal). rewrite !fmap_cons, tasks_of_cons, decide_True by done.
    constructor; [|done]. split; [done|]. eexists. by split_and!.
  - inversion Hsubs. constructor.
Qed.

Lemma inv_notify now now' n regs calls timeout d key args :
  node_inv now n regs calls → now ≤ now' →
  ∃ n', notify_event_delayed function_name now' timeout d key args n = Ok n' ∧
    nd_derived n' = nd_derived n ∧
    node_inv now' n' regs (calls ++ ((λ c, (c, args, now' + 1000 * timeout)) <$> interested d key regs)).
Proof.
  intros [Hwf (sent & Hr & Hcalls)] Hle. pose proof Hwf as [Hlive Hth Hatt Hsubs Hnext].
  destruct (notify_spec now' timeout (hash d) key args (nd_manager n)) as (w' & Hrun & [Hd Hh] & Hs & Hn & _ & Heng).
  unfold notify_event_delayed. rewrite Hrun. cbn. eexists. split; [done|]. split; [done|].
  assert (Halive : ∀ id, alive w' id = alive (nd_manager n) id) by (intros; unfold alive; by rewrite Hs).
  split; [split; cbn|].
  - by rewrite Hd.
  - rewrite Hh. by destruct Hth as [h ->].
  - intros h e. rewrite Heng. repeat case_match; try by apply Hatt.
    intros [[<- <-]|[_ Hhe]]%lookup_insert_Some; [done|by eapply Hatt].
  - intros d' key'. assert (subs d' key' (set_manager w' n) = subs d' key' n) as ->.
    { unfold subs. cbn. rewrite Heng. destruct (sm_engines (nd_manager n) !! hash d) as [e|] eqn:He; [|done].
      rewrite (Hatt _ _ He). destruct (en_subscribers_map e !! key) as [l|] eqn:Hl; [|done].
      destruct (decide (hash d' = hash d)) as [->%(inj _)|Hne]; [|by rewrite lookup_insert_ne].
      rewrite lookup_insert_eq, He. cbn. destruct (decide (key' = key)) as [->|Hk]; [|by rewrite lookup_insert_ne].
      rewrite lookup_insert_eq, Hl. cbn. specialize (Hsubs d key). unfold subs in Hsubs. rewrite He in Hsubs. cbn in Hsubs.
      rewrite Hl in Hsubs. cbn in Hsubs. clear - Hsubs.
      induction Hsubs as [|s c l cs (_ & Hal & _) _ IH]; [done|]. rewrite filter_cons_True by (by rewrite Hal). by f_equal. }
    eapply Forall2_impl; [apply Hsubs|]. intros s c (Hc & Hal & Ht). split_and!; [done|by rewrite Halive|done].
  - intros id Hid. rewrite Hn. by apply Hnext.
  - exists (sent ++ sent_by now' timeout (hash d) key args (nd_manager n)). split; [by eapply reach_notify|].
    rewrite tasks_of_app. apply Forall2_app; [done|exact (subs_sent now' timeout d key args n regs Hwf)].
Qed.

Lemma inv_notify_now now now' n regs calls d key args cs :
  node_inv now n regs calls → now ≤ now' → interested d key regs = cs →
  ∃ n', notify_event function_name now' d key args n = Ok n' ∧ nd_derived n' = nd_derived n ∧
    node_inv now' n' regs (calls ++ ((λ c, (c, args, now')) <$> cs)).
Proof.
  intros Hinv Hle <-. destruct (inv_notify now now' n regs calls 0 d key args Hinv Hle) as (n' & Hrun & Hd & H').
  exists n'. rewrite N.mul_0_r, N.add_0_r in H'. done.
Qed.

Lemma inv_worker now now' r n w regs calls :
  node_inv now n regs calls → now ≤ now' → handler_step now' 0 r (nd_manager n) = Some w →
  node_inv now' (set_manager w n) regs calls.
Proof.
  intros [[Hlive Hth Hatt Hsubs Hnext] (sent & Hr & Hcalls)] Hle Hw.
  split; [|exists sent; split; [by eapply (reach_worker now now' 0 r)|done]].
  unfold handler_step in Hw. destruct (ad_handlers _ !! 0%nat) as [h|] eqn:Hh; [|done]. cbn in Hw.
  destruct (worker now' r h) as [h'|]; [|done]. injection Hw as <-. split; [done| |done..].
  cbn. rewrite list_lookup_insert_eq; [done|]. by apply lookup_lt_Some in Hh.
Qed.

(** ** The node's wiring *)

(** What run_node subscribes, in order *)
Definition wiring : list Registration :=
  [(NoData, to_underlying NetworkingIsLoaded, Networking_on_loaded_success);
   (NoData, to_underlying LoadingIsFinished, Networking_on_loading_is_finished);
   (ConstSendSignedBlock, to_underlying Derive, Networking_onSendSignedBlock);
   (ConstSendSignedVote, to_underlying Derive + 1, Networking_onSendSignedVote);
   (ConstSendSignedAggregatedAttestation, to_underlying Derive + 2, Networking_onSendSignedAggregatedAttestation);
   (NoData, to_underlying ProductionIsLoaded, Production_on_loaded_success);
   (NoData, to_underlying LoadingIsFinished, Production_on_loading_is_finished);
   (ConstSlotIntervalStarted, to_underlying SlotIntervalStarted, Production_on_slot_interval_started);
   (ConstNewLeaf, to_underlying BlockAdded, Production_on_leave_update);
   (ConstFinalized, to_underlying BlockFinalized, Production_on_block_finalized);
   (ConstSlotIntervalStarted, to_underlying SlotIntervalStarted, Timeline_on_slot_interval_started);
   (ConstPeerCountsMessage, to_underlying PeerCountsUpdated, Timeline_on_peers_total_count_updated)].

(** The types that have a number once the loaders started *)
Definition derived : list EventData := [ConstSendSignedBlock; ConstSendSignedVote; ConstSendSignedAggregatedAttestation].

Lemma new_inv now : node_inv now Node_new [] [].
Proof.
  split; [split|].
  - done.
  - by eexists.
  - by intros h e [=].
  - intros d key. constructor.
  - by intros id [? [=]].
  - exists []. split; [apply reach_manager|constructor].
Qed.

Lemma with_derived now n regs calls l :
  node_inv now n regs calls → node_inv now (mkNode (nd_manager n) l (nd_callbacks n)) regs calls.
Proof. intros [[] ?]. done. Qed.

(** Subscribing a type that has no number yet *)
Lemma inv_subscribe now n regs calls d callback :
  node_inv now n regs calls → d ∉ nd_derived n →
  node_inv now (SimpleSubscription_subscribe function_name d callback n)
    (regs ++ [(d, to_underlying Derive + lengthN (nd_derived n), callback)]) calls ∧
  nd_derived (SimpleSubscription_subscribe function_name d callback n) = nd_derived n ++ [d].
Proof.
  intros Hinv Hd. unfold SimpleSubscription_subscribe, DeriveEventType_get.
  destruct (list_find _ _) as [[i x]|] eqn:Hf.
  { apply list_find_Some in Hf as (Hx & -> & _). by apply list_elem_of_lookup_2 in Hx. }
  split; [|by rewrite create_derived]. apply inv_create. by apply with_derived.
Qed.

Lemma networking_started now n regs calls :
  node_inv now n regs calls → nd_derived n = [] → 
  (∀ key, interested NoData key regs = []) →
  ∃ n', NetworkingLoader_start function_name now n = Ok n' ∧ nd_derived n' = derived ∧
    node_inv now n' (regs ++ take 5 wiring) (calls ++ [(Networking_on_loaded_success, PNone, now)]).
Proof.
  intros H0 Hder Hnone. unfold NetworkingLoader_start. cbn zeta.
  apply (inv_create_all _ (take 2 wiring)) in H0 as [H0 Hd1]. rewrite Hder in Hd1.
  apply (inv_subscribe _ _ _ _ ConstSendSignedBlock Networking_onSendSignedBlock) in H0 as [H0 Hd2];
    [|rewrite Hd1; by apply not_elem_of_nil]. rewrite Hd1 in H0, Hd2.
  apply (inv_subscribe _ _ _ _ ConstSendSignedVote Networking_onSendSignedVote) in H0 as [H0 Hd3];
    [|rewrite Hd2; set_solver]. rewrite Hd2 in H0, Hd3.
  apply (inv_subscribe _ _ _ _ ConstSendSignedAggregatedAttestation Networking_onSendSignedAggregatedAttestation) in H0 as [H0 Hd4];
    [|rewrite Hd3; set_solver]. rewrite Hd3 in H0, Hd4.
  rewrite <- !app_assoc in H0.
  destruct (inv_notify_now now now _ _ _ NoData (to_underlying NetworkingIsLoaded) PNone [Networking_on_loaded_success] H0)
    as (n' & Hrun & Hd & Hinv); [done|by rewrite interested_app, Hnone|].
  exists n'. split; [exact Hrun|]. split; [rewrite Hd; exact Hd4|exact Hinv].
Qed.

Lemma production_started now n regs calls :
  node_inv now n regs calls → interested NoData (to_underlying ProductionIsLoaded) regs = [] →
  ∃ n', ProductionLoader_start function_name now n = Ok n' ∧ nd_derived n' = nd_derived n ∧
    node_inv now n' (regs ++ take 5 (drop 5 wiring)) (calls ++ [(Production_on_loaded_success, PNone, now)]).
Proof.
  intros H0 Hnone. unfold ProductionLoader_start. cbn zeta.
  apply (inv_create_all _ (take 5 (drop 5 wiring))) in H0 as [H0 Hd0].
  destruct (inv_notify_now now now _ _ _ NoData (to_underlying ProductionIsLoaded) PNone [Production_on_loaded_success] H0)
    as (n' & Hrun & Hd & Hinv); [done|by rewrite interested_app, Hnone|].
  exists n'. split; [exact Hrun|]. split; [by rewrite Hd, Hd0|exact Hinv].
Qed.

Lemma bind_ok {A B} (m : result A) a (f : A → result B) : m = Ok a → m ≫= f = f a.
Proof. by intros ->. Qed.

Lemma prepare_wiring n : TimelineImpl_prepare function_name n = create_all (drop 10 wiring) n.
Proof. reflexivity. Qed.

Lemma wiring_split : (([] ++ take 5 wiring) ++ take 5 (drop 5 wiring)) ++ drop 10 wiring = wiring.
Proof. reflexivity. Qed.

(** Starting the node succeeds, whatever the hashes of the engines are. *)
Lemma run_node_inv now :
  ∃ n, run_node function_name now = Ok n ∧ nd_derived n = derived ∧ node_inv now n wiring (loaded_calls now).
Proof.
  destruct (networking_started now Node_new [] []) as (n1 & Hrun1 & Hd1 & H1); [apply new_inv|done|done|].
  destruct (production_started now n1 _ _ H1) as (n2 & Hrun2 & Hd2 & H2); [done|].
  apply (inv_create_all _ (drop 10 wiring)) in H2 as [H2 Hd3].
  exists (TimelineImpl_prepare function_name n2). split.
  - unfold run_node. rewrite (bind_ok _ _ _ Hrun1). by rewrite (bind_ok _ _ _ Hrun2).
  - rewrite prepare_wiring, Hd3, Hd2, Hd1. rewrite wiring_split in H2. done.
Qed.

(** ** Emitting *)

Lemma inv_dispatch now now' n rest calls d key args cs :
  node_inv now n wiring calls → nd_derived n = derived ++ rest → now ≤ now' → interested d key wiring = cs →
  ∃ n' rest', notify_event function_name now' d key args n = Ok n' ∧ nd_derived n' = derived ++ rest' ∧
    node_inv now' n' wiring (calls ++ ((λ c, (c, args, now')) <$> cs)).
Proof.
  intros Hinv Hd Hle Hcs. destruct (inv_notify_now now now' n wiring calls d key args cs Hinv Hle Hcs) as (n' & Hrun & Hd' & H').
  exists n', rest. by rewrite Hd'.
Qed.

(** The types the loaders subscribed keep their numbers. *)
Lemma get_derived d n rest :
  nd_derived n = derived ++ rest →
  ∃ key l, DeriveEventType_get d n = (key, mkNode (nd_manager n) (derived ++ l) (nd_callbacks n)) ∧
    ∀ i, derived !! i = Some d → key = to_underlying Derive + N.of_nat i.
Proof.
  intros Hd. unfold DeriveEventType_get.
  assert (Hnum : ∀ i, derived !! i = Some d → list_find (λ x, x = d) (nd_derived n) = Some (i, d)).
  { rewrite Hd. intros [|[|[|i]]] Hi; try (by inversion Hi); by injection Hi as <-. }
  destruct (list_find _ _) as [[i x]|].
  - exists (to_underlying Derive + N.of_nat i), rest. split; [destruct n; cbn in Hd; by subst|].
    intros j Hj%Hnum. by injection Hj as -> _.
  - eexists _, (rest ++ [d]). rewrite Hd, <- app_assoc. split; [done|]. by intros i Hi%Hnum.
Qed.

Lemma inv_derive now now' n rest calls d args cs :
  node_inv now n wiring calls → nd_derived n = derived ++ rest → now ≤ now' →
  (∀ key, (∀ i, derived !! i = Some d → key = to_underlying Derive + N.of_nat i) → interested d key wiring = cs) →
  ∃ n' rest', dispatchDerive function_name now' d args n = Ok n' ∧ nd_derived n' = derived ++ rest' ∧
    node_inv now' n' wiring (calls ++ ((λ c, (c, args, now')) <$> cs)).
Proof.
  intros Hinv Hd Hle Hcs. unfold dispatchDerive. destruct (get_derived d n rest Hd) as (key & l & -> & Hkey).
  apply (inv_dispatch now now' _ l); [by apply with_derived|done|done|by apply Hcs].
Qed.

(** The delay in the microseconds of notifyDelayed *)
Definition timeout_of (ev : NodeEvent) : N := match ev with EvInterval wait _ => 1000 * wait | _ => 0 end.
Lemma delay_timeout ev : delay ev = 1000 * timeout_of ev.
Proof. destruct ev; cbn [delay timeout_of]; lia. Qed.

(** How an event is sent: by a key of its own or by its type *)
Definition channel (ev : NodeEvent) : EventData * option EventKey :=
  match ev with
  | EvPeerConnected _ => (ConstPeerConnectedMessage, Some (to_underlying PeerConnected))
  | EvPeerDisconnected _ => (ConstPeerDisconnectedMessage, Some (to_underlying PeerDisconnected))
  | EvPeerCounts _ => (ConstPeerCountsMessage, Some (to_underlying PeerCountsUpdated))
  | EvStatus _ => (ConstStatusMessageReceived, None)
  | EvVoteReceived _ => (ConstSignedVoteReceived, None)
  | EvBlockProduced _ => (ConstBlock, Some (to_underlying BlockProduced))
  | EvSendBlock _ => (ConstSendSignedBlock, None)
  | EvSendVote _ => (ConstSendSignedVote, None)
  | EvSendAggregation _ => (ConstSendSignedAggregatedAttestation, None)
  | EvInterval _ _ => (ConstSlotIntervalStarted, Some (to_underlying SlotIntervalStarted))
  | EvHeaderAdded _ => (MutableBlockHeader, Some (to_underlying BlockAdded))
  | EvBlockAdded _ _ => (ConstNewLeaf, Some (to_underlying BlockAdded))
  | EvFinalized _ _ => (MutableFinalized, Some (to_underlying BlockFinalized))
  end.

Lemma emit_channel now ev n :
  emit now ev n = match channel ev with
                  | (d, Some key) => notify_event_delayed function_name now (timeout_of ev) d key (payload ev) n
                  | (d, None) => dispatchDerive function_name now d (payload ev) n
                  end.
Proof. by destruct ev. Qed.

Lemma channel_audience ev key :
  match channel ev with
  | (d, Some key') => key = key'
  | (d, None) => ∀ i, derived !! i = Some d → key = to_underlying Derive + N.of_nat i
  end → interested (channel ev).1 key wiring = audience ev.
Proof.
  destruct ev; cbn [channel fst]; try (by intros ->); intros Hkey; try done.
  - by rewrite (Hkey 0%nat).
  - by rewrite (Hkey 1%nat).
  - by rewrite (Hkey 2%nat).
Qed.

Lemma channel_delay ev : (channel ev).2 = None → timeout_of ev = 0.
Proof. by destruct ev. Qed.

Lemma inv_emit now now' n rest calls ev :
  node_inv now n wiring calls → nd_derived n = derived ++ rest → now ≤ now' →
  ∃ n' rest', emit now' ev n = Ok n' ∧ nd_derived n' = derived ++ rest' ∧
    node_inv now' n' wiring (calls ++ calls_of (now', ev)).
Proof.
  intros Hinv Hd Hle. rewrite emit_channel. unfold calls_of. cbn [fst snd]. rewrite delay_timeout.
  pose proof (channel_audience ev) as Ha. pose proof (channel_delay ev) as Hz.
  destruct (channel ev) as [d [key|]]; cbn [fst snd] in Ha, Hz.
  - rewrite <- (Ha key eq_refl).
    destruct (inv_notify now now' n wiring calls (timeout_of ev) d key (payload ev) Hinv Hle) as (n' & Hrun & Hd' & H').
    exists n', rest. by rewrite Hd'.
  - rewrite Hz, N.mul_0_r, N.add_0_r by done. by eapply inv_derive.
Qed.

Lemma node_run_inv now n start evs :
  node_run now n start evs →
  node_inv now n wiring (expected start evs) ∧ ∃ rest, nd_derived n = derived ++ rest.
Proof.
  induction 1 as [now n Hrun|now now' ev n n' start evs _ [IH [rest Hrest]] Hle He|now now' r n w start evs _ [IH Hrest] Hle Hw].
  - destruct (run_node_inv now) as (n' & Hrun' & Hd & Hinv). rewrite Hrun in Hrun'. injection Hrun' as <-.
    split; [exact Hinv|by exists []].
  - destruct (inv_emit now now' n rest _ ev IH Hrest Hle) as (n2 & rest' & Hrun & Hd & Hinv).
    rewrite He in Hrun. injection Hrun as <-. split; [|by exists rest'].
    unfold expected. rewrite bind_app, bind_singleton, app_assoc. exact Hinv.
  - split; [by eapply inv_worker|done].
Qed.

(** C32: The node is wired as meant: at every time of a running node no event fails to be sent, and
    the tasks handed to the thread of the subscribers are exactly, in order, the calls of the two
    modules' loaded handlers and then, for each event emitted, the calls of the handlers the event
    is for, with its data and due after its delay (the milliseconds of the timeline; other events have none): signed blocks, votes and aggregations go to
    networking, an interval to production and then to the timeline, a new leaf to production, peer
    counts to the timeline, and all others, finalization among them, to nobody.  Calls that are due
    at one instant start in that order and none before its time. *)
Theorem events_routed now n start evs :
  node_run now n start evs →
  (∀ now' ev, now ≤ now' → ∃ n', emit now' ev n = Ok n') ∧
  ∃ h, ad_handlers (sm_dispatcher (nd_manager n)) !! 0%nat = Some h ∧
    Forall2 (makes_call n) (sc_added h) (expected start evs) ∧
    (∀ at_, due_at at_ (sc_added h) = due_at at_ ((sc_log h).*2 ++ sc_tasks h)) ∧
    Forall (λ x, deadline x.2 ≤ x.1 ∧ x.1 ≤ now) (sc_log h).
Proof.
  intros [[Hwf (sent & Hr & Hcalls)] [rest Hrest]]%node_run_inv. split.
  - intros now' ev Hle. assert (Hinv : node_inv now n wiring (expected start evs)) by (split; eauto).
    destruct (inv_emit now now' n rest _ ev Hinv Hrest Hle) as (n' & _ & Hrun & _). by exists n'.
  - destruct (nw_thread _ _ Hwf) as [h Hh]. exists h. split; [done|].
    apply reach_handlers in Hr as (_ & _ & Hr). destruct (Hr _ _ Hh) as [Hreach ->].
    apply sched_reachable_wf in Hreach as Hs. destruct Hs as [_ Hf Hl _]. rewrite (proj2 (Hr _ _ Hh)) in Hf. done.
Qed.
End routing.


(** A node whose block tree finalizes a block and whose timeline starts interval 3 in 800 ms *)
Module LoadersEx.
#[local] Instance build : BuildMode := DebugBuild.

(** Names in the form that clang gives them *)
Definition argument (d : EventData) : string :=
  match d with
  | NoData => ""
  | ConstSlotIntervalStarted => ", std::shared_ptr<const lean::messages::SlotIntervalStarted>"
  | ConstNewLeaf => ", std::shared_ptr<const lean::messages::NewLeaf>"
  | MutableBlockHeader => ", std::shared_ptr<lean::BlockHeader>"
  | ConstFinalized => ", std::shared_ptr<const lean::messages::Finalized>"
  | MutableFinalized => ", std::shared_ptr<lean::messages::Finalized>"
  | ConstPeerConnectedMessage => ", std::shared_ptr<const lean::messages::PeerConnectedMessage>"
  | ConstPeerDisconnectedMessage => ", std::shared_ptr<const lean::messages::PeerDisconnectedMessage>"
  | ConstPeerCountsMessage => ", std::shared_ptr<const lean::messages::PeerCountsMessage>"
  | ConstBlock => ", std::shared_ptr<const lean::Block>"
  | ConstSendSignedBlock => ", std::shared_ptr<const lean::messages::SendSignedBlock>"
  | ConstSendSignedVote => ", std::shared_ptr<const lean::messages::SendSignedVote>"
  | ConstSendSignedAggregatedAttestation => ", std::shared_ptr<const lean::messages::SendSignedAggregatedAttestation>"
  | ConstStatusMessageReceived => ", std::shared_ptr<const lean::messages::StatusMessageReceived>"
  | ConstSignedVoteReceived => ", std::shared_ptr<const lean::messages::SignedVoteReceived>"
  end%string.
Definition name (d : EventData) : list N :=
  Hasher.chars ("static EngineHash lean::se::SubscriptionManager<1, 3>::getSubscriptionHash() [kHandlersCount = 1, kPoolSize = 3, Args = <lean::EventTypes"
                ++ argument d ++ ">]")%string.

(** No two of the types that the node uses share an engine. *)
#[local] Instance hash_inj : Inj (=) (=) (getSubscriptionHash name).
Proof.
  intros d d'. destruct d, d'; try reflexivity; (vm_compute; discriminate).
Qed.

Definition block : BlockIndex := mkBlockIndex 0 100.
Definition interval : Interval.Interval := Interval.mkInterval 3.
Definition after {A} (d : A) (r : result A) : A := match r with Ok a => a | _ => d end.
Definition node0 : Node := after Node_new (run_node name 50).
Definition node1 : Node := after Node_new (emit name 60 (EvFinalized block []) node0).
Definition node2 : Node := after Node_new (emit name 70 (EvInterval 800 interval) node1).

Lemma node2_run : node_run name 70 node2 50 [(60, EvFinalized block []); (70, EvInterval 800 interval)].
Proof.
  apply (run_emit name 60 70 (EvInterval 800 interval) node1 node2 50 [(60, EvFinalized block [])]); [|done|by vm_compute].
  apply (run_emit name 50 60 (EvFinalized block []) node0 node1 50 []); [|done|by vm_compute].
  apply run_started. by vm_compute.
Qed.

Lemma events_routed_witness :
  ∃ h, ad_handlers (sm_dispatcher (nd_manager node2)) !! 0%nat = Some h ∧
    Forall2 (makes_call node2) (sc_added h)
      [(Networking_on_loaded_success, PNone, 50); (Production_on_loaded_success, PNone, 50);
       (Production_on_slot_interval_started, PInterval interval, 800000070);
       (Timeline_on_slot_interval_started, PInterval interval, 800000070)].
Proof.
  destruct (events_routed name 70 node2 50 _ node2_run) as [_ (h & Hh & Hcalls & _)].
  exists h. split; [exact Hh|exact Hcalls].
Defined.
End LoadersEx.
